(* ===== verification/_CoqProject ===== *)
-Q . S2P
Prelude.v
CBuffer.v
CList.v
CString.v
Format.v
Mem.v
Crc.v
PTable.v
Devs.v
Msg.v
Phfs.v
Syspage.v
SyspageMaps.v
SyspageProgs.v
Mpu.v
Mpu8.v
Getopt.v
Cmd.v
Rtt.v
Nor.v
FlashDrv.v
PMem.v
RamDrv.v
Loader.v
App.v
AppLoad.v
RamFile.v
Copy.v
Script.v
Tools.v
HalMemory.v
Mmu.v
Mmu64.v
Mmu7.v
DiskBios.v
Fdt.v
SbiFdt.v
Dtb.v
NandData.v
SdCard.v
SbiHsm.v
SbiIpi.v
SbiExc.v
Uart.v
Zynq.v
Qspi.v
FlashCfg.v
FlashZynq.v
Console.v
Dump.v
TestDev.v
Memcrypt.v
Mce.v
