(* ===== verification/Prelude.v ===== *)
(** * Phoenix-RTOS loader (plo): verification development

    plo starts on the bare hardware, reads a script of commands (or commands from
    the console), copies the kernel and programs from storage or from a host into
    memory, describes memory and programs in the _system page_ and jumps to the
    kernel.  This development models the parts of it that compute something, as
    executable definitions translated from the C code, and proves what they promise.

    ** The program and its files

    Data structures and the library (src/lib):
    - CBuffer.v: lib/cbuffer.c, the byte queue under the serial drivers.
    - CList.v: lib/list.c, circular lists of records that carry their links; the
      walks of such lists their clients write out.
    - CString.v: lib/ctype.c, lib/strtoul.c and the string routines of the HAL.
    - Format.v: lib/format.c and lib/sprintf.c.
    - Crc.v: lib/crc32.c, in both variants.
    - Getopt.v: lib/getopt.c.
    - PTable.v: lib/ptable.c, partition tables in the last block of a flash.
    - Mem.v: bytes in memory and little-endian words, used by the others.

    Devices (src/devices, src/phfs):
    - Devs.v: devices/devs.c, the table of drivers.  A driver is a record of
      operations on a world; every driver and every client below uses it.
    - Msg.v and Phfs.v: phfs/msg.c, phfs/phoenixd.c, phfs/phfs.c.  Files by name, on a
      device or on a host behind a serial line.
    - Uart.v: devices/uart-16550, a serial port and its interrupt handler.
    - Rtt.v: devices/pipe-rtt, byte pipes in memory shared with a debug probe.
    - Nor.v and FlashDrv.v: devices/flash-imxrt/nor and flashdrv.c, chips and the
      driver with its sector buffer; Nor.v gives FlashDrv.v the class [NorLaws].
    - Console.v: lib/console.c, printf.c, log.c, prompt.c, the console, a device with
      mirrors and hooks, and what is shown on it.
    - PMem.v and RamDrv.v: devices/ram-storage/ramdrv.c over physical memory.

    Memory, the system page and the platforms:
    - Syspage.v: syspage.c, the code; SyspageMaps.v: its maps and their entries;
      SyspageProgs.v: its programs.
    - HalMemory.v: [hal_memoryGetNextEntry] of the platforms, which tells the system
      page what memory is in use (armv7m/imxrt, armv7a/imx6ull, armv7a/zynq7000,
      ia32/memory.c).
    - Mpu.v, Mpu8.v: hal/armv7m/mpu.c and hal/armv8m/mpu.c, protection regions for
      the maps of the system page.
    - Mmu.v, Mmu64.v, Mmu7.v: hal/aarch64/mmu.c, hal/armv7a/mmu.c and the
      [hal_memoryInit] of four platforms; Mmu.v has the interface [Translation]
      both implement and the loops of the platforms are proved against.
    - Dtb.v: hal/riscv64/dtb.c, the flattened device tree on RISC-V; Fdt.v has the trees
      and their encoding, which Dtb.v and SbiFdt.v are proved against.

    More storage (src/devices):
    - DiskBios.v: devices/disk-bios, disks behind the BIOS of a PC with a read and a
      write cache.  The interrupt is the class [Int13], [Int13_disks] its laws.
    - NandData.v: devices/nand-imx6ull/data.c, a NAND flash with bad blocks.  The chip
      is the class [Nand]; [NandLaws] allows it to fail at any operation, [Reliable]
      does not.
    - SdCard.v: devices/sdcard-zynq7000, the driver and the transfers of sdcard.c over
      the class [Sdio] of commands, with the laws [Sdio_card].
    - Qspi.v: devices/flash-zynq/qspi.c, the controller of the serial flash of the
      Zynq-7000 over its registers, the class [Regs] with the laws [Qspi_hw]; what is
      on the other side of the wires is the class [Slave].
    - FlashCfg.v and FlashZynq.v: devices/flash-zynq/flashcfg.c and flashdrv.c, the
      known chips and the driver with its sector buffer, over Qspi.v; the laws
      [Nor_chip] say what the chip answers.
    - Mce.v: devices/flash-stm32xspi/mce.c, the encryption of external memory of the
      STM32N6, over the class [Mce] of registers with the laws [Mce_hw].
    - Zynq.v: hal/armv7a/zynq7000/zynq.c, the clocks, pins and resets the drivers of the
      Zynq-7000 ask for, over the class [Slcr] of registers with the laws [Slcr_hw].

    The RISC-V firmware (src/riscv-sbi):
    - SbiFdt.v: core/fdt/fdt.c and fdt-helper.c.
    - SbiHsm.v: core/extensions/hsm.c, ecall_hsm.c: harts that start each other, a
      step relation.
    - SbiIpi.v: core/extensions/ipi.c, ecall_ipi.c, ecall_rfence.c: tasks sent to harts.
    - SbiExc.v: core/exceptions.c, csr.c, interrupts.c, sbi.c, devices/clint.c: traps,
      the instructions emulated or handed on, the timer and the dispatch of calls.
    Commands (src/cmds):
    - Cmd.v: cmds/cmd.c, the parser of lines, scripts, the prompt and its history.
    - Loader.v: the state the commands run on, and cmds/phfs.c, alias.c, map.c, copy.c.
    - App.v: cmds/app.c, blob.c, kernel.c, kernelimg.c.  AppLoad.v proves the loading
      of a program over the interface [FileSource] of a file; RamFile.v implements
      it by a file on the RAM disk, through phfs and the device table.
    - Copy.v: correctness of the copy command over the interface [CopyEnds].
    - Dump.v: cmds/dump.c.  TestDev.v: cmds/test-dev.c.  Memcrypt.v: cmds/memcrypt.c.
    - Script.v: cmds/call.c, script.c.  Tools.v: cmds/erase.c, jffs2.c, ptable.c, mem.c.

    The drivers of DiskBios.v, NandData.v, SdCard.v and FlashZynq.v are entries of the device table
    like those of FlashDrv.v and RamDrv.v.  SbiIpi.v keeps its tasks on the lists of
    CList.v; the number of harts of
    SbiHsm.v is the one SbiFdt.v counts.
    A command reaches files through phfs ([Phfs.phfs_read] and the like), phfs
    reaches storage through the device table ([Devs.devs_read]) and the driver
    registered there, and the host through messages over a device.  The commands
    that load ask the system page for memory; the system page asks the platform
    for the memory in use ([SyspageHal]) and hands it each new map, which on
    Cortex-M becomes protection regions.

    ** How code corresponds to definitions

    A definition has the name of the C function it translates.  Statics and memory
    are arguments and results; [option] is undefined behaviour of C (a NULL or wild
    pointer read through, an access outside a buffer) or, where there is fuel, no
    result yet; error codes are the negative integers of the code.  Integers are [Z]
    with the wrap-around written out ([w8], [w16], [w32], [w64], [wa] for the width
    of an address, [s32], [s64] for signed conversions); the widths of a target are
    the class [Target].  A C string is its list of bytes.  Records on circular lists
    live in stores indexed by address.  The state monad of Loader.v composes the
    commands, whose effects on devices, system page and memory are all in its state.

    ** What the theorems show

    - Memory: an entry the system page allocates lies in its map, overlaps nothing
      and is the best fit ([syspage_entryAdd_fit]); a new map is accepted exactly
      when it conflicts with none and comes with the entries of the platform
      ([syspage_mapAdd_spec]), which cover the sections of the loader and nothing
      else ([mapAdd_covers], [ia32_memory_reserves]); the protection regions allow
      exactly the ranges of the maps, with their attributes ([mpu_table_protects],
      [mpu_table_maps]); the translation tables map every address to itself with
      the intended attributes ([rpi4_memory_map] and the lemmas beside it).
    - Loading: a program ends up complete in memory, in new entries of its maps, and
      described, and nothing else changes ([cmd_appLoad_spec],
      [syspage_progAllocateAndAdd_spec]); copies are faithful ([cmd_cpphfs2phfs_spec]).
    - Storage: the driver with its buffer is a flash ([flashdrv_write_sync],
      [flashdrv_erase_spec], [flashdrv_errors], [nor_laws]), the RAM disk is a bank of
      bytes ([ramdrv_is_bank]), accesses to files stay in them ([phfs_file_access]),
      partition tables are accepted only when sound and survive a round trip
      ([ptable_deserialize_sound], [ptable_serialize_spec]).
    - Communication: frames round trip ([msg_read_frame]), exchanges return what the
      host answered ([phoenixd_read_answered]), pipes are first-in first-out under
      any interleaving and blocking writes return when the probe reads
      ([rtt_pipe_fifo], [rtt_writeBlocking_returns]); a serial port sends all that
      is written and keeps what comes, however its interrupts fall
      ([uart_write_sends], [uart_read_fifo]).
    - Commands: scripts run their lines in order until one fails, from memory and
      from files ([cmd_parse_lines], [cmd_parse_terminates], [cmd_call_equiv]); the
      prompt edits its line within its buffer ([cmd_prompt_edits]);
      [mem] keeps out of the memory of other maps ([cmd_memMain_protects]); a dump can
      be read back: it determines the bytes ([hexdump_readable], [dump_phfs_shows],
      [dump_memory_shows]).
    - Library: queues and lists refine lists ([cbuf_refines_queue],
      [lib_list_refines]); formatting, options, numbers and checksums agree with
      reference definitions ([lib_formatParse_feeds], [lib_getopt_parses],
      [lib_strtoul_spec], [sprintf_strtoul_roundtrip], [tmp_buf_fits],
      [lib_crc32_tab_equiv], [lib_crc32_detects_byte]).
    - More storage: what is written to a BIOS disk is on it after a sync
      ([diskbios_write_sync]); what is written to a NAND flash whose reads do not fail is
      read back, bad blocks skipped, and synchronisation moves a block that cannot be
      programmed to the next good one or reports that there is none
      ([data_write_read], [data_sync_moves]); the SD card is a bank of bytes
      ([sdcard_is_bytes]); on the Zynq-7000 a transfer to the flash exchanges exactly its
      bytes ([qspi_polledTransfer_exchanges]), what is written is on the chip after a sync
      ([zflash_write_sync]), for every chip in the table ([chips_ok]), and a clock
      that is set is read back ([zynq_clock_roundtrip]).  The checksum of keys is CRC-8
      and a region that fits is encrypted with its key ([crc8_consumeWord_spec],
      [mce_configureRegion_ready]).
    - Tests and keys: a device that passes the test holds the pattern, whatever it did,
      and one without faults ([DeviceBank]) passes ([testdev_sound],
      [testdev_complete]); keys are read as they are written and have the size of the cipher ([getHexBuffer_roundtrip],
      [memcrypt_setup_sized]).
    - RISC-V: the processors and the controller of a device tree are found
      ([dtb_parse_tree], [fdt_parseCpus_tree]); however the harts interleave, each enters
      the payload at most once, and with the address it was started with once both are
      written ([hsm_starts_once], [hsm_start_params]); every task accepted by a queue
      runs exactly once ([ipi_refines]); reading a counter is emulated as the instruction
      set defines it and other illegal instructions trap to the payload
      ([exceptions_emulates]).
    A theorem with hypotheses is followed by a witness that applies it to concrete
    data.

    ** Bounds and fuel

    Loops over data recurse over the data.  Loops that wait for hardware or a host
    take [fuel]: readings of a status register (Nor.v, FlashDrv.v, Uart.v, Qspi.v,
    FlashZynq.v, Zynq.v), bytes and tries
    of a reply (Msg.v, Phfs.v), polls of a pipe (Rtt.v), ranges of the BIOS
    (HalMemory.v).  Their theorems assume a peer that answers within the fuel and
    then prove that there is a result; more fuel never changes one.  Loops whose
    length a device decides run at most [steps] times (Loader.v, App.v, Copy.v), and
    the theorems say how many suffice: the size of the file over the size of the
    buffer, plus one.  Nested scripts go to a [depth] (Script.v).  [cmd_parse] and
    option parsing take as many steps as there are bytes or arguments, which is
    proved to be enough.  Walks of a device tree take as many steps as the blob has
    bytes; a NAND block is programmed at most once per block of the chip; a transfer to
    an SD card takes a step per block.  A hart that sends to a full queue tries again
    [fuel] times (SbiIpi.v), where the code has no limit.  In SbiHsm.v a step of a hart
    is at most one access to shared memory, and accesses are sequentially consistent.

    ** Assumptions

    - The heap of the system page lies outside the maps it describes, so that
      loading a program into a map does not change records; strings and records are
      kept in stores of their types and do not overlap.
    - Locals that C leaves uninitialised are arguments ([garbage], [smsg], [rmsg]);
      a new record of the heap has the value 0 in fields the code does not set.
    - Words in memory are little-endian.  The targets of leon are big-endian: what is
      proved over words in memory is not about them.
    - What the processor does with protection regions and translation tables is
      written from the architecture manuals (the lookups of Mpu.v, Mpu8.v, [walk]).
      What a flash chip does is the classes [Flexspi_chip] and [Nor_chip].

    ** Not modelled

    - The messages of the commands: they change no other state (Dump.v, whose output
      is its purpose, shows how they are modelled over Console.v).
    - The floating point conversions of Format.v: they are compiled out of the loader.
    - Drivers that are sequences of register accesses (the other serial ports, USB, the
      other flash controllers, the host controller of SD cards, timers, interrupt
      controllers, the clocks and pins of the platforms other than the Zynq-7000, and
      there the loading of the FPGA and the set up of the DDR memory): their meaning is
      that of hardware documented elsewhere.
    - Start-up code in assembly, linker scripts (their addresses are parameters or
      named constants), caches, barriers and the TLB.
    - The rest of riscv-sbi: the console, the spinlock (queues are taken to be used by
      one hart at a time) and the set up of a hart. *)

From Stdlib Require Export Btauto ZArith Lia Bool Ascii String List.
From Stdlib Require Strings.Byte Init.Byte.
From stdpp Require Export base tactics gmap strings option list.
Export stdpp.list_basics.list stdpp.list_relations.list.

#[export] Set Default Goal Selector "!".

(** ** Characters and C strings

    A [char] is its byte value.  The bytes of a C string are kept without the
    terminating NUL; a pointer into a string is the suffix it points to. *)

Declare Scope ch_scope.
Delimit Scope ch_scope with ch.

Definition ch_of_byte (b : Byte.byte) : Z := Z.of_N (Byte.to_N b).
Definition byte_of_ch (z : Z) : option Byte.byte := Byte.of_N (Z.to_N z).

String Notation Z ch_of_byte byte_of_ch : ch_scope.

#[global] Open Scope Z_scope.

Abbreviation cstr := (list Z).

(** The bytes of a string literal of the source. *)
Definition str (s : string) : cstr :=
  map (fun a => Z.of_N (N_of_ascii a)) (list_ascii_of_string s).

(** [*p] for a pointer [p] into a string: the NUL is read at the end. *)
Definition deref (p : cstr) : Z := default 0 (head p).

(** [p[i]] for [i] within the string or on its NUL. *)
Definition at_ (p : cstr) (i : nat) : Z := default 0 (p !! i).

(** The bytes of a C string: non-zero bytes. *)
Definition cstr_ok (s : cstr) : Prop := Forall (fun c => 0 < c < 256) s.

(** ** Machine integers *)

Definition w8 (x : Z) : Z := x mod 2 ^ 8.
Definition w16 (x : Z) : Z := x mod 2 ^ 16.
Definition w32 (x : Z) : Z := x mod 2 ^ 32.
Definition w64 (x : Z) : Z := x mod 2 ^ 64.

(** Conversion to a signed 32-bit [int]. *)
Definition s32 (x : Z) : Z :=
  let y := w32 x in if y <? 2 ^ 31 then y else y - 2 ^ 32.

(** Conversion to a signed 64-bit integer. *)
Definition s64 (x : Z) : Z :=
  let y := w64 x in if y <? 2 ^ 63 then y else y - 2 ^ 64.

(** The target of a build: [addr_t], [size_t] and [unsigned long] are unsigned
    integers of the same width (hal/*/types.h). *)
Class Target := {
  addr_bits : Z;
  addr_bits_ok : addr_bits = 32 \/ addr_bits = 64
}.

Definition target32 : Target := {| addr_bits := 32; addr_bits_ok := or_introl eq_refl |}.
Definition target64 : Target := {| addr_bits := 64; addr_bits_ok := or_intror eq_refl |}.

(** Wrap-around of an [addr_t], a [size_t] or an [unsigned long]. *)
Definition wa `{Target} (x : Z) : Z := x mod 2 ^ addr_bits.

(** [(addr_t)-1] *)
Definition addr_max `{Target} : Z := 2 ^ addr_bits - 1.

(** Conversion to [ssize_t] or [long]. *)
Definition sa `{Target} (x : Z) : Z :=
  let y := wa x in if y <? 2 ^ (addr_bits - 1) then y else y - 2 ^ addr_bits.

(** The C tests [a && b], [a || b] on integers used as booleans. *)
Definition b2z (b : bool) : Z := if b then 1 else 0.

(** ** Arithmetic automation *)

Create HintDb plo.

(** Splits on the width of the target and leaves concrete powers of two. *)
Ltac target_cases :=
  match goal with
  | T : Target |- _ =>
      let w := fresh "w" in let E := fresh "E" in
      unfold addr_max, wa in *;
      pose proof (@addr_bits_ok T) as E;
      set (w := @addr_bits T) in *; clearbody w;
      destruct E as [E|E]; subst w
  | _ => idtac
  end.

Ltac fold_pows :=
  change (2 ^ 8) with 256 in *;
  change (2 ^ 16) with 65536 in *;
  change (2 ^ 31) with 2147483648 in *;
  change (2 ^ 32) with 4294967296 in *;
  change (2 ^ 63) with 9223372036854775808 in *;
  change (2 ^ 64) with 18446744073709551616 in *.

Ltac modlia := Z.to_euclidean_division_equations; lia.

(** Linear arithmetic through the wrap-around functions. *)
Ltac mlia :=
  unfold w8, w16, w32, w64 in *; target_cases; fold_pows; modlia.

Lemma wa_small `{Target} x : 0 <= x < 2 ^ addr_bits -> wa x = x.
Proof. intros. unfold wa. by apply Z.mod_small. Qed.

Lemma wa_range `{Target} x : 0 <= wa x < 2 ^ addr_bits.
Proof. unfold wa. apply Z.mod_pos_bound. target_cases; lia. Qed.

Lemma addr_bits_ge32 `{Target} : 2 ^ 32 <= 2 ^ addr_bits.
Proof. target_cases; lia. Qed.

Lemma w32_small x : 0 <= x < 2 ^ 32 -> w32 x = x.
Proof. intros. unfold w32. by apply Z.mod_small. Qed.

Lemma w32_range x : 0 <= w32 x < 2 ^ 32.
Proof. unfold w32. by apply Z.mod_pos_bound. Qed.

Lemma s32_small x : 0 <= x < 2 ^ 31 -> s32 x = x.
Proof.
  intros. unfold s32. rewrite w32_small by lia.
  destruct (Z.ltb_spec x (2 ^ 31)); lia.
Qed.

Lemma s32_neg x : - 2 ^ 31 <= x < 0 -> s32 x = x.
Proof.
  intros. unfold s32, w32. rewrite <- (Z_mod_plus_full x 1), Z.mod_small by lia.
  destruct (Z.ltb_spec (x + 1 * 2 ^ 32) (2 ^ 31)); lia.
Qed.

Lemma sa_small `{Target} x : 0 <= x < 2 ^ (addr_bits - 1) -> sa x = x.
Proof.
  intros. unfold sa. rewrite wa_small by (target_cases; lia).
  destruct (Z.ltb_spec x (2 ^ (addr_bits - 1))); lia.
Qed.

Lemma sa_small31 `{Target} x : 0 <= x < 2 ^ 31 -> sa x = x.
Proof. intros. apply sa_small. target_cases; lia. Qed.

(** ** Lists indexed by machine integers *)

Abbreviation zlen l := (Z.of_nat (length l)).
Abbreviation ztake n l := (take (Z.to_nat n) l).
Abbreviation zdrop n l := (drop (Z.to_nat n) l).

(** Bytes [off .. off + n) of a buffer. *)
Definition zslice {A} (off n : Z) (l : list A) : list A := ztake n (zdrop off l).

(** [memcpy(buf + off, xs, |xs|)] within the buffer. *)
Definition splice {A} (off : Z) (xs l : list A) : list A :=
  ztake off l ++ xs ++ drop (Z.to_nat off + length xs) l.

Lemma length_splice {A} off (xs l : list A) :
  0 <= off -> off + zlen xs <= zlen l -> length (splice off xs l) = length l.
Proof.
  intros. unfold splice. rewrite !length_app, length_take, length_drop. lia.
Qed.

Lemma zslice_splice_same {A} off n (xs l : list A) :
  0 <= off -> off + zlen xs <= zlen l -> n = zlen xs ->
  zslice off n (splice off xs l) = xs.
Proof.
  intros ? ? ->. unfold zslice, splice.
  rewrite drop_app_length' by (rewrite length_take; lia).
  by rewrite Nat2Z.id, take_app_length.
Qed.

(** A slice disjoint from the bytes overwritten is unchanged. *)
Lemma zslice_splice_before {A} off o n (xs l : list A) :
  0 <= o -> 0 <= n -> o + n <= off -> off + zlen xs <= zlen l ->
  zslice o n (splice off xs l) = zslice o n l.
Proof.
  intros. unfold zslice, splice.
  rewrite drop_app_le by (rewrite length_take; lia).
  rewrite take_app_le by (rewrite length_drop, length_take; lia).
  rewrite skipn_firstn_comm, take_take. f_equal. lia.
Qed.

Lemma zslice_splice_after {A} off o n (xs l : list A) :
  0 <= off -> off + zlen xs <= o -> off + zlen xs <= zlen l ->
  zslice o n (splice off xs l) = zslice o n l.
Proof.
  intros. unfold zslice, splice. rewrite app_assoc, drop_app_ge
    by (rewrite length_app, length_take; lia).
  rewrite drop_drop, length_app, length_take. do 2 f_equal. lia.
Qed.

Lemma zslice_app {A} off n m (l : list A) :
  0 <= off -> 0 <= n -> 0 <= m ->
  zslice off (n + m) l = zslice off n l ++ zslice (off + n) m l.
Proof.
  intros. unfold zslice.
  rewrite Z2Nat.inj_add by lia.
  rewrite (Z2Nat.inj_add off n), <- (drop_drop l) by lia.
  rewrite <- (take_drop (Z.to_nat n) (take _ (drop (Z.to_nat off) l))).
  rewrite take_take, skipn_firstn_comm. repeat f_equal; lia.
Qed.

Lemma length_zslice {A} off n (l : list A) :
  0 <= off -> 0 <= n -> off + n <= zlen l -> zlen (zslice off n l) = n.
Proof. intros. unfold zslice. rewrite length_take, length_drop. lia. Qed.

(** A slice that ends with the bytes overwritten. *)
Lemma zslice_splice_tail {A} off o n (xs l : list A) :
  0 <= o <= off -> off + zlen xs <= zlen l -> o + n = off + zlen xs ->
  zslice o n (splice off xs l) = zslice o (off - o) l ++ xs.
Proof.
  intros. replace n with ((off - o) + zlen xs) by lia.
  rewrite zslice_app by lia. rewrite zslice_splice_before by lia. f_equal.
  replace (o + (off - o)) with off by lia. apply zslice_splice_same; lia.
Qed.

Lemma zslice_nil {A} off (l : list A) : zslice off 0 l = [].
Proof. reflexivity. Qed.

Lemma zslice_0 {A} n (l : list A) : zslice 0 n l = ztake n l.
Proof. reflexivity. Qed.

(** Splits every integer comparison of the goal and the hypotheses. *)
Ltac cases_ifs :=
  repeat match goal with
  | |- context [?a =? ?b] => destruct (Z.eqb_spec a b)
  | |- context [?a <? ?b] => destruct (Z.ltb_spec a b)
  | |- context [?a <=? ?b] => destruct (Z.leb_spec a b)
  | H : context [?a =? ?b] |- _ => destruct (Z.eqb_spec a b)
  | H : context [?a <? ?b] |- _ => destruct (Z.ltb_spec a b)
  | H : context [?a <=? ?b] |- _ => destruct (Z.leb_spec a b)
  end; cbn [andb orb negb] in *.

(** A prefix [o] of [l] of length [n], cut short only when nothing is left. *)
Lemma queue_split {A} (o r l : list A) n sz :
  l = o ++ r -> zlen o = n -> n <= sz -> n = sz \/ r = [] ->
  n = Z.min sz (zlen l) /\ o = ztake n l /\ r = zdrop n l.
Proof.
  intros -> <- ? D. rewrite Nat2Z.id, take_app_length, drop_app_length, length_app.
  split_and!; try done. destruct D as [D| ->]; cbn; lia.
Qed.

(** Setting bit 5 leaves an integer or adds 32 to it. *)
Lemma lor_0x20 c : Z.lor c 0x20 = c \/ Z.lor c 0x20 = c + 32.
Proof.
  destruct (Z.testbit c 5) eqn:B.
  - left. apply Z.bits_inj. intros i. rewrite Z.lor_spec. change 32 with (2 ^ 5).
    rewrite Z.pow2_bits_eqb by lia. destruct (Z.eqb_spec 5 i); subst; rewrite ?B; btauto.
  - right. rewrite <- Z.lxor_lor, Z.add_nocarry_lxor; [done|..];
      apply Z.bits_inj; intros i; rewrite Z.land_spec, Z.bits_0; change 32 with (2 ^ 5);
      rewrite Z.pow2_bits_eqb by lia; destruct (Z.eqb_spec 5 i); subst; rewrite ?B; btauto.
Qed.
