(* ===== verification/CBuffer.v ===== *)
(** * The circular byte buffer (src/lib/cbuffer.c, src/lib/cbuffer.h)

    [cbuffer_t] with its operations, and the abstract specification: a bounded
    first-in first-out queue.  [contents] is the abstraction function; the
    refinement theorems at the end of the file show that each operation of the
    code is the queue operation on [contents]. *)

From S2P Require Import Prelude.

(** ** The structure *)

Record cbuffer := mk_cbuffer {
  cb_capacity : Z;
  cb_tail : Z;
  cb_head : Z;
  cb_full : bool;
  cb_data : list Z
}.

Section cbuffer.
  Context `{Target}.

(** ** Operations *)

Definition lib_cbufSize (buf : cbuffer) : Z :=
  if cb_tail buf =? cb_head buf then
    if cb_full buf then cb_capacity buf else 0
  else wa (cb_tail buf - cb_head buf + cb_capacity buf) mod cb_capacity buf.

Definition lib_cbufEmpty (buf : cbuffer) : bool :=
  (cb_head buf =? cb_tail buf) && negb (cb_full buf).

(** [hal_memcpy] into the buffer is [splice]; [data] holds the bytes the
    caller's pointer reaches, [sz] is the length the caller passes.  [bytes] is
    an [int], the quantities it is compared with are [size_t]. *)
Definition lib_cbufWrite (buf : cbuffer) (data : list Z) (sz : Z) : Z * cbuffer :=
  if (sz =? 0) || cb_full buf then (0, buf)
  else
    let '(bytes, mem) :=
      if cb_tail buf <? cb_head buf then
        let n := Z.min sz (cb_head buf - cb_tail buf) in
        (s32 n, splice (cb_tail buf) (ztake n data) (cb_data buf))
      else
        let n := Z.min sz (cb_capacity buf - cb_tail buf) in
        let bytes := s32 n in
        let mem := splice (cb_tail buf) (ztake n data) (cb_data buf) in
        if (wa bytes <? sz) && negb (cb_head buf =? 0) then
          let data := zdrop bytes data in
          let sz := wa (sz - bytes) in
          let m := Z.min sz (cb_head buf) in
          (s32 (wa bytes + m), splice 0 (ztake m data) mem)
        else (bytes, mem)
    in
    let tail := wa (cb_tail buf + bytes) mod cb_capacity buf in
    (wa bytes,
      {| cb_capacity := cb_capacity buf;
         cb_tail := tail;
         cb_head := cb_head buf;
         cb_full := tail =? cb_head buf;
         cb_data := mem |}).

Definition lib_cbufWriteByte (buf : cbuffer) (data : Z) : Z * cbuffer :=
  if cb_full buf then (0, buf)
  else
    let tail := wa (cb_tail buf + 1) mod cb_capacity buf in
    (1, {| cb_capacity := cb_capacity buf;
           cb_tail := tail;
           cb_head := cb_head buf;
           cb_full := tail =? cb_head buf;
           cb_data := splice (cb_tail buf) [data] (cb_data buf) |}).

(** The bytes copied to the caller's [data] are returned with the count. *)
Definition lib_cbufRead (buf : cbuffer) (sz : Z) : Z * list Z * cbuffer :=
  if (sz =? 0) || ((cb_head buf =? cb_tail buf) && negb (cb_full buf)) then (0, [], buf)
  else
    let '(bytes, out) :=
      if cb_head buf <? cb_tail buf then
        let n := Z.min sz (cb_tail buf - cb_head buf) in
        (s32 n, zslice (cb_head buf) n (cb_data buf))
      else
        let n := Z.min sz (cb_capacity buf - cb_head buf) in
        let bytes := s32 n in
        let out := zslice (cb_head buf) n (cb_data buf) in
        if wa bytes <? sz then
          let sz := wa (sz - bytes) in
          let m := Z.min sz (cb_tail buf) in
          (s32 (wa bytes + m), out ++ zslice 0 m (cb_data buf))
        else (bytes, out)
    in
    (wa bytes, out,
      {| cb_capacity := cb_capacity buf;
         cb_tail := cb_tail buf;
         cb_head := wa (cb_head buf + bytes) mod cb_capacity buf;
         cb_full := false;
         cb_data := cb_data buf |}).

Definition lib_cbufReadByte (buf : cbuffer) : Z * list Z * cbuffer :=
  if (cb_head buf =? cb_tail buf) && negb (cb_full buf) then (0, [], buf)
  else
    (1, zslice (cb_head buf) 1 (cb_data buf),
      {| cb_capacity := cb_capacity buf;
         cb_tail := cb_tail buf;
         cb_head := wa (cb_head buf + 1) mod cb_capacity buf;
         cb_full := false;
         cb_data := cb_data buf |}).

Definition lib_cbufInit (data : list Z) (capacity : Z) : cbuffer :=
  {| cb_capacity := capacity;
     cb_tail := 0;
     cb_head := 0;
     cb_full := false;
     cb_data := data |}.

(** A run of the buffer's operations, as its producer and its consumer (an
    interrupt handler and the main loop of a UART driver) interleave them. *)
Inductive cbuf_op :=
| OpWrite (data : list Z)
| OpWriteByte (b : Z)
| OpRead (sz : Z)
| OpReadByte.

(** One operation: the bytes the buffer accepted, the bytes it gave back. *)
Definition cbuf_step (op : cbuf_op) (buf : cbuffer) : list Z * list Z * cbuffer :=
  match op with
  | OpWrite data => let '(n, buf) := lib_cbufWrite buf data (zlen data) in (ztake n data, [], buf)
  | OpWriteByte b => let '(n, buf) := lib_cbufWriteByte buf b in (ztake n [b], [], buf)
  | OpRead sz => let '(_, out, buf) := lib_cbufRead buf sz in ([], out, buf)
  | OpReadByte => let '(_, out, buf) := lib_cbufReadByte buf in ([], out, buf)
  end.

Fixpoint cbuf_run (ops : list cbuf_op) (buf : cbuffer) : list Z * list Z * cbuffer :=
  match ops with
  | [] => ([], [], buf)
  | op :: ops =>
      let '(w, r, buf) := cbuf_step op buf in
      let '(ws, rs, buf) := cbuf_run ops buf in
      (w ++ ws, r ++ rs, buf)
  end.

(** ** Abstraction *)

(** The representation invariant.  The counts of the code are [int]s, hence
    the bound on the capacity. *)
Record cbuf_ok (buf : cbuffer) : Prop := {
  ok_cap : 0 < cb_capacity buf < 2 ^ 30;
  ok_tail : 0 <= cb_tail buf < cb_capacity buf;
  ok_head : 0 <= cb_head buf < cb_capacity buf;
  ok_data : zlen (cb_data buf) = cb_capacity buf;
  ok_full : cb_full buf = true -> cb_head buf = cb_tail buf
}.

(** The queue a buffer stands for: its unread bytes, oldest first. *)
Definition contents (buf : cbuffer) : list Z :=
  if (cb_head buf =? cb_tail buf) && negb (cb_full buf) then []
  else if cb_head buf <? cb_tail buf then
    zslice (cb_head buf) (cb_tail buf - cb_head buf) (cb_data buf)
  else
    zslice (cb_head buf) (cb_capacity buf - cb_head buf) (cb_data buf)
    ++ zslice 0 (cb_tail buf) (cb_data buf).

(** The specification: a queue of at most [cap] bytes. *)
Definition queue_step (cap : Z) (op : cbuf_op) (q : list Z) : list Z * list Z * list Z :=
  match op with
  | OpWrite data =>
      let w := ztake (Z.min (zlen data) (cap - zlen q)) data in (w, [], q ++ w)
  | OpWriteByte b => let w := ztake (Z.min 1 (cap - zlen q)) [b] in (w, [], q ++ w)
  | OpRead sz => ([], ztake (Z.min sz (zlen q)) q, zdrop (Z.min sz (zlen q)) q)
  | OpReadByte => ([], ztake 1 q, zdrop 1 q)
  end.

Fixpoint queue_run (cap : Z) (ops : list cbuf_op) (q : list Z) : list Z * list Z * list Z :=
  match ops with
  | [] => ([], [], q)
  | op :: ops =>
      let '(w, r, q) := queue_step cap op q in
      let '(ws, rs, q) := queue_run cap ops q in
      (w ++ ws, r ++ rs, q)
  end.

(** The sizes of an operation are [size_t]s. *)
Definition op_ok (op : cbuf_op) : Prop :=
  match op with
  | OpWrite data => zlen data < 2 ^ addr_bits
  | OpRead sz => 0 <= sz < 2 ^ addr_bits
  | _ => True
  end.

(** ** Contiguous steps

    Both halves of a transfer are contiguous copies; each one is a queue
    operation by itself, and a wrapping transfer is two of them. *)

Definition put_chunk (buf : cbuffer) (xs : list Z) : cbuffer :=
  let tail := (cb_tail buf + zlen xs) mod cb_capacity buf in
  {| cb_capacity := cb_capacity buf;
     cb_tail := tail;
     cb_head := cb_head buf;
     cb_full := tail =? cb_head buf;
     cb_data := splice (cb_tail buf) xs (cb_data buf) |}.

Definition drop_chunk (buf : cbuffer) (n : Z) : cbuffer :=
  {| cb_capacity := cb_capacity buf;
     cb_tail := cb_tail buf;
     cb_head := (cb_head buf + n) mod cb_capacity buf;
     cb_full := false;
     cb_data := cb_data buf |}.

(** Room to write, and bytes to read, up to the end of the array. *)
Definition room (buf : cbuffer) : Z :=
  if cb_tail buf <? cb_head buf then cb_head buf - cb_tail buf
  else cb_capacity buf - cb_tail buf.

Definition avail (buf : cbuffer) : Z :=
  if cb_head buf <? cb_tail buf then cb_tail buf - cb_head buf
  else cb_capacity buf - cb_head buf.

Lemma mod_step (c t n : Z) :
  0 <= t < c -> 0 <= n -> t + n <= c ->
  (t + n) mod c = if t + n =? c then 0 else t + n.
Proof.
  intros. destruct (Z.eqb_spec (t + n) c) as [->|].
  - apply Z.mod_same. lia.
  - apply Z.mod_small. lia.
Qed.

Lemma put_chunk_ok buf xs :
  cbuf_ok buf -> cb_full buf = false -> 0 < zlen xs <= room buf ->
  cbuf_ok (put_chunk buf xs) /\ contents (put_chunk buf xs) = contents buf ++ xs.
Proof.
  intros [C T Hd D _] F R. unfold room in R. unfold put_chunk, contents; cbn.
  destruct buf as [c t h f d]; cbn in *; subst f.
  rewrite mod_step by (cases_ifs; lia).
  assert (L : zlen (splice t xs d) = c) by (rewrite length_splice; cases_ifs; lia).
  split.
  - constructor; cbn; [lia| |lia|lia|]; cases_ifs; try lia; done.
  - cases_ifs; try lia; subst; rewrite ?zslice_nil, ?app_nil_r; cbn [app];
      rewrite <- ?app_assoc;
      repeat first
        [ rewrite zslice_splice_tail by lia
        | rewrite zslice_splice_before by lia
        | rewrite zslice_splice_after by lia ];
      rewrite ?Z.sub_diag, ?zslice_nil, <- ?app_assoc; repeat f_equal; lia.
Qed.

Lemma drop_chunk_ok buf n :
  cbuf_ok buf -> lib_cbufEmpty buf = false -> 0 < n <= avail buf ->
  cbuf_ok (drop_chunk buf n) /\
  contents buf = zslice (cb_head buf) n (cb_data buf) ++ contents (drop_chunk buf n).
Proof.
  intros [C T Hd D F] E R. unfold avail, lib_cbufEmpty in *. unfold drop_chunk, contents; cbn.
  destruct buf as [c t h f d]; cbn in *. rewrite E, andb_true_r.
  rewrite mod_step by (cases_ifs; lia).
  split; [constructor; cbn; try done; cases_ifs; lia|].
  destruct f; [specialize (F eq_refl); subst t|]; rewrite ?andb_false_r, ?andb_true_r in E;
    cases_ifs; try lia; try done; subst; cbn [app];
    rewrite ?app_assoc, <- ?zslice_app, ?zslice_nil, ?app_nil_r by lia;
    repeat f_equal; lia.
Qed.

Lemma length_contents buf :
  cbuf_ok buf ->
  zlen (contents buf) =
    if cb_full buf then cb_capacity buf
    else if cb_head buf <=? cb_tail buf then cb_tail buf - cb_head buf
    else cb_tail buf - cb_head buf + cb_capacity buf.
Proof.
  intros [C T Hd D F]. unfold contents.
  destruct buf as [c t h f d]; cbn in *.
  destruct f; [specialize (F eq_refl); subst t|]; rewrite ?andb_false_r, ?andb_true_r;
    cases_ifs; try lia; rewrite ?length_app, ?Nat2Z.inj_add, ?length_zslice by lia;
    try lia; subst; cbn; lia.
Qed.

Lemma lib_cbufSize_contents buf : cbuf_ok buf -> lib_cbufSize buf = zlen (contents buf).
Proof.
  intros OK. rewrite length_contents by done. destruct OK as [C T Hd D F].
  unfold lib_cbufSize. destruct buf as [c t h f d]; cbn in *.
  destruct f; [rewrite F, Z.eqb_refl by done; done|].
  assert (R : wa (t - h + c) = t - h + c)
    by (apply wa_small; pose proof addr_bits_ge32; lia).
  rewrite R. destruct (Z.eqb_spec t h); [cases_ifs; lia|].
  destruct (Z.leb_spec h t); [|apply Z.mod_small; lia].
  replace (t - h + c) with (t - h + 1 * c) by lia. rewrite Z.mod_add, Z.mod_small; lia.
Qed.

(** ** The operations as sequences of contiguous steps *)

Lemma small_int n : 0 <= n < 2 ^ 30 -> s32 n = n /\ wa n = n.
Proof.
  intros. split; [apply s32_small; lia|].
  apply wa_small. pose proof addr_bits_ge32. lia.
Qed.

Lemma room_bounds buf : cbuf_ok buf -> 0 < room buf <= cb_capacity buf - cb_tail buf.
Proof. intros [? ? ? ? ?]. unfold room. cases_ifs; lia. Qed.

Lemma avail_bounds buf : cbuf_ok buf -> 0 < avail buf <= cb_capacity buf - cb_head buf.
Proof. intros [? ? ? ? ?]. unfold avail. cases_ifs; lia. Qed.

(** A write is one contiguous copy, or two when the first one reaches the end
    of the array and the buffer starts after its beginning. *)
Lemma lib_cbufWrite_steps buf data sz :
  cbuf_ok buf -> cb_full buf = false -> 0 < sz <= zlen data -> zlen data < 2 ^ addr_bits ->
  let n := Z.min sz (room buf) in
  let buf1 := put_chunk buf (ztake n data) in
  lib_cbufWrite buf data sz =
    if (n <? sz) && negb (cb_head buf =? 0) && negb (cb_tail buf <? cb_head buf) then
      let m := Z.min (sz - n) (cb_head buf) in
      (n + m, put_chunk buf1 (zslice n m data))
    else (n, buf1).
Proof.
  intros OK F S B n buf1. pose proof (room_bounds _ OK). pose proof addr_bits_ge32.
  destruct OK as [C T Hd D _]. unfold lib_cbufWrite, buf1. unfold put_chunk. clear buf1.
  unfold room in *. destruct buf as [c t h f d]; cbn in *; subst f.
  destruct (Z.eqb_spec sz 0); [lia|]. cbn [orb].
  assert (N : 0 < n < 2 ^ 30) by (subst n; cases_ifs; lia).
  destruct (small_int n) as [E1 E2]; [lia|].
  assert (Ln : zlen (ztake n data) = n) by (rewrite length_take; cases_ifs; lia).
  destruct (Z.ltb_spec t h); fold n.
  - rewrite E1, E2, andb_false_r, Ln. rewrite (wa_small (t + n)) by lia. done.
  - rewrite E1, E2, andb_true_r, Ln.
    destruct (Z.ltb_spec n sz); cbn [andb];
      [|rewrite E2, (wa_small (t + n)) by lia; done].
    assert (n = c - t) by lia.
    destruct (Z.eqb_spec h 0); cbn [negb];
      [rewrite E2, (wa_small (t + n)) by lia; done|].
    rewrite (wa_small (sz - n)) by lia.
    set (m := Z.min (sz - n) h).
    destruct (small_int (n + m)) as [E3 E4]; [lia|]. rewrite E3, E4.
    assert (Lm : zlen (zslice n m data) = m) by (rewrite length_zslice; lia).
    rewrite (wa_small (t + (n + m))), Lm by lia.
    replace (t + n) with c by lia.
    rewrite Z.mod_same by lia. rewrite (Z.mod_small (0 + m)) by lia.
    assert (Et : (t + (n + m)) mod c = 0 + m).
    { replace (t + (n + m)) with (m + 1 * c) by lia.
      rewrite Z.mod_add by lia. apply Z.mod_small. lia. }
    by rewrite Et.
Qed.

(** [lib_cbufWrite] is the write of a bounded queue: it appends the longest
    prefix of the caller's bytes that fits, returns its length, and keeps the
    buffer well formed; a full buffer takes nothing. *)
Lemma lib_cbufWrite_queue buf data sz n buf' :
  cbuf_ok buf -> 0 <= sz <= zlen data -> zlen data < 2 ^ addr_bits ->
  lib_cbufWrite buf data sz = (n, buf') ->
  n = Z.min sz (cb_capacity buf - zlen (contents buf)) /\
  contents buf' = contents buf ++ ztake n data /\
  cbuf_ok buf'.
Proof.
  intros OK S B E. pose proof (length_contents _ OK) as L. pose proof OK as [C T Hd D _].
  destruct (decide (sz = 0 \/ cb_full buf = true)) as [Triv|NT].
  - assert (E' : lib_cbufWrite buf data sz = (0, buf)).
    { unfold lib_cbufWrite. destruct Triv as [->| ->]; [done|by rewrite orb_true_r]. }
    rewrite E' in E. simplify_eq. rewrite app_nil_r.
    split_and!; try done. destruct (cb_full buf'); cases_ifs; destruct Triv; done || lia.
  - apply Decidable.not_or in NT as [? F]. apply not_true_is_false in F.
    rewrite F in L. pose proof (room_bounds _ OK) as R.
    rewrite lib_cbufWrite_steps in E by (try done; lia).
    set (k := Z.min sz (room buf)) in *.
    destruct (put_chunk_ok buf (ztake k data)) as [OK1 C1]; [done..|rewrite length_take; lia|].
    assert (Lk : zlen (ztake k data) = k) by (rewrite length_take; lia).
    unfold room in *.
    destruct ((k <? sz) && negb (cb_head buf =? 0) && negb (cb_tail buf <? cb_head buf)) eqn:Cond;
      injection E as <- <-.
    + assert (cb_tail (put_chunk buf (ztake k data)) = 0 /\
        cb_full (put_chunk buf (ztake k data)) = false) as [T1 F1].
      { unfold put_chunk; cbn. rewrite Lk, mod_step by (cases_ifs; lia).
        subst k; cases_ifs; try done; lia. }
      destruct (put_chunk_ok (put_chunk buf (ztake k data))
        (zslice k (Z.min (sz - k) (cb_head buf)) data)) as [OK2 C2]; [done..| |].
      { unfold room. rewrite T1. cbn [put_chunk cb_head cb_capacity].
        rewrite length_zslice by (cases_ifs; lia). subst k; cases_ifs; done || lia. }
      rewrite C2, C1, <- app_assoc, <- zslice_0, <- zslice_app by (cases_ifs; lia).
      split_and!; [subst k; cases_ifs; done || lia|done..].
    + rewrite C1. split_and!; [subst k; cases_ifs; done || lia|done..].
Qed.

(** A read is one contiguous copy, or two when the first one reaches the end of
    the array. *)
Lemma lib_cbufRead_steps buf sz :
  cbuf_ok buf -> lib_cbufEmpty buf = false -> 0 < sz < 2 ^ addr_bits ->
  let n := Z.min sz (avail buf) in
  let buf1 := drop_chunk buf n in
  lib_cbufRead buf sz =
    if (n <? sz) && negb (cb_head buf <? cb_tail buf) then
      let m := Z.min (sz - n) (cb_tail buf) in
      (n + m, zslice (cb_head buf) n (cb_data buf) ++ zslice 0 m (cb_data buf),
        drop_chunk buf1 m)
    else (n, zslice (cb_head buf) n (cb_data buf), buf1).
Proof.
  intros OK E S n buf1. pose proof (avail_bounds _ OK). pose proof addr_bits_ge32.
  destruct OK as [C T Hd D F]. unfold lib_cbufEmpty in E. unfold lib_cbufRead, buf1.
  unfold drop_chunk. clear buf1.
  unfold avail in *. destruct buf as [c t h f d]; cbn in *. rewrite E.
  destruct (Z.eqb_spec sz 0); [lia|]. cbn [orb].
  assert (N : 0 < n < 2 ^ 30) by (subst n; cases_ifs; lia).
  destruct (small_int n) as [E1 E2]; [lia|].
  destruct (Z.ltb_spec h t); fold n.
  - rewrite E1, E2, andb_false_r. rewrite (wa_small (h + n)) by lia. done.
  - rewrite E1, E2, andb_true_r.
    destruct (Z.ltb_spec n sz);
      [|rewrite E2, (wa_small (h + n)) by lia; done].
    assert (n = c - h) by lia.
    rewrite (wa_small (sz - n)) by lia.
    set (m := Z.min (sz - n) t).
    destruct (small_int (n + m)) as [E3 E4]; [lia|]. rewrite E3, E4.
    rewrite (wa_small (h + (n + m))) by lia.
    replace (h + n) with c by lia.
    rewrite Z.mod_same by lia.
    replace (h + (n + m)) with ((0 + m) + 1 * c) by lia.
    by rewrite Z.mod_add by lia.
Qed.

Lemma drop_chunk_0 buf : cbuf_ok buf -> cb_full buf = false -> drop_chunk buf 0 = buf.
Proof.
  intros [C T Hd D F] E. destruct buf; cbn in *; subst. unfold drop_chunk; cbn.
  rewrite Z.add_0_r, Z.mod_small by lia. done.
Qed.

Lemma contents_empty buf : cb_head buf = cb_tail buf -> cb_full buf = false -> contents buf = [].
Proof. intros E F. unfold contents. by rewrite E, F, Z.eqb_refl. Qed.

(** The bytes a second copy takes: the buffer now starts at the beginning of the
    array, and everything up to the tail may go. *)
Lemma drop_chunk_rest buf m :
  cbuf_ok buf -> cb_full buf = false -> cb_head buf = 0 -> 0 <= m <= cb_tail buf ->
  cbuf_ok (drop_chunk buf m) /\
  contents buf = zslice 0 m (cb_data buf) ++ contents (drop_chunk buf m) /\
  (m = cb_tail buf -> contents (drop_chunk buf m) = []).
Proof.
  intros OK F H0 M. pose proof (ok_tail _ OK). destruct (decide (m = 0)) as [->|].
  - rewrite drop_chunk_0 by done. rewrite zslice_nil. split_and!; try done.
    intros. apply contents_empty; [lia|done].
  - destruct (drop_chunk_ok buf m OK) as [OK2 C2].
    + unfold lib_cbufEmpty. rewrite H0. cases_ifs; done || lia.
    + unfold avail. rewrite H0. cases_ifs; lia.
    + rewrite H0 in C2. split_and!; try done. intros ->.
      apply contents_empty; [|done]. unfold drop_chunk; cbn. rewrite H0.
      apply Z.mod_small. lia.
Qed.

(** [lib_cbufRead] is the read of a bounded queue: it removes and returns the
    [min sz size] oldest bytes, in order, and keeps the buffer well formed. *)
Lemma lib_cbufRead_queue buf sz n out buf' :
  cbuf_ok buf -> 0 <= sz < 2 ^ addr_bits ->
  lib_cbufRead buf sz = (n, out, buf') ->
  n = Z.min sz (zlen (contents buf)) /\
  out = ztake n (contents buf) /\ contents buf' = zdrop n (contents buf) /\
  cbuf_ok buf'.
Proof.
  intros OK S E.
  cut ((n = Z.min sz (zlen (contents buf)) /\ out = ztake n (contents buf) /\
        contents buf' = zdrop n (contents buf)) /\ cbuf_ok buf'); [tauto|].
  destruct (decide (sz = 0 \/ lib_cbufEmpty buf = true)) as [Triv|NT].
  { assert (E' : lib_cbufRead buf sz = (0, [], buf)).
    { unfold lib_cbufRead, lib_cbufEmpty in *.
      destruct Triv as [->| ->]; [done|by rewrite orb_true_r]. }
    rewrite E' in E. simplify_eq. split; [|done]. apply queue_split; try done; [lia|].
    destruct Triv as [->|Em]; [by left|]. right. unfold contents, lib_cbufEmpty in *.
    by rewrite Em. }
  apply Decidable.not_or in NT as [? Em]. apply not_true_is_false in Em.
  pose proof (avail_bounds _ OK) as R. pose proof (ok_head _ OK). pose proof (ok_data _ OK).
  rewrite lib_cbufRead_steps in E by (try done; lia).
  set (k := Z.min sz (avail buf)) in *.
  destruct (drop_chunk_ok buf k) as [OK1 C1]; [done..|lia|].
  destruct ((k <? sz) && negb (cb_head buf <? cb_tail buf)) eqn:Cond; injection E as <- <- <-.
  - assert (k = cb_capacity buf - cb_head buf)
      by (subst k; unfold avail in *; cases_ifs; done || lia).
    set (m := Z.min (sz - k) (cb_tail buf)). pose proof (ok_tail _ OK).
    destruct (drop_chunk_rest (drop_chunk buf k) m) as (OK2 & C2 & E2); [done..| |cbn; lia|].
    { cbn. replace (_ + k) with (cb_capacity buf) by lia. apply Z.mod_same. lia. }
    change (cb_data (drop_chunk buf k)) with (cb_data buf) in C2.
    split; [|done]. apply queue_split; [by rewrite <- app_assoc, <- C2| |lia|].
    + rewrite length_app, Nat2Z.inj_add, !length_zslice by lia. done.
    + destruct (decide (m = cb_tail buf)); [right; by apply E2|left; lia].
  - split; [|done]. apply queue_split; [done|apply length_zslice; lia|lia|].
    destruct (decide (k = sz)); [by left|right].
    assert (k = cb_tail buf - cb_head buf)
      by (subst k; unfold avail in *; cases_ifs; done || lia).
    apply contents_empty; [|done]. cbn. pose proof (ok_tail _ OK).
    rewrite Z.mod_small; lia.
Qed.

(** The byte operations of the interrupt handlers are the bulk operations on
    one byte. *)
Lemma lib_cbufWriteByte_bulk buf b :
  cbuf_ok buf -> lib_cbufWriteByte buf b = lib_cbufWrite buf [b] 1.
Proof.
  intros [C T Hd D F]. unfold lib_cbufWriteByte, lib_cbufWrite.
  destruct (cb_full buf); [done|]. cbn [orb Z.eqb].
  destruct buf as [c t h f d]; cbn in *. destruct (small_int 1) as [E1 E2]; [lia|].
  destruct (Z.ltb_spec t h).
  - rewrite Z.min_l, E1, E2 by lia. reflexivity.
  - rewrite Z.min_l, E1, E2 by lia. cbn [Z.ltb Z.compare Pos.compare Pos.compare_cont andb].
    rewrite E2. reflexivity.
Qed.

Lemma lib_cbufReadByte_bulk buf :
  cbuf_ok buf -> lib_cbufReadByte buf = lib_cbufRead buf 1.
Proof.
  intros [C T Hd D F]. unfold lib_cbufReadByte, lib_cbufRead.
  destruct buf as [c t h f d]; cbn in *. cbn [orb Z.eqb].
  destruct ((h =? t) && negb f); [done|]. destruct (small_int 1) as [E1 E2]; [lia|].
  destruct (Z.ltb_spec h t).
  - rewrite Z.min_l, E1, E2 by lia. reflexivity.
  - rewrite Z.min_l, E1, E2 by lia. cbn [Z.ltb Z.compare Pos.compare Pos.compare_cont andb].
    rewrite E2. reflexivity.
Qed.

Lemma lib_cbufWrite_capacity buf data sz :
  cb_capacity (lib_cbufWrite buf data sz).2 = cb_capacity buf.
Proof. unfold lib_cbufWrite. repeat case_match; done. Qed.

Lemma lib_cbufRead_capacity buf sz :
  cb_capacity (lib_cbufRead buf sz).2 = cb_capacity buf.
Proof. unfold lib_cbufRead. repeat case_match; done. Qed.

(** One operation of the code is one operation of the queue. *)
Lemma cbuf_step_refines op buf w r buf' :
  cbuf_ok buf -> op_ok op -> cbuf_step op buf = (w, r, buf') ->
  queue_step (cb_capacity buf) op (contents buf) = (w, r, contents buf') /\
  cbuf_ok buf' /\ cb_capacity buf' = cb_capacity buf.
Proof.
  intros OK V E. pose proof addr_bits_ge32.
  assert (W : forall data, zlen data < 2 ^ addr_bits ->
    (let '(n, b) := lib_cbufWrite buf data (zlen data) in (ztake n data, [], b)) = (w, r, buf') ->
    queue_step (cb_capacity buf) (OpWrite data) (contents buf) = (w, r, contents buf') /\
    cbuf_ok buf' /\ cb_capacity buf' = cb_capacity buf).
  { intros data B E1. destruct (lib_cbufWrite _ _ _) as [n b] eqn:E2. simplify_eq.
    pose proof (lib_cbufWrite_capacity buf data (zlen data)) as Ec. rewrite E2 in Ec.
    destruct (lib_cbufWrite_queue buf data (zlen data) n buf' OK ltac:(lia) B E2) as (-> & -> & ?). done. }
  assert (R : forall sz, 0 <= sz < 2 ^ addr_bits ->
    (let '(_, o, b) := lib_cbufRead buf sz in ([], o, b)) = (w, r, buf') ->
    queue_step (cb_capacity buf) (OpRead sz) (contents buf) = (w, r, contents buf') /\
    cbuf_ok buf' /\ cb_capacity buf' = cb_capacity buf).
  { intros sz B E1. destruct (lib_cbufRead _ _) as [[n o] b] eqn:E2. simplify_eq.
    pose proof (lib_cbufRead_capacity buf sz) as Ec. rewrite E2 in Ec.
    destruct (lib_cbufRead_queue buf sz n r buf' OK B E2) as (-> & -> & -> & ?). done. }
  destruct op; cbn [cbuf_step op_ok] in *.
  - by apply W.
  - rewrite lib_cbufWriteByte_bulk in E by done. apply (W [b]); [change (zlen [b]) with 1; lia|done].
  - by apply R.
  - rewrite lib_cbufReadByte_bulk in E by done.
    destruct (R 1 ltac:(lia) E) as (Q & ?). split; [|done]. rewrite <- Q. cbn.
    destruct (contents buf) as [|b0 q]; [done|].
    replace (Z.min 1 (zlen (b0 :: q))) with 1 by (rewrite length_cons; lia). done.
Qed.

Lemma cbuf_run_refines ops buf ws rs buf' :
  cbuf_ok buf -> Forall op_ok ops -> cbuf_run ops buf = (ws, rs, buf') ->
  queue_run (cb_capacity buf) ops (contents buf) = (ws, rs, contents buf') /\
  cbuf_ok buf' /\ cb_capacity buf' = cb_capacity buf.
Proof.
  revert buf ws rs buf'. induction ops as [|op ops IH]; intros buf ws rs buf' OK V E; cbn in E.
  - by simplify_eq.
  - apply Forall_cons_1 in V as [V1 V2].
    destruct (cbuf_step op buf) as [[w r] b] eqn:E1.
    destruct (cbuf_run ops b) as [[ws' rs'] b'] eqn:E2. simplify_eq.
    destruct (cbuf_step_refines _ _ _ _ _ OK V1 E1) as (Q1 & OK1 & C1).
    destruct (IH _ _ _ _ OK1 V2 E2) as (Q2 & OK2 & C2). rewrite C1 in *.
    cbn [queue_run]. by rewrite Q1, Q2.
Qed.

Lemma queue_run_fifo cap ops q ws rs q' :
  queue_run cap ops q = (ws, rs, q') -> q ++ ws = rs ++ q'.
Proof.
  revert q ws rs q'. induction ops as [|op ops IH]; intros q ws rs q' E; cbn in E.
  - simplify_eq. by rewrite app_nil_r.
  - destruct (queue_step cap op q) as [[w r] q1] eqn:E1.
    destruct (queue_run cap ops q1) as [[ws' rs'] q2] eqn:E2. simplify_eq.
    apply IH in E2. assert (q ++ w = r ++ q1) as E3.
    { destruct op; cbn in E1; simplify_eq; rewrite ?app_nil_r, ?take_drop; done. }
    by rewrite app_assoc, E3, <- !app_assoc, E2.
Qed.

Lemma lib_cbufInit_ok data capacity :
  0 < capacity < 2 ^ 30 -> zlen data = capacity -> cbuf_ok (lib_cbufInit data capacity).
Proof. intros. constructor; cbn; done || lia. Qed.

(** C14. The circular buffer implements a bounded queue: any interleaving of bulk
    and byte operations, from a fresh buffer, accepts and returns exactly the
    bytes a queue of [capacity] bytes accepts and returns, and leaves the queue
    of that specification. *)
Theorem cbuf_refines_queue data capacity ops ws rs buf' :
  0 < capacity < 2 ^ 30 -> zlen data = capacity -> Forall op_ok ops ->
  cbuf_run ops (lib_cbufInit data capacity) = (ws, rs, buf') ->
  queue_run capacity ops [] = (ws, rs, contents buf') /\ cbuf_ok buf'.
Proof.
  intros C L V E.
  by destruct (cbuf_run_refines _ _ _ _ _ (lib_cbufInit_ok _ _ C L) V E) as (? & ? & ?).
Qed.

(** Bytes leave a buffer in the order they entered it, none lost or
    duplicated, and [lib_cbufSize] counts the bytes still held: after any run,
    the bytes accepted are the bytes read followed by the bytes held. *)
Lemma cbuf_fifo data capacity ops ws rs buf' :
  0 < capacity < 2 ^ 30 -> zlen data = capacity -> Forall op_ok ops ->
  cbuf_run ops (lib_cbufInit data capacity) = (ws, rs, buf') ->
  ws = rs ++ contents buf' /\ zlen ws - zlen rs = lib_cbufSize buf' /\
  lib_cbufSize buf' <= capacity.
Proof.
  intros C L V E.
  destruct (cbuf_run_refines _ _ _ _ _ (lib_cbufInit_ok _ _ C L) V E) as (Q & OK & Cap).
  apply queue_run_fifo in Q. cbn in Q. subst ws. rewrite length_app, lib_cbufSize_contents by done.
  split_and!; [done|lia|]. rewrite length_contents by done. cbn in Cap. destruct OK.
  destruct (cb_full buf'); cases_ifs; lia.
Qed.

End cbuffer.

(** ** Witnesses *)

Definition cbuf_ops : list cbuf_op :=
  [OpWrite [1; 2; 3]; OpReadByte; OpWriteByte 4; OpWrite [5; 6]; OpRead 2; OpWrite [7; 8]].

Lemma cbuf_refines_queue_witness :
  queue_run 4 cbuf_ops [] = ([1; 2; 3; 4; 5; 7; 8], [1; 2; 3], [4; 5; 7; 8]) /\
  cbuf_ok (@cbuf_run target32 cbuf_ops (lib_cbufInit [0; 0; 0; 0] 4)).2.
Proof.
  apply (@cbuf_refines_queue target32 [0; 0; 0; 0] 4 cbuf_ops _ _
    (@cbuf_run target32 cbuf_ops (lib_cbufInit [0; 0; 0; 0] 4)).2);
    [lia|reflexivity|repeat constructor; cbn; lia|vm_compute; reflexivity].
Defined.

Lemma cbuf_fifo_witness :
  lib_cbufSize (H := target32) (@cbuf_run target32 cbuf_ops (lib_cbufInit [0; 0; 0; 0] 4)).2 = 4.
Proof.
  destruct (@cbuf_fifo target32 [0; 0; 0; 0] 4 cbuf_ops [1; 2; 3; 4; 5; 7; 8] [1; 2; 3]
    (@cbuf_run target32 cbuf_ops (lib_cbufInit [0; 0; 0; 0] 4)).2) as (_ & E & _);
    [lia|reflexivity|repeat constructor; cbn; lia|vm_compute; reflexivity|].
  rewrite <- E. reflexivity.
Defined.
