(* ===== verification/CList.v ===== *)
(** * Circular doubly-linked lists (src/lib/list.c)

    The loader keeps its maps, their entries and its programs on circular
    doubly-linked lists whose nodes carry their own [next] and [prev] fields.
    A store maps the address of a node to the node; [LinkFields] says how a node
    type exposes its two links, which is what the [noff]/[poff] arguments of
    [lib_listAdd] say in C.  [clist] relates a store and a head pointer to the
    list of node addresses, and the do-while loops over a ring are [ring_find]
    and [ring_fold]. *)

From S2P Require Import Prelude.

(** ** Nodes and stores *)

Class LinkFields (A : Type) := {
  lnext : A -> Z;
  lprev : A -> Z;
  set_lnext : Z -> A -> A;
  set_lprev : Z -> A -> A;
  lnext_set_lnext : forall p a, lnext (set_lnext p a) = p;
  lprev_set_lnext : forall p a, lprev (set_lnext p a) = lprev a;
  lnext_set_lprev : forall p a, lnext (set_lprev p a) = lnext a;
  lprev_set_lprev : forall p a, lprev (set_lprev p a) = p;
  set_lnext_lnext : forall p q a, set_lnext p (set_lnext q a) = set_lnext p a;
  set_lprev_lprev : forall p q a, set_lprev p (set_lprev q a) = set_lprev p a;
  set_lnext_lprev : forall p q a, set_lprev p (set_lnext q a) = set_lnext q (set_lprev p a)
}.

Definition NULL : Z := 0.

Section clist.
  Context {A : Type} `{!LinkFields A}.
  Implicit Types (h : gmap Z A) (l : list Z).

(** A store through a pointer; [None] is a fault. *)
Definition store_upd (f : A -> A) (p : Z) h : option (gmap Z A) :=
  n ← h !! p; Some (<[p := f n]> h).

(** ** src/lib/list.c *)

(** [*list] is passed and returned. *)
Definition lib_listAdd h (list t : Z) : option (gmap Z A * Z) :=
  if t =? NULL then Some (h, list)
  else if list =? NULL then
    h ← store_upd (set_lnext t) t h;
    h ← store_upd (set_lprev t) t h;
    Some (h, t)
  else
    first ← h !! list;
    h ← store_upd (set_lprev (lprev first)) t h;
    first ← h !! list;
    h ← store_upd (set_lnext t) (lprev first) h;
    h ← store_upd (set_lnext list) t h;
    h ← store_upd (set_lprev t) list h;
    Some (h, list).

Definition lib_listRemove h (list t : Z) : option (gmap Z A * Z) :=
  if t =? NULL then Some (h, list)
  else
    n ← h !! t;
    '(h, list) ←
      (if (lnext n =? t) && (lprev n =? t) then Some (h, NULL)
       else
         h ← store_upd (set_lnext (lnext n)) (lprev n) h;
         n ← h !! t;
         h ← store_upd (set_lprev (lprev n)) (lnext n) h;
         n ← h !! t;
         Some (h, if t =? list then lnext n else list));
    h ← store_upd (set_lnext NULL) t h;
    h ← store_upd (set_lprev NULL) t h;
    Some (h, list).

(** A sequence of insertions and removals through the same head pointer. *)
Inductive list_op :=
| LAdd (t : Z)
| LRemove (t : Z).

Definition list_op_run (op : list_op) (s : gmap Z A * Z) : option (gmap Z A * Z) :=
  match op with
  | LAdd t => lib_listAdd s.1 s.2 t
  | LRemove t => lib_listRemove s.1 s.2 t
  end.

Fixpoint list_ops_run (ops : list list_op) (s : gmap Z A * Z) : option (gmap Z A * Z) :=
  match ops with
  | [] => Some s
  | op :: ops => s ← list_op_run op s; list_ops_run ops s
  end.

(** ** Loops over a ring *)

(** [do { ... break or return; e = e->next; } while (e != head);] *)
Fixpoint ring_find {B} (fuel : nat) h (f : Z -> A -> option B) (head e : Z) : option (option B) :=
  match fuel with
  | O => None
  | S fuel =>
      n ← h !! e;
      match f e n with
      | Some b => Some (Some b)
      | None => if lnext n =? head then Some None else ring_find fuel h f head (lnext n)
      end
  end.

(** The same loop when its body only updates local variables. *)
Fixpoint ring_fold {B} (fuel : nat) h (f : B -> A -> B) (head e : Z) (acc : B) : option B :=
  match fuel with
  | O => None
  | S fuel =>
      n ← h !! e;
      let acc := f acc n in
      if lnext n =? head then Some acc else ring_fold fuel h f head (lnext n) acc
  end.

(** ** The list a ring stands for *)

Definition nx h p : option Z := lnext <$> h !! p.
Definition pv h p : option Z := lprev <$> h !! p.

(** Consecutive nodes point to each other. *)
Fixpoint chain h l : Prop :=
  match l with
  | a :: (b :: _) as l' => nx h a = Some b /\ pv h b = Some a /\ chain h l'
  | _ => True
  end.

(** [l] is a ring of distinct non-NULL nodes. *)
Definition cring h l : Prop :=
  match l with
  | [] => False
  | a :: _ => chain h (l ++ [a]) /\ NoDup l /\ NULL ∉ l
  end.

(** [p] points to the list [l]. *)
Definition clist h (p : Z) l : Prop :=
  match l with
  | [] => p = NULL
  | a :: _ => p = a /\ cring h l
  end.

(** A node without its links: what the list operations leave alone. *)
Definition core (a : A) : A := set_lnext NULL (set_lprev NULL a).

Lemma chain_app h l1 x l2 :
  chain h (l1 ++ x :: l2) <-> chain h (l1 ++ [x]) /\ chain h (x :: l2).
Proof.
  induction l1 as [|a [|b l1] IH]; cbn [app chain] in *.
  - tauto.
  - cbn. tauto.
  - change ((b :: l1) ++ x :: l2) with (b :: l1 ++ x :: l2) in *. cbn [app] in *. rewrite IH. tauto.
Qed.

Lemma cring_rotate h l1 l2 : cring h (l1 ++ l2) -> cring h (l2 ++ l1).
Proof.
  destruct l1 as [|x l1]; [by rewrite app_nil_r|].
  destruct l2 as [|y l2]; [by rewrite app_nil_r|].
  cbn [app cring]. intros (C & ND & NN). split_and!.
  - change (x :: l1 ++ y :: l2) with ((x :: l1) ++ y :: l2) in C.
    change (y :: l2 ++ x :: l1) with ((y :: l2) ++ x :: l1).
    change ((x :: l1 ++ y :: l2) ++ [x]) with (((x :: l1) ++ y :: l2) ++ [x]) in C.
    rewrite <- app_assoc in C. cbn [app] in C.
    change (x :: l1 ++ y :: l2 ++ [x]) with ((x :: l1) ++ y :: (l2 ++ [x])) in C.
    apply chain_app in C as [C1 C2].
    change ((y :: l2 ++ x :: l1) ++ [y]) with (((y :: l2) ++ x :: l1) ++ [y]).
    rewrite <- app_assoc. cbn [app].
    change (y :: l2 ++ x :: l1 ++ [y]) with ((y :: l2) ++ x :: (l1 ++ [y])).
    apply chain_app. split; done.
  - change (NoDup ((y :: l2) ++ x :: l1)). rewrite Permutation_app_comm. done.
  - change (NULL ∉ (y :: l2) ++ x :: l1). rewrite Permutation_app_comm. done.
Qed.

(** The links of a store after an update through a pointer. *)
Lemma store_upd_Some f p h h' :
  store_upd f p h = Some h' <-> exists n, h !! p = Some n /\ h' = <[p := f n]> h.
Proof. unfold store_upd. destruct (h !! p); cbn; naive_solver. Qed.

(** Two stores with the same nodes, up to their links. *)
Definition same_nodes h h' : Prop := core <$> h' = core <$> h /\ dom h' = dom h.

#[export] Instance same_nodes_preorder : PreOrder same_nodes.
Proof.
  split; [by intros h|]. intros h1 h2 h3 [C1 D1] [C2 D2]. split; congruence.
Qed.

Lemma core_set_lnext p a : core (set_lnext p a) = core a.
Proof. unfold core. by rewrite set_lnext_lprev, set_lnext_lnext. Qed.

Lemma core_set_lprev p a : core (set_lprev p a) = core a.
Proof. unfold core. by rewrite set_lprev_lprev. Qed.

Lemma same_nodes_insert h p n n' :
  h !! p = Some n -> core n' = core n -> same_nodes h (<[p := n']> h).
Proof.
  intros E C. split.
  - rewrite fmap_insert, C. apply insert_id. by rewrite lookup_fmap, E.
  - rewrite dom_insert_L. apply elem_of_dom_2 in E. set_solver.
Qed.

Lemma same_nodes_dom h h' p : same_nodes h h' -> p ∈ dom h -> p ∈ dom h'.
Proof. by intros [_ ->]. Qed.

Lemma same_nodes_lookup h h' p n :
  same_nodes h h' -> h !! p = Some n -> exists n', h' !! p = Some n' /\ core n' = core n.
Proof.
  intros [E _] Hp.
  assert (L : (core <$> h') !! p = Some (core n)) by (rewrite E, lookup_fmap, Hp; done).
  rewrite lookup_fmap in L. destruct (h' !! p) eqn:E'; cbn in L; simplify_eq. eauto.
Qed.

(** The effect of a write of a link. *)
Lemma set_lnext_ok q p h :
  p ∈ dom h -> exists h', store_upd (set_lnext q) p h = Some h' /\ same_nodes h h' /\
    (forall x, nx h' x = if decide (x = p) then Some q else nx h x) /\
    (forall x, pv h' x = pv h x).
Proof.
  intros [n E]%elem_of_dom. exists (<[p := set_lnext q n]> h).
  split_and!; [apply store_upd_Some; eauto| | |].
  - by apply (same_nodes_insert _ _ n); [|apply core_set_lnext].
  - intros x. unfold nx. case_decide; subst.
    + by rewrite lookup_insert_eq; cbn; rewrite lnext_set_lnext.
    + by rewrite lookup_insert_ne.
  - intros x. unfold pv. destruct (decide (x = p)); subst.
    + by rewrite lookup_insert_eq, E; cbn; rewrite lprev_set_lnext.
    + by rewrite lookup_insert_ne.
Qed.

Lemma set_lprev_ok q p h :
  p ∈ dom h -> exists h', store_upd (set_lprev q) p h = Some h' /\ same_nodes h h' /\
    (forall x, nx h' x = nx h x) /\
    (forall x, pv h' x = if decide (x = p) then Some q else pv h x).
Proof.
  intros [n E]%elem_of_dom. exists (<[p := set_lprev q n]> h).
  split_and!; [apply store_upd_Some; eauto| | |].
  - by apply (same_nodes_insert _ _ n); [|apply core_set_lprev].
  - intros x. unfold nx. destruct (decide (x = p)); subst.
    + by rewrite lookup_insert_eq, E; cbn; rewrite lnext_set_lprev.
    + by rewrite lookup_insert_ne.
  - intros x. unfold pv. case_decide; subst.
    + by rewrite lookup_insert_eq; cbn; rewrite lprev_set_lprev.
    + by rewrite lookup_insert_ne.
Qed.

Lemma nx_lookup h p q : nx h p = Some q -> exists n, h !! p = Some n /\ lnext n = q.
Proof. unfold nx. destruct (h !! p); cbn; naive_solver. Qed.

Lemma pv_lookup h p q : pv h p = Some q -> exists n, h !! p = Some n /\ lprev n = q.
Proof. unfold pv. destruct (h !! p); cbn; naive_solver. Qed.

Lemma links_lookup h p a b :
  nx h p = Some a -> pv h p = Some b -> exists n, h !! p = Some n /\ lnext n = a /\ lprev n = b.
Proof. unfold nx, pv. destruct (h !! p); cbn; naive_solver. Qed.

Lemma nx_dom h p q : nx h p = Some q -> p ∈ dom h.
Proof. intros (n & E & _)%nx_lookup. by apply elem_of_dom_2 in E. Qed.

Lemma pv_dom h p q : pv h p = Some q -> p ∈ dom h.
Proof. intros (n & E & _)%pv_lookup. by apply elem_of_dom_2 in E. Qed.

Lemma chain_ext h h' l p :
  chain h (l ++ [p]) ->
  (forall x, x ∈ l -> nx h' x = nx h x) ->
  (forall y, y ∈ tail (l ++ [p]) -> pv h' y = pv h y) ->
  chain h' (l ++ [p]).
Proof.
  induction l as [|a [|b l] IH]; intros C N P; [done| |].
  - cbn in *. destruct C as (C1 & C2 & _). rewrite N, P by set_solver. done.
  - cbn [app chain] in *. destruct C as (C1 & C2 & C). rewrite N, P by set_solver.
    split_and!; [done..|]. apply IH; [done| |]; intros; [apply N|apply P]; set_solver.
Qed.

(** Storing [t] between the last node and the first one extends the ring. *)
Lemma cring_snoc h h' a l0 p t :
  cring h (l0 ++ [p]) -> head (l0 ++ [p]) = Some a ->
  t ∉ l0 ++ [p] -> t <> NULL ->
  (forall x, nx h' x = if decide (x = t) then Some a else if decide (x = p) then Some t else nx h x) ->
  (forall x, pv h' x = if decide (x = a) then Some t else if decide (x = t) then Some p else pv h x) ->
  cring h' (l0 ++ [p; t]).
Proof.
  intros R Hd Nt Nz N P.
  assert (exists l1, l0 ++ [p] = a :: l1) as [l1 E].
  { destruct (l0 ++ [p]); cbn in *; simplify_eq; eauto. }
  assert (E2 : l0 ++ [p; t] = a :: (l1 ++ [t])).
  { change [p; t] with ([p] ++ [t]). by rewrite app_assoc, E. }
  unfold cring in *. rewrite E2. rewrite E in R. destruct R as (C & ND & NN).
  assert (a ∈ l0 ++ [p]) by (rewrite E; set_solver).
  assert (p ∈ l0 ++ [p]) by set_solver.
  rewrite <- E2. split_and!.
  - rewrite <- E, <- app_assoc in C. cbn [app] in C. apply chain_app in C as [C1 [C2 [C3 _]]].
    rewrite <- app_assoc. cbn [app]. apply chain_app. cbn [chain].
    assert (nx h' p = Some t) by (rewrite N, decide_False, decide_True by set_solver; done).
    assert (nx h' t = Some a) by (rewrite N, decide_True by done; done).
    assert (pv h' t = Some p) by (rewrite P, decide_False, decide_True by set_solver; done).
    assert (pv h' a = Some t) by (rewrite P, decide_True by done; done).
    split_and!; try done.
    apply (chain_ext h); [done| |].
    + intros x Hx. rewrite <- E in ND. apply NoDup_app in ND as (_ & ND & _).
      rewrite N, !decide_False; [done| |].
      * intros ->. by apply (ND p Hx), list_elem_of_singleton.
      * intros ->. apply Nt, elem_of_app. by left.
    + intros y Hy. rewrite E in Hy. cbn in Hy. apply NoDup_cons in ND as [ND _].
      rewrite P, !decide_False; [done| |].
      * intros ->. apply Nt. rewrite E. by right.
      * by intros ->.
  - change [p; t] with ([p] ++ [t]). rewrite app_assoc, E. apply NoDup_app. split_and!; [done| |].
    + rewrite <- E. intros x Hx ->%list_elem_of_singleton. done.
    + apply NoDup_singleton.
  - rewrite E2. intros [Ha|[Hx|Ht]%elem_of_app]%elem_of_cons.
    + apply NN, elem_of_cons. by left.
    + apply NN, elem_of_cons. by right.
    + apply list_elem_of_singleton in Ht. congruence.
Qed.

Lemma chain_nx h l p x : chain h (l ++ [p]) -> x ∈ l -> is_Some (nx h x).
Proof.
  induction l as [|a [|b l] IH]; intros C Hx; [by apply elem_of_nil in Hx| |]; cbn in *.
  - apply list_elem_of_singleton in Hx as ->. destruct C as (-> & _). eauto.
  - destruct C as (C1 & _ & C). apply elem_of_cons in Hx as [->|]; [rewrite C1; eauto|].
    apply IH; done.
Qed.

Lemma cring_dom h l x : cring h l -> x ∈ l -> x ∈ dom h.
Proof.
  destruct l as [|a l]; [done|]. intros (C & _ & _) Hx.
  destruct (chain_nx _ _ _ _ C Hx) as [y Hy]. unfold nx in Hy.
  apply elem_of_dom. destruct (h !! x); cbn in Hy; [eauto|done].
Qed.

(** The first node and the last node of a ring point to each other. *)
Lemma cring_ends h l0 p a :
  cring h (l0 ++ [p]) -> head (l0 ++ [p]) = Some a -> nx h p = Some a /\ pv h a = Some p.
Proof.
  intros R Hd. assert (exists l1, l0 ++ [p] = a :: l1) as [l1 E].
  { destruct (l0 ++ [p]); cbn in *; simplify_eq; eauto. }
  rewrite E in R. destruct R as (C & _). rewrite <- E, <- app_assoc in C. cbn [app] in C.
  apply chain_app in C as [_ C]. cbn in C. tauto.
Qed.

Lemma cring_singleton h t :
  t <> NULL -> nx h t = Some t -> pv h t = Some t -> cring h [t].
Proof.
  intros. split_and!; [done|apply NoDup_singleton|].
  intros E%list_elem_of_singleton. congruence.
Qed.

(** The four writes that put [t] between [q] and [a]: the body shared by
    [lib_listAdd] and the insertions of syspage.c. *)
Lemma link_between h a q t :
  nx h q = Some a -> pv h a = Some q -> t ∈ dom h -> a <> t -> t <> NULL -> a <> NULL ->
  exists h', lib_listAdd h a t = Some (h', a) /\ same_nodes h h' /\
    (forall x, nx h' x = if decide (x = t) then Some a else if decide (x = q) then Some t else nx h x) /\
    (forall x, pv h' x = if decide (x = a) then Some t else if decide (x = t) then Some q else pv h x).
Proof.
  intros Nq Pa Dt Nat Nz Naz. unfold lib_listAdd.
  rewrite (proj2 (Z.eqb_neq t NULL)), (proj2 (Z.eqb_neq a NULL)) by done.
  destruct (pv_lookup _ _ _ Pa) as (na & Ea & Lp). rewrite Ea; cbn; rewrite Lp.
  destruct (set_lprev_ok q t h Dt) as (h1 & -> & S1 & N1 & P1); cbn.
  assert (Pa1 : pv h1 a = Some q) by (by rewrite P1, decide_False).
  destruct (pv_lookup _ _ _ Pa1) as (na1 & Ea1 & Lp1). rewrite Ea1; cbn; rewrite Lp1.
  destruct (set_lnext_ok t q h1) as (h2 & -> & S2 & N2 & P2); cbn;
    [eapply same_nodes_dom, nx_dom; done|].
  destruct (set_lnext_ok a t h2) as (h3 & -> & S3 & N3 & P3); cbn;
    [eapply same_nodes_dom, same_nodes_dom; done|].
  destruct (set_lprev_ok t a h3) as (h4 & -> & S4 & N4 & P4); cbn;
    [eapply same_nodes_dom, same_nodes_dom, pv_dom; done|].
  exists h4. split_and!; [done|by do 3 (etrans; [done|])|..]; intros x.
  - by rewrite N4, N3, N2, N1.
  - by rewrite P4, P3, P2, P1.
Qed.

(** [lib_listAdd] appends: on a well-formed list it does not fault, the new head
    pointer stands for the list extended at its end, and no node changes but in
    its links. *)
Lemma lib_listAdd_spec h p l t :
  clist h p l -> t ∈ dom h -> t ∉ l -> t <> NULL ->
  exists h' p', lib_listAdd h p t = Some (h', p') /\ clist h' p' (l ++ [t]) /\ same_nodes h h'.
Proof.
  intros L Dt Nt Nz. destruct l as [|a l1].
  - cbn in L. subst p. unfold lib_listAdd. rewrite (proj2 (Z.eqb_neq t NULL)) by done.
    destruct (set_lnext_ok t t h Dt) as (h1 & E1 & S1 & N1 & P1).
    destruct (set_lprev_ok t t h1) as (h2 & E2 & S2 & N2 & P2); [by apply (same_nodes_dom h)|].
    exists h2, t. cbn. rewrite E1; cbn; rewrite E2.
    split; [done|split; [split; [done|]|by etrans]].
    apply cring_singleton; [done| |].
    + by rewrite N2, N1, decide_True.
    + by rewrite P2, decide_True.
  - destruct L as [-> R].
    assert (a <> NULL) by (intros ->; destruct R as (_ & _ & NN); apply NN; by left).
    destruct (exists_last (l := a :: l1)) as (l0 & q & E); [done|].
    rewrite E in R, Nt. assert (Hd : head (l0 ++ [q]) = Some a) by (by rewrite <- E).
    destruct (cring_ends _ _ _ _ R Hd) as [Nq Pa].
    assert (a <> t) by (intros ->; apply Nt; rewrite <- E; by left).
    destruct (link_between h a q t) as (h' & E' & S' & N' & P'); [done..|].
    exists h', a. split; [done|split; [|done]].
    assert (R' : cring h' (l0 ++ [q; t])) by (by apply (cring_snoc h h' a)).
    change [q; t] with ([q] ++ [t]) in R'. rewrite app_assoc, <- E in R'. by split.
Qed.

(** Unlinking the first node of a ring leaves the ring of the others. *)
Lemma cring_behead h h' t b r0 q :
  cring h (t :: r0 ++ [q]) -> head (r0 ++ [q]) = Some b ->
  (forall x, nx h' x = if decide (x = t) then Some NULL else if decide (x = q) then Some b else nx h x) ->
  (forall x, pv h' x = if decide (x = t) then Some NULL else if decide (x = b) then Some q else pv h x) ->
  cring h' (r0 ++ [q]).
Proof.
  intros (C & ND & NN) Hd N P.
  assert (exists r1, r0 ++ [q] = b :: r1) as [r1 E].
  { destruct (r0 ++ [q]); cbn in *; simplify_eq; eauto. }
  apply NoDup_cons in ND as [Nt ND]. apply not_elem_of_cons in NN as [Nz NN].
  assert (Hb : b ∈ r0 ++ [q]) by (rewrite E; by left).
  assert (Hq : q ∈ r0 ++ [q]) by (apply elem_of_app; right; by left).
  unfold cring. rewrite E. rewrite <- E. split_and!; [|done..].
  change ((t :: r0 ++ [q]) ++ [t]) with ((t :: r0 ++ [q]) ++ [t]) in C.
  cbn [app] in C. rewrite <- app_assoc in C. cbn [app] in C.
  change (t :: r0 ++ [q; t]) with ((t :: r0) ++ q :: [t]) in C.
  apply chain_app in C as [C _]. cbn [app] in C. rewrite E in C.
  destruct C as (_ & _ & C). rewrite <- E in C.
  rewrite <- app_assoc. cbn [app]. apply chain_app. cbn [chain]. split_and!; try done.
  - apply (chain_ext h); [done| |].
    + intros x Hx. apply NoDup_app in ND as (_ & ND & _).
      rewrite N, !decide_False; [done| |].
      * intros ->. by apply (ND q Hx), list_elem_of_singleton.
      * intros ->. apply Nt, elem_of_app. by left.
    + intros y Hy. rewrite E in Hy, ND, Nt. cbn in Hy. apply NoDup_cons in ND as [ND _].
      rewrite P, !decide_False; [done| |].
      * by intros ->.
      * intros ->. apply Nt. by right.
  - rewrite N, decide_False, decide_True; [done..|]. intros ->. done.
  - rewrite P, decide_False, decide_True; [done..|]. intros ->. done.
Qed.

(** The writes of [lib_listRemove] on a node between two others. *)
Lemma unlink_between h p t b q :
  nx h t = Some b -> pv h t = Some q -> nx h q = Some t -> pv h b = Some t ->
  t <> NULL -> b <> t -> q <> t ->
  exists h', lib_listRemove h p t = Some (h', if t =? p then b else p) /\ same_nodes h h' /\
    (forall x, nx h' x = if decide (x = t) then Some NULL else if decide (x = q) then Some b else nx h x) /\
    (forall x, pv h' x = if decide (x = t) then Some NULL else if decide (x = b) then Some q else pv h x).
Proof.
  intros Nt Pt Nq Pb Nz Nbt Nqt. unfold lib_listRemove.
  rewrite (proj2 (Z.eqb_neq t NULL)) by done.
  destruct (links_lookup _ _ _ _ Nt Pt) as (n & -> & En & Ep); cbn. rewrite En, Ep.
  rewrite (proj2 (Z.eqb_neq b t)) by done; cbn.
  destruct (set_lnext_ok b q h) as (h1 & -> & S1 & N1 & P1); cbn; [by eapply nx_dom|].
  destruct (links_lookup h1 t b q) as (n1 & -> & En1 & Ep1);
    [by rewrite N1, decide_False|by rewrite P1|]; cbn; rewrite En1, Ep1.
  destruct (set_lprev_ok q b h1) as (h2 & -> & S2 & N2 & P2); cbn;
    [eapply same_nodes_dom, pv_dom; done|].
  destruct (nx_lookup h2 t b) as (n2 & -> & En2);
    [by rewrite N2, N1, decide_False|]; cbn; rewrite En2.
  assert (D2 : t ∈ dom h2) by (eapply same_nodes_dom, same_nodes_dom, nx_dom; done).
  destruct (set_lnext_ok NULL t h2 D2) as (h3 & -> & S3 & N3 & P3); cbn.
  destruct (set_lprev_ok NULL t h3) as (h4 & -> & S4 & N4 & P4); cbn;
    [by eapply same_nodes_dom|].
  exists h4. split_and!; [done|by do 3 (etrans; [done|])|..]; intros x.
  - by rewrite N4, N3, N2, N1.
  - by rewrite P4, P3, P2, P1.
Qed.

(** [lib_listRemove] removes: the node leaves the list wherever it stands, its
    links are cleared, and the other nodes keep their order. *)
Lemma lib_listRemove_spec h p l1 t l2 :
  clist h p (l1 ++ t :: l2) ->
  exists h' p', lib_listRemove h p t = Some (h', p') /\ clist h' p' (l1 ++ l2) /\
    nx h' t = Some NULL /\ pv h' t = Some NULL /\ same_nodes h h'.
Proof.
  intros L. assert (R : cring h (l1 ++ t :: l2)) by (by destruct l1; destruct L as [_ R]).
  assert (Hp : head (l1 ++ t :: l2) = Some p) by (destruct l1; destruct L as [-> _]; done).
  assert (Rt := cring_rotate _ _ _ R). cbn [app] in Rt.
  assert (Nz : t <> NULL).
  { destruct Rt as (_ & _ & NN). by apply not_elem_of_cons in NN as [NN _]. }
  destruct (decide (l2 ++ l1 = [])) as [E|NE].
  - apply app_eq_nil in E as [-> ->]. cbn in *. injection Hp as <-.
    destruct Rt as ((N & P & _) & _). unfold lib_listRemove.
    rewrite (proj2 (Z.eqb_neq t NULL)) by done.
    destruct (links_lookup _ _ _ _ N P) as (n & -> & En & Ep); cbn.
    rewrite En, Ep, Z.eqb_refl; cbn.
    destruct (set_lnext_ok NULL t h) as (h1 & -> & S1 & N1 & P1); cbn; [by eapply nx_dom|].
    destruct (set_lprev_ok NULL t h1) as (h2 & -> & S2 & N2 & P2); cbn;
      [eapply same_nodes_dom, nx_dom; done|].
    exists h2, NULL. split_and!; [done..| | |by etrans].
    + by rewrite N2, N1, decide_True.
    + by rewrite P2, decide_True.
  - destruct (exists_last NE) as (r0 & q & E). rewrite E in Rt.
    assert (exists b, head (r0 ++ [q]) = Some b) as [b Hb] by (destruct r0; cbn; eauto).
    destruct (cring_ends h (t :: r0) q t) as [Nq Pt]; [done..|].
    assert (NDt : t ∉ r0 ++ [q]) by (destruct Rt as (_ & ND & _); by apply NoDup_cons in ND as [? _]).
    assert (nx h t = Some b /\ pv h b = Some t /\ b <> t) as (Nt & Pb & Nbt).
    { destruct Rt as (C & _). destruct (r0 ++ [q]); [done|]. cbn in *. injection Hb as ->.
      apply not_elem_of_cons in NDt as [? _]. naive_solver. }
    assert (q <> t) by (intros ->; apply NDt, elem_of_app; right; by left).
    destruct (unlink_between h p t b q) as (h' & E' & S' & N' & P'); [done..|].
    assert (R' : cring h' (l1 ++ l2)).
    { apply cring_rotate. rewrite E. by apply (cring_behead h h' t b). }
    exists h', (if t =? p then b else p). split; [done|split; [|split_and!; [| |done]]].
    + destruct l1 as [|c l1]; cbn in Hp; injection Hp as <-.
      * rewrite Z.eqb_refl. rewrite app_nil_r in E. rewrite <- E in Hb. cbn in *.
        destruct l2; [done|]. cbn in Hb. injection Hb as ->. by split.
      * rewrite (proj2 (Z.eqb_neq t c)); [by split|]. intros ->. destruct R as (_ & ND & _).
        apply (NoDup_app (c :: l1)) in ND as (_ & ND & _). apply (ND c); by left.
    + by rewrite N', decide_True.
    + by rewrite P', decide_True.
Qed.

(** ** Loops *)

(** The first result of [f] along a list of nodes. *)
Fixpoint find_nodes {B} h (f : Z -> A -> option B) l : option B :=
  match l with
  | [] => None
  | p :: l =>
      match h !! p with
      | Some n => match f p n with Some b => Some b | None => find_nodes h f l end
      | None => None
      end
  end.

Definition fold_nodes {B} h (f : B -> A -> B) l (acc : B) : B :=
  fold_left (fun acc p => match h !! p with Some n => f acc n | None => acc end) l acc.

(** As many steps as the store has nodes are enough for any ring of it. *)
Lemma cring_length h l : cring h l -> (length l <= size h)%nat.
Proof.
  intros R. assert (ND : NoDup l) by (destruct l; [done|by destruct R as (_ & ? & _)]).
  rewrite <- size_dom, <- (size_list_to_set (C := gset Z) l) by done.
  apply subseteq_size. intros x Hx%elem_of_list_to_set. by eapply cring_dom.
Qed.

Lemma ring_find_chain {B} h (f : Z -> A -> option B) a r e fuel :
  chain h (e :: r ++ [a]) -> a ∉ r -> (length (e :: r) <= fuel)%nat ->
  ring_find fuel h f a e = Some (find_nodes h f (e :: r)).
Proof.
  revert e fuel. induction r as [|b r IH]; intros e fuel C Na F;
    (destruct fuel as [|fuel]; [cbn in F; lia|]); cbn [ring_find find_nodes].
  - destruct C as (N & _). destruct (nx_lookup _ _ _ N) as (n & -> & En); cbn.
    rewrite En, Z.eqb_refl. by case_match.
  - destruct C as (N & P & C). destruct (nx_lookup _ _ _ N) as (n & -> & En); cbn [mbind option_bind].
    destruct (f e n); [done|]. rewrite En. apply not_elem_of_cons in Na as [Nb Na].
    rewrite (proj2 (Z.eqb_neq b a)) by done. rewrite IH; [done|done|done|cbn in *; lia].
Qed.

Lemma ring_fold_chain {B} h (f : B -> A -> B) a r e fuel acc :
  chain h (e :: r ++ [a]) -> a ∉ r -> (length (e :: r) <= fuel)%nat ->
  ring_fold fuel h f a e acc = Some (fold_nodes h f (e :: r) acc).
Proof.
  revert e fuel acc. induction r as [|b r IH]; intros e fuel acc C Na F;
    (destruct fuel as [|fuel]; [cbn in F; lia|]); cbn [ring_fold fold_nodes fold_left].
  - destruct C as (N & _). destruct (nx_lookup _ _ _ N) as (n & -> & En); cbn.
    by rewrite En, Z.eqb_refl.
  - destruct C as (N & P & C). destruct (nx_lookup _ _ _ N) as (n & -> & En); cbn [mbind option_bind].
    rewrite En. apply not_elem_of_cons in Na as [Nb Na].
    rewrite (proj2 (Z.eqb_neq b a)) by done. apply IH; [done|done|cbn in *; lia].
Qed.

(** On a ring, the loops visit each node once, in order, and stop. *)
Lemma ring_find_spec {B} h (f : Z -> A -> option B) a l :
  cring h (a :: l) -> ring_find (size h) h f a a = Some (find_nodes h f (a :: l)).
Proof.
  intros R. pose proof (cring_length _ _ R). destruct R as (C & ND & _).
  apply NoDup_cons in ND as [Na _]. by apply ring_find_chain.
Qed.

Lemma ring_fold_spec {B} h (f : B -> A -> B) a l acc :
  cring h (a :: l) -> ring_fold (size h) h f a a acc = Some (fold_nodes h f (a :: l) acc).
Proof.
  intros R. pose proof (cring_length _ _ R). destruct R as (C & ND & _).
  apply NoDup_cons in ND as [Na _]. by apply ring_fold_chain.
Qed.

(** ** Refinement *)

(** The specification: a list of distinct nodes, extended at its end; an
    operation is defined when the node is new, or is there to be removed. *)
Definition list_op_spec h (op : list_op) l : option (list Z) :=
  match op with
  | LAdd t => if decide (t ∈ dom h /\ t ∉ l /\ t <> NULL) then Some (l ++ [t]) else None
  | LRemove t => if decide (t ∈ l) then Some (list_difference l [t]) else None
  end.

Fixpoint list_ops_spec h (ops : list list_op) l : option (list Z) :=
  match ops with
  | [] => Some l
  | op :: ops => l ← list_op_spec h op l; list_ops_spec h ops l
  end.

Lemma list_difference_split l1 t l2 :
  NoDup (l1 ++ t :: l2) -> list_difference (l1 ++ t :: l2) [t] = l1 ++ l2.
Proof.
  induction l1 as [|a l1 IH]; cbn; intros ND; apply NoDup_cons in ND as [Na ND].
  - case_decide as Ht; [clear Ht|by destruct Ht; left].
    clear ND. induction l2 as [|b l2 IH2]; [done|]. cbn.
    apply not_elem_of_cons in Na as [Nb Na]. case_decide as Hb; [|by rewrite IH2].
    apply list_elem_of_singleton in Hb. congruence.
  - case_decide as Ha; [|by rewrite IH]. apply list_elem_of_singleton in Ha as ->.
    destruct Na. apply elem_of_app. right. by left.
Qed.

Lemma clist_NoDup h p l : clist h p l -> NoDup l.
Proof. destruct l; [constructor|]. by intros (_ & _ & ? & _). Qed.

(** C15. [lib_listAdd] and [lib_listRemove] implement an ordered list: along any
    sequence of insertions of new nodes and removals of present ones, no
    pointer access faults, the head pointer stands for the list of the
    specification, and nodes change in nothing but their links. *)
Theorem lib_list_refines ops h p l l' :
  clist h p l -> list_ops_spec h ops l = Some l' ->
  exists h' p', list_ops_run ops (h, p) = Some (h', p') /\ clist h' p' l' /\ same_nodes h h'.
Proof.
  revert h p l. induction ops as [|op ops IH]; intros h p l L E; cbn in E.
  - simplify_eq. by exists h, p.
  - destruct (list_op_spec h op l) as [l1|] eqn:E1; [cbn in E|done].
    assert (exists h1 p1, list_op_run op (h, p) = Some (h1, p1) /\ clist h1 p1 l1 /\ same_nodes h h1)
      as (h1 & p1 & R1 & L1 & S1).
    { destruct op as [t|t]; cbn in *; case_decide; simplify_eq.
      - apply lib_listAdd_spec; naive_solver.
      - destruct (list_elem_of_split l t) as (l2 & l3 & ->); [done|].
        rewrite list_difference_split by (by eapply clist_NoDup).
        destruct (lib_listRemove_spec h p l2 t l3 L) as (h1 & p1 & ? & ? & _ & _ & ?). eauto. }
    assert (E' : list_ops_spec h1 ops l1 = Some l').
    { rewrite <- E. clear -S1. revert l1. induction ops as [|[t|t] ops IH]; intros l1; [done|..];
        cbn; destruct S1 as [? S1]; rewrite ?S1; case_decide; cbn; done || apply IH. }
    destruct (IH h1 p1 l1 L1 E') as (h2 & p2 & R2 & L2 & S2).
    exists h2, p2. cbn [list_ops_run]. rewrite R1. split_and!; [done|done|by etrans].
Qed.

End clist.

(** ** Witness *)

Record node := mk_node { n_next : Z; n_prev : Z; n_val : Z }.

#[export] Instance node_links : LinkFields node.
Proof.
  refine {|
    lnext := n_next;
    lprev := n_prev;
    set_lnext p n := mk_node p (n_prev n) (n_val n);
    set_lprev p n := mk_node (n_next n) p (n_val n)
  |}; done.
Defined.

Definition three_nodes : gmap Z node :=
  {[ 16 := mk_node 0 0 1; 32 := mk_node 0 0 2; 48 := mk_node 0 0 3 ]}.

Definition list_ops : list list_op := [LAdd 16; LAdd 32; LAdd 48; LRemove 32; LRemove 16; LAdd 32].

Lemma lib_list_refines_witness :
  exists h' p', list_ops_run list_ops (three_nodes, NULL) = Some (h', p') /\
    clist h' p' [48; 32] /\ same_nodes three_nodes h'.
Proof.
  apply (lib_list_refines list_ops three_nodes NULL []); [reflexivity|vm_compute; reflexivity].
Defined.
