(* ===== verification/CString.v ===== *)
(** * Character classes, C strings and number parsing

    src/lib/ctype.c, the string routines of the HAL in their C form
    (src/hal/ia32/string.c) and src/lib/strtoul.c.  A string is its list of
    bytes, a pointer into it is the suffix it points to. *)

From S2P Require Import Prelude.

(** ** src/lib/ctype.c *)

Definition lib_islower (c : Z) : bool := ("a"%ch <=? c) && (c <=? "z"%ch).
Definition lib_isupper (c : Z) : bool := ("A"%ch <=? c) && (c <=? "Z"%ch).
Definition lib_isalpha (c : Z) : bool := lib_islower c || lib_isupper c.
Definition lib_isdigit (c : Z) : bool := ("0"%ch <=? c) && (c <=? "9"%ch).
Definition lib_isalnum (c : Z) : bool := lib_islower c || lib_isupper c || lib_isdigit c.

(** ['\t'] is 9, ['\n'] is 10, ['\r'] is 13. *)
Definition lib_isblank (c : Z) : bool := (c =? " "%ch) || (c =? 9).
Definition lib_isspace (c : Z) : bool := lib_isblank c || ((10 <=? c) && (c <=? 13)).
Definition lib_isgraph (c : Z) : bool := (" "%ch <? c) && (c <? 0x7f).
Definition lib_isprint (c : Z) : bool := (" "%ch <=? c) && (c <? 0x7f).

Ltac chars :=
  unfold lib_isalnum, lib_isalpha, lib_islower, lib_isupper, lib_isdigit, lib_isspace,
    lib_isblank, lib_isgraph, lib_isprint in *.

(** ** String routines *)

Fixpoint hal_strlen (s : cstr) : Z :=
  match s with
  | [] => 0
  | _ :: s => 1 + hal_strlen s
  end.

Fixpoint hal_strcmp (s1 s2 : cstr) : Z :=
  match s1 with
  | [] => if deref s2 =? 0 then 0 else -1
  | p :: s1 =>
      if p <? deref s2 then -1
      else if deref s2 <? p then 1
      else hal_strcmp s1 (tail s2)
  end.

(** [i] bytes are already known to be equal. *)
Fixpoint strncmp_loop (i : Z) (s1 s2 : cstr) (n : nat) : Z :=
  match n with
  | O => 0
  | S n =>
      let c1 := deref s1 in
      let c2 := deref s2 in
      if negb (c1 =? 0) && negb (c2 =? 0) && (c1 =? c2) then
        strncmp_loop (i + 1) (tail s1) (tail s2) n
      else if (c1 =? 0) && (c2 =? 0) then 0
      else if c1 <? c2 then - i - 1 else i + 1
  end.

Definition hal_strncmp (s1 s2 : cstr) (n : nat) : Z := strncmp_loop 0 s1 s2 n.

(** [None] when one of the objects is shorter than [num]. *)
Fixpoint hal_memcmp (ptr1 ptr2 : list Z) (num : nat) : option Z :=
  match num, ptr1, ptr2 with
  | O, _, _ => Some 0
  | S num, a :: ptr1, b :: ptr2 =>
      if a <? b then Some (-1) else if b <? a then Some 1 else hal_memcmp ptr1 ptr2 num
  | _, _, _ => None
  end.

(** The pointer found, as the suffix it points to; the NUL is searched too. *)
Fixpoint hal_strchr (s : cstr) (c : Z) : option cstr :=
  if deref s =? w8 c then Some s
  else match s with
       | [] => None
       | _ :: s => hal_strchr s c
       end.

(** ** src/lib/strtoul.c *)

Section strtoul.
  Context `{Target}.

(** The digit value of an alphanumeric character. *)
Definition strtoul_digit (c : Z) : Z :=
  let t := wa (c - "0"%ch) in
  if 9 <? t then wa (Z.lor c 0x20 - "a"%ch + 10) else t.

(** The loop of [lib_strtoul]: the value and [*endptr]. *)
Fixpoint strtoul_loop (base v : Z) (nptr : cstr) : Z * cstr :=
  match nptr with
  | [] => (v, [])
  | c :: p =>
      if lib_isdigit c || lib_isalpha c then
        let t := strtoul_digit c in
        if wa base <=? t then (v, nptr) else strtoul_loop base (wa (wa (v * base) + t)) p
      else (v, nptr)
  end.

Definition lib_strtoul (nptr : cstr) (base : Z) : Z * cstr :=
  if ((base =? 16) || (base =? 0)) && (at_ nptr 0 =? "0"%ch) &&
     (Z.lor (at_ nptr 1) 0x20 =? "x"%ch)
  then strtoul_loop 16 0 (drop 2 nptr)
  else if (base =? 0) && (at_ nptr 0 =? "0"%ch) then strtoul_loop 8 0 nptr
  else if base =? 0 then strtoul_loop 10 0 nptr
  else strtoul_loop base 0 nptr.

(** [sign * v] is computed in [unsigned long]. *)
Definition lib_strtol (nptr : cstr) (base : Z) : Z * cstr :=
  let '(sign, nptr) := if deref nptr =? "-"%ch then (-1, tail nptr) else (1, nptr) in
  let '(v, endptr) := lib_strtoul nptr base in
  (sa (sign * v), endptr).

End strtoul.

(** ** Strings *)

Lemma hal_strlen_length s : hal_strlen s = zlen s.
Proof. induction s; cbn [hal_strlen length]; lia. Qed.

Lemma cstr_ok_cons c s : cstr_ok (c :: s) <-> 0 < c < 256 /\ cstr_ok s.
Proof. unfold cstr_ok. by rewrite Forall_cons. Qed.

(** [hal_strcmp] decides equality. *)
Lemma hal_strcmp_eq s1 s2 : cstr_ok s1 -> cstr_ok s2 -> hal_strcmp s1 s2 = 0 <-> s1 = s2.
Proof.
  revert s2. induction s1 as [|c s1 IH]; intros [|d s2] O1 O2; cbn [hal_strcmp deref head default tail].
  - done.
  - apply cstr_ok_cons in O2 as [? _]. cbn. cases_ifs; split; done || lia.
  - apply cstr_ok_cons in O1 as [? _]. cbn. cases_ifs; split; done || lia.
  - apply cstr_ok_cons in O1 as [? O1], O2 as [? O2]. cbn. cases_ifs.
    + split; [done|]. intros [=]; lia.
    + split; [done|]. intros [=]; lia.
    + rewrite IH by done. assert (c = d) by lia. subst. split; [by intros ->|by intros [=]].
Qed.

Lemma hal_strcmp_refl s : hal_strcmp s s = 0.
Proof. induction s as [|c s IH]; cbn; cases_ifs; done || lia. Qed.

Lemma hal_strcmp_eqb s1 s2 :
  cstr_ok s1 -> cstr_ok s2 -> (hal_strcmp s1 s2 =? 0) = bool_decide (s1 = s2).
Proof.
  intros. destruct (Z.eqb_spec (hal_strcmp s1 s2) 0) as [E|E]; symmetry.
  - apply bool_decide_eq_true. by apply hal_strcmp_eq.
  - apply bool_decide_eq_false. intros ->. by rewrite hal_strcmp_refl in E.
Qed.

Lemma hal_memcmp_eq l1 l2 n :
  (n <= length l1)%nat -> (n <= length l2)%nat -> hal_memcmp l1 l2 n = Some 0 <-> take n l1 = take n l2.
Proof.
  revert l1 l2. induction n as [|n IH]; intros [|a l1] [|b l2] L1 L2; cbn in *; try lia; try done.
  cases_ifs; [split; [done|intros [=]; lia]..|].
  rewrite IH by lia. assert (a = b) by lia. subst. split; [by intros ->|by intros [=]].
Qed.

(** ** Numbers *)

Section digits.
  Context `{Target}.

(** The value of a digit character, and of a digit string, in [base]. *)
Definition digit_val (c : Z) : Z :=
  if lib_isdigit c then c - "0"%ch
  else if lib_islower c then c - "a"%ch + 10 else c - "A"%ch + 10.

Definition is_digit (base c : Z) : bool := lib_isalnum c && (digit_val c <? base).

Definition digits_val (base : Z) (ds : cstr) : Z :=
  fold_left (fun v c => v * base + digit_val c) ds 0.

(** Checked on each of the 62 alphanumeric characters, on both widths. *)
Lemma strtoul_digit_val c : lib_isalnum c = true -> strtoul_digit c = digit_val c.
Proof.
  intros A. assert (exists n, c = Z.of_nat n /\ (n < 123)%nat) as (n & -> & Hn).
  { exists (Z.to_nat c). chars. lia. }
  unfold strtoul_digit. target_cases;
    do 123 (destruct n as [|n]; [discriminate A || reflexivity|]); lia.
Qed.

Lemma digit_val_range c : lib_isalnum c = true -> 0 <= digit_val c < 36.
Proof. unfold digit_val. chars. intros. cases_ifs; done || lia. Qed.

Lemma is_digit_spec base c :
  0 <= base < 2 ^ 32 -> lib_isdigit c || lib_isalpha c = true ->
  (wa base <=? strtoul_digit c) = negb (is_digit base c).
Proof.
  intros B A. pose proof addr_bits_ge32.
  assert (A' : lib_isalnum c = true)
    by (rewrite orb_comm in A; unfold lib_isalnum, lib_isalpha in *; done).
  rewrite wa_small by lia. unfold is_digit.
  by rewrite A', strtoul_digit_val, Z.leb_antisym by done.
Qed.

(** The loop consumes the longest digit prefix and wraps its value. *)
Lemma strtoul_loop_digits base v ds rest :
  0 <= base < 2 ^ 32 -> Forall (fun c => is_digit base c = true) ds ->
  is_digit base (deref rest) = false ->
  strtoul_loop base (wa v) (ds ++ rest) =
    (wa (fold_left (fun v c => v * base + digit_val c) ds v), rest).
Proof.
  intros B. revert v. induction ds as [|c ds IH]; intros v D N; cbn [app fold_left].
  - destruct rest as [|c rest]; [done|]. cbn [strtoul_loop].
    destruct (lib_isdigit c || lib_isalpha c) eqn:A; [|done].
    rewrite is_digit_spec by done. cbn in N. by rewrite N.
  - apply Forall_cons in D as [Dc D]. cbn [strtoul_loop].
    assert (A : lib_isdigit c || lib_isalpha c = true).
    { unfold is_digit in Dc. apply andb_true_iff in Dc as [Dc _].
      rewrite orb_comm. unfold lib_isalnum, lib_isalpha in *. done. }
    rewrite A, is_digit_spec, Dc by done. cbn [negb].
    rewrite strtoul_digit_val by (unfold is_digit in Dc; by apply andb_true_iff in Dc as [? _]).
    rewrite <- IH by done. f_equal. unfold wa.
    by rewrite Zplus_mod_idemp_l, <- Zplus_mod_idemp_l, Zmult_mod_idemp_l, Zplus_mod_idemp_l.
Qed.

(** [lib_strtoul] consumes the longest prefix of digits of the base, whatever
    their case, returns their value modulo the width of [unsigned long], and
    leaves [*endptr] on the first character that is no digit of the base; in
    bases 0 and 16 a [0x] prefix selects base 16, in base 0 a [0] prefix selects
    base 8. *)
Lemma lib_strtoul_spec base pre b ds rest :
  (base, pre, b) ∈ [(10, [], 10); (0, [], 10); (16, [], 16); (16, str "0x", 16);
                    (0, str "0x", 16); (0, str "0X", 16); (0, str "0", 8)] ->
  Forall (fun c => is_digit b c = true) ds -> is_digit b (deref rest) = false ->
  (pre = [] -> base <> 10 -> head ds <> Some "0"%ch) ->
  (pre = str "0" -> deref (ds ++ rest) <> "x"%ch /\ deref (ds ++ rest) <> "X"%ch) ->
  lib_strtoul (pre ++ ds ++ rest) base = (wa (digits_val b ds), rest).
Proof.
  intros I D N Z0 X.
  assert (L : forall b, 0 <= b < 2 ^ 32 -> Forall (fun c => is_digit b c = true) ds ->
    is_digit b (deref rest) = false ->
    strtoul_loop b 0 (ds ++ rest) = (wa (digits_val b ds), rest)).
  { intros b' B D' N'. pose proof (strtoul_loop_digits b' 0 ds rest B D' N') as S.
    by rewrite (wa_small 0) in S by (pose proof addr_bits_ge32; lia). }
  assert (H0 : forall b, b = 10 \/ b = 16 -> is_digit b (deref rest) = false ->
    head ds <> Some "0"%ch -> (at_ (ds ++ rest) 0 =? "0"%ch) = false).
  { intros b' Hb N' Hd. apply Z.eqb_neq. destruct ds as [|c ds]; [|cbn in *; congruence].
    replace (at_ ([] ++ rest) 0) with (deref rest) by (by destruct rest). intros E. rewrite E in N'.
    destruct Hb as [-> | ->]; discriminate N'. }
  repeat (apply elem_of_cons in I as [E|I]; [injection E as -> -> ->|]); [..|by apply elem_of_nil in I].
  - by apply L.
  - unfold lib_strtoul. cbn [app]. rewrite (H0 10) by auto. by apply L.
  - unfold lib_strtoul. cbn [app]. rewrite (H0 16) by auto. by apply L.
  - by apply L.
  - by apply L.
  - by apply L.
  - destruct (X eq_refl) as [X1 X2].
    assert (E : (Z.lor (deref (ds ++ rest)) 0x20 =? "x"%ch) = false)
      by (apply Z.eqb_neq; destruct (lor_0x20 (deref (ds ++ rest))) as [-> | ->]; lia).
    assert (E' : lib_strtoul ("0"%ch :: ds ++ rest) 0 = strtoul_loop 8 0 (("0"%ch :: ds) ++ rest)).
    { unfold lib_strtoul. cbn [app]. replace (at_ ("0"%ch :: ds ++ rest) 1)
        with (deref (ds ++ rest)) by (by destruct (ds ++ rest)). by rewrite E. }
    change (str "0" ++ ds ++ rest) with ("0"%ch :: ds ++ rest). rewrite E'.
    pose proof (strtoul_loop_digits 8 0 ("0"%ch :: ds) rest ltac:(lia)) as S.
    rewrite (wa_small 0) in S by (pose proof addr_bits_ge32; lia).
    rewrite S; [done|by constructor|done].
Qed.

End digits.

Lemma lib_strtoul_spec_witness :
  lib_strtoul (H := target32) (str "0x" ++ str "1fF" ++ str ";n") 0 = (0x1ff, str ";n").
Proof.
  apply (@lib_strtoul_spec target32 0 (str "0x") 16 (str "1fF") (str ";n"));
    [by do 4 right; left|by repeat constructor|done|done|done].
Defined.
