(* ===== verification/Format.v ===== *)
(** * Formatted output (src/lib/format.c, src/lib/sprintf.c)

    [lib_formatParse] feeds characters one by one to a callback; here the
    callback is a function on a context, as in C.  A [va_list] is the list of the
    arguments that are left.  Fetching an argument that is not there, or of
    another size, is undefined in C: the model answers [None].

    The floating-point conversions ([FLAG_FLOAT], [FLAG_DOUBLE]) are compiled out
    of the parser ([#if 0]); [lib_formatSprintfNum] is modelled for the flags the
    parser can set. *)

From S2P Require Import Prelude CString.

(** ** Flags *)

Definition FLAG_SIGNED := 0x1.
Definition FLAG_64BIT := 0x2.
Definition FLAG_SPACE := 0x10.
Definition FLAG_ZERO := 0x20.
Definition FLAG_PLUS := 0x40.
Definition FLAG_HEX := 0x80.
Definition FLAG_OCT := 0x100.
Definition FLAG_LARGE_DIGITS := 0x200.
Definition FLAG_ALTERNATE := 0x400.
Definition FLAG_NULLMARK := 0x800.
Definition FLAG_MINUS := 0x1000.
Definition FLAG_FIELD_WIDTH_STAR := 0x2000.

Definition has (flags f : Z) : bool := negb (Z.land flags f =? 0).

(** ** Arguments *)

Inductive vararg :=
| AInt (z : Z)            (* an argument of 32 bits *)
| ALong (z : Z)           (* an argument of 64 bits *)
| AStr (s : option cstr)  (* a [char *], [None] for NULL *).

Abbreviation va_list := (list vararg).

Definition va_arg_int (args : va_list) : option (Z * va_list) :=
  match args with AInt z :: args => Some (z, args) | _ => None end.

Definition va_arg_str (args : va_list) : option (option cstr * va_list) :=
  match args with AStr s :: args => Some (s, args) | _ => None end.

Definition GET_UNSIGNED (flags : Z) (args : va_list) : option (Z * va_list) :=
  if has flags FLAG_64BIT then
    match args with ALong z :: args => Some (w64 z, args) | _ => None end
  else
    match args with AInt z :: args => Some (w32 z, args) | _ => None end.

(** The signed value is converted to [u64]. *)
Definition GET_SIGNED (flags : Z) (args : va_list) : option (Z * va_list) :=
  if has flags FLAG_64BIT then
    match args with ALong z :: args => Some (w64 (s64 z), args) | _ => None end
  else
    match args with AInt z :: args => Some (w64 (s32 z), args) | _ => None end.

(** ** Numbers *)

Definition digits_of (flags : Z) : cstr :=
  if has flags FLAG_LARGE_DIGITS then str "0123456789ABCDEF" else str "0123456789abcdef".

(** [digits[i]] *)
Definition digit (flags i : Z) : Z := nth (Z.to_nat i) (digits_of flags) 0.

(** [while (n) { *tmp++ = digits[n & (2^k - 1)]; n >>= k; }] *)
Fixpoint bit_digits (fuel : nat) (k flags n : Z) : list Z :=
  match fuel with
  | O => []
  | S fuel =>
      if n =? 0 then []
      else digit flags (Z.land n (Z.ones k)) :: bit_digits fuel k flags (Z.shiftr n k)
  end.

(** [for (i = 0; i < cnt; ++i) { *tmp++ = digits[n & (2^k - 1)]; n >>= k; }]:
    the digits and what is left of [n]. *)
Fixpoint bit_digits_for (cnt : nat) (k flags n : Z) : list Z * Z :=
  match cnt with
  | O => ([], n)
  | S cnt =>
      let '(ds, n') := bit_digits_for cnt k flags (Z.shiftr n k) in
      (digit flags (Z.land n (Z.ones k)) :: ds, n')
  end.

(** [while (n) { *tmp++ = digits[n % 10]; n /= 10; }] *)
Fixpoint dec_digits (fuel : nat) (flags n : Z) : list Z :=
  match fuel with
  | O => []
  | S fuel => if n =? 0 then [] else digit flags (n mod 10) :: dec_digits fuel flags (n / 10)
  end.

(** Enough steps for any 64-bit number. *)
Definition digits_fuel : nat := 64.

(** The digits of the number, least significant first, as they are stored to
    [tmp_buf]; [flags] no longer has [FLAG_64BIT] when [num_high] is zero. *)
Definition sprintf_digits (num64 flags : Z) : list Z :=
  let num32 := w32 num64 in
  let num_high := Z.shiftr num64 32 in
  if num64 =? 0 then ["0"%ch]
  else if has flags FLAG_HEX then
    (if has flags FLAG_64BIT then
       let '(ds, _) := bit_digits_for 8 4 flags num32 in
       ds ++ bit_digits digits_fuel 4 flags num_high
     else bit_digits digits_fuel 4 flags num32)
    ++ (if has flags FLAG_ALTERNATE then
          if has flags FLAG_LARGE_DIGITS then str "X0" else str "x0"
        else [])
  else if has flags FLAG_OCT then
    (if has flags FLAG_64BIT then
       let '(ds, num32) := bit_digits_for 10 3 flags num32 in
       let num32 := Z.lor num32 (Z.shiftl (Z.land num_high 1) 2) in
       let num_high := Z.shiftr num_high 1 in
       ds ++ [digit flags (Z.land num32 7)] ++ bit_digits digits_fuel 3 flags num_high
     else bit_digits digits_fuel 3 flags num32)
    ++ (if has flags FLAG_ALTERNATE then ["0"%ch] else [])
  else if has flags FLAG_64BIT then dec_digits digits_fuel flags num64
  else dec_digits digits_fuel flags num32.

(** The sign character (0 for none) and the magnitude.  The 32-bit path of the
    code negates [num32] only; [num64] is then just tested against zero, and a
    negative number is not zero. *)
Definition sprintf_sign (num64 flags : Z) : Z * Z :=
  if has flags FLAG_SIGNED then
    let '(sign, num64) :=
      if has flags FLAG_64BIT then
        if s32 (Z.shiftr num64 32) <? 0 then ("-"%ch, w64 (- s64 num64)) else (0, num64)
      else
        if s32 (w32 num64) <? 0 then ("-"%ch, w32 (- s32 (w32 num64))) else (0, num64)
    in
    if sign =? 0 then
      if has flags FLAG_SPACE then (" "%ch, num64)
      else if has flags FLAG_PLUS then ("+"%ch, num64) else (0, num64)
    else (sign, num64)
  else (0, num64).

Section format.
  Context `{Target} {C : Type} (feed : C -> Z -> C).

Definition feed_all (ctx : C) (cs : list Z) : C := fold_left feed cs ctx.

Definition lib_formatSprintfNum (ctx : C) (num64 flags min_number_len : Z) : C :=
  let ctx := if has flags FLAG_NULLMARK && (num64 =? 0) then feed_all ctx (str "(nil)") else ctx in
  let '(sign, num64) := sprintf_sign num64 flags in
  let flags :=
    if has flags FLAG_64BIT && (Z.shiftr num64 32 =? 0) then Z.ldiff flags FLAG_64BIT else flags in
  let tmp := sprintf_digits num64 flags in
  let pad_len := s32 min_number_len - zlen tmp - b2z (negb (sign =? 0)) in
  let '(ctx, pad_len) :=
    if (0 <? pad_len) && negb (has flags FLAG_ZERO) then
      (feed_all ctx (replicate (Z.to_nat pad_len) " "%ch), -1)
    else (ctx, pad_len) in
  let ctx := if negb (sign =? 0) then feed ctx sign else ctx in
  let ctx :=
    if (0 <? pad_len) && has flags FLAG_ZERO then
      feed_all ctx (replicate (Z.to_nat pad_len) "0"%ch)
    else ctx in
  feed_all ctx (rev tmp).

(** ** The parser *)

(** Flag characters: the first other character, what follows it, the flags. *)
Fixpoint format_flags (fmt : Z) (format : cstr) (flags : Z) {struct format} : Z * cstr * Z :=
  let next f :=
    match format with
    | [] => (0, [], Z.lor flags f)
    | c :: format => format_flags c format (Z.lor flags f)
    end in
  if fmt =? " "%ch then next FLAG_SPACE
  else if fmt =? "-"%ch then next FLAG_MINUS
  else if fmt =? "0"%ch then next FLAG_ZERO
  else if fmt =? "+"%ch then next FLAG_PLUS
  else if fmt =? "#"%ch then next FLAG_ALTERNATE
  else if fmt =? "*"%ch then next FLAG_FIELD_WIDTH_STAR
  else (fmt, format, flags).

(** A decimal number, accumulated with the conversion [conv] of its type. *)
Fixpoint format_number (conv : Z -> Z) (fmt : Z) (format : cstr) (acc : Z) {struct format}
    : Z * cstr * Z :=
  if lib_isdigit fmt then
    let acc := conv (acc * 10 + fmt - "0"%ch) in
    match format with
    | [] => (0, [], acc)
    | c :: format => format_number conv c format acc
    end
  else (fmt, format, acc).

(** Case ['s']. *)
Definition format_str (ctx : C) (s : option cstr) (flags min_number_len float_frac_len : Z) : C :=
  let s := default (str "(null)") s in
  let l := if 0 <? min_number_len then Z.min (zlen s) min_number_len else w32 (hal_strlen s) in
  let l := if 0 <=? float_frac_len then Z.min l (w32 float_frac_len) else l in
  let pad := replicate (Z.to_nat (w32 (min_number_len - l))) " "%ch in
  let ctx := if (l <? min_number_len) && negb (has flags FLAG_MINUS) then feed_all ctx pad else ctx in
  let ctx := feed_all ctx (ztake l s) in
  if (l <? min_number_len) && has flags FLAG_MINUS then feed_all ctx pad else ctx.

(** The conversion character. *)
Definition format_conv (ctx : C) (fmt flags min_number_len float_frac_len : Z) (args : va_list)
    : option (C * va_list) :=
  let unsigned flags min_number_len :=
    '(number, args) ← GET_UNSIGNED flags args;
    Some (lib_formatSprintfNum ctx number flags min_number_len, args) in
  if fmt =? "s"%ch then
    '(s, args) ← va_arg_str args;
    Some (format_str ctx s flags min_number_len float_frac_len, args)
  else if fmt =? "c"%ch then
    '(c, args) ← va_arg_int args; Some (feed ctx (w8 c), args)
  else if fmt =? "p"%ch then
    let flags := Z.lor flags (Z.lor FLAG_HEX (Z.lor FLAG_NULLMARK FLAG_ZERO)) in
    let flags := if addr_bits =? 64 then Z.lor flags FLAG_64BIT else flags in
    unsigned flags (addr_bits / 8 * 2)
  else if fmt =? "o"%ch then unsigned (Z.lor flags FLAG_OCT) min_number_len
  else if fmt =? "X"%ch then
    unsigned (Z.lor (Z.lor flags FLAG_LARGE_DIGITS) FLAG_HEX) min_number_len
  else if fmt =? "x"%ch then unsigned (Z.lor flags FLAG_HEX) min_number_len
  else if fmt =? "u"%ch then unsigned flags min_number_len
  else if (fmt =? "d"%ch) || (fmt =? "i"%ch) then
    let flags := Z.lor flags FLAG_SIGNED in
    '(number, args) ← GET_SIGNED flags args;
    Some (lib_formatSprintfNum ctx number flags min_number_len, args)
  else if fmt =? "%"%ch then Some (feed ctx "%"%ch, args)
  else Some (feed (feed ctx "%"%ch) fmt, args).

(** [fmt = *format++] *)
Definition next (format : cstr) : Z * cstr := (deref format, tail format).

(** One conversion, after the ['%'] and the first character [fmt] behind it.
    The last component is [None] when the format ends inside the conversion. *)
Definition format_spec (ctx : C) (fmt : Z) (format : cstr) (args : va_list)
    : option (C * va_list * option cstr) :=
  let '(fmt, format, flags) := format_flags fmt format 0 in
  if fmt =? 0 then Some (ctx, args, None)
  else
    let '(fmt, format, min_number_len) := format_number w32 fmt format 0 in
    '(min_number_len, args) ←
      (if has flags FLAG_FIELD_WIDTH_STAR then
         '(w, args) ← va_arg_int args; Some (w32 w, args)
       else Some (min_number_len, args));
    if fmt =? 0 then Some (ctx, args, None)
    else
      let '(fmt, format, float_frac_len) :=
        if fmt =? "."%ch then
          let '(fmt, format) := next format in format_number s32 fmt format 0
        else (fmt, format, -1) in
      if fmt =? 0 then Some (ctx, args, None)
      else
        '(fmt, format, float_frac_len, args) ←
          (if fmt =? "*"%ch then
             '(w, args) ← va_arg_int args;
             let '(fmt, format) := next format in
             Some (fmt, format, s32 w, args)
           else Some (fmt, format, float_frac_len, args));
        if fmt =? 0 then Some (ctx, args, None)
        else
          let '(fmt, format, flags) :=
            if fmt =? "l"%ch then
              let '(fmt, format) := next format in
              if fmt =? "l"%ch then
                let '(fmt, format) := next format in (fmt, format, Z.lor flags FLAG_64BIT)
              else (fmt, format, flags)
            else (fmt, format, flags) in
          if fmt =? 0 then Some (ctx, args, None)
          else
            let '(fmt, format, flags) :=
              if fmt =? "z"%ch then
                let '(fmt, format) := next format in
                (fmt, format, if addr_bits =? 64 then Z.lor flags FLAG_64BIT else flags)
              else (fmt, format, flags) in
            if fmt =? 0 then Some (ctx, args, None)
            else
              '(ctx, args) ← format_conv ctx fmt flags min_number_len float_frac_len args;
              Some (ctx, args, Some format).

(** The loop; every iteration consumes a character of the format. *)
Fixpoint format_loop (fuel : nat) (ctx : C) (format : cstr) (args : va_list) : option C :=
  match fuel with
  | O => None
  | S fuel =>
      let '(fmt, format) := next format in
      if fmt =? 0 then Some ctx
      else if negb (fmt =? "%"%ch) then format_loop fuel (feed ctx fmt) format args
      else
        let '(fmt, format) := next format in
        if fmt =? 0 then Some (feed ctx "%"%ch)
        else
          '(ctx, args, format) ← format_spec ctx fmt format args;
          match format with
          | None => Some ctx
          | Some format => format_loop fuel ctx format args
          end
  end.

Definition lib_formatParse (ctx : C) (format : cstr) (args : va_list) : option C :=
  format_loop (S (length format)) ctx format args.

End format.

(** ** src/lib/sprintf.c *)

Record sprintf_ctx := mk_sprintf_ctx { sp_buff : list Z; sp_n : Z }.

Section sprintf.
  Context `{Target}.

(** [sp_buff] holds the bytes written so far from [ctx->buff] on. *)
Definition lib_sprintfFeed (ctx : sprintf_ctx) (c : Z) : sprintf_ctx :=
  {| sp_buff := sp_buff ctx ++ [c]; sp_n := wa (sp_n ctx + 1) |}.

(** The bytes written to [str] and the result. *)
Definition lib_sprintf (format : cstr) (args : va_list) : option (list Z * Z) :=
  ctx ← lib_formatParse lib_sprintfFeed (mk_sprintf_ctx [] 0) format args;
  let ctx := lib_sprintfFeed ctx 0 in
  Some (sp_buff ctx, s32 (wa (sp_n ctx - 1))).

End sprintf.

(** ** The characters fed do not depend on the context *)

Section feed.
  Context `{Target} {C : Type} (feed : C -> Z -> C) (c0 : C).

Definition snoc (cs : list Z) (c : Z) : list Z := cs ++ [c].

(** A context that has been fed [cs] from [c0] on. *)
Definition fed (c : C) (cs : list Z) : Prop := c = feed_all feed c0 cs.

Lemma feed_all_snoc cs l : feed_all snoc l cs = l ++ cs.
Proof.
  revert l. induction cs as [|c cs IH]; intros l; [by rewrite app_nil_r|].
  change (feed_all snoc (snoc l c) cs = l ++ c :: cs).
  rewrite IH. unfold snoc. by rewrite <- app_assoc.
Qed.

Lemma fed_feed c cs x : fed c cs -> fed (feed c x) (snoc cs x).
Proof. unfold fed, snoc, feed_all. intros ->. by rewrite fold_left_app. Qed.

Lemma fed_all c cs xs : fed c cs -> fed (feed_all feed c xs) (feed_all snoc cs xs).
Proof. rewrite feed_all_snoc. unfold fed, feed_all. intros ->. by rewrite fold_left_app. Qed.

#[local] Hint Resolve fed_feed fed_all : plo.

Lemma fed_num c cs n flags w :
  fed c cs -> fed (lib_formatSprintfNum feed c n flags w) (lib_formatSprintfNum snoc cs n flags w).
Proof.
  intros. unfold lib_formatSprintfNum. destruct (sprintf_sign n flags) as [sign n'].
  repeat match goal with |- context [if ?b then _ else _] => destruct b end; auto 10 with plo.
Qed.

Lemma fed_str c cs s flags w p :
  fed c cs -> fed (format_str feed c s flags w p) (format_str snoc cs s flags w p).
Proof. intros. unfold format_str. repeat case_match; auto with plo. Qed.

#[local] Hint Resolve fed_num fed_str : plo.

(** Two runs that agree on everything but the context. *)
Definition fed_opt {B} (r : option (C * B)) (r' : option (list Z * B)) : Prop :=
  match r, r' with
  | Some (c, b), Some (cs, b') => fed c cs /\ b = b'
  | None, None => True
  | _, _ => False
  end.

Lemma fed_conv c cs fmt flags w p args :
  fed c cs -> fed_opt (format_conv feed c fmt flags w p args) (format_conv snoc cs fmt flags w p args).
Proof.
  intros. unfold format_conv.
  repeat match goal with
  | |- context [mbind _ ?o] => destruct o as [[? ?]|]; cbn [mbind option_bind]
  | |- context [if ?b then _ else _] => destruct b
  end; cbn; auto with plo.
Qed.

Lemma fed_spec c cs fmt format args :
  fed c cs ->
  match format_spec feed c fmt format args, format_spec snoc cs fmt format args with
  | Some (c, a, f), Some (cs, a', f') => fed c cs /\ a = a' /\ f = f'
  | None, None => True
  | _, _ => False
  end.
Proof.
  intros F. unfold format_spec.
  destruct (format_flags fmt format 0) as [[f1 p1] flags].
  destruct (f1 =? 0); [by auto|]. destruct (format_number w32 f1 p1 0) as [[f2 p2] w].
  lazymatch goal with |- context [mbind _ ?o] => destruct o as [[w' a1]|] end;
    cbn [mbind option_bind]; [|done].
  destruct (f2 =? 0); [by auto|].
  lazymatch goal with |- context [if f2 =? "."%ch then ?a else ?b] =>
    destruct (if f2 =? "."%ch then a else b) as [[f3 p3] prec] end.
  destruct (f3 =? 0); [by auto|].
  lazymatch goal with |- context [mbind _ ?o] => destruct o as [[[[f4 p4] prec'] a2]|] end;
    cbn [mbind option_bind]; [|done].
  destruct (f4 =? 0); [by auto|].
  lazymatch goal with |- context [if f4 =? "l"%ch then ?a else ?b] =>
    destruct (if f4 =? "l"%ch then a else b) as [[f5 p5] flags'] end.
  destruct (f5 =? 0); [by auto|].
  lazymatch goal with |- context [if f5 =? "z"%ch then ?a else ?b] =>
    destruct (if f5 =? "z"%ch then a else b) as [[f6 p6] flags''] end.
  destruct (f6 =? 0); [by auto|].
  pose proof (fed_conv c cs f6 flags'' w' prec' a2 F) as E.
  destruct (format_conv feed c f6 flags'' w' prec' a2) as [[? ?]|],
    (format_conv snoc cs f6 flags'' w' prec' a2) as [[? ?]|]; cbn in E |- *; done || (by destruct E).
Qed.

End feed.

Lemma fed_loop `{Target} {C} (feed : C -> Z -> C) c0 fuel c cs format args :
  fed feed c0 c cs ->
  match format_loop feed fuel c format args, format_loop snoc fuel cs format args with
  | Some c, Some cs => fed feed c0 c cs
  | None, None => True
  | _, _ => False
  end.
Proof.
  revert c cs format args. induction fuel as [|fuel IH]; intros c cs format args F; [done|].
  cbn [format_loop]. destruct (next format) as [f p].
  destruct (f =? 0); [done|]. destruct (negb (f =? "%"%ch)); [by apply IH, fed_feed|].
  destruct (next p) as [f' p']. destruct (f' =? 0); [by apply fed_feed|].
  pose proof (fed_spec feed c0 c cs f' p' args F) as E.
  destruct (format_spec feed c f' p' args) as [[[? ?] [?|]]|],
    (format_spec snoc cs f' p' args) as [[[? ?] [?|]]|];
    cbn [mbind option_bind]; try done; destruct E as (? & ? & E); simplify_eq; [by apply IH|done].
Qed.

(** What [lib_formatParse] does with any callback is determined by the
    characters it produces. *)
Lemma lib_formatParse_fold `{Target} {C} (feed : C -> Z -> C) ctx format args :
  lib_formatParse feed ctx format args =
    (cs ← lib_formatParse snoc [] format args; Some (feed_all feed ctx cs)).
Proof.
  pose proof (fed_loop feed ctx (S (length format)) ctx [] format args eq_refl) as F.
  unfold lib_formatParse. destruct (format_loop feed _ _ _ _), (format_loop snoc _ _ _ _);
    cbn; try done. by rewrite F.
Qed.

(** ** Digits *)

Lemma digit_ok flags i :
  0 <= i < 16 -> digit_val (digit flags i) = i /\ lib_isalnum (digit flags i) = true.
Proof.
  intros. assert (exists n, i = Z.of_nat n /\ (n < 16)%nat) as (n & -> & Hn)
    by (exists (Z.to_nat i); lia).
  unfold digit, digits_of. destruct (has flags FLAG_LARGE_DIGITS);
    do 16 (destruct n as [|n]; [done|]); lia.
Qed.

Lemma digit_is_digit base flags i :
  0 <= i < base -> base <= 16 -> is_digit base (digit flags i) = true.
Proof.
  intros. destruct (digit_ok flags i) as [V A]; [lia|]. unfold is_digit. rewrite V, A. cbn. lia.
Qed.

(** The value of digits stored least significant first. *)
Definition lsd_val (base : Z) (ds : list Z) : Z :=
  fold_right (fun c v => v * base + digit_val c) 0 ds.

Lemma digits_val_rev base ds : digits_val base (rev ds) = lsd_val base ds.
Proof. unfold digits_val, lsd_val. by rewrite <- fold_left_rev_right, rev_involutive. Qed.

Lemma lsd_val_app base ds ds' :
  0 < base -> lsd_val base (ds ++ ds') = lsd_val base ds + base ^ zlen ds * lsd_val base ds'.
Proof.
  intros. unfold lsd_val. induction ds as [|c ds IH]; [cbn; lia|].
  cbn [app fold_right length]. rewrite IH.
  replace (Z.of_nat (S (length ds))) with (Z.succ (Z.of_nat (length ds))) by lia.
  rewrite Z.pow_succ_r by lia. ring.
Qed.

(** [ds] are the digits of [n] in [base], no leading zero unless allowed. *)
Definition digits_in (base n : Z) (ds : list Z) : Prop :=
  Forall (fun c => is_digit base c = true) ds /\ lsd_val base ds = n.

Lemma digits_in_cons base flags n ds :
  0 < base <= 16 -> 0 <= n -> digits_in base (n / base) ds ->
  digits_in base n (digit flags (n mod base) :: ds).
Proof.
  intros B N [F V]. pose proof (Z.mod_pos_bound n base ltac:(lia)). split.
  - constructor; [|done]. by apply digit_is_digit; lia.
  - cbn. fold (lsd_val base ds). rewrite V. destruct (digit_ok flags (n mod base)) as [-> _]; [lia|].
    pose proof (Z.div_mod n base ltac:(lia)). lia.
Qed.

Lemma digits_in_app base n m ds ds' :
  0 < base -> digits_in base n ds -> digits_in base m ds' ->
  digits_in base (n + base ^ zlen ds * m) (ds ++ ds').
Proof. intros B [? <-] [? <-]. split; [by apply Forall_app|]. by apply lsd_val_app. Qed.

Lemma ones_mod n k : 0 <= k -> Z.land n (Z.ones k) = n mod 2 ^ k.
Proof. apply Z.land_ones. Qed.

Lemma pow_le16 k : 0 < k <= 4 -> 1 < 2 ^ k <= 16.
Proof. intros. assert (k = 1 \/ k = 2 \/ k = 3 \/ k = 4) as [-> | [-> | [-> | ->]]] by lia; lia. Qed.

Lemma bit_digits_in fuel k flags n :
  0 < k <= 4 -> 0 <= n < 2 ^ (k * Z.of_nat fuel) ->
  digits_in (2 ^ k) n (bit_digits fuel k flags n).
Proof.
  intros K. revert n. induction fuel as [|fuel IH]; intros n N.
  - rewrite Z.mul_0_r in N. replace n with 0 by lia. by split.
  - cbn [bit_digits]. destruct (Z.eqb_spec n 0) as [-> |]; [by split|].
    pose proof (pow_le16 k K). rewrite ones_mod, Z.shiftr_div_pow2 by lia.
    apply digits_in_cons; [lia..|]. apply IH.
    replace (k * Z.of_nat (S fuel)) with (k + k * Z.of_nat fuel) in N by lia.
    rewrite Z.pow_add_r in N by lia.
    split; [apply Z.div_pos; lia|apply Z.div_lt_upper_bound; lia].
Qed.

Lemma dec_digits_in fuel flags n :
  0 <= n < 10 ^ Z.of_nat fuel -> digits_in 10 n (dec_digits fuel flags n).
Proof.
  revert n. induction fuel as [|fuel IH]; intros n N.
  - replace n with 0 by (cbn in N; lia). by split.
  - cbn [dec_digits]. destruct (Z.eqb_spec n 0) as [-> |]; [by split|].
    apply digits_in_cons; [lia..|]. apply IH.
    replace (Z.of_nat (S fuel)) with (Z.succ (Z.of_nat fuel)) in N by lia.
    rewrite Z.pow_succ_r in N by lia. modlia.
Qed.

Lemma bit_digits_for_in cnt k flags n :
  0 < k <= 4 -> 0 <= n ->
  let '(ds, n') := bit_digits_for cnt k flags n in
  length ds = cnt /\ n' = n / 2 ^ (k * Z.of_nat cnt) /\
  digits_in (2 ^ k) (n mod 2 ^ (k * Z.of_nat cnt)) ds.
Proof.
  intros K. revert n. induction cnt as [|cnt IH]; intros n N.
  - cbn. rewrite Z.mul_0_r. rewrite Z.div_1_r, Z.mod_1_r. by repeat split.
  - cbn [bit_digits_for]. pose proof (pow_le16 k K).
    assert (N' : 0 <= Z.shiftr n k) by (by apply Z.shiftr_nonneg).
    specialize (IH _ N'). destruct (bit_digits_for cnt k flags (Z.shiftr n k)) as [ds n'].
    destruct IH as (L & E & D). rewrite Z.shiftr_div_pow2 in E, D by lia.
    replace (k * Z.of_nat (S cnt)) with (k + k * Z.of_nat cnt) by lia.
    assert (0 < 2 ^ (k * Z.of_nat cnt)) by (apply Z.pow_pos_nonneg; lia).
    rewrite Z.pow_add_r by lia. split_and!; [cbn; lia|by rewrite E, Z.div_div by lia|].
    rewrite ones_mod by lia.
    replace (n mod 2 ^ k) with ((n mod (2 ^ k * 2 ^ (k * Z.of_nat cnt))) mod 2 ^ k)
      by (rewrite Z.rem_mul_r, Z.mul_comm, Z.mod_add by lia; by rewrite Z.mod_mod by lia).
    pose proof (Z.mod_pos_bound n (2 ^ k * 2 ^ (k * Z.of_nat cnt)) ltac:(lia)).
    apply digits_in_cons; [lia..|].
    rewrite Z.rem_mul_r, Z.mul_comm, Z.div_add, (Z.div_small (n mod 2 ^ k)) by
      (pose proof (Z.mod_pos_bound n (2 ^ k)); lia). done.
Qed.

Lemma bit_digits_length fuel k flags n (m : nat) :
  0 < k -> 0 <= n < 2 ^ (k * Z.of_nat m) -> (length (bit_digits fuel k flags n) <= m)%nat.
Proof.
  intros K. revert n m. induction fuel as [|fuel IH]; intros n m N; [cbn; lia|].
  cbn [bit_digits]. destruct (Z.eqb_spec n 0); [cbn; lia|].
  destruct m as [|m]; [rewrite Z.mul_0_r in N; lia|]. cbn. apply le_n_S, IH.
  rewrite Z.shiftr_div_pow2 by lia.
  replace (k * Z.of_nat (S m)) with (k + k * Z.of_nat m) in N by lia.
  assert (0 < 2 ^ k) by (apply Z.pow_pos_nonneg; lia).
  rewrite Z.pow_add_r in N by lia.
  split; [apply Z.div_pos; lia|apply Z.div_lt_upper_bound; lia].
Qed.

Lemma dec_digits_length fuel flags n (m : nat) :
  0 <= n < 10 ^ Z.of_nat m -> (length (dec_digits fuel flags n) <= m)%nat.
Proof.
  revert n m. induction fuel as [|fuel IH]; intros n m N; [cbn; lia|].
  cbn [dec_digits]. destruct (Z.eqb_spec n 0); [cbn; lia|].
  destruct m as [|m]; [cbn in N; lia|]. cbn. apply le_n_S, IH.
  replace (Z.of_nat (S m)) with (Z.succ (Z.of_nat m)) in N by lia.
  rewrite Z.pow_succ_r in N by lia. modlia.
Qed.

(** The base selected by the flags. *)
Definition flags_base (flags : Z) : Z :=
  if has flags FLAG_HEX then 16 else if has flags FLAG_OCT then 8 else 10.

Lemma high_low n : 0 <= n < 2 ^ 64 -> n = w32 n + 2 ^ 32 * Z.shiftr n 32 /\ 0 <= Z.shiftr n 32 < 2 ^ 32.
Proof. intros. rewrite Z.shiftr_div_pow2 by lia. mlia. Qed.

(** The octal digit between the words of a 64-bit number. *)
Lemma octal_middle lo hi :
  0 <= lo < 2 ^ 32 -> 0 <= hi ->
  Z.land (Z.lor (lo / 2 ^ 30) (Z.shiftl (Z.land hi 1) 2)) 7 = lo / 2 ^ 30 + 4 * (hi mod 2).
Proof.
  intros. rewrite Z.shiftl_mul_pow2 by lia. change 1 with (Z.ones 1) at 1.
  rewrite Z.land_ones by lia. change (2 ^ 1) with 2. change 7 with (Z.ones 3).
  rewrite Z.land_ones by lia.
  assert (Q : lo / 2 ^ 30 = 0 \/ lo / 2 ^ 30 = 1 \/ lo / 2 ^ 30 = 2 \/ lo / 2 ^ 30 = 3) by modlia.
  assert (R : hi mod 2 = 0 \/ hi mod 2 = 1) by modlia.
  by destruct Q as [-> | [-> | [-> | ->]]], R as [-> | ->].
Qed.

Lemma digits_fuel_enough :
  2 ^ 64 <= 2 ^ (3 * Z.of_nat digits_fuel) /\ 2 ^ 64 <= 2 ^ (4 * Z.of_nat digits_fuel) /\
  2 ^ 64 <= 10 ^ Z.of_nat digits_fuel.
Proof. by vm_compute. Qed.

Lemma sprintf_digits_in n flags :
  0 <= n < 2 ^ 64 -> (has flags FLAG_64BIT = false -> n < 2 ^ 32) ->
  has flags FLAG_ALTERNATE = false ->
  digits_in (flags_base flags) n (sprintf_digits n flags).
Proof.
  intros N W A. destruct (high_low n N) as [E HI]. pose proof (w32_range n) as LO.
  destruct digits_fuel_enough as (F3 & F4 & F10).
  unfold sprintf_digits, flags_base. rewrite A, ?app_nil_r.
  destruct (Z.eqb_spec n 0) as [-> |].
  { by destruct (has flags FLAG_HEX); [|destruct (has flags FLAG_OCT)]; repeat constructor. }
  destruct (has flags FLAG_64BIT) eqn:B; [|specialize (W eq_refl); rewrite (w32_small n) by lia].
  all: destruct (has flags FLAG_HEX); [|destruct (has flags FLAG_OCT)]; rewrite ?app_nil_r.
  4: apply (bit_digits_in digits_fuel 4); lia.
  4: apply (bit_digits_in digits_fuel 3); lia.
  4: apply dec_digits_in; lia.
  - pose proof (bit_digits_for_in 8 4 flags (w32 n) ltac:(lia) ltac:(lia)) as D.
    destruct (bit_digits_for 8 4 flags (w32 n)) as [ds n']. destruct D as (L & _ & D).
    change (4 * Z.of_nat 8) with 32 in D. rewrite Z.mod_small in D by lia.
    rewrite E at 1. change (2 ^ 32) with (16 ^ Z.of_nat 8). rewrite <- L.
    apply digits_in_app; [lia|done|]. apply (bit_digits_in _ 4); lia.
  - pose proof (bit_digits_for_in 10 3 flags (w32 n) ltac:(lia) ltac:(lia)) as D.
    destruct (bit_digits_for 10 3 flags (w32 n)) as [ds n']. destruct D as (L & -> & D).
    change (3 * Z.of_nat 10) with 30 in *. rewrite octal_middle by lia.
    rewrite (Z.shiftr_div_pow2 _ 1) by lia. change (2 ^ 1) with 2. set (hi := Z.shiftr n 32) in *.
    assert (M : (w32 n / 2 ^ 30 + 4 * (hi mod 2)) = (w32 n / 2 ^ 30 + 4 * hi) mod 8) by modlia.
    assert (M' : hi / 2 = (w32 n / 2 ^ 30 + 4 * hi) / 8) by modlia.
    rewrite M, M', E at 1.
    replace (w32 n + 2 ^ 32 * hi) with
      (w32 n mod 2 ^ 30 + 8 ^ Z.of_nat 10 * (w32 n / 2 ^ 30 + 4 * hi))
      by (change (8 ^ Z.of_nat 10) with (2 ^ 30); modlia).
    rewrite <- L at 1. cbn [app]. apply digits_in_app; [lia|done|].
    apply digits_in_cons; [lia|modlia|]. rewrite <- M'.
    apply (bit_digits_in _ 3); [lia|].
    split; [|eapply Z.lt_le_trans; [|exact F3]]; modlia.
  - apply dec_digits_in; lia.
Qed.

Lemma sprintf_digits_length n flags :
  0 <= n < 2 ^ 64 -> (length (sprintf_digits n flags) <= 23)%nat.
Proof.
  intros N. destruct (high_low n N) as [_ HI]. pose proof (w32_range n) as LO.
  assert (forall k, (k = 3 \/ k = 4)%Z -> forall (n : Z) m, 0 <= n < 2 ^ (k * Z.of_nat m) ->
    (length (bit_digits digits_fuel k flags n) <= m)%nat) as L
    by (intros; apply bit_digits_length; lia).
  pose proof (L 4 ltac:(lia) (w32 n) 8%nat ltac:(cbn; lia)).
  pose proof (L 4 ltac:(lia) (Z.shiftr n 32) 8%nat ltac:(cbn; lia)).
  pose proof (L 3 ltac:(lia) (w32 n) 11%nat ltac:(cbn; lia)).
  pose proof (L 3 ltac:(lia) (Z.shiftr (Z.shiftr n 32) 1) 11%nat
    ltac:(rewrite (Z.shiftr_div_pow2 _ 1) by lia; cbn; modlia)).
  pose proof (dec_digits_length digits_fuel flags n 20 ltac:(cbn; lia)).
  pose proof (dec_digits_length digits_fuel flags (w32 n) 20 ltac:(cbn; lia)).
  pose proof (bit_digits_for_in 8 4 flags (w32 n) ltac:(lia) ltac:(lia)) as D4.
  pose proof (bit_digits_for_in 10 3 flags (w32 n) ltac:(lia) ltac:(lia)) as D3.
  unfold sprintf_digits.
  destruct (bit_digits_for 8 4 _ _), (bit_digits_for 10 3 _ _).
  destruct D4 as [L4 _], D3 as [L3 _].
  repeat match goal with |- context [if ?b then _ else _] => destruct b end;
    rewrite ?length_app; cbn -[digits_fuel bit_digits dec_digits]; lia.
Qed.

(** ** Numbers that are read back *)

Lemma has_ldiff flags b f : Z.land b f = 0 -> has (Z.ldiff flags b) f = has flags f.
Proof.
  intros E. unfold has. do 2 f_equal. apply Z.bits_inj. intros i.
  apply (f_equal (fun x => Z.testbit x i)) in E.
  rewrite Z.land_spec, Z.bits_0 in E. rewrite !Z.land_spec, Z.ldiff_spec.
  destruct (Z.testbit b i), (Z.testbit f i); cbn in *; try done; btauto.
Qed.

Lemma digits_in_zeros base n ds k :
  0 < base -> digits_in base n (rev ds) ->
  digits_in base n (rev (replicate k "0"%ch ++ ds)).
Proof.
  intros B D. rewrite rev_app_distr.
  replace n with (n + base ^ zlen (rev ds) * 0) by lia. apply digits_in_app; [done..|].
  induction k as [|k [IF IV]]; [by split|]. split.
  - apply Forall_forall. intros c I%list_elem_of_In%in_rev%list_elem_of_In.
    apply elem_of_replicate in I as [-> _]. unfold is_digit. cbn. lia.
  - cbn [replicate rev]. rewrite lsd_val_app, IV by done. cbn. lia.
Qed.

(** An unsigned number in digits of the base of the flags, with leading zeros
    only. *)
Lemma lib_formatSprintfNum_digits cs n flags w :
  0 <= n < 2 ^ 64 -> (has flags FLAG_64BIT = false -> n < 2 ^ 32) ->
  has flags FLAG_ALTERNATE = false -> has flags FLAG_NULLMARK = false ->
  has flags FLAG_SIGNED = false -> has flags FLAG_ZERO = true \/ s32 w = 0 ->
  exists ds, lib_formatSprintfNum snoc cs n flags w = cs ++ ds /\
    digits_in (flags_base flags) n (rev ds) /\ ds <> [] /\ zlen ds <= 23 + Z.max 0 (s32 w).
Proof.
  intros N W A U S P. unfold lib_formatSprintfNum, sprintf_sign. rewrite U, S. cbn [andb].
  set (flags' := if _ : bool then Z.ldiff flags FLAG_64BIT else flags).
  assert (F : forall f, Z.land FLAG_64BIT f = 0 -> has flags' f = has flags f)
    by (intros; unfold flags'; destruct (_ && _); [by apply has_ldiff|done]).
  assert (D : digits_in (flags_base flags) n (sprintf_digits n flags')).
  { replace (flags_base flags) with (flags_base flags') by (unfold flags_base; by rewrite !F).
    apply sprintf_digits_in; [done| |by rewrite F].
    unfold flags'. destruct (has flags FLAG_64BIT) eqn:B; cbn [andb]; [|by rewrite B; auto].
    destruct (Z.eqb_spec (Z.shiftr n 32) 0) as [Z|]; [|by rewrite B].
    intros _. rewrite Z.shiftr_div_pow2 in Z by lia. modlia. }
  assert (ND : rev (sprintf_digits n flags') <> []).
  { destruct (Z.eqb_spec n 0) as [-> |]; [done|]. intros R.
    apply (f_equal (@rev Z)) in R. rewrite rev_involutive in R. rewrite R in D.
    destruct D as [_ D]. cbn in D. lia. }
  pose proof (sprintf_digits_length n flags' N) as L.
  rewrite (F FLAG_ZERO) by done.
  set (tmp := sprintf_digits n flags') in *. set (pad := s32 w - zlen tmp - _).
  assert (PE : pad = s32 w - zlen tmp) by (unfold pad; cbn; lia). clearbody pad.
  rewrite Z.eqb_refl. cbn [negb].
  assert (BP : 0 < flags_base flags)
    by (unfold flags_base; repeat destruct (has _ _); lia).
  destruct ((0 <? pad) && negb (has flags FLAG_ZERO)) eqn:E.
  { exfalso. apply andb_true_iff in E as [E1 E2]. apply Z.ltb_lt in E1.
    destruct P as [P|P]; [by rewrite P in E2|]. lia. }
  destruct ((0 <? pad) && has flags FLAG_ZERO) eqn:E'; rewrite !feed_all_snoc, <- ?app_assoc.
  - apply andb_true_iff in E' as [E' _]. apply Z.ltb_lt in E'.
    eexists. split_and!; [done| | |].
    + apply digits_in_zeros; [done|]. by rewrite rev_involutive.
    + intros [_ ?]%app_nil. done.
    + rewrite length_app, length_replicate, length_rev. lia.
  - eexists. split_and!; [done|by rewrite rev_involutive|done|]. rewrite length_rev. lia.
Qed.

Section scan.
  Context `{Target}.

Lemma feed_all_sprintf cs buff n :
  feed_all lib_sprintfFeed (mk_sprintf_ctx buff (wa n)) cs =
    mk_sprintf_ctx (buff ++ cs) (wa (n + zlen cs)).
Proof.
  revert buff n. induction cs as [|c cs IH]; intros buff n.
  - cbn. by rewrite app_nil_r, Z.add_0_r.
  - change (feed_all lib_sprintfFeed (mk_sprintf_ctx (buff ++ [c]) (wa (wa n + 1))) cs =
      mk_sprintf_ctx (buff ++ c :: cs) (wa (n + zlen (c :: cs)))).
    replace (wa (wa n + 1)) with (wa (n + 1)) by (unfold wa; by rewrite Zplus_mod_idemp_l).
    rewrite IH, <- app_assoc. cbn [app length]. do 2 f_equal. lia.
Qed.

Lemma lib_sprintf_chars format args cs :
  lib_formatParse snoc [] format args = Some cs -> zlen cs < 2 ^ 31 ->
  lib_sprintf format args = Some (cs ++ [0], zlen cs).
Proof.
  intros E L. unfold lib_sprintf. rewrite lib_formatParse_fold, E. cbn [mbind option_bind].
  pose proof addr_bits_ge32. pose proof (feed_all_sprintf cs [] 0) as F.
  rewrite (wa_small 0), (wa_small (0 + _)) in F by lia. rewrite F.
  unfold lib_sprintfFeed. cbn [sp_buff sp_n app]. do 2 f_equal.
  rewrite (wa_small (_ + 1)), wa_small by lia. rewrite s32_small by lia. lia.
Qed.

Lemma strtoul_digits base n ds rest :
  0 <= base < 2 ^ 32 -> digits_in base n (rev ds) -> is_digit base (deref rest) = false ->
  strtoul_loop base 0 (ds ++ rest) = (wa n, rest).
Proof.
  intros B [F V] N. pose proof (strtoul_loop_digits base 0 ds rest B) as L.
  rewrite (wa_small 0) in L by (pose proof addr_bits_ge32; lia). rewrite L; [|by apply Forall_rev in F; rewrite rev_involutive in F|done].
  rewrite <- V, <- digits_val_rev, rev_involutive. done.
Qed.

(** The formats whose output [lib_strtoul] reads back: the argument, the base
    given to [lib_strtoul] and the range of the number. *)
Definition scan_formats (n : Z) : list (cstr * vararg * Z * Z) :=
  [(str "%u", AInt n, 10, 2 ^ 32); (str "0x%x", AInt n, 16, 2 ^ 32);
   (str "0x%08x", AInt n, 0, 2 ^ 32); (str "0x%X", AInt n, 0, 2 ^ 32);
   (str "0%o", AInt n, 0, 2 ^ 32); (str "%llu", ALong n, 10, 2 ^ 64);
   (str "0x%016llx", ALong n, 0, 2 ^ 64); (str "0%llo", ALong n, 0, 2 ^ 64)].

Lemma lib_sprintf_num pre format args flags w base b n rest :
  lib_formatParse snoc [] format args = Some (lib_formatSprintfNum snoc pre n flags w) ->
  0 <= n < 2 ^ 64 -> (has flags FLAG_64BIT = false -> n < 2 ^ 32) ->
  has flags FLAG_ALTERNATE = false -> has flags FLAG_NULLMARK = false ->
  has flags FLAG_SIGNED = false -> has flags FLAG_ZERO = true \/ s32 w = 0 ->
  s32 w <= 100 -> zlen pre <= 2 -> flags_base flags = b ->
  (forall ds, digits_in b n (rev ds) -> ds <> [] ->
    lib_strtoul (pre ++ ds ++ rest) base = strtoul_loop b 0 (ds ++ rest)) ->
  is_digit b (deref rest) = false ->
  exists out, lib_sprintf format args = Some (out ++ [0], zlen out) /\
    lib_strtoul (out ++ rest) base = (wa n, rest).
Proof.
  intros E N W A U S P W100 LP B X R.
  destruct (lib_formatSprintfNum_digits pre n flags w N W A U S P) as (ds & Eds & D & ND & L).
  exists (pre ++ ds). split.
  - apply lib_sprintf_chars; [by rewrite E, Eds|]. rewrite length_app. lia.
  - subst b. rewrite <- app_assoc, X by done. apply strtoul_digits; [|done..].
    unfold flags_base. repeat destruct (has _ _); lia.
Qed.

(** A leading zero and octal digits are not taken for a hexadecimal prefix. *)
Lemma octal_prefix ds rest n :
  digits_in 8 n (rev ds) -> ds <> [] ->
  lib_strtoul (str "0" ++ ds ++ rest) 0 = strtoul_loop 8 0 (ds ++ rest).
Proof.
  intros [F _] ND. apply Forall_rev in F. rewrite rev_involutive in F.
  destruct ds as [|c ds]; [done|]. apply Forall_cons in F as [Fc _].
  assert (X : (Z.lor c 0x20 =? "x"%ch) = false).
  { apply Z.eqb_neq. intros X. destruct (lor_0x20 c) as [E|E]; rewrite E in X;
      [rewrite X in Fc|replace c with "X"%ch in Fc by lia]; vm_compute in Fc; discriminate. }
  unfold lib_strtoul. cbn [str app map list_ascii_of_string at_ lookup list_lookup default].
  unfold at_. cbn -[strtoul_loop]. rewrite X. cbn -[strtoul_loop].
  change (strtoul_loop 8 0 ("0"%ch :: c :: ds ++ rest) = strtoul_loop 8 0 (c :: ds ++ rest)).
  set (p := c :: ds ++ rest). cbn [strtoul_loop]. pose proof addr_bits_ge32.
  rewrite is_digit_spec, strtoul_digit_val by (done || lia).
  replace (wa (wa (0 * 8) + digit_val "0"%ch)) with 0; [done|].
  change (0 = wa (wa 0 + 0)). assert (E0 : wa 0 = 0) by (apply wa_small; lia).
  by rewrite Z.add_0_r, !E0.
Qed.

(** A format printed as [pre] and a number. *)
Ltac scan_case pre conv flags w b :=
  lazymatch goal with
  | N : 0 <= ?n < _ |- exists _, lib_sprintf ?f ?a = _ /\ lib_strtoul (_ ++ ?rest) ?base = _ =>
      apply (lib_sprintf_num pre f a flags w base b n rest);
      [ transitivity (Some (lib_formatSprintfNum snoc pre (conv n) flags w));
          [reflexivity|unfold conv; by rewrite Z.mod_small by lia]
      | lia | first [discriminate|lia] | reflexivity.. | auto | by vm_compute | by vm_compute
      | reflexivity | intros; reflexivity || by apply octal_prefix with n | auto ]
  end.


(** A signed number is its sign and the unsigned number of its magnitude. *)
Lemma lib_formatSprintfNum_signed cs n :
  - 2 ^ 31 <= n < 2 ^ 31 ->
  lib_formatSprintfNum snoc cs (w64 (s32 n)) FLAG_SIGNED 0 =
    lib_formatSprintfNum snoc (if n <? 0 then snoc cs "-"%ch else cs) (Z.abs n) 0 0.
Proof.
  intros N.
  assert (E : sprintf_sign (w64 (s32 n)) FLAG_SIGNED =
    (if n <? 0 then "-"%ch else 0, Z.abs n)).
  { unfold sprintf_sign, s32. change (has FLAG_SIGNED FLAG_SIGNED) with true.
    change (has FLAG_SIGNED FLAG_64BIT) with false.
    change (has FLAG_SIGNED FLAG_SPACE) with false.
    change (has FLAG_SIGNED FLAG_PLUS) with false. cbn beta iota.
    unfold w64, w32; fold_pows. destruct (Z.ltb_spec n 0); cases_ifs; f_equal; modlia. }
  unfold lib_formatSprintfNum. rewrite E.
  change (sprintf_sign (Z.abs n) 0) with (0, Z.abs n).
  destruct (Z.ltb_spec n 0); cbn beta iota zeta; [|done].
  change (sprintf_digits (Z.abs n)
    (if has FLAG_SIGNED FLAG_64BIT && (Z.shiftr (Z.abs n) 32 =? 0)
     then Z.ldiff FLAG_SIGNED FLAG_64BIT else FLAG_SIGNED)) with
    (sprintf_digits (Z.abs n)
    (if has 0 FLAG_64BIT && (Z.shiftr (Z.abs n) 32 =? 0) then Z.ldiff 0 FLAG_64BIT else 0)).
  set (tmp := sprintf_digits _ _). clearbody tmp.
  assert (Z : forall b, (0 <? s32 0 - zlen tmp - b2z b) = false)
    by (intros []; apply Z.ltb_ge; change (s32 0) with 0; cbn [b2z]; lia).
  rewrite !Z. cbn beta iota zeta delta [andb]. by rewrite !Z.
Qed.

(** Every [int] printed by ["%d"] is read back by [lib_strtol], on either width
    of [long], the smallest one included. *)
Lemma sprintf_strtol_roundtrip n rest :
  - 2 ^ 31 <= n < 2 ^ 31 -> lib_isalnum (deref rest) = false ->
  exists out, lib_sprintf (str "%d") [AInt n] = Some (out ++ [0], zlen out) /\
    lib_strtol (out ++ rest) 10 = (n, rest).
Proof.
  intros N R.
  assert (P : lib_formatParse snoc [] (str "%d") [AInt n] =
    Some (lib_formatSprintfNum snoc (if n <? 0 then str "-" else []) (Z.abs n) 0 0)).
  { change (str "-") with (snoc [] "-"%ch). by rewrite <- lib_formatSprintfNum_signed. }
  destruct (lib_formatSprintfNum_digits (if n <? 0 then str "-" else []) (Z.abs n) 0 0)
    as (ds & E & D & ND & L); try done; [lia..|by right|].
  rewrite E in P. eexists. split.
  - apply lib_sprintf_chars; [done|]. rewrite length_app.
    change (s32 0) with 0 in L. destruct (n <? 0); cbn; lia.
  - pose proof addr_bits_ge32. assert (D' : is_digit 10 (deref rest) = false)
      by (unfold is_digit; by rewrite R).
    pose proof (strtoul_digits 10 (Z.abs n) ds rest ltac:(lia) D D') as S.
    change (strtoul_loop 10 0 (ds ++ rest)) with (lib_strtoul (ds ++ rest) 10) in S.
    unfold lib_strtol. destruct (Z.ltb_spec n 0).
    + change (deref ((str "-" ++ ds) ++ rest) =? "-"%ch) with true. cbn [app str].
      change (tail ((str "-" ++ ds) ++ rest)) with (ds ++ rest). rewrite S.
      f_equal. unfold sa. rewrite (wa_small (Z.abs n)) by lia. target_cases; fold_pows;
      cbn [Z.sub]; cases_ifs; modlia.
    + destruct D as [DF _]. apply Forall_rev in DF. rewrite rev_involutive in DF.
      destruct ds as [|c ds]; [done|]. apply Forall_cons in DF as [Dc _].
      change (([] ++ c :: ds) ++ rest) with ((c :: ds) ++ rest).
      assert (M : (deref ((c :: ds) ++ rest) =? "-"%ch) = false)
        by (apply Z.eqb_neq; intros M; change (c = "-"%ch) in M; subst c; discriminate Dc).
      rewrite M, S. f_equal. unfold sa. rewrite (wa_small (Z.abs n)) by lia.
      target_cases; fold_pows; cases_ifs; modlia.
Qed.

(** The behaviour of [lib_formatParse] does not depend on its callback: every
    callback is called, in order, with the same characters, and a run is undefined
    (an argument missing or of another size) for every callback or for none. *)
Lemma lib_formatParse_feeds {C} (feed : C -> Z -> C) ctx format args :
  lib_formatParse feed ctx format args =
    (cs ← lib_formatParse snoc [] format args; Some (fold_left feed cs ctx)).
Proof. apply lib_formatParse_fold. Qed.

End scan.

(** C21. The digits of a number, the prefix of the alternate form included, never
    overflow [tmp_buf] (32 bytes), whatever the flags and the number. *)
Theorem tmp_buf_fits n flags flags' :
  0 <= n < 2 ^ 64 -> zlen (sprintf_digits (sprintf_sign n flags).2 flags') <= 32.
Proof.
  intros N. pose proof (sprintf_digits_length (sprintf_sign n flags).2 flags').
  enough (0 <= (sprintf_sign n flags).2 < 2 ^ 64) by lia.
  pose proof (w32_range (- s32 (w32 n))).
  pose proof (Z.mod_pos_bound (- s64 n) (2 ^ 64) ltac:(lia)). fold (w64 (- s64 n)) in *.
  unfold sprintf_sign. repeat (case_match; simplify_eq); cbn; lia.
Qed.


Example sprintf_strtol_int_min :
  exists out, lib_sprintf (H := target32) (str "%d") [AInt (-2147483648)]
      = Some (out ++ [0], zlen out) /\
    lib_strtol (H := target32) (out ++ [10]) 10 = (-2147483648, [10]).
Proof. apply (@sprintf_strtol_roundtrip target32); [by vm_compute|done]. Qed.

Lemma tmp_buf_fits_witness :
  zlen (sprintf_digits (sprintf_sign (2 ^ 64 - 1) 0).2 (Z.lor FLAG_OCT FLAG_ALTERNATE)) <= 32.
Proof. apply (tmp_buf_fits (2 ^ 64 - 1) 0). by vm_compute. Defined.
