(* ===== verification/Mem.v ===== *)
(** * Bytes in memory

    A buffer is the list of its bytes.  An access outside the buffer is undefined
    in C and answers [None].  Words are little-endian, as on every target of the
    loader but leon, whose parts are not among those modelled over these words. *)

From S2P Require Import Prelude.

Definition mbytes (m : list Z) (off n : Z) : option (list Z) :=
  if (0 <=? off) && (0 <=? n) && (off + n <=? zlen m) then Some (zslice off n m) else None.

Definition mstore (m : list Z) (off : Z) (bs : list Z) : option (list Z) :=
  if (0 <=? off) && (off + zlen bs <=? zlen m) then Some (splice off bs m) else None.

(** The value of little-endian bytes, and the [n] bytes of a value. *)
Fixpoint le_val (bs : list Z) : Z :=
  match bs with
  | [] => 0
  | b :: bs => b + 256 * le_val bs
  end.

Fixpoint le_bytes (n : nat) (x : Z) : list Z :=
  match n with
  | O => []
  | S n => x mod 256 :: le_bytes n (x / 256)
  end.

Definition load8 (m : list Z) (off : Z) : option Z := bs ← mbytes m off 1; Some (le_val bs).
Definition load32 (m : list Z) (off : Z) : option Z := bs ← mbytes m off 4; Some (le_val bs).

(** The C string at the start of the bytes; [None] when it is not terminated. *)
Fixpoint cstring (m : list Z) : option cstr :=
  match m with
  | [] => None
  | c :: m => if c =? 0 then Some [] else s ← cstring m; Some (c :: s)
  end.

Definition is_byte (b : Z) : Prop := 0 <= b < 256.

(** ** Lemmas *)

Lemma mbytes_Some m off n bs :
  mbytes m off n = Some bs <-> 0 <= off /\ 0 <= n /\ off + n <= zlen m /\ bs = zslice off n m.
Proof.
  unfold mbytes. destruct (_ && _) eqn:E; split; naive_solver lia.
Qed.

Lemma mbytes_ok m off n :
  0 <= off -> 0 <= n -> off + n <= zlen m -> mbytes m off n = Some (zslice off n m).
Proof. intros. by apply mbytes_Some. Qed.

Lemma mstore_Some m off bs m' :
  mstore m off bs = Some m' <-> 0 <= off /\ off + zlen bs <= zlen m /\ m' = splice off bs m.
Proof.
  unfold mstore. destruct (_ && _) eqn:E; split; naive_solver lia.
Qed.

Lemma mstore_ok m off bs :
  0 <= off -> off + zlen bs <= zlen m -> mstore m off bs = Some (splice off bs m).
Proof. intros. by apply mstore_Some. Qed.

Lemma length_le_bytes n x : length (le_bytes n x) = n.
Proof. revert x. induction n; intros; cbn; auto. Qed.

Lemma le_val_bytes n x : le_val (le_bytes n x) = x mod 256 ^ Z.of_nat n.
Proof.
  revert x. induction n as [|n IH]; intros x; [cbn; by rewrite Z.mod_1_r|].
  cbn [le_bytes le_val]. rewrite IH. replace (Z.of_nat (S n)) with (1 + Z.of_nat n) by lia.
  rewrite Z.pow_add_r, Z.pow_1_r by lia.
  assert (0 < 256 ^ Z.of_nat n) by (apply Z.pow_pos_nonneg; lia).
  rewrite Z.rem_mul_r by lia. lia.
Qed.

Lemma le_bytes_val bs : Forall is_byte bs -> le_bytes (length bs) (le_val bs) = bs.
Proof.
  induction 1 as [|b bs B _ IH]; [done|]. cbn [length le_bytes le_val]. unfold is_byte in B.
  rewrite Z.mul_comm, Z_mod_plus_full, Z.mod_small, Z.div_add, Z.div_small, Z.add_0_l, IH by lia. done.
Qed.

Lemma le_bytes_byte n x : Forall is_byte (le_bytes n x).
Proof.
  revert x. induction n; intros; cbn; constructor; auto. unfold is_byte. apply Z.mod_pos_bound. lia.
Qed.

Lemma le_val_range bs : Forall is_byte bs -> 0 <= le_val bs < 256 ^ zlen bs.
Proof.
  induction 1 as [|b bs B _ IH]; [cbn; lia|]. cbn [le_val length]. unfold is_byte in B.
  replace (Z.of_nat (S (length bs))) with (1 + zlen bs) by lia.
  rewrite Z.pow_add_r, Z.pow_1_r by lia. lia.
Qed.

Lemma Forall_zslice {A} (P : A -> Prop) off n l : Forall P l -> Forall P (zslice off n l).
Proof. intros. unfold zslice. by apply Forall_take, Forall_drop. Qed.

Lemma Forall_splice {A} (P : A -> Prop) off xs l :
  Forall P l -> Forall P xs -> Forall P (splice off xs l).
Proof.
  intros. unfold splice. rewrite !Forall_app. split_and!;
    auto using Forall_take, Forall_drop.
Qed.

(** The bytes read as a string are the string and its NUL. *)
Lemma cstring_Some m s : cstring m = Some s -> exists rest, m = s ++ 0 :: rest /\ Forall (fun c => c <> 0) s.
Proof.
  revert s. induction m as [|c m IH]; intros s E; [done|]. cbn in E.
  destruct (Z.eqb_spec c 0) as [-> |]; [injection E as <-; by exists m|].
  destruct (cstring m) as [s'|]; [|done]. injection E as <-.
  destruct (IH s' eq_refl) as (rest & -> & F). exists rest. split; [done|by constructor].
Qed.

Lemma cstring_app s rest : Forall (fun c => c <> 0) s -> cstring (s ++ 0 :: rest) = Some s.
Proof.
  induction 1 as [|c s C _ IH]; [done|]. cbn. destruct (Z.eqb_spec c 0); [done|]. by rewrite IH.
Qed.

Lemma load32_ok m off :
  0 <= off -> off + 4 <= zlen m -> load32 m off = Some (le_val (zslice off 4 m)).
Proof. intros. unfold load32. by rewrite mbytes_ok by lia. Qed.

Lemma load8_ok m off :
  0 <= off -> off + 1 <= zlen m -> load8 m off = Some (le_val (zslice off 1 m)).
Proof. intros. unfold load8. by rewrite mbytes_ok by lia. Qed.

Lemma load32_range m off : Forall is_byte m -> 0 <= le_val (zslice off 4 m) < 2 ^ 32.
Proof.
  intros B. pose proof (le_val_range _ (Forall_zslice is_byte off 4 m B)) as R.
  assert (zlen (zslice off 4 m) <= 4) by (unfold zslice; rewrite length_take; lia).
  pose proof (Z.pow_le_mono_r 256 (zlen (zslice off 4 m)) 4). lia.
Qed.

(** ** Words byte by byte *)

Lemma land_ff x : Z.land x 0xff = x mod 256.
Proof. change 0xff with (Z.ones 8). by rewrite Z.land_ones by lia. Qed.

(** Bits above [k] joined to a [k]-bit value. *)
(** A flag of a register. *)
Lemma land_flag x i : 0 <= i -> negb (Z.land x (Z.shiftl 1 i) =? 0) = Z.testbit x i.
Proof.
  intros I. destruct (Z.testbit x i) eqn:E.
  - destruct (Z.eqb_spec (Z.land x (Z.shiftl 1 i)) 0) as [F|]; [|done]. exfalso.
    apply (f_equal (fun z => Z.testbit z i)) in F. rewrite Z.land_spec, E, Z.shiftl_spec, Z.sub_diag, Z.bits_0 in F by done. done.
  - replace (Z.land x (Z.shiftl 1 i)) with 0; [done|]. symmetry. apply Z.bits_inj'. intros j J.
    rewrite Z.land_spec, Z.bits_0, Z.shiftl_1_l. rewrite Z.pow2_bits_eqb by done.
    destruct (Z.eqb_spec i j) as [<- |]; [by rewrite E|by rewrite andb_false_r].
Qed.

Lemma lor_shiftl_add a b k : 0 <= k -> 0 <= a < 2 ^ k -> Z.lor a (Z.shiftl b k) = a + b * 2 ^ k.
Proof.
  intros K A. rewrite <- Z.shiftl_mul_pow2 by done.
  assert (L : Z.land a (Z.shiftl b k) = 0).
  { apply Z.bits_inj'. intros i I. rewrite Z.land_spec, Z.bits_0, Z.shiftl_spec by done.
    destruct (Z.lt_ge_cases i k); [rewrite (Z.testbit_neg_r b) by lia; btauto|].
    destruct (Z.eqb_spec a 0) as [-> |]; [by rewrite Z.bits_0|].
    rewrite (Z.bits_above_log2 a); [done|lia|]. apply Z.log2_lt_pow2; [lia|].
    eapply Z.lt_le_trans; [apply A|]. apply Z.pow_le_mono_r; lia. }
  by rewrite <- Z.lxor_lor, Z.add_nocarry_lxor.
Qed.

(** A field below a multiple of a power of two. *)
Lemma lor_add a b k q : 0 <= k -> 0 <= a < 2 ^ k -> b = q * 2 ^ k -> Z.lor a b = a + b.
Proof. intros K A ->. by rewrite <- (Z.shiftl_mul_pow2 q k), lor_shiftl_add, Z.shiftl_mul_pow2 by done. Qed.

Lemma land_ffff x : Z.land x 0xffff = x mod 65536.
Proof. change 0xffff with (Z.ones 16). by rewrite Z.land_ones by lia. Qed.

Lemma ldiff_ffff x : Z.ldiff x 0xffff = x / 65536 * 65536.
Proof.
  change 0xffff with (Z.ones 16). rewrite Z.ldiff_ones_r, Z.shiftl_mul_pow2, Z.shiftr_div_pow2 by lia.
  done.
Qed.

(** ** Slices of lists, slot by slot *)

Lemma lookup_zslice {A} off n (l : list A) (i : nat) :
  0 <= off -> zslice off n l !! i = if Z.of_nat i <? n then l !! (Z.to_nat off + i)%nat else None.
Proof.
  intros. unfold zslice. destruct (Z.ltb_spec (Z.of_nat i) n).
  - rewrite lookup_take_lt by lia. apply lookup_drop.
  - apply lookup_take_ge. lia.
Qed.

Lemma lookup_splice {A} off (xs l : list A) (i : nat) :
  0 <= off -> off + zlen xs <= zlen l ->
  splice off xs l !! i =
    if Z.of_nat i <? off then l !! i
    else if Z.of_nat i <? off + zlen xs then xs !! (i - Z.to_nat off)%nat else l !! i.
Proof.
  intros A0 L. unfold splice. assert (E : length (ztake off l) = Z.to_nat off) by (rewrite length_take; lia).
  destruct (Z.ltb_spec (Z.of_nat i) off).
  - rewrite lookup_app_l by lia. apply lookup_take_lt. lia.
  - rewrite lookup_app_r, E by lia. destruct (Z.ltb_spec (Z.of_nat i) (off + zlen xs)).
    + rewrite lookup_app_l by lia. done.
    + rewrite lookup_app_r, lookup_drop by lia. f_equal. lia.
Qed.

(** Equality of two lists built with [splice] and [zslice], slot by slot. *)
Ltac slots :=
  let i := fresh "i" in
  apply list_eq; intros i;
  repeat first [rewrite lookup_splice by (rewrite ?length_zslice, ?length_splice by lia; lia) | rewrite lookup_zslice by lia];
  rewrite ?length_zslice, ?length_splice by lia; cases_ifs; try reflexivity; try lia; try (f_equal; lia).

Lemma zslice_splice_inner {A} off o n (xs l : list A) :
  0 <= off -> off + zlen xs <= zlen l -> off <= o -> 0 <= n -> o + n <= off + zlen xs ->
  zslice o n (splice off xs l) = zslice (o - off) n xs.
Proof. intros. slots. Qed.

Lemma splice_splice_same {A} off (xs ys l : list A) :
  0 <= off -> off + zlen xs <= zlen l -> zlen ys = zlen xs -> splice off ys (splice off xs l) = splice off ys l.
Proof. intros. slots. Qed.

Lemma splice_zslice {A} off n (l : list A) :
  0 <= off -> 0 <= n -> off + n <= zlen l -> splice off (zslice off n l) l = l.
Proof. intros. slots. Qed.

Lemma splice_nil {A} off (l : list A) : splice off [] l = l.
Proof. unfold splice. cbn [length app]. by rewrite Nat.add_0_r, take_drop. Qed.

(** Overwriting part of a slice is overwriting the slice with the part changed. *)
Lemma splice_into {A} s o (xs buf l : list A) :
  0 <= s -> s + zlen buf <= zlen l -> s <= o -> o + zlen xs <= s + zlen buf ->
  splice o xs (splice s buf l) = splice s (splice (o - s) xs buf) l.
Proof. intros. slots. Qed.

Lemma splice_app {A} o (xs ys l : list A) :
  0 <= o -> o + zlen xs + zlen ys <= zlen l ->
  splice (o + zlen xs) ys (splice o xs l) = splice o (xs ++ ys) l.
Proof.
  intros. assert (zlen (xs ++ ys) = zlen xs + zlen ys) by (rewrite length_app; lia).
  slots; [rewrite lookup_app_l by lia; done|]. rewrite lookup_app_r by lia. f_equal. lia.
Qed.

Lemma zslice_zslice {A} a n o m (l : list A) :
  0 <= o -> 0 <= a -> 0 <= n -> a + n <= m -> zslice a n (zslice o m l) = zslice (o + a) n l.
Proof.
  intros. apply list_eq. intros i. rewrite !lookup_zslice by lia. cases_ifs; try done; try lia. f_equal. lia.
Qed.

(** A slice that reaches past the end of another ends with it. *)
Lemma zslice_zslice_min {A} a n o m (l : list A) :
  0 <= o -> 0 <= a -> zslice a n (zslice o m l) = zslice (o + a) (Z.min n (m - a)) l.
Proof.
  intros. apply list_eq. intros i. rewrite !lookup_zslice by lia. cases_ifs; try done; try lia. f_equal. lia.
Qed.

Lemma ztake_zdrop {A} n o (l : list A) : ztake n (zdrop o l) = zslice o n l.
Proof. reflexivity. Qed.

Lemma splice_full {A} (xs l : list A) : zlen xs = zlen l -> splice 0 xs l = xs.
Proof. intros. unfold splice. change (Z.to_nat 0) with 0%nat. rewrite take_0, drop_ge by lia. by rewrite app_nil_r. Qed.

Lemma ztake_splice {A} off n (xs l : list A) :
  0 <= off -> off + zlen xs <= n -> n <= zlen l -> ztake n (splice off xs l) = splice off xs (ztake n l).
Proof.
  intros. rewrite <- !(zslice_0 n). apply list_eq. intros i.
  rewrite lookup_zslice, lookup_splice, lookup_splice, !lookup_zslice by (rewrite ?length_zslice by lia; lia). cases_ifs; done || lia.
Qed.

(** Storing into a slice that was read is storing in place. *)
Lemma splice_read_back {A} o n (xs l : list A) :
  0 <= o -> o + n <= zlen l -> zlen xs <= n -> splice o (splice 0 xs (zslice o n l)) l = splice o xs l.
Proof.
  intros. assert (E : zlen (zslice o n l) = n) by (apply length_zslice; lia).
  assert (E2 : zlen (splice 0 xs (zslice o n l)) = n) by (rewrite length_splice; lia).
  apply list_eq. intros i. rewrite !lookup_splice, lookup_zslice by lia. rewrite E2. cases_ifs; try done; try lia; f_equal; lia.
Qed.
