(* ===== verification/Crc.v ===== *)
(** * CRC-32 (src/lib/crc32.c)

    Both variants of [lib_crc32]: the bitwise loop and the one driven by
    [crc32_tab] ([USE_CRC32_TAB]). *)

From S2P Require Import Prelude.

Definition CRC32POLY_LE := 0xedb88320.

Definition crc32_tab : list Z :=
  [0x00000000; 0x77073096; 0xee0e612c; 0x990951ba; 0x076dc419; 0x706af48f;
   0xe963a535; 0x9e6495a3; 0x0edb8832; 0x79dcb8a4; 0xe0d5e91e; 0x97d2d988;
   0x09b64c2b; 0x7eb17cbd; 0xe7b82d07; 0x90bf1d91; 0x1db71064; 0x6ab020f2;
   0xf3b97148; 0x84be41de; 0x1adad47d; 0x6ddde4eb; 0xf4d4b551; 0x83d385c7;
   0x136c9856; 0x646ba8c0; 0xfd62f97a; 0x8a65c9ec; 0x14015c4f; 0x63066cd9;
   0xfa0f3d63; 0x8d080df5; 0x3b6e20c8; 0x4c69105e; 0xd56041e4; 0xa2677172;
   0x3c03e4d1; 0x4b04d447; 0xd20d85fd; 0xa50ab56b; 0x35b5a8fa; 0x42b2986c;
   0xdbbbc9d6; 0xacbcf940; 0x32d86ce3; 0x45df5c75; 0xdcd60dcf; 0xabd13d59;
   0x26d930ac; 0x51de003a; 0xc8d75180; 0xbfd06116; 0x21b4f4b5; 0x56b3c423;
   0xcfba9599; 0xb8bda50f; 0x2802b89e; 0x5f058808; 0xc60cd9b2; 0xb10be924;
   0x2f6f7c87; 0x58684c11; 0xc1611dab; 0xb6662d3d; 0x76dc4190; 0x01db7106;
   0x98d220bc; 0xefd5102a; 0x71b18589; 0x06b6b51f; 0x9fbfe4a5; 0xe8b8d433;
   0x7807c9a2; 0x0f00f934; 0x9609a88e; 0xe10e9818; 0x7f6a0dbb; 0x086d3d2d;
   0x91646c97; 0xe6635c01; 0x6b6b51f4; 0x1c6c6162; 0x856530d8; 0xf262004e;
   0x6c0695ed; 0x1b01a57b; 0x8208f4c1; 0xf50fc457; 0x65b0d9c6; 0x12b7e950;
   0x8bbeb8ea; 0xfcb9887c; 0x62dd1ddf; 0x15da2d49; 0x8cd37cf3; 0xfbd44c65;
   0x4db26158; 0x3ab551ce; 0xa3bc0074; 0xd4bb30e2; 0x4adfa541; 0x3dd895d7;
   0xa4d1c46d; 0xd3d6f4fb; 0x4369e96a; 0x346ed9fc; 0xad678846; 0xda60b8d0;
   0x44042d73; 0x33031de5; 0xaa0a4c5f; 0xdd0d7cc9; 0x5005713c; 0x270241aa;
   0xbe0b1010; 0xc90c2086; 0x5768b525; 0x206f85b3; 0xb966d409; 0xce61e49f;
   0x5edef90e; 0x29d9c998; 0xb0d09822; 0xc7d7a8b4; 0x59b33d17; 0x2eb40d81;
   0xb7bd5c3b; 0xc0ba6cad; 0xedb88320; 0x9abfb3b6; 0x03b6e20c; 0x74b1d29a;
   0xead54739; 0x9dd277af; 0x04db2615; 0x73dc1683; 0xe3630b12; 0x94643b84;
   0x0d6d6a3e; 0x7a6a5aa8; 0xe40ecf0b; 0x9309ff9d; 0x0a00ae27; 0x7d079eb1;
   0xf00f9344; 0x8708a3d2; 0x1e01f268; 0x6906c2fe; 0xf762575d; 0x806567cb;
   0x196c3671; 0x6e6b06e7; 0xfed41b76; 0x89d32be0; 0x10da7a5a; 0x67dd4acc;
   0xf9b9df6f; 0x8ebeeff9; 0x17b7be43; 0x60b08ed5; 0xd6d6a3e8; 0xa1d1937e;
   0x38d8c2c4; 0x4fdff252; 0xd1bb67f1; 0xa6bc5767; 0x3fb506dd; 0x48b2364b;
   0xd80d2bda; 0xaf0a1b4c; 0x36034af6; 0x41047a60; 0xdf60efc3; 0xa867df55;
   0x316e8eef; 0x4669be79; 0xcb61b38c; 0xbc66831a; 0x256fd2a0; 0x5268e236;
   0xcc0c7795; 0xbb0b4703; 0x220216b9; 0x5505262f; 0xc5ba3bbe; 0xb2bd0b28;
   0x2bb45a92; 0x5cb36a04; 0xc2d7ffa7; 0xb5d0cf31; 0x2cd99e8b; 0x5bdeae1d;
   0x9b64c2b0; 0xec63f226; 0x756aa39c; 0x026d930a; 0x9c0906a9; 0xeb0e363f;
   0x72076785; 0x05005713; 0x95bf4a82; 0xe2b87a14; 0x7bb12bae; 0x0cb61b38;
   0x92d28e9b; 0xe5d5be0d; 0x7cdcefb7; 0x0bdbdf21; 0x86d3d2d4; 0xf1d4e242;
   0x68ddb3f8; 0x1fda836e; 0x81be16cd; 0xf6b9265b; 0x6fb077e1; 0x18b74777;
   0x88085ae6; 0xff0f6a70; 0x66063bca; 0x11010b5c; 0x8f659eff; 0xf862ae69;
   0x616bffd3; 0x166ccf45; 0xa00ae278; 0xd70dd2ee; 0x4e048354; 0x3903b3c2;
   0xa7672661; 0xd06016f7; 0x4969474d; 0x3e6e77db; 0xaed16a4a; 0xd9d65adc;
   0x40df0b66; 0x37d83bf0; 0xa9bcae53; 0xdebb9ec5; 0x47b2cf7f; 0x30b5ffe9;
   0xbdbdf21c; 0xcabac28a; 0x53b39330; 0x24b4a3a6; 0xbad03605; 0xcdd70693;
   0x54de5729; 0x23d967bf; 0xb3667a2e; 0xc4614ab8; 0x5d681b02; 0x2a6f2b94;
   0xb40bbe37; 0xc30c8ea1; 0x5a05df1b; 0x2d02ef8d].

(** [crc = (crc >> 1) ^ ((crc & 1) ? CRC32POLY_LE : 0)] *)
Definition crc32_bit (crc : Z) : Z :=
  Z.lxor (Z.shiftr crc 1) (if Z.land crc 1 =? 0 then 0 else CRC32POLY_LE).

(** The body of the outer loop without [USE_CRC32_TAB]. *)
Definition crc32_byte (crc b : Z) : Z := Nat.iter 8 crc32_bit (Z.lxor crc b).

Definition lib_crc32 (buf : list Z) (base : Z) : Z := fold_left crc32_byte buf base.

(** The loop with [USE_CRC32_TAB]. *)
Definition crc32_tab_byte (crc b : Z) : Z :=
  Z.lxor (Z.shiftr crc 8) (nth (Z.to_nat (Z.land (Z.lxor crc b) 0xff)) crc32_tab 0).

Definition lib_crc32_tab (buf : list Z) (base : Z) : Z := fold_left crc32_tab_byte buf base.

Lemma crc32_byte_eq crc b : crc32_byte crc b = Nat.iter 8 crc32_bit (Z.lxor crc b).
Proof. reflexivity. Qed.

Lemma crc32_tab_byte_eq crc b : crc32_tab_byte crc b =
  Z.lxor (Z.shiftr crc 8) (nth (Z.to_nat (Z.land (Z.lxor crc b) 0xff)) crc32_tab 0).
Proof. reflexivity. Qed.

Lemma fold_left_cons {A B} (f : A -> B -> A) l x a :
  fold_left f (x :: l) a = fold_left f l (f a x).
Proof. reflexivity. Qed.

Lemma lib_crc32_cons b buf base : lib_crc32 (b :: buf) base = lib_crc32 buf (crc32_byte base b).
Proof. unfold lib_crc32. apply fold_left_cons. Qed.

Lemma lib_crc32_tab_cons b buf base :
  lib_crc32_tab (b :: buf) base = lib_crc32_tab buf (crc32_tab_byte base b).
Proof. unfold lib_crc32_tab. apply fold_left_cons. Qed.

Lemma lib_crc32_app buf buf' base : lib_crc32 (buf ++ buf') base = lib_crc32 buf' (lib_crc32 buf base).
Proof. apply fold_left_app. Qed.

(** ** The bit step is linear *)

Lemma land_1 x : Z.land x 1 = b2z (Z.testbit x 0).
Proof.
  change 1 with (Z.ones 1) at 1. rewrite Z.land_ones by lia. change (2 ^ 1) with 2.
  by rewrite <- Z.bit0_mod.
Qed.

Lemma crc32_bit_spec x :
  crc32_bit x = Z.lxor (Z.shiftr x 1) (if Z.testbit x 0 then CRC32POLY_LE else 0).
Proof. unfold crc32_bit. rewrite land_1. by destruct (Z.testbit x 0). Qed.

Lemma crc32_bit_lxor x y : crc32_bit (Z.lxor x y) = Z.lxor (crc32_bit x) (crc32_bit y).
Proof.
  rewrite !crc32_bit_spec, Z.shiftr_lxor, Z.lxor_spec. apply Z.bits_inj. intros i.
  destruct (Z.testbit x 0), (Z.testbit y 0); cbn [xorb];
    rewrite !Z.lxor_spec, ?Z.bits_0; btauto.
Qed.

Lemma crc32_bits_lxor n x y :
  Nat.iter n crc32_bit (Z.lxor x y) = Z.lxor (Nat.iter n crc32_bit x) (Nat.iter n crc32_bit y).
Proof. induction n; [done|]. by rewrite !Nat.iter_succ, IHn, crc32_bit_lxor. Qed.

(** Bits that are not shifted out yet do not meet the polynomial. *)
Lemma crc32_bits_shift n x : Nat.iter n crc32_bit (Z.shiftl x (Z.of_nat n)) = x.
Proof.
  revert x. induction n as [|n IH]; intros x; [by rewrite Z.shiftl_0_r|].
  rewrite <- (IH x) at 2. rewrite Nat.iter_succ_r. f_equal. rewrite crc32_bit_spec.
  rewrite Z.shiftl_spec_low by lia. rewrite Z.lxor_0_r, Z.shiftr_shiftl_l by lia.
  f_equal. lia.
Qed.

Lemma bits_split x : x = Z.lxor (Z.shiftl (Z.shiftr x 8) 8) (Z.land x 0xff).
Proof.
  apply Z.bits_inj'. intros i Hi. change 0xff with (Z.ones 8).
  rewrite Z.lxor_spec, Z.land_spec, Z.testbit_ones_nonneg by lia.
  rewrite Z.shiftl_spec by lia. destruct (Z.ltb_spec i 8).
  - rewrite (Z.testbit_neg_r _ (i - 8)) by lia. by destruct (Z.testbit x i).
  - rewrite Z.shiftr_spec, Z.sub_add by lia. by destruct (Z.testbit x i).
Qed.

Lemma land_ff_range x : 0 <= Z.land x 0xff < 256.
Proof. change 0xff with (Z.ones 8). rewrite Z.land_ones by lia. apply Z.mod_pos_bound. lia. Qed.

(** The table holds the bitwise CRC of every byte. *)
Lemma crc32_tab_ok b :
  0 <= b < 256 -> nth (Z.to_nat b) crc32_tab 0 = Nat.iter 8 crc32_bit b.
Proof.
  intros B. assert (A : forallb (fun n => nth n crc32_tab 0 =? Nat.iter 8 crc32_bit (Z.of_nat n))
    (seq 0 256) = true) by (by vm_compute).
  rewrite forallb_forall in A. specialize (A (Z.to_nat b)).
  rewrite Z2Nat.id in A by lia. apply Z.eqb_eq, A. apply in_seq. lia.
Qed.

Lemma crc32_tab_byte_ok crc b : 0 <= b < 256 -> crc32_tab_byte crc b = crc32_byte crc b.
Proof.
  intros B. rewrite crc32_tab_byte_eq, crc32_byte_eq, crc32_tab_ok by apply land_ff_range.
  rewrite (bits_split (Z.lxor crc b)) at 2. rewrite crc32_bits_lxor. f_equal.
  change (Z.shiftl ?y 8) with (Z.shiftl y (Z.of_nat 8)).
  rewrite crc32_bits_shift, Z.shiftr_lxor.
  replace (Z.shiftr b 8) with 0; [by rewrite Z.lxor_0_r|].
  rewrite Z.shiftr_div_pow2 by lia. symmetry. apply Z.div_small. lia.
Qed.

(** C19. The table-driven CRC computes the same checksum as the bitwise one, for
    every start value and every buffer of bytes. *)
Theorem lib_crc32_tab_equiv buf base :
  Forall (fun b => 0 <= b < 256) buf -> lib_crc32_tab buf base = lib_crc32 buf base.
Proof.
  intros B. revert base. induction B as [|b buf Hb B IH]; intros base; [done|].
  by rewrite lib_crc32_tab_cons, lib_crc32_cons, IH, crc32_tab_byte_ok.
Qed.

Lemma lib_crc32_tab_equiv_witness :
  lib_crc32_tab (str "123456789") 0xffffffff = lib_crc32 (str "123456789") 0xffffffff.
Proof. apply lib_crc32_tab_equiv. by repeat constructor. Defined.

(** The checksum of the standard check string. *)
Lemma lib_crc32_check : Z.lxor (lib_crc32 (str "123456789") 0xffffffff) 0xffffffff = 0xcbf43926.
Proof. by vm_compute. Qed.

(** ** Every wrong byte is detected *)

Definition is_u32 (x : Z) : Prop := 0 <= x < 2 ^ 32.

Lemma lxor_u32 x y : is_u32 x -> is_u32 y -> is_u32 (Z.lxor x y).
Proof.
  unfold is_u32. intros X Y. assert (N : 0 <= Z.lxor x y) by (apply Z.lxor_nonneg; lia).
  split; [done|]. destruct (Z.eqb_spec (Z.lxor x y) 0) as [-> |]; [done|].
  apply Z.log2_lt_pow2; [lia|]. eapply Z.le_lt_trans; [apply Z.log2_lxor; lia|].
  apply Z.max_lub_lt;
    [destruct (Z.eqb_spec x 0) as [-> |]|destruct (Z.eqb_spec y 0) as [-> |]]; try done;
    apply Z.log2_lt_pow2; lia.
Qed.

Lemma shiftr_u32 x : is_u32 x -> is_u32 (Z.shiftr x 1).
Proof. unfold is_u32. intros X. rewrite Z.shiftr_div_pow2 by lia. modlia. Qed.

Lemma crc32_bit_range x : is_u32 x -> is_u32 (crc32_bit x).
Proof.
  intros X. rewrite crc32_bit_spec. apply lxor_u32; [by apply shiftr_u32|].
  unfold is_u32, CRC32POLY_LE. destruct (Z.testbit x 0); lia.
Qed.

Lemma crc32_bit_inj x y : is_u32 x -> is_u32 y -> crc32_bit x = crc32_bit y -> x = y.
Proof.
  unfold is_u32. rewrite !crc32_bit_spec. intros X Y E.
  assert (H31 : forall z, 0 <= z < 2 ^ 32 -> Z.testbit (Z.shiftr z 1) 31 = false).
  { intros z Hz. rewrite Z.shiftr_spec by lia.
    destruct (Z.eqb_spec z 0) as [-> |]; [apply Z.bits_0|].
    apply Z.bits_above_log2; [lia|]. apply Z.log2_lt_pow2; lia. }
  assert (B : Z.testbit x 0 = Z.testbit y 0).
  { apply (f_equal (fun z => Z.testbit z 31)) in E. rewrite !Z.lxor_spec, !H31 in E by done.
    destruct (Z.testbit x 0), (Z.testbit y 0); try done; discriminate E. }
  rewrite B in E.
  apply (f_equal (fun z => Z.lxor z (if Z.testbit y 0 then CRC32POLY_LE else 0))) in E.
  rewrite !Z.lxor_assoc, !Z.lxor_nilpotent, !Z.lxor_0_r, !Z.shiftr_div_pow2 in E by lia.
  rewrite (Z.div_mod x 2), (Z.div_mod y 2) by lia.
  rewrite <- !Z.bit0_mod, B. change (2 ^ 1) with 2 in E. by rewrite E.
Qed.

Lemma byte_u32 b : 0 <= b < 256 -> is_u32 b.
Proof. unfold is_u32. lia. Qed.

#[local] Hint Resolve lxor_u32 byte_u32 crc32_bit_range : plo.

Lemma crc32_bits_range n x : is_u32 x -> is_u32 (Nat.iter n crc32_bit x).
Proof. intros X. induction n; rewrite ?Nat.iter_succ; auto with plo. Qed.

#[local] Hint Resolve crc32_bits_range : plo.

Lemma crc32_bits_inj n x y :
  is_u32 x -> is_u32 y -> Nat.iter n crc32_bit x = Nat.iter n crc32_bit y -> x = y.
Proof.
  intros X Y. induction n as [|n IH]; [done|]. rewrite !Nat.iter_succ. intros E. apply IH.
  apply crc32_bit_inj in E; auto with plo.
Qed.

Lemma lxor_cancel_l a x y : Z.lxor a x = Z.lxor a y -> x = y.
Proof.
  intros E. apply (f_equal (Z.lxor a)) in E.
  by rewrite <- !Z.lxor_assoc, Z.lxor_nilpotent, !Z.lxor_0_l in E.
Qed.

Lemma crc32_byte_range crc b : is_u32 crc -> 0 <= b < 256 -> is_u32 (crc32_byte crc b).
Proof. rewrite crc32_byte_eq. auto with plo. Qed.

#[local] Hint Resolve crc32_byte_range : plo.

Lemma crc32_byte_inj crc crc' b b' :
  is_u32 crc -> is_u32 crc' -> 0 <= b < 256 -> 0 <= b' < 256 ->
  crc32_byte crc b = crc32_byte crc' b' -> Z.lxor crc b = Z.lxor crc' b'.
Proof. rewrite !crc32_byte_eq. intros. apply crc32_bits_inj with 8%nat; auto with plo. Qed.

Lemma lib_crc32_range buf base :
  Forall (fun b => 0 <= b < 256) buf -> is_u32 base -> is_u32 (lib_crc32 buf base).
Proof.
  intros B. revert base. induction B as [|b buf Hb B IH]; intros; [done|].
  rewrite lib_crc32_cons. auto with plo.
Qed.

Lemma lib_crc32_inj buf base base' :
  Forall (fun b => 0 <= b < 256) buf -> is_u32 base -> is_u32 base' ->
  lib_crc32 buf base = lib_crc32 buf base' -> base = base'.
Proof.
  intros B. revert base base'.
  induction B as [|b buf Hb B IH]; intros base base' X Y E; [done|]. rewrite !lib_crc32_cons in E.
  apply IH in E; [|auto with plo..]. apply crc32_byte_inj in E; [|auto with plo..].
  rewrite !(Z.lxor_comm _ b) in E. by apply lxor_cancel_l in E.
Qed.

(** The checksum detects every change of one byte, wherever it is in the
    buffer and whatever surrounds it. *)
Lemma lib_crc32_detects_byte pre post b b' base :
  Forall (fun x => 0 <= x < 256) (pre ++ b :: b' :: post) -> is_u32 base -> b <> b' ->
  lib_crc32 (pre ++ b :: post) base <> lib_crc32 (pre ++ b' :: post) base.
Proof.
  intros F B N E. apply N. apply Forall_app in F as [Fp F]. apply Forall_cons in F as [Hb F].
  apply Forall_cons in F as [Hb' F]. pose proof (lib_crc32_range pre base Fp B) as R.
  rewrite !lib_crc32_app, !lib_crc32_cons in E.
  apply lib_crc32_inj in E; [|auto with plo..].
  apply crc32_byte_inj in E; [|auto with plo..]. by apply lxor_cancel_l in E.
Qed.

Lemma lib_crc32_detects_byte_witness :
  lib_crc32 (str "nan" ++ "d"%ch :: str "0") 0xffffffff <>
    lib_crc32 (str "nan" ++ "D"%ch :: str "0") 0xffffffff.
Proof. apply lib_crc32_detects_byte; [by repeat constructor|by vm_compute|done]. Defined.
