(* ===== verification/PTable.v ===== *)
(** * Partition tables (src/lib/ptable.c, src/lib/ptable.h)

    The table is kept in the bytes of the block it is stored in: a header of 28
    bytes ([count] at 0, [version] at 4, [crc] at 24), a partition of 32 bytes
    each ([name] at 0, [offset] at 8, [size] at 12, [type] at 16, [crc] at 28) and
    the magic bytes behind the last partition. *)

From S2P Require Import Prelude Mem CString Crc.

Definition PTABLE_VERSION := 2.
Definition ptable_magic : list Z := [0xde; 0xad; 0xfc; 0xbe].
Definition sizeof_ptable := 28.
Definition sizeof_part := 32.
Definition offsetof_crc := 24.
Definition offsetof_part_crc := 28.

Definition ptable_size (count : Z) : Z := w32 (sizeof_ptable + count * sizeof_part + zlen ptable_magic).

Definition ptable_typeName (type : Z) : option cstr :=
  if type =? 0x51 then Some (str "raw")
  else if type =? 0x72 then Some (str "jffs2")
  else if type =? 0x75 then Some (str "meterfs")
  else if type =? 0x78 then Some (str "futurefs")
  else None.

Definition ptable_crc32 (data : list Z) : Z := w32 (Z.lnot (lib_crc32 data 0xffffffff)).

(** [ptable->parts + i] *)
Definition part_off (i : nat) : Z := sizeof_ptable + Z.of_nat i * sizeof_part.

(** The index where the name check stops. *)
Fixpoint alnum_prefix (name : list Z) : nat :=
  match name with
  | [] => O
  | c :: name => if lib_isalnum c then S (alnum_prefix name) else O
  end.

(** Comparison against the partitions before [part], [k] of them left; [false]
    for a conflict. *)
Fixpoint part_compare (m : list Z) (offset size : Z) (name : cstr) (p : nat) (k : nat)
    : option bool :=
  match k with
  | O => Some true
  | S k =>
      poff ← load32 m (part_off p + 8);
      psize ← load32 m (part_off p + 12);
      if (offset <=? w32 (poff + psize - 1)) && (poff <=? w32 (offset + size - 1)) then Some false
      else
        pname ← cstring (zdrop (part_off p) m);
        if hal_strcmp name pname =? 0 then Some false
        else part_compare m offset size name (S p) k
  end.

(** [None] also stands for a remainder by a zero [blksz]. *)
Definition ptable_partVerify (m : list Z) (i : nat) (memsz blksz : Z) (crcCheck : bool) : option Z :=
  let o := part_off i in
  size ← load32 m (o + 12);
  offset ← load32 m (o + 8);
  crc_ok ←
    (if crcCheck then
       crc ← load32 m (o + 28);
       data ← mbytes m o offsetof_part_crc;
       Some (crc =? ptable_crc32 data)
     else Some true);
  if negb crc_ok then Some (-1)
  else if size =? 0 then Some (-1)
  else if blksz =? 0 then None
  else if negb (size mod blksz =? 0) then Some (-1)
  else if negb (offset mod blksz =? 0) then Some (-1)
  else if memsz <? w32 (offset + size) then Some (-1)
  else if w32 (offset + size) <? offset then Some (-1)
  else
    name ← mbytes m o 8;
    let n := alnum_prefix name in
    if (n =? 0)%nat || (8 <=? n)%nat || negb (at_ name n =? 0) then Some (-1)
    else
      pname ← cstring (zdrop o m);
      ok ← part_compare m offset size pname 0 i;
      Some (if (ok : bool) then 0 else -1).

(** The partitions from [i] on, [k] of them. *)
Fixpoint verify_parts (m : list Z) (memsz blksz : Z) (crcCheck : bool) (i k : nat) : option Z :=
  match k with
  | O => Some 0
  | S k =>
      r ← ptable_partVerify m i memsz blksz crcCheck;
      if r <? 0 then Some (-1) else verify_parts m memsz blksz crcCheck (S i) k
  end.

Definition legacy_version (version : Z) : bool :=
  (version =? 0) || (version =? 1) || (version =? 0xff).

Definition ptable_verify (m : list Z) (memsz blksz : Z) : option Z :=
  count ← load32 m 0;
  version ← load8 m 4;
  let crcCheck := negb (legacy_version version) in
  crc_ok ←
    (if crcCheck then
       crc ← load32 m 24;
       data ← mbytes m 0 offsetof_crc;
       Some (crc =? ptable_crc32 data)
     else Some true);
  if negb crc_ok then Some (-1)
  else
    let size := ptable_size count in
    if blksz <? size then Some (-1)
    else
      magic ← mbytes m (size - zlen ptable_magic) (zlen ptable_magic);
      if negb (bool_decide (magic = ptable_magic)) then Some (-1)
      else verify_parts m memsz blksz crcCheck 0 (Z.to_nat count).

(** [le32toh] and [htole32] are the identity of the (little-endian) hosts: the
    stores of the conversions do not change the table. *)
Definition ptable_deserialize (ptable : option (list Z)) (memsz blksz : Z) : option Z :=
  match ptable with
  | None => Some (-1)
  | Some m => ptable_verify m memsz blksz
  end.

Fixpoint store_crcs (m : list Z) (i k : nat) : option (list Z) :=
  match k with
  | O => Some m
  | S k =>
      data ← mbytes m (part_off i) offsetof_part_crc;
      m ← mstore m (part_off i + 28) (le_bytes 4 (ptable_crc32 data));
      store_crcs m (S i) k
  end.

(** [ptable->version = PTABLE_VERSION] and the header checksum. *)
Definition store_header (m : list Z) : option (list Z) :=
  m ← mstore m 4 [PTABLE_VERSION];
  data ← mbytes m 0 offsetof_crc;
  mstore m 24 (le_bytes 4 (ptable_crc32 data)).

(** The result and the table. *)
Definition ptable_serialize (ptable : option (list Z)) (memsz blksz : Z)
    : option (Z * option (list Z)) :=
  match ptable with
  | None => Some (-1, None)
  | Some m =>
      m ← store_header m;
      count ← load32 m 0;
      m ← store_crcs m 0 (Z.to_nat count);
      m ← mstore m (ptable_size count - zlen ptable_magic) ptable_magic;
      r ← ptable_verify m memsz blksz;
      Some (if r <? 0 then -1 else 0, Some m)
  end.

(** ** What a verified table guarantees *)

Record part := { p_name : cstr; p_offset : Z; p_size : Z }.

(** The partition [i] of the table. *)
Definition part_at (m : list Z) (i : nat) : part :=
  {| p_name := default [] (cstring (zdrop (part_off i) m));
     p_offset := le_val (zslice (part_off i + 8) 4 m);
     p_size := le_val (zslice (part_off i + 12) 4 m) |}.

(** A partition of whole blocks within the memory, with an alphanumeric name of 1
    to 7 characters. *)
Definition part_ok (memsz blksz : Z) (p : part) : Prop :=
  0 < p_size p /\ (blksz | p_size p) /\ (blksz | p_offset p) /\
  0 <= p_offset p /\ p_offset p + p_size p <= memsz /\
  0 < zlen (p_name p) < 8 /\ Forall (fun c => lib_isalnum c = true) (p_name p).

Definition parts_apart (p q : part) : Prop :=
  (p_offset p + p_size p <= p_offset q \/ p_offset q + p_size q <= p_offset p) /\
  p_name p <> p_name q.

(** The checksum stored in the partition [i]. *)
Definition part_crc_ok (m : list Z) (i : nat) : Prop :=
  le_val (zslice (part_off i + 28) 4 m) = ptable_crc32 (zslice (part_off i) 28 m).

(** The first [n] partitions of the table. *)
Definition parts_ok (m : list Z) (memsz blksz : Z) (n : nat) : Prop :=
  (forall i, (i < n)%nat -> part_ok memsz blksz (part_at m i)) /\
  (forall i j, (i < j < n)%nat -> parts_apart (part_at m i) (part_at m j)).

Lemma isalnum_nonzero c : lib_isalnum c = true -> 0 < c < 256.
Proof. unfold lib_isalnum, lib_islower, lib_isupper, lib_isdigit. intros. cases_ifs; done || lia. Qed.

Lemma alnum_prefix_spec name :
  (alnum_prefix name <= length name)%nat /\
  Forall (fun c => lib_isalnum c = true) (take (alnum_prefix name) name) /\
  (forall c, name !! alnum_prefix name = Some c -> lib_isalnum c = false).
Proof.
  induction name as [|c name (L & F & N)]; [by repeat split|]. cbn.
  destruct (lib_isalnum c) eqn:A; cbn; [|split_and!; [lia|constructor|by intros ? [= <-]]].
  split_and!; [lia|by constructor|done].
Qed.

(** The name check accepts exactly the names of the specification. *)
Lemma name_check m o :
  0 <= o -> o + 8 <= zlen m ->
  let name := zslice o 8 m in
  let n := alnum_prefix name in
  ((n =? 0)%nat || (8 <=? n)%nat || negb (at_ name n =? 0) = false <->
    exists s, cstring (zdrop o m) = Some s /\ 0 < zlen s < 8 /\
      Forall (fun c => lib_isalnum c = true) s).
Proof.
  intros O L name n. assert (L8 : length name = 8%nat).
  { pose proof (length_zslice o 8 m O ltac:(lia) ltac:(lia)) as E. fold name in E. lia. }
  assert (Sp : zdrop o m = name ++ zdrop (o + 8) m).
  { unfold name, zslice. rewrite Z2Nat.inj_add, <- drop_drop by lia. by rewrite take_drop. }
  destruct (alnum_prefix_spec name) as (Ln & F & N). fold n in Ln, F, N. split.
  - rewrite !orb_false_iff, negb_false_iff. intros [[N0 N8] A].
    apply Nat.eqb_neq in N0. apply Nat.leb_gt in N8. apply Z.eqb_eq in A.
    exists (take n name). split_and!; [|rewrite length_take; lia..|done].
    destruct (name !! n) as [c|] eqn:E; [|apply lookup_ge_None in E; lia].
    unfold at_ in A. rewrite E in A. cbn in A. subst c.
    pose proof (take_drop_middle name n 0 E) as Nm. rewrite Sp. clearbody n. rewrite <- Nm at 1.
    rewrite <- app_assoc. cbn [app]. apply cstring_app. eapply Forall_impl; [exact F|]. intros c C%isalnum_nonzero. lia.
  - intros (s & E & Ls & Fs). apply cstring_Some in E as (rest & E & _). rewrite E in Sp.
    assert (En : take (length s + 1) name = s ++ [0]).
    { rewrite <- (take_app_le name (zdrop (o + 8) m)), <- Sp by lia.
      replace (s ++ 0 :: rest) with ((s ++ [0]) ++ rest) by (by rewrite <- app_assoc).
      rewrite take_app_length'; [done|]. rewrite length_app. cbn. lia. }
    assert (E0 : name !! length s = Some 0).
    { rewrite <- (lookup_take_lt name (length s + 1)), En by lia.
      by rewrite lookup_app_r, Nat.sub_diag by lia. }
    assert (n = length s) as ->.
    { destruct (Nat.lt_trichotomy n (length s)) as [Lt|[|Lt]]; [exfalso|done|exfalso].
      - destruct (s !! n) as [c|] eqn:Es; [|apply lookup_ge_None in Es; lia].
        pose proof Fs as Fc. rewrite Forall_lookup in Fc. specialize (Fc n c Es). cbn in Fc.
        rewrite (N c) in Fc; [done|]. rewrite <- (lookup_take_lt name (length s + 1)), En by lia.
        by rewrite lookup_app_l by lia.
      - rewrite Forall_lookup in F. specialize (F (length s) 0).
        rewrite lookup_take_lt in F by lia. specialize (F E0). discriminate F. }
    unfold at_. rewrite E0, (proj2 (Nat.eqb_neq (length s) 0)), (proj2 (Nat.leb_gt 8 (length s)))
      by lia. done.
Qed.

Section verify.
  Context (m : list Z) (memsz blksz : Z) (B : Forall is_byte m).
  Context (Hmem : 0 <= memsz < 2 ^ 32) (Hblk : 0 < blksz).

Lemma part_at_range i : 0 <= p_offset (part_at m i) < 2 ^ 32 /\ 0 <= p_size (part_at m i) < 2 ^ 32.
Proof. split; by apply load32_range. Qed.

Lemma part_off_nonneg i : 28 <= part_off i.
Proof. unfold part_off, sizeof_ptable, sizeof_part. lia. Qed.

Lemma load_offset i :
  part_off i + 32 <= zlen m -> load32 m (part_off i + 8) = Some (p_offset (part_at m i)).
Proof. intros. pose proof (part_off_nonneg i). by apply load32_ok; lia. Qed.

Lemma load_size i :
  part_off i + 32 <= zlen m -> load32 m (part_off i + 12) = Some (p_size (part_at m i)).
Proof. intros. pose proof (part_off_nonneg i). by apply load32_ok; lia. Qed.

Lemma part_off_le i j : (i <= j)%nat -> part_off i <= part_off j.
Proof. unfold part_off, sizeof_part. lia. Qed.

Lemma part_ok_name i :
  part_ok memsz blksz (part_at m i) ->
  cstring (zdrop (part_off i) m) = Some (p_name (part_at m i)).
Proof.
  intros (_ & _ & _ & _ & _ & L & _). cbn in *. destruct (cstring _); [done|]. cbn in L. lia.
Qed.

Lemma alnum_cstr_ok s : Forall (fun c => lib_isalnum c = true) s -> cstr_ok s.
Proof. intros F. eapply Forall_impl; [exact F|]. apply isalnum_nonzero. Qed.

(** The comparison with earlier partitions finds every conflict. *)
Lemma part_compare_spec q p k :
  part_ok memsz blksz q -> part_off (p + k) <= zlen m ->
  (forall j, (p <= j < p + k)%nat -> part_ok memsz blksz (part_at m j)) ->
  exists ok : bool, part_compare m (p_offset q) (p_size q) (p_name q) p k = Some ok /\
    (ok = true <-> forall j, (p <= j < p + k)%nat -> parts_apart (part_at m j) q).
Proof.
  intros Q. revert p. induction k as [|k IH]; intros p L P; cbn [part_compare].
  { exists true. split; [done|]. split; [intros _ ?; lia|done]. }
  assert (Lp : part_off p + 32 <= zlen m)
    by (unfold part_off, sizeof_part in *; lia).
  rewrite load_offset, load_size by lia. cbn [mbind option_bind].
  pose proof (P p ltac:(lia)) as Pp. rewrite (part_ok_name p Pp).
  destruct Pp as (S1 & _ & _ & O1 & M1 & _ & A1), Q as (S2 & ? & ? & O2 & M2 & ? & A2).
  rewrite !w32_small by lia. cbn [mbind option_bind].
  assert (D : forall b : bool, (b = true -> ~ parts_apart (part_at m p) q) -> b = true ->
    exists ok : bool, Some false = Some ok /\
      (ok = true <-> forall j, (p <= j < p + S k)%nat -> parts_apart (part_at m j) q)).
  { intros b N Hb. exists false. split; [done|]. split; [done|]. intros C.
    destruct (N Hb). apply C. lia. }
  destruct (_ && _) eqn:E1; [apply (D true); [|done]; intros _ [C _]; lia|].
  destruct (hal_strcmp _ _ =? 0) eqn:E2.
  { apply (D true); [|done]. intros _ [_ C]. apply C. symmetry.
    apply Z.eqb_eq, hal_strcmp_eq in E2; auto using alnum_cstr_ok. }
  destruct (IH (S p)) as (ok & E & Hok); [by rewrite Nat.add_succ_r in L|intros; apply P; lia|].
  exists ok. split; [done|]. rewrite Hok. split; intros C j J; [|apply C; lia].
  destruct (decide (j = p)) as [-> |]; [|apply C; lia]. split; [lia|].
  intros C'. apply Z.eqb_neq in E2. apply E2. rewrite C'. apply hal_strcmp_refl.
Qed.

Definition crc_checked (crcCheck : bool) (i : nat) : Prop := crcCheck = true -> part_crc_ok m i.

(** A partition is accepted exactly when it keeps the table well formed. *)
Lemma ptable_partVerify_spec i cc :
  part_off (S i) <= zlen m -> (forall j, (j < i)%nat -> part_ok memsz blksz (part_at m j)) ->
  exists ok : bool, ptable_partVerify m i memsz blksz cc = Some (if ok then 0 else -1) /\
    (ok = true <-> crc_checked cc i /\ part_ok memsz blksz (part_at m i) /\
      forall j, (j < i)%nat -> parts_apart (part_at m j) (part_at m i)).
Proof.
  intros L P. pose proof (part_off_nonneg i). pose proof (part_at_range i) as [R1 R2].
  assert (Lp : part_off i + 32 <= zlen m) by (unfold part_off, sizeof_part in *; lia).
  assert (No : forall Q : Prop, ~ Q -> exists ok : bool,
    Some (-1) = Some (if ok then 0 else -1) /\ (ok = true <-> Q))
    by (intros Q N; exists false; by split).
  unfold ptable_partVerify, offsetof_part_crc. rewrite load_offset, load_size by lia.
  rewrite load32_ok, (mbytes_ok m (part_off i) 28) by lia. cbn [mbind option_bind].
  set (cok := if cc then _ else _).
  assert (exists b : bool, cok = Some b /\ (b = true <-> crc_checked cc i)) as (b & -> & Hb).
  { unfold cok, crc_checked, part_crc_ok. destruct cc; (eexists; split; [reflexivity|]).
    - rewrite Z.eqb_eq. split; auto.
    - split; [discriminate|done]. }
  cbn [mbind option_bind]. destruct b; cbn [negb]; [|apply No; intros [C _]; by apply Hb in C].
  set (p := part_at m i) in *.
  destruct (Z.eqb_spec (p_size p) 0); [apply No; intros (_ & (C & _) & _); lia|].
  destruct (Z.eqb_spec blksz 0); [lia|].
  destruct (Z.eqb_spec (p_size p mod blksz) 0) as [D1|D1]; cbn [negb];
    [|apply No; intros (_ & (_ & C & _) & _); by apply Z.mod_divide in C].
  destruct (Z.eqb_spec (p_offset p mod blksz) 0) as [D2|D2]; cbn [negb];
    [|apply No; intros (_ & (_ & _ & C & _) & _); by apply Z.mod_divide in C].
  apply Z.mod_divide in D1, D2; [|done..].
  destruct (Z.ltb_spec memsz (w32 (p_offset p + p_size p))) as [M|M];
    [apply No; intros (_ & (_ & _ & _ & ? & ? & _) & _); rewrite w32_small in M; lia|].
  destruct (Z.ltb_spec (w32 (p_offset p + p_size p)) (p_offset p)) as [W|W];
    [apply No; intros (_ & (_ & _ & _ & ? & ? & _) & _); rewrite w32_small in W; lia|].
  assert (p_offset p + p_size p < 2 ^ 32).
  { destruct (Z.lt_ge_cases (p_offset p + p_size p) (2 ^ 32)); [done|exfalso].
    revert W. unfold w32. modlia. }
  rewrite w32_small in M by lia. rewrite (mbytes_ok m (part_off i) 8) by lia.
  cbn [mbind option_bind]. pose proof (name_check m (part_off i) ltac:(lia) ltac:(lia)) as N.
  cbv zeta in N. destruct (_ || _ || _).
  { apply No. intros (_ & Pi & _). enough (true = false) by done. apply N.
    exists (p_name p). split; [by apply part_ok_name|]. apply Pi. }
  apply proj1 in N. destruct (N eq_refl) as (s & Es & Ls & Fs). rewrite Es. cbn [mbind option_bind].
  assert (Np : p_name p = s) by (by cbn; rewrite Es).
  assert (Pi : part_ok memsz blksz p) by (rewrite <- Np in *; split_and!; done || lia).
  rewrite <- Np. destruct (part_compare_spec p 0 i Pi) as (ok & -> & Hok).
  { rewrite Nat.add_0_l. lia. }
  { intros. apply P. lia. }
  exists ok. split; [done|]. rewrite Hok. split.
  - intros C. split_and!; [by apply Hb|done|]. intros. apply C. lia.
  - intros (_ & _ & C) j J. apply C. lia.
Qed.

Lemma verify_parts_spec cc i k :
  part_off (i + k) <= zlen m -> parts_ok m memsz blksz i ->
  exists ok : bool, verify_parts m memsz blksz cc i k = Some (if ok then 0 else -1) /\
    (ok = true <-> (forall j, (i <= j < i + k)%nat -> crc_checked cc j) /\
      parts_ok m memsz blksz (i + k)).
Proof.
  revert i. induction k as [|k IH]; intros i L P; cbn [verify_parts].
  { exists true. split; [done|]. rewrite Nat.add_0_r. split; [|done]. split; [lia|done]. }
  destruct (ptable_partVerify_spec i cc) as (ok & E & Hok).
  { etrans; [|exact L]. apply part_off_le. lia. }
  { apply P. }
  rewrite E. cbn [mbind option_bind]. rewrite <- Nat.add_succ_comm in *. destruct ok; cbn [Z.ltb].
  - apply proj1 in Hok. destruct (Hok eq_refl) as (C & Pi & A). change (0 <? 0) with false. cbn.
    destruct (IH (S i)) as (ok & E' & Hok'); [done| |].
    { destruct P as [P1 P2]. split.
      - intros j J. destruct (decide (j = i)) as [-> |]; [done|apply P1; lia].
      - intros j1 j2 J. destruct (decide (j2 = i)) as [-> |]; [apply A; lia|apply P2; lia]. }
    exists ok. split; [done|]. rewrite Hok'. split; intros [C' P']; split; try done; intros j J;
      [|apply C'; lia]. destruct (decide (j = i)) as [-> |]; [done|apply C'; lia].
  - exists false. split; [done|]. split; [done|]. intros [C' P'].
    enough (false = true) by done. apply Hok. split_and!; [apply C'; lia|apply P'; lia|].
    intros. apply P'. lia.
Qed.

End verify.

(** ** Verification of a whole table *)

Definition header_crc_ok (m : list Z) : Prop :=
  le_val (zslice 24 4 m) = ptable_crc32 (zslice 0 24 m).

Definition table_version (m : list Z) : Z := le_val (zslice 4 1 m).

(** What an accepted table of [n] partitions satisfies. *)
Definition table_ok (m : list Z) (memsz blksz : Z) (n : nat) : Prop :=
  part_off n + 4 <= blksz /\ zslice (part_off n) 4 m = ptable_magic /\
  parts_ok m memsz blksz n /\
  (legacy_version (table_version m) = false ->
    header_crc_ok m /\ forall i, (i < n)%nat -> part_crc_ok m i).

Lemma ptable_size_small (n : nat) :
  part_off n + 4 < 2 ^ 32 -> ptable_size (Z.of_nat n) = part_off n + 4.
Proof.
  unfold ptable_size, part_off, sizeof_ptable, sizeof_part. intros.
  change (zlen ptable_magic) with 4. rewrite w32_small by lia. lia.
Qed.

Lemma ptable_verify_spec m memsz blksz (n : nat) :
  Forall is_byte m -> 0 <= memsz < 2 ^ 32 -> 0 < blksz -> load32 m 0 = Some (Z.of_nat n) ->
  part_off n + 4 < 2 ^ 32 -> part_off n + 4 <= zlen m ->
  exists ok : bool, ptable_verify m memsz blksz = Some (if ok then 0 else -1) /\
    (ok = true <-> table_ok m memsz blksz n).
Proof.
  intros B M K C W L. pose proof (part_off_nonneg n).
  assert (No : forall Q : Prop, ~ Q -> exists ok : bool,
    Some (-1) = Some (if ok then 0 else -1) /\ (ok = true <-> Q))
    by (intros Q N; exists false; by split).
  unfold ptable_verify, offsetof_crc. rewrite C, (load8_ok m 4), (load32_ok m 24), (mbytes_ok m 0 24)
    by lia. cbn [mbind option_bind]. fold (table_version m).
  set (cok := if negb _ then _ else _).
  assert (exists b : bool, cok = Some b /\
    (b = true <-> (legacy_version (table_version m) = false -> header_crc_ok m))) as (b & -> & Hb).
  { unfold cok, header_crc_ok. destruct (legacy_version _); (eexists; split; [reflexivity|]).
    - by split.
    - rewrite Z.eqb_eq. split; auto. }
  cbn [mbind option_bind]. destruct b; cbn [negb];
    [|apply No; intros (_ & _ & _ & T); enough (false = true) by done; apply Hb; apply T].
  rewrite ptable_size_small by done. change (zlen ptable_magic) with 4.
  destruct (Z.ltb_spec blksz (part_off n + 4)); [apply No; intros (T & _); lia|].
  replace (part_off n + 4 - 4) with (part_off n) by lia. rewrite (mbytes_ok m (part_off n)) by lia.
  cbn [mbind option_bind]. destruct (bool_decide_reflect (zslice (part_off n) 4 m = ptable_magic))
    as [G|G]; cbn [negb]; [|apply No; intros (_ & T & _); done].
  rewrite Nat2Z.id.
  destruct (verify_parts_spec m memsz blksz B M K (negb (legacy_version (table_version m))) 0 n)
    as (ok & E & Hok); [cbn; lia|split; intros; lia|].
  exists ok. split; [done|]. rewrite Hok. unfold table_ok, crc_checked. cbn [Nat.add].
  destruct (legacy_version (table_version m)); cbn [negb]; split.
  - intros [_ P]. by split_and!.
  - intros (_ & _ & P & _). split; [by intros|done].
  - intros [P1 P2]. split_and!; try done. intros _. split; [by apply Hb|].
    intros i I. apply P1; [lia|done].
  - intros (_ & _ & P & Q). split; [|done]. intros j J _. apply Q; [done|lia].
Qed.

(** The name of a verified partition starts with an alphanumeric character. *)
Lemma ptable_partVerify_name m i memsz blksz cc :
  ptable_partVerify m i memsz blksz cc = Some 0 -> lib_isalnum (nth (Z.to_nat (part_off i)) m 0) = true.
Proof.
  unfold ptable_partVerify. intros E.
  repeat match type of E with
  | mbind _ ?o = _ => destruct o eqn:?; cbn [mbind option_bind] in E; [|done]
  | (if ?b then _ else _) = _ => destruct b eqn:?; [done|]
  end.
  rename select (mbytes m (part_off i) 8 = Some _) into N. apply mbytes_Some in N as (O & _ & L & ->).
  rename select (_ || _ || _ = false) into A. rewrite !orb_false_iff in A. destruct A as [[A _] _].
  unfold zslice in A.
  destruct (zdrop (part_off i) m) as [|c r] eqn:D; [done|].
  rewrite nth_lookup. rewrite <- (Nat.add_0_r (Z.to_nat (part_off i))), <- lookup_drop, D. cbn.
  change (Z.to_nat 8) with 8%nat in A. cbn in A. by destruct (lib_isalnum c).
Qed.

Lemma verify_parts_all m memsz blksz cc i k j :
  verify_parts m memsz blksz cc i k = Some 0 -> (i <= j < i + k)%nat ->
  exists r, ptable_partVerify m j memsz blksz cc = Some r /\ 0 <= r.
Proof.
  revert i. induction k as [|k IH]; intros i E J; [lia|]. cbn [verify_parts] in E.
  destruct (ptable_partVerify m i memsz blksz cc) as [r|] eqn:P; [|done]. cbn in E.
  destruct (Z.ltb_spec r 0); [done|].
  destruct (decide (j = i)) as [-> |]; [by exists r|]. apply (IH (S i)); [done|lia].
Qed.

Lemma ptable_partVerify_range m i memsz blksz cc r :
  ptable_partVerify m i memsz blksz cc = Some r -> r = 0 \/ r = -1.
Proof.
  unfold ptable_partVerify. intros E.
  repeat match type of E with
  | mbind _ ?o = _ => destruct o eqn:?; cbn [mbind option_bind] in E; [|done]
  | (if ?b then _ else _) = _ => destruct b eqn:?
  end; simplify_eq; auto; match goal with b : bool |- _ \/ _ => destruct b; by auto end.
Qed.

(** A count whose table size wraps is never accepted: the magic bytes then lie on
    the name of a partition that is verified. *)
Lemma ptable_verify_no_wrap m memsz blksz (n : nat) :
  Forall is_byte m -> Z.of_nat n < 2 ^ 32 -> load32 m 0 = Some (Z.of_nat n) ->
  ptable_verify m memsz blksz = Some 0 -> part_off n + 4 < 2 ^ 32.
Proof.
  intros B N C V. destruct (Z.lt_ge_cases (part_off n + 4) (2 ^ 32)) as [|W]; [done|exfalso].
  unfold ptable_verify in V. rewrite C in V. cbn [mbind option_bind] in V.
  destruct (load8 m 4) as [v|]; cbn [mbind option_bind] in V; [|done].
  lazymatch type of V with mbind _ ?o = _ => destruct o as [b|] end;
    cbn [mbind option_bind] in V; [|done].
  destruct (negb b); [done|]. destruct (blksz <? _); [done|].
  change (zlen ptable_magic) with 4 in V.
  destruct (mbytes m (ptable_size (Z.of_nat n) - 4) 4) as [g|] eqn:G;
    cbn [mbind option_bind] in V; [|done].
  destruct (bool_decide_reflect (g = ptable_magic)) as [-> |]; cbn [negb] in V; [|done].
  apply mbytes_Some in G as (G0 & _ & GL & GE).
  set (c := Z.to_nat (Z.of_nat n mod 2 ^ 27)).
  assert (Ec : Z.of_nat c = Z.of_nat n mod 2 ^ 27) by (apply Z2Nat.id, Z.mod_pos_bound; lia).
  assert (Es : ptable_size (Z.of_nat n) - 4 = part_off c).
  { unfold ptable_size, part_off, sizeof_ptable, sizeof_part, w32 in *.
    change (zlen ptable_magic) with 4 in *. rewrite Ec.
    change (2 ^ 27) with 134217728. fold_pows. modlia. }
  assert (Lt : (c < n)%nat).
  { unfold ptable_size, part_off, sizeof_ptable, sizeof_part, w32 in *.
    change (zlen ptable_magic) with 4 in *. change (2 ^ 27) with 134217728 in Ec. fold_pows. modlia. }
  rewrite Es in *. rewrite Nat2Z.id in V.
  destruct (verify_parts_all _ _ _ _ _ _ c V) as (r & P & R); [lia|].
  destruct (ptable_partVerify_range _ _ _ _ _ _ P) as [-> | ->]; [|lia].
  apply ptable_partVerify_name in P. rewrite nth_lookup in P.
  apply (f_equal (fun l => default 0 (l !! 0%nat))) in GE. unfold zslice in GE.
  rewrite lookup_take_lt, lookup_drop, Nat.add_0_r in GE by lia. rewrite <- GE in P. discriminate P.
Qed.

Lemma ptable_verify_result m memsz blksz r : ptable_verify m memsz blksz = Some r -> r = 0 \/ r = -1.
Proof.
  unfold ptable_verify. destruct (load32 m 0) as [n|]; cbn [mbind option_bind]; [|done].
  destruct (load8 m 4); cbn [mbind option_bind]; [|done].
  match goal with |- mbind _ ?o = _ -> _ => destruct o as [b|] end; cbn [mbind option_bind]; [|done].
  destruct (negb _); [intros [= <-]; by right|]. destruct (blksz <? _); [intros [= <-]; by right|].
  destruct (mbytes m _ _); cbn [mbind option_bind]; [|done].
  destruct (negb _); [intros [= <-]; by right|]. generalize 0%nat. induction (Z.to_nat n) as [|k IH]; intros i; cbn [verify_parts].
  { intros [= <-]. by left. }
  destruct (ptable_partVerify m i memsz blksz _) as [v|]; cbn [mbind option_bind]; [|done].
  destruct (v <? 0); [intros [= <-]; by right|apply IH].
Qed.

(** An accepted table is well formed. *)
Lemma ptable_deserialize_ok m memsz blksz :
  Forall is_byte m -> 0 <= memsz < 2 ^ 32 -> 0 < blksz < 2 ^ 32 ->
  ptable_deserialize (Some m) memsz blksz = Some 0 ->
  exists n, load32 m 0 = Some (Z.of_nat n) /\ table_ok m memsz blksz n.
Proof.
  intros B M K V. cbn in V. destruct (load32 m 0) as [c|] eqn:C; [|by unfold ptable_verify in V; rewrite C in V].
  assert (R : 0 <= c < 2 ^ 32).
  { unfold load32 in C. destruct (mbytes m 0 4) as [bs|] eqn:E; [|done].
    apply mbytes_Some in E as (_ & _ & _ & ->). injection C as <-. by apply load32_range. }
  rewrite <- (Z2Nat.id c) in C by lia. set (n := Z.to_nat c) in *. exists n. split; [by f_equal; lia|].
  pose proof (ptable_verify_no_wrap m memsz blksz n B ltac:(lia) C V) as W.
  assert (L : part_off n + 4 <= zlen m).
  { revert V. unfold ptable_verify. rewrite C. cbn [mbind option_bind].
    destruct (load8 m 4) as [v|]; cbn [mbind option_bind]; [|done].
    match goal with |- mbind _ ?o = _ -> _ => destruct o as [b|] end; cbn [mbind option_bind]; [|done].
    destruct (negb b); [done|]. destruct (blksz <? _); [done|]. rewrite ptable_size_small by done.
    change (zlen ptable_magic) with 4. destruct (mbytes m _ 4) as [g|] eqn:G; [|done]. intros _.
    apply mbytes_Some in G. lia. }
  destruct (ptable_verify_spec m memsz blksz n B M ltac:(lia) C W L) as (ok & E & Hok).
  apply Hok. rewrite V in E. by destruct ok.
Qed.

(** C7. A table that [ptable_deserialize] accepts is well formed, whatever its
    bytes are: its size does not wrap and fits the block, the magic bytes close
    it, every partition is a non-empty range of whole blocks within the memory
    with an alphanumeric name of 1 to 7 characters, no two partitions overlap or
    share a name, and the checksums match unless the version has none. *)
Theorem ptable_deserialize_sound m memsz blksz :
  Forall is_byte m -> 0 <= memsz < 2 ^ 32 -> 0 < blksz < 2 ^ 32 ->
  ptable_deserialize (Some m) memsz blksz = Some 0 ->
  exists n, load32 m 0 = Some (Z.of_nat n) /\ table_ok m memsz blksz n.
Proof. apply ptable_deserialize_ok. Qed.

(** ** Serialisation *)

Lemma le_load32 x : 0 <= x < 2 ^ 32 -> le_val (le_bytes 4 x) = x.
Proof. intros. rewrite le_val_bytes. by apply Z.mod_small. Qed.

Lemma ptable_crc32_range d : 0 <= ptable_crc32 d < 2 ^ 32.
Proof. apply w32_range. Qed.

(** The loop of the checksums writes them and nothing else. *)
Lemma store_crcs_spec m i k :
  Forall is_byte m -> part_off (i + k) <= zlen m ->
  exists m', store_crcs m i k = Some m' /\ length m' = length m /\ Forall is_byte m' /\
    (forall o n, 0 <= o -> 0 <= n -> o + n <= zlen m ->
      (forall j, (i <= j < i + k)%nat -> o + n <= part_off j + 28 \/ part_off j + 32 <= o) ->
      zslice o n m' = zslice o n m) /\
    (forall j, (i <= j < i + k)%nat -> part_crc_ok m' j).
Proof.
  revert m i. induction k as [|k IH]; intros m i B L; cbn [store_crcs].
  { exists m. split_and!; [done..|]. intros; lia. }
  pose proof (part_off_nonneg i). unfold offsetof_part_crc.
  assert (Lp : part_off i + 32 <= zlen m) by (unfold part_off, sizeof_part in *; lia).
  rewrite mbytes_ok by lia. cbn [mbind option_bind]. set (crc := ptable_crc32 _).
  rewrite mstore_ok by (rewrite ?length_le_bytes; lia). cbn [mbind option_bind].
  set (m1 := splice _ _ m).
  assert (L1 : length m1 = length m) by (apply length_splice; rewrite ?length_le_bytes; lia).
  destruct (IH m1 (S i)) as (m' & E & L' & B' & F & C).
  { apply Forall_splice; [done|]. apply le_bytes_byte. }
  { rewrite L1. by rewrite Nat.add_succ_comm. }
  assert (F1 : forall o n, 0 <= o -> 0 <= n -> o + n <= zlen m ->
    o + n <= part_off i + 28 \/ part_off i + 32 <= o -> zslice o n m1 = zslice o n m).
  { intros o n ? ? ? [?|?]; unfold m1; [apply zslice_splice_before|apply zslice_splice_after];
      rewrite ?length_le_bytes; lia. }
  exists m'. split_and!; [done|lia|done| |].
  - intros o n ? ? ? D. rewrite F by (try lia; intros; apply D; lia).
    apply F1; try lia. apply D. lia.
  - intros j J. destruct (decide (j = i)) as [-> |]; [|apply C; lia]. unfold part_crc_ok.
    rewrite !F by (try lia; intros j' J'; unfold part_off, sizeof_part in *; lia).
    rewrite (F1 (part_off i) 28) by lia. unfold m1. rewrite zslice_splice_same by (rewrite ?length_le_bytes; lia).
    by rewrite le_load32 by apply ptable_crc32_range.
Qed.

(** The fields of a partition are in its first 28 bytes. *)
Lemma part_at_ext m m' memsz blksz i :
  zslice (part_off i) 28 m' = zslice (part_off i) 28 m ->
  part_off i + 28 <= zlen m -> part_off i + 28 <= zlen m' ->
  part_ok memsz blksz (part_at m i) -> part_at m' i = part_at m i.
Proof.
  intros E L L' P. pose proof (part_off_nonneg i).
  assert (Sub : forall o n, 0 <= o -> 0 <= n -> o + n <= 28 ->
    zslice (part_off i + o) n m' = zslice (part_off i + o) n m).
  { intros o n ? ? ?. assert (S : forall l : list Z,
      zslice (part_off i + o) n l = zslice o n (zslice (part_off i) 28 l)).
    { intros l. unfold zslice. rewrite skipn_firstn_comm, take_take, drop_drop. f_equal; [lia|].
      f_equal. lia. }
    by rewrite !S, E. }
  unfold part_at. rewrite !Sub by lia. f_equal.
  assert (N8 : zslice (part_off i) 8 m' = zslice (part_off i) 8 m)
    by (pose proof (Sub 0 8) as S0; rewrite Z.add_0_r in S0; apply S0; lia).
  pose proof (name_check m (part_off i) ltac:(lia) ltac:(lia)) as K.
  pose proof (name_check m' (part_off i) ltac:(lia) ltac:(lia)) as K'.
  cbv zeta in K, K'. rewrite N8 in K'.
  destruct (proj1 K') as (s' & E' & Ls' & Fs').
  { apply K. exists (p_name (part_at m i)). split; [by apply (part_ok_name m memsz blksz)|]. apply P. }
  destruct (proj1 K) as (s & Es & Ls & Fs); [by apply K'; exists s'|].
  rewrite E', Es. cbn. apply cstring_Some in E' as (r' & R' & NZ'), Es as (r & R & NZ).
  unfold zslice in N8. rewrite R, R' in N8.
  assert (T : forall (s r : list Z), zlen s < 8 -> Forall (fun c => c <> 0) s ->
    cstring (take 8 (s ++ 0 :: r)) = Some s).
  { intros t u Lt Ft. rewrite take_app_ge by lia.
    destruct (8 - length t)%nat as [|k] eqn:D; [lia|]. cbn. by apply cstring_app. }
  change (Z.to_nat 8) with 8%nat in N8. apply (f_equal cstring) in N8.
  rewrite !T in N8 by (done || lia). by injection N8.
Qed.

Lemma parts_ok_ext m m' memsz blksz n :
  (forall i, (i < n)%nat -> zslice (part_off i) 28 m' = zslice (part_off i) 28 m) ->
  part_off n <= zlen m -> part_off n <= zlen m' ->
  parts_ok m memsz blksz n -> parts_ok m' memsz blksz n.
Proof.
  intros E L L' [P A].
  assert (Eq : forall i, (i < n)%nat -> part_at m' i = part_at m i).
  { intros i I. pose proof (part_off_le (S i) n ltac:(lia)).
    apply (part_at_ext m m' memsz blksz); auto; unfold part_off, sizeof_part in *; lia. }
  split; [intros i I; rewrite Eq by done; auto|].
  intros i j J. rewrite !Eq by lia. by apply A.
Qed.

(** The header is written; its other bytes and the partitions are kept. *)
Lemma store_header_spec m :
  Forall is_byte m -> 28 <= zlen m ->
  exists m', store_header m = Some m' /\ length m' = length m /\ Forall is_byte m' /\
    (forall o k, 28 <= o -> 0 <= k -> o + k <= zlen m -> zslice o k m' = zslice o k m) /\
    zslice 0 4 m' = zslice 0 4 m /\ zslice 4 1 m' = [PTABLE_VERSION] /\ header_crc_ok m'.
Proof.
  intros B L. unfold store_header, offsetof_crc.
  rewrite mstore_ok by (cbn; lia). cbn [mbind option_bind]. set (m1 := splice 4 _ m).
  assert (L1 : length m1 = length m) by (apply length_splice; cbn; lia).
  assert (B1 : Forall is_byte m1)
    by (apply Forall_splice; [done|]; unfold PTABLE_VERSION; repeat constructor; lia).
  rewrite mbytes_ok by lia. cbn [mbind option_bind].
  rewrite mstore_ok by (rewrite ?length_le_bytes; lia). set (m2 := splice 24 _ m1).
  exists m2. unfold m2. split_and!; [done| | | | | |].
  - rewrite length_splice; rewrite ?length_le_bytes; lia.
  - apply Forall_splice; [done|apply le_bytes_byte].
  - intros. rewrite zslice_splice_after by (rewrite ?length_le_bytes; lia).
    apply zslice_splice_after; cbn; lia.
  - rewrite zslice_splice_before by (rewrite ?length_le_bytes; lia).
    apply zslice_splice_before; cbn; lia.
  - rewrite zslice_splice_before by (rewrite ?length_le_bytes; lia).
    apply zslice_splice_same; cbn; lia.
  - unfold header_crc_ok. rewrite zslice_splice_same by (rewrite ?length_le_bytes; lia).
    rewrite zslice_splice_before by (rewrite ?length_le_bytes; lia).
    by rewrite le_load32 by apply ptable_crc32_range.
Qed.

(** [ptable_serialize] succeeds exactly on the well-formed tables that fit the
    block, keeps the partitions and their number, sets the version and the
    checksums, and what it writes is accepted by [ptable_deserialize]. *)
Lemma ptable_serialize_spec m memsz blksz (n : nat) :
  Forall is_byte m -> 0 <= memsz < 2 ^ 32 -> 0 < blksz < 2 ^ 32 ->
  load32 m 0 = Some (Z.of_nat n) -> part_off n + 4 <= blksz -> part_off n + 4 <= zlen m ->
  exists m' (ok : bool),
    ptable_serialize (Some m) memsz blksz = Some (if ok then 0 else -1, Some m') /\
    (ok = true <-> parts_ok m memsz blksz n) /\
    ptable_deserialize (Some m') memsz blksz = Some (if ok then 0 else -1) /\
    load32 m' 0 = Some (Z.of_nat n) /\ table_version m' = PTABLE_VERSION /\
    header_crc_ok m' /\ (forall i, (i < n)%nat -> part_crc_ok m' i) /\
    (forall i, (i < n)%nat -> zslice (part_off i) 28 m' = zslice (part_off i) 28 m).
Proof.
  intros B M K C Lb L. pose proof (part_off_nonneg n). cbn [ptable_serialize].
  destruct (store_header_spec m B ltac:(lia)) as (m2 & -> & L2 & B2 & F2 & H20 & H24 & H2c).
  cbn [mbind option_bind].
  rewrite load32_ok in C |- * by lia. rewrite H20. injection C as C. rewrite C.
  cbn [mbind option_bind]. rewrite Nat2Z.id.
  destruct (store_crcs_spec m2 0 n B2) as (m3 & -> & L3 & B3 & F3 & C3); [cbn; lia|].
  cbn [mbind option_bind]. rewrite ptable_size_small by lia. change (zlen ptable_magic) with 4.
  replace (part_off n + 4 - 4) with (part_off n) by lia.
  rewrite mstore_ok by (change (zlen ptable_magic) with 4; lia). cbn [mbind option_bind].
  set (m' := splice (part_off n) ptable_magic m3).
  assert (L' : length m' = length m)
    by (unfold m'; rewrite length_splice; change (zlen ptable_magic) with 4; lia).
  assert (B' : Forall is_byte m')
    by (apply Forall_splice; [done|]; unfold ptable_magic; repeat constructor; lia).
  assert (F' : forall o k, 0 <= o -> 0 <= k -> o + k <= part_off n -> zslice o k m' = zslice o k m3)
    by (intros; apply zslice_splice_before; change (zlen ptable_magic) with 4; lia).
  assert (Fh : forall o k, 0 <= o -> 0 <= k -> o + k <= 28 -> zslice o k m' = zslice o k m2).
  { intros. rewrite F' by lia. apply F3; try lia. intros j. pose proof (part_off_nonneg j). lia. }
  assert (Fp : forall i, (i < n)%nat -> zslice (part_off i) 28 m' = zslice (part_off i) 28 m).
  { intros i I. pose proof (part_off_le (S i) n ltac:(lia)).
    unfold part_off, sizeof_ptable, sizeof_part in *.
    rewrite F', F3, F2 by (lia || intros; lia). done. }
  assert (V' : table_version m' = PTABLE_VERSION).
  { unfold table_version. rewrite Fh, H24 by lia. done. }
  assert (Hc : header_crc_ok m') by (unfold header_crc_ok; by rewrite !Fh by lia).
  assert (Cp : forall i, (i < n)%nat -> part_crc_ok m' i).
  { intros i I. pose proof (part_off_le (S i) n ltac:(lia)). pose proof (part_off_nonneg i).
    specialize (C3 i ltac:(lia)). unfold part_crc_ok in *.
    unfold part_off, sizeof_ptable, sizeof_part in *. by rewrite !F' by lia. }
  assert (C' : load32 m' 0 = Some (Z.of_nat n)) by (rewrite load32_ok, Fh, H20, C by lia; done).
  destruct (ptable_verify_spec m' memsz blksz n B' M ltac:(lia) C' ltac:(lia) ltac:(lia))
    as (ok & E & Hok).
  rewrite E. cbn [mbind option_bind]. exists m', ok. split_and!; try done; [by destruct ok|].
  rewrite Hok. split.
  - intros (_ & _ & P & _). apply (parts_ok_ext m' m); try done; try lia.
    intros i I. symmetry. by apply Fp.
  - intros P. split_and!; [done| |by apply (parts_ok_ext m m'); try done; lia|done].
    apply zslice_splice_same; change (zlen ptable_magic) with 4; lia.
Qed.

(** A table of two partitions in a block of 128 bytes, before serialisation. *)
Definition sample_part (name : cstr) (offset size : Z) : list Z :=
  take 8 (name ++ replicate 8 0) ++ le_bytes 4 offset ++ le_bytes 4 size ++ [0x51] ++ replicate 15 0.

Definition sample_table : list Z :=
  le_bytes 4 2 ++ replicate 24 0 ++ sample_part (str "boot") 128 256 ++
  sample_part (str "rootfs") 384 1024 ++ replicate 36 0.

Definition sample_stored : list Z :=
  match ptable_serialize (Some sample_table) 4096 128 with Some (_, Some m) => m | _ => [] end.

Lemma ptable_deserialize_sound_witness :
  ptable_deserialize (Some sample_stored) 4096 128 = Some 0 /\
  exists n, load32 sample_stored 0 = Some (Z.of_nat n) /\ table_ok sample_stored 4096 128 n.
Proof.
  split; [by vm_compute|]. apply ptable_deserialize_sound; [|lia|lia|by vm_compute].
  vm_compute; repeat constructor; discriminate.
Defined.

Lemma ptable_serialize_spec_witness :
  exists m' (ok : bool),
    ptable_serialize (Some sample_table) 4096 128 = Some (if ok then 0 else -1, Some m') /\
    (ok = true <-> parts_ok sample_table 4096 128 2) /\
    ptable_deserialize (Some m') 4096 128 = Some (if ok then 0 else -1) /\
    load32 m' 0 = Some 2 /\ table_version m' = PTABLE_VERSION /\ header_crc_ok m' /\
    (forall i, (i < 2)%nat -> part_crc_ok m' i) /\
    (forall i, (i < 2)%nat -> zslice (part_off i) 28 m' = zslice (part_off i) 28 sample_table).
Proof.
  apply (ptable_serialize_spec sample_table 4096 128 2); try lia; try (by vm_compute).
  vm_compute; repeat constructor; discriminate.
Defined.

(** The size of a table of 2^27 - 1 partitions wraps to zero: the magic bytes are
    then read in front of the table. *)
Lemma ptable_size_wraps :
  ptable_size (2 ^ 27 - 1) = 0 /\
  ptable_verify (le_bytes 4 (2 ^ 27 - 1) ++ replicate 60 0) 4096 64 = None.
Proof. split; by vm_compute. Qed.
