(* ===== verification/Devs.v ===== *)
(** * Device table (src/devices/devs.c, src/devices/devs.h)

    A driver is a record of optional functions on a world [W], the state of the
    hardware behind all drivers.  A pointer argument a driver stores through is a
    component of the result: the bytes stored to the buffer of a read, the address
    of a map, the value of a control. *)

From S2P Require Import Prelude CString.

(** ** src/lib/errno.h *)

Definition EOK := 0.
Definition EIO := 5.
Definition ENXIO := 6.
Definition E2BIG := 7.
Definition ENOMEM := 12.
Definition EEXIST := 17.
Definition ENODEV := 19.
Definition EINVAL := 22.
Definition ENOSYS := 35.

Definition SIZE_MAJOR := 11.
Definition SIZE_MINOR := 16.

Definition DEV_STORAGE := 2.
Definition DEV_CONTROL_GETPROP_TOTALSZ := 3.
Definition DEV_CONTROL_GETPROP_BLOCKSZ := 4.
Definition dev_isMappable := 0.
Definition dev_isNotMappable := 1.

Section devs.
  Context {W : Type}.

Record dev_ops := {
  op_sync : option (Z -> W -> Z * W);
  op_map : option (Z -> Z -> Z -> Z -> Z -> Z -> Z -> W -> (Z * option Z) * W);
  op_control : option (Z -> Z -> Z -> W -> (Z * Z) * W);
  op_read : option (Z -> Z -> Z -> Z -> W -> (Z * list Z) * W);
  op_write : option (Z -> Z -> list Z -> W -> Z * W);
  op_erase : option (Z -> Z -> Z -> Z -> W -> Z * W)
}.

Record dev := {
  dev_name : option cstr;
  dev_init : option (Z -> W -> Z * W);
  dev_done : option (Z -> W -> Z * W);
  dev_ops_ : option dev_ops
}.

(** [devs_common.devs[major][minor]]; a missing key is a NULL pointer. *)
Abbreviation devtab := (gmap (Z * Z) dev).

(** The loop of [devs_register] from [minor] on, [k] minors left. *)
Fixpoint register_loop (t : devtab) (major nb : Z) (d : dev) (minor i : Z) (k : nat) : devtab :=
  match k with
  | O => t
  | S k =>
      if i <? nb then
        match t !! (major, minor) with
        | None => register_loop (<[(major, minor) := d]> t) major nb d (minor + 1) (i + 1) k
        | Some _ => register_loop t major nb d (minor + 1) i k
        end
      else t
  end.

Definition devs_register (t : devtab) (major nb : Z) (d : dev) : devtab :=
  if (SIZE_MAJOR <=? major) || (SIZE_MINOR <=? nb) then t
  else register_loop t major nb d 0 0 (Z.to_nat SIZE_MINOR).

(** All slots in the order of the nested loops. *)
Definition all_slots : list (Z * Z) :=
  major ← map Z.of_nat (seq 0 (Z.to_nat SIZE_MAJOR));
  minor ← map Z.of_nat (seq 0 (Z.to_nat SIZE_MINOR));
  [(major, minor)].

Definition devs_init (t : devtab) (w : W) : W :=
  fold_left (fun w '(major, minor) =>
    match t !! (major, minor) with
    | Some d => match dev_init d with Some f => (f minor w).2 | None => w end
    | None => w
    end) all_slots w.

Definition devs_done (t : devtab) (w : W) : W :=
  fold_left (fun w '(major, minor) =>
    match t !! (major, minor) with
    | Some d => match dev_done d with Some f => (f minor w).2 | None => w end
    | None => w
    end) all_slots w.

(** The result of [devs_iterNext]: a slot with its device, or [DEVS_ITER_STOP]. *)
Inductive iter_res :=
| IterDev (major minor : Z) (d : option dev)
| IterStop.

(** The loops of [devs_iterNext]; [k] bounds the majors still to try. *)
Fixpoint iter_loop (t : devtab) (ctx currMajor currMinor : Z) (k : nat) : iter_res * Z :=
  match k with
  | O => (IterStop, ctx)
  | S k =>
      if currMajor <? SIZE_MAJOR then
        if currMinor <? SIZE_MINOR then
          (IterDev currMajor currMinor (t !! (currMajor, currMinor)),
           w32 (Z.ldiff ctx 0xffff + (currMinor + 1)))
        else
          iter_loop t (Z.lor (Z.land ctx 0xffff) (Z.shiftl (currMajor + 1) 16)) (currMajor + 1) 0 k
      else (IterStop, ctx)
  end.

Definition devs_iterNext (t : devtab) (ctx : Z) : iter_res * Z :=
  let currMajor := Z.land (Z.shiftr ctx 16) 0xffff in
  let currMinor := Z.land ctx 0xffff in
  iter_loop t ctx currMajor currMinor (Z.to_nat (SIZE_MAJOR + 1)).

Definition devs_get (t : devtab) (major minor : Z) : option dev :=
  if (major <? SIZE_MAJOR) && (minor <? SIZE_MINOR) then t !! (major, minor) else None.

Definition devs_ops (t : devtab) (major minor : Z) : option dev_ops :=
  d ← devs_get t major minor; dev_ops_ d.

Definition devs_check (t : devtab) (major minor : Z) : Z :=
  match devs_get t major minor with
  | Some {| dev_name := Some _; dev_init := Some _; dev_done := Some _ |} => EOK
  | _ => - ENODEV
  end.

(** The result and the bytes stored to [buff]. *)
Definition devs_read (t : devtab) (major minor offs len timeout : Z) (w : W) : (Z * list Z) * W :=
  match devs_ops t major minor ≫= op_read with
  | Some read => read minor offs len timeout w
  | None => ((- ENOSYS, []), w)
  end.

Definition devs_write (t : devtab) (major minor offs : Z) (buff : list Z) (w : W) : Z * W :=
  match devs_ops t major minor ≫= op_write with
  | Some write => write minor offs buff w
  | None => (- ENOSYS, w)
  end.

Definition devs_erase (t : devtab) (major minor offs len flags : Z) (w : W) : Z * W :=
  match devs_ops t major minor ≫= op_erase with
  | Some erase => erase minor offs len flags w
  | None => (- ENOSYS, w)
  end.

Definition devs_sync (t : devtab) (major minor : Z) (w : W) : Z * W :=
  match devs_ops t major minor ≫= op_sync with
  | Some sync => sync minor w
  | None => (- ENOSYS, w)
  end.

Definition devs_map (t : devtab) (major minor addr sz mode memaddr memsz memmode : Z) (w : W)
    : (Z * option Z) * W :=
  match devs_ops t major minor ≫= op_map with
  | Some map => map minor addr sz mode memaddr memsz memmode w
  | None => ((- ENOSYS, None), w)
  end.

(** The result and the value behind [args]. *)
Definition devs_control (t : devtab) (major minor cmd args : Z) (w : W) : (Z * Z) * W :=
  match devs_ops t major minor ≫= op_control with
  | Some control => control minor cmd args w
  | None => ((- ENOSYS, args), w)
  end.

(** ** Registration *)

(** The free minors of a major from [minor] on, [k] of them looked at. *)
Fixpoint free_minors (t : devtab) (major minor : Z) (k : nat) : list Z :=
  match k with
  | O => []
  | S k =>
      match t !! (major, minor) with
      | None => minor :: free_minors t major (minor + 1) k
      | Some _ => free_minors t major (minor + 1) k
      end
  end.

Lemma free_minors_ge t major minor k m : m ∈ free_minors t major minor k -> minor <= m.
Proof.
  revert minor. induction k as [|k IH]; intros minor; cbn; [by intros ?%elem_of_nil|].
  destruct (t !! (major, minor)); [intros ?%IH; lia|].
  intros [-> | ?%IH]%elem_of_cons; lia.
Qed.

Lemma free_minors_insert t major minor k m d :
  m < minor -> free_minors (<[(major, m) := d]> t) major minor k = free_minors t major minor k.
Proof.
  revert minor. induction k as [|k IH]; intros minor L; [done|]. cbn.
  rewrite lookup_insert_ne by (intros [=]; lia). by rewrite !IH by lia.
Qed.

Lemma register_loop_spec t major nb d minor i k a b :
  0 <= i ->
  register_loop t major nb d minor i k !! (a, b) =
    (if bool_decide (a = major /\ b ∈ ztake (nb - i) (free_minors t major minor k))
     then Some d else t !! (a, b)).
Proof.
  revert t minor i. induction k as [|k IH]; intros t minor i I.
  - cbn [register_loop free_minors]. rewrite bool_decide_false; [done|].
    rewrite take_nil. by intros [_ ?%elem_of_nil].
  - cbn [register_loop free_minors]. destruct (Z.ltb_spec i nb).
    + destruct (t !! (major, minor)) as [d0|] eqn:E; [by apply IH|].
      rewrite IH, free_minors_insert by lia.
      replace (nb - i) with (Z.succ (nb - (i + 1))) by lia.
      rewrite Z2Nat.inj_succ by lia. cbn [take].
      set (fr := ztake (nb - (i + 1)) _).
      destruct (decide (a = major /\ b = minor)) as [[-> ->]|N].
      * rewrite (bool_decide_true (_ /\ minor ∈ minor :: _)) by (split; [done|left]).
        destruct (bool_decide _); [done|]. by rewrite lookup_insert_eq.
      * rewrite lookup_insert_ne by (intros [= <- <-]; by apply N).
        erewrite bool_decide_ext; [done|]. rewrite elem_of_cons. tauto.
    + rewrite bool_decide_false; [done|].
      rewrite (Z2Nat.nonpos (nb - i)) by lia. cbn. by intros [_ ?%elem_of_nil].
Qed.

(** [devs_register] gives the device the first [nb] free minors of the major
    (all that are free when there are fewer) and changes no other slot: a device
    once registered is never replaced. *)
Lemma devs_register_spec t major nb d a b :
  0 <= nb -> devs_register t major nb d !! (a, b) =
    (if bool_decide (major < SIZE_MAJOR /\ nb < SIZE_MINOR /\ a = major /\
        b ∈ ztake nb (free_minors t major 0 (Z.to_nat SIZE_MINOR)))
     then Some d else t !! (a, b)).
Proof.
  intros N. unfold devs_register. destruct (_ || _) eqn:E.
  - rewrite bool_decide_false; [done|]. intros (? & ? & _). lia.
  - rewrite register_loop_spec, Z.sub_0_r by done. erewrite bool_decide_ext; [done|].
    apply orb_false_iff in E. intuition lia.
Qed.

(** ** Enumeration *)

(** Calls of [devs_iterNext] until it stops: the slots it returned. *)
Fixpoint iter_all (t : devtab) (ctx : Z) (fuel : nat) : list (Z * Z * option dev) * bool :=
  match fuel with
  | O => ([], false)
  | S fuel =>
      match devs_iterNext t ctx with
      | (IterStop, _) => ([], true)
      | (IterDev major minor d, ctx) =>
          let '(l, b) := iter_all t ctx fuel in ((major, minor, d) :: l, b)
      end
  end.

(** Iterating from a zero context visits every slot of the table once, in order,
    with the device registered there, and then stops. *)
Lemma devs_iterNext_enumerates t :
  iter_all t 0 177 = (map (fun s => (s, t !! s)) all_slots, true).
Proof. reflexivity. Qed.

End devs.

Arguments dev_ops : clear implicits.
Arguments dev : clear implicits.
Abbreviation devtab W := (gmap (Z * Z) (dev W)).

Lemma devs_register_spec_witness :
  let d : dev unit := {| dev_name := None; dev_init := None; dev_done := None; dev_ops_ := None |} in
  devs_register (<[(2, 0) := d]> ∅) 2 2 d !! (2, 3) = None.
Proof.
  intros d. etransitivity; [apply (devs_register_spec (<[(2, 0) := d]> ∅) 2 2 d 2 3); lia|].
  by vm_compute.
Defined.
