(* ===== verification/Msg.v ===== *)
(** * Messages on a serial line (src/phfs/msg.c, src/phfs/msg.h)

    A message is a checksum word (checksum below, sequence number above), a type
    word (type below, length above) and [MSG_MAXLEN] bytes of data.  On the line it
    is a mark and the bytes of the header and of the data that is used, in which
    marks and escapes are escaped.  The memory of a [msg_t] is little-endian. *)

From S2P Require Import Prelude Mem Devs.

Definition MSG_MARK := 0x7e.
Definition MSG_ESC := 0x7d.
Definition MSG_ESCMARK := 0x5e.
Definition MSG_ESCESC := 0x5d.

Definition MSGRECV_TIMEOUT := 500.
Definition MSGRECV_MAXRETR := 3.
Definition MSG_HDRSZ := 8.
Definition MSG_MAXLEN := 512.

Record msg := mk_msg { m_csum : Z; m_type : Z; m_data : list Z }.

Definition msg_settype (m : msg) (t : Z) : msg :=
  mk_msg (m_csum m) (Z.lor (Z.ldiff (m_type m) 0xffff) (Z.land t 0xffff)) (m_data m).
Definition msg_gettype (m : msg) : Z := Z.land (m_type m) 0xffff.

Definition msg_setlen (m : msg) (l : Z) : msg :=
  mk_msg (m_csum m) (Z.lor (Z.land (m_type m) 0xffff) (w32 (Z.shiftl (w32 l) 16))) (m_data m).
Definition msg_getlen (m : msg) : Z := Z.shiftr (m_type m) 16.

Definition msg_setcsum (m : msg) (c : Z) : msg :=
  mk_msg (Z.lor (Z.ldiff (m_csum m) 0xffff) (Z.land c 0xffff)) (m_type m) (m_data m).
Definition msg_getcsum (m : msg) : Z := Z.land (m_csum m) 0xffff.
Definition msg_getseq (m : msg) : Z := Z.shiftr (m_csum m) 16.

Definition msg_serialize32 (from : Z) : list Z :=
  [Z.land from 0xff; Z.land (Z.shiftr from 8) 0xff;
   Z.land (Z.shiftr from 16) 0xff; Z.land (Z.shiftr from 24) 0xff].

(** [from[i]] for a pointer into a buffer with enough bytes. *)
Definition byte_at (bs : list Z) (i : nat) : Z := nth i bs 0.

Definition msg_deserialize32 (from : list Z) : Z :=
  w32 (Z.lor (Z.lor (Z.lor (byte_at from 0) (Z.shiftl (byte_at from 1) 8))
    (Z.shiftl (byte_at from 2) 16)) (Z.shiftl (byte_at from 3) 24)).

(** The header bytes written by [msg_serializeHeaders]. *)
Definition msg_serializeHeaders (m : msg) : list Z :=
  msg_serialize32 (m_csum m) ++ msg_serialize32 (m_type m).

Definition msg_deserializeHeaders (m : msg) (buff : list Z) : msg :=
  mk_msg (msg_deserialize32 buff) (msg_deserialize32 (drop 4 buff)) (m_data m).

(** The memory of the structure. *)
Definition msg_mem (m : msg) : list Z := le_bytes 4 (m_csum m) ++ le_bytes 4 (m_type m) ++ m_data m.

(** The sum over bytes 4 .. MSG_HDRSZ + len of the structure; [None] when the
    length exceeds the data. *)
Definition msg_csum (m : msg) : option Z :=
  bs ← mbytes (msg_mem m) 4 (MSG_HDRSZ + msg_getlen m - 4);
  let csum := fold_left (fun csum b => w16 (csum + b)) bs 0 in
  Some (w16 (csum + msg_getseq m)).

Section msg.
  Context {W : Type} (t : devtab W).

(** The loop of [msg_write] over the bytes [p]. *)
Fixpoint msg_write_loop (major minor : Z) (p : list Z) (k : Z) (w : W) : Z * W :=
  match p with
  | [] => (k, w)
  | c :: p =>
      let cs :=
        if (c =? MSG_MARK) || (c =? MSG_ESC) then
          [MSG_ESC; if c =? MSG_MARK then MSG_ESCMARK else MSG_ESCESC]
        else [c] in
      let '(res, w) := devs_write t major minor 0 cs w in
      if res <? 0 then (res, w) else msg_write_loop major minor p (k + 1) w
  end.

Definition msg_write (major minor : Z) (m : msg) (w : W) : option (Z * W) :=
  let p := msg_serializeHeaders m ++ m_data m in
  p ← mbytes p 0 (MSG_HDRSZ + msg_getlen m);
  let '(res, w) := devs_write t major minor 0 [MSG_MARK] w in
  if res <? 0 then Some (res, w) else Some (msg_write_loop major minor p 0 w).

(** The local state of [msg_read]: [*state] is [MSGREAD_FRAME], the escape flag,
    [len], the header bytes and the message under construction. *)
Record rx := mk_rx {
  rx_frame : bool; rx_esc : bool; rx_len : Z; rx_headers : list Z; rx_msg : msg
}.

(** What the body of the inner loop does with a byte: go on, or return. *)
Inductive rx_res :=
| RxMore (r : rx)
| RxRet (ret : Z) (r : rx).

Definition unescape (c : Z) : Z :=
  let c := if c =? MSG_ESCMARK then MSG_MARK else c in
  if c =? MSG_ESCESC then MSG_ESC else c.

(** [*state = MSGREAD_DESYN] *)
Definition desyn (r : rx) : rx :=
  mk_rx false (rx_esc r) (rx_len r) (rx_headers r) (rx_msg r).

(** The byte is stored and the end of the frame is looked for. *)
Definition msg_read_store (r : rx) (esc : bool) (c : Z) : option rx_res :=
  let len := rx_len r in
  let headers := if len <? MSG_HDRSZ then rx_headers r ++ [c] else rx_headers r in
  let m :=
    if len <? MSG_HDRSZ then rx_msg r
    else mk_msg (m_csum (rx_msg r)) (m_type (rx_msg r))
      (splice (len - MSG_HDRSZ) [c] (m_data (rx_msg r))) in
  let len := len + 1 in
  let m := if len =? MSG_HDRSZ then msg_deserializeHeaders m headers else m in
  let r := mk_rx true esc len headers m in
  if (MSG_HDRSZ <=? len) && (len =? w32 (msg_getlen m + MSG_HDRSZ)) then
    csum ← msg_csum m;
    Some (if negb (msg_getcsum m =? csum) then RxRet (- ENXIO) (desyn r) else RxRet len (desyn r))
  else Some (RxMore r).

Definition msg_read_byte (r : rx) (c : Z) : option rx_res :=
  if rx_frame r then
    if rx_len r =? MSG_HDRSZ + MSG_MAXLEN then Some (RxRet (- ENXIO) (desyn r))
    else if c =? MSG_MARK then Some (RxRet (- ENXIO) r)
    else if negb (rx_esc r) && (c =? MSG_ESC) then
      Some (RxMore (mk_rx true true (rx_len r) (rx_headers r) (rx_msg r)))
    else if rx_esc r then msg_read_store r false (unescape c)
    else msg_read_store r false c
  else if c =? MSG_MARK then Some (RxMore (mk_rx true (rx_esc r) (rx_len r) (rx_headers r) (rx_msg r)))
  else Some (RxMore r).

(** The inner loop over the bytes of a chunk. *)
Fixpoint msg_read_chunk (r : rx) (buff : list Z) : option rx_res :=
  match buff with
  | [] => Some (RxMore r)
  | c :: buff =>
      res ← msg_read_byte r c;
      match res with
      | RxMore r => msg_read_chunk r buff
      | RxRet ret r => Some (RxRet ret r)
      end
  end.

(** The outer loop, at most [fuel] calls of [devs_read].  The result, the message
    and [*state]. *)
Fixpoint msg_read_loop (fuel : nat) (major minor timeout : Z) (r : rx) (w : W)
    : option (Z * msg * bool * W) :=
  match fuel with
  | O => None
  | S fuel =>
      let '((res, buff), w) := devs_read t major minor 0 (MSG_HDRSZ + MSG_MAXLEN) timeout w in
      if res <? 0 then Some (- ENXIO, rx_msg r, false, w)
      else
        chunk ← mbytes buff 0 res;
        ret ← msg_read_chunk r chunk;
        match ret with
        | RxMore r => msg_read_loop fuel major minor timeout r w
        | RxRet ret r => Some (ret, rx_msg r, rx_frame r, w)
        end
  end.

Definition msg_read (fuel : nat) (major minor : Z) (m : msg) (timeout : Z) (state : bool) (w : W)
    : option (Z * msg * bool * W) :=
  msg_read_loop fuel major minor timeout (mk_rx state false 0 [] m) w.

(** The attempts of [msg_send], [n] of them left. *)
Fixpoint msg_send_loop (fuel : nat) (major minor : Z) (smsg rmsg : msg) (state : bool) (n : nat) (w : W)
    : option (Z * msg * W) :=
  match n with
  | O => Some (- ENXIO, rmsg, w)
  | S n =>
      '(res, w) ← msg_write major minor smsg w;
      if res <? 0 then msg_send_loop fuel major minor smsg rmsg state n w
      else
        '(res, rmsg, state, w) ← msg_read fuel major minor rmsg MSGRECV_TIMEOUT state w;
        if 0 <? res then Some (EOK, rmsg, w)
        else msg_send_loop fuel major minor smsg rmsg state n w
  end.

(** The result, [rmsg] and the world. *)
Definition msg_send (fuel : nat) (major minor : Z) (smsg rmsg : msg) (w : W) : option (Z * msg * W) :=
  csum ← msg_csum smsg;
  msg_send_loop fuel major minor (msg_setcsum smsg csum) rmsg false (Z.to_nat MSGRECV_MAXRETR) w.

End msg.

(** ** Words and header fields *)

Definition msg_ok (m : msg) : Prop :=
  0 <= m_csum m < 2 ^ 32 /\ 0 <= m_type m < 2 ^ 32 /\ length (m_data m) = Z.to_nat MSG_MAXLEN.

Lemma msg_serialize32_le x : msg_serialize32 x = le_bytes 4 x.
Proof.
  unfold msg_serialize32. rewrite !land_ff, !Z.shiftr_div_pow2 by lia. cbn [le_bytes].
  rewrite !Z.div_div by lia. done.
Qed.

Lemma msg_deserialize32_le bs rest :
  length bs = 4%nat -> Forall is_byte bs -> msg_deserialize32 (bs ++ rest) = le_val bs.
Proof.
  intros L B. do 4 (destruct bs as [|? bs]; [done|]). destruct bs; [|done]. clear L.
  repeat (apply Forall_cons in B as [? B]). unfold is_byte in *.
  unfold msg_deserialize32, byte_at. cbn [nth app le_val].
  rewrite (lor_shiftl_add _ _ 8), (lor_shiftl_add _ _ 16), (lor_shiftl_add _ _ 24) by
    (change (2 ^ 8) with 256; change (2 ^ 16) with 65536; change (2 ^ 24) with 16777216; lia).
  change (2 ^ 24) with 16777216. fold_pows. rewrite w32_small by lia. lia.
Qed.

(** The words of the protocol survive the line. *)
Lemma msg_serialize32_roundtrip x rest :
  0 <= x < 2 ^ 32 -> msg_deserialize32 (msg_serialize32 x ++ rest) = x.
Proof.
  intros X. rewrite msg_serialize32_le, msg_deserialize32_le;
    [|by rewrite length_le_bytes|apply le_bytes_byte].
  rewrite le_val_bytes. by apply Z.mod_small.
Qed.

Lemma length_serialize32 x : length (msg_serialize32 x) = 4%nat.
Proof. done. Qed.

Lemma setcsum_fields m c :
  msg_ok m ->
  msg_getcsum (msg_setcsum m c) = c mod 65536 /\ msg_getseq (msg_setcsum m c) = msg_getseq m /\
  msg_ok (msg_setcsum m c).
Proof.
  intros (C & T & D). unfold msg_getcsum, msg_getseq, msg_setcsum, msg_ok. cbn [m_csum m_type m_data].
  rewrite !land_ffff, ldiff_ffff, Z.lor_comm.
  rewrite <- (Z.shiftl_mul_pow2 _ 16), lor_shiftl_add, !Z.shiftr_div_pow2 by mlia.
  fold_pows. split_and!; try done; modlia.
Qed.

Lemma setlen_fields m l :
  0 <= l < 65536 -> msg_getlen (msg_setlen m l) = l /\ msg_gettype (msg_setlen m l) = msg_gettype m.
Proof.
  intros L. unfold msg_getlen, msg_gettype, msg_setlen. cbn [m_type].
  rewrite !land_ffff, (w32_small l), w32_small by (rewrite ?Z.shiftl_mul_pow2; lia).
  rewrite lor_shiftl_add, Z.shiftr_div_pow2 by mlia. fold_pows. split; modlia.
Qed.

Lemma settype_fields m ty :
  0 <= m_type m < 2 ^ 32 -> 0 <= ty < 65536 ->
  msg_gettype (msg_settype m ty) = ty /\ msg_getlen (msg_settype m ty) = msg_getlen m.
Proof.
  intros M T. unfold msg_getlen, msg_gettype, msg_settype. cbn [m_type].
  rewrite !land_ffff, ldiff_ffff, Z.lor_comm.
  rewrite <- (Z.shiftl_mul_pow2 _ 16), lor_shiftl_add, !Z.shiftr_div_pow2 by mlia.
  fold_pows. split; modlia.
Qed.

Lemma settype_ok m ty : msg_ok m -> msg_ok (msg_settype m ty).
Proof.
  intros (C & T & D). unfold msg_ok, msg_settype. cbn [m_csum m_type m_data].
  rewrite land_ffff, ldiff_ffff, Z.lor_comm.
  rewrite <- (Z.shiftl_mul_pow2 _ 16), lor_shiftl_add by mlia. fold_pows. split_and!; done || modlia.
Qed.

Lemma setlen_ok m l : msg_ok m -> 0 <= l < 65536 -> msg_ok (msg_setlen m l).
Proof.
  intros (C & T & D) L. unfold msg_ok, msg_setlen. cbn [m_csum m_type m_data].
  rewrite land_ffff, (w32_small l), w32_small by (rewrite ?Z.shiftl_mul_pow2; lia).
  rewrite lor_shiftl_add by mlia. fold_pows. split_and!; done || modlia.
Qed.

(** A word depends on its four bytes. *)
Lemma msg_deserialize32_take n o (d d' : list Z) :
  ztake n d = ztake n d' -> 0 <= o -> o + 4 <= n ->
  msg_deserialize32 (zdrop o d) = msg_deserialize32 (zdrop o d').
Proof.
  intros E O N. unfold msg_deserialize32, byte_at.
  assert (B : forall i, (i < 4)%nat -> nth i (zdrop o d) 0 = nth i (zdrop o d') 0).
  { intros i I. rewrite !nth_lookup, !lookup_drop. f_equal.
    rewrite <- (lookup_take_lt d (Z.to_nat n)), <- (lookup_take_lt d' (Z.to_nat n)) by lia.
    by rewrite E. }
  by rewrite !B by lia.
Qed.

(** ** Frames *)

Definition esc1 (c : Z) : list Z :=
  if c =? MSG_MARK then [MSG_ESC; MSG_ESCMARK]
  else if c =? MSG_ESC then [MSG_ESC; MSG_ESCESC] else [c].

Definition escape (p : list Z) : list Z := p ≫= esc1.

(** The bytes of a message before escaping. *)
Definition payload (m : msg) : list Z := msg_serializeHeaders m ++ ztake (msg_getlen m) (m_data m).

Definition frame (m : msg) : list Z := MSG_MARK :: escape (payload m).

(** No escaped byte is a mark: a frame is delimited by its first byte only. *)
Lemma escape_no_mark p : Forall (fun c => c <> MSG_MARK) (escape p).
Proof.
  induction p as [|c p IH]; [constructor|]. cbn. apply Forall_app. split; [|done].
  unfold esc1. destruct (Z.eqb_spec c MSG_MARK), (Z.eqb_spec c MSG_ESC); by repeat constructor.
Qed.

Definition csum_ok (m : msg) : Prop := msg_csum m = Some (msg_getcsum m).

Lemma length_payload m :
  msg_ok m -> 0 <= msg_getlen m <= MSG_MAXLEN -> zlen (payload m) = MSG_HDRSZ + msg_getlen m.
Proof.
  intros (_ & _ & D) L. unfold payload, MSG_HDRSZ, msg_serializeHeaders, MSG_MAXLEN in *.
  rewrite !length_app, !length_serialize32, length_take. lia.
Qed.

Lemma msg_getlen_range m : msg_ok m -> 0 <= msg_getlen m < 65536.
Proof.
  intros (_ & T & _). unfold msg_getlen. rewrite Z.shiftr_div_pow2 by lia. fold_pows. modlia.
Qed.

(** [msg_csum] depends on the header and on the data in use. *)
Lemma msg_csum_ext m m' :
  msg_ok m -> msg_ok m' -> m_type m' = m_type m -> msg_getseq m' = msg_getseq m ->
  msg_getlen m <= MSG_MAXLEN ->
  ztake (msg_getlen m) (m_data m') = ztake (msg_getlen m) (m_data m) -> msg_csum m' = msg_csum m.
Proof.
  intros O O' T S L E. pose proof (msg_getlen_range m O). unfold msg_csum.
  assert (G : msg_getlen m' = msg_getlen m) by (unfold msg_getlen; by rewrite T).
  assert (Z : forall x, msg_ok x -> msg_getlen x = msg_getlen m ->
    mbytes (msg_mem x) 4 (MSG_HDRSZ + msg_getlen m - 4) =
      Some (le_bytes 4 (m_type x) ++ ztake (msg_getlen m) (m_data x))).
  { intros x (_ & _ & D) _. unfold MSG_HDRSZ, MSG_MAXLEN, msg_mem in *.
    rewrite mbytes_ok by (try lia; rewrite !length_app, !length_le_bytes; lia).
    unfold zslice. rewrite drop_app_length' by (by rewrite length_le_bytes).
    rewrite take_app_ge by (rewrite length_le_bytes; lia). do 3 f_equal.
    rewrite length_le_bytes. lia. }
  rewrite G, !Z, T, E, S by done. done.
Qed.

Lemma msg_setcsum_ok m :
  msg_ok m -> 0 <= msg_getlen m <= MSG_MAXLEN ->
  exists c, msg_csum m = Some c /\ csum_ok (msg_setcsum m c) /\ msg_ok (msg_setcsum m c) /\
    msg_getlen (msg_setcsum m c) = msg_getlen m /\ m_type (msg_setcsum m c) = m_type m /\
    m_data (msg_setcsum m c) = m_data m.
Proof.
  intros O L. destruct (msg_csum m) as [c|] eqn:E.
  - exists c. split; [done|]. destruct (setcsum_fields m c O) as (F1 & F2 & F3).
    split_and!; try done. unfold csum_ok. rewrite (msg_csum_ext m) by (done || lia).
    rewrite E, F1. f_equal. unfold msg_csum in E. destruct (mbytes _ _ _); [|done].
    injection E as <-. unfold w16. symmetry. apply Z.mod_small, Z.mod_pos_bound. lia.
  - exfalso. unfold msg_csum in E. rewrite mbytes_ok in E; [done|lia|unfold MSG_HDRSZ; lia|].
    destruct O as (_ & _ & D). unfold msg_mem, MSG_HDRSZ, MSG_MAXLEN in *.
    rewrite !length_app, !length_le_bytes. lia.
Qed.

(** ** Reception of a frame *)

Section receive.
  Context (m : msg) (Hm : msg_ok m) (Hlen : msg_getlen m <= MSG_MAXLEN) (Hcs : csum_ok m).

(** The receiver after [j] bytes of the payload of [m]. *)
Definition received (r : rx) (j : Z) : Prop :=
  rx_frame r = true /\ rx_esc r = false /\ rx_len r = j /\ 0 <= j < zlen (payload m) /\
  rx_headers r = ztake (Z.min j 8) (payload m) /\ length (m_data (rx_msg r)) = Z.to_nat MSG_MAXLEN /\
  (8 <= j -> m_csum (rx_msg r) = m_csum m /\ m_type (rx_msg r) = m_type m /\
    ztake (j - 8) (m_data (rx_msg r)) = ztake (j - 8) (m_data m)).

(** The whole message has been received. *)
Definition complete (r : rx) : Prop :=
  rx_frame r = false /\ m_csum (rx_msg r) = m_csum m /\ m_type (rx_msg r) = m_type m /\
  length (m_data (rx_msg r)) = Z.to_nat MSG_MAXLEN /\
  ztake (msg_getlen m) (m_data (rx_msg r)) = ztake (msg_getlen m) (m_data m).

Lemma payload_headers : take 8 (payload m) = msg_serializeHeaders m.
Proof. unfold payload. by rewrite take_app_ge, Nat.sub_diag, take_0, app_nil_r by done. Qed.

Lemma payload_lookup j : 8 <= j < zlen (payload m) -> payload m !! Z.to_nat j = m_data m !! Z.to_nat (j - 8).
Proof.
  intros J. unfold payload. rewrite lookup_app_r by (change (length (msg_serializeHeaders m)) with 8%nat; lia).
  change (length (msg_serializeHeaders m)) with 8%nat.
  rewrite lookup_take_lt; [f_equal; lia|]. pose proof (msg_getlen_range m Hm).
  rewrite length_payload in J by (done || lia). unfold MSG_HDRSZ in J. lia.
Qed.

Lemma take_splice_snoc {A} k (c : A) l :
  0 <= k < zlen l -> ztake (k + 1) (splice k [c] l) = ztake k l ++ [c].
Proof.
  intros K. unfold splice. rewrite app_assoc.
  replace (Z.to_nat (k + 1)) with (length (ztake k l ++ [c]))
    by (rewrite length_app, length_take; cbn; lia).
  by rewrite take_app_length.
Qed.

Lemma headers_read x :
  m_csum (msg_deserializeHeaders x (msg_serializeHeaders m)) = m_csum m /\
  m_type (msg_deserializeHeaders x (msg_serializeHeaders m)) = m_type m.
Proof.
  destruct Hm as (C & T & _). unfold msg_deserializeHeaders, msg_serializeHeaders.
  cbn [m_csum m_type]. split; [by apply msg_serialize32_roundtrip|].
  rewrite drop_app_length' by done. rewrite <- (app_nil_r (msg_serialize32 (m_type m))).
  by apply msg_serialize32_roundtrip.
Qed.

(** A payload byte, already unescaped. *)
Lemma msg_read_store_received r j c :
  received r j -> payload m !! Z.to_nat j = Some c ->
  exists res, msg_read_store r false c = Some res /\
    if j + 1 =? zlen (payload m)
    then exists r', res = RxRet (zlen (payload m)) r' /\ complete r'
    else exists r', res = RxMore r' /\ received r' (j + 1).
Proof.
  intros (F & E & L & J & H & D & R) P. pose proof (msg_getlen_range m Hm) as GL.
  pose proof (length_payload m Hm ltac:(lia)) as PL. unfold MSG_HDRSZ, MSG_MAXLEN in *.
  unfold msg_read_store, MSG_HDRSZ. rewrite L.
  set (hd := if j <? 8 then rx_headers r ++ [c] else _). set (m0 := if j <? 8 then rx_msg r else _).
  set (m1 := if j + 1 =? 8 then _ else _).
  assert (Hhd : hd = ztake (Z.min (j + 1) 8) (payload m)).
  { unfold hd. rewrite H. destruct (Z.ltb_spec j 8); [|f_equal; lia].
    replace (Z.to_nat (Z.min (j + 1) 8)) with (S (Z.to_nat (Z.min j 8))) by lia.
    rewrite (take_S_r _ _ c); [done|]. by replace (Z.to_nat (Z.min j 8)) with (Z.to_nat j) by lia. }
  assert (D1 : length (m_data m1) = Z.to_nat 512).
  { unfold m1, m0. destruct (j + 1 =? 8), (Z.ltb_spec j 8); cbn; try done;
      rewrite length_splice; cbn; lia. }
  assert (M1 : 8 <= j + 1 -> m_csum m1 = m_csum m /\ m_type m1 = m_type m /\
    ztake (j + 1 - 8) (m_data m1) = ztake (j + 1 - 8) (m_data m)).
  { intros J8. unfold m1, m0. destruct (Z.eqb_spec (j + 1) 8) as [Ej|].
    - destruct (Z.ltb_spec j 8); [|lia]. rewrite Hhd, Ej. change (Z.min 8 8) with 8.
      change (ztake 8 (payload m)) with (take 8 (payload m)). rewrite payload_headers.
      split_and!; [apply headers_read|apply headers_read|done].
    - destruct (Z.ltb_spec j 8); [lia|]. destruct (R ltac:(lia)) as (-> & -> & RD). cbn.
      split_and!; try done. replace (j + 1 - 8) with (j - 8 + 1) by lia.
      rewrite take_splice_snoc by lia. rewrite RD, payload_lookup in * by lia.
      replace (Z.to_nat (j - 8 + 1)) with (S (Z.to_nat (j - 8))) by lia.
      symmetry. by apply take_S_r. }
  clearbody m1 hd. destruct (Z.leb_spec 8 (j + 1)) as [J8|J8]; cbn [andb].
  - destruct (M1 J8) as (C1 & T1 & D2). assert (G1 : msg_getlen m1 = msg_getlen m)
      by (unfold msg_getlen; by rewrite T1).
    rewrite G1, w32_small by lia. replace (msg_getlen m + 8) with (zlen (payload m)) by lia.
    destruct (Z.eqb_spec (j + 1) (zlen (payload m))) as [Ej|].
    + replace (j + 1 - 8) with (msg_getlen m) in D2 by lia.
      assert (O1 : msg_ok m1) by (destruct Hm as (? & ? & _); unfold msg_ok; by rewrite C1, T1).
      assert (S1 : msg_getseq m1 = msg_getseq m) by (unfold msg_getseq; by rewrite C1).
      rewrite (msg_csum_ext m m1), Hcs by done.
      cbn [mbind option_bind]. unfold msg_getcsum. rewrite C1, Z.eqb_refl. cbn [negb].
      eexists. split; [done|]. eexists. split; [by rewrite Ej|]. by split_and!.
    + eexists. split; [done|]. eexists. split; [done|]. unfold received, MSG_MAXLEN.
      cbn [rx_frame rx_esc rx_len rx_headers rx_msg]. split_and!; try done; lia.
  - destruct (Z.eqb_spec (j + 1) (zlen (payload m))); [lia|].
    eexists. split; [done|]. eexists. split; [done|]. unfold received, MSG_MAXLEN.
      cbn [rx_frame rx_esc rx_len rx_headers rx_msg]. split_and!; try done; lia.
Qed.

Lemma msg_read_chunk_app r a b :
  msg_read_chunk r (a ++ b) =
    (res ← msg_read_chunk r a;
     match res with RxMore r => msg_read_chunk r b | RxRet ret r => Some (RxRet ret r) end).
Proof.
  revert r. induction a as [|c a IH]; intros r; [done|]. cbn [app msg_read_chunk].
  destruct (msg_read_byte r c) as [[r'|ret r']|]; cbn [mbind option_bind]; [apply IH|done..].
Qed.

(** An escaped payload byte. *)
Lemma msg_read_esc1 r j c :
  received r j -> payload m !! Z.to_nat j = Some c ->
  exists res, msg_read_chunk r (esc1 c) = Some res /\
    if j + 1 =? zlen (payload m)
    then exists r', res = RxRet (zlen (payload m)) r' /\ complete r'
    else exists r', res = RxMore r' /\ received r' (j + 1).
Proof.
  intros R P. pose proof (length_payload m Hm ltac:(pose proof (msg_getlen_range m Hm); lia)) as PL.
  pose proof R as (F & E & L & J & H & D & _). unfold MSG_HDRSZ, MSG_MAXLEN in *.
  assert (One : forall r1, received r1 j -> forall c1 esc, rx_esc r1 = false ->
    msg_read_byte (mk_rx true esc j (rx_headers r1) (rx_msg r1)) c1 = msg_read_store r1 false c ->
    exists res, msg_read_chunk (mk_rx true esc j (rx_headers r1) (rx_msg r1)) [c1] = Some res /\
    if j + 1 =? zlen (payload m)
    then exists r', res = RxRet (zlen (payload m)) r' /\ complete r'
    else exists r', res = RxMore r' /\ received r' (j + 1)).
  { intros r1 R1 c1 esc _ B. destruct (msg_read_store_received r1 j c R1 P) as (res & E1 & S).
    exists res. split; [|done]. cbn [msg_read_chunk]. rewrite B, E1. by destruct res. }
  assert (Er : r = mk_rx true false j (rx_headers r) (rx_msg r)) by (destruct r; cbn in *; congruence).
  assert (St : forall e, msg_read_store (mk_rx true e j (rx_headers r) (rx_msg r)) false c =
    msg_read_store r false c) by (intros e; unfold msg_read_store; cbn; by rewrite L).
  assert (NL : (j =? MSG_HDRSZ + MSG_MAXLEN) = false) by (unfold MSG_HDRSZ, MSG_MAXLEN; lia).
  assert (Esc : forall x y, c = y -> unescape x = y -> x <> MSG_MARK ->
    exists res, msg_read_chunk r [MSG_ESC; x] = Some res /\
    if j + 1 =? zlen (payload m)
    then exists r', res = RxRet (zlen (payload m)) r' /\ complete r'
    else exists r', res = RxMore r' /\ received r' (j + 1)).
  { intros x y <- U N.
    replace (msg_read_chunk r) with (msg_read_chunk (mk_rx true false j (rx_headers r) (rx_msg r)))
      by (by rewrite <- Er).
    change [MSG_ESC; x] with ([MSG_ESC] ++ [x]).
    assert (B : msg_read_byte (mk_rx true false j (rx_headers r) (rx_msg r)) MSG_ESC =
      Some (RxMore (mk_rx true true j (rx_headers r) (rx_msg r))))
      by (unfold msg_read_byte; cbn [rx_frame rx_len rx_esc]; by rewrite NL).
    rewrite msg_read_chunk_app. cbn [msg_read_chunk]. rewrite B. cbn [mbind option_bind].
    apply (One r R); [done|]. unfold msg_read_byte. cbn [rx_frame rx_len rx_esc].
    rewrite NL. destruct (Z.eqb_spec x MSG_MARK); [done|]. cbn [negb andb]. rewrite U. apply St. }
  unfold esc1. destruct (Z.eqb_spec c MSG_MARK) as [->|]; [by apply (Esc _ MSG_MARK)|].
  destruct (Z.eqb_spec c MSG_ESC) as [->|]; [by apply (Esc _ MSG_ESC)|].
  rewrite Er. apply (One r R); [done|]. unfold msg_read_byte. cbn [rx_frame rx_len rx_esc].
  rewrite NL. destruct (Z.eqb_spec c MSG_MARK), (Z.eqb_spec c MSG_ESC); try done. apply St.
Qed.

Lemma receive_payload n j r rest :
  received r j -> zlen (payload m) - j = Z.of_nat n ->
  exists r', msg_read_chunk r (escape (zdrop j (payload m)) ++ rest) =
    Some (RxRet (zlen (payload m)) r') /\ complete r'.
Proof.
  revert j r. induction n as [|n IH]; intros j r R N.
  - destruct R as (_ & _ & _ & J & _). lia.
  - pose proof R as (_ & _ & _ & J & _).
    destruct (payload m !! Z.to_nat j) as [c|] eqn:P; [|apply lookup_ge_None in P; lia].
    rewrite (drop_S _ _ _ P). change (escape (c :: ?l)) with (esc1 c ++ escape l).
    rewrite <- app_assoc, msg_read_chunk_app.
    destruct (msg_read_esc1 r j c R P) as (res & -> & S). cbn [mbind option_bind].
    destruct (Z.eqb_spec (j + 1) (zlen (payload m))).
    + destruct S as (r' & -> & C). by exists r'.
    + destruct S as (r' & -> & R'). replace (S (Z.to_nat j)) with (Z.to_nat (j + 1)) by lia.
      apply IH; [done|lia].
Qed.

(** Noise before the frame is skipped, the frame is received, the bytes behind it
    are not looked at. *)
Lemma receive_frame m0 noise rest :
  length (m_data m0) = Z.to_nat MSG_MAXLEN -> Forall (fun c => c <> MSG_MARK) noise ->
  exists r', msg_read_chunk (mk_rx false false 0 [] m0) (noise ++ frame m ++ rest) =
    Some (RxRet (zlen (payload m)) r') /\ complete r'.
Proof.
  intros D. induction 1 as [|c noise C _ IH].
  - cbn [app frame]. unfold frame. cbn [app msg_read_chunk].
    change (msg_read_byte (mk_rx false false 0 [] m0) MSG_MARK) with
      (Some (RxMore (mk_rx true false 0 [] m0))). cbn [mbind option_bind].
    apply (receive_payload (length (payload m)) 0); [|lia].
    pose proof (length_payload m Hm ltac:(pose proof (msg_getlen_range m Hm); lia)) as PL.
    pose proof (msg_getlen_range m Hm). unfold MSG_HDRSZ in PL.
    unfold received. cbn [rx_frame rx_esc rx_len rx_headers rx_msg]. split_and!; done || lia.
  - cbn [app msg_read_chunk]. unfold msg_read_byte at 1. cbn [rx_frame].
    destruct (Z.eqb_spec c MSG_MARK); [done|]. cbn [mbind option_bind]. exact IH.
Qed.

End receive.

(** ** The line *)

Section line.
  Context {W : Type} (t : devtab W) (major minor : Z).

(** Successive reads answer [chunks], each no longer than the buffer. *)
Fixpoint delivers (timeout : Z) (w : W) (chunks : list (list Z)) : Prop :=
  match chunks with
  | [] => True
  | c :: chunks =>
      zlen c <= MSG_HDRSZ + MSG_MAXLEN /\
      exists w', devs_read t major minor 0 (MSG_HDRSZ + MSG_MAXLEN) timeout w = ((zlen c, c), w') /\
        delivers timeout w' chunks
  end.

(** Chunks are read as if they came at once. *)
Lemma msg_read_loop_chunks timeout r w chunks rest ret r' :
  delivers timeout w chunks -> msg_read_chunk r (concat chunks ++ rest) = Some (RxRet ret r') ->
  (exists w', msg_read_loop t (length chunks) major minor timeout r w =
     Some (ret, rx_msg r', rx_frame r', w')) \/
  (exists r1, msg_read_chunk r (concat chunks) = Some (RxMore r1)).
Proof.
  revert r w. induction chunks as [|c chunks IH]; intros r w D E.
  - right. by exists r.
  - destruct D as (L & w' & R & D). cbn [concat length msg_read_loop] in *.
    rewrite <- app_assoc, msg_read_chunk_app in E. rewrite R, msg_read_chunk_app.
    destruct (Z.ltb_spec (zlen c) 0); [lia|]. rewrite mbytes_ok by lia.
    unfold zslice. cbn [mbind option_bind]. change (zdrop 0 c) with c. rewrite Nat2Z.id, take_ge by done.
    destruct (msg_read_chunk r c) as [[r1|ret1 r1]|]; cbn [mbind option_bind] in *; [|left|done].
    + by apply IH.
    + injection E as -> ->. by exists w'.
Qed.

(** The message received, the size of its data included. *)
Lemma msg_read_frame_internal m m0 noise rest chunks timeout w :
  msg_ok m -> msg_getlen m <= MSG_MAXLEN -> csum_ok m ->
  length (m_data m0) = Z.to_nat MSG_MAXLEN -> Forall (fun c => c <> MSG_MARK) noise ->
  delivers timeout w chunks -> concat chunks = noise ++ frame m ++ rest ->
  exists m' w', msg_read t (length chunks) major minor m0 timeout false w =
      Some (MSG_HDRSZ + msg_getlen m, m', false, w') /\
    m_csum m' = m_csum m /\ m_type m' = m_type m /\ length (m_data m') = Z.to_nat MSG_MAXLEN /\
    ztake (msg_getlen m) (m_data m') = ztake (msg_getlen m) (m_data m).
Proof.
  intros O L C D N R E. pose proof (msg_getlen_range m O).
  destruct (receive_frame m O L C m0 noise rest D N) as (r' & F & (Fr & C1 & C2 & C3 & C4)).
  rewrite <- length_payload by (done || lia).
  destruct (msg_read_loop_chunks timeout (mk_rx false false 0 [] m0) w chunks [] (zlen (payload m)) r' R)
    as [(w' & Ew)|(r1 & E1)].
  - by rewrite app_nil_r, E.
  - exists (rx_msg r'), w'. unfold msg_read. by rewrite Ew, Fr.
  - by rewrite E, F in E1.
Qed.

(** C6. [msg_read] receives every message that fits, whatever it contains and
    however the line cuts the bytes into reads: noise before the frame is
    skipped, the escapes are undone, and the header and the data in use are those
    of the message that was framed. *)
Theorem msg_read_frame m m0 noise rest chunks timeout w :
  msg_ok m -> msg_getlen m <= MSG_MAXLEN -> csum_ok m ->
  length (m_data m0) = Z.to_nat MSG_MAXLEN -> Forall (fun c => c <> MSG_MARK) noise ->
  delivers timeout w chunks -> concat chunks = noise ++ frame m ++ rest ->
  exists m' w', msg_read t (length chunks) major minor m0 timeout false w =
      Some (MSG_HDRSZ + msg_getlen m, m', false, w') /\
    m_csum m' = m_csum m /\ m_type m' = m_type m /\
    ztake (msg_getlen m) (m_data m') = ztake (msg_getlen m) (m_data m).
Proof.
  intros O L C D N R E.
  destruct (msg_read_frame_internal m m0 noise rest chunks timeout w O L C D N R E)
    as (m' & w' & ? & ? & ? & _ & ?). by exists m', w'.
Qed.

(** [out] is what the device has transmitted; it takes every byte. *)
Section write.
  Context (out : W -> list Z).
  Context (accepts : forall bs w, exists w', devs_write t major minor 0 bs w = (zlen bs, w') /\
    out w' = out w ++ bs).

Lemma msg_write_loop_out p k w :
  exists w', msg_write_loop t major minor p k w = (k + zlen p, w') /\ out w' = out w ++ escape p.
Proof.
  revert k w. induction p as [|c p IH]; intros k w.
  { exists w. cbn. by rewrite Z.add_0_r, app_nil_r. }
  cbn [msg_write_loop]. set (cs := if _ || _ then _ else _).
  assert (Ecs : cs = esc1 c).
  { unfold cs, esc1. by destruct (c =? MSG_MARK), (c =? MSG_ESC). }
  destruct (accepts cs w) as (w1 & -> & O1). destruct (Z.ltb_spec (zlen cs) 0); [lia|].
  destruct (IH (k + 1) w1) as (w2 & -> & O2). exists w2. split; [f_equal; cbn [length]; lia|].
  rewrite O2, O1, Ecs, <- app_assoc. done.
Qed.

Lemma msg_write_frame_internal m w :
  msg_ok m -> msg_getlen m <= MSG_MAXLEN ->
  exists w', msg_write t major minor m w = Some (MSG_HDRSZ + msg_getlen m, w') /\
    out w' = out w ++ frame m.
Proof.
  intros O L. pose proof (msg_getlen_range m O). pose proof (length_payload m O ltac:(lia)) as PL.
  assert (P : mbytes (msg_serializeHeaders m ++ m_data m) 0 (MSG_HDRSZ + msg_getlen m) = Some (payload m)).
  { destruct O as (_ & _ & D). unfold MSG_HDRSZ, MSG_MAXLEN in *.
    assert (LH : length (msg_serializeHeaders m) = 8%nat) by done.
    rewrite mbytes_ok by (try lia; rewrite length_app, LH; lia). unfold zslice, payload.
    change (zdrop 0 ?l) with l. rewrite take_app_ge by (rewrite LH; lia).
    do 3 f_equal. rewrite LH. lia. }
  unfold msg_write. rewrite P. cbn [mbind option_bind].
  destruct (accepts [MSG_MARK] w) as (w1 & -> & O1). change (zlen [MSG_MARK] <? 0) with false. cbn iota.
  destruct (msg_write_loop_out (payload m) 0 w1) as (w2 & -> & O2). exists w2.
  rewrite Z.add_0_l, PL. split; [done|]. by rewrite O2, O1, <- app_assoc.
Qed.

(** [msg_write] transmits the frame of the message, exactly, and returns the
    length of its header and data. *)
Lemma msg_write_frame m w :
  msg_ok m -> msg_getlen m <= MSG_MAXLEN ->
  exists w', msg_write t major minor m w = Some (MSG_HDRSZ + msg_getlen m, w') /\
    out w' = out w ++ frame m.
Proof. apply msg_write_frame_internal. Qed.

End write.
End line.

(** ** A line of chunks *)

(** What was transmitted and what is still to be received. *)
Definition line := (list Z * list (list Z))%type.

Definition line_ops : dev_ops line :=
  {| op_sync := None; op_map := None; op_control := None; op_erase := None;
     op_read := Some (fun _ _ _ _ w =>
       match w.2 with [] => ((-37, []), w) | c :: cs => ((zlen c, c), (w.1, cs)) end);
     op_write := Some (fun _ _ bs w => (zlen bs, (w.1 ++ bs, w.2))) |}.

Definition line_tab : devtab line :=
  <[(0, 0) := {| dev_name := Some (str "line"); dev_init := None; dev_done := None;
                 dev_ops_ := Some line_ops |}]> ∅.

(** A message with a mark and an escape in it. *)
Definition sample_msg : msg :=
  let m := mk_msg 0 0 (MSG_MARK :: MSG_ESC :: replicate 510 7) in
  let m := msg_setlen (msg_settype m 2) 5 in
  match msg_csum m with Some c => msg_setcsum m c | None => m end.

Lemma msg_read_frame_witness :
  let m0 := mk_msg 0 0 (replicate 512 0) in
  let f := frame sample_msg in
  exists m' w', msg_read line_tab 3 0 0 m0 500 false ([], [[1; 2]; take 6 f; drop 6 f ++ [9]]) =
      Some (MSG_HDRSZ + 5, m', false, w') /\
    m_csum m' = m_csum sample_msg /\ m_type m' = m_type sample_msg /\
    ztake 5 (m_data m') = ztake 5 (m_data sample_msg).
Proof.
  intros m0 f. refine (msg_read_frame line_tab 0 0 sample_msg m0 [1; 2] [9]
    [[1; 2]; take 6 f; drop 6 f ++ [9]] 500 _ _ _ _ _ _ _ _); try (by vm_compute).
  - by repeat constructor.
  - split; [by vm_compute|]. exists ([], [take 6 f; drop 6 f ++ [9]]). split; [done|].
    split; [by vm_compute|]. exists ([], [drop 6 f ++ [9]]). split; [done|].
    split; [by vm_compute|]. by exists ([], []).
Defined.

Lemma msg_write_frame_witness :
  exists w', msg_write line_tab 0 0 sample_msg ([], []) = Some (MSG_HDRSZ + 5, w') /\
    w'.1 = [] ++ frame sample_msg.
Proof.
  refine (msg_write_frame line_tab 0 0 fst _ sample_msg ([], []) _ _); [|by vm_compute|by vm_compute].
  intros bs [tx rx]. by eexists.
Defined.
