(* ===== verification/Phfs.v ===== *)
(** * Files on devices (src/phfs/phfs.c, src/phfs/phoenixd.c)

    The registries of device and file aliases, and the operations on an open file,
    which go to the device directly ([raw]) or to a server behind a serial line
    ([phoenixd]).  The uninitialised [msg_t]s of the stack frames of phoenixd.c
    are the arguments [smsg] and [rmsg]; [fuel] bounds the reads of a reply.
    Diagnostics are not modelled. *)

From S2P Require Import Prelude Mem CString Devs Msg.

Definition SIZE_PHFS_HANDLERS := 8.
Definition SIZE_PHFS_ALIASES := 32.
Definition PHFS_TIMEOUT_MS := 500.
Definition PHFS_OPEN_RAWONLY := 0x80000000.
Definition phfs_prot_raw := 0.
Definition phfs_prot_phoenixd := 1.

(** ** src/phfs/phoenixd.c *)

Definition MSG_OPEN := 1.
Definition MSG_READ := 2.
Definition MSG_WRITE := 3.
Definition MSG_FSTAT := 6.
Definition PHOENIXD_HDRSZ := 12.
Definition sizeof_phoenixd_stat := 44.
Definition offsetof_st_size := 20.

(** [min(a, b)] of unsigned integers *)
Definition umin (a b : Z) : Z := if b <? a then b else a.

Definition msg_putdata (m : msg) (off : Z) (bs : list Z) : option msg :=
  d ← mstore (m_data m) off bs; Some (mk_msg (m_csum m) (m_type m) d).

Definition phoenixd_serializeMsgPhd (m : msg) (handle pos len : Z) : option msg :=
  m ← msg_putdata m 0 (msg_serialize32 handle);
  m ← msg_putdata m 4 (msg_serialize32 pos);
  msg_putdata m 8 (msg_serialize32 len).

Definition phoenixd_serializeDataMsgPhd (m : msg) (handle pos len : Z) (data : list Z) : option msg :=
  m ← phoenixd_serializeMsgPhd m handle pos len;
  msg_putdata m 12 data.

(** [msg->len] of a reply, a signed number. *)
Definition phoenixd_len (m : msg) : Z := s32 (msg_deserialize32 (drop 8 (m_data m))).

Section phfs.
  Context `{Target} {W : Type} (t : devtab W) (fuel : nat) (smsg rmsg : msg).

Definition phoenixd_open (file : cstr) (major minor flags : Z) (w : W) : option (Z * W) :=
  let l := hal_strlen file + 1 in
  m ← msg_putdata smsg 0 (msg_serialize32 flags);
  m ← msg_putdata m 4 (file ++ [0]);
  let l := wa (l + 4) in
  let m := msg_setlen (msg_settype m MSG_OPEN) l in
  '(res, r, w) ← msg_send t fuel major minor m rmsg w;
  Some (
    if res <? 0 then (- EIO, w)
    else if negb (msg_gettype r =? MSG_OPEN) then (- EIO, w)
    else if negb (msg_getlen r =? 4) then (- EIO, w)
    else
      let fd := msg_deserialize32 (m_data r) in
      if fd =? 0 then (- EIO, w) else (s32 fd, w)).

(** The result and the bytes stored to [buff], which has room for [len]. *)
Definition phoenixd_read (fd major minor offs len : Z) (w : W) : option (Z * list Z * W) :=
  if MSG_MAXLEN - PHOENIXD_HDRSZ <? len then Some (- EINVAL, [], w)
  else
    m ← phoenixd_serializeMsgPhd smsg fd offs len;
    let m := msg_setlen (msg_settype m MSG_READ) PHOENIXD_HDRSZ in
    '(res, r, w) ← msg_send t fuel major minor m rmsg w;
    if res <? 0 then Some (- EIO, [], w)
    else if negb (msg_gettype r =? MSG_READ) then Some (- EIO, [], w)
    else if phoenixd_len r <? 0 then Some (- EIO, [], w)
    else
      let l := w32 (umin (phoenixd_len r) (wa (msg_getlen r - PHOENIXD_HDRSZ))) in
      data ← mbytes (m_data r) PHOENIXD_HDRSZ l;
      if len <? l then None else Some (l, data, w).

Definition phoenixd_write (fd major minor offs : Z) (buff : list Z) (w : W) : option (Z * W) :=
  if MSG_MAXLEN - PHOENIXD_HDRSZ <? zlen buff then Some (- EINVAL, w)
  else
    m ← phoenixd_serializeDataMsgPhd smsg fd offs (zlen buff) buff;
    let m := msg_setlen (msg_settype m MSG_WRITE) (PHOENIXD_HDRSZ + zlen buff) in
    '(res, r, w) ← msg_send t fuel major minor m rmsg w;
    Some (
      if res <? 0 then (- EIO, w)
      else if negb (msg_gettype r =? MSG_WRITE) then (- EIO, w)
      else (if phoenixd_len r <? 0 then - EIO else phoenixd_len r, w)).

(** The result and [stat->size]. *)
Definition phoenixd_stat (fd major minor : Z) (w : W) : option (Z * option Z * W) :=
  m ← phoenixd_serializeMsgPhd smsg fd 0 0;
  let m := msg_setlen (msg_settype (mk_msg (m_csum m) 0 (m_data m)) MSG_FSTAT) PHOENIXD_HDRSZ in
  '(res, r, w) ← msg_send t fuel major minor m rmsg w;
  Some (
    if res <? 0 then (- EIO, None, w)
    else if negb (msg_gettype r =? MSG_FSTAT) then (- EIO, None, w)
    else if negb (phoenixd_len r =? sizeof_phoenixd_stat) then (- EIO, None, w)
    else (EOK, Some (msg_deserialize32 (zdrop (PHOENIXD_HDRSZ + offsetof_st_size) (m_data r))), w)).

Definition phoenixd_close (fd major minor : Z) (w : W) : Z * W := (EOK, w).

(** ** src/phfs/phfs.c: the registries *)

Record phfs_device := { pd_alias : cstr; pd_major : Z; pd_minor : Z; pd_prot : Z }.
Record phfs_file := { pf_alias : cstr; pf_addr : Z; pf_size : Z }.

(** The arrays hold zeroed entries behind the registered ones. *)
Record phfs_state := {
  ph_devices : list phfs_device; ph_dCnt : nat;
  ph_files : list phfs_file; ph_fCnt : nat
}.

Definition phfs_device0 : phfs_device := {| pd_alias := []; pd_major := 0; pd_minor := 0; pd_prot := 0 |}.
Definition phfs_file0 : phfs_file := {| pf_alias := []; pf_addr := 0; pf_size := 0 |}.

Definition phfs_init : phfs_state :=
  {| ph_devices := replicate (Z.to_nat SIZE_PHFS_HANDLERS) phfs_device0; ph_dCnt := 0;
     ph_files := replicate (Z.to_nat SIZE_PHFS_ALIASES) phfs_file0; ph_fCnt := 0 |}.

Definition phfs_setProt (prot : option cstr) : option Z :=
  match prot with
  | None => Some phfs_prot_raw
  | Some prot =>
      if hal_strcmp prot (str "raw") =? 0 then Some phfs_prot_raw
      else if hal_strcmp prot (str "phoenixd") =? 0 then Some phfs_prot_phoenixd
      else None
  end.

(** The string left in [char alias[size]] by the copy of [alias]. *)
Definition copy_alias (size : Z) (alias : cstr) : cstr :=
  let sz := hal_strlen alias in
  let sz := if sz <? size - 1 then sz + 1 else size - 1 in
  default [] (cstring (ztake sz (alias ++ [0]) ++ [0])).

(** The index of the first of the [cnt] entries with the alias. *)
Fixpoint alias_index {A} (name : A -> cstr) (alias : cstr) (l : list A) (cnt : nat) (i : Z) : option Z :=
  match cnt, l with
  | S cnt, x :: l =>
      if hal_strcmp alias (name x) =? 0 then Some i else alias_index name alias l cnt (i + 1)
  | _, _ => None
  end.

Definition phfs_getHandlerId (s : phfs_state) (alias : cstr) : Z :=
  default (- EINVAL) (alias_index pd_alias alias (ph_devices s) (ph_dCnt s) 0).

Definition phfs_getAliasId (s : phfs_state) (alias : cstr) : Z :=
  default (- EINVAL) (alias_index pf_alias alias (ph_files s) (ph_fCnt s) 0).

Definition phfs_devReg (s : phfs_state) (alias : option cstr) (major minor : Z) (prot : option cstr)
    : Z * phfs_state :=
  match alias with
  | None => (- EINVAL, s)
  | Some alias =>
      if SIZE_PHFS_HANDLERS <=? Z.of_nat (ph_dCnt s) then (- EINVAL, s)
      else if devs_check t major minor <? 0 then (- EINVAL, s)
      else if 0 <=? phfs_getHandlerId s alias then (- EINVAL, s)
      else
        match phfs_setProt prot with
        | None => (- EINVAL, s)
        | Some prot =>
            let pd := {| pd_alias := copy_alias 8 alias; pd_major := major; pd_minor := minor;
                         pd_prot := prot |} in
            (EOK, {| ph_devices := <[ph_dCnt s := pd]> (ph_devices s); ph_dCnt := S (ph_dCnt s);
                     ph_files := ph_files s; ph_fCnt := ph_fCnt s |})
        end
  end.

(** The result; major, minor and protocol of the device on success. *)
Definition phfs_devGet (s : phfs_state) (alias : cstr) : Z * option phfs_device :=
  match alias_index pd_alias alias (ph_devices s) (ph_dCnt s) 0 with
  | Some i => (EOK, ph_devices s !! Z.to_nat i)
  | None => (- ENODEV, None)
  end.

Definition phfs_aliasReg (s : phfs_state) (alias : option cstr) (addr size : Z) : Z * phfs_state :=
  match alias with
  | None => (- EINVAL, s)
  | Some alias =>
      if SIZE_PHFS_ALIASES <=? Z.of_nat (ph_fCnt s) then (- EINVAL, s)
      else if 0 <=? phfs_getAliasId s alias then (- EINVAL, s)
      else
        let f := {| pf_alias := copy_alias 34 alias; pf_addr := addr; pf_size := size |} in
        (EOK, {| ph_devices := ph_devices s; ph_dCnt := ph_dCnt s;
                 ph_files := <[ph_fCnt s := f]> (ph_files s); ph_fCnt := S (ph_fCnt s) |})
  end.

Record handler := mk_handler { h_pd : Z; h_id : Z }.

Definition phfs_aliasAddrResolve (s : phfs_state) (h : handler) : Z * option Z :=
  if (SIZE_PHFS_ALIASES <=? h_id h) || (Z.of_nat (ph_fCnt s) <=? h_id h) then (- EINVAL, None)
  else (EOK, pf_addr <$> ph_files s !! Z.to_nat (h_id h)).

(** ** Open files *)

(** [(unsigned)-1] *)
Definition id_none : Z := w32 (-1).

(** The result and [*handler], which is written on success and on some failures. *)
Definition phfs_open (s : phfs_state) (alias : cstr) (file : option cstr) (flags : Z) (h : handler) (w : W)
    : option (Z * handler * W) :=
  let res := phfs_getHandlerId s alias in
  if res <? 0 then Some (res, h, w)
  else
    let h := mk_handler res (h_id h) in
    pd ← ph_devices s !! Z.to_nat res;
    if negb (Z.land flags PHFS_OPEN_RAWONLY =? 0) && negb (pd_prot pd =? phfs_prot_raw) then
      Some (- ENXIO, h, w)
    else if pd_prot pd =? phfs_prot_phoenixd then
      file ← file;
      '(res, w) ← phoenixd_open file (pd_major pd) (pd_minor pd) flags w;
      Some (if res <? 0 then (res, h, w) else (EOK, mk_handler (h_pd h) res, w))
    else if pd_prot pd =? phfs_prot_raw then
      let h := mk_handler (h_pd h) id_none in
      match file with
      | None => Some (EOK, h, w)
      | Some file =>
          let res := phfs_getAliasId s file in
          Some (if res <? 0 then (res, h, w) else (EOK, mk_handler (h_pd h) res, w))
      end
    else Some (EOK, h, w).

Definition phfs_read (s : phfs_state) (h : handler) (offs len : Z) (w : W) : option (Z * list Z * W) :=
  if SIZE_PHFS_HANDLERS <=? h_pd h then Some (- EINVAL, [], w)
  else
    pd ← ph_devices s !! Z.to_nat (h_pd h);
    if pd_prot pd =? phfs_prot_phoenixd then
      phoenixd_read (h_id h) (pd_major pd) (pd_minor pd) offs len w
    else if pd_prot pd =? phfs_prot_raw then
      if h_id h =? id_none then
        Some (devs_read t (pd_major pd) (pd_minor pd) offs len PHFS_TIMEOUT_MS w)
      else if SIZE_PHFS_ALIASES <=? h_id h then Some (- EINVAL, [], w)
      else
        f ← ph_files s !! Z.to_nat (h_id h);
        Some (devs_read t (pd_major pd) (pd_minor pd) (wa (pf_addr f + offs))
          (umin len (wa (pf_size f - offs))) PHFS_TIMEOUT_MS w)
    else Some (- EIO, [], w).

Definition phfs_write (s : phfs_state) (h : handler) (offs : Z) (buff : list Z) (w : W) : option (Z * W) :=
  if SIZE_PHFS_HANDLERS <=? h_pd h then Some (- EINVAL, w)
  else
    pd ← ph_devices s !! Z.to_nat (h_pd h);
    if pd_prot pd =? phfs_prot_phoenixd then
      phoenixd_write (h_id h) (pd_major pd) (pd_minor pd) offs buff w
    else if pd_prot pd =? phfs_prot_raw then
      if h_id h =? id_none then Some (devs_write t (pd_major pd) (pd_minor pd) offs buff w)
      else if SIZE_PHFS_ALIASES <=? h_id h then Some (- EINVAL, w)
      else
        f ← ph_files s !! Z.to_nat (h_id h);
        Some (devs_write t (pd_major pd) (pd_minor pd) (wa (pf_addr f + offs))
          (ztake (umin (zlen buff) (wa (pf_size f - offs))) buff) w)
    else Some (- EIO, w).

Definition phfs_erase (s : phfs_state) (h : handler) (offs len flags : Z) (w : W) : option (Z * W) :=
  if SIZE_PHFS_HANDLERS <=? h_pd h then Some (- EINVAL, w)
  else
    pd ← ph_devices s !! Z.to_nat (h_pd h);
    if negb (pd_minor pd =? DEV_STORAGE) && negb (pd_prot pd =? phfs_prot_raw) then Some (- EINVAL, w)
    else Some (devs_erase t (pd_major pd) (pd_minor pd) offs len flags w).

Definition phfs_close (s : phfs_state) (h : handler) (w : W) : option (Z * W) :=
  if SIZE_PHFS_HANDLERS <=? h_pd h then Some (- EINVAL, w)
  else
    pd ← ph_devices s !! Z.to_nat (h_pd h);
    let '(res, w) :=
      if pd_prot pd =? phfs_prot_phoenixd then phoenixd_close (h_id h) (pd_major pd) (pd_minor pd) w
      else (EOK, w) in
    if res <? 0 then Some (res, w)
    else
      let '(r, w) := devs_sync t (pd_major pd) (pd_minor pd) w in
      Some (if r <? 0 then - EINVAL else EOK, w).

Definition phfs_map (s : phfs_state) (h : handler) (addr sz mode memaddr memsz memmode : Z) (w : W)
    : option ((Z * option Z) * W) :=
  if SIZE_PHFS_HANDLERS <=? h_pd h then Some ((- EINVAL, None), w)
  else
    pd ← ph_devices s !! Z.to_nat (h_pd h);
    Some (devs_map t (pd_major pd) (pd_minor pd) addr sz mode memaddr memsz memmode w).

(** The result and [stat->size], a [u32]. *)
Definition phfs_stat (s : phfs_state) (h : handler) (w : W) : option (Z * option Z * W) :=
  if SIZE_PHFS_HANDLERS <=? h_pd h then Some (- EINVAL, None, w)
  else
    pd ← ph_devices s !! Z.to_nat (h_pd h);
    if pd_prot pd =? phfs_prot_phoenixd then
      '(res, size, w) ← phoenixd_stat (h_id h) (pd_major pd) (pd_minor pd) w;
      Some (if res <? 0 then res else EOK, size, w)
    else if pd_prot pd =? phfs_prot_raw then
      if (h_id h =? id_none) || (SIZE_PHFS_ALIASES <=? h_id h) then Some (- EINVAL, None, w)
      else
        f ← ph_files s !! Z.to_nat (h_id h);
        Some (EOK, Some (w32 (pf_size f)), w)
    else Some (EOK, None, w).

End phfs.

(** ** The registries *)

Lemma copy_alias_spec size alias :
  cstr_ok alias -> 1 < size -> copy_alias size alias = ztake (size - 1) alias.
Proof.
  intros O S. unfold copy_alias. rewrite hal_strlen_length.
  assert (NZ : Forall (fun c => c <> 0) alias)
    by (eapply Forall_impl; [exact O|]; cbn; lia).
  destruct (Z.ltb_spec (zlen alias) (size - 1)).
  - rewrite (take_ge alias), take_ge by (rewrite ?length_app; cbn [length]; lia).
    rewrite <- app_assoc. cbn [app]. by rewrite cstring_app.
  - rewrite take_app_le by lia. rewrite cstring_app; [done|]. by apply Forall_take.
Qed.

Section index.
  Context {A : Type} (name : A -> cstr) (alias : cstr).

Lemma alias_index_range l cnt i j :
  alias_index name alias l cnt i = Some j -> i <= j < i + Z.of_nat (min cnt (length l)).
Proof.
  revert cnt i. induction l as [|x l IH]; intros [|cnt] i; cbn; try done.
  destruct (_ =? 0); [intros [= ->]; lia|]. intros ?%IH. lia.
Qed.

(** The entry found has the alias. *)
Lemma alias_index_Some l cnt i j :
  alias_index name alias l cnt i = Some j ->
  exists x, l !! Z.to_nat (j - i) = Some x /\ hal_strcmp alias (name x) = 0.
Proof.
  revert cnt i. induction l as [|x l IH]; intros [|cnt] i E; cbn in E; try done.
  destruct (Z.eqb_spec (hal_strcmp alias (name x)) 0) as [Ex|].
  - injection E as <-. rewrite Z.sub_diag. by exists x.
  - pose proof (alias_index_range _ _ _ _ E). apply IH in E as (y & Ey & N). exists y.
    replace (Z.to_nat (j - i)) with (S (Z.to_nat (j - (i + 1)))) by lia. done.
Qed.

(** Adding an entry behind the others. *)
Lemma alias_index_insert l cnt x i :
  (cnt < length l)%nat ->
  alias_index name alias (<[cnt := x]> l) (S cnt) i =
    match alias_index name alias l cnt i with
    | Some j => Some j
    | None => if hal_strcmp alias (name x) =? 0 then Some (i + Z.of_nat cnt) else None
    end.
Proof.
  revert cnt i. induction l as [|y l IH]; intros cnt i L; cbn [length] in L; [lia|].
  destruct cnt as [|cnt].
  - cbn. rewrite Z.add_0_r. by destruct (_ =? 0), l.
  - cbn [insert list_insert alias_index]. destruct (hal_strcmp alias (name y) =? 0); [done|].
    fold (@alias_index A). change (list_insert cnt x l) with (<[cnt := x]> l).
    rewrite IH by lia. destruct (alias_index name alias l cnt (i + 1)); [done|].
    destruct (_ =? 0); [|done]. f_equal. lia.
Qed.
End index.

Definition phfs_ok (s : phfs_state) : Prop :=
  length (ph_devices s) = Z.to_nat SIZE_PHFS_HANDLERS /\ (ph_dCnt s <= length (ph_devices s))%nat /\
  length (ph_files s) = Z.to_nat SIZE_PHFS_ALIASES /\ (ph_fCnt s <= length (ph_files s))%nat /\
  Forall (fun d => (length (pd_alias d) <= 7)%nat) (ph_devices s) /\
  Forall (fun f => (length (pf_alias f) <= 33)%nat) (ph_files s).

Lemma phfs_init_ok : phfs_ok phfs_init.
Proof. split_and!; try done; try (cbn; lia); apply Forall_replicate; cbn; lia. Qed.

(** The file registered under an alias. *)
Definition phfs_aliasGet (s : phfs_state) (alias : cstr) : option phfs_file :=
  i ← alias_index pf_alias alias (ph_files s) (ph_fCnt s) 0; ph_files s !! Z.to_nat i.

(** Registering a device succeeds exactly when there is an alias that is not in
    use, room, a complete device and a known protocol; a failure changes nothing.
    A success keeps the table well formed, every device found before is found
    again, and an alias of at most 7 characters is found with what was given. *)
Lemma phfs_devReg_spec {W} (t : devtab W) s alias major minor prot :
  phfs_ok s -> cstr_ok alias ->
  let '(ret, s') := phfs_devReg t s (Some alias) major minor prot in
  (ret = EOK <-> (ph_dCnt s < 8)%nat /\ 0 <= devs_check t major minor /\
     alias_index pd_alias alias (ph_devices s) (ph_dCnt s) 0 = None /\ is_Some (phfs_setProt prot)) /\
  (ret <> EOK -> ret = - EINVAL /\ s' = s) /\
  (ret = EOK -> phfs_ok s' /\ ph_dCnt s' = S (ph_dCnt s) /\
    (forall a d, phfs_devGet s a = (EOK, Some d) -> phfs_devGet s' a = (EOK, Some d)) /\
    (zlen alias <= 7 -> exists p, phfs_setProt prot = Some p /\ phfs_devGet s' alias =
      (EOK, Some {| pd_alias := alias; pd_major := major; pd_minor := minor; pd_prot := p |}))).
Proof.
  intros (L1 & C1 & L2 & C2 & A1 & A2) O. unfold phfs_devReg, phfs_getHandlerId.
  assert (No : forall P Q : Prop, ~ P -> (- EINVAL = EOK <-> P) /\
    (- EINVAL <> EOK -> - EINVAL = - EINVAL /\ s = s) /\ (- EINVAL = EOK -> Q)) by (intros; by split).
  destruct (Z.leb_spec SIZE_PHFS_HANDLERS (Z.of_nat (ph_dCnt s))) as [F|F];
    [apply No; unfold SIZE_PHFS_HANDLERS in F; lia|].
  destruct (Z.ltb_spec (devs_check t major minor) 0); [apply No; lia|].
  destruct (alias_index pd_alias alias (ph_devices s) (ph_dCnt s) 0) as [i|] eqn:I; cbn [default from_option id].
  { pose proof (alias_index_range _ _ _ _ _ _ I). destruct (Z.leb_spec 0 i); [|lia].
    apply No. by intros (_ & _ & ? & _). }
  change (0 <=? - EINVAL) with false. cbn iota.
  destruct (phfs_setProt prot) as [p|]; [|apply No; intros (_ & _ & _ & [? ?]); done].
  unfold SIZE_PHFS_HANDLERS in *. split; [split; [|done]|split; [done|]].
  { intros _. split; [lia|]. split; [done|]. split; [done|by eexists]. }
  intros _. cbn [ph_dCnt ph_devices ph_files ph_fCnt].
  set (d := {| pd_alias := copy_alias 8 alias; pd_major := _ |}).
  assert (Ca : copy_alias 8 alias = ztake 7 alias) by (by apply copy_alias_spec).
  split_and!; [|done| |].
  - unfold phfs_ok. cbn [ph_dCnt ph_devices ph_files ph_fCnt]. rewrite length_insert.
    split_and!; try done; [lia|]. apply Forall_insert; [done|]. cbn. rewrite Ca, length_take. lia.
  - intros a d' G. unfold phfs_devGet in *. cbn [ph_dCnt ph_devices].
    rewrite alias_index_insert by lia.
    destruct (alias_index pd_alias a (ph_devices s) (ph_dCnt s) 0) as [i|] eqn:Ia; [|done].
    apply alias_index_range in Ia. rewrite list_lookup_insert_ne by lia. done.
  - intros S7. exists p. split; [done|]. unfold phfs_devGet. cbn [ph_dCnt ph_devices].
    rewrite alias_index_insert, I by lia. cbn [d pd_alias]. rewrite Ca, take_ge by lia.
    rewrite hal_strcmp_refl. cbn [Z.eqb]. rewrite Z.add_0_l, Nat2Z.id.
    rewrite list_lookup_insert_eq by lia. unfold d. by rewrite Ca, take_ge by lia.
Qed.

(** ** Files defined by an alias *)

Section files.
  Context `{Target} {W : Type} (t : devtab W) (fuel : nat) (smsg rmsg : msg).

Lemma umin_min a b : umin a b = Z.min a b.
Proof. unfold umin. cases_ifs; lia. Qed.

Lemma phfs_devGet_handler s a d :
  phfs_devGet s a = (EOK, Some d) ->
  0 <= phfs_getHandlerId s a < Z.of_nat (ph_dCnt s) /\
  ph_devices s !! Z.to_nat (phfs_getHandlerId s a) = Some d.
Proof.
  unfold phfs_devGet, phfs_getHandlerId.
  destruct (alias_index pd_alias a (ph_devices s) (ph_dCnt s) 0) as [i|] eqn:I; [|done].
  intros [= E]. apply alias_index_range in I. cbn [default from_option id]. split; [lia|done].
Qed.

(** An access through a handler of a registered file. *)
Lemma phfs_file_clamp addr size offs len :
  0 <= addr -> addr + size <= 2 ^ addr_bits -> 0 <= offs <= size -> 0 <= len ->
  0 < size < 2 ^ addr_bits ->
  wa (addr + offs) + umin len (wa (size - offs)) <= addr + size /\
  umin len (wa (size - offs)) = Z.min len (size - offs) /\
  (offs < size -> wa (addr + offs) = addr + offs).
Proof.
  intros. assert (E : wa (size - offs) = size - offs) by (apply wa_small; lia).
  rewrite E, umin_min. split_and!; [|done|intros; apply wa_small; lia].
  destruct (Z.lt_ge_cases offs size); [rewrite wa_small; lia|].
  assert (wa (addr + offs) <= addr + offs) by (unfold wa; apply Z.mod_le; [lia|]; target_cases; lia).
  lia.
Qed.

(** C13. A file registered under an alias of at most 33 characters can be opened on
    every raw device, and its reads and writes go to the device within the range
    of the file: offset [offs] of the file is byte [addr + offs] of the device, and
    no access that starts in the file reaches beyond its end. *)
Theorem phfs_file_access s dev pd alias addr size flags h0 :
  phfs_ok s -> phfs_devGet s dev = (EOK, Some pd) -> pd_prot pd = phfs_prot_raw ->
  cstr_ok alias -> zlen alias <= 33 -> (ph_fCnt s < 32)%nat -> phfs_aliasGet s alias = None ->
  0 <= addr -> 0 < size < 2 ^ addr_bits -> addr + size <= 2 ^ addr_bits ->
  exists s' h, phfs_aliasReg s (Some alias) addr size = (EOK, s') /\ phfs_ok s' /\
    (forall w, phfs_open t fuel smsg rmsg s' dev (Some alias) flags h0 w = Some (EOK, h, w)) /\
    phfs_aliasAddrResolve s' h = (EOK, Some addr) /\
    (forall offs len w, 0 <= offs < size -> 0 <= len ->
      phfs_read t fuel smsg rmsg s' h offs len w =
        Some (devs_read t (pd_major pd) (pd_minor pd) (addr + offs) (Z.min len (size - offs))
          PHFS_TIMEOUT_MS w)) /\
    (forall offs buff w, 0 <= offs < size ->
      phfs_write t fuel smsg rmsg s' h offs buff w =
        Some (devs_write t (pd_major pd) (pd_minor pd) (addr + offs) (ztake (size - offs) buff) w)).
Proof.
  intros Ok G R O L F N A Sz AS. pose proof Ok as (L1 & C1 & L2 & C2 & A1 & A2).
  set (f := {| pf_alias := alias; pf_addr := addr; pf_size := size |}).
  set (s' := {| ph_devices := ph_devices s; ph_dCnt := ph_dCnt s;
                ph_files := <[ph_fCnt s := f]> (ph_files s); ph_fCnt := S (ph_fCnt s) |}).
  exists s', (mk_handler (phfs_getHandlerId s dev) (Z.of_nat (ph_fCnt s))).
  destruct (phfs_devGet_handler s dev pd G) as [[D0 D8] D]. unfold SIZE_PHFS_HANDLERS in L1.
  assert (I : alias_index pf_alias alias (ph_files s) (ph_fCnt s) 0 = None).
  { unfold phfs_aliasGet in N. destruct (alias_index _ _ _ _ _) as [i|] eqn:I; [exfalso|done].
    apply alias_index_Some in I as (x & X & _). rewrite Z.sub_0_r in X. cbn in N. congruence. }
  assert (Hf : ph_files s' !! Z.to_nat (Z.of_nat (ph_fCnt s)) = Some f)
    by (rewrite Nat2Z.id; apply list_lookup_insert_eq; unfold SIZE_PHFS_ALIASES in *; lia).
  assert (Id : Z.of_nat (ph_fCnt s) <> id_none) by (change id_none with 4294967295; lia).
  assert (Reg : phfs_aliasReg s (Some alias) addr size = (EOK, s')).
  { unfold phfs_aliasReg, phfs_getAliasId, SIZE_PHFS_ALIASES. rewrite I. cbn [default from_option].
    destruct (Z.leb_spec 32 (Z.of_nat (ph_fCnt s))); [lia|]. cbn. unfold s', f.
    by rewrite copy_alias_spec, take_ge by (done || lia). }
  assert (Ok' : phfs_ok s').
  { unfold phfs_ok, s', SIZE_PHFS_ALIASES in *. cbn [ph_dCnt ph_devices ph_files ph_fCnt].
    rewrite length_insert. split_and!; try done; [lia|]. apply Forall_insert; [done|]. cbn. lia. }
  split_and!; [done..| | | |].
  - intros w. unfold phfs_open.
    change (phfs_getHandlerId s' dev) with (phfs_getHandlerId s dev).
    destruct (Z.ltb_spec (phfs_getHandlerId s dev) 0); [lia|]. change (ph_devices s') with (ph_devices s).
    rewrite D. cbn [mbind option_bind]. rewrite R. cbn [h_id h_pd]. rewrite andb_false_r. cbn.
    unfold phfs_getAliasId. cbn [ph_files ph_fCnt s']. rewrite alias_index_insert, I by
      (unfold SIZE_PHFS_ALIASES in *; lia).
    cbn [f pf_alias]. rewrite hal_strcmp_refl. cbn [Z.eqb default from_option id].
    rewrite Z.add_0_l. destruct (Z.ltb_spec (Z.of_nat (ph_fCnt s)) 0); [lia|done].
  - unfold phfs_aliasAddrResolve, SIZE_PHFS_ALIASES. cbn [h_id ph_fCnt s'].
    destruct (Z.leb_spec 32 (Z.of_nat (ph_fCnt s))); [lia|].
    destruct (Z.leb_spec (Z.of_nat (S (ph_fCnt s))) (Z.of_nat (ph_fCnt s))); [lia|].
    cbn [orb]. fold s'. by rewrite Hf.
  - intros offs len w Of Le. unfold phfs_read, SIZE_PHFS_HANDLERS, SIZE_PHFS_ALIASES. cbn [h_pd h_id].
    destruct (Z.leb_spec 8 (phfs_getHandlerId s dev)); [lia|]. change (ph_devices s') with (ph_devices s).
    rewrite D. cbn [mbind option_bind]. rewrite R.
    change (phfs_prot_raw =? phfs_prot_phoenixd) with false.
    change (phfs_prot_raw =? phfs_prot_raw) with true. cbn iota.
    destruct (Z.eqb_spec (Z.of_nat (ph_fCnt s)) id_none), (Z.leb_spec 32 (Z.of_nat (ph_fCnt s))); try lia.
    rewrite Hf. cbn [mbind option_bind]. cbn [f pf_addr pf_size]. destruct (phfs_file_clamp addr size offs len) as (_ & -> & ->); done || lia.
  - intros offs buff w Of. unfold phfs_write, SIZE_PHFS_HANDLERS, SIZE_PHFS_ALIASES. cbn [h_pd h_id].
    destruct (Z.leb_spec 8 (phfs_getHandlerId s dev)); [lia|]. change (ph_devices s') with (ph_devices s).
    rewrite D. cbn [mbind option_bind]. rewrite R.
    change (phfs_prot_raw =? phfs_prot_phoenixd) with false.
    change (phfs_prot_raw =? phfs_prot_raw) with true. cbn iota.
    destruct (Z.eqb_spec (Z.of_nat (ph_fCnt s)) id_none), (Z.leb_spec 32 (Z.of_nat (ph_fCnt s))); try lia.
    rewrite Hf. cbn [mbind option_bind]. cbn [f pf_addr pf_size]. destruct (phfs_file_clamp addr size offs (zlen buff)) as (_ & -> & ->);
      try lia. cbn. do 2 f_equal. destruct (Z.min_spec (zlen buff) (size - offs)) as [[? ->]|[? ->]]; [|done].
    rewrite !take_ge by lia. done.
Qed.

(** An offset behind the end of the file: [file->size - offs] wraps and the length
    of the access is not bounded by the file. *)
Lemma phfs_clamp_lost size offs len :
  0 <= size < offs -> offs < 2 ^ addr_bits -> 0 <= len <= 2 ^ addr_bits - (offs - size) ->
  umin len (wa (size - offs)) = len.
Proof.
  intros. assert (E : wa (size - offs) = size - offs + 2 ^ addr_bits).
  { unfold wa. symmetry. apply (Z.mod_unique _ _ (-1)); lia. }
  rewrite E, umin_min. lia.
Qed.

(** ** Requests to a server *)

Section server.
  Context (major minor : Z) (out : W -> list Z).
  Context (accepts : forall bs w, exists w', devs_write t major minor 0 bs w = (zlen bs, w') /\
    out w' = out w ++ bs).
  Context (Hr : length (m_data rmsg) = Z.to_nat MSG_MAXLEN).

(** The server answers the frame of [req] with the frame of [rep], cut into chunks
    that [fuel] reads can receive. *)
Definition answers (w : W) (req rep : msg) : Prop :=
  forall w', out w' = out w ++ frame req ->
  exists chunks noise rest, length chunks = fuel /\ Forall (fun c => c <> MSG_MARK) noise /\
    concat chunks = noise ++ frame rep ++ rest /\
    delivers t major minor MSGRECV_TIMEOUT w' chunks.

(** [msg_send] gets the answer at the first attempt. *)
Lemma msg_send_answered m c rep w :
  msg_ok m -> 0 <= msg_getlen m <= MSG_MAXLEN -> msg_csum m = Some c ->
  msg_ok rep -> msg_getlen rep <= MSG_MAXLEN -> csum_ok rep ->
  answers w (msg_setcsum m c) rep ->
  exists r w', msg_send t fuel major minor m rmsg w = Some (EOK, r, w') /\
    m_type r = m_type rep /\ length (m_data r) = Z.to_nat MSG_MAXLEN /\
    ztake (msg_getlen rep) (m_data r) = ztake (msg_getlen rep) (m_data rep).
Proof.
  intros O L C Or Lr Cr A. pose proof (msg_getlen_range rep Or).
  destruct (msg_setcsum_ok m O L) as (c' & C' & _ & O' & L' & _). rewrite C in C'. injection C' as <-.
  unfold msg_send. rewrite C. cbn [mbind option_bind]. change (Z.to_nat MSGRECV_MAXRETR) with 3%nat.
  cbn [msg_send_loop].
  destruct (msg_write_frame_internal t major minor out accepts (msg_setcsum m c) w O') as (w1 & -> & E1);
    [by rewrite L'; apply L|].
  rewrite L'. cbn [mbind option_bind]. unfold MSG_HDRSZ at 1.
  destruct (Z.ltb_spec (8 + msg_getlen m) 0); [lia|].
  destruct (A w1 E1) as (chunks & noise & rest & Lf & N & E & D).
  destruct (msg_read_frame_internal t major minor rep rmsg noise rest chunks MSGRECV_TIMEOUT w1
    Or Lr Cr Hr N D E) as (r & w2 & Er & _ & Ty & Ld & Da).
  rewrite Lf in Er. rewrite Er. cbn [mbind option_bind]. unfold MSG_HDRSZ.
  destruct (Z.ltb_spec 0 (8 + msg_getlen rep)); [|lia]. by exists r, w2.
Qed.

(** The request built in [smsg]. *)
Lemma phoenixd_serialize_ok fd pos len :
  msg_ok smsg -> exists m, phoenixd_serializeMsgPhd smsg fd pos len = Some m /\ msg_ok m /\
    ztake 12 (m_data m) = msg_serialize32 fd ++ msg_serialize32 pos ++ msg_serialize32 len.
Proof.
  intros (C & T & D). unfold phoenixd_serializeMsgPhd, msg_putdata. unfold MSG_MAXLEN in D.
  rewrite mstore_ok by (rewrite ?length_serialize32; lia). cbn [mbind option_bind m_csum m_type m_data].
  set (d1 := splice 0 _ _). assert (D1 : length d1 = Z.to_nat 512)
    by (unfold d1; rewrite length_splice; rewrite ?length_serialize32; lia).
  rewrite mstore_ok by (rewrite ?length_serialize32; lia). cbn [mbind option_bind m_csum m_type m_data].
  set (d2 := splice 4 _ _). assert (D2 : length d2 = Z.to_nat 512)
    by (unfold d2; rewrite length_splice; rewrite ?length_serialize32; lia).
  rewrite mstore_ok by (rewrite ?length_serialize32; lia). cbn [mbind option_bind m_csum m_type m_data].
  eexists. split; [done|]. split.
  - unfold msg_ok, MSG_MAXLEN. cbn [m_csum m_type m_data]. split; [done|]. split; [done|].
    rewrite length_splice; rewrite ?length_serialize32; lia.
  - cbn [m_data]. rewrite <- zslice_0.
    rewrite zslice_splice_tail by (rewrite ?length_serialize32; lia). rewrite app_assoc. f_equal.
Qed.

(** [phoenixd_read] sends one request of type [MSG_READ] with the handle, the
    offset and the length, and returns the data of the server's answer, cut to
    the bytes the answer carries, when the answer is no longer than asked for. *)
Lemma phoenixd_read_answered fd offs len k rep w :
  msg_ok smsg -> 0 <= len <= 500 -> 0 <= k <= len ->
  msg_ok rep -> csum_ok rep -> msg_gettype rep = MSG_READ -> msg_getlen rep = PHOENIXD_HDRSZ + k ->
  k <= phoenixd_len rep ->
  exists req, msg_gettype req = MSG_READ /\ msg_getlen req = PHOENIXD_HDRSZ /\
    ztake 12 (m_data req) = msg_serialize32 fd ++ msg_serialize32 offs ++ msg_serialize32 len /\
    (answers w req rep -> exists w',
      phoenixd_read t fuel smsg rmsg fd major minor offs len w = Some (k, zslice 12 k (m_data rep), w')).
Proof.
  intros Os Ln K Or Cr Ty Gl Pl. unfold PHOENIXD_HDRSZ in Gl.
  destruct (phoenixd_serialize_ok fd offs len Os) as (m & Em & Om & Dm).
  assert (Rm : 0 <= m_type m < 2 ^ 32) by apply Om.
  set (m1 := msg_settype m MSG_READ). set (m2 := msg_setlen m1 PHOENIXD_HDRSZ).
  destruct (settype_fields m MSG_READ Rm ltac:(unfold MSG_READ; lia)) as [T1 _].
  destruct (setlen_fields m1 12 ltac:(lia)) as [L2 T2].
  assert (O2 : msg_ok m2) by (apply setlen_ok; [by apply settype_ok|unfold PHOENIXD_HDRSZ; lia]).
  destruct (msg_setcsum_ok m2 O2) as (c & Ec & _ & _ & L3 & T3 & D3);
    [unfold m2, PHOENIXD_HDRSZ, MSG_MAXLEN; lia|].
  exists (msg_setcsum m2 c). split_and!.
  - unfold msg_gettype. rewrite T3. unfold m2, PHOENIXD_HDRSZ. unfold msg_gettype in T2, T1. by rewrite T2.
  - by rewrite L3.
  - by rewrite D3.
  - intros A.
    destruct (msg_send_answered m2 c rep w) as (r & w' & Es & Tr & Lr & Dr); try done;
      [unfold m2, PHOENIXD_HDRSZ, MSG_MAXLEN; lia|unfold MSG_MAXLEN; lia|].
    exists w'. unfold phoenixd_read, PHOENIXD_HDRSZ at 1, MSG_MAXLEN at 1.
    destruct (Z.ltb_spec (512 - 12) len); [lia|]. rewrite Em. cbn [mbind option_bind].
    fold m1 m2. rewrite Es. cbn [mbind option_bind]. change (EOK <? 0) with false. cbn iota.
    assert (Gr : msg_gettype r = MSG_READ) by (unfold msg_gettype in *; by rewrite Tr).
    assert (Lr' : msg_getlen r = 12 + k) by (unfold msg_getlen in *; by rewrite Tr).
    assert (Pr : phoenixd_len r = phoenixd_len rep).
    { unfold phoenixd_len. f_equal. rewrite Gl in Dr.
      apply (msg_deserialize32_take (12 + k) 8); [done|lia|lia]. }
    rewrite Gr, Lr', Pr. cbn [negb Z.eqb]. change (MSG_READ =? MSG_READ) with true. cbn [negb].
    destruct (Z.ltb_spec (phoenixd_len rep) 0); [lia|]. unfold PHOENIXD_HDRSZ.
    pose proof addr_bits_ge32. rewrite umin_min, wa_small, w32_small by lia.
    replace (Z.min (phoenixd_len rep) (12 + k - 12)) with k by lia.
    unfold MSG_MAXLEN in Lr. rewrite mbytes_ok by lia. cbn [mbind option_bind].
    destruct (Z.ltb_spec len k); [lia|]. do 3 f_equal.
    rewrite Gl in Dr. unfold zslice. rewrite !take_drop_commute.
    replace (Z.to_nat 12 + Z.to_nat k)%nat with (Z.to_nat (12 + k)) by lia. by rewrite Dr.
Qed.

End server.
End files.

(** ** A registry with a raw device and a file; a server *)

Definition raw_tab : devtab unit :=
  <[(2, 0) := {| dev_name := Some (str "flash"); dev_init := Some (fun _ w => (0, w));
                 dev_done := Some (fun _ w => (0, w)); dev_ops_ := None |}]> ∅.

Definition sample_phfs : phfs_state := (phfs_devReg raw_tab phfs_init (Some (str "flash0")) 2 0 None).2.

Lemma phfs_devReg_spec_witness :
  let '(ret, s') := phfs_devReg raw_tab phfs_init (Some (str "flash0")) 2 0 None in
  (ret = EOK <-> (ph_dCnt phfs_init < 8)%nat /\ 0 <= devs_check raw_tab 2 0 /\
     alias_index pd_alias (str "flash0") (ph_devices phfs_init) (ph_dCnt phfs_init) 0 = None /\
     is_Some (phfs_setProt None)) /\
  (ret <> EOK -> ret = - EINVAL /\ s' = phfs_init) /\
  (ret = EOK -> phfs_ok s' /\ ph_dCnt s' = S (ph_dCnt phfs_init) /\
    (forall a d, phfs_devGet phfs_init a = (EOK, Some d) -> phfs_devGet s' a = (EOK, Some d)) /\
    (zlen (str "flash0") <= 7 -> exists p, phfs_setProt None = Some p /\ phfs_devGet s' (str "flash0") =
      (EOK, Some {| pd_alias := str "flash0"; pd_major := 2; pd_minor := 0; pd_prot := p |}))).
Proof.
  apply (phfs_devReg_spec raw_tab phfs_init (str "flash0") 2 0 None);
    [apply phfs_init_ok|by repeat constructor].
Defined.

Lemma sample_phfs_ok : phfs_ok sample_phfs.
Proof. repeat split; try (cbn; lia); repeat constructor; cbn; lia. Qed.

Lemma phfs_file_access_witness :
  exists s' h, phfs_aliasReg (sample_phfs) (Some (str "kernel")) 0x1000 0x200 = (EOK, s') /\ phfs_ok s' /\
    (forall w, phfs_open (H := target32) raw_tab 0 sample_msg sample_msg s' (str "flash0")
      (Some (str "kernel")) 0 (mk_handler 0 0) w = Some (EOK, h, w)) /\
    phfs_aliasAddrResolve s' h = (EOK, Some 0x1000) /\
    (forall offs len w, 0 <= offs < 0x200 -> 0 <= len ->
      phfs_read (H := target32) raw_tab 0 sample_msg sample_msg s' h offs len w =
        Some (devs_read raw_tab 2 0 (0x1000 + offs) (Z.min len (0x200 - offs)) PHFS_TIMEOUT_MS w)) /\
    (forall offs buff w, 0 <= offs < 0x200 ->
      phfs_write (H := target32) raw_tab 0 sample_msg sample_msg s' h offs buff w =
        Some (devs_write raw_tab 2 0 (0x1000 + offs) (ztake (0x200 - offs) buff) w)).
Proof.
  refine (@phfs_file_access target32 unit raw_tab 0 sample_msg sample_msg sample_phfs (str "flash0")
    {| pd_alias := str "flash0"; pd_major := 2; pd_minor := 0; pd_prot := 0 |} (str "kernel")
    0x1000 0x200 0 (mk_handler 0 0) _ _ _ _ _ _ _ _ _ _); try (by vm_compute); [apply sample_phfs_ok|..].
  - by repeat constructor.
  - change (ph_fCnt sample_phfs) with 0%nat. lia.
Defined.

(** The answer to a read request: [k] bytes, all 9. *)
Definition read_reply (k : Z) : msg :=
  let d := msg_serialize32 1 ++ msg_serialize32 0 ++ msg_serialize32 k ++
    replicate (Z.to_nat k) 9 ++ replicate (Z.to_nat (500 - k)) 0 in
  let m := msg_setlen (msg_settype (mk_msg 0 0 d) MSG_READ) (PHOENIXD_HDRSZ + k) in
  match msg_csum m with Some c => msg_setcsum m c | None => m end.

Lemma phoenixd_read_answered_witness :
  exists req, msg_gettype req = MSG_READ /\ msg_getlen req = PHOENIXD_HDRSZ /\
    ztake 12 (m_data req) = msg_serialize32 1 ++ msg_serialize32 64 ++ msg_serialize32 8 /\
    (answers line_tab 1 0 0 fst ([], [frame (read_reply 5)]) req (read_reply 5) -> exists w',
      phoenixd_read (H := target32) line_tab 1 sample_msg sample_msg 1 0 0 64 8
        ([], [frame (read_reply 5)]) = Some (5, zslice 12 5 (m_data (read_reply 5)), w')).
Proof.
  refine (@phoenixd_read_answered target32 line line_tab 1 sample_msg sample_msg 0 0 fst _ _
    1 64 8 5 (read_reply 5) ([], [frame (read_reply 5)]) _ _ _ _ _ _ _ _); try (by vm_compute).
  intros bs [tx rx]. by eexists.
Defined.

(** The same server is understood, and one that answers more than it was asked for
    overflows the caller's buffer. *)
Lemma phoenixd_read_overflow :
  (exists w', phoenixd_read (H := target32) line_tab 1 sample_msg sample_msg 1 0 0 64 8
     ([], [frame (read_reply 5)]) = Some (5, [9; 9; 9; 9; 9], w')) /\
  phoenixd_read (H := target32) line_tab 1 sample_msg sample_msg 1 0 0 64 4
    ([], [frame (read_reply 5)]) = None.
Proof. split; [eexists|]; by vm_compute. Qed.

(** An alias of more than 7 characters is not found again, and the device can be
    registered a second time under it. *)
Lemma phfs_long_alias :
  let '(r1, s1) := phfs_devReg raw_tab phfs_init (Some (str "flashdev")) 2 0 None in
  let '(r2, s2) := phfs_devReg raw_tab s1 (Some (str "flashdev")) 2 0 None in
  r1 = EOK /\ phfs_devGet s1 (str "flashdev") = (- ENODEV, None) /\ r2 = EOK.
Proof. by vm_compute. Qed.
