(* ===== verification/Syspage.v ===== *)
(** * The system page (src/syspage.c)

    The loader describes memory maps, their entries and the programs to the kernel
    in records allocated from a heap that only grows.  A record lives at its
    address in the store of its type; a [char *] field points into the store of
    strings.  The record types, their sizes, the attributes and the entry types
    come from kernel headers that are not part of the repository: of them the
    model has the fields the code uses and, in [SyspageTypes], the constants.
    Diagnostics and the [..Show] functions are not modelled. *)

From S2P Require Import Prelude CList CString Devs.

Definition flagSyspageExec := 0x01.
Definition SIZE_PAGE := 0x1000.

(** ** What the code takes from the kernel headers *)

Class SyspageTypes := {
  sizeof_syspage : Z;
  sizeof_map : Z;
  sizeof_mapent : Z;
  sizeof_prog : Z;
  sizeof_pos : 0 < sizeof_syspage < 2 ^ 16 /\ 0 < sizeof_map < 2 ^ 16 /\
    0 < sizeof_mapent < 2 ^ 16 /\ 0 < sizeof_prog < 2 ^ 16;
  mAttrRead : Z;
  mAttrWrite : Z;
  mAttrExec : Z;
  mAttrShareable : Z;
  mAttrCacheable : Z;
  mAttrBufferable : Z;
  hal_entryReserved : Z;
  hal_entryAllocated : Z;
  hal_entryTemp : Z;
  hal_entryInvalid : Z;
  console_default : Z;
  (** the conversion to the type of [map->id] *)
  map_id : Z -> Z;
  map_id_small : forall i, 0 <= i < 256 -> map_id i = i
}.

Record mapent := mk_mapent { e_next : Z; e_prev : Z; e_start : Z; e_end : Z; e_type : Z }.

Record smap := mk_smap {
  m_next : Z; m_prev : Z; m_entries : Z; m_start : Z; m_end : Z; m_attr : Z; m_id : Z; m_name : Z
}.

Record prog := mk_prog {
  p_next : Z; p_prev : Z; p_start : Z; p_end : Z; p_argv : Z;
  p_imaps : Z; p_imapSz : Z; p_dmaps : Z; p_dmapSz : Z
}.

(** ** What the code takes from the platform (hal.h)

    [hal_memoryGetNextEntry] answers the reserved range the platform has next in
    [start, end), [hal_memoryAddMap] tells the platform of a map; [hw] is the
    state of the platform. *)

Class SyspageHal := {
  hw : Type;
  hal_memoryGetNextEntry : hw -> Z -> Z -> option (Z * Z * Z);
  hal_memoryAddMap : hw -> Z -> Z -> Z -> Z -> Z * hw
}.

#[export] Instance mapent_links : LinkFields mapent.
Proof.
  refine {| lnext := e_next; lprev := e_prev;
    set_lnext := fun p e => mk_mapent p (e_prev e) (e_start e) (e_end e) (e_type e);
    set_lprev := fun p e => mk_mapent (e_next e) p (e_start e) (e_end e) (e_type e) |}; done.
Defined.

#[export] Instance smap_links : LinkFields smap.
Proof.
  refine {| lnext := m_next; lprev := m_prev;
    set_lnext := fun p m => mk_smap p (m_prev m) (m_entries m) (m_start m) (m_end m) (m_attr m)
      (m_id m) (m_name m);
    set_lprev := fun p m => mk_smap (m_next m) p (m_entries m) (m_start m) (m_end m) (m_attr m)
      (m_id m) (m_name m) |}; done.
Defined.

#[export] Instance prog_links : LinkFields prog.
Proof.
  refine {| lnext := p_next; lprev := p_prev;
    set_lnext := fun q p => mk_prog q (p_prev p) (p_start p) (p_end p) (p_argv p)
      (p_imaps p) (p_imapSz p) (p_dmaps p) (p_dmapSz p);
    set_lprev := fun q p => mk_prog (p_next p) q (p_start p) (p_end p) (p_argv p)
      (p_imaps p) (p_imapSz p) (p_dmaps p) (p_dmapSz p) |}; done.
Defined.

(** ** State *)

Record syspage := mk_syspage {
  s_base : Z;         (* syspage_common.syspage *)
  s_maps : Z;
  s_progs : Z;
  s_console : Z;
  s_size : Z;
  s_pkernel : Z;
  s_heapTop : Z;
  s_heapEnd : Z;
  s_mapt : gmap Z smap;
  s_entt : gmap Z mapent;
  s_progt : gmap Z prog;
  s_strt : gmap Z cstr
}.

Definition set_maps (maps : Z) (s : syspage) : syspage :=
  mk_syspage (s_base s) maps (s_progs s) (s_console s) (s_size s) (s_pkernel s) (s_heapTop s)
    (s_heapEnd s) (s_mapt s) (s_entt s) (s_progt s) (s_strt s).
Definition set_progs (progs : Z) (s : syspage) : syspage :=
  mk_syspage (s_base s) (s_maps s) progs (s_console s) (s_size s) (s_pkernel s) (s_heapTop s)
    (s_heapEnd s) (s_mapt s) (s_entt s) (s_progt s) (s_strt s).
Definition set_heap (size top : Z) (s : syspage) : syspage :=
  mk_syspage (s_base s) (s_maps s) (s_progs s) (s_console s) size (s_pkernel s) top
    (s_heapEnd s) (s_mapt s) (s_entt s) (s_progt s) (s_strt s).
Definition set_mapt (t : gmap Z smap) (s : syspage) : syspage :=
  mk_syspage (s_base s) (s_maps s) (s_progs s) (s_console s) (s_size s) (s_pkernel s) (s_heapTop s)
    (s_heapEnd s) t (s_entt s) (s_progt s) (s_strt s).
Definition set_entt (t : gmap Z mapent) (s : syspage) : syspage :=
  mk_syspage (s_base s) (s_maps s) (s_progs s) (s_console s) (s_size s) (s_pkernel s) (s_heapTop s)
    (s_heapEnd s) (s_mapt s) t (s_progt s) (s_strt s).
Definition set_progt (t : gmap Z prog) (s : syspage) : syspage :=
  mk_syspage (s_base s) (s_maps s) (s_progs s) (s_console s) (s_size s) (s_pkernel s) (s_heapTop s)
    (s_heapEnd s) (s_mapt s) (s_entt s) t (s_strt s).
Definition set_strt (t : gmap Z cstr) (s : syspage) : syspage :=
  mk_syspage (s_base s) (s_maps s) (s_progs s) (s_console s) (s_size s) (s_pkernel s) (s_heapTop s)
    (s_heapEnd s) (s_mapt s) (s_entt s) (s_progt s) t.

Definition syspage_consoleSet (id : Z) (s : syspage) : syspage :=
  mk_syspage (s_base s) (s_maps s) (s_progs s) id (s_size s) (s_pkernel s) (s_heapTop s)
    (s_heapEnd s) (s_mapt s) (s_entt s) (s_progt s) (s_strt s).
Definition syspage_kernelPAddrAdd (address : Z) (s : syspage) : syspage :=
  mk_syspage (s_base s) (s_maps s) (s_progs s) (s_console s) (s_size s) address (s_heapTop s)
    (s_heapEnd s) (s_mapt s) (s_entt s) (s_progt s) (s_strt s).

Section syspage.
  Context `{Target} `{SyspageTypes}.

(** [ALIGN_ADDR] with an alignment of the width of an address. *)
Definition align_addr (addr align : Z) : Z :=
  if align =? 0 then addr else Z.land (wa (addr + wa (align - 1))) (wa (Z.lnot (align - 1))).

(** [ALIGN_ADDR] with an [unsigned int] alignment: the mask has 32 bits. *)
Definition align_addr32 (addr align : Z) : Z :=
  if align =? 0 then addr else Z.land (wa (addr + w32 (align - 1))) (w32 (Z.lnot (align - 1))).

Definition sizeof_long_long := 8.

Definition syspage_init (heap_base heap_limit : Z) : syspage :=
  let top := align_addr (wa (heap_base + sizeof_syspage)) sizeof_long_long in
  mk_syspage heap_base NULL NULL console_default (wa (top - heap_base)) 0 top heap_limit ∅ ∅ ∅ ∅.

Definition syspage_alloc (size : Z) (s : syspage) : Z * syspage :=
  let newTop := align_addr (wa (s_heapTop s + size)) sizeof_long_long in
  if s_heapEnd s <=? newTop then (NULL, s)
  else (s_heapTop s, set_heap (wa (newTop - s_base s)) newTop s).

(** ** Maps *)

(** A walk over the maps; [None] is a fault. *)
Definition maps_find {B} (f : Z -> smap -> option B) (s : syspage) : option (option B) :=
  if s_maps s =? NULL then Some None
  else ring_find (size (s_mapt s)) (s_mapt s) f (s_maps s) (s_maps s).

Definition syspage_mapGet (name : cstr) (s : syspage) : option (option Z) :=
  maps_find (fun p m =>
    if hal_strcmp name (default [] (s_strt s !! m_name m)) =? 0 then Some p else None) s.

Definition syspage_etype2str (type : Z) : option cstr :=
  if type =? hal_entryReserved then Some (str "reserved")
  else if type =? hal_entryAllocated then Some (str "allocated")
  else if type =? hal_entryTemp then Some (str "temp")
  else if type =? hal_entryInvalid then Some (str "invalid")
  else None.

(** The attribute of a character. *)
Definition attr_of_char (c : Z) : option Z :=
  if c =? "r"%ch then Some mAttrRead
  else if c =? "w"%ch then Some mAttrWrite
  else if c =? "x"%ch then Some mAttrExec
  else if c =? "s"%ch then Some mAttrShareable
  else if c =? "c"%ch then Some mAttrCacheable
  else if c =? "b"%ch then Some mAttrBufferable
  else None.

Fixpoint strAttr2ui_loop (str : cstr) (attr : Z) : Z * Z :=
  match str with
  | [] => (EOK, attr)
  | c :: str =>
      match attr_of_char c with
      | Some a => strAttr2ui_loop str (Z.lor attr a)
      | None => (- EINVAL, attr)
      end
  end.

(** The result and [*attr]. *)
Definition syspage_strAttr2ui (str : cstr) : Z * Z := strAttr2ui_loop str 0.

(** The case labels of the switch on [attr & (1 << i)]. *)
Definition char_of_attr (a : Z) : cstr :=
  if a =? mAttrRead then ["r"%ch]
  else if a =? mAttrWrite then ["w"%ch]
  else if a =? mAttrExec then ["x"%ch]
  else if a =? mAttrShareable then ["s"%ch]
  else if a =? mAttrCacheable then ["c"%ch]
  else if a =? mAttrBufferable then ["b"%ch]
  else [].

Definition syspage_uiAttr2str (attr : Z) : cstr :=
  i ← seq 0 32; char_of_attr (Z.land attr (Z.shiftl 1 (Z.of_nat i))).

(** ** Entries of a map *)

Definition set_entries (p : Z) (m : smap) : smap :=
  mk_smap (m_next m) (m_prev m) p (m_start m) (m_end m) (m_attr m) (m_id m) (m_name m).

(** The links set by an insertion of [t] in front of [e]. *)
Definition insert_before (t e : Z) (h : gmap Z mapent) : option (gmap Z mapent) :=
  ne ← h !! e;
  h ← store_upd (set_lnext e) t h;
  h ← store_upd (set_lprev (e_prev ne)) t h;
  h ← store_upd (set_lnext t) (e_prev ne) h;
  store_upd (set_lprev t) e h.

(** The stores of the entries and of the maps are returned. *)
Definition syspage_sortedInsert (map newEntry : Z) (s : syspage) : option syspage :=
  m ← s_mapt s !! map;
  new ← s_entt s !! newEntry;
  let e := m_entries m in
  if e =? NULL then
    h ← store_upd (set_lnext newEntry) newEntry (s_entt s);
    h ← store_upd (set_lprev newEntry) newEntry h;
    mt ← store_upd (set_entries newEntry) map (s_mapt s);
    Some (set_mapt mt (set_entt h s))
  else
    pos ← ring_find (size (s_entt s)) (s_entt s)
      (fun p ne => if e_start new <? e_start ne then Some p else None) e e;
    match pos with
    | Some p =>
        h ← insert_before newEntry p (s_entt s);
        mt ← (if p =? e then store_upd (set_entries newEntry) map (s_mapt s) else Some (s_mapt s));
        Some (set_mapt mt (set_entt h s))
    | None =>
        h ← insert_before newEntry e (s_entt s);
        Some (set_entt h s)
    end.

(** The entries of the platform in [start, end); the result, and the state. *)
Fixpoint hal_entries_loop `{SyspageHal} (fuel : nat) (hws : hw) (map start end_ : Z) (s : syspage)
    : option (Z * syspage) :=
  match fuel with
  | O => None
  | S fuel =>
      match hal_memoryGetNextEntry hws start end_ with
      | None => Some (EOK, s)
      | Some (estart, eend, type) =>
          let '(entry, s) := syspage_alloc sizeof_mapent s in
          if entry =? NULL then Some (- ENOMEM, s)
          else
            let s := set_entt (<[entry := mk_mapent NULL NULL estart eend type]> (s_entt s)) s in
            s ← syspage_sortedInsert map entry s;
            hal_entries_loop fuel hws map eend end_ s
      end
  end.

(** [map->start < end && map->end > start] or the same name *)
Definition map_conflict (s : syspage) (name : cstr) (start end_ : Z) (m : smap) : bool :=
  ((m_start m <? end_) && (start <? m_end m)) ||
  (hal_strcmp name (default [] (s_strt s !! m_name m)) =? 0).

(** The new map behind the others, and its number. *)
Definition link_map (map : Z) (s : syspage) : option syspage :=
  if s_maps s =? NULL then
    h ← store_upd (set_lnext map) map (s_mapt s);
    h ← store_upd (set_lprev map) map h;
    Some (set_maps map (set_mapt h s))
  else
    first ← s_mapt s !! s_maps s;
    h ← store_upd (set_lprev (m_prev first)) map (s_mapt s);
    first ← h !! s_maps s;
    h ← store_upd (set_lnext map) (m_prev first) h;
    h ← store_upd (set_lnext (s_maps s)) map h;
    h ← store_upd (set_lprev map) (s_maps s) h;
    Some (set_mapt h s).

Definition set_id (id : Z) (m : smap) : smap :=
  mk_smap (m_next m) (m_prev m) (m_entries m) (m_start m) (m_end m) (m_attr m) id (m_name m).

Definition number_map (map : Z) (s : syspage) : option syspage :=
  id ← (if map =? s_maps s then Some 0
        else m ← s_mapt s !! map; p ← s_mapt s !! m_prev m; Some (m_id p + 1));
  h ← store_upd (set_id (map_id id)) map (s_mapt s);
  Some (set_mapt h s).

(** The loop over the entries of the platform allocates a record for each, so the
    free bytes of the heap bound it. *)
Definition syspage_mapAdd `{SyspageHal} (name : cstr) (start end_ : Z) (attr : cstr) (hws : hw) (s : syspage)
    : option (Z * hw * syspage) :=
  conflict ← maps_find (fun _ m => if map_conflict s name start end_ m then Some tt else None) s;
  match conflict with
  | Some _ => Some (- EINVAL, hws, s)
  | None =>
      let len := hal_strlen name in
      let '(map, s) := syspage_alloc sizeof_map s in
      if map =? NULL then Some (- ENOMEM, hws, s)
      else
        let '(pname, s) := syspage_alloc (len + 1) s in
        if pname =? NULL then Some (- ENOMEM, hws, s)
        else
          let '(res, iattr) := syspage_strAttr2ui attr in
          if res <? 0 then Some (res, hws, s)
          else
            let s := set_mapt (<[map := mk_smap NULL NULL NULL start end_ iattr 0 pname]> (s_mapt s)) s in
            let s := set_strt (<[pname := name]> (s_strt s)) s in
            s ← link_map map s;
            s ← number_map map s;
            '(res, s) ← hal_entries_loop (S (Z.to_nat (s_heapEnd s))) hws map start end_ s;
            if res <? 0 then Some (res, hws, s)
            else
              m ← s_mapt s !! map;
              let '(res, hws) := hal_memoryAddMap hws (m_start m) (m_end m) (m_attr m) (m_id m) in
              Some (if res <? 0 then res else EOK, hws, s)
  end.

(** The local variables of [syspage_bestFit]. *)
Record best := mk_best { b_sz : Z; b_start : Z; b_temp : Z }.

Definition best_update (sz start size : Z) (b : best) : best :=
  if (sz <? b_sz b) && (size <=? sz) then mk_best sz start (b_temp b) else b.

(** The body of the loop for an entry. *)
Definition bestFit_step (size align : Z) (b : best) (e : mapent) : best :=
  let b :=
    if negb ((e_start e <? wa (b_temp b + size)) && (b_temp b <? e_end e)) then
      best_update (wa (e_start e - b_temp b)) (b_temp b) size b
    else b in
  mk_best (b_sz b) (b_start b) (align_addr32 (e_end e) align).

(** The outer [option] is a fault; [None] inside is [-EFAULT]. *)
Definition syspage_bestFit (m : smap) (sz align : Z) (s : syspage) : option (option Z) :=
  let tempStart := align_addr32 (m_start m) align in
  if m_entries m =? NULL then Some (Some tempStart)
  else
    b ← ring_fold (size (s_entt s)) (s_entt s) (bestFit_step sz align) (m_entries m) (m_entries m)
      (mk_best addr_max addr_max tempStart);
    first ← s_entt s !! m_entries m;
    last ← s_entt s !! e_prev first;
    let tempStart := align_addr32 (e_end last) align in
    let b := best_update (wa (m_end m - tempStart)) tempStart sz b in
    Some (if (b_sz b =? addr_max) || (b_start b =? addr_max) then None else Some (b_start b)).

(** [entry->start < start + size && entry->end > start] *)
Definition entry_overlaps (start size : Z) (e : mapent) : bool :=
  (e_start e <? wa (start + size)) && (start <? e_end e).

(** The start chosen for a new entry of the map; [None] inside for NULL. *)
Definition entry_start (mapName : option cstr) (map start sz align : Z) (s : syspage)
    : option (option Z) :=
  m ← s_mapt s !! map;
  if bool_decide (is_Some mapName) && (start =? addr_max) then syspage_bestFit m sz align s
  else
    let start := align_addr32 (match mapName with None => start | Some _ => wa (m_start m + start) end) align in
    overlap ←
      (if m_entries m =? NULL then Some None
       else ring_find (size (s_entt s)) (s_entt s)
         (fun _ e => if entry_overlaps start sz e then Some tt else None) (m_entries m) (m_entries m));
    Some (match overlap with Some _ => None | None => Some start end).

(** The address of the new entry, or NULL. *)
Definition syspage_entryAdd (mapName : option cstr) (start sz align : Z) (s : syspage)
    : option (Z * syspage) :=
  map ←
    (match mapName with
     | None => maps_find (fun p m =>
         if (m_start m <=? start) && (wa (start + sz) <=? m_end m) then Some p else None) s
     | Some name => syspage_mapGet name s
     end);
  match map with
  | None => Some (NULL, s)
  | Some map =>
      st ← entry_start mapName map start sz align s;
      match st with
      | None => Some (NULL, s)
      | Some start =>
          let '(new, s) := syspage_alloc sizeof_mapent s in
          if new =? NULL then Some (NULL, s)
          else
            let e := mk_mapent NULL NULL start (wa (start + sz)) hal_entryAllocated in
            s ← syspage_sortedInsert map new (set_entt (<[new := e]> (s_entt s)) s);
            Some (new, s)
      end
  end.

(** ** Queries on maps *)

Definition syspage_mapAttrResolve (name : cstr) (s : syspage) : option (Z * option Z) :=
  map ← syspage_mapGet name s;
  match map with
  | None => Some (- EINVAL, None)
  | Some p => m ← s_mapt s !! p; Some (EOK, Some (m_attr m))
  end.

Definition syspage_mapNameResolve (name : cstr) (s : syspage) : option (Z * option Z) :=
  map ← syspage_mapGet name s;
  match map with
  | None => Some (- EINVAL, None)
  | Some p => m ← s_mapt s !! p; Some (EOK, Some (w8 (m_id m)))
  end.

Definition syspage_mapRangeResolve (name : cstr) (s : syspage) : option (Z * option (Z * Z)) :=
  map ← syspage_mapGet name s;
  match map with
  | None => Some (- EINVAL, None)
  | Some p => m ← s_mapt s !! p; Some (EOK, Some (m_start m, m_end m))
  end.

(** [Some attr] for 1, [None] for 0. *)
Definition syspage_mapRangeCheck (start end_ : Z) (s : syspage) : option (option Z) :=
  maps_find (fun _ m =>
    if (m_start m <=? start) && (end_ <? m_end m) then Some (m_attr m) else None) s.

Definition syspage_mapName (id : Z) (s : syspage) : option (option cstr) :=
  maps_find (fun _ m =>
    if m_id m =? id then Some (default [] (s_strt s !! m_name m)) else None) s.

(** ** Programs *)

Definition link_prog (p : Z) (s : syspage) : option syspage :=
  if s_progs s =? NULL then
    h ← store_upd (set_lnext p) p (s_progt s);
    h ← store_upd (set_lprev p) p h;
    Some (set_progs p (set_progt h s))
  else
    first ← s_progt s !! s_progs s;
    h ← store_upd (set_lprev (p_prev first)) p (s_progt s);
    first ← h !! s_progs s;
    h ← store_upd (set_lnext p) (p_prev first) h;
    h ← store_upd (set_lnext (s_progs s)) p h;
    h ← store_upd (set_lprev p) (s_progs s) h;
    Some (set_progt h s).

(** The address of the program, or NULL. *)
Definition syspage_progAdd (argv : cstr) (flags : Z) (s : syspage) : option (Z * syspage) :=
  let isExec := b2z (negb (Z.land flags flagSyspageExec =? 0)) in
  let len := hal_strlen argv in
  let sz := isExec + len + 1 in
  let '(p, s) := syspage_alloc sizeof_prog s in
  if p =? NULL then Some (NULL, s)
  else
    let '(pargv, s) := syspage_alloc sz s in
    if pargv =? NULL then Some (NULL, s)
    else
      let name := (if isExec =? 0 then [] else ["X"%ch]) ++ argv in
      let s := set_strt (<[pargv := name]> (s_strt s)) s in
      let s := set_progt (<[p := mk_prog NULL NULL 0 0 pargv NULL 0 NULL 0]> (s_progt s)) s in
      s ← link_prog p s;
      Some (p, s).

Definition set_range (start end_ : Z) (p : prog) : prog :=
  mk_prog (p_next p) (p_prev p) start end_ (p_argv p) NULL 0 NULL 0.

(** [iter->argv] without the mark of an executable. *)
Definition prog_name (s : syspage) (p : prog) : cstr :=
  let argv := default [] (s_strt s !! p_argv p) in
  if deref argv =? "X"%ch then tail argv else argv.

(** The address of the memory, or NULL. *)
Definition syspage_progAllocateAndAdd (map : cstr) (sz : Z) (argv : cstr) (flags : Z)
    (allowOverwrite : bool) (s : syspage) : option (Z * syspage) :=
  exists_ ←
    (if allowOverwrite || (s_progs s =? NULL) then Some None
     else ring_find (size (s_progt s)) (s_progt s)
       (fun _ p => if hal_strcmp argv (prog_name s p) =? 0 then Some tt else None)
       (s_progs s) (s_progs s));
  match exists_ with
  | Some _ => Some (NULL, s)
  | None =>
      '(entry, s) ← syspage_entryAdd (Some map) addr_max sz SIZE_PAGE s;
      if entry =? NULL then Some (NULL, s)
      else
        '(p, s) ← syspage_progAdd argv flags s;
        if p =? NULL then Some (NULL, s)
        else
          e ← s_entt s !! entry;
          h ← store_upd (set_range (e_start e) (e_end e)) p (s_progt s);
          Some (e_start e, set_progt h s)
  end.

End syspage.

(** ** Sample values of the kernel headers *)

Definition sample_types : SyspageTypes.
Proof.
  refine {| sizeof_syspage := 128; sizeof_map := 48; sizeof_mapent := 24; sizeof_prog := 48;
    mAttrRead := 1; mAttrWrite := 2; mAttrExec := 4; mAttrShareable := 8; mAttrCacheable := 16;
    mAttrBufferable := 32; hal_entryReserved := 0; hal_entryAllocated := 1; hal_entryTemp := 2;
    hal_entryInvalid := 3; console_default := 0; map_id := w8 |}; [lia|].
  intros i I. unfold w8. apply Z.mod_small. lia.
Defined.
