(* ===== verification/SyspageMaps.v ===== *)
(** * Maps of the system page: invariant and correctness

    The rings of Syspage.v stand for lists: a map is its range and the sorted list
    of its entries.  The insertion of an entry, the search for the best gap and the
    operations built from them are specified on these lists. *)

From S2P Require Import Prelude CList CString Devs Syspage.

(** ** Alignment *)

Lemma land_mask n k x :
  0 <= k <= n -> 0 <= x < 2 ^ n -> Z.land x (Z.lnot (2 ^ k - 1) mod 2 ^ n) = x / 2 ^ k * 2 ^ k.
Proof.
  intros K X. replace (2 ^ k - 1) with (Z.ones k) by (rewrite Z.ones_equiv; lia).
  rewrite <- Z.land_ones by lia.
  rewrite Z.land_assoc, <- Z.ldiff_land, Z.ldiff_ones_r, Z.shiftr_div_pow2, Z.shiftl_mul_pow2 by lia.
  rewrite Z.land_ones by lia. apply Z.mod_small.
  assert (0 < 2 ^ k) by (apply Z.pow_pos_nonneg; lia).
  pose proof (Z.mul_div_le x (2 ^ k) ltac:(lia)). pose proof (Z.div_pos x (2 ^ k) ltac:(lia) ltac:(lia)).
  nia.
Qed.

(** The least multiple of [a] that is at least [x]. *)
Definition round_up (a x : Z) : Z := (x + (a - 1)) / a * a.

Lemma round_up_spec a x : 0 < a -> x <= round_up a x < x + a /\ (a | round_up a x).
Proof.
  intros A. unfold round_up. split; [|by exists ((x + (a - 1)) / a)].
  pose proof (Z.div_mod (x + (a - 1)) a ltac:(lia)). pose proof (Z.mod_pos_bound (x + (a - 1)) a A). lia.
Qed.

(** An aligned bound is not crossed by rounding up to it. *)
Lemma round_up_le a x y : 0 < a -> x <= y -> (a | y) -> round_up a x <= y.
Proof.
  intros A L [q ->]. destruct (round_up_spec a x A) as [U [r R]]. rewrite R in *.
  assert (r < q + 1) by (apply (Zmult_lt_reg_r r (q + 1) a); lia).
  apply Z.mul_le_mono_nonneg_r; lia.
Qed.

Lemma round_up_id a x : 0 < a -> (a | x) -> round_up a x = x.
Proof.
  intros A D. pose proof (round_up_le a x x A ltac:(lia) D). destruct (round_up_spec a x A). lia.
Qed.

Section align.
  Context `{Target}.

Lemma align_addr_spec k x :
  0 <= k < 32 -> 0 <= x -> x + 2 ^ k <= 2 ^ addr_bits -> align_addr x (2 ^ k) = round_up (2 ^ k) x.
Proof.
  intros K X B. assert (0 < 2 ^ k) by (apply Z.pow_pos_nonneg; lia).
  assert (2 ^ k <= 2 ^ 31) by (apply Z.pow_le_mono_r; lia). pose proof addr_bits_ge32.
  unfold align_addr. destruct (Z.eqb_spec (2 ^ k) 0); [lia|].
  rewrite (wa_small (2 ^ k - 1)), (wa_small (x + _)) by lia. unfold wa.
  rewrite land_mask; [done| |lia]. target_cases; lia.
Qed.

Lemma align_addr32_spec k x :
  0 <= k < 32 -> 0 <= x -> x + 2 ^ k <= 2 ^ 32 -> align_addr32 x (2 ^ k) = round_up (2 ^ k) x.
Proof.
  intros K X B. assert (0 < 2 ^ k) by (apply Z.pow_pos_nonneg; lia).
  assert (2 ^ k <= 2 ^ 31) by (apply Z.pow_le_mono_r; lia). pose proof addr_bits_ge32.
  unfold align_addr32. destruct (Z.eqb_spec (2 ^ k) 0); [lia|].
  rewrite w32_small, (wa_small (x + _)) by lia. unfold w32. by rewrite land_mask by lia.
Qed.

End align.

(** On a 64-bit target the 32-bit mask loses the upper half of the address. *)
Lemma align_addr32_loses : align_addr32 (H := target64) (2 ^ 32 + 0x1000) 0x1000 = 0x1000.
Proof. by vm_compute. Qed.

(** ** Rings: frame and insertion *)

Lemma cring_ext {A} `{!LinkFields A} (h h' : gmap Z A) l :
  cring h l -> (forall x, x ∈ l -> nx h' x = nx h x /\ pv h' x = pv h x) -> cring h' l.
Proof.
  destruct l as [|a l]; [done|]. intros (C & ND & NN) E. split; [|by split].
  apply (chain_ext h); [done|..].
  - intros x X. by apply E.
  - intros y Y. apply E. cbn [app tail] in Y. apply elem_of_app in Y as [Y|Y]; [by right|].
    apply list_elem_of_singleton in Y as ->. by left.
Qed.

Lemma clist_ext {A} `{!LinkFields A} (h h' : gmap Z A) p l :
  clist h p l -> (forall x, x ∈ l -> nx h' x = nx h x /\ pv h' x = pv h x) -> clist h' p l.
Proof.
  destruct l as [|a l]; [done|]. intros [-> C] E. split; [done|]. by apply (cring_ext h).
Qed.

(** The effect of [insert_before]. *)
Lemma insert_before_ok h a q t :
  nx h q = Some a -> pv h a = Some q -> t ∈ dom h -> a <> t -> q <> t ->
  exists h', insert_before t a h = Some h' /\ same_nodes h h' /\
    (forall x, nx h' x = if decide (x = t) then Some a else if decide (x = q) then Some t else nx h x) /\
    (forall x, pv h' x = if decide (x = a) then Some t else if decide (x = t) then Some q else pv h x).
Proof.
  intros Nq Pa Dt Nat Nqt. unfold insert_before.
  destruct (pv_lookup _ _ _ Pa) as (na & Ea & Lp). rewrite Ea. cbn [mbind option_bind].
  cbn in Lp. rewrite Lp.
  destruct (set_lnext_ok a t h Dt) as (h1 & -> & S1 & N1 & P1). cbn [mbind option_bind].
  destruct (set_lprev_ok q t h1) as (h2 & -> & S2 & N2 & P2);
    [by apply (same_nodes_dom h)|]. cbn [mbind option_bind].
  destruct (set_lnext_ok t q h2) as (h3 & -> & S3 & N3 & P3);
    [eapply same_nodes_dom, same_nodes_dom, nx_dom; done|]. cbn [mbind option_bind].
  destruct (set_lprev_ok t a h3) as (h4 & -> & S4 & N4 & P4);
    [eapply same_nodes_dom, same_nodes_dom, same_nodes_dom, pv_dom; done|].
  exists h4. split_and!; [done|by do 3 (etrans; [done|])|..]; intros x.
  - rewrite N4, N3, N2, N1. destruct (decide (x = q)), (decide (x = t)); congruence.
  - by rewrite P4, P3, P2, P1.
Qed.

(** Insertion of [t] in front of [a] in a ring. *)
Lemma cring_insert h l1 a l2 t :
  cring h (l1 ++ a :: l2) -> t ∈ dom h -> t ∉ l1 ++ a :: l2 -> t <> NULL ->
  exists h', insert_before t a h = Some h' /\ same_nodes h h' /\ cring h' (l1 ++ t :: a :: l2) /\
    (forall x, x ∉ l1 ++ a :: l2 -> x <> t -> nx h' x = nx h x /\ pv h' x = pv h x).
Proof.
  intros R Dt Nt Nz. apply cring_rotate in R. change ((a :: l2) ++ l1) with (a :: (l2 ++ l1)) in R.
  assert (Nt' : t ∉ a :: (l2 ++ l1)) by (revert Nt; rewrite !elem_of_cons, !elem_of_app, !elem_of_cons; tauto).
  destruct (exists_last (l := a :: (l2 ++ l1))) as (l0 & q & E); [done|].
  rewrite E in R. assert (Hd : head (l0 ++ [q]) = Some a) by (by rewrite <- E).
  destruct (cring_ends _ _ _ _ R Hd) as [Nq Pa].
  assert (Nat : a <> t) by (intros ->; apply Nt'; by left).
  assert (Qin : q ∈ a :: (l2 ++ l1)) by (rewrite E; apply elem_of_app; right; by left).
  assert (Nqt : q <> t) by (by intros ->).
  destruct (insert_before_ok h a q t Nq Pa Dt Nat Nqt) as (h' & E' & S' & N' & P').
  exists h'. split_and!; [done|done| |].
  - assert (R' : cring h' (l0 ++ [q; t])) by (apply (cring_snoc h h' a); [done|done|by rewrite <- E|done|done|done]).
    replace (l0 ++ [q; t]) with ((a :: l2) ++ (l1 ++ [t])) in R'.
    + apply cring_rotate in R'. by rewrite <- app_assoc in R'.
    + change [q; t] with ([q] ++ [t]). rewrite (app_assoc l0), <- E. cbn. by rewrite !app_assoc.
  - intros x X Xt. assert (X' : x ∉ a :: (l2 ++ l1))
      by (revert X; rewrite !elem_of_cons, !elem_of_app, !elem_of_cons; tauto).
    rewrite N', P'. split.
    + rewrite !decide_False; [done|by intros ->|done].
    + rewrite !decide_False; [done|done|intros ->; apply X'; by left].
Qed.

(** ** Entries *)

Record aent := mk_aent { ae_start : Z; ae_end : Z; ae_type : Z }.

Definition view (e : mapent) : aent := mk_aent (e_start e) (e_end e) (e_type e).

(** The nodes [ps] hold the entries [es]. *)
Definition ents_at (h : gmap Z mapent) (ps : list Z) (es : list aent) : Prop :=
  Forall2 (fun p a => view <$> h !! p = Some a) ps es.

(** An entry in front of the first one that starts behind it. *)
Fixpoint insert_sorted (a : aent) (es : list aent) : list aent :=
  match es with
  | [] => [a]
  | e :: es => if ae_start a <? ae_start e then a :: e :: es else e :: insert_sorted a es
  end.

Lemma same_nodes_view h h' p : same_nodes h h' -> view <$> h' !! p = view <$> h !! p.
Proof.
  intros [C _]. apply (f_equal (fun m => m !! p)) in C. rewrite !lookup_fmap in C.
  assert (V : forall o : option mapent, view <$> o = view <$> (core <$> o))
    by (by intros [[]|]).
  by rewrite V, C, <- V.
Qed.

Lemma ents_at_same h h' ps es : same_nodes h h' -> ents_at h ps es -> ents_at h' ps es.
Proof. intros S E. eapply Forall2_impl; [exact E|]. intros p a. by rewrite (same_nodes_view h h'). Qed.

Lemma ents_at_Some h ps es p a :
  ents_at h (p :: ps) (a :: es) -> exists e, h !! p = Some e /\ view e = a /\ ents_at h ps es.
Proof.
  intros [E F]%Forall2_cons. destruct (h !! p) as [e|]; [|done]. cbn in E. injection E as E.
  by exists e.
Qed.

(** Where the new entry goes, in the ring and in the list. *)
Lemma find_insert h ps es (a : aent) :
  ents_at h ps es ->
  let pos := find_nodes h (fun p ne => if ae_start a <? e_start ne then Some p else None) ps in
  match pos with
  | None => insert_sorted a es = es ++ [a]
  | Some p => exists l1 l2 es1 es2, ps = l1 ++ p :: l2 /\ es = es1 ++ es2 /\
      length l1 = length es1 /\ insert_sorted a es = es1 ++ a :: es2
  end.
Proof.
  revert es. induction ps as [|p ps IH]; intros es E.
  - apply Forall2_nil_inv_l in E as ->. done.
  - destruct es as [|b es]; [by inversion E|]. destruct (ents_at_Some _ _ _ _ _ E) as (e & Ee & V & E').
    cbn [find_nodes insert_sorted]. rewrite Ee. replace (ae_start b) with (e_start e) by (by rewrite <- V).
    destruct (ae_start a <? e_start e); [by exists [], ps, [], (b :: es)|].
    specialize (IH es E'). cbn zeta in IH |- *. destruct (find_nodes _ _ ps) as [q|].
    + destruct IH as (l1 & l2 & es1 & es2 & -> & -> & L & ->).
      exists (p :: l1), l2, (b :: es1), es2. split_and!; try done. cbn. by rewrite L.
    + by rewrite IH.
Qed.

Lemma find_nodes_ext {A B} `{!LinkFields A} (h : gmap Z A) (f g : Z -> A -> option B) l :
  (forall p n, f p n = g p n) -> find_nodes h f l = find_nodes h g l.
Proof.
  intros E. induction l as [|p l IH]; [done|]. cbn. destruct (h !! p); [|done]. by rewrite E, IH.
Qed.

Lemma ents_at_insert h ps1 ps2 es1 es2 t a :
  ents_at h (ps1 ++ ps2) (es1 ++ es2) -> length ps1 = length es1 -> view <$> h !! t = Some a ->
  ents_at h (ps1 ++ t :: ps2) (es1 ++ a :: es2).
Proof.
  intros E L V. apply Forall2_app_inv in E as [E1 E2]; [|done].
  apply Forall2_app; [done|]. by constructor.
Qed.

(** Refinement of [syspage_sortedInsert]: the ring of the map stands for the list
    with the entry inserted in order; other rings are left alone. *)
Lemma syspage_sortedInsert_spec mp t s m ps es a :
  s_mapt s !! mp = Some m -> clist (s_entt s) (m_entries m) ps -> ents_at (s_entt s) ps es ->
  view <$> s_entt s !! t = Some a -> t ∉ ps -> t <> NULL ->
  exists h' p' ps',
    syspage_sortedInsert mp t s =
      Some (set_mapt (<[mp := set_entries p' m]> (s_mapt s)) (set_entt h' s)) /\
    same_nodes (s_entt s) h' /\ clist h' p' ps' /\ ents_at h' ps' (insert_sorted a es) /\
    ps' ≡ₚ t :: ps /\
    (forall x, x ∉ t :: ps -> nx h' x = nx (s_entt s) x /\ pv h' x = pv (s_entt s) x).
Proof.
  intros Em C E V Nt Nz. unfold syspage_sortedInsert. rewrite Em. cbn [mbind option_bind].
  destruct (s_entt s !! t) as [e|] eqn:Et; [|done]. cbn in V. injection V as V. cbn [mbind option_bind].
  assert (Dt : t ∈ dom (s_entt s)) by (by apply elem_of_dom_2 in Et).
  assert (V' : forall h', same_nodes (s_entt s) h' -> view <$> h' !! t = Some a)
    by (intros h' S; rewrite (same_nodes_view _ h' t S), Et; cbn; by rewrite V).
  assert (Id : set_entries (m_entries m) m = m) by (by destruct m).
  destruct ps as [|p0 ps].
  - cbn in C. rewrite C. cbn [Z.eqb NULL]. apply Forall2_nil_inv_l in E as ->.
    destruct (set_lnext_ok t t _ Dt) as (h1 & -> & S1 & N1 & P1). cbn [mbind option_bind].
    destruct (set_lprev_ok t t h1) as (h2 & -> & S2 & N2 & P2); [by apply (same_nodes_dom (s_entt s))|].
    cbn [mbind option_bind]. unfold store_upd. rewrite Em. cbn [mbind option_bind].
    assert (S : same_nodes (s_entt s) h2) by (by etrans).
    exists h2, t, [t]. split_and!; [done|done| | |done|].
    + split; [done|]. apply cring_singleton; [done| |].
      * by rewrite N2, N1, decide_True.
      * by rewrite P2, decide_True.
    + constructor; [by apply V'|constructor].
    + intros x X. rewrite N2, P2, N1, P1. rewrite !decide_False by (intros ->; apply X; by left). done.
  - destruct C as [C0 C]. rewrite C0. assert (p0 <> NULL)
      by (intros ->; destruct C as (_ & _ & NN); apply NN; by left).
    destruct (Z.eqb_spec p0 NULL); [done|]. rewrite (ring_find_spec _ _ _ _ C).
    cbn [mbind option_bind].
    pose proof (find_insert (s_entt s) (p0 :: ps) es a E) as F. cbn zeta in F.
    rewrite (find_nodes_ext _ _ (fun p ne => if ae_start a <? e_start ne then Some p else None))
      by (intros; by rewrite <- V).
    destruct (find_nodes _ _ _) as [q|].
    + destruct F as (l1 & l2 & es1 & es2 & Ep & -> & L & ->). rewrite Ep in C, Nt |- *.
      destruct (cring_insert _ l1 q l2 t C Dt Nt Nz) as (h' & -> & S & R & Fr). cbn [mbind option_bind].
      exists h', (if q =? p0 then t else p0), (l1 ++ t :: q :: l2).
      assert (Hd : l1 = [] /\ q = p0 \/ exists l1', l1 = p0 :: l1' /\ q <> p0).
      { destruct l1 as [|x l1]; injection Ep as -> Ep; [by left|right]. exists l1. split; [done|].
        intros ->. destruct C as (_ & ND & _). apply NoDup_cons in ND as [ND _]. apply ND.
        apply elem_of_app. right. by left. }
      split_and!.
      * destruct (Z.eqb_spec q p0).
        -- unfold store_upd. by rewrite Em.
        -- cbn [mbind option_bind]. by rewrite <- C0, Id, (insert_id (s_mapt s)).
      * done.
      * destruct Hd as [[-> ->]|(l1' & -> & Nq)]; [by rewrite Z.eqb_refl|].
        destruct (Z.eqb_spec q p0); [done|]. by split.
      * apply ents_at_insert; [|done|by apply V']. rewrite <- Ep. by apply (ents_at_same (s_entt s)).
      * symmetry. apply Permutation_middle.
      * intros x X. apply Fr; [|intros ->; apply X; by left]. intros Y. apply X. by right.
    + destruct (cring_insert _ [] p0 ps t C Dt Nt Nz) as (h' & -> & S & R & Fr). cbn [mbind option_bind].
      exists h', p0, (p0 :: ps ++ [t]). split_and!.
      * by rewrite <- C0, Id, (insert_id (s_mapt s)).
      * done.
      * split; [done|]. cbn [app] in R. change (t :: p0 :: ps) with ([t] ++ (p0 :: ps)) in R.
        by apply cring_rotate in R.
      * rewrite F. change (p0 :: ps ++ [t]) with ((p0 :: ps) ++ [t]).
        apply Forall2_app; [by apply (ents_at_same (s_entt s))|]. constructor; [by apply V'|constructor].
      * apply (Permutation_app_comm (p0 :: ps) [t]).
      * intros x X. apply Fr; [|intros ->; apply X; by left]. intros Y. apply X. by right.
Qed.

(** ** The best gap *)

(** Sorted, disjoint entries within [lo, hi). *)
Fixpoint ents_ok (lo hi : Z) (es : list aent) : Prop :=
  match es with
  | [] => lo <= hi
  | e :: es => lo <= ae_start e /\ ae_start e <= ae_end e /\ ents_ok (ae_end e) hi es
  end.

(** The aligned gaps before, between and behind the entries: start and size. *)
Fixpoint gaps (a lo hi : Z) (es : list aent) : list (Z * Z) :=
  match es with
  | [] => [(round_up a lo, hi - round_up a lo)]
  | e :: es => (round_up a lo, ae_start e - round_up a lo) :: gaps a (ae_end e) hi es
  end.

(** The better of two candidates; the earlier one of equals. *)
Definition better (sz : Z) (b : option (Z * Z)) (g : Z * Z) : option (Z * Z) :=
  if sz <=? g.2 then
    match b with
    | Some b => if g.2 <? b.2 then Some g else Some b
    | None => Some g
    end
  else b.

(** The smallest gap of at least [sz] bytes, the first of them. *)
Definition best_gap (sz : Z) (gs : list (Z * Z)) : option (Z * Z) := fold_left (better sz) gs None.

Lemma best_gap_fold sz gs b :
  (forall g, b = Some g -> sz <= g.2) ->
  match fold_left (better sz) gs b with
  | Some g => (b = Some g \/ g ∈ gs) /\ sz <= g.2 /\
      (forall g', b = Some g' \/ g' ∈ gs -> sz <= g'.2 -> g.2 <= g'.2)
  | None => b = None /\ forall g, g ∈ gs -> g.2 < sz
  end.
Proof.
  revert b. induction gs as [|g gs IH]; intros b Hb; cbn [fold_left].
  { destruct b as [b|]; [|split; [done|by intros ? ?%elem_of_nil]].
    split_and!; [by left|by apply Hb|]. intros g' [[= ->]|?%elem_of_nil]; [lia|done]. }
  set (b1 := better sz b g).
  assert (Hb1 : forall x, b1 = Some x -> sz <= x.2).
  { unfold b1, better. intros x. destruct (Z.leb_spec sz g.2); [|by apply Hb].
    destruct b as [b|]; [destruct (g.2 <? b.2)|]; intros [= <-]; auto. }
  specialize (IH b1 Hb1). destruct (fold_left _ gs b1) as [r|].
  - destruct IH as (I & S & M). split_and!; [|done|].
    + destruct I as [I|I]; [|by right; right]. unfold b1, better in I.
      destruct (sz <=? g.2); [|by left]. destruct b as [b|]; [destruct (g.2 <? b.2)|];
        injection I as <-; (by left) || (right; by left).
    + intros g' G' Sg'. unfold b1, better in M. destruct (Z.leb_spec sz g.2) as [L|L].
      * destruct b as [b|].
        -- destruct (Z.ltb_spec g.2 b.2); destruct G' as [[= ->]|[-> |G']%elem_of_cons];
             try (by apply M; [by right|]); try (by apply M; [by left|]);
             etrans; [by apply M; [by left|lia]|lia|by apply M; [by left|apply Hb]|lia].
        -- destruct G' as [?|[-> |G']%elem_of_cons]; [done|apply M; [by left|done]|apply M; [by right|done]].
      * destruct G' as [->|[-> |G']%elem_of_cons]; [apply M; [by left|done]|lia|apply M; [by right|done]].
  - destruct IH as [I F]. unfold b1, better in I. destruct (Z.leb_spec sz g.2).
    + destruct b as [b|]; [destruct (g.2 <? b.2)|]; done.
    + split; [done|]. intros g' [-> |G']%elem_of_cons; [done|by apply F].
Qed.

Lemma best_gap_spec sz gs :
  match best_gap sz gs with
  | Some g => g ∈ gs /\ sz <= g.2 /\ forall g', g' ∈ gs -> sz <= g'.2 -> g.2 <= g'.2
  | None => forall g, g ∈ gs -> g.2 < sz
  end.
Proof.
  pose proof (best_gap_fold sz gs None ltac:(done)) as F. unfold best_gap.
  destruct (fold_left _ gs None) as [g|].
  - destruct F as ([?|I] & S & M); [done|]. split_and!; auto.
  - apply F.
Qed.

(** The end of the last entry. *)
Fixpoint last_end (lo : Z) (es : list aent) : Z :=
  match es with
  | [] => lo
  | e :: es => last_end (ae_end e) es
  end.

Lemma ents_ok_le lo hi es : ents_ok lo hi es -> lo <= last_end lo es <= hi.
Proof.
  revert lo. induction es as [|e es IH]; intros lo; cbn; [lia|]. intros (? & ? & O). specialize (IH _ O). lia.
Qed.

Section fit.
  Context `{Target} (k : Z) (K : 0 <= k < 32).
Let a := 2 ^ k.

(** The relation of the local variables of the loop to the best gap so far. *)
Definition best_is (sz : Z) (b : best) (g : option (Z * Z)) : Prop :=
  match g with
  | Some g => b_start b = g.1 /\ b_sz b = g.2 /\ 0 <= g.1 < addr_max /\ sz <= g.2 < addr_max
  | None => b_sz b = addr_max /\ b_start b = addr_max
  end.

Lemma best_update_is sz b g start size :
  0 <= sz -> best_is sz b g -> 0 <= start < addr_max -> 0 <= size < addr_max ->
  best_is sz (best_update size start sz b) (better sz g (start, size)).
Proof.
  intros S B St Sz. unfold best_update, best_is, better in *. cbn [fst snd].
  destruct (Z.leb_spec sz size), g as [[gs gz]|], (Z.ltb_spec size (b_sz b)); cbn in *; try lia.
  - destruct (Z.ltb_spec size gz); cbn; lia.
  - destruct (Z.ltb_spec size gz); cbn; lia.
Qed.

(** The range a map covers and the alignment make the arithmetic of the search
    exact: addresses below 4 GiB, aligned bounds, aligned starts of entries. *)
Definition fit_ok (lo hi : Z) (es : list aent) : Prop :=
  0 <= lo /\ hi + a <= 2 ^ 32 /\ hi < addr_max /\ (a | hi) /\ ents_ok lo hi es /\
  Forall (fun e => (a | ae_start e)) es.

Lemma align_a x : 0 <= x -> x + a <= 2 ^ 32 -> align_addr32 x a = round_up a x.
Proof. apply align_addr32_spec, K. Qed.

Lemma a_pos : 0 < a.
Proof. apply Z.pow_pos_nonneg; lia. Qed.

(** The gaps in front of the entries. *)
Fixpoint gaps_in (lo : Z) (es : list aent) : list (Z * Z) :=
  match es with
  | [] => []
  | e :: es => (round_up a lo, ae_start e - round_up a lo) :: gaps_in (ae_end e) es
  end.

Lemma gaps_split lo hi es :
  gaps a lo hi es = gaps_in lo es ++ [(round_up a (last_end lo es), hi - round_up a (last_end lo es))].
Proof. revert lo. induction es as [|e es IH]; intros lo; [done|]. cbn. by rewrite IH. Qed.

Lemma bestFit_step_is sz b g lo hi e es n :
  fit_ok lo hi (view n :: es) -> view n = e -> 0 <= sz -> b_temp b = round_up a lo -> best_is sz b g ->
  fit_ok (ae_end e) hi es /\ b_temp (bestFit_step sz a b n) = round_up a (ae_end e) /\
  best_is sz (bestFit_step sz a b n) (better sz g (round_up a lo, ae_start e - round_up a lo)).
Proof.
  intros (L & H1 & H2 & D & (O1 & O2 & O) & F) V S T B. apply Forall_cons in F as [Fe F].
  pose proof a_pos as A. pose proof addr_bits_ge32. subst e. cbn [ae_start ae_end view] in *.
  pose proof (ents_ok_le _ _ _ O). destruct (round_up_spec a lo A) as [U _].
  pose proof (round_up_le a lo (e_start n) A O1 Fe).
  split; [split_and!; try done; lia|]. unfold bestFit_step. cbn [b_temp].
  split; [apply align_a; lia|].
  rewrite T. assert (G : wa (e_start n - round_up a lo) = e_start n - round_up a lo)
    by (apply wa_small; unfold addr_max in *; lia).
  rewrite G. set (b1 := if negb _ then _ else b).
  assert (b1 = best_update (e_start n - round_up a lo) (round_up a lo) sz b) as ->.
  { unfold b1, best_update. destruct (Z.leb_spec sz (e_start n - round_up a lo)).
    - assert (wa (round_up a lo + sz) <= round_up a lo + sz)
        by (unfold wa; apply Z.mod_le; [lia|target_cases; lia]).
      destruct (Z.ltb_spec (e_start n) (wa (round_up a lo + sz))); [lia|done].
    - rewrite andb_false_r. by destruct (negb _). }
  assert (E : forall x, best_is sz (mk_best (b_sz x) (b_start x) (align_addr32 (e_end n) a)) =
    best_is sz x) by done.
  rewrite E. apply best_update_is; [done|done|lia|lia].
Qed.

Lemma bestFit_fold h sz ps es lo hi b g :
  ents_at h ps es -> fit_ok lo hi es -> 0 <= sz -> b_temp b = round_up a lo -> best_is sz b g ->
  best_is sz (fold_nodes h (bestFit_step sz a) ps b) (fold_left (better sz) (gaps_in lo es) g).
Proof.
  revert es lo b g. induction ps as [|p ps IH]; intros es lo b g E F S T B.
  - by apply Forall2_nil_inv_l in E as ->.
  - destruct es as [|e es]; [by inversion E|]. destruct (ents_at_Some _ _ _ _ _ E) as (n & En & V & E').
    rewrite <- V in F. destruct (bestFit_step_is sz b g lo hi e es n F V S T B) as (F' & T' & B').
    unfold fold_nodes. cbn [fold_left gaps_in]. rewrite En. by apply (IH es (ae_end e)).
Qed.

(** The previous node of the head is the last entry. *)
Lemma ents_at_last h p ps es lo :
  cring h (p :: ps) -> ents_at h (p :: ps) es ->
  exists first last, h !! p = Some first /\ h !! e_prev first = Some last /\ e_end last = last_end lo es.
Proof.
  intros C E. destruct (exists_last (l := p :: ps)) as (l0 & q & Eq); [done|].
  assert (Pv : pv h p = Some q).
  { rewrite Eq in C. apply (cring_ends h l0 q p); [done|]. by rewrite <- Eq. }
  destruct (pv_lookup _ _ _ Pv) as (first & Ef & Lf). cbn in Lf. exists first.
  rewrite Eq in E. apply Forall2_app_inv_l in E as (es0 & es1 & _ & E1 & ->).
  destruct es1 as [|e es1]; [by inversion E1|]. destruct (ents_at_Some _ _ _ _ _ E1) as (last & El & V & E2).
  apply Forall2_nil_inv_l in E2 as ->. exists last. rewrite Lf. split_and!; [done|done|].
  assert (L : forall lo, last_end lo (es0 ++ [e]) = ae_end e)
    by (induction es0 as [|x es0 IH]; intros; cbn; auto).
  rewrite L, <- V. done.
Qed.

(** [syspage_bestFit] computes the best gap of a map with entries; in a map
    without entries it answers the aligned start. *)
Lemma syspage_bestFit_spec s m ps es sz :
  clist (s_entt s) (m_entries m) ps -> ents_at (s_entt s) ps es -> fit_ok (m_start m) (m_end m) es ->
  0 <= sz ->
  syspage_bestFit m sz a s =
    Some (match es with
          | [] => Some (round_up a (m_start m))
          | _ => fst <$> best_gap sz (gaps a (m_start m) (m_end m) es)
          end).
Proof.
  intros C E F S. pose proof F as (L & H1 & H2 & D & O & _). pose proof a_pos as A.
  pose proof (ents_ok_le _ _ _ O). unfold syspage_bestFit.
  rewrite align_a by lia. destruct ps as [|p ps].
  - apply Forall2_nil_inv_l in E as ->. cbn in C. by rewrite C.
  - destruct C as [C0 C]. rewrite C0. assert (p <> NULL)
      by (intros ->; destruct C as (_ & _ & NN); apply NN; by left).
    destruct (Z.eqb_spec p NULL); [done|].
    rewrite (ring_fold_spec _ _ _ _ _ C). cbn [mbind option_bind].
    set (b0 := mk_best addr_max addr_max (round_up a (m_start m))).
    pose proof (bestFit_fold (s_entt s) sz (p :: ps) es (m_start m) (m_end m) b0 None E F S eq_refl
      ltac:(done)) as B.
    set (b := fold_nodes _ _ _ b0) in *.
    destruct (ents_at_last (s_entt s) p ps es (m_start m) C E) as (first & last & -> & El & Ee).
    cbn [mbind option_bind]. rewrite El. cbn [mbind option_bind].
    rewrite Ee, align_a by lia.
    set (tmp := round_up a (last_end (m_start m) es)) in *.
    destruct (round_up_spec a (last_end (m_start m) es) A) as [U _]. fold tmp in U.
    pose proof (round_up_le a (last_end (m_start m) es) (m_end m) A ltac:(lia) D) as U'.
    fold tmp in U'.
    pose proof addr_bits_ge32.
    rewrite wa_small by (unfold addr_max in *; lia).
    assert (B' : best_is sz (best_update (m_end m - tmp) tmp sz b)
      (best_gap sz (gaps a (m_start m) (m_end m) es))).
    { unfold best_gap. rewrite gaps_split, fold_left_app. cbn [fold_left]. fold tmp.
      apply best_update_is; [done|done|lia|lia]. }
    destruct es as [|e es]; [by inversion E|]. cbn iota.
    set (b1 := best_update _ _ _ _) in *. unfold best_is in B'.
    destruct (best_gap sz _) as [[gs gz]|]; cbn [fst snd fmap option_fmap option_map] in *.
    + destruct B' as (-> & -> & ? & ?). destruct (Z.eqb_spec gz addr_max), (Z.eqb_spec gs addr_max); done || lia.
    + destruct B' as [-> ->]. by rewrite Z.eqb_refl.
Qed.

End fit.

(** ** Insertion of a range that is free *)

(** The test of the code: the range and the entry have a common byte. *)
Definition apart (st sz : Z) (e : aent) : Prop := ~ (ae_start e < st + sz /\ st < ae_end e).

Lemma insert_sorted_ok lo hi es st sz ty :
  ents_ok lo hi es -> lo <= st -> st + sz <= hi -> 0 < sz -> Forall (apart st sz) es ->
  ents_ok lo hi (insert_sorted (mk_aent st (st + sz) ty) es).
Proof.
  intros O L R S. revert lo O L. induction es as [|e es IH]; intros lo O L F; cbn [insert_sorted ae_start].
  - cbn. lia.
  - apply Forall_cons in F as [Fe F]. destruct O as (O1 & O2 & O3). unfold apart in Fe.
    destruct (Z.ltb_spec st (ae_start e)); cbn; [split_and!; done || lia|].
    split_and!; [done|done|]. apply IH; [done|lia|done].
Qed.

Lemma Forall_insert_sorted (P : aent -> Prop) a es : P a -> Forall P es -> Forall P (insert_sorted a es).
Proof.
  intros Pa. induction 1 as [|e es Pe F IH]; cbn; [by repeat constructor|].
  destruct (_ <? _); by repeat constructor.
Qed.

(** A gap is aligned, within the map and free. *)
Lemma gaps_free a lo hi es g sz :
  0 < a -> ents_ok lo hi es -> Forall (fun e => (a | ae_start e)) es -> (a | hi) ->
  g ∈ gaps a lo hi es -> sz <= g.2 ->
  (a | g.1) /\ lo <= g.1 /\ g.1 + sz <= hi /\ Forall (apart g.1 sz) es.
Proof.
  intros A O F D. revert lo O. induction es as [|e es IH]; intros lo O G S; cbn [gaps] in G.
  - apply list_elem_of_singleton in G as ->. cbn in *. destruct (round_up_spec a lo A).
    split_and!; done || lia.
  - destruct O as (O1 & O2 & O3). apply Forall_cons in F as [Fe F]. pose proof (ents_ok_le _ _ _ O3).
    destruct (round_up_spec a lo A) as [U Du]. apply elem_of_cons in G as [-> |G].
    + cbn [fst snd] in *. split_and!; [done|lia|lia|]. constructor; [unfold apart; lia|].
      clear - O2 O3 S. remember (ae_end e) as e2 eqn:Ee. assert (ae_start e <= e2) by lia. clear Ee O2.
      revert e2 O3 H. induction es as [|x es IH]; intros e2 O3 L; [constructor|].
      destruct O3 as (X1 & X2 & X3). constructor; [unfold apart; lia|]. apply (IH (ae_end x)); [done|lia].
    + destruct (IH F (ae_end e) O3 G S) as (I1 & I2 & I3 & I4). split_and!; [done|lia|done|].
      constructor; [unfold apart; lia|done].
Qed.

(** ** The state and the maps it stands for *)

Record amap := mk_amap {
  a_ptr : Z; a_name : cstr; a_start : Z; a_end : Z; a_attr : Z; a_id : Z;
  a_eptrs : list Z; a_ents : list aent
}.

Section state.
  Context `{Target} `{SyspageTypes}.

Definition map_at (s : syspage) (am : amap) : Prop :=
  exists m, s_mapt s !! a_ptr am = Some m /\ m_start m = a_start am /\ m_end m = a_end am /\
    m_attr m = a_attr am /\ m_id m = a_id am /\ s_strt s !! m_name m = Some (a_name am) /\
    clist (s_entt s) (m_entries m) (a_eptrs am) /\ ents_at (s_entt s) (a_eptrs am) (a_ents am).

(** The heap grows upwards; every record lies below its top. *)
Definition heap_ok (s : syspage) : Prop :=
  0 < s_base s <= s_heapTop s /\ s_heapTop s < s_heapEnd s /\ s_heapEnd s + 2 ^ 17 <= 2 ^ addr_bits /\
  (8 | s_heapTop s) /\
  (forall p, p ∈ dom (s_mapt s) \/ p ∈ dom (s_entt s) \/ p ∈ dom (s_progt s) \/ p ∈ dom (s_strt s) ->
    0 < p < s_heapTop s).

(** The maps [ms], in the order of the ring; no entry belongs to two maps. *)
Definition sys_at (s : syspage) (ms : list amap) : Prop :=
  clist (s_mapt s) (s_maps s) (a_ptr <$> ms) /\ Forall (map_at s) ms /\
  NoDup (concat (a_eptrs <$> ms)) /\ heap_ok s.

(** [syspage_alloc]: NULL, or the old top, aligned, and a heap that grew. *)
Lemma syspage_alloc_spec n s :
  heap_ok s -> 0 < n <= 2 ^ 16 ->
  (exists top, syspage_alloc n s = (s_heapTop s, set_heap (top - s_base s) top s) /\
     s_heapTop s + n <= top < s_heapTop s + n + 8 /\ heap_ok (set_heap (top - s_base s) top s)) \/
  (syspage_alloc n s = (NULL, s) /\ s_heapEnd s <= s_heapTop s + n + 8).
Proof.
  intros (B & T & E & D & P) N. unfold syspage_alloc, sizeof_long_long. cbv zeta.
  rewrite wa_small by lia. change 8 with (2 ^ 3). rewrite align_addr_spec by lia.
  destruct (round_up_spec (2 ^ 3) (s_heapTop s + n) ltac:(lia)) as [U Du].
  set (top := round_up _ _) in *. change (2 ^ 3) with 8 in U. destruct (Z.leb_spec (s_heapEnd s) top).
  - right. split; [done|lia].
  - left. exists top. rewrite wa_small by lia. split; [done|]. split; [lia|].
    unfold heap_ok. cbn. split_and!; try done; try lia. intros p X. specialize (P p X). lia.
Qed.

Lemma heap_fresh s : heap_ok s ->
  s_heapTop s ∉ dom (s_mapt s) /\ s_heapTop s ∉ dom (s_entt s) /\ s_heapTop s ∉ dom (s_progt s) /\
  s_heapTop s ∉ dom (s_strt s) /\ s_heapTop s <> NULL.
Proof.
  intros (B & _ & _ & _ & P). split_and!; [intros X..|unfold NULL; lia];
    match type of X with ?q ∈ _ => enough (0 < q < q) by lia; apply P; tauto end.
Qed.

(** A query along the maps. *)
Lemma maps_find_spec {B} (f : Z -> smap -> option B) (g : amap -> option B) s ms :
  sys_at s ms ->
  (forall am m, map_at s am -> s_mapt s !! a_ptr am = Some m -> am ∈ ms -> f (a_ptr am) m = g am) ->
  maps_find f s = Some (head (omap g ms)).
Proof.
  intros (C & M & _ & _) E. unfold maps_find.
  assert (F : find_nodes (s_mapt s) f (a_ptr <$> ms) = head (omap g ms)).
  { clear C. induction M as [|am ms Ma M IH]; [done|]. cbn [fmap list_fmap find_nodes omap list_omap].
    pose proof Ma as (m & Em & _). rewrite Em, (E am m Ma Em) by (by left).
    destruct (g am); [done|]. apply IH. intros am' m' X Y Z'. apply (E am' m'); [done|done|by right]. }
  destruct ms as [|am ms]; cbn [fmap list_fmap] in C, F.
  - cbn in C. by rewrite C.
  - destruct C as [C0 C]. rewrite C0. assert (a_ptr am <> NULL)
      by (intros X; rewrite X in C; destruct C as (_ & _ & NN); apply NN; by left).
    destruct (Z.eqb_spec (a_ptr am) NULL); [done|]. rewrite (ring_find_spec _ _ _ _ C). by rewrite F.
Qed.

Definition named (name : cstr) (am : amap) : bool := bool_decide (a_name am = name).

Lemma syspage_mapGet_spec s ms name :
  sys_at s ms -> cstr_ok name -> Forall (fun am => cstr_ok (a_name am)) ms ->
  syspage_mapGet name s = Some (head (omap (fun am => if named name am then Some (a_ptr am) else None) ms)).
Proof.
  intros S N F. apply (maps_find_spec _ (fun am => if named name am then Some (a_ptr am) else None) s ms S).
  intros am m (m' & Em' & _ & _ & _ & _ & St & _) Em I. rewrite Em in Em'. injection Em' as <-.
  rewrite St. cbn [default from_option id]. unfold named.
  rewrite Forall_forall in F. pose proof (hal_strcmp_eq name (a_name am) N (F am I)) as Q.
  destruct (Z.eqb_spec (hal_strcmp name (a_name am)) 0), (bool_decide_reflect (a_name am = name));
    naive_solver.
Qed.

Lemma exists_last_or_nil {A} (l : list A) : l = [] \/ exists l0 x, l = l0 ++ [x].
Proof.
  destruct l as [|y l]; [by left|right]. destruct (exists_last (l := y :: l)) as (l0 & x & ->); [done|].
  by exists l0, x.
Qed.

(** *** Entries of one map *)

Lemma concat_insert_perm (L : list (list Z)) i l l' t :
  L !! i = Some l -> l' ≡ₚ t :: l -> concat (<[i := l']> L) ≡ₚ t :: concat L.
Proof.
  revert i. induction L as [|x L IH]; intros [|i] E P; cbn in *; try done.
  - injection E as ->. by rewrite P.
  - change (list_insert i l' L) with (<[i := l']> L). rewrite (IH i E P). symmetry. apply Permutation_middle.
Qed.

(** Two maps of a state have different addresses and no entry in common. *)
Lemma sys_at_distinct s ms i j am am' :
  sys_at s ms -> ms !! i = Some am -> ms !! j = Some am' -> i <> j ->
  a_ptr am <> a_ptr am' /\ forall x, x ∈ a_eptrs am -> x ∉ a_eptrs am'.
Proof.
  intros (C & _ & ND & _) Ei Ej N. split.
  - intros E. apply N. assert (ND' : NoDup (a_ptr <$> ms)) by (exact (clist_NoDup _ _ _ C)).
    eapply (NoDup_lookup (a_ptr <$> ms)); [done|by rewrite list_lookup_fmap, Ei|].
    by rewrite list_lookup_fmap, Ej, E.
  - intros x X X'. clear C.
    assert (D : forall L (a b : nat) la lb, NoDup (concat L) -> L !! a = Some la -> L !! b = Some lb ->
      a <> b -> x ∈ la -> x ∈ lb -> False).
    { intros L. induction L as [|l L IH]; intros a b la lb NDL Ea Eb Nab Xa Xb; [done|].
      cbn in NDL. apply NoDup_app in NDL as (NDl & Dis & NDL).
      assert (In : forall c lc, L !! c = Some lc -> x ∈ lc -> x ∈ concat L).
      { intros c lc Ec Xc. apply list_elem_of_In, in_concat. exists lc.
        split; apply list_elem_of_In; [by apply (list_elem_of_lookup_2 _ c)|done]. }
      destruct a as [|a], b as [|b]; cbn in Ea, Eb; simplify_eq.
      - exact (Dis x Xa (In b lb Eb Xb)).
      - exact (Dis x Xb (In a la Ea Xa)).
      - apply (IH a b la lb); auto. }
    apply (D (a_eptrs <$> ms) i j (a_eptrs am) (a_eptrs am')); try done;
      by rewrite list_lookup_fmap, ?Ei, ?Ej.
Qed.

Lemma sys_at_lookup s ms i am : sys_at s ms -> ms !! i = Some am -> map_at s am.
Proof. intros (_ & M & _ & _) E. rewrite Forall_lookup in M. by apply (M i). Qed.

Lemma eptrs_dom s ms i am x : sys_at s ms -> ms !! i = Some am -> x ∈ a_eptrs am -> x ∈ dom (s_entt s).
Proof.
  intros S E X. destruct (sys_at_lookup s ms i am S E) as (m & _ & _ & _ & _ & _ & _ & C & _).
  destruct (a_eptrs am) as [|p ps]; [by apply elem_of_nil in X|]. destruct C as [_ C].
  by apply (cring_dom _ (p :: ps)).
Qed.

Lemma nx_insert_ne {A} `{!LinkFields A} (h : gmap Z A) t n x :
  x <> t -> nx (<[t := n]> h) x = nx h x /\ pv (<[t := n]> h) x = pv h x.
Proof. intros N. unfold nx, pv. by rewrite lookup_insert_ne. Qed.

(** An allocation and a new record do not disturb the maps. *)
Definition with_entry (top t : Z) (e : mapent) (s : syspage) : syspage :=
  set_entt (<[t := e]> (s_entt s)) (set_heap (top - s_base s) top s).

Lemma ents_at_insert_ne h t e ps es :
  t ∉ ps -> ents_at h ps es -> ents_at (<[t := e]> h) ps es.
Proof.
  intros N E. induction E as [|p a ps es Ep E IH]; constructor.
  - rewrite lookup_insert_ne; [done|]. intros ->. apply N. by left.
  - apply IH. intros X. apply N. by right.
Qed.

Lemma sys_at_with_entry s ms top e :
  sys_at s ms -> heap_ok (set_heap (top - s_base s) top s) -> s_heapTop s < top ->
  sys_at (with_entry top (s_heapTop s) e s) ms.
Proof.
  intros S Hk T. pose proof S as (C & M & ND & Hs). destruct (heap_fresh s Hs) as (_ & Fe & _ & _ & Nz).
  split_and!; [done| |done|].
  - rewrite Forall_lookup. intros i am Ei.
    destruct (sys_at_lookup s ms i am S Ei) as (m & Em & ? & ? & ? & ? & ? & Ce & Ee).
    exists m. cbn. assert (Ft : s_heapTop s ∉ a_eptrs am)
      by (intros X; apply Fe; by eapply eptrs_dom).
    split_and!; try done; [|by apply ents_at_insert_ne].
    apply (clist_ext (s_entt s)); [done|]. intros x X. apply nx_insert_ne. by intros ->.
  - destruct Hs as (B0 & _), Hk as (B & T1 & T2 & D & P). unfold heap_ok. cbn in *.
    split_and!; try done; try lia.
    intros p X. rewrite dom_insert_L in X.
    destruct (decide (p = s_heapTop s)) as [-> |]; [lia|]. apply P. set_solver.
Qed.

Lemma nx_insert_links {A} `{!LinkFields A} (h : gmap Z A) p n n' x :
  h !! p = Some n -> lnext n' = lnext n -> lprev n' = lprev n ->
  nx (<[p := n']> h) x = nx h x /\ pv (<[p := n']> h) x = pv h x.
Proof.
  intros E L P. destruct (decide (x = p)) as [-> |]; [|by apply nx_insert_ne].
  unfold nx, pv. rewrite lookup_insert_eq, E. cbn. by rewrite L, P.
Qed.

Definition with_ents (ps : list Z) (es : list aent) (am : amap) : amap :=
  mk_amap (a_ptr am) (a_name am) (a_start am) (a_end am) (a_attr am) (a_id am) ps es.

(** A sorted insertion into one map of the state. *)
Lemma sys_sortedInsert s ms i am t a :
  sys_at s ms -> ms !! i = Some am -> view <$> s_entt s !! t = Some a -> t <> NULL ->
  t ∉ concat (a_eptrs <$> ms) ->
  exists s' ps', syspage_sortedInsert (a_ptr am) t s = Some s' /\
    sys_at s' (<[i := with_ents ps' (insert_sorted a (a_ents am)) am]> ms) /\
    view <$> s_entt s' !! t = Some a /\ ps' ≡ₚ t :: a_eptrs am /\
    s_heapTop s' = s_heapTop s /\ s_heapEnd s' = s_heapEnd s /\ s_maps s' = s_maps s /\
    s_progs s' = s_progs s /\ s_progt s' = s_progt s /\ s_strt s' = s_strt s /\ s_base s' = s_base s.
Proof.
  intros S Ei V Nz Nt. pose proof S as (C & M & ND & Hk).
  destruct (sys_at_lookup s ms i am S Ei) as (m & Em & ? & ? & ? & ? & ? & Ce & Ee).
  assert (Ni : t ∉ a_eptrs am).
  { intros X. apply Nt, list_elem_of_In, in_concat. exists (a_eptrs am).
    split; apply list_elem_of_In; [|done]. eapply list_elem_of_lookup_2.
    by rewrite list_lookup_fmap, Ei. }
  destruct (syspage_sortedInsert_spec (a_ptr am) t s m _ _ a Em Ce Ee V Ni Nz)
    as (h' & p' & ps' & E & Sn & C' & E' & Pm & Fr).
  eexists _, ps'. split; [exact E|]. split_and!; try done;
    [|cbn; by rewrite (same_nodes_view (s_entt s))].
  split_and!.
  - cbn. rewrite list_fmap_insert. cbn. rewrite list_insert_id by (by rewrite list_lookup_fmap, Ei).
    apply (clist_ext (s_mapt s)); [done|]. intros x _. by apply (nx_insert_links _ _ m).
  - rewrite Forall_lookup. intros j am' Ej. destruct (decide (i = j)) as [<- |Nij].
    + rewrite list_lookup_insert_eq in Ej by (by eapply lookup_lt_Some). injection Ej as <-.
      exists (set_entries p' m). cbn. rewrite lookup_insert_eq. by split_and!.
    + rewrite list_lookup_insert_ne in Ej by done.
      destruct (sys_at_lookup s ms j am' S Ej) as (m' & Em' & ? & ? & ? & ? & ? & Ce' & Ee').
      destruct (sys_at_distinct s ms i j am am' S Ei Ej Nij) as [Np Nx].
      exists m'. cbn. rewrite lookup_insert_ne by done. split_and!; try done;
        [|by apply (ents_at_same (s_entt s))].
      apply (clist_ext (s_entt s)); [done|]. intros x X. apply Fr.
      intros [-> |Xi]%elem_of_cons; [|by apply (Nx x)].
      apply Nt, list_elem_of_In, in_concat. exists (a_eptrs am'). split; apply list_elem_of_In; [|done].
      eapply list_elem_of_lookup_2. by rewrite list_lookup_fmap, Ej.
  - rewrite list_fmap_insert. cbn. rewrite (concat_insert_perm _ i (a_eptrs am) ps' t); [|by rewrite list_lookup_fmap, Ei|done].
    by constructor.
  - destruct Hk as (B & T1 & T2 & D & P). unfold heap_ok. cbn. split_and!; try done; try lia.
    intros p X. apply P. destruct Sn as [_ Dn]. rewrite Dn, dom_insert_L in X.
    apply elem_of_dom_2 in Em. set_solver.
Qed.

(** *** [syspage_entryAdd] *)

Lemma head_omap_first {A B} (g : A -> option B) l i x b :
  l !! i = Some x -> g x = Some b ->
  (forall j y, (j < i)%nat -> l !! j = Some y -> g y = None) -> head (omap g l) = Some b.
Proof.
  revert i. induction l as [|y l IH]; intros i E G N; [done|].
  destruct i as [|i]; cbn in E |- *.
  - injection E as ->. by rewrite G.
  - rewrite (N 0%nat y) by (done || lia). apply (IH i); [done|done|].
    intros j z J. apply (N (S j)). lia.
Qed.

(** The name of the map [i] is its own. *)
Definition name_at (ms : list amap) (i : nat) (name : cstr) : Prop :=
  forall j am, ms !! j = Some am -> a_name am = name -> j = i.

Lemma syspage_mapGet_at s ms i am :
  sys_at s ms -> Forall (fun am => cstr_ok (a_name am)) ms -> ms !! i = Some am ->
  name_at ms i (a_name am) -> syspage_mapGet (a_name am) s = Some (Some (a_ptr am)).
Proof.
  intros S F E N. assert (cstr_ok (a_name am)) by (rewrite Forall_lookup in F; by apply (F i)).
  rewrite (syspage_mapGet_spec s ms) by done. f_equal.
  apply (head_omap_first _ ms i am); [done|unfold named; by rewrite bool_decide_true|].
  intros j am' J Ej. unfold named. rewrite bool_decide_false; [done|]. intros Q.
  pose proof (N j am' Ej Q). lia.
Qed.

(** The record of the new entry, or none when the heap is full. *)
Lemma sys_entry_new s ms i am st en ty :
  sys_at s ms -> ms !! i = Some am ->
  let '(new, s1) := syspage_alloc sizeof_mapent s in
  (new = NULL /\ s1 = s /\ s_heapEnd s <= s_heapTop s + sizeof_mapent + 8) \/
  (new <> NULL /\ exists s' ps',
    syspage_sortedInsert (a_ptr am) new
      (set_entt (<[new := mk_mapent NULL NULL st en ty]> (s_entt s1)) s1) = Some s' /\
    sys_at s' (<[i := with_ents ps' (insert_sorted (mk_aent st en ty) (a_ents am)) am]> ms) /\
    view <$> s_entt s' !! new = Some (mk_aent st en ty) /\
    new = s_heapTop s /\ s_heapTop s < s_heapTop s' < s_heapTop s + sizeof_mapent + 8 /\ s_heapEnd s' = s_heapEnd s /\
    s_maps s' = s_maps s /\ s_progs s' = s_progs s /\ s_progt s' = s_progt s /\ s_strt s' = s_strt s).
Proof.
  intros S E. pose proof S as (_ & _ & _ & Hk). pose proof sizeof_pos as (_ & _ & P & _).
  destruct (heap_fresh s Hk) as (_ & Fe & _ & _ & Nz).
  assert (Hn : 0 < sizeof_mapent <= 2 ^ 16) by lia.
  destruct (syspage_alloc_spec sizeof_mapent s Hk Hn) as [(top & -> & T & Hk')|[-> Full]];
    [right|by left]. split; [done|].
  set (e := mk_mapent NULL NULL st en ty).
  assert (S2 : sys_at (with_entry top (s_heapTop s) e s) ms) by (apply sys_at_with_entry; done || lia).
  destruct (sys_sortedInsert _ ms i am (s_heapTop s) (mk_aent st en ty) S2 E)
    as (s' & ps' & Es & S' & V & _ & Ht & He & Hm & Hp & Hpt & Hst & _).
  - cbn. by rewrite lookup_insert_eq.
  - done.
  - intros X. apply list_elem_of_In, in_concat in X as (ps & Ip & X). apply list_elem_of_In in Ip, X.
    apply list_elem_of_fmap in Ip as (am' & -> & I). apply list_elem_of_lookup_1 in I as (j & Ej).
    apply Fe. by eapply eptrs_dom.
  - exists s', ps'. rewrite Ht. split; [exact Es|]. cbn in He, Hm, Hp, Hpt, Hst |- *.
    split_and!; done || lia.
Qed.

Lemma fit_ok_insert k lo hi es st sz ty :
  0 <= k < 32 -> fit_ok k lo hi es -> (2 ^ k | st) -> lo <= st -> st + sz <= hi -> 0 < sz ->
  Forall (apart st sz) es -> fit_ok k lo hi (insert_sorted (mk_aent st (st + sz) ty) es).
Proof.
  intros K (L & H1 & H2 & D & O & F) Ds Ls Rs S Ap. split_and!; try done.
  - by apply insert_sorted_ok.
  - by apply Forall_insert_sorted.
Qed.

(** The place of the best fit is free. *)
Lemma best_fit_place k am sz st :
  0 <= k < 32 -> fit_ok k (a_start am) (a_end am) (a_ents am) -> 0 < sz ->
  (a_ents am = [] -> round_up (2 ^ k) (a_start am) + sz <= a_end am) ->
  match a_ents am with
  | [] => Some (round_up (2 ^ k) (a_start am))
  | _ => fst <$> best_gap sz (gaps (2 ^ k) (a_start am) (a_end am) (a_ents am))
  end = Some st ->
  (2 ^ k | st) /\ a_start am <= st /\ st + sz <= a_end am /\ Forall (apart st sz) (a_ents am).
Proof.
  intros K (L & H1 & H2 & D & O & F) S N E. assert (A : 0 < 2 ^ k) by (apply Z.pow_pos_nonneg; lia).
  destruct (a_ents am) as [|e es] eqn:Ees.
  - injection E as <-. destruct (round_up_spec (2 ^ k) (a_start am) A). specialize (N eq_refl).
    split_and!; try done; lia.
  - rewrite <- Ees in *. pose proof (best_gap_spec sz (gaps (2 ^ k) (a_start am) (a_end am) (a_ents am))) as B.
    destruct (best_gap sz _) as [g|]; [|done]. injection E as <-. destruct B as (G & Sg & _).
    by apply gaps_free.
Qed.

(** An allocation in a named map; the programs are as before. *)
Lemma syspage_entryAdd_in_map s ms i am k sz :
  0 <= k < 32 -> sys_at s ms -> Forall (fun am => cstr_ok (a_name am)) ms -> ms !! i = Some am ->
  name_at ms i (a_name am) -> 0 < sz -> fit_ok k (a_start am) (a_end am) (a_ents am) ->
  (a_ents am = [] -> round_up (2 ^ k) (a_start am) + sz <= a_end am) ->
  let gs := gaps (2 ^ k) (a_start am) (a_end am) (a_ents am) in
  exists r s', syspage_entryAdd (Some (a_name am)) addr_max sz (2 ^ k) s = Some (r, s') /\
    ((r = NULL /\ s' = s /\
       (s_heapEnd s <= s_heapTop s + sizeof_mapent + 8 \/
        a_ents am <> [] /\ forall g, g ∈ gs -> g.2 < sz)) \/
     (exists st ps, r <> NULL /\
       view <$> s_entt s' !! r = Some (mk_aent st (st + sz) hal_entryAllocated) /\
       (2 ^ k | st) /\ a_start am <= st /\ st + sz <= a_end am /\ Forall (apart st sz) (a_ents am) /\
       (a_ents am <> [] -> exists z, (st, z) ∈ gs /\ forall g, g ∈ gs -> sz <= g.2 -> z <= g.2) /\
       let am' := with_ents ps (insert_sorted (mk_aent st (st + sz) hal_entryAllocated) (a_ents am)) am in
       sys_at s' (<[i := am']> ms) /\ fit_ok k (a_start am) (a_end am) (a_ents am') /\
       s_heapTop s < s_heapTop s' < s_heapTop s + sizeof_mapent + 8 /\ s_heapEnd s' = s_heapEnd s /\
       s_progs s' = s_progs s /\ s_progt s' = s_progt s /\ s_strt s' = s_strt s)).
Proof.
  intros K S Fn E N Sz F Ne gs. destruct (sys_at_lookup s ms i am S E) as (m & Em & Es & Ee & _ & _ & _ & Ce & Ea).
  unfold syspage_entryAdd. rewrite (syspage_mapGet_at s ms i am) by done. cbn [mbind option_bind].
  unfold entry_start. rewrite Em. cbn [mbind option_bind]. rewrite bool_decide_true by done.
  rewrite Z.eqb_refl. cbn [andb].
  rewrite (syspage_bestFit_spec k K s m (a_eptrs am) (a_ents am) sz) by (rewrite ?Es, ?Ee; done || lia).
  cbn [mbind option_bind]. rewrite Es, Ee. fold gs.
  set (pick := match a_ents am with [] => _ | _ => _ end).
  destruct pick as [st|] eqn:Pk.
  - destruct (best_fit_place k am sz st K F Sz Ne Pk) as (Ds & L1 & L2 & Ap).
    pose proof F as (L & H1 & H2 & _). pose proof addr_bits_ge32.
    assert (0 < 2 ^ k) by (apply Z.pow_pos_nonneg; lia).
    rewrite (wa_small (st + sz)) by lia.
    pose proof (sys_entry_new s ms i am st (st + sz) hal_entryAllocated S E) as A.
    destruct (syspage_alloc sizeof_mapent s) as [new s1].
    destruct A as [(-> & -> & Full)|(Nz & s' & ps & Ei & S' & V & _ & [Ht1 Ht2] & He & _ & Hp & Hpt & Hst)].
    + exists NULL, s. split; [done|]. left. split_and!; [done|done|by left].
    + destruct (Z.eqb_spec new NULL); [done|]. rewrite Ei. cbn [mbind option_bind].
      exists new, s'. split; [done|]. right. exists st, ps. split_and!; try done.
      * intros NE. unfold pick in Pk. pose proof (best_gap_spec sz gs) as B.
        destruct (a_ents am); [done|]. destruct (best_gap sz gs) as [[g z]|]; [|done].
        injection Pk as <-. destruct B as (G & _ & M). by exists z.
      * by apply fit_ok_insert.
  - exists NULL, s. split; [done|]. left. split_and!; [done|done|right].
    unfold pick in Pk. pose proof (best_gap_spec sz gs) as B.
    destruct (a_ents am); [done|]. split; [done|]. by destruct (best_gap sz gs).
Qed.

(** C1. An allocation of [sz] bytes in a named map, aligned to [2 ^ k], finds the
    smallest aligned gap between the entries of the map that is big enough, adds an
    entry there and keeps the map sorted, disjoint and within its range; NULL means
    that no gap is big enough or that the heap is full, and nothing changes.  The
    addresses are below 4 GiB, the bounds of the map and the starts of its entries
    aligned, and an empty map is big enough. *)
Theorem syspage_entryAdd_fit s ms i am k sz :
  0 <= k < 32 -> sys_at s ms -> Forall (fun am => cstr_ok (a_name am)) ms -> ms !! i = Some am ->
  name_at ms i (a_name am) -> 0 < sz -> fit_ok k (a_start am) (a_end am) (a_ents am) ->
  (a_ents am = [] -> round_up (2 ^ k) (a_start am) + sz <= a_end am) ->
  let gs := gaps (2 ^ k) (a_start am) (a_end am) (a_ents am) in
  exists r s', syspage_entryAdd (Some (a_name am)) addr_max sz (2 ^ k) s = Some (r, s') /\
    ((r = NULL /\ s' = s /\
       (s_heapEnd s <= s_heapTop s + sizeof_mapent + 8 \/
        a_ents am <> [] /\ forall g, g ∈ gs -> g.2 < sz)) \/
     (exists st ps, r <> NULL /\
       view <$> s_entt s' !! r = Some (mk_aent st (st + sz) hal_entryAllocated) /\
       (2 ^ k | st) /\ a_start am <= st /\ st + sz <= a_end am /\ Forall (apart st sz) (a_ents am) /\
       (a_ents am <> [] -> exists z, (st, z) ∈ gs /\ forall g, g ∈ gs -> sz <= g.2 -> z <= g.2) /\
       let am' := with_ents ps (insert_sorted (mk_aent st (st + sz) hal_entryAllocated) (a_ents am)) am in
       sys_at s' (<[i := am']> ms) /\ fit_ok k (a_start am) (a_end am) (a_ents am'))).
Proof.
  intros K S Fn E N Sz F Ne gs.
  destruct (syspage_entryAdd_in_map s ms i am k sz K S Fn E N Sz F Ne) as (r & s' & Er & [D|(st & ps & D)]);
    exists r, s'; (split; [exact Er|]); [by left|right].
  exists st, ps. destruct D as (? & ? & ? & ? & ? & ? & ? & ? & ? & _). by split_and!.
Qed.

(** *** [syspage_mapAdd] *)

(** The test of the code for a new map. *)
Definition conflicts (name : cstr) (start end_ : Z) (am : amap) : bool :=
  ((a_start am <? end_) && (start <? a_end am)) || bool_decide (a_name am = name).

(** Maps are numbered in order, do not overlap and have different names. *)
Definition maps_wf (ms : list amap) : Prop :=
  Forall (fun am => cstr_ok (a_name am)) ms /\
  (forall i am, ms !! i = Some am -> a_id am = Z.of_nat i) /\
  (forall i j am am', (i < j)%nat -> ms !! i = Some am -> ms !! j = Some am' ->
    conflicts (a_name am') (a_start am') (a_end am') am = false).

Lemma same_nodes_smap (h h' : gmap Z smap) p m :
  same_nodes h h' -> h !! p = Some m ->
  exists m', h' !! p = Some m' /\ m_entries m' = m_entries m /\ m_start m' = m_start m /\
    m_end m' = m_end m /\ m_attr m' = m_attr m /\ m_id m' = m_id m /\ m_name m' = m_name m.
Proof.
  intros S E. destruct (same_nodes_lookup _ _ _ _ S E) as (m' & E' & C). exists m'. split; [done|].
  destruct m, m'. injection C as -> -> -> -> -> ->. done.
Qed.

Lemma map_at_same h s am : same_nodes (s_mapt s) h -> map_at s am -> map_at (set_mapt h s) am.
Proof.
  intros S (m & Em & ? & ? & ? & ? & ? & ? & ?).
  destruct (same_nodes_smap _ _ _ _ S Em) as (m' & Em' & E1 & E2 & E3 & E4 & E5 & E6).
  exists m'. cbn. split_and!; congruence.
Qed.

Lemma link_map_listAdd map s :
  map <> NULL ->
  link_map map s = ('(h, p) ← lib_listAdd (s_mapt s) (s_maps s) map; Some (set_maps p (set_mapt h s))).
Proof.
  intros N. unfold link_map, lib_listAdd. destruct (Z.eqb_spec map NULL); [done|].
  assert (Id : forall h, set_maps (s_maps s) (set_mapt h s) = set_mapt h s) by (by destruct s).
  destruct (s_maps s =? NULL).
  - destruct (store_upd (set_lnext map) map (s_mapt s)) as [h|]; [|done]. cbn [mbind option_bind].
    by destruct (store_upd (set_lprev map) map h).
  - destruct (s_mapt s !! s_maps s) as [f|]; [|done]. cbn [mbind option_bind].
    change (lprev f) with (m_prev f).
    destruct (store_upd (set_lprev (m_prev f)) map (s_mapt s)) as [h|]; [|done]. cbn [mbind option_bind].
    destruct (h !! s_maps s) as [f'|]; [|done]. cbn [mbind option_bind].
    change (lprev f') with (m_prev f').
    destruct (store_upd (set_lnext map) (m_prev f') h) as [h1|]; [|done]. cbn [mbind option_bind].
    destruct (store_upd (set_lnext (s_maps s)) map h1) as [h2|]; [|done]. cbn [mbind option_bind].
    destruct (store_upd (set_lprev map) (s_maps s) h2); [|done]. cbn. by rewrite Id.
Qed.

(** The predecessor of the last node. *)
Lemma cring_pred {A} `{!LinkFields A} (h : gmap Z A) l q t : cring h (l ++ [q; t]) -> pv h t = Some q.
Proof.
  intros C. assert (exists a, chain h ((l ++ [q; t]) ++ [a])) as (a & Ch).
  { destruct l as [|x l]; destruct C as [Ch _]; by eexists. }
  rewrite <- app_assoc in Ch. change ([q; t] ++ [a]) with (q :: [t; a]) in Ch.
  apply chain_app in Ch as [_ (_ & P & _)]. done.
Qed.

(** A new record for a map, not linked yet. *)
Definition with_map (top top' : Z) (m : smap) (name : cstr) (s : syspage) : syspage :=
  set_strt (<[top := name]> (s_strt s))
    (set_mapt (<[s_heapTop s := m]> (s_mapt s))
      (set_heap (top' - s_base s) top' (set_heap (top - s_base s) top s))).

Lemma sys_at_with_map s ms top top' m name :
  sys_at s ms -> heap_ok (set_heap (top' - s_base s) top' s) -> s_heapTop s < top -> top < top' ->
  sys_at (with_map top top' m name s) ms.
Proof.
  intros S Hk T T'. pose proof S as (C & M & ND & Hs). destruct (heap_fresh s Hs) as (Fm & _ & _ & _ & Nz).
  assert (Fp : s_heapTop s ∉ a_ptr <$> ms).
  { intros X. apply Fm. destruct ms as [|am ms]; [by apply elem_of_nil in X|]. destruct C as [_ C].
    by apply (cring_dom _ (a_ptr <$> am :: ms)). }
  split_and!; [| |done|].
  - cbn. apply (clist_ext (s_mapt s)); [done|]. intros x X. apply nx_insert_ne. by intros ->.
  - rewrite Forall_lookup. intros i am Ei.
    destruct (sys_at_lookup s ms i am S Ei) as (m' & Em & ? & ? & ? & ? & St & ? & ?).
    assert (N1 : s_heapTop s <> a_ptr am).
    { intros X. apply Fp. rewrite X. apply list_elem_of_fmap. exists am. split; [done|].
      by apply (list_elem_of_lookup_2 _ i). }
    assert (N2 : top <> m_name m').
    { intros X. destruct Hs as (_ & _ & _ & _ & P). specialize (P (m_name m')).
      enough (0 < m_name m' < s_heapTop s) by lia. apply P. do 3 right. apply elem_of_dom. by exists (a_name am). }
    exists m'. cbn. rewrite !lookup_insert_ne by done. by split_and!.
  - destruct Hs as (B0 & _), Hk as (B & T1 & T2 & D & P). unfold heap_ok. cbn in *.
    split_and!; try done; try lia. intros p X. rewrite !dom_insert_L in X.
    destruct (decide (p = s_heapTop s)) as [-> |]; [lia|].
    destruct (decide (p = top)) as [-> |]; [lia|]. apply P. set_solver.
Qed.

(** The new map is linked behind the others and numbered. *)
Lemma sys_at_link s ms p m name attr start end_ :
  sys_at s ms -> (forall i am, ms !! i = Some am -> a_id am = Z.of_nat i) -> (length ms < 256)%nat ->
  s_mapt s !! p = Some m -> p ∉ a_ptr <$> ms -> p <> NULL ->
  m_entries m = NULL -> m_start m = start -> m_end m = end_ -> m_attr m = attr ->
  s_strt s !! m_name m = Some name ->
  exists s1 s2, link_map p s = Some s1 /\ number_map p s1 = Some s2 /\
    sys_at s2 (ms ++ [mk_amap p name start end_ attr (Z.of_nat (length ms)) [] []]) /\
    s_heapTop s2 = s_heapTop s /\ s_heapEnd s2 = s_heapEnd s.
Proof.
  intros S Ids Len Em Fp Nz E1 E2 E3 E4 E5. pose proof S as (C & M & ND & Hs).
  destruct (lib_listAdd_spec (s_mapt s) (s_maps s) (a_ptr <$> ms) p C) as (h & q & El & Cl & Sn);
    [by apply elem_of_dom_2 in Em|done|done|].
  exists (set_maps q (set_mapt h s)). rewrite link_map_listAdd, El by done. cbn [mbind option_bind].
  destruct (same_nodes_smap _ _ _ _ Sn Em) as (m1 & Em1 & F1 & F2 & F3 & F4 & F5 & F6).
  set (n := Z.of_nat (length ms)).
  assert (Hid : (if p =? q then Some 0
    else m ← h !! p; p ← h !! m_prev m; Some (m_id p + 1)) = Some n).
  { destruct (exists_last_or_nil ms) as [-> |(ms0 & am & ->)].
    - destruct Cl as [-> _]. by rewrite Z.eqb_refl.
    - assert (Nq : p <> q).
      { intros ->. apply Fp. destruct ms0 as [|x ms0]; destruct Cl as [-> _]; by left. }
      destruct (Z.eqb_spec p q); [done|]. assert (Cr : cring h ((a_ptr <$> ms0) ++ [a_ptr am; p])).
      { rewrite fmap_app in Cl. rewrite <- app_assoc in Cl. by destruct ms0; destruct Cl. }
      apply cring_pred, pv_lookup in Cr as (m' & Em' & Lp). rewrite Em'. cbn [mbind option_bind].
      cbn in Lp. rewrite Lp. assert (Ei : (ms0 ++ [am]) !! length ms0 = Some am)
        by (by rewrite lookup_app_r, Nat.sub_diag by lia).
      destruct (sys_at_lookup s _ _ am S Ei) as (ma & Ea & _ & _ & _ & Ia & _).
      destruct (same_nodes_smap _ _ _ _ Sn Ea) as (ma' & -> & _ & _ & _ & _ & Ia' & _).
      cbn [mbind option_bind]. rewrite Ia', Ia, (Ids _ am Ei). unfold n. rewrite length_app. cbn. f_equal. lia. }
  unfold number_map. cbn [s_mapt s_maps set_maps set_mapt]. rewrite Hid. cbn [mbind option_bind].
  unfold store_upd. rewrite Em1. cbn [mbind option_bind]. rewrite map_id_small by lia.
  eexists. split; [done|]. split; [done|]. split_and!; try done. split_and!.
  - cbn. rewrite fmap_app. cbn. apply (clist_ext h); [done|]. intros x _. by apply (nx_insert_links _ _ m1).
  - apply Forall_app. split; [|constructor; [|constructor]].
    + rewrite Forall_lookup. intros i am Ei. destruct (sys_at_lookup s ms i am S Ei) as (m' & Em' & R).
      assert (Np : a_ptr am <> p) by (intros <-; apply Fp, list_elem_of_fmap; exists am; split;
        [done|by apply (list_elem_of_lookup_2 _ i)]).
      destruct (map_at_same h s am Sn ltac:(by exists m')) as (m2 & Em2 & R2). cbn in Em2, R2.
      exists m2. cbn. by rewrite lookup_insert_ne.
    + exists (set_id n m1). cbn. rewrite lookup_insert_eq. split_and!; try done; try congruence. constructor.
  - rewrite fmap_app, concat_app. cbn. by rewrite !app_nil_r.
  - destruct Hs as (B & T1 & T2 & D & P). unfold heap_ok. cbn. split_and!; try done; try lia.
    intros x X. apply P. rewrite dom_insert_L in X. destruct Sn as [_ Dn]. rewrite Dn in X.
    apply elem_of_dom_2 in Em. set_solver.
Qed.

(** *** The entries of the platform *)

Section hal.
  Context `{SyspageHal}.

(** The platform answers non-empty ranges within the range it was asked for. *)
Definition hal_answers (hws : hw) : Prop :=
  forall lo hi a b ty, lo <= hi -> hal_memoryGetNextEntry hws lo hi = Some (a, b, ty) -> lo <= a /\ a < b /\ b <= hi.

(** The answers from [lo] to the end [hi], each asked for behind the one before. *)
Inductive hal_ranges (hws : hw) (hi : Z) : Z -> list aent -> Prop :=
| ranges_nil lo : hal_memoryGetNextEntry hws lo hi = None -> hal_ranges hws hi lo []
| ranges_cons lo a b ty es :
    hal_memoryGetNextEntry hws lo hi = Some (a, b, ty) -> hal_ranges hws hi b es ->
    hal_ranges hws hi lo (mk_aent a b ty :: es).

Lemma insert_sorted_last a es :
  Forall (fun e => ae_start e <= ae_start a) es -> insert_sorted a es = es ++ [a].
Proof.
  induction 1 as [|e es L F IH]; [done|]. cbn. destruct (Z.ltb_spec (ae_start a) (ae_start e)); [lia|].
  by rewrite IH.
Qed.

Lemma ents_ok_snoc lo hi es e :
  ents_ok lo hi es -> last_end lo es <= ae_start e -> ae_start e < ae_end e -> ae_end e <= hi ->
  ents_ok lo hi (es ++ [e]) /\ last_end lo (es ++ [e]) = ae_end e /\
  Forall (fun x => ae_start x <= ae_start e) es.
Proof.
  revert lo. induction es as [|x es IH]; intros lo O L1 L2 L3; cbn in *; [split_and!; (done || lia || constructor)|].
  destruct O as (O1 & O2 & O3). destruct (IH _ O3 L1 L2 L3) as (I1 & I2 & I3).
  pose proof (ents_ok_le _ _ _ O3). split_and!; [done|done|done|done|]. constructor; [lia|done].
Qed.

(** The loop terminates, with every record it could allocate in the map. *)
Lemma hal_entries_spec fuel hws s ms i am start :
  hal_answers hws -> sys_at s ms -> ms !! i = Some am ->
  s_heapEnd s - s_heapTop s < Z.of_nat fuel -> ents_ok (a_start am) (a_end am) (a_ents am) ->
  last_end (a_start am) (a_ents am) <= start <= a_end am ->
  exists ret s' ps es, hal_entries_loop fuel hws (a_ptr am) start (a_end am) s = Some (ret, s') /\
    (ret = EOK \/ ret = - ENOMEM) /\ sys_at s' (<[i := with_ents ps es am]> ms) /\
    ents_ok (a_start am) (a_end am) es /\ s_heapEnd s' = s_heapEnd s /\
    (ret = EOK -> exists new, es = a_ents am ++ new /\ hal_ranges hws (a_end am) start new).
Proof.
  intros HA. revert s ms am start. induction fuel as [|fuel IH]; intros s ms am start S E Fu O L.
  { destruct S as (_ & _ & _ & (_ & ? & _)). lia. }
  assert (Same : <[i := with_ents (a_eptrs am) (a_ents am) am]> ms = ms)
    by (apply list_insert_id; by destruct am).
  cbn [hal_entries_loop].
  destruct (hal_memoryGetNextEntry hws start (a_end am)) as [[[a b] ty]|] eqn:En.
  2: { exists EOK, s, (a_eptrs am), (a_ents am). rewrite Same. split_and!; auto.
       intros _. exists []. rewrite app_nil_r. split; [done|by constructor]. }
  destruct (HA start (a_end am) a b ty ltac:(lia) En) as (Ha & Hb & Hc).
  pose proof (sys_entry_new s ms i am a b ty S E) as A.
  destruct (syspage_alloc sizeof_mapent s) as [new s1].
  destruct A as [(-> & -> & Full)|(Nz & s' & ps & Ei & S' & V & _ & Tp & Te & _)].
  - exists (- ENOMEM), s, (a_eptrs am), (a_ents am). rewrite Same. split_and!; auto. done.
  - destruct (Z.eqb_spec new NULL); [done|]. rewrite Ei. cbn [mbind option_bind].
    destruct (ents_ok_snoc (a_start am) (a_end am) (a_ents am) (mk_aent a b ty)) as (O' & L' & F');
      [done|cbn; lia|done|done|].
    rewrite insert_sorted_last in S' by done. set (am1 := with_ents ps _ am) in *.
    destruct (IH s' (<[i := am1]> ms) am1 b S') as (ret & s2 & ps2 & es2 & E2 & R2 & S2 & O2 & H2 & G2);
      [apply list_lookup_insert_eq; by eapply lookup_lt_Some|lia|done|cbn [am1 a_ents with_ents a_start a_end]; rewrite L'; cbn; lia|].
    exists ret, s2, ps2, es2. rewrite list_insert_insert_eq in S2. split_and!; try done; [lia|].
    intros R. destruct (G2 R) as (new' & -> & G). exists (mk_aent a b ty :: new').
    cbn [am1 a_ents with_ents]. rewrite <- app_assoc. split; [done|]. by econstructor.
Qed.

(** The new map of [syspage_mapAdd]. *)
Definition new_map (ms : list amap) p name start end_ attr ps es : amap :=
  mk_amap p name start end_ attr (Z.of_nat (length ms)) ps es.

Lemma maps_wf_snoc ms am :
  maps_wf ms -> cstr_ok (a_name am) -> a_id am = Z.of_nat (length ms) ->
  (forall x, x ∈ ms -> conflicts (a_name am) (a_start am) (a_end am) x = false) -> maps_wf (ms ++ [am]).
Proof.
  intros (N & I & C) Nm Id Cf. split_and!.
  - apply Forall_app. by repeat constructor.
  - intros i x E. apply lookup_snoc_Some in E as [[L E]|[-> ->]]; [by apply I|done].
  - intros i j x y L Ei Ej. apply lookup_snoc_Some in Ei as [[Li Ei]|[-> ->]];
      apply lookup_snoc_Some in Ej as [[Lj Ej]|[-> ->]]; try lia.
    + by apply (C i j).
    + apply Cf. by apply (list_elem_of_lookup_2 _ i).
Qed.

Lemma maps_conflict_spec s ms name start end_ :
  sys_at s ms -> cstr_ok name -> maps_wf ms ->
  maps_find (fun _ m => if map_conflict s name start end_ m then Some tt else None) s =
    Some (if existsb (conflicts name start end_) ms then Some tt else None).
Proof.
  intros S N (F & _). rewrite (maps_find_spec _ (fun am =>
    if conflicts name start end_ am then Some tt else None) s ms S).
  - f_equal. clear S F. induction ms as [|am ms IH]; [done|]. cbn.
    destruct (conflicts _ _ _ am); [done|]. exact IH.
  - intros am m (m' & Em' & E1 & E2 & _ & _ & St & _) Em I. rewrite Em in Em'. injection Em' as <-.
    unfold map_conflict, conflicts. rewrite St, E1, E2. cbn [default from_option id].
    rewrite Forall_forall in F. pose proof (hal_strcmp_eq name (a_name am) N (F am I)) as Q.
    destruct (Z.eqb_spec (hal_strcmp name (a_name am)) 0), (bool_decide_reflect (a_name am = name));
      naive_solver.
Qed.

Lemma syspage_mapAdd_run s ms name start end_ attr hws :
  hal_answers hws -> sys_at s ms -> maps_wf ms -> (length ms < 256)%nat ->
  cstr_ok name -> zlen name < 2 ^ 16 -> start <= end_ ->
  exists ret hws' s', syspage_mapAdd name start end_ attr hws s = Some (ret, hws', s') /\
    (existsb (conflicts name start end_) ms = true -> ret = - EINVAL /\ hws' = hws /\ s' = s) /\
    (existsb (conflicts name start end_) ms = false ->
      let added iattr := exists p ps es,
        let am := new_map ms p name start end_ iattr ps es in
        sys_at s' (ms ++ [am]) /\ maps_wf (ms ++ [am]) /\ ents_ok start end_ es /\
        (ret = EOK -> hal_ranges hws end_ start es) in
      if (syspage_strAttr2ui attr).1 <? 0 then sys_at s' ms /\ ret <> EOK
      else (ret = EOK -> added (syspage_strAttr2ui attr).2) /\
           (ret <> EOK -> sys_at s' ms \/ added (syspage_strAttr2ui attr).2)).
Proof.
  intros HA S Wf Len N Ln Le. pose proof S as (_ & _ & _ & Hk). unfold syspage_mapAdd.
  rewrite (maps_conflict_spec s ms) by done. cbn [mbind option_bind].
  destruct (existsb _ ms) eqn:Cf; [by exists (- EINVAL), hws, s|].
  pose proof sizeof_pos as (_ & Pm & _ & _). assert (Hm : 0 < sizeof_map <= 2 ^ 16) by lia.
  assert (Fail : forall ret s', sys_at s' ms -> ret < 0 -> exists ret0 hws' s0,
    Some (ret, hws, s') = Some (ret0, hws', s0) /\
    (false = true -> ret0 = - EINVAL /\ hws' = hws /\ s0 = s) /\
    (false = false -> let added iattr := exists p ps es,
        let am := new_map ms p name start end_ iattr ps es in
        sys_at s0 (ms ++ [am]) /\ maps_wf (ms ++ [am]) /\ ents_ok start end_ es /\
        (ret0 = EOK -> hal_ranges hws end_ start es) in
      if (syspage_strAttr2ui attr).1 <? 0 then sys_at s0 ms /\ ret0 <> EOK
      else (ret0 = EOK -> added (syspage_strAttr2ui attr).2) /\
           (ret0 <> EOK -> sys_at s0 ms \/ added (syspage_strAttr2ui attr).2))).
  { intros ret s' S' R. exists ret, hws, s'. split; [done|]. split; [done|]. intros _ added.
    unfold EOK. destruct (_ <? 0); [split; [done|lia]|]. split; [lia|by left]. }
  destruct (syspage_alloc_spec sizeof_map s Hk Hm) as [(top & -> & T & Hk1)|[-> _]];
    [|by apply (Fail (- ENOMEM))].
  destruct (heap_fresh s Hk) as (_ & _ & _ & _ & Nz). destruct (Z.eqb_spec (s_heapTop s) NULL); [done|].
  rewrite hal_strlen_length. set (s1 := set_heap _ top s) in *.
  assert (S1 : sys_at s1 ms) by (by destruct S as (? & ? & ? & _)).
  destruct (syspage_alloc_spec (zlen name + 1) s1 Hk1 ltac:(lia)) as [(top' & -> & T' & Hk2)|[-> _]];
    [|by apply (Fail (- ENOMEM))].
  destruct (heap_fresh s1 Hk1) as (_ & _ & _ & _ & Nz1). destruct (Z.eqb_spec (s_heapTop s1) NULL); [done|].
  destruct (syspage_strAttr2ui attr) as [res iattr]. cbn [fst snd] in Fail |- *.
  destruct (Z.ltb_spec res 0) as [R|R].
  { apply (Fail res); [|done]. by destruct S as (? & ? & ? & _). }
  set (p := s_heapTop s) in *. set (m0 := mk_smap NULL NULL NULL start end_ iattr 0 (s_heapTop s1)).
  match goal with |- context [link_map p ?x] => change x with (with_map top top' m0 name s) end.
  set (s2 := with_map top top' m0 name s).
  assert (S2 : sys_at s2 ms) by (apply sys_at_with_map; [done|exact Hk2|lia|cbn in T'; lia]).
  assert (Fp : p ∉ a_ptr <$> ms).
  { destruct (heap_fresh s Hk) as (Fm & _). intros X. apply Fm. destruct S as (C & _).
    destruct ms as [|am ms]; [by apply elem_of_nil in X|]. destruct C as [_ C].
    by apply (cring_dom _ (a_ptr <$> am :: ms)). }
  destruct (sys_at_link s2 ms p m0 name iattr start end_) as (s3 & s4 & -> & En & S4 & Ht & He);
    try done; [by apply Wf|cbn; by rewrite lookup_insert_eq|cbn; by rewrite lookup_insert_eq|].
  cbn [mbind option_bind]. rewrite En. cbn [mbind option_bind].
  set (am := mk_amap p name start end_ iattr (Z.of_nat (length ms)) [] []) in *.
  assert (Ei : (ms ++ [am]) !! length ms = Some am) by (by rewrite lookup_app_r, Nat.sub_diag by lia).
  destruct (hal_entries_spec (Datatypes.S (Z.to_nat (s_heapEnd s4))) hws s4 (ms ++ [am]) (length ms) am start)
    as (ret & s5 & ps & es & El & Rt & S5 & O5 & _ & G5); try done.
  { destruct S4 as (_ & _ & _ & (? & ? & _)). lia. }
  change (a_ptr am) with p in El. change (a_end am) with end_ in El. rewrite El.
  cbn [mbind option_bind]. rewrite insert_app_r_alt, Nat.sub_diag in S5 by lia. cbn in S5.
  change (with_ents ps es am) with (new_map ms p name start end_ iattr ps es) in S5.
  assert (Wf' : maps_wf (ms ++ [new_map ms p name start end_ iattr ps es])).
  { apply maps_wf_snoc; [done|done|done|]. intros x X. cbn. destruct (conflicts name start end_ x) eqn:Cx; [|done].
    rewrite <- Cf. symmetry. apply existsb_exists. exists x. split; [by apply list_elem_of_In|done]. }
  destruct (Z.ltb_spec ret 0).
  - exists ret, hws, s5. split; [done|]. split; [done|]. intros _. split; [unfold EOK; lia|].
    intros _. right. exists p, ps, es. split_and!; [done..|by unfold EOK; lia].
  - destruct (sys_at_lookup s5 _ (length ms) (new_map ms p name start end_ iattr ps es) S5)
      as (m5 & E5 & _); [by rewrite lookup_app_r, Nat.sub_diag by lia|].
    cbn [a_ptr new_map] in E5. rewrite E5. cbn [mbind option_bind].
    destruct (hal_memoryAddMap _ _ _ _ _) as [r hws'].
    eexists _, hws', s5. split; [done|]. split; [done|]. intros _.
    destruct G5 as (new & -> & G5); [destruct Rt as [->| ->]; [done|unfold ENOMEM in *; lia]|].
    split; intros; [|right]; by exists p, ps, new.
Qed.

(** A success. *)
Lemma syspage_mapAdd_ok s ms name start end_ attr hws hws' s' :
  hal_answers hws -> sys_at s ms -> maps_wf ms -> (length ms < 256)%nat ->
  cstr_ok name -> zlen name < 2 ^ 16 -> start <= end_ ->
  syspage_mapAdd name start end_ attr hws s = Some (EOK, hws', s') ->
  exists p ps es, let am := new_map ms p name start end_ (syspage_strAttr2ui attr).2 ps es in
    sys_at s' (ms ++ [am]) /\ maps_wf (ms ++ [am]) /\ ents_ok start end_ es /\ hal_ranges hws end_ start es.
Proof.
  intros HA S Wf Len N Ln Le E.
  destruct (syspage_mapAdd_run s ms name start end_ attr hws) as (ret & h & s1 & E1 & Cf & Nc); try done.
  rewrite E in E1. injection E1 as <- <- <-.
  destruct (existsb _ ms); [by destruct (Cf eq_refl) as [? _]|]. specialize (Nc eq_refl). cbn zeta in Nc.
  destruct (_ <? 0); [by destruct Nc|]. destruct (proj1 Nc eq_refl) as (p & ps & es & A & B & C & D).
  exists p, ps, es. cbn zeta. split; [done|]. split; [done|]. split; [done|]. by apply D.
Qed.

(** C3. [syspage_mapAdd] refuses, without any change, a range that overlaps a map or
    a name in use.  Otherwise it always returns; a success adds the map behind the
    others, numbered by its position, with the attributes of the string and the
    ranges the platform answers, in order, as its entries, and keeps the maps
    disjoint and uniquely named.  After any other failure the maps are as before, or
    the new one is there with the entries that could be allocated. *)
Theorem syspage_mapAdd_spec s ms name start end_ attr hws :
  hal_answers hws -> sys_at s ms -> maps_wf ms -> (length ms < 256)%nat ->
  cstr_ok name -> zlen name < 2 ^ 16 -> start <= end_ ->
  exists ret hws' s', syspage_mapAdd name start end_ attr hws s = Some (ret, hws', s') /\
    (existsb (conflicts name start end_) ms = true -> ret = - EINVAL /\ hws' = hws /\ s' = s) /\
    (existsb (conflicts name start end_) ms = false ->
      let added iattr := exists p ps es,
        let am := new_map ms p name start end_ iattr ps es in
        sys_at s' (ms ++ [am]) /\ maps_wf (ms ++ [am]) /\ ents_ok start end_ es /\
        (ret = EOK -> hal_ranges hws end_ start es) in
      if (syspage_strAttr2ui attr).1 <? 0 then sys_at s' ms /\ ret <> EOK
      else (ret = EOK -> added (syspage_strAttr2ui attr).2) /\
           (ret <> EOK -> sys_at s' ms \/ added (syspage_strAttr2ui attr).2)).
Proof. apply syspage_mapAdd_run. Qed.
End hal.
End state.

(** ** Attributes *)

Section attr.
  Context `{SyspageTypes}.

Definition mAttrs : list Z :=
  [mAttrRead; mAttrWrite; mAttrExec; mAttrShareable; mAttrCacheable; mAttrBufferable].

(** Every attribute is one bit of a 32-bit word. *)
Definition attrs_are_bits : Prop := Forall (fun a => exists i, a = 2 ^ Z.of_nat i /\ (i < 32)%nat) mAttrs.

Definition mAttrAll : Z := fold_right Z.lor 0 mAttrs.

(** The character of an attribute stands for it. *)
Lemma char_of_attr_spec a :
  (char_of_attr a = [] /\ a ∉ mAttrs) \/
  (exists c, char_of_attr a = [c] /\ attr_of_char c = Some a /\ a ∈ mAttrs).
Proof.
  unfold char_of_attr, mAttrs.
  destruct (Z.eqb_spec a mAttrRead) as [->|]; [right; eexists; split_and!; [done..|by left]|].
  destruct (Z.eqb_spec a mAttrWrite) as [->|]; [right; eexists; split_and!; [done..|by do 1 right; left]|].
  destruct (Z.eqb_spec a mAttrExec) as [->|]; [right; eexists; split_and!; [done..|by do 2 right; left]|].
  destruct (Z.eqb_spec a mAttrShareable) as [->|]; [right; eexists; split_and!; [done..|by do 3 right; left]|].
  destruct (Z.eqb_spec a mAttrCacheable) as [->|]; [right; eexists; split_and!; [done..|by do 4 right; left]|].
  destruct (Z.eqb_spec a mAttrBufferable) as [->|]; [right; eexists; split_and!; [done..|by do 5 right; left]|].
  left. split; [done|]. rewrite !elem_of_cons, elem_of_nil. naive_solver.
Qed.

Lemma land_bit attr i :
  Z.land attr (Z.shiftl 1 (Z.of_nat i)) = if Z.testbit attr (Z.of_nat i) then 2 ^ Z.of_nat i else 0.
Proof.
  rewrite Z.shiftl_1_l. apply Z.bits_inj'. intros j J. rewrite Z.land_spec, Z.pow2_bits_eqb by lia.
  destruct (Z.testbit attr (Z.of_nat i)) eqn:B; rewrite ?Z.pow2_bits_eqb, ?Z.bits_0 by lia;
    destruct (Z.eqb_spec (Z.of_nat i) j) as [<-|]; rewrite ?B; btauto.
Qed.

(** The attribute bits of [attr] among the bits [l]. *)
Definition attr_bits (attr : Z) (l : list nat) (j : Z) : bool :=
  Z.testbit attr j && existsb (fun i => (Z.of_nat i =? j) && bool_decide (2 ^ Z.of_nat i ∈ mAttrs)) l.

Lemma zero_not_attr : attrs_are_bits -> 0 ∉ mAttrs.
Proof.
  unfold attrs_are_bits. rewrite Forall_forall. intros B I. destruct (B 0 I) as (i & E & _).
  assert (0 < 2 ^ Z.of_nat i) by (apply Z.pow_pos_nonneg; lia). lia.
Qed.

Lemma strAttr2ui_bits attr l acc :
  attrs_are_bits ->
  exists r, strAttr2ui_loop (i ← l; char_of_attr (Z.land attr (Z.shiftl 1 (Z.of_nat i)))) acc = (EOK, r) /\
    forall j, 0 <= j -> Z.testbit r j = Z.testbit acc j || attr_bits attr l j.
Proof.
  intros B. revert acc. induction l as [|i l IH]; intros acc.
  - exists acc. split; [done|]. intros. unfold attr_bits. cbn. btauto.
  - change (i0 ← i :: l; char_of_attr (Z.land attr (Z.shiftl 1 (Z.of_nat i0)))) with
      (char_of_attr (Z.land attr (Z.shiftl 1 (Z.of_nat i))) ++
       (i0 ← l; char_of_attr (Z.land attr (Z.shiftl 1 (Z.of_nat i0))))).
    rewrite land_bit. set (x := if Z.testbit attr (Z.of_nat i) then 2 ^ Z.of_nat i else 0).
    destruct (char_of_attr_spec x) as [[-> Nx]|(c & -> & Ec & Ix)].
    + destruct (IH acc) as (r & E & Hr). exists r. split; [done|]. intros j J. rewrite Hr by done.
      unfold attr_bits. cbn [existsb]. destruct (Z.eqb_spec (Z.of_nat i) j) as [<-|]; [|done].
      unfold x in Nx. destruct (Z.testbit attr (Z.of_nat i)); [|done].
      rewrite (bool_decide_false (2 ^ _ ∈ _)) by done. done.
    + cbn [app strAttr2ui_loop]. rewrite Ec. destruct (IH (Z.lor acc x)) as (r & E & Hr).
      exists r. split; [done|]. intros j J. rewrite Hr, Z.lor_spec by done. unfold attr_bits.
      cbn [existsb]. unfold x in *. destruct (Z.testbit attr (Z.of_nat i)) eqn:T.
      * rewrite (bool_decide_true (2 ^ _ ∈ _)) by done. rewrite Z.pow2_bits_eqb by lia.
        destruct (Z.eqb_spec (Z.of_nat i) j) as [<-|]; rewrite ?T; btauto.
      * by apply zero_not_attr in Ix.
Qed.

Lemma mAttrAll_bit j :
  attrs_are_bits -> 0 <= j -> Z.testbit mAttrAll j = existsb (fun i => (Z.of_nat i =? j) &&
    bool_decide (2 ^ Z.of_nat i ∈ mAttrs)) (seq 0 32).
Proof.
  intros B J. unfold mAttrAll. apply eq_true_iff_eq. rewrite existsb_exists.
  assert (L : forall l, Forall (fun a => exists i, a = 2 ^ Z.of_nat i /\ (i < 32)%nat) l ->
    Z.testbit (fold_right Z.lor 0 l) j = true <-> exists i, 2 ^ Z.of_nat i ∈ l /\ Z.of_nat i = j /\ (i < 32)%nat).
  { induction 1 as [|a l (i & -> & Li) F IH]; cbn [fold_right].
    - rewrite Z.bits_0. split; [done|]. by intros (? & ?%elem_of_nil & _).
    - rewrite Z.lor_spec, orb_true_iff, IH, Z.pow2_bits_eqb, Z.eqb_eq by lia. split.
      + intros [E|(i' & I & E)]; [exists i; split_and!; [by left|done|done]|exists i'; split; [by right|done]].
      + intros (i' & [E|I]%elem_of_cons & Ej & Lj); [left|right; by exists i'].
        apply Z.pow_inj_r in E; lia. }
  rewrite L by done. split.
  - intros (i & I & E & Li). exists i. rewrite in_seq, bool_decide_true by done. split; [lia|].
    rewrite andb_true_r. by apply Z.eqb_eq.
  - intros (i & Ii & E). apply in_seq in Ii. apply andb_true_iff in E as [E1 E2].
    apply Z.eqb_eq in E1. apply bool_decide_eq_true in E2. exists i. split_and!; [done|done|lia].
Qed.

(** The attributes of a map survive being shown and parsed: the string made of
    an attribute word parses without error to the attributes in it, and no
    attribute is lost or invented. *)
Lemma syspage_attr_roundtrip attr :
  attrs_are_bits -> syspage_strAttr2ui (syspage_uiAttr2str attr) = (EOK, Z.land attr mAttrAll).
Proof.
  intros B. unfold syspage_strAttr2ui, syspage_uiAttr2str.
  destruct (strAttr2ui_bits attr (seq 0 32) 0 B) as (r & -> & Hr). f_equal.
  apply Z.bits_inj'. intros j J. by rewrite Hr, Z.bits_0, Z.land_spec, mAttrAll_bit by done.
Qed.

End attr.

(** ** A system page with a map *)

(** A platform with one reserved range at the start of every map. *)
Definition sample_hal : SyspageHal :=
  {| hw := unit;
     hal_memoryGetNextEntry := fun _ lo hi =>
       if (lo =? 0x10000) && (0x10100 <=? hi) then Some (0x10000, 0x10100, 0) else None;
     hal_memoryAddMap := fun w _ _ _ _ => (0, w) |}.

Definition sample_init : syspage := syspage_init (H := target32) (H0 := sample_types) 0x1000 0x9000.

(** [sample_init] with the map [name] of [start, end). *)
Definition sample_map (name : cstr) (start end_ : Z) : syspage :=
  match syspage_mapAdd (H := target32) (H0 := sample_types) (H1 := sample_hal) name start end_
    (str "rwx") tt sample_init with
  | Some (_, _, s) => s
  | None => sample_init
  end.

Lemma sample_init_at : sys_at (H := target32) sample_init [].
Proof.
  split_and!; [done|constructor|constructor|]. split_and!; try (by vm_compute).
  - by exists 528.
  - assert (D : dom (s_mapt sample_init) = ∅ /\ dom (s_entt sample_init) = ∅ /\
      dom (s_progt sample_init) = ∅ /\ dom (s_strt sample_init) = ∅) by (split_and!; by vm_compute).
    destruct D as (-> & -> & -> & ->). set_solver.
Qed.

Lemma sample_hal_answers : hal_answers (H1 := sample_hal) tt.
Proof.
  intros lo hi a b ty _. cbn. destruct (_ && _) eqn:E; [|done]. intros [= <- <- <-].
  apply andb_true_iff in E as [E1 E2]. lia.
Qed.

Lemma syspage_mapAdd_spec_witness :
  exists ret hws' s', syspage_mapAdd (H := target32) (H0 := sample_types) (H1 := sample_hal)
      (str "ddr") 0x10000 0x20000 (str "rwx") tt sample_init = Some (ret, hws', s') /\
    (false = true -> ret = - EINVAL /\ hws' = tt /\ s' = sample_init) /\
    (false = false ->
      let added iattr := exists p ps es,
        let am := new_map [] p (str "ddr") 0x10000 0x20000 iattr ps es in
        sys_at (H := target32) s' [am] /\ maps_wf [am] /\ ents_ok 0x10000 0x20000 es /\
        (ret = EOK -> hal_ranges (H1 := sample_hal) tt 0x20000 0x10000 es) in
      if false then sys_at (H := target32) s' [] /\ ret <> EOK
      else (ret = EOK -> added 7) /\ (ret <> EOK -> sys_at (H := target32) s' [] \/ added 7)).
Proof.
  refine (@syspage_mapAdd_spec target32 sample_types sample_hal sample_init [] (str "ddr")
    0x10000 0x20000 (str "rwx") tt sample_hal_answers sample_init_at _ _ _ _ _);
    [split_and!; [constructor|by intros [|i] am|by intros [|i] j am]|cbn; lia|by repeat constructor|by vm_compute|lia].
Defined.

(** The map "ram" without entries. *)
Definition sample_amap (start end_ : Z) : amap :=
  mk_amap 4224 (str "ram") start end_ 7 0 [] [].

Lemma sample_map_at : sys_at (H := target32) (sample_map (str "ram") 0x40000 0x50000) [sample_amap 0x40000 0x50000].
Proof.
  split_and!.
  - split; [done|]. by apply cring_singleton.
  - constructor; [|constructor]. exists (mk_smap 4224 4224 0 0x40000 0x50000 7 0 4272).
    split_and!; (by vm_compute) || constructor.
  - constructor.
  - split_and!; try (by vm_compute); [by exists 535|].
    assert (D : dom (s_mapt (sample_map (str "ram") 0x40000 0x50000)) = {[4224]} /\
      dom (s_entt (sample_map (str "ram") 0x40000 0x50000)) = ∅ /\
      dom (s_progt (sample_map (str "ram") 0x40000 0x50000)) = ∅ /\
      dom (s_strt (sample_map (str "ram") 0x40000 0x50000)) = {[4272]}) by (split_and!; by vm_compute).
    destruct D as (-> & -> & -> & ->). change (s_heapTop _) with 4280.
    intros p. rewrite !elem_of_singleton, !elem_of_empty. lia.
Qed.

Lemma syspage_entryAdd_fit_witness :
  let s := sample_map (str "ram") 0x40000 0x50000 in
  let am := sample_amap 0x40000 0x50000 in
  exists r s', syspage_entryAdd (H := target32) (H0 := sample_types) (Some (str "ram"))
      (addr_max (H := target32)) 0x1234 (2 ^ 12) s = Some (r, s') /\
    ((r = NULL /\ s' = s /\
       (s_heapEnd s <= s_heapTop s + 24 + 8 \/
        ([] : list aent) <> [] /\ forall g, g ∈ gaps (2 ^ 12) 0x40000 0x50000 [] -> g.2 < 0x1234)) \/
     (exists st ps, r <> NULL /\
       view <$> s_entt s' !! r = Some (mk_aent st (st + 0x1234) 1) /\
       (2 ^ 12 | st) /\ 0x40000 <= st /\ st + 0x1234 <= 0x50000 /\ Forall (apart st 0x1234) [] /\
       (([] : list aent) <> [] -> exists z, (st, z) ∈ gaps (2 ^ 12) 0x40000 0x50000 [] /\
          forall g, g ∈ gaps (2 ^ 12) 0x40000 0x50000 [] -> 0x1234 <= g.2 -> z <= g.2) /\
       let am' := with_ents ps (insert_sorted (mk_aent st (st + 0x1234) 1) []) am in
       sys_at (H := target32) s' [am'] /\ fit_ok (H := target32) 12 0x40000 0x50000 (a_ents am'))).
Proof.
  refine (@syspage_entryAdd_fit target32 sample_types (sample_map (str "ram") 0x40000 0x50000)
    [sample_amap 0x40000 0x50000] 0 (sample_amap 0x40000 0x50000) 12 0x1234 _ sample_map_at _ _ _ _ _ _);
    [lia|by repeat constructor|done|by intros [|[|j]]|lia| |by vm_compute].
  split_and!; try (by vm_compute). by exists 80.
Defined.

Lemma syspage_attr_roundtrip_witness :
  syspage_strAttr2ui (H0 := sample_types) (syspage_uiAttr2str (H0 := sample_types) 0x45) =
    (EOK, Z.land 0x45 (mAttrAll (H := sample_types))).
Proof.
  apply (@syspage_attr_roundtrip sample_types).
  repeat (constructor; [first [by exists 0%nat; split; [done|lia]|by exists 1%nat; split; [done|lia]|
    by exists 2%nat; split; [done|lia]|by exists 3%nat; split; [done|lia]|
    by exists 4%nat; split; [done|lia]|by exists 5%nat; split; [done|lia]]|]). constructor.
Defined.

(** ** Where the code allocates outside a map *)

(** The end of the entry at [r]. *)
Definition entry_range (x : option (Z * syspage)) : option (Z * Z) :=
  '(r, s) ← x; e ← s_entt s !! r; Some (e_start e, e_end e).

(** In a map without entries the size is not compared with the size of the map. *)
Lemma entryAdd_past_empty_map :
  entry_range (syspage_entryAdd (H := target32) (H0 := sample_types) (Some (str "ram"))
    (addr_max (H := target32)) 0x20000 0x1000 (sample_map (str "ram") 0x40000 0x50000)) =
    Some (0x40000, 0x60000).
Proof. by vm_compute. Qed.

(** An explicit offset in a named map is not compared with its end. *)
Lemma entryAdd_past_map_end :
  entry_range (syspage_entryAdd (H := target32) (H0 := sample_types) (Some (str "ram"))
    0x30000 0x1000 0x1000 (sample_map (str "ram") 0x40000 0x50000)) =
    Some (0x70000, 0x71000).
Proof. by vm_compute. Qed.

(** A map whose end is not aligned: the gap behind the last entry wraps, and the
    entry lies behind the map. *)
Lemma entryAdd_past_unaligned_end :
  entry_range ('(_, s) ← syspage_entryAdd (H := target32) (H0 := sample_types) (Some (str "ram"))
      0 0x480 0x10 (sample_map (str "ram") 0x40000 0x40500);
    syspage_entryAdd (H := target32) (H0 := sample_types) (Some (str "ram"))
      (addr_max (H := target32)) 0x1000 0x1000 s) = Some (0x41000, 0x42000).
Proof. by vm_compute. Qed.
