(* ===== verification/SyspageProgs.v ===== *)
(** * Programs of the system page: invariant and correctness

    The ring of programs stands for a list, like the ring of maps in
    SyspageMaps.v.  The operations that allocate memory and describe a program
    there are specified on both lists. *)

From S2P Require Import Prelude CList CString Devs Syspage SyspageMaps.

(** ** The programs a state describes *)

Record aprog := mk_aprog {
  g_ptr : Z; g_argv : cstr; g_start : Z; g_end : Z;
  g_imaps : Z; g_imapSz : Z; g_dmaps : Z; g_dmapSz : Z
}.

Definition prog_view (n : prog) (ptr : Z) (argv : cstr) : aprog :=
  mk_aprog ptr argv (p_start n) (p_end n) (p_imaps n) (p_imapSz n) (p_dmaps n) (p_dmapSz n).

Definition prog_at (s : syspage) (g : aprog) : Prop :=
  exists n, s_progt s !! g_ptr g = Some n /\ s_strt s !! p_argv n = Some (g_argv g) /\
    g = prog_view n (g_ptr g) (g_argv g).

Definition progs_at (s : syspage) (gs : list aprog) : Prop :=
  clist (s_progt s) (s_progs s) (g_ptr <$> gs) /\ Forall (prog_at s) gs.

Lemma progs_at_ext s s' gs :
  progs_at s gs -> s_progs s' = s_progs s -> s_progt s' = s_progt s ->
  (forall p c, s_strt s !! p = Some c -> s_strt s' !! p = Some c) -> progs_at s' gs.
Proof.
  intros [C F] E1 E2 E3. split; [by rewrite E1, E2|]. eapply Forall_impl; [exact F|].
  intros g (n & En & Es & V). exists n. rewrite E2. split_and!; auto.
Qed.

Lemma progs_at_lookup s gs g : progs_at s gs -> g ∈ gs -> prog_at s g.
Proof. intros [_ F] I. rewrite Forall_forall in F. by apply F. Qed.

Lemma progs_ptr_dom s gs g : progs_at s gs -> g ∈ gs -> g_ptr g ∈ dom (s_progt s).
Proof. intros P I. destruct (progs_at_lookup s gs g P I) as (n & E & _). by apply elem_of_dom_2 in E. Qed.

Lemma same_nodes_prog (h h' : gmap Z prog) p n :
  same_nodes h h' -> h !! p = Some n ->
  exists n', h' !! p = Some n' /\ p_argv n' = p_argv n /\
    forall q argv, prog_view n' q argv = prog_view n q argv.
Proof.
  intros S E. destruct (same_nodes_lookup _ _ _ _ S E) as (n' & E' & C). exists n'. split; [done|].
  destruct n, n'. injection C as -> -> -> -> -> -> ->. done.
Qed.

Lemma prog_at_same h s g : same_nodes (s_progt s) h -> prog_at s g -> prog_at (set_progt h s) g.
Proof.
  intros S (n & En & Es & V). destruct (same_nodes_prog _ _ _ _ S En) as (n' & En' & Ea & Ev).
  exists n'. cbn. rewrite Ea, Ev. by split_and!.
Qed.

(** Changing the description of one program, not its links. *)
Lemma progs_at_update s gs1 g gs2 n n' argv :
  progs_at s (gs1 ++ g :: gs2) -> s_progt s !! g_ptr g = Some n -> p_next n' = p_next n ->
  p_prev n' = p_prev n -> p_argv n' = p_argv n -> g_argv g = argv ->
  progs_at (set_progt (<[g_ptr g := n']> (s_progt s)) s) (gs1 ++ prog_view n' (g_ptr g) argv :: gs2).
Proof.
  intros [C F] En Nx Pv Ea Eg. pose proof (clist_NoDup _ _ _ C) as ND. split.
  - rewrite fmap_app in C |- *. cbn in C |- *. apply (clist_ext (s_progt s)); [done|].
    intros x _. by apply (nx_insert_links _ _ n).
  - rewrite fmap_app in ND. cbn in ND. apply NoDup_app in ND as (_ & D & ND2).
    apply NoDup_cons in ND2 as [N2 _]. apply Forall_app in F as [F1 F2].
    apply Forall_cons in F2 as [(m & Em & Es & _) F2]. rewrite En in Em. injection Em as <-.
    assert (K : forall gs, Forall (prog_at s) gs -> (forall x, x ∈ gs -> g_ptr x <> g_ptr g) ->
      Forall (prog_at (set_progt (<[g_ptr g := n']> (s_progt s)) s)) gs).
    { intros gs Fg N. rewrite Forall_forall in Fg |- *. intros x X. destruct (Fg x X) as (m & Em & R).
      exists m. cbn. by rewrite lookup_insert_ne by (by apply not_eq_sym, N). }
    apply Forall_app. split; [|constructor].
    + apply K; [done|]. intros x X E. apply (D (g_ptr x)); [apply list_elem_of_fmap; by exists x|].
      rewrite E. by left.
    + exists n'. cbn. rewrite lookup_insert_eq, Ea, Es. subst argv. by split_and!.
    + apply K; [done|]. intros x X E. apply N2. rewrite <- E. apply list_elem_of_fmap. by exists x.
Qed.

Section progs.
  Context `{Target} `{SyspageTypes}.

(** What the programs store does not matter to the maps. *)
Lemma sys_at_ext s s' ms :
  sys_at s ms -> s_maps s' = s_maps s -> s_mapt s' = s_mapt s -> s_entt s' = s_entt s ->
  (forall p c, s_strt s !! p = Some c -> s_strt s' !! p = Some c) -> heap_ok s' -> sys_at s' ms.
Proof.
  intros (C & F & ND & _) E1 E2 E3 E4 Hk. split_and!; [by rewrite E1, E2| |done|done].
  eapply Forall_impl; [exact F|]. intros am (m & Em & ? & ? & ? & ? & ? & ? & ?).
  exists m. rewrite E2, E3. split_and!; auto.
Qed.

Lemma heap_ok_set_progt s h :
  heap_ok s -> dom h = dom (s_progt s) -> heap_ok (set_progt h s).
Proof.
  intros (B & T1 & T2 & D & P) E. unfold heap_ok. cbn. split_and!; try done; try lia.
  intros p X. rewrite E in X. by apply P.
Qed.

Lemma set_heap_at s ms gs top :
  sys_at s ms -> progs_at s gs -> heap_ok (set_heap (top - s_base s) top s) ->
  sys_at (set_heap (top - s_base s) top s) ms /\ progs_at (set_heap (top - s_base s) top s) gs.
Proof. intros S P Hk. split; [by apply (sys_at_ext s)|by apply (progs_at_ext s)]. Qed.

Lemma link_prog_listAdd p s :
  p <> NULL ->
  link_prog p s = ('(h, q) ← lib_listAdd (s_progt s) (s_progs s) p; Some (set_progs q (set_progt h s))).
Proof.
  intros N. unfold link_prog, lib_listAdd. destruct (Z.eqb_spec p NULL); [done|].
  assert (Id : forall h, set_progs (s_progs s) (set_progt h s) = set_progt h s) by (by destruct s).
  destruct (s_progs s =? NULL).
  - destruct (store_upd (set_lnext p) p (s_progt s)) as [h|]; [|done]. cbn [mbind option_bind].
    by destruct (store_upd (set_lprev p) p h).
  - destruct (s_progt s !! s_progs s) as [f|]; [|done]. cbn [mbind option_bind].
    change (lprev f) with (p_prev f).
    destruct (store_upd (set_lprev (p_prev f)) p (s_progt s)) as [h|]; [|done]. cbn [mbind option_bind].
    destruct (h !! s_progs s) as [f'|]; [|done]. cbn [mbind option_bind].
    change (lprev f') with (p_prev f').
    destruct (store_upd (set_lnext p) (p_prev f') h) as [h1|]; [|done]. cbn [mbind option_bind].
    destruct (store_upd (set_lnext (s_progs s)) p h1) as [h2|]; [|done]. cbn [mbind option_bind].
    destruct (store_upd (set_lprev p) (s_progs s) h2); [|done]. cbn. by rewrite Id.
Qed.

(** The record of a new program and its argument string, not linked yet. *)
Definition with_prog (top top' : Z) (n : prog) (name : cstr) (s : syspage) : syspage :=
  set_progt (<[s_heapTop s := n]> (s_progt s))
    (set_strt (<[top := name]> (s_strt s))
      (set_heap (top' - s_base s) top' (set_heap (top - s_base s) top s))).

Lemma with_prog_at s ms gs top top' n name :
  sys_at s ms -> progs_at s gs -> heap_ok (set_heap (top' - s_base s) top' s) ->
  s_heapTop s < top -> top < top' ->
  let s' := with_prog top top' n name s in
  sys_at s' ms /\ heap_ok s' /\ Forall (prog_at s') gs /\
  clist (s_progt s') (s_progs s') (g_ptr <$> gs) /\ s_heapTop s ∉ g_ptr <$> gs.
Proof.
  intros S P Hk T T'. cbn zeta. pose proof S as (_ & _ & _ & Hs).
  destruct (heap_fresh s Hs) as (_ & _ & Fp & _ & Nz).
  assert (Ft : top ∉ dom (s_strt s)).
  { intros X. destruct Hs as (_ & _ & _ & _ & Q). enough (0 < top < s_heapTop s) by lia. apply Q. tauto. }
  assert (Fg : s_heapTop s ∉ g_ptr <$> gs).
  { intros X. apply list_elem_of_fmap in X as (g & E & I). apply Fp. rewrite E. by eapply progs_ptr_dom. }
  assert (Str : forall p c, s_strt s !! p = Some c -> (<[top := name]> (s_strt s)) !! p = Some c).
  { intros p c E. rewrite lookup_insert_ne; [done|]. intros ->. apply Ft. by apply elem_of_dom_2 in E. }
  assert (Hk' : heap_ok (with_prog top top' n name s)).
  { destruct Hs as (B0 & _), Hk as (B & T1 & T2 & D & Q). unfold heap_ok. cbn in *.
    split_and!; try done; try lia. intros p X. rewrite !dom_insert_L in X.
    destruct (decide (p = s_heapTop s)) as [-> |]; [lia|].
    destruct (decide (p = top)) as [-> |]; [lia|]. apply Q. set_solver. }
  split_and!; [by apply (sys_at_ext s)|done| | |done].
  - destruct P as [_ F]. rewrite Forall_forall in F |- *. intros g I. destruct (F g I) as (m & Em & Es & V).
    exists m. cbn. rewrite lookup_insert_ne; [by split_and!; auto|].
    intros E. apply Fg, list_elem_of_fmap. by exists g.
  - destruct P as [C _]. cbn. apply (clist_ext (s_progt s)); [done|]. intros x X.
    apply nx_insert_ne. by intros ->.
Qed.

Definition argv_of (argv : cstr) (flags : Z) : cstr :=
  (if negb (Z.land flags flagSyspageExec =? 0) then ["X"%ch] else []) ++ argv.

(** [syspage_progAdd] adds a program behind the others, or changes no program when
    the heap is full; the maps stay as they are. *)
Lemma syspage_progAdd_spec s ms gs argv flags :
  sys_at s ms -> progs_at s gs -> zlen argv < 2 ^ 15 ->
  exists r s', syspage_progAdd argv flags s = Some (r, s') /\ sys_at s' ms /\
    s_entt s' = s_entt s /\ s_heapEnd s' = s_heapEnd s /\
    s_heapTop s <= s_heapTop s' < s_heapTop s + sizeof_prog + zlen argv + 18 /\
    ((r = NULL /\ progs_at s' gs /\ s_heapEnd s <= s_heapTop s + sizeof_prog + zlen argv + 18) \/
     (r <> NULL /\ progs_at s' (gs ++ [mk_aprog r (argv_of argv flags) 0 0 NULL 0 NULL 0]))).
Proof.
  intros S P L. pose proof S as (_ & _ & _ & Hk). unfold syspage_progAdd.
  pose proof sizeof_pos as (_ & _ & _ & Pp). assert (Hp : 0 < sizeof_prog <= 2 ^ 16) by lia.
  destruct (syspage_alloc_spec sizeof_prog s Hk Hp) as [(top & -> & T & Hk1)|[-> Full]].
  2: { exists NULL, s. split; [done|]. split; [done|]. split; [done|]. split; [done|]. split; [lia|].
       left. split; [done|]. split; [done|lia]. }
  destruct (heap_fresh s Hk) as (_ & _ & _ & _ & Nz). destruct (Z.eqb_spec (s_heapTop s) NULL); [done|].
  set (p := s_heapTop s) in *. destruct (set_heap_at s ms gs top S P Hk1) as [S1 P1].
  set (s1 := set_heap _ top s) in *. set (isExec := b2z _). rewrite hal_strlen_length.
  assert (0 <= isExec <= 1) by (unfold isExec, b2z; destruct (negb _); lia).
  destruct (syspage_alloc_spec (isExec + zlen argv + 1) s1 Hk1 ltac:(lia)) as [(top' & -> & T' & Hk2)|[-> Full]].
  2: { exists NULL, s1. split; [done|]. split; [done|]. split; [done|]. split; [done|].
       cbn in Full |- *. split; [lia|]. left. split; [done|]. split; [done|lia]. }
  destruct (heap_fresh s1 Hk1) as (_ & _ & _ & _ & Nz1). destruct (Z.eqb_spec (s_heapTop s1) NULL); [done|].
  set (nd := mk_prog NULL NULL 0 0 (s_heapTop s1) NULL 0 NULL 0).
  assert (En : (if isExec =? 0 then [] else ["X"%ch]) ++ argv = argv_of argv flags)
    by (unfold isExec, argv_of, b2z; by destruct (negb _)).
  rewrite En.
  match goal with |- context [link_prog p ?x] => change x with (with_prog top top' nd (argv_of argv flags) s) end.
  destruct (with_prog_at s ms gs top top' nd (argv_of argv flags) S P Hk2 ltac:(lia))
    as (S2 & Hk3 & F2 & C2 & Np); [cbn in T'; lia|].
  set (s2 := with_prog _ _ _ _ _) in *. rewrite link_prog_listAdd by done.
  assert (Ep : s_progt s2 !! p = Some nd) by (cbn; by rewrite lookup_insert_eq).
  destruct (lib_listAdd_spec (s_progt s2) (s_progs s2) (g_ptr <$> gs) p C2) as (h & q & -> & Cl & Sn);
    [by apply elem_of_dom_2 in Ep|done|done|]. cbn [mbind option_bind].
  assert (Hk4 : heap_ok (set_progs q (set_progt h s2))).
  { destruct Sn as [_ Dn]. apply (heap_ok_set_progt s2 h Hk3 Dn). }
  exists p, (set_progs q (set_progt h s2)). split; [done|]. split; [by apply (sys_at_ext s2)|].
  split; [done|]. split; [done|]. split; [cbn in T' |- *; lia|right].
  split; [done|]. split.
  - cbn. by rewrite fmap_app.
  - apply Forall_app. split; [|constructor; [|constructor]].
    + eapply Forall_impl; [exact F2|]. intros g G. exact (prog_at_same h s2 g Sn G).
    + destruct (same_nodes_prog _ _ _ _ Sn Ep) as (n' & En' & Ea & Ev). exists n'. cbn -[prog_view].
      rewrite Ev. split_and!; [done|by rewrite Ea, lookup_insert_eq|done].
Qed.

(** ** Allocation of memory with a program that describes it *)

(** The name of a program, without the mark of an executable. *)
Definition bare (argv : cstr) : cstr := if deref argv =? "X"%ch then tail argv else argv.

Lemma bare_ok argv : cstr_ok argv -> cstr_ok (bare argv).
Proof. intros O. unfold bare. destruct (_ =? _); [|done]. destruct O; [constructor|done]. Qed.

(** The search for a program of the name. *)
Lemma progs_find_spec s gs argv :
  progs_at s gs -> cstr_ok argv -> Forall (fun g => cstr_ok (g_argv g)) gs -> gs <> [] ->
  s_progs s <> NULL /\
  ring_find (size (s_progt s)) (s_progt s)
    (fun _ p => if hal_strcmp argv (prog_name s p) =? 0 then Some tt else None) (s_progs s) (s_progs s) =
  Some (if existsb (fun g => bool_decide (bare (g_argv g) = argv)) gs then Some tt else None).
Proof.
  intros [C F] O Og N. assert (Fn : find_nodes (s_progt s)
      (fun _ p => if hal_strcmp argv (prog_name s p) =? 0 then Some tt else None) (g_ptr <$> gs) =
    if existsb (fun g => bool_decide (bare (g_argv g) = argv)) gs then Some tt else None).
  { clear C N. induction gs as [|g gs IH]; [done|]. apply Forall_cons in F as [(n & En & Es & _) F].
    apply Forall_cons in Og as [Ogg Og]. cbn [fmap list_fmap find_nodes existsb]. rewrite En.
    unfold prog_name. rewrite Es. cbn [default from_option id]. fold (bare (g_argv g)).
    pose proof (hal_strcmp_eq argv (bare (g_argv g)) O (bare_ok _ Ogg)) as Q.
    destruct (Z.eqb_spec (hal_strcmp argv (bare (g_argv g))) 0), (bool_decide_reflect (bare (g_argv g) = argv));
      cbn [orb]; try done; [naive_solver|naive_solver|by apply IH]. }
  destruct gs as [|g gs]; [done|]. destruct C as [C0 C]. rewrite C0. split.
  - intros E. destruct C as (_ & _ & NN). apply NN. rewrite <- E. by left.
  - rewrite (ring_find_spec _ _ _ _ C). f_equal. exact Fn.
Qed.

(** The entry of [sz] bytes at [st] in the map [i]. *)
Definition allocated (ms : list amap) (i : nat) (am : amap) (st sz : Z) (ps : list Z) : list amap :=
  <[i := with_ents ps (insert_sorted (mk_aent st (st + sz) hal_entryAllocated) (a_ents am)) am]> ms.

(** What an allocation in a map needs: the addresses are below 4 GiB, its bounds
    and the starts of its entries aligned, its name is its own, and an empty map is
    big enough. *)
Definition can_alloc (ms : list amap) (i : nat) (am : amap) (k sz : Z) : Prop :=
  ms !! i = Some am /\ name_at ms i (a_name am) /\ 0 < sz /\ fit_ok k (a_start am) (a_end am) (a_ents am) /\
  (a_ents am = [] -> round_up (2 ^ k) (a_start am) + sz <= a_end am).


End progs.

(** ** A program in the map of the sample *)

