(* ===== verification/Mpu.v ===== *)
(** * Memory protection regions of ARMv7 (src/hal/armv7m/mpu.c)

    The loader translates every memory map to one or two regions of the memory
    protection unit and hands the table to the kernel.  src/hal/armv7r/mpu.c has
    the same functions but for the instruction that reads the type register.

    The first part is the code.  An index outside the table of 16 regions, a shift
    by the width of the word or more and [__builtin_ctz(0)] are undefined in C and
    answer [None].  The second part is what the registers mean to the processor
    (the PMSAv7 lookup: the highest enabled region with an enabled subregion around
    the address decides), against which the code is verified. *)

From S2P Require Import Prelude Mem Devs Syspage.

Definition EPERM := 1.

Record mpu_region := mk_region { rbar : Z; rasr : Z }.

Record mpu_common := mk_mpu {
  mpu_type : Z;
  mpu_regCnt : Z;
  mpu_regMax : Z;
  mpu_mapCnt : Z;
  mpu_table : list mpu_region;
  mpu_mapId : list Z
}.

(** The static storage of [mpu_common]. *)
Definition mpu_static : mpu_common :=
  mk_mpu 0 0 0 0 (replicate 16 (mk_region 0 0)) (replicate 16 0).

(** [1u << n] *)
Definition shl1 (n : Z) : option Z := if (0 <=? n) && (n <? 32) then Some (2 ^ n) else None.

(** [x >> n] of a 32-bit word *)
Definition shr (x n : Z) : option Z := if (0 <=? n) && (n <? 32) then Some (Z.shiftr x n) else None.

(** [__builtin_ctz] and [32 - __builtin_clz] of a 32-bit word, which is not 0. *)
Fixpoint pos_ctz (p : positive) : Z := match p with xO p => 1 + pos_ctz p | _ => 0 end.
Definition ctz (x : Z) : option Z := match x with Zpos p => Some (pos_ctz p) | _ => None end.
Definition msb (x : Z) : option Z := if x =? 0 then None else Some (Z.log2 x + 1).

Definition HOLE_ATTR (rasrAttr : Z) : Z := Z.land rasrAttr 1.

(** [region[i] = r] and [mapId[i] = id]. *)
Definition set_region (i : Z) (r : mpu_region) (s : mpu_common) : option mpu_common :=
  if (0 <=? i) && (i <? zlen (mpu_table s)) then
    Some (mk_mpu (mpu_type s) (mpu_regCnt s) (mpu_regMax s) (mpu_mapCnt s)
      (<[Z.to_nat i := r]> (mpu_table s)) (mpu_mapId s))
  else None.

Definition set_mapId (i id : Z) (s : mpu_common) : option mpu_common :=
  if (0 <=? i) && (i <? zlen (mpu_mapId s)) then
    Some (mk_mpu (mpu_type s) (mpu_regCnt s) (mpu_regMax s) (mpu_mapCnt s)
      (mpu_table s) (<[Z.to_nat i := id]> (mpu_mapId s)))
  else None.

(** The result, [*idx] and the state. *)
Definition mpu_regionSet (idx baseAddr srdMask sizeBit rasrAttr : Z) (s : mpu_common)
    : option (Z * Z * mpu_common) :=
  if (sizeBit <? 5) || (mpu_regMax s <=? idx) then Some (- EPERM, idx, s)
  else
    s ← set_region idx
      (mk_region
        (Z.lor (Z.lor baseAddr 0x10) (Z.land idx 0xf))
        (Z.lor (Z.lor rasrAttr (Z.shiftl srdMask 8)) (Z.shiftl (Z.land (sizeBit - 1) 0x1f) 1))) s;
    Some (EOK, idx + 1, s).

(** [(x != 0) & 1u) << n] *)
Definition flag_bit (b : bool) (n : Z) : Z := Z.shiftl (b2z b) n.

Definition has_attr (attr a : Z) : bool := negb (Z.land attr a =? 0).

Definition mpu_regionAttrs `{SyspageTypes} (attr enable : Z) : Z :=
  let tex := 0 in
  let ap := 1 in
  let ap := if has_attr attr mAttrRead then 2 else ap in
  let ap := if has_attr attr mAttrWrite then 3 else ap in
  Z.lor (Z.lor (Z.lor (Z.lor (Z.lor (Z.lor
    (flag_bit (negb (has_attr attr mAttrExec)) 28)
    (Z.shiftl (Z.land ap 7) 24))
    (Z.shiftl (Z.land tex 7) 19))
    (flag_bit (has_attr attr mAttrShareable) 18))
    (flag_bit (has_attr attr mAttrCacheable) 17))
    (flag_bit (has_attr attr mAttrBufferable) 16))
    (b2z (negb (enable =? 0))).

(** The inner loop of [mpu_checkOverlap] over [k] subregions. *)
Fixpoint overlap_subregions (k : nat) (start end_ step srStart subregions : Z) : bool :=
  match k with
  | O => false
  | S k =>
      let srEnd := w32 (srStart + step - 1) in
      if (Z.land subregions 1 =? 0) && (start <=? srEnd) && (srStart <=? end_) then true
      else overlap_subregions k start end_ step (w32 (srEnd + 1)) (Z.shiftr subregions 1)
  end.

(** One region of the outer loop. *)
Definition overlap_region (start end_ : Z) (r : mpu_region) : option bool :=
  if (Z.land (rbar r) 0x10 =? 0) || (Z.land (rasr r) 1 =? 0) then Some false
  else
    let sizeBit := Z.land (Z.shiftr (rasr r) 1) 0x1f + 1 in
    blk ← shl1 sizeBit;
    let srStart := Z.ldiff (rbar r) (blk - 1) in
    let subregions := Z.land (Z.shiftr (rasr r) 8) 0xff in
    step ← shl1 (sizeBit - 3);
    Some (overlap_subregions 8 start end_ step srStart subregions).

Fixpoint overlap_loop (start end_ : Z) (i n : nat) (s : mpu_common) : option bool :=
  match n with
  | O => Some false
  | S n =>
      r ← mpu_table s !! i;
      b ← overlap_region start end_ r;
      if (b : bool) then Some true else overlap_loop start end_ (S i) n s
  end.

Definition mpu_checkOverlap (idx start end_ : Z) (s : mpu_common) : option bool :=
  overlap_loop start (w32 (end_ - 1)) 0 (Z.to_nat idx) s.

Definition mpu_regionCalculateAndSet (idx start end_ sizeBit rasrAttr : Z) (s : mpu_common)
    : option (Z * Z * mpu_common) :=
  blk ← shl1 sizeBit;
  let baseAddr := Z.ldiff start (blk - 1) in
  a ← shr start (sizeBit - 3);
  b ← shr end_ (sizeBit - 3);
  let srStart := Z.land a 7 in
  let srEnd := Z.land b 7 in
  let srEnd := if srEnd =? 0 then 8 else srEnd in
  let srdMask := w8 (Z.lnot (Z.land (2 ^ srEnd - 1) (Z.shiftl 0xff srStart))) in
  mpu_regionSet idx baseAddr srdMask sizeBit rasrAttr s.

(** The last part of [mpu_regionGenerate]: a larger region, and a hole in it made by
    [generate]. *)
Definition mpu_regionCut
    (generate : Z -> Z -> Z -> Z -> mpu_common -> option (Z * Z * mpu_common))
    (idx start end_ commonMsb rasrAttr : Z) (s : mpu_common) : option (Z * Z * mpu_common) :=
  step ← shl1 (commonMsb - 3);
  let diffMask := step - 1 in
  let cut :=
    if Z.ldiff start diffMask =? start then
      let alignedEnd := w32 (Z.ldiff end_ diffMask + diffMask + 1) in
      Some (start, alignedEnd, end_, alignedEnd)
    else if Z.ldiff end_ diffMask =? end_ then
      let alignedStart := Z.ldiff start diffMask in
      Some (alignedStart, end_, alignedStart, start)
    else None in
  match cut with
  | None => Some (- EPERM, idx, s)
  | Some (alignedStart, alignedEnd, holeStart, holeEnd) =>
      overlap ← mpu_checkOverlap idx holeStart holeEnd s;
      if (overlap : bool) then Some (- EPERM, idx, s)
      else
        '(res, idx, s) ← mpu_regionCalculateAndSet idx alignedStart alignedEnd commonMsb rasrAttr s;
        if res =? EOK then generate idx holeStart holeEnd (HOLE_ATTR rasrAttr) s
        else Some (res, idx, s)
  end.

(** The recursion of [mpu_regionGenerate] for the hole, at most [fuel] deep. *)
Fixpoint mpu_regionGenerate (fuel : nat) (idx start end_ rasrAttr : Z) (s : mpu_common)
    : option (Z * Z * mpu_common) :=
  match fuel with
  | O => None
  | S fuel =>
      let size := w32 (end_ - start) in
      if negb (end_ =? 0) && (end_ <=? start) then Some (- EINVAL, idx, s)
      else if size =? 0 then mpu_regionSet idx 0 0 32 rasrAttr s
      else
        k ← ctz size;
        if (size =? 2 ^ k) && (Z.land start (size - 1) =? 0) then
          if size <? 32 then Some (- EPERM, idx, s)
          else mpu_regionSet idx start 0 k rasrAttr s
        else
          commonTrailingZeroes ← ctz (Z.lor start end_);
          if commonTrailingZeroes <? 5 then Some (- EPERM, idx, s)
          else
            commonMsb ← msb (Z.lxor start (w32 (end_ - 1)));
            let sigBits := commonMsb - commonTrailingZeroes in
            if sigBits <=? 3 then
              mpu_regionCalculateAndSet idx start end_ (commonTrailingZeroes + 3) rasrAttr s
            else if sigBits =? 4 then
              let sizeBit := commonTrailingZeroes + 3 in
              blk ← shl1 sizeBit;
              let diffMask := blk - 1 in
              let reg1End := w32 (Z.ldiff start diffMask + diffMask + 1) in
              '(res, idx, s) ← mpu_regionCalculateAndSet idx start reg1End sizeBit rasrAttr s;
              if res =? EOK then mpu_regionCalculateAndSet idx reg1End end_ sizeBit rasrAttr s
              else Some (res, idx, s)
            else if rasrAttr =? HOLE_ATTR rasrAttr then Some (- EPERM, idx, s)
            else mpu_regionCut (mpu_regionGenerate fuel) idx start end_ commonMsb rasrAttr s
  end.

(** The bodies of the loops of [mpu_regionInvalidate] and [mpu_regionAssignMap]. *)
Definition invalidate_region (i : Z) (s : mpu_common) : option mpu_common :=
  s ← set_mapId i (w32 (-1)) s;
  set_region i (mk_region (Z.land i 0xf) (Z.lor (Z.shiftl 1 28) (Z.shiftl 0x1f 1))) s.

Definition assign_region (mapId i : Z) (s : mpu_common) : option mpu_common :=
  r ← mpu_table s !! Z.to_nat i;
  if negb (Z.land (rbar r) 0x10 =? 0) then set_mapId i mapId s else Some s.

(** [for (i = first; i < last && i < regMax; i++) body], [k] bounds the steps. *)
Fixpoint regions_loop (body : Z -> mpu_common -> option mpu_common) (k : nat) (i last : Z)
    (s : mpu_common) : option mpu_common :=
  match k with
  | O => Some s
  | S k =>
      if (i <? last) && (i <? mpu_regMax s) then
        s ← body i s;
        regions_loop body k (i + 1) last s
      else Some s
  end.

Definition mpu_regionInvalidate (first last : Z) (s : mpu_common) : option mpu_common :=
  regions_loop invalidate_region 256 (w8 first) (w8 last) s.

Definition mpu_regionAssignMap (first last mapId : Z) (s : mpu_common) : option mpu_common :=
  regions_loop (assign_region mapId) 256 (w8 first) (w8 last) s.

(** [type] is the value of the type register. *)
Definition mpu_init (type : Z) (s : mpu_common) : option mpu_common :=
  mpu_regionInvalidate 0 16
    (mk_mpu type 0 (w8 (Z.shiftr type 8)) 0 (mpu_table s) (mpu_mapId s)).

Definition mpu_regionAlloc `{SyspageTypes} (addr end_ attr mapId enable : Z) (s : mpu_common)
    : option (Z * mpu_common) :=
  let rasrAttr := mpu_regionAttrs attr enable in
  '(res, regCur, s) ← mpu_regionGenerate 2 (mpu_regCnt s) addr end_ rasrAttr s;
  if negb (res =? EOK) then
    s ← mpu_regionInvalidate (mpu_regCnt s) regCur s;
    Some (res, s)
  else
    s ← mpu_regionAssignMap (mpu_regCnt s) regCur mapId s;
    Some (EOK, mk_mpu (mpu_type s) regCur (mpu_regMax s) (w32 (mpu_mapCnt s + 1))
      (mpu_table s) (mpu_mapId s)).

(** The system page of the platform has room for [n] regions. *)
Record hal_mpu := mk_hal_mpu {
  hm_type : Z; hm_allocCnt : Z; hm_table : list mpu_region; hm_map : list Z
}.

Definition mpu_getHalData (n : nat) (s : mpu_common) : option (hal_mpu * mpu_common) :=
  s ← mpu_regionInvalidate (mpu_regCnt s) (mpu_regMax s) s;
  if (n <=? length (mpu_table s))%nat && (n <=? length (mpu_mapId s))%nat then
    Some (mk_hal_mpu (mpu_type s) (mpu_regCnt s) (take n (mpu_table s)) (take n (mpu_mapId s)), s)
  else None.

(** ** What the registers mean *)

Definition region_bit (r : mpu_region) : Z := (rasr r / 2) mod 32 + 1.

(** The region is enabled, the address lies in it, and its subregion is not
    disabled. *)
Definition region_match (r : mpu_region) (x : Z) : bool :=
  (rasr r mod 2 =? 1) && (x / 2 ^ region_bit r =? rbar r / 2 ^ region_bit r) &&
  negb (Z.testbit (rasr r) (8 + (x / 2 ^ (region_bit r - 3)) mod 8)).

(** The fields XN, AP, TEX, S, C and B. *)
Definition region_attr (r : mpu_region) : Z := rasr r / 2 ^ 16.
Definition attr_ap (a : Z) : Z := (a / 2 ^ 8) mod 8.

(** The attributes and the map of the highest region that matches. *)
Fixpoint mpu_lookup (l : list (mpu_region * Z)) (x : Z) : option (Z * Z) :=
  match l with
  | [] => None
  | (r, id) :: l =>
      match mpu_lookup l x with
      | Some a => Some a
      | None => if region_match r x then Some (region_attr r, id) else None
      end
  end.

(** The access the processor grants: none where no region matches, and none where
    the access permissions of the region are 0. *)
Definition granted (a : option (Z * Z)) : option (Z * Z) :=
  match a with
  | Some (a, id) => if attr_ap a =? 0 then None else Some (a, id)
  | None => None
  end.

Definition mpu_access (s : mpu_common) (x : Z) : option (Z * Z) :=
  granted (mpu_lookup (zip (mpu_table s) (mpu_mapId s)) x).

(** A region as the loader sets it: [k] is its size bit, [hi] its attributes. *)
Definition built (r : mpu_region) (base srd k hi : Z) : Prop :=
  (exists low, rbar r = base + low /\ 16 <= low < 32) /\ (2 ^ k | base) /\ 0 <= base < 2 ^ 32 /\
  rasr r = hi * 65536 + srd * 256 + (k - 1) * 2 + 1 /\
  0 <= srd < 256 /\ 5 <= k <= 31 /\ 0 <= hi.

Lemma mpu_lookup_app l1 l2 x :
  mpu_lookup (l1 ++ l2) x = match mpu_lookup l2 x with Some a => Some a | None => mpu_lookup l1 x end.
Proof.
  induction l1 as [|[r id] l1 IH]; cbn; [by destruct (mpu_lookup l2 x)|].
  rewrite IH. by destruct (mpu_lookup l2 x).
Qed.

Lemma built_bit r base srd k hi : built r base srd k hi -> region_bit r = k.
Proof. intros (_ & _ & _ & E & S & K & H). unfold region_bit. rewrite E. modlia. Qed.

Lemma built_attr r base srd k hi : built r base srd k hi -> region_attr r = hi.
Proof. intros (_ & _ & _ & E & S & K & H). unfold region_attr. rewrite E. fold_pows. modlia. Qed.

Lemma built_base r base srd k hi : built r base srd k hi -> rbar r / 2 ^ k = base / 2 ^ k.
Proof.
  intros ((low & E & L) & (q & ->) & _ & _ & _ & K & _). rewrite E.
  assert (32 <= 2 ^ k) by (change 32 with (2 ^ 5); apply Z.pow_le_mono_r; lia).
  rewrite Z.div_mul, Z.add_comm, Z.div_add by lia. rewrite Z.div_small; lia.
Qed.

Lemma built_srd r base srd k hi j :
  built r base srd k hi -> 0 <= j < 8 -> Z.testbit (rasr r) (8 + j) = Z.testbit srd j.
Proof.
  intros (_ & _ & _ & E & S & K & H) J. rewrite Z.add_comm, <- Z.div_pow2_bits by lia.
  rewrite <- (Z.mod_pow2_bits_low (_ / _) 8 j) by lia. f_equal. rewrite E. fold_pows. modlia.
Qed.

Lemma built_match r base srd k hi x :
  built r base srd k hi ->
  region_match r x = (x / 2 ^ k =? base / 2 ^ k) && negb (Z.testbit srd ((x / 2 ^ (k - 3)) mod 8)).
Proof.
  intros B. unfold region_match. rewrite (built_bit _ _ _ _ _ B), (built_base _ _ _ _ _ B).
  rewrite (built_srd _ _ _ _ _ _ B) by (apply Z.mod_pos_bound; lia).
  destruct B as (_ & _ & _ & E & S & K & H).
  replace (rasr r mod 2 =? 1) with true; [done|]. symmetry. apply Z.eqb_eq. rewrite E. modlia.
Qed.

(** ** Setting a region *)

Definition with_table (t : list mpu_region) (s : mpu_common) : mpu_common :=
  mk_mpu (mpu_type s) (mpu_regCnt s) (mpu_regMax s) (mpu_mapCnt s) t (mpu_mapId s).

Lemma lor_disjoint a b k q :
  0 <= k -> 0 <= a < 2 ^ k -> b = q * 2 ^ k -> Z.lor a b = a + b.
Proof.
  intros K A ->. rewrite <- (Z.shiftl_mul_pow2 q k), lor_shiftl_add by done.
  by rewrite Z.shiftl_mul_pow2.
Qed.

Lemma rbar_value base idx q :
  base = q * 32 -> 0 <= idx < 16 -> Z.lor (Z.lor base 0x10) (Z.land idx 0xf) = base + (16 + idx).
Proof.
  intros E I. change 0xf with (Z.ones 4). rewrite Z.land_ones, (Z.mod_small idx) by lia.
  rewrite <- Z.lor_assoc, (Z.lor_comm 0x10), (lor_disjoint idx 0x10 4 1), Z.lor_comm by lia.
  rewrite (lor_disjoint _ base 5 q) by lia. lia.
Qed.

Lemma rasr_value hi srd k :
  0 <= hi -> 0 <= srd < 256 -> 5 <= k <= 32 ->
  Z.lor (Z.lor (hi * 65536 + 1) (Z.shiftl srd 8)) (Z.shiftl (Z.land (k - 1) 0x1f) 1) =
    hi * 65536 + srd * 256 + (k - 1) * 2 + 1.
Proof.
  intros Hh Hs Hk. change 0x1f with (Z.ones 5). rewrite Z.land_ones, Z.mod_small by lia.
  rewrite !Z.shiftl_mul_pow2 by lia. fold_pows. change (2 ^ 1) with 2.
  rewrite (Z.add_comm (hi * 65536)), <- (lor_disjoint 1 _ 16 hi) by lia.
  assert (R : forall a b c d, Z.lor (Z.lor (Z.lor a b) c) d = Z.lor (Z.lor (Z.lor a d) c) b)
    by (intros; apply Z.bits_inj'; intros; rewrite !Z.lor_spec; btauto).
  rewrite R.
  rewrite (lor_disjoint 1 _ 1 (k - 1)), (lor_disjoint _ (srd * 256) 8 srd),
    (lor_disjoint _ (hi * 65536) 16 hi) by lia. lia.
Qed.

(** Setting a region behind the regions [pre] in use. *)
Lemma mpu_regionSet_spec s pre r0 rest base srd k hi :
  mpu_table s = pre ++ r0 :: rest -> (length pre < 16)%nat ->
  (2 ^ k | base) -> 0 <= base < 2 ^ 32 -> 0 <= srd < 256 -> 5 <= k <= 31 -> 0 <= hi ->
  mpu_regionSet (zlen pre) base srd k (hi * 65536 + 1) s =
    if mpu_regMax s <=? zlen pre then Some (- EPERM, zlen pre, s)
    else Some (EOK, zlen pre + 1,
      with_table (pre ++ mk_region (base + (16 + zlen pre)) (hi * 65536 + srd * 256 + (k - 1) * 2 + 1) :: rest) s).
Proof.
  intros E L D B Hs K Hh. unfold mpu_regionSet. replace (k <? 5) with false by lia. cbn [orb].
  destruct (_ <=? _); [done|]. unfold set_region. rewrite E, length_app. cbn [length].
  replace (0 <=? zlen pre) with true by lia. rewrite (proj2 (Z.ltb_lt _ _)) by lia.
  cbn [mbind option_bind]. unfold with_table. cbn [mpu_regMax]. do 3 f_equal.
  rewrite Nat2Z.id, insert_app_r_alt, Nat.sub_diag by done. cbn.
  assert (2 ^ k = 2 ^ (k - 5) * 32) by (change 32 with (2 ^ 5); rewrite <- Z.pow_add_r by lia; f_equal; lia).
  destruct D as (q & ->). rewrite (rbar_value _ _ (q * 2 ^ (k - 5))) by lia.
  by rewrite rasr_value by lia.
Qed.

Lemma built_set base srd k hi i :
  (2 ^ k | base) -> 0 <= base < 2 ^ 32 -> 0 <= srd < 256 -> 5 <= k <= 31 -> 0 <= hi -> 0 <= i < 16 ->
  built (mk_region (base + (16 + i)) (hi * 65536 + srd * 256 + (k - 1) * 2 + 1)) base srd k hi.
Proof. intros. split_and!; try done; try lia. exists (16 + i). cbn. lia. Qed.

(** ** Regions with subregions *)

(** The end of a range: 0 is the end of the address space. *)
Definition upto (end_ : Z) : Z := if end_ =? 0 then 2 ^ 32 else end_.

(** The region grants [hi] in [lo, up) and nothing elsewhere. *)
Definition covers (r : mpu_region) (lo up hi : Z) : Prop :=
  (exists base srd k, built r base srd k hi) /\
  forall x, 0 <= x -> region_match r x = (lo <=? x) && (x <? up).

Definition srd_of (a b : Z) : Z := w8 (Z.lnot (Z.land (2 ^ b - 1) (Z.shiftl 0xff a))).

Lemma srd_of_bit a b j :
  0 <= a < 8 -> 1 <= b <= 8 -> 0 <= j < 8 ->
  Z.testbit (srd_of a b) j = negb ((a <=? j) && (j <? b)).
Proof.
  intros A B J.
  assert (T : forallb (fun a => forallb (fun b => forallb (fun j =>
      Bool.eqb (Z.testbit (srd_of (Z.of_nat a) (Z.of_nat b)) (Z.of_nat j))
        (negb ((Z.of_nat a <=? Z.of_nat j) && (Z.of_nat j <? Z.of_nat b))))
      (seq 0 8)) (seq 1 8)) (seq 0 8) = true) by (by vm_compute).
  rewrite forallb_forall in T. specialize (T (Z.to_nat a)). rewrite in_seq, forallb_forall in T.
  specialize (T ltac:(lia) (Z.to_nat b)). rewrite in_seq, forallb_forall in T.
  specialize (T ltac:(lia) (Z.to_nat j)). rewrite in_seq in T. specialize (T ltac:(lia)).
  rewrite !Z2Nat.id in T by lia. by apply eqb_prop.
Qed.

Lemma srd_of_range a b : 0 <= srd_of a b < 256.
Proof. unfold srd_of, w8. apply Z.mod_pos_bound. lia. Qed.

Lemma pow2_pos k : 0 <= k -> 0 < 2 ^ k.
Proof. intros. by apply Z.pow_pos_nonneg. Qed.

Lemma pow2_split a b : 0 <= a <= b -> 2 ^ b = 2 ^ (b - a) * 2 ^ a.
Proof. intros. rewrite <- Z.pow_add_r by lia. f_equal. lia. Qed.

(** [x / 2^k] from [x / 2^g], three bits below. *)
Lemma div_cell x k : 3 <= k -> x / 2 ^ k = x / 2 ^ (k - 3) / 8.
Proof.
  intros. rewrite Z.div_div by (try apply Z.pow_nonzero; lia). f_equal.
  change 8 with (2 ^ 3). rewrite <- Z.pow_add_r by lia. f_equal. lia.
Qed.

Lemma le_cell s x p : 0 < p -> s <= x / p <-> s * p <= x.
Proof.
  intros. split; intros L.
  - pose proof (Z.mul_div_le x p). nia.
  - apply Z.div_le_lower_bound; lia.
Qed.

Lemma lt_cell e x p : 0 < p -> x / p < e <-> x < e * p.
Proof. intros. pose proof (le_cell e x p). lia. Qed.

(** Cells [s0 .. e) of one block of eight. *)
Lemma cells_match s0 e X :
  s0 < e -> s0 / 8 = (e - 1) / 8 ->
  let b := if e mod 8 =? 0 then 8 else e mod 8 in
  (X / 8 =? s0 / 8) && ((s0 mod 8 <=? X mod 8) && (X mod 8 <? b)) = (s0 <=? X) && (X <? e).
Proof.
  intros L E b. apply eq_true_iff_eq. rewrite !andb_true_iff, Z.eqb_eq, !Z.leb_le, !Z.ltb_lt.
  unfold b. destruct (Z.eqb_spec (e mod 8) 0); modlia.
Qed.

Lemma mod_land7 x : Z.land x 7 = x mod 8.
Proof. change 7 with (Z.ones 3). by rewrite Z.land_ones by lia. Qed.

Lemma mod_land1 x : Z.land x 1 = x mod 2.
Proof. change 1 with (Z.ones 1). by rewrite Z.land_ones by lia. Qed.

Lemma ldiff_block x k : 0 <= k -> Z.ldiff x (2 ^ k - 1) = x / 2 ^ k * 2 ^ k.
Proof.
  intros. replace (2 ^ k - 1) with (Z.ones k) by (rewrite Z.ones_equiv; lia).
  by rewrite Z.ldiff_ones_r, Z.shiftl_mul_pow2, Z.shiftr_div_pow2 by lia.
Qed.

(** Dropping the bits above the word leaves the number of the cell. *)
Lemma cell_w32 x k : 3 <= k <= 32 -> (w32 x / 2 ^ (k - 3)) mod 8 = (x / 2 ^ (k - 3)) mod 8.
Proof.
  intros K. unfold w32. pose proof (pow2_pos (k - 3) ltac:(lia)) as P.
  rewrite (pow2_split (k - 3) 32) by lia. rewrite (Z.mul_comm (2 ^ (32 - (k - 3)))).
  rewrite Z.rem_mul_r by (try apply pow2_pos; lia). rewrite Z.add_comm, Z.mul_comm, Z.div_add_l by lia.
  rewrite (Z.div_small (x mod _)), Z.add_0_r by (apply Z.mod_pos_bound; lia).
  replace (2 ^ (32 - (k - 3))) with (2 ^ (32 - k) * 8)
    by (change 8 with (2 ^ 3); rewrite <- Z.pow_add_r by lia; f_equal; lia).
  apply Z.mod_mod_divide. by exists (2 ^ (32 - k)).
Qed.

(** What a function that sets regions does: it fails and leaves the regions [pre]
    in use, or it puts the regions [news] behind them. *)
Inductive setting (s : mpu_common) (pre rest : list mpu_region) (P : list mpu_region -> Prop) :
    option (Z * Z * mpu_common) -> Prop :=
  | setting_done news :
      P news -> zlen pre + zlen news <= mpu_regMax s -> (length news <= length rest)%nat ->
      setting s pre rest P
        (Some (EOK, zlen pre + zlen news, with_table (pre ++ news ++ drop (length news) rest) s))
  | setting_failed news res :
      res <> EOK -> zlen pre + zlen news <= mpu_regMax s -> (length news <= length rest)%nat ->
      setting s pre rest P
        (Some (res, zlen pre + zlen news, with_table (pre ++ news ++ drop (length news) rest) s)).

Lemma with_table_id t s : mpu_table s = t -> with_table t s = s.
Proof. by intros <-; destruct s. Qed.

Lemma with_table_twice t t' s : with_table t (with_table t' s) = with_table t s.
Proof. done. Qed.

Lemma setting_error s pre rest P res :
  mpu_table s = pre ++ rest -> zlen pre <= mpu_regMax s -> res <> EOK ->
  setting s pre rest P (Some (res, zlen pre, s)).
Proof.
  intros E M N.
  pose proof (setting_failed s pre rest P [] res N ltac:(cbn; lia) ltac:(cbn; lia)) as H.
  cbn [length drop app] in H. rewrite with_table_id in H by done. by rewrite Z.add_0_r in H.
Qed.

Lemma setting_impl s pre rest (P Q : list mpu_region -> Prop) out :
  setting s pre rest P out -> (forall news, P news -> Q news) -> setting s pre rest Q out.
Proof. intros [] PQ; constructor; auto. Qed.

(** One step behind another: [if (res == EOK) ...]. *)
Lemma setting_bind s pre rest P Q out f :
  setting s pre rest P out ->
  (forall news, P news -> (length news <= length rest)%nat -> zlen pre + zlen news <= mpu_regMax s ->
    let s' := with_table (pre ++ news ++ drop (length news) rest) s in
    setting s' (pre ++ news) (drop (length news) rest) (fun n => Q (news ++ n))
      (f (zlen (pre ++ news)) s')) ->
  setting s pre rest Q
    ('(res, idx, s) ← out; if res =? EOK then f idx s else Some (res, idx, s)).
Proof.
  intros [news Pn M L|news res N M L] F; cbn [mbind option_bind].
  - cbn [EOK Z.eqb]. specialize (F news Pn L M). cbn zeta in F.
    rewrite length_app, Nat2Z.inj_add in F. revert F.
    generalize (f (zlen pre + zlen news) (with_table (pre ++ news ++ drop (length news) rest) s)).
    intros o [n Qn M' L'|n res N M' L']; rewrite length_app, length_drop, ?Nat2Z.inj_add in *;
      cbn [mpu_regMax with_table] in M'; rewrite <- app_assoc, with_table_twice, drop_drop;
      rewrite <- Z.add_assoc, <- Nat2Z.inj_add, <- length_app, (app_assoc news n);
      constructor; rewrite ?length_app, ?Nat2Z.inj_add; auto; lia.
  - destruct (Z.eqb_spec res EOK); [done|]. by constructor.
Qed.

Section mpu.
Variables (s : mpu_common) (pre rest : list mpu_region).
Hypothesis Tab : mpu_table s = pre ++ rest.
Hypothesis Len : length (pre ++ rest) = 16%nat.
Hypothesis Max : zlen pre <= mpu_regMax s <= 16.

Lemma regionSet_setting base srd k hi :
  (2 ^ k | base) -> 0 <= base < 2 ^ 32 -> 0 <= srd < 256 -> 5 <= k <= 31 -> 0 <= hi ->
  setting s pre rest (fun news => exists r, news = [r] /\ built r base srd k hi)
    (mpu_regionSet (zlen pre) base srd k (hi * 65536 + 1) s).
Proof.
  intros D B Hs K Hh. rewrite length_app in Len. destruct rest as [|r0 rest'].
  - cbn in Len. unfold mpu_regionSet.
    replace (k <? 5) with false by lia. replace (mpu_regMax s <=? zlen pre) with true by lia.
    cbn [orb]. apply setting_error; [done|lia|done].
  - cbn in Len. rewrite (mpu_regionSet_spec s pre r0 rest') by (done || lia).
    destruct (Z.leb_spec (mpu_regMax s) (zlen pre)); [apply setting_error; [done|lia|done]|].
    apply (setting_done s pre (r0 :: rest') _ [_]); cbn; [|lia..].
    eexists. split; [done|]. apply built_set; try done; lia.
Qed.

(** One region with subregions: a range of cells of one block of eight. *)
Lemma calculate_setting start e' k hi :
  8 <= k <= 31 -> (2 ^ (k - 3) | start) -> (2 ^ (k - 3) | e') -> 0 <= start < e' -> e' <= 2 ^ 32 ->
  start / 2 ^ k = (e' - 1) / 2 ^ k -> 0 <= hi ->
  setting s pre rest (fun news => exists r, news = [r] /\ covers r start e' hi)
    (mpu_regionCalculateAndSet (zlen pre) start (w32 e') k (hi * 65536 + 1) s).
Proof.
  intros K (s0 & Es) (e & Ee) Lt Up Blk Hh. pose proof (pow2_pos (k - 3) ltac:(lia)) as P.
  unfold mpu_regionCalculateAndSet, shl1, shr.
  rewrite !andb_true_intro by lia. cbn [mbind option_bind].
  rewrite !Z.shiftr_div_pow2, !mod_land7, cell_w32, ldiff_block by lia.
  assert (Cs : start / 2 ^ (k - 3) = s0) by (rewrite Es; by apply Z.div_mul; lia).
  assert (Ce : e' / 2 ^ (k - 3) = e) by (rewrite Ee; by apply Z.div_mul; lia).
  assert (Ce1 : (e' - 1) / 2 ^ (k - 3) = e - 1).
  { assert (e - 1 <= (e' - 1) / 2 ^ (k - 3) /\ (e' - 1) / 2 ^ (k - 3) < e); [|lia].
    rewrite le_cell, lt_cell by done. nia. }
  rewrite Cs, Ce. rewrite (div_cell start k), (div_cell (e' - 1) k), Cs, Ce1 in Blk by lia.
  assert (Se : s0 < e) by nia.
  set (b := if e mod 8 =? 0 then 8 else e mod 8).
  assert (Rb : 1 <= b <= 8) by (unfold b; destruct (Z.eqb_spec (e mod 8) 0); modlia).
  assert (Rs : 0 <= s0 mod 8 < 8) by (apply Z.mod_pos_bound; lia).
  pose proof (pow2_pos k ltac:(lia)) as Pk.
  eapply setting_impl; [apply (regionSet_setting (start / 2 ^ k * 2 ^ k) (srd_of (s0 mod 8) b) k hi);
    try done; try lia|].
  { by exists (start / 2 ^ k). }
  { pose proof (Z.mul_div_le start (2 ^ k)). pose proof (Z.div_pos start (2 ^ k)). nia. }
  { apply srd_of_range. }
  intros _ (r & -> & B). exists r. split; [done|]. split; [by eexists _, _, _|]. intros x X.
  rewrite (built_match _ _ _ _ _ _ B), Z.div_mul, (div_cell x k), (div_cell start k), Cs by lia.
  rewrite srd_of_bit, negb_involutive by (try done; apply Z.mod_pos_bound; lia).
  unfold b. rewrite cells_match by done.
  apply eq_true_iff_eq. rewrite !andb_true_iff, !Z.leb_le, !Z.ltb_lt, le_cell, lt_cell by done.
  by rewrite <- Es, <- Ee.
Qed.

(** A region without subregions: a block of [2 ^ k] bytes. *)
Lemma block_setting start k hi :
  (2 ^ k | start) -> 0 <= start < 2 ^ 32 -> 5 <= k <= 31 -> 0 <= hi ->
  setting s pre rest (fun news => exists r, news = [r] /\ covers r start (start + 2 ^ k) hi)
    (mpu_regionSet (zlen pre) start 0 k (hi * 65536 + 1) s).
Proof.
  intros D B K Hh. eapply setting_impl; [apply (regionSet_setting start 0 k hi); done || lia|].
  intros _ (r & -> & Bu). exists r. split; [done|]. split; [by eexists _, _, _|]. intros x X.
  pose proof (pow2_pos k ltac:(lia)). destruct D as (q & ->).
  rewrite (built_match _ _ _ _ _ _ Bu), Z.bits_0, andb_true_r, Z.div_mul by lia.
  apply eq_true_iff_eq. rewrite andb_true_iff, Z.eqb_eq, Z.leb_le, Z.ltb_lt.
  assert (x / 2 ^ k = q <-> q <= x / 2 ^ k /\ x / 2 ^ k < q + 1) as -> by lia.
  rewrite le_cell, lt_cell by done. lia.
Qed.

End mpu.

(** ** Counting zeroes *)

Lemma ctz_spec x k : ctz x = Some k -> 0 <= k /\ exists q, 0 <= q /\ x = 2 ^ k * (2 * q + 1).
Proof.
  destruct x as [|p|p]; [done| |done]. cbn [ctz]. intros [= <-].
  induction p as [p _|p (K & q & Q & IH)|]; cbn [pos_ctz].
  - split; [done|]. exists (Zpos p). lia.
  - split; [lia|]. exists q. split; [done|]. rewrite Z.pow_add_r by lia. lia.
  - split; [done|]. by exists 0.
Qed.

Lemma ctz_Some x : 0 < x -> exists k, ctz x = Some k.
Proof. destruct x; [done|eauto|done]. Qed.

(** No larger power of two divides the word. *)
Lemma ctz_max x k j : ctz x = Some k -> 0 <= j -> (2 ^ j | x) -> j <= k.
Proof.
  intros E J (y & D). destruct (ctz_spec _ _ E) as (K & q & Q & ->).
  destruct (Z.le_gt_cases j k); [done|exfalso].
  rewrite (pow2_split k j) in D by lia. pose proof (pow2_pos k K).
  assert (2 * q + 1 = y * 2 ^ (j - k)) as D' by nia.
  replace (j - k) with (1 + (j - k - 1)) in D' by lia. rewrite Z.pow_add_r in D' by lia.
  change (2 ^ 1) with 2 in D'. lia.
Qed.

Lemma divide_pow2 k x : 0 <= k -> (2 ^ k | x) <-> Z.land x (Z.ones k) = 0.
Proof.
  intros K. rewrite Z.land_ones by done. pose proof (pow2_pos k K).
  split; intros D; [by apply Z.mod_divide; [lia|]|apply Z.mod_divide; [lia|done]].
Qed.

Lemma divide_lor k a b : 0 <= k -> (2 ^ k | Z.lor a b) <-> (2 ^ k | a) /\ (2 ^ k | b).
Proof.
  intros K. rewrite !divide_pow2, Z.land_lor_distr_l by done. apply Z.lor_eq_0_iff.
Qed.

Lemma divide_pow2_le j k x : 0 <= j <= k -> (2 ^ k | x) -> (2 ^ j | x).
Proof. intros. etrans; [|done]. exists (2 ^ (k - j)). by apply pow2_split. Qed.

(** The highest bit in which two words differ. *)
Lemma msb_spec a b m :
  0 <= a -> 0 <= b -> msb (Z.lxor a b) = Some m ->
  1 <= m /\ a / 2 ^ m = b / 2 ^ m /\ a / 2 ^ (m - 1) <> b / 2 ^ (m - 1).
Proof.
  intros A B. unfold msb. destruct (Z.eqb_spec (Z.lxor a b) 0) as [|N]; [done|]. intros [= <-].
  assert (X : 0 < Z.lxor a b) by (assert (0 <= Z.lxor a b) by (apply Z.lxor_nonneg; lia); lia).
  pose proof (Z.log2_nonneg (Z.lxor a b)). split; [lia|].
  rewrite <- !Z.shiftr_div_pow2 by lia. split.
  - apply Z.lxor_eq. rewrite <- Z.shiftr_lxor. apply Z.shiftr_eq_0; lia.
  - intros E. apply Z.lxor_eq_0_iff in E. rewrite <- Z.shiftr_lxor in E.
    replace (_ + 1 - 1) with (Z.log2 (Z.lxor a b)) in E by lia.
    apply Z.shiftr_eq_0_iff in E. lia.
Qed.

(** ** The check for overlap *)

Definition disabled (r : mpu_region) : Prop := rasr r mod 2 = 0.
Definition placed (r : mpu_region) : Prop := exists base srd k hi, built r base srd k hi.
Definition region_ok (r : mpu_region) : Prop := disabled r \/ placed r.

Lemma placed_valid r : placed r -> Z.land (rbar r) 0x10 =? 0 = false.
Proof.
  intros (base & srd & k & hi & (low & Eb & L) & Db & Rb & Ea & Hs & K & Hh).
  apply Z.eqb_neq. intros X. apply (f_equal (fun z => Z.testbit z 4)) in X.
  rewrite Z.land_spec, Z.bits_0 in X. change (Z.testbit 16 4) with true in X.
  rewrite andb_true_r, Z.testbit_odd, Z.shiftr_div_pow2 in X by lia. rewrite Eb in X.
  apply (divide_pow2_le 5 k) in Db; [|lia]. destruct Db as (q & ->). change (2 ^ 5) with 32 in X.
  change (2 ^ 4) with 16 in X. replace ((q * 32 + low) / 16) with (1 + 2 * q) in X by modlia.
  by rewrite Z.odd_add_mul_2 in X.
Qed.

Lemma overlap_subregions_false k start end_ step a sub :
  0 < step -> 0 <= a -> a + Z.of_nat k * step <= 2 ^ 32 ->
  overlap_subregions k start end_ step a sub = false ->
  forall j, 0 <= j < Z.of_nat k -> Z.testbit sub j = false ->
  start <= a + (j + 1) * step - 1 -> a + j * step <= end_ -> False.
Proof.
  intros Hs. revert a sub. induction k as [|k IH]; intros a sub A U; [lia|].
  cbn [overlap_subregions]. rewrite (w32_small (a + step - 1)) by nia.
  destruct (_ && _) eqn:E; [done|]. intros F j J T L1 L2.
  destruct (Z.eqb_spec j 0) as [-> |].
  - rewrite mod_land1, <- Z.bit0_mod, T in E. cbn [Z.b2z Z.eqb andb] in E. lia.
  - replace (a + step - 1 + 1) with (a + step) in F by lia. rewrite w32_small in F by nia.
    apply (IH (a + step) (Z.shiftr sub 1)) with (j := j - 1); try nia; [done|].
    rewrite Z.shiftr_spec by lia. by replace (j - 1 + 1) with j by lia.
Qed.

(** An aligned block ends within the address space. *)
Lemma block_end base k : (2 ^ k | base) -> 0 <= base < 2 ^ 32 -> 0 <= k <= 32 -> base + 2 ^ k <= 2 ^ 32.
Proof.
  intros (q & ->) B K. pose proof (pow2_pos k ltac:(lia)) as P.
  rewrite (pow2_split k 32) in B |- * by lia. generalize dependent (2 ^ k). intros p B P.
  assert (q < 2 ^ (32 - k)) by nia. nia.
Qed.

(** The subregion of a matching address. *)
Lemma match_subregion r base srd k hi x :
  built r base srd k hi -> region_match r x = true ->
  exists j, 0 <= j < 8 /\ Z.testbit srd j = false /\
    base + j * 2 ^ (k - 3) <= x <= base + (j + 1) * 2 ^ (k - 3) - 1.
Proof.
  intros B M. rewrite (built_match _ _ _ _ _ _ B) in M. apply andb_true_iff in M as [M1 M2].
  apply Z.eqb_eq in M1. apply negb_true_iff in M2.
  destruct B as (_ & (q & Eq) & _ & _ & _ & K & _).
  pose proof (pow2_pos (k - 3) ltac:(lia)) as P. pose proof (pow2_pos k ltac:(lia)).
  eexists. split; [|split; [exact M2|]]; [apply Z.mod_pos_bound; lia|].
  rewrite Eq, Z.div_mul in M1 by lia. rewrite (div_cell x k) in M1 by lia.
  pose proof (Z.div_mod (x / 2 ^ (k - 3)) 8 ltac:(lia)) as DM. rewrite M1 in DM.
  pose proof (Z.mul_div_le x (2 ^ (k - 3)) P). pose proof (Z.mod_pos_bound x (2 ^ (k - 3)) P).
  pose proof (Z.div_mod x (2 ^ (k - 3)) ltac:(lia)).
  rewrite Eq, (pow2_split (k - 3) k) by lia. replace (k - (k - 3)) with 3 by lia.
  change (2 ^ 3) with 8. nia.
Qed.

Lemma overlap_region_spec start end_ r :
  region_ok r -> exists b, overlap_region start end_ r = Some b /\
    (b = false -> forall x, start <= x <= end_ -> region_match r x = false).
Proof.
  intros [D|(base & srd & k & hi & B)].
  - exists false. split.
    + unfold overlap_region. rewrite (mod_land1 (rasr r)), D. by rewrite orb_true_r.
    + intros _ x _. unfold region_match. by rewrite D.
  - pose proof B as B'. destruct B as ((low & Eb & L) & Db & Rb & Ea & Hs & K & Hh).
    unfold overlap_region.
    assert (X1 : Z.land (rbar r) 0x10 =? 0 = false) by (apply placed_valid; by exists base, srd, k, hi).
    assert (X2 : Z.land (rasr r) 1 =? 0 = false).
    { rewrite mod_land1, Ea. modlia. }
    assert (X3 : Z.land (Z.shiftr (rasr r) 1) 0x1f + 1 = k).
    { change 0x1f with (Z.ones 5). rewrite Z.land_ones, Z.shiftr_div_pow2 by lia. rewrite Ea. modlia. }
    assert (X4 : Z.land (Z.shiftr (rasr r) 8) 0xff = srd).
    { rewrite land_ff, Z.shiftr_div_pow2 by lia. rewrite Ea. fold_pows. modlia. }
    rewrite X1, X2, X3, X4. cbn [orb]. unfold shl1. rewrite !andb_true_intro by lia.
    cbn [mbind option_bind]. eexists. split; [done|]. intros F x X.
    apply not_true_is_false. intros M.
    destruct (match_subregion _ _ _ _ _ _ B' M) as (j & J & T & L1 & L2).
    assert (E : Z.ldiff (rbar r) (2 ^ k - 1) = base).
    { rewrite ldiff_block by lia. rewrite (built_base _ _ _ _ _ B'). destruct Db as (q & ->).
      by rewrite Z.div_mul by (pose proof (pow2_pos k); lia). }
    rewrite E in F. pose proof (pow2_pos (k - 3) ltac:(lia)).
    eapply overlap_subregions_false; [| | |exact F|exact J|exact T| |]; try lia.
    pose proof (block_end base k Db Rb ltac:(lia)).
    rewrite (pow2_split (k - 3) k) in H0 by lia. replace (k - (k - 3)) with 3 in H0 by lia.
    change (2 ^ 3) with 8 in H0. lia.
Qed.

Lemma overlap_loop_spec s pre rest start end_ n i :
  mpu_table s = pre ++ rest -> Forall region_ok pre -> (i + n = length pre)%nat ->
  exists b, overlap_loop start end_ i n s = Some b /\
    (b = false -> forall r x, r ∈ drop i pre -> start <= x <= end_ -> region_match r x = false).
Proof.
  intros T F. revert i. induction n as [|n IH]; intros i E; cbn [overlap_loop].
  - exists false. split; [done|]. intros _ r x I. rewrite drop_ge in I by lia. by apply elem_of_nil in I.
  - destruct (lookup_lt_is_Some_2 pre i ltac:(lia)) as (r & Er).
    rewrite T, lookup_app_l, Er by lia. cbn [mbind option_bind].
    destruct (overlap_region_spec start end_ r) as (b & -> & Hb); [by eapply Forall_lookup|].
    cbn [mbind option_bind]. destruct b; [by exists true|].
    destruct (IH (S i)) as (b & -> & Hn); [lia|]. exists b. split; [done|]. intros Fb r' x I X.
    rewrite (drop_S _ r) in I by done. apply elem_of_cons in I as [->|I]; [by apply Hb|by apply Hn].
Qed.

(** A range of addresses below the exclusive end [up], [2 ^ 32] included. *)
Definition range32 (lo up : Z) : Prop := 0 <= lo < up /\ up <= 2 ^ 32.

Lemma checkOverlap_spec s pre rest lo up :
  mpu_table s = pre ++ rest -> Forall region_ok pre -> range32 lo up ->
  exists b, mpu_checkOverlap (zlen pre) lo (w32 up) s = Some b /\
    (b = false -> forall r x, r ∈ pre -> lo <= x < up -> region_match r x = false).
Proof.
  intros T F R. unfold mpu_checkOverlap. rewrite Nat2Z.id.
  destruct (overlap_loop_spec s pre rest lo (w32 (w32 up - 1)) (length pre) 0 T F eq_refl) as (b & E & H).
  exists b. split; [done|]. intros Fb r x I X. apply (H Fb); [done|].
  assert (w32 (w32 up - 1) = up - 1) by (unfold range32 in R; mlia). lia.
Qed.

(** ** Generating the regions of a map *)

Definition match_any (l : list mpu_region) (x : Z) : bool := existsb (fun r => region_match r x) l.

(** Regions as the loader sets them, with the attributes [hi] in [lo, up). *)
Definition exact (lo up hi : Z) (news : list mpu_region) : Prop :=
  Forall (fun r => exists base srd k, built r base srd k hi) news /\
  forall x, 0 <= x -> match_any news x = (lo <=? x) && (x <? up).

Lemma covers_exact r lo up hi : covers r lo up hi -> exact lo up hi [r].
Proof.
  intros [B M]. split; [by constructor|]. intros x X. cbn. by rewrite orb_false_r, M.
Qed.

Lemma exact_app lo mid up hi l1 l2 :
  exact lo mid hi l1 -> exact mid up hi l2 -> lo <= mid <= up -> exact lo up hi (l1 ++ l2).
Proof.
  intros [F1 M1] [F2 M2] L. split; [by apply Forall_app|]. intros x X.
  unfold match_any in *. rewrite existsb_app, M1, M2 by done. lia.
Qed.

(** The ranges the loader represents without a shift by the width of the word:
    both ends in one half of the address space, and, unless the range is one
    block, not both ends multiples of 512 MiB. *)
Definition block_range (lo up : Z) : Prop := exists k, up - lo = 2 ^ k /\ 0 <= k /\ (2 ^ k | lo).
Definition mpu_range (lo up : Z) : Prop :=
  range32 lo up /\ lo / 2 ^ 31 = (up - 1) / 2 ^ 31 /\
  (block_range lo up \/ ~ ((2 ^ 29 | lo) /\ (2 ^ 29 | up))).

Lemma w32_upto up : 0 < up <= 2 ^ 32 -> upto (w32 up) = up.
Proof.
  intros. unfold upto, w32. destruct (Z.eqb_spec (up mod 2 ^ 32) 0); mlia.
Qed.

Lemma w32_divide k up : 0 <= k <= 32 -> (2 ^ k | w32 up) <-> (2 ^ k | up).
Proof.
  intros K. unfold w32. rewrite Z.mod_eq by lia. rewrite (pow2_split k 32) at 1 by lia.
  split; intros (q & E).
  - exists (q + 2 ^ (32 - k) * (up / 2 ^ 32)). lia.
  - exists (q - 2 ^ (32 - k) * (up / 2 ^ 32)). lia.
Qed.

(** Smaller cells in larger ones. *)
Lemma same_cell a b j k : 0 <= j <= k -> a / 2 ^ j = b / 2 ^ j -> a / 2 ^ k = b / 2 ^ k.
Proof.
  intros K E. rewrite (pow2_split j k), Z.mul_comm, <- !Z.div_div by
    (try apply Z.pow_nonzero; try apply pow2_pos; lia). by rewrite E.
Qed.

Lemma block_cell lo k : 0 <= k -> (2 ^ k | lo) -> lo / 2 ^ k = (lo + 2 ^ k - 1) / 2 ^ k.
Proof.
  intros K (q & ->). pose proof (pow2_pos k K). rewrite Z.div_mul by lia.
  replace (q * 2 ^ k + 2 ^ k - 1) with (2 ^ k - 1 + q * 2 ^ k) by lia.
  rewrite Z.div_add, Z.div_small by lia. lia.
Qed.

Lemma ctz_block k j size : ctz size = Some k -> 0 <= j -> size = 2 ^ j -> k = j.
Proof.
  intros E J ->. pose proof (ctz_max _ _ j E J ltac:(done)).
  destruct (ctz_spec _ _ E) as (K & q & Q & S). destruct (Z.eq_dec k j) as [|]; [done|].
  pose proof (pow2_pos j J). rewrite (pow2_split j k) in S by lia.
  pose proof (pow2_pos (k - j) ltac:(lia)). assert (2 <= 2 ^ (k - j)); [|nia].
  change 2 with (2 ^ 1) at 1. apply Z.pow_le_mono_r; lia.
Qed.

Lemma half_size lo up : range32 lo up -> lo / 2 ^ 31 = (up - 1) / 2 ^ 31 -> 0 < up - lo <= 2 ^ 31.
Proof. unfold range32. intros. fold_pows. modlia. Qed.

(** The test for a block of the code. *)
Lemma block_test lo up k :
  0 <= lo < up -> ctz (up - lo) = Some k ->
  ((up - lo =? 2 ^ k) && (Z.land lo (up - lo - 1) =? 0)) = true <-> block_range lo up.
Proof.
  intros L C. destruct (ctz_spec _ _ C) as (K & _). rewrite andb_true_iff, !Z.eqb_eq.
  assert (D : up - lo = 2 ^ k -> Z.land lo (up - lo - 1) = 0 <-> (2 ^ k | lo)).
  { intros E. rewrite divide_pow2 by done. by rewrite E, Z.ones_equiv, <- Z.sub_1_r. }
  split.
  - intros [E1 E2]. exists k. split_and!; [done|done|by apply D].
  - intros (j & E & J & Dj). pose proof (ctz_block _ _ _ C J E) as ->. split; [done|by apply D].
Qed.

(** What [mpu_regionGenerate] knows when it cuts a hole. *)
Definition cuttable (lo up m : Z) : Prop :=
  8 <= m <= 31 /\ lo / 2 ^ m = (up - 1) / 2 ^ m /\
  ~ ((2 ^ (m - 3) | lo) /\ (2 ^ (m - 3) | up)) /\
  (exists c, 5 <= c < m - 4 /\ (2 ^ c | lo) /\ (2 ^ c | up)).

Section generate.
Variables (s : mpu_common) (pre rest : list mpu_region).
Hypothesis Tab : mpu_table s = pre ++ rest.
Hypothesis Len : length (pre ++ rest) = 16%nat.
Hypothesis Max : zlen pre <= mpu_regMax s <= 16.

Lemma calculate_exact start e' k hi :
  8 <= k <= 31 -> (2 ^ (k - 3) | start) -> (2 ^ (k - 3) | e') -> range32 start e' ->
  start / 2 ^ k = (e' - 1) / 2 ^ k -> 0 <= hi ->
  setting s pre rest (exact start e' hi)
    (mpu_regionCalculateAndSet (zlen pre) start (w32 e') k (hi * 65536 + 1) s).
Proof.
  intros K D1 D2 [R U] B Hh. eapply setting_impl; [by apply calculate_setting|].
  intros _ (r & -> & C). by apply covers_exact.
Qed.

End generate.

(** Two neighbouring blocks of eight cells. *)
Lemma calculate_two s pre rest lo up k hi :
  mpu_table s = pre ++ rest -> length (pre ++ rest) = 16%nat -> zlen pre <= mpu_regMax s <= 16 ->
  8 <= k <= 30 -> (2 ^ (k - 3) | lo) -> (2 ^ (k - 3) | up) -> range32 lo up -> 0 <= hi ->
  lo / 2 ^ (k + 1) = (up - 1) / 2 ^ (k + 1) -> lo / 2 ^ k <> (up - 1) / 2 ^ k ->
  let mid := w32 (Z.ldiff lo (2 ^ k - 1) + (2 ^ k - 1) + 1) in
  setting s pre rest (exact lo up hi)
    ('(res, idx, s) ← mpu_regionCalculateAndSet (zlen pre) lo mid k (hi * 65536 + 1) s;
     if res =? EOK then mpu_regionCalculateAndSet idx mid (w32 up) k (hi * 65536 + 1) s
     else Some (res, idx, s)).
Proof.
  intros T L M K Dl Du R Hh E N mid. pose proof (pow2_pos k ltac:(lia)) as P.
  assert (Em : mid = (lo / 2 ^ k + 1) * 2 ^ k /\ lo < mid < up /\ (up - 1) / 2 ^ k = lo / 2 ^ k + 1).
  { assert (X : (up - 1) / 2 ^ k = lo / 2 ^ k + 1).
    { rewrite !Z.pow_add_r, <- !Z.div_div in E by lia. change (2 ^ 1) with 2 in E.
      assert (lo / 2 ^ k <= (up - 1) / 2 ^ k) by (apply Z.div_le_mono; unfold range32 in R; lia).
      modlia. }
    pose proof (proj1 (le_cell _ (up - 1) (2 ^ k) P) (Z.eq_le_incl _ _ (eq_sym X))).
    pose proof (proj1 (lt_cell (lo / 2 ^ k + 1) lo (2 ^ k) P) ltac:(lia)).
    unfold mid. rewrite ldiff_block by lia. unfold range32 in R. rewrite w32_small by nia. nia. }
  destruct Em as (Em & Lm & Eu).
  assert (Dm : (2 ^ k | mid)) by (rewrite Em; by exists (lo / 2 ^ k + 1)).
  assert (Dm' : (2 ^ (k - 3) | mid)) by (eapply divide_pow2_le; [|done]; lia).
  assert (Wm : w32 mid = mid) by (apply w32_small; unfold range32 in R; lia).
  unfold range32 in R. eapply setting_bind.
  { rewrite <- Wm at 1. apply calculate_exact; unfold range32; try done; try lia.
    rewrite Em. replace ((lo / 2 ^ k + 1) * 2 ^ k - 1) with (2 ^ k - 1 + lo / 2 ^ k * 2 ^ k) by lia.
    rewrite Z.div_add, (Z.div_small (2 ^ k - 1)) by lia. lia. }
  intros news Hn Ln Mn s'. eapply setting_impl.
  { apply calculate_exact; unfold range32, s'; cbn [mpu_table with_table mpu_regMax]; try done; try lia.
    - by rewrite app_assoc.
    - rewrite !length_app, length_drop in *. lia.
    - rewrite length_app, Nat2Z.inj_add. lia.
    - by rewrite Eu, Em, Z.div_mul by lia. }
  intros n2 H2. by apply (exact_app lo mid up); [| |lia].
Qed.

(** [mpu_regionGenerate] up to the cut. *)
Lemma generate_cases s pre rest fuel lo up hi :
  mpu_table s = pre ++ rest -> length (pre ++ rest) = 16%nat -> zlen pre <= mpu_regMax s <= 16 ->
  mpu_range lo up -> 0 <= hi ->
  let attr := hi * 65536 + 1 in
  let out := mpu_regionGenerate (S fuel) (zlen pre) lo (w32 up) attr s in
  setting s pre rest (exact lo up hi) out \/
  (exists m, cuttable lo up m /\
    out = if attr =? HOLE_ATTR attr then Some (- EPERM, zlen pre, s)
      else mpu_regionCut (mpu_regionGenerate fuel) (zlen pre) lo (w32 up) m attr s).
Proof.
  intros T L M (R & Hf & Nb) Hh attr out. unfold out. cbn [mpu_regionGenerate]. fold attr.
  pose proof (half_size _ _ R Hf) as Sz. pose proof R as (Rl & Ru).
  assert (Err : forall res, res <> EOK -> setting s pre rest (exact lo up hi) (Some (res, zlen pre, s)))
    by (intros; apply setting_error; [done|lia|done]).
  replace (negb (w32 up =? 0) && (w32 up <=? lo)) with false by mlia.
  assert (w32 (w32 up - lo) = up - lo) as -> by mlia.
  assert (w32 (w32 up - 1) = up - 1) as -> by mlia.
  rewrite (proj2 (Z.eqb_neq (up - lo) 0)) by lia.
  destruct (ctz_Some (up - lo)) as (k & Ck); [lia|]. rewrite Ck. cbn [mbind option_bind].
  destruct (ctz_spec _ _ Ck) as (K0 & _).
  destruct (_ && _) eqn:Bt.
  { left. apply (block_test lo up k Rl Ck) in Bt as (j & Ej & J & Dj).
    pose proof (ctz_block _ _ _ Ck J Ej) as ->.
    destruct (Z.ltb_spec (up - lo) 32); [by apply Err|].
    assert (5 <= j <= 31).
    { split; [apply (Z.pow_le_mono_r_iff 2)|apply (Z.pow_le_mono_r_iff 2)]; lia. }
    eapply setting_impl; [apply block_setting; try done; lia|].
    intros _ (r & -> & C). apply covers_exact. by replace up with (lo + 2 ^ j) by lia. }
  assert (NB : ~ block_range lo up) by (rewrite <- (block_test lo up k Rl Ck), Bt; done).
  destruct Nb as [|Nd]; [done|].
  destruct (ctz_Some (Z.lor lo (w32 up))) as (c & Cc).
  { pose proof (w32_range up). assert (0 <= Z.lor lo (w32 up)) by (apply Z.lor_nonneg; lia).
    destruct (Z.eq_dec (Z.lor lo (w32 up)) 0) as [Z0|]; [|lia].
    apply Z.lor_eq_0_iff in Z0 as [-> Z0]. unfold w32 in Z0. fold_pows. modlia. }
  rewrite Cc. cbn [mbind option_bind]. destruct (Z.ltb_spec c 5); [left; by apply Err|].
  assert (Dc : (2 ^ c | lo) /\ (2 ^ c | up) /\ c <= 28).
  { destruct (ctz_spec _ _ Cc) as (_ & q & _ & Eq).
    assert (D : (2 ^ c | Z.lor lo (w32 up))) by (rewrite Eq; exists (2 * q + 1); lia).
    apply divide_lor in D as [D1 D2]; [|lia].
    assert (c <= 28); [|split_and!; [done|apply (w32_divide c); [lia|done]|done]].
    apply Z.lt_succ_r, Z.nle_gt. intros C. apply Nd.
    split; [by apply (divide_pow2_le 29 c); [lia|]|].
    apply (w32_divide 29); [lia|]. by apply (divide_pow2_le 29 c); [lia|]. }
  destruct Dc as (D1 & D2 & C28).
  destruct (msb (Z.lxor lo (up - 1))) as [m|] eqn:Em.
  2:{ exfalso. unfold msb in Em. destruct (Z.eqb_spec (Z.lxor lo (up - 1)) 0) as [X|]; [|done].
      apply Z.lxor_eq in X. apply NB. exists 0. split_and!; [change (2 ^ 0) with 1; lia|done|].
      apply Z.divide_1_l. }
  destruct (msb_spec lo (up - 1) m ltac:(lia) ltac:(lia) Em) as (M1 & Mc & Mn). cbn [mbind option_bind].
  assert (M31 : m <= 31).
  { apply Z.nlt_ge. intros X. apply Mn. apply (same_cell _ _ 31 (m - 1)); [lia|done]. }
  destruct (Z.leb_spec (m - c) 3).
  { left. apply calculate_exact; try done; try lia.
    - by replace (c + 3 - 3) with c by lia.
    - by replace (c + 3 - 3) with c by lia.
    - apply (same_cell _ _ m); [lia|done]. }
  destruct (Z.eqb_spec (m - c) 4).
  { left. unfold shl1. rewrite andb_true_intro by lia. cbn [mbind option_bind].
    apply calculate_two; try done; try lia.
    - by replace (c + 3 - 3) with c by lia.
    - by replace (c + 3 - 3) with c by lia.
    - by replace (c + 3 + 1) with m by lia.
    - by replace (c + 3) with (m - 1) by lia. }
  right. exists m. split; [|done]. split_and!; try lia; try done.
  - intros [X1 X2]. apply (w32_divide (m - 3)) in X2; [|lia].
    pose proof (ctz_max _ _ (m - 3) Cc ltac:(lia)) as X. rewrite divide_lor in X by lia.
    specialize (X (conj X1 X2)). lia.
  - exists c. split_and!; try done; lia.
Qed.

(** The attributes new regions give an address. *)
Fixpoint last_attr (l : list mpu_region) (x : Z) : option Z :=
  match l with
  | [] => None
  | r :: l =>
      match last_attr l x with
      | Some a => Some a
      | None => if region_match r x then Some (region_attr r) else None
      end
  end.

Lemma last_attr_app l1 l2 x :
  last_attr (l1 ++ l2) x = match last_attr l2 x with Some a => Some a | None => last_attr l1 x end.
Proof.
  induction l1 as [|r l1 IH]; cbn; [by destruct (last_attr l2 x)|].
  rewrite IH. by destruct (last_attr l2 x).
Qed.

(** Regions that grant [hi] in [lo, up); elsewhere they match nothing, or deny an
    access that the regions [pre] did not grant either. *)
Definition masked (pre : list mpu_region) (lo up hi : Z) (news : list mpu_region) : Prop :=
  Forall placed news /\
  forall x, 0 <= x ->
    (lo <= x < up -> last_attr news x = Some hi) /\
    (~ lo <= x < up -> last_attr news x = None \/
      (last_attr news x = Some 0 /\ forall r, r ∈ pre -> region_match r x = false)).

Definition exact_attr (lo up hi : Z) (news : list mpu_region) : Prop :=
  Forall placed news /\
  forall x, 0 <= x -> last_attr news x = if (lo <=? x) && (x <? up) then Some hi else None.

Lemma exact_exact_attr lo up hi news : exact lo up hi news -> exact_attr lo up hi news.
Proof.
  intros [F M]. split.
  - eapply Forall_impl; [exact F|]. intros r (b & sr & k & B). by exists b, sr, k, hi.
  - intros x X. rewrite <- M by done. clear M. unfold match_any.
    induction F as [|r l (b & sr & k & B) F IH]; [done|]. cbn [last_attr existsb]. rewrite IH.
    rewrite (built_attr _ _ _ _ _ B). by destruct (region_match r x), (existsb _ l).
Qed.

Lemma exact_masked pre lo up hi news : exact lo up hi news -> masked pre lo up hi news.
Proof.
  intros [F M]%exact_exact_attr. split; [done|]. intros x X. rewrite M by done.
  split; intros L; [|left]; destruct (_ && _) eqn:E; done || lia.
Qed.

(** What the cut puts into the table: a region around the range, and a hole. *)
Lemma masked_hole pre lo up hi as_ ae hs he n1 n2 :
  exact as_ ae hi n1 -> exact hs he 0 n2 ->
  (forall r x, r ∈ pre -> hs <= x < he -> region_match r x = false) ->
  (forall x, lo <= x < up <-> as_ <= x < ae /\ ~ hs <= x < he) ->
  masked pre lo up hi (n1 ++ n2).
Proof.
  intros [F1 M1]%exact_exact_attr [F2 M2]%exact_exact_attr Hole Eq.
  split; [by apply Forall_app|]. intros x X. rewrite last_attr_app, M1, M2 by done.
  specialize (Eq x). destruct ((hs <=? x) && (x <? he)) eqn:E2.
  - split; [lia|]. intros _. right. split; [done|]. intros r I. apply Hole; [done|lia].
  - destruct ((as_ <=? x) && (x <? ae)) eqn:E1; split; intros L; try done; try lia; by left.
Qed.

(** The range is cut from a block of eight cells at one end. *)
Definition hole_at (lo up m as_ ae hs he : Z) : Prop :=
  range32 as_ ae /\ mpu_range hs he /\ (2 ^ (m - 3) | as_) /\ (2 ^ (m - 3) | ae) /\
  as_ / 2 ^ m = (ae - 1) / 2 ^ m /\
  (forall x, lo <= x < up <-> as_ <= x < ae /\ ~ hs <= x < he).

Lemma cell_range hs he g :
  0 <= g <= 28 -> range32 hs he -> hs / 2 ^ g = (he - 1) / 2 ^ g -> ~ ((2 ^ g | hs) /\ (2 ^ g | he)) ->
  mpu_range hs he.
Proof.
  intros G R E N. split; [done|]. split; [by apply (same_cell _ _ g); [lia|]|].
  right. intros [D1 D2]. apply N. split; by apply (divide_pow2_le g 29); [lia|].
Qed.

Lemma aligned_ldiff x g : 0 <= g -> Z.ldiff x (2 ^ g - 1) = x <-> (2 ^ g | x).
Proof.
  intros G. rewrite ldiff_block by done. pose proof (pow2_pos g G). split.
  - intros E. by exists (x / 2 ^ g).
  - intros (q & ->). by rewrite Z.div_mul by lia.
Qed.

(** The end of the cell around [x]. *)
Lemma cell_bounds x g : 0 <= g -> x / 2 ^ g * 2 ^ g <= x < x / 2 ^ g * 2 ^ g + 2 ^ g.
Proof. intros G. pose proof (pow2_pos g G). pose proof (Z.div_mod x (2 ^ g)). 
  pose proof (Z.mod_pos_bound x (2 ^ g)). lia. Qed.

Lemma not_aligned x g : 0 <= g -> ~ (2 ^ g | x) -> x / 2 ^ g * 2 ^ g < x /\ x / 2 ^ g = (x - 1) / 2 ^ g.
Proof.
  intros G N. pose proof (pow2_pos g G) as P. pose proof (cell_bounds x g G) as B.
  assert (x / 2 ^ g * 2 ^ g <> x) by (intros E; apply N; by exists (x / 2 ^ g)).
  split; [lia|]. apply (Z.div_unique _ _ _ (x - 1 - 2 ^ g * (x / 2 ^ g))); lia.
Qed.

Lemma hole_at_end lo up m :
  range32 lo up -> cuttable lo up m -> (2 ^ (m - 3) | lo) ->
  let ae := up / 2 ^ (m - 3) * 2 ^ (m - 3) + 2 ^ (m - 3) in
  w32 up = up /\ hole_at lo up m lo ae up ae.
Proof.
  intros R (Mr & Mc & Nd & _) D ae. set (g := m - 3) in *. pose proof (pow2_pos g ltac:(lia)) as P.
  assert (Nu : ~ (2 ^ g | up)) by tauto.
  destruct (not_aligned up g ltac:(lia) Nu) as (L1 & E1). pose proof (cell_bounds up g ltac:(lia)) as B.
  assert (Ba : ae <= 2 ^ 32).
  { apply (block_end (up / 2 ^ g * 2 ^ g) g); [by exists (up / 2 ^ g)| |lia]. unfold range32 in R.
    pose proof (Z.div_pos up (2 ^ g)). nia. }
  assert (Ea : (ae - 1) / 2 ^ g = up / 2 ^ g).
  { symmetry. apply (Z.div_unique _ _ _ (2 ^ g - 1)); unfold ae; lia. }
  unfold range32 in R. split; [rewrite w32_small; lia|].
  split; [unfold range32; lia|]. split.
  { apply (cell_range _ _ g); [lia|unfold range32; lia|by rewrite Ea|tauto]. }
  split_and!; [done|fold g; exists (up / 2 ^ g + 1); unfold ae; ring| |lia].
  rewrite Mc. apply (same_cell _ _ g); [lia|]. by rewrite Ea, E1.
Qed.

Lemma hole_at_start lo up m :
  range32 lo up -> cuttable lo up m -> ~ (2 ^ (m - 3) | lo) -> (2 ^ (m - 3) | up) ->
  let as_ := lo / 2 ^ (m - 3) * 2 ^ (m - 3) in
  w32 lo = lo /\ hole_at lo up m as_ up as_ lo.
Proof.
  intros R (Mr & Mc & _ & _) Nl D as_. set (g := m - 3) in *. pose proof (pow2_pos g ltac:(lia)) as P.
  destruct (not_aligned lo g ltac:(lia) Nl) as (L1 & E1).
  assert (Ea : as_ / 2 ^ g = lo / 2 ^ g) by (apply Z.div_mul; lia).
  assert (0 <= as_) by (unfold as_, range32 in *; pose proof (Z.div_pos lo (2 ^ g)); nia).
  assert (as_ < lo) by done.
  unfold range32 in R. split; [rewrite w32_small; lia|].
  split; [unfold range32; lia|]. split.
  { apply (cell_range _ _ g); [lia|unfold range32; lia|by rewrite Ea|tauto]. }
  split_and!; [by exists (lo / 2 ^ g)|done| |lia].
  rewrite <- Mc. apply (same_cell _ _ g); [lia|done].
Qed.

(** The larger region and the hole. *)
Lemma cut_setting s pre rest fuel lo up m hi as_ ae hs he :
  mpu_table s = pre ++ rest -> length (pre ++ rest) = 16%nat -> zlen pre <= mpu_regMax s <= 16 ->
  Forall region_ok pre -> 8 <= m <= 31 -> 0 <= hi -> hole_at lo up m as_ ae hs he ->
  setting s pre rest (masked pre lo up hi)
    (overlap ← mpu_checkOverlap (zlen pre) hs (w32 he) s;
     if (overlap : bool) then Some (- EPERM, zlen pre, s)
     else
       '(res, idx, s) ← mpu_regionCalculateAndSet (zlen pre) as_ (w32 ae) m (hi * 65536 + 1) s;
       if res =? EOK then
         mpu_regionGenerate (S fuel) idx hs (w32 he) (HOLE_ATTR (hi * 65536 + 1)) s
       else Some (res, idx, s)).
Proof.
  intros T L M F Mr Hh (Ra & Rh & Da & De & Ec & Eq).
  destruct (checkOverlap_spec s pre rest hs he T F (proj1 Rh)) as (b & -> & Ov). cbn [mbind option_bind].
  destruct b; [apply setting_error; [done|lia|done]|]. specialize (Ov eq_refl).
  assert (HOLE_ATTR (hi * 65536 + 1) = 0 * 65536 + 1) as ->
    by (unfold HOLE_ATTR; rewrite mod_land1; modlia).
  eapply setting_bind; [by apply calculate_exact|].
  intros n1 H1 Ln Mn s'.
  assert (T' : mpu_table s' = (pre ++ n1) ++ drop (length n1) rest) by (cbn; by rewrite app_assoc).
  assert (L' : length ((pre ++ n1) ++ drop (length n1) rest) = 16%nat)
    by (rewrite !length_app, length_drop in *; lia).
  assert (M' : zlen (pre ++ n1) <= mpu_regMax s' <= 16)
    by (rewrite length_app, Nat2Z.inj_add; cbn [s' with_table mpu_regMax]; lia).
  destruct (generate_cases s' (pre ++ n1) (drop (length n1) rest) fuel hs he 0 T' L' M' Rh ltac:(lia))
    as [G|(m' & _ & ->)].
  - eapply setting_impl; [exact G|]. intros n2 H2. by eapply masked_hole.
  - apply setting_error; [done|lia|done].
Qed.

Lemma cut_masked s pre rest fuel lo up m hi :
  mpu_table s = pre ++ rest -> length (pre ++ rest) = 16%nat -> zlen pre <= mpu_regMax s <= 16 ->
  Forall region_ok pre -> range32 lo up -> cuttable lo up m -> 0 <= hi ->
  setting s pre rest (masked pre lo up hi)
    (mpu_regionCut (mpu_regionGenerate (S fuel)) (zlen pre) lo (w32 up) m (hi * 65536 + 1) s).
Proof.
  intros T L M F R C Hh. pose proof C as (Mr & _). unfold mpu_regionCut, shl1.
  rewrite andb_true_intro by lia. cbn [mbind option_bind].
  replace (2 ^ (m - 3) - 1 + 1) with (2 ^ (m - 3)) by lia. rewrite <- !Z.add_assoc.
  replace (2 ^ (m - 3) - 1 + 1) with (2 ^ (m - 3)) by lia.
  destruct (Z.eqb_spec (Z.ldiff lo (2 ^ (m - 3) - 1)) lo) as [A|A].
  - apply aligned_ldiff in A; [|lia]. destruct (hole_at_end lo up m R C A) as (W & H).
    rewrite W, ldiff_block by lia. by apply cut_setting.
  - destruct (Z.eqb_spec (Z.ldiff (w32 up) (2 ^ (m - 3) - 1)) (w32 up)) as [B|B].
    + apply aligned_ldiff in B; [|lia]. rewrite w32_divide in B by lia.
      destruct (hole_at_start lo up m R C) as (W & H); [intros D; apply A; apply aligned_ldiff; [lia|done]|done|].
      pose proof (cut_setting s pre rest fuel _ _ _ hi _ _ _ _ T L M F Mr Hh H) as X.
      rewrite W in X. rewrite ldiff_block by lia. exact X.
    + apply setting_error; [done|lia|done].
Qed.

Lemma generate_masked s pre rest lo up hi :
  mpu_table s = pre ++ rest -> length (pre ++ rest) = 16%nat -> zlen pre <= mpu_regMax s <= 16 ->
  Forall region_ok pre -> mpu_range lo up -> 0 < hi ->
  setting s pre rest (masked pre lo up hi)
    (mpu_regionGenerate 2 (zlen pre) lo (w32 up) (hi * 65536 + 1) s).
Proof.
  intros T L M F R Hh.
  destruct (generate_cases s pre rest 1 lo up hi T L M R ltac:(lia)) as [G|(m & C & ->)].
  - eapply setting_impl; [exact G|]. intros news. apply exact_masked.
  - rewrite (proj2 (Z.eqb_neq _ _)).
    + apply cut_masked; try done; [apply R|lia].
    + unfold HOLE_ATTR. rewrite mod_land1. modlia.
Qed.

(** ** The table *)

Definition with_maps (t : list mpu_region) (ids : list Z) (s : mpu_common) : mpu_common :=
  mk_mpu (mpu_type s) (mpu_regCnt s) (mpu_regMax s) (mpu_mapCnt s) t ids.

(** The table and the map ids in three parts of equal lengths. *)
Definition parts (s : mpu_common) (pre mid post : list mpu_region) (ip im io : list Z) : Prop :=
  mpu_table s = pre ++ mid ++ post /\ mpu_mapId s = ip ++ im ++ io /\
  length ip = length pre /\ length im = length mid.

Lemma set_region_at s pre r mid r' :
  mpu_table s = pre ++ r :: mid ->
  set_region (zlen pre) r' s = Some (with_maps (pre ++ r' :: mid) (mpu_mapId s) s).
Proof.
  intros E. unfold set_region. rewrite E, length_app. cbn [length].
  rewrite (proj2 (Z.leb_le _ _)), (proj2 (Z.ltb_lt _ _)) by lia. by rewrite Nat2Z.id, insert_app_r_alt, Nat.sub_diag by done.
Qed.

Lemma set_mapId_at s ip i io i' :
  mpu_mapId s = ip ++ i :: io ->
  set_mapId (zlen ip) i' s = Some (with_maps (mpu_table s) (ip ++ i' :: io) s).
Proof.
  intros E. unfold set_mapId. rewrite E, length_app. cbn [length].
  rewrite (proj2 (Z.leb_le _ _)), (proj2 (Z.ltb_lt _ _)) by lia. by rewrite Nat2Z.id, insert_app_r_alt, Nat.sub_diag by done.
Qed.

Lemma invalidate_at s pre r mid ip i io :
  mpu_table s = pre ++ r :: mid -> mpu_mapId s = ip ++ i :: io -> length ip = length pre ->
  exists r' i', disabled r' /\
    invalidate_region (zlen pre) s = Some (with_maps (pre ++ r' :: mid) (ip ++ i' :: io) s).
Proof.
  intros T I L. unfold invalidate_region. rewrite <- L, (set_mapId_at _ _ _ _ _ I). cbn [mbind option_bind].
  rewrite L, (set_region_at _ pre r mid) by done. eexists _, _. split; [|done]. by vm_compute.
Qed.

Lemma assign_at s pre r mid ip i io id :
  mpu_table s = pre ++ r :: mid -> mpu_mapId s = ip ++ i :: io -> length ip = length pre -> placed r ->
  assign_region id (zlen pre) s = Some (with_maps (pre ++ r :: mid) (ip ++ id :: io) s).
Proof.
  intros T I L P. unfold assign_region. rewrite T, Nat2Z.id, list_lookup_middle by done.
  cbn [mbind option_bind]. rewrite placed_valid by done. cbn [negb].
  rewrite <- L, (set_mapId_at _ _ _ _ _ I). by rewrite T.
Qed.

(** The loop over the regions [mid], one step at a time. *)
Lemma regions_loop_spec (body : Z -> mpu_common -> option mpu_common) (ok : mpu_region -> Prop) (Q : mpu_region -> mpu_region -> Z -> Prop)
    k s pre mid post ip im io last :
  (forall s pre r mid ip i io, ok r -> mpu_table s = pre ++ r :: mid ->
    mpu_mapId s = ip ++ i :: io -> length ip = length pre ->
    exists r' i', Q r r' i' /\
    body (zlen pre) s = Some (with_maps (pre ++ r' :: mid) (ip ++ i' :: io) s)) ->
  Forall ok mid -> parts s pre mid post ip im io -> (length mid <= k)%nat ->
  Z.min last (mpu_regMax s) = zlen pre + zlen mid ->
  exists mid' im', Forall3 Q mid mid' im' /\
    regions_loop body k (zlen pre) last s = Some (with_maps (pre ++ mid' ++ post) (ip ++ im' ++ io) s).
Proof.
  intros B F (T & I & Lp & Lm) K M. revert s pre ip im k T I Lp Lm K M.
  induction F as [|r mid Hr F IH]; intros s pre ip im k T I Lp Lm K M.
  - destruct im; [|done]. exists [], []. split; [constructor|].
    assert (E : s = with_maps (pre ++ post) (ip ++ io) s) by (destruct s; cbn in *; by subst).
    cbn [app]. rewrite <- E. destruct k as [|k]; [done|]. cbn [regions_loop].
    replace ((zlen pre <? last) && (zlen pre <? mpu_regMax s)) with false; [done|].
    cbn in M. lia.
  - destruct im as [|i im]; [done|]. destruct k as [|k]; [cbn in K; lia|]. cbn [regions_loop].
    cbn in M, K, Lm. replace ((zlen pre <? last) && (zlen pre <? mpu_regMax s)) with true by lia.
    destruct (B s pre r (mid ++ post) ip i (im ++ io)) as (r' & i' & Q' & ->); try done.
    cbn [mbind option_bind].
    destruct (IH (with_maps (pre ++ r' :: mid ++ post) (ip ++ i' :: im ++ io) s) (pre ++ [r']) (ip ++ [i']) im k)
      as (mid' & im' & F' & E); cbn [with_maps mpu_table mpu_mapId mpu_regMax].
    + by rewrite <- app_assoc.
    + by rewrite <- app_assoc.
    + rewrite !length_app. cbn. lia.
    + lia.
    + lia.
    + rewrite length_app. cbn. lia.
    + exists (r' :: mid'), (i' :: im'). split; [by constructor|].
      rewrite length_app, Nat2Z.inj_add in E. cbn [length] in E. change (Z.of_nat 1) with 1 in E.
      rewrite E. unfold with_maps. cbn. by rewrite <- !app_assoc.
Qed.

Lemma invalidate_spec s pre mid post ip im io first last :
  parts s pre mid post ip im io -> (length (pre ++ mid) <= 255)%nat ->
  first = zlen pre -> 0 <= last < 256 -> Z.min last (mpu_regMax s) = zlen pre + zlen mid ->
  exists mid' im', Forall disabled mid' /\ length mid' = length mid /\ length im' = length mid /\
    mpu_regionInvalidate first last s = Some (with_maps (pre ++ mid' ++ post) (ip ++ im' ++ io) s).
Proof.
  intros P L -> Lt M. unfold mpu_regionInvalidate. rewrite length_app in L.
  assert (w8 (zlen pre) = zlen pre) as -> by (unfold w8; apply Z.mod_small; lia).
  assert (w8 last = last) as -> by (unfold w8; apply Z.mod_small; lia).
  destruct (regions_loop_spec invalidate_region (fun _ => True) (fun _ r' _ => disabled r')
    256 s pre mid post ip im io last) as (mid' & im' & F & E); try done; try lia.
  - intros s' p r m' i0 i i1 _ T I Li. by eapply invalidate_at.
  - by apply Forall_true.
  - exists mid', im'. pose proof (Forall3_length_lm _ _ _ _ F). pose proof (Forall3_length_lr _ _ _ _ F).
    split_and!; try done. clear - F. induction F; by constructor.
Qed.

Lemma assign_spec s pre mid post ip im io id :
  parts s pre mid post ip im io -> (length (pre ++ mid) <= 255)%nat -> Forall placed mid ->
  zlen pre + zlen mid <= mpu_regMax s ->
  mpu_regionAssignMap (zlen pre) (zlen pre + zlen mid) id s =
    Some (with_maps (pre ++ mid ++ post) (ip ++ replicate (length mid) id ++ io) s).
Proof.
  intros P L F M. unfold mpu_regionAssignMap. rewrite length_app in L.
  assert (w8 (zlen pre) = zlen pre) as -> by (unfold w8; apply Z.mod_small; lia).
  assert (w8 (zlen pre + zlen mid) = zlen pre + zlen mid) as -> by (unfold w8; apply Z.mod_small; lia).
  destruct (regions_loop_spec (assign_region id) placed (fun r r' i => r' = r /\ i = id)
    256 s pre mid post ip im io (zlen pre + zlen mid)) as (mid' & im' & F3 & ->); try done; try lia.
  - intros s' p r m' i0 i i1 Pr T I Li. exists r, id. split; [done|]. by eapply assign_at.
  - assert (mid' = mid /\ im' = replicate (length mid) id) as [-> ->]; [|done].
    clear - F3. induction F3 as [|r r' i l l' li (-> & ->) F (-> & ->)]; done.
Qed.

(** ** Allocating the regions of a map *)

Definition mpu_ok (s : mpu_common) : Prop :=
  exists pre rest, mpu_table s = pre ++ rest /\ length (pre ++ rest) = 16%nat /\
    length (mpu_mapId s) = 16%nat /\ mpu_regCnt s = zlen pre /\ zlen pre <= mpu_regMax s <= 16 /\
    Forall placed pre /\ Forall disabled rest.

Lemma disabled_match r x : disabled r -> region_match r x = false.
Proof. intros D. unfold region_match. by rewrite D. Qed.

Lemma lookup_disabled l ids x : Forall disabled l -> mpu_lookup (zip l ids) x = None.
Proof.
  intros F. revert ids. induction F as [|r l D F IH]; intros [|i ids]; [done..|].
  cbn. by rewrite IH, disabled_match.
Qed.

Lemma lookup_same_map l id x :
  mpu_lookup (zip l (replicate (length l) id)) x = (fun a => (a, id)) <$> last_attr l x.
Proof.
  induction l as [|r l IH]; [done|]. cbn. rewrite IH. destruct (last_attr l x); [done|].
  by destruct (region_match r x).
Qed.

Lemma lookup_none l ids x :
  (forall r, r ∈ l -> region_match r x = false) -> mpu_lookup (zip l ids) x = None.
Proof.
  revert ids. induction l as [|r l IH]; intros [|i ids] H; [done..|]. cbn.
  rewrite IH; [|intros; apply H; by right]. by rewrite H by left.
Qed.

(** The three parts of the table decide one after the other. *)
Lemma access_parts s pre mid post ip im io x :
  mpu_table s = pre ++ mid ++ post -> mpu_mapId s = ip ++ im ++ io ->
  length ip = length pre -> length im = length mid -> Forall disabled post ->
  mpu_access s x =
    granted (match mpu_lookup (zip mid im) x with Some a => Some a | None => mpu_lookup (zip pre ip) x end).
Proof.
  intros T I Lp Lm F. unfold mpu_access. rewrite T, I.
  rewrite !zip_with_app by done. by rewrite !mpu_lookup_app, lookup_disabled by done.
Qed.

(** The attributes of a map as its regions carry them. *)
Definition map_attr `{SyspageTypes} (attr : Z) : Z := mpu_regionAttrs attr 1 / 2 ^ 16.

Lemma mpu_regionAttrs_value `{SyspageTypes} attr :
  mpu_regionAttrs attr 1 = map_attr attr * 65536 + 1 /\ 0 < map_attr attr /\ attr_ap (map_attr attr) <> 0.
Proof.
  unfold map_attr, mpu_regionAttrs.
  destruct (has_attr attr mAttrRead), (has_attr attr mAttrWrite), (has_attr attr mAttrExec),
    (has_attr attr mAttrShareable), (has_attr attr mAttrCacheable), (has_attr attr mAttrBufferable);
    by vm_compute.
Qed.

Lemma mpu_regionAlloc_step `{SyspageTypes} s lo up attr id :
  mpu_ok s -> mpu_range lo up ->
  exists res s', mpu_regionAlloc lo (w32 up) attr id 1 s = Some (res, s') /\ mpu_ok s' /\
    forall x, 0 <= x -> mpu_access s' x =
      if (res =? EOK) && (lo <=? x) && (x <? up) then Some (map_attr attr, id) else mpu_access s x.
Proof.
  intros (pre & rest & T & L & Li & C & M & F & D) R.
  destruct (mpu_regionAttrs_value attr) as (Ev & Hp & Ap).
  unfold mpu_regionAlloc. rewrite Ev, C.
  assert (F' : Forall region_ok pre) by (eapply Forall_impl; [exact F|]; intros; by right).
  pose proof (generate_masked s pre rest lo up (map_attr attr) T L M F' R Hp) as G.
  remember (mpu_regionGenerate 2 _ _ _ _ _) as out eqn:E. clear E.
  rewrite length_app in L.
  (* the ids of the regions set *)
  assert (Ids : forall n, (n <= length rest)%nat -> exists ip im io, mpu_mapId s = ip ++ im ++ io /\
    length ip = length pre /\ length im = n /\ length io = (length rest - n)%nat).
  { intros n Hn. exists (take (length pre) (mpu_mapId s)), (take n (drop (length pre) (mpu_mapId s))),
      (drop n (drop (length pre) (mpu_mapId s))).
    rewrite !take_drop, !length_take, !length_drop. split_and!; try done; lia. }
  destruct G as [news (Pn & Hm) Mn Ln|news res N Mn Ln]; cbn [mbind option_bind];
    destruct (Ids (length news) Ln) as (ip & im & io & Ei & Lip & Lim & Lio);
    assert (P : parts (with_table (pre ++ news ++ drop (length news) rest) s) pre news
      (drop (length news) rest) ip im io) by done.
  - cbn [EOK Z.eqb negb with_table mpu_regCnt]. rewrite C.
    rewrite (assign_spec _ _ _ _ _ _ _ id P) by (rewrite ?length_app; done || lia).
    cbn [mbind option_bind]. eexists _, _. split; [done|].
    assert (Dd : Forall disabled (drop (length news) rest)) by by apply Forall_drop.
    split.
    + exists (pre ++ news), (drop (length news) rest). cbn.
      rewrite <- app_assoc, !length_app, length_replicate, length_drop. split_and!; try done; try lia.
      by apply Forall_app.
    + intros x X.
      rewrite (access_parts s pre [] rest ip [] (im ++ io)) by done.
      erewrite (access_parts _ pre news (drop (length news) rest) ip (replicate (length news) id) io)
        by (done || by rewrite length_replicate).
      rewrite lookup_same_map. destruct (Hm x X) as (In & Out). cbn [zip_with mpu_lookup].
      change (EOK =? EOK) with true. destruct (true && (lo <=? x) && (x <? up)) eqn:B.
      * rewrite In by lia. cbn [fmap option_fmap option_map granted]. by rewrite (proj2 (Z.eqb_neq _ _)) by done.
      * destruct Out as [->|(-> & Hn)]; [lia|done|]. cbn. by rewrite lookup_none.
  - destruct (Z.eqb_spec res EOK) as [|_]; [done|]. cbn [negb with_table mpu_regCnt]. rewrite C.
    destruct (invalidate_spec _ _ _ _ _ _ _ (zlen pre) (zlen pre + zlen news) P)
      as (mid' & im' & Dm & Lm & Lim' & ->); try done; try (rewrite ?length_app; cbn; lia).
    cbn [mbind option_bind]. eexists _, _. split; [done|].
    assert (Dd : Forall disabled (drop (length news) rest)) by by apply Forall_drop.
    split.
    + exists pre, (mid' ++ drop (length news) rest). cbn.
      rewrite !length_app, length_drop. split_and!; try done; try lia. by apply Forall_app.
    + intros x X. rewrite (proj2 (Z.eqb_neq res EOK)) by done.
      rewrite (access_parts s pre [] rest ip [] (im ++ io)) by done.
      erewrite (access_parts _ pre mid' (drop (length news) rest) ip im' io) by (done || lia).
      by rewrite lookup_disabled.
Qed.

(** ** From the type register to the table of the kernel *)

Lemma mpu_init_ok type s :
  length (mpu_table s) = 16%nat -> length (mpu_mapId s) = 16%nat ->
  Forall disabled (mpu_table s) -> w8 (Z.shiftr type 8) <= 16 ->
  exists s', mpu_init type s = Some s' /\ mpu_ok s' /\ forall x, mpu_access s' x = None.
Proof.
  intros Lt Li F W. assert (R : 0 <= w8 (Z.shiftr type 8)) by (unfold w8; apply Z.mod_pos_bound; lia).
  unfold mpu_init. set (n := w8 (Z.shiftr type 8)) in *.
  set (s1 := mk_mpu _ _ _ _ _ _).
  assert (P : parts s1 [] (ztake n (mpu_table s)) (zdrop n (mpu_table s))
    [] (ztake n (mpu_mapId s)) (zdrop n (mpu_mapId s))).
  { unfold parts, s1. cbn. rewrite !take_drop, !length_take. by split_and!; try lia. }
  destruct (invalidate_spec _ _ _ _ _ _ _ 0 16 P) as (mid' & im' & Dm & Lm & Lim & ->);
    try done; try (rewrite ?length_app, ?length_take; cbn; lia).
  assert (Dd : Forall disabled (mid' ++ zdrop n (mpu_table s)))
    by (apply Forall_app; split; [done|by apply Forall_drop]).
  assert (Ll : length (mid' ++ zdrop n (mpu_table s)) = 16%nat)
    by (rewrite length_app, length_drop, Lm, length_take; lia).
  eexists. split; [done|]. split.
  - exists [], (mid' ++ zdrop n (mpu_table s)). cbn [with_maps mpu_table mpu_mapId mpu_regCnt mpu_regMax s1 app].
    split_and!; try done; try lia.
    rewrite !length_app, length_drop, Lim, length_take. lia.
  - intros x. unfold mpu_access. cbn [with_maps mpu_table mpu_mapId s1 app]. by rewrite lookup_disabled.
Qed.

(** The table of the system page has the regions of the loader. *)
Lemma mpu_getHalData_access s :
  mpu_ok s -> exists h s', mpu_getHalData 16 s = Some (h, s') /\ mpu_ok s' /\
    hm_type h = mpu_type s /\ hm_allocCnt h = mpu_regCnt s /\
    forall x, granted (mpu_lookup (zip (hm_table h) (hm_map h)) x) = mpu_access s x.
Proof.
  intros (pre & rest & T & L & Li & C & M & F & D). unfold mpu_getHalData.
  set (n := (Z.to_nat (mpu_regMax s) - length pre)%nat). rewrite length_app in L.
  set (ids := mpu_mapId s) in *. set (ip := take (length pre) ids). set (iq := drop (length pre) ids).
  assert (P : parts s pre (take n rest) (drop n rest) ip (take n iq) (drop n iq)).
  { unfold parts. rewrite !take_drop. unfold ip, iq. rewrite take_drop, !length_take, length_drop.
    split_and!; try done; lia. }
  destruct (invalidate_spec _ _ _ _ _ _ _ (mpu_regCnt s) (mpu_regMax s) P)
    as (mid' & im' & Dm & Lm & Lim & ->); try done; try lia.
  { rewrite length_app, length_take. lia. }
  { rewrite length_take. lia. }
  cbn [mbind option_bind with_maps mpu_table mpu_mapId].
  rewrite length_take in Lm, Lim.
  assert (Lt : length (pre ++ mid' ++ drop n rest) = 16%nat) by (rewrite !length_app, length_drop; lia).
  assert (Lj : length (ip ++ im' ++ drop n iq) = 16%nat)
    by (unfold ip, iq; rewrite !length_app, length_take, !length_drop; lia).
  rewrite Lt, Lj. cbn [Nat.leb andb]. eexists _, _. split; [done|].
  assert (Dr : Forall disabled (mid' ++ drop n rest)) by (apply Forall_app; split; [done|by apply Forall_drop]).
  split_and!; try done.
  - exists pre, (mid' ++ drop n rest). cbn. split_and!; try done; lia.
  - intros x. cbn [hm_table hm_map]. rewrite !take_ge by lia.
    assert (Lp : length ip = length pre) by (unfold ip; rewrite length_take; lia).
    rewrite (access_parts s pre [] rest ip [] iq)
      by (done || unfold ip, iq; cbn; by rewrite ?take_drop).
    rewrite zip_with_app by done. rewrite mpu_lookup_app, lookup_disabled by done. done.
Qed.

(** A map the platform is told of: [start, end), its attributes and its number. *)
Record map_request := mk_request { rq_start : Z; rq_end : Z; rq_attr : Z; rq_id : Z }.

(** The maps one after the other, and the results. *)
Fixpoint mpu_allocs `{SyspageTypes} (l : list map_request) (s : mpu_common) : option (list Z * mpu_common) :=
  match l with
  | [] => Some ([], s)
  | q :: l =>
      '(res, s) ← mpu_regionAlloc (rq_start q) (w32 (rq_end q)) (rq_attr q) (rq_id q) 1 s;
      '(rs, s) ← mpu_allocs l s;
      Some (res :: rs, s)
  end.

(** The last map around the address whose regions were set. *)
Definition map_access `{SyspageTypes} (l : list (map_request * Z)) (x : Z) : option (Z * Z) :=
  fold_left (fun acc '(q, res) =>
    if (res =? EOK) && (rq_start q <=? x) && (x <? rq_end q) then Some (map_attr (rq_attr q), rq_id q)
    else acc) l None.

Lemma mpu_allocs_access `{SyspageTypes} l s :
  mpu_ok s -> Forall (fun q => mpu_range (rq_start q) (rq_end q)) l ->
  exists rs s', mpu_allocs l s = Some (rs, s') /\ length rs = length l /\ mpu_ok s' /\
    forall x, 0 <= x -> mpu_access s' x =
      fold_left (fun acc '(q, res) =>
        if (res =? EOK) && (rq_start q <=? x) && (x <? rq_end q) then Some (map_attr (rq_attr q), rq_id q)
        else acc) (zip l rs) (mpu_access s x).
Proof.
  intros O F. revert s O. induction F as [|q l R F IH]; intros s O.
  - exists [], s. by split_and!.
  - destruct (mpu_regionAlloc_step s _ _ (rq_attr q) (rq_id q) O R) as (res & s1 & E & O1 & A1).
    destruct (IH s1 O1) as (rs & s2 & E2 & L & O2 & A2).
    exists (res :: rs), s2. cbn [mpu_allocs]. rewrite E. cbn [mbind option_bind]. rewrite E2.
    cbn [mbind option_bind length zip_with fold_left]. split_and!; try done; [by rewrite L|].
    intros x X. by rewrite A2, A1.
Qed.

(** C5. The protection unit enforces the memory maps.  From the reset of the unit
    and after any sequence of maps whose ranges the loader can represent, the table
    handed to the kernel grants at every address the attributes and the number of
    the last map around it for which regions were allocated, and no access outside
    of these maps; a map that cannot be represented changes nothing. *)
Theorem mpu_table_protects `{SyspageTypes} type l :
  w8 (Z.shiftr type 8) <= 16 -> Forall (fun q => mpu_range (rq_start q) (rq_end q)) l ->
  exists s0 rs s h s', mpu_init type mpu_static = Some s0 /\ mpu_allocs l s0 = Some (rs, s) /\
    length rs = length l /\ mpu_getHalData 16 s = Some (h, s') /\
    forall x, 0 <= x < 2 ^ 32 ->
      granted (mpu_lookup (zip (hm_table h) (hm_map h)) x) = map_access (zip l rs) x.
Proof.
  intros W F.
  destruct (mpu_init_ok type mpu_static) as (s0 & E0 & O0 & A0); try done; [by repeat constructor|].
  destruct (mpu_allocs_access l s0 O0 F) as (rs & s & E & L & O & A).
  destruct (mpu_getHalData_access s O) as (h & s' & Eh & _ & _ & _ & Ah).
  exists s0, rs, s, h, s'. split_and!; try done. intros x X. rewrite Ah, A, A0 by lia. done.
Qed.

Definition sample_requests : list map_request :=
  [mk_request 0x20000000 0x20040000 3 0; mk_request 0 0x1f000 5 1; mk_request 0x60000000 0x60000010 7 2].

Lemma mpu_table_protects_witness :
  exists s0 rs s h s', mpu_init 0x800 mpu_static = Some s0 /\
    mpu_allocs (H := sample_types) sample_requests s0 = Some (rs, s) /\
    length rs = length sample_requests /\ mpu_getHalData 16 s = Some (h, s') /\
    forall x, 0 <= x < 2 ^ 32 ->
      granted (mpu_lookup (zip (hm_table h) (hm_map h)) x) =
        map_access (H := sample_types) (zip sample_requests rs) x.
Proof.
  apply (@mpu_table_protects sample_types 0x800 sample_requests); [by vm_compute|].
  repeat (constructor; [split; [unfold range32; cbn; lia|]; split; [by vm_compute|]|]); [..|constructor].
  all: right; cbn; intros [_ [q E]]; change (2 ^ 29) with 536870912 in E; lia.
Defined.

(** The second map of the sample takes a region and a hole; the third is too small. *)
Lemma sample_requests_results :
  (s0 ← mpu_init 0x800 mpu_static; '(rs, s) ← mpu_allocs (H := sample_types) sample_requests s0;
   Some (rs, mpu_regCnt s)) = Some ([EOK; EOK; - EPERM], 3).
Proof. by vm_compute. Qed.

(** 3 GiB from 0: the size bit would be 33, and the mask is [1u << 33]. *)
Lemma mpu_large_map_undefined :
  (s ← mpu_init 0x800 mpu_static; mpu_regionAlloc (H := sample_types) 0 0xc0000000 3 0 1 s) = None.
Proof. by vm_compute. Qed.
