(* ===== verification/Mpu8.v ===== *)
(** * Memory protection regions of ARMv8-M (src/hal/armv8m/mpu.c)

    A region of this unit has a base and a limit in units of 32 bytes, so every map
    takes one region.  The processor denies an access to an address in more than
    one region, so the list of all regions around an address is what matters. *)

From S2P Require Import Prelude Mem Devs Syspage Mpu.

Definition MPU_MAX_REGIONS := 16.

Record mpu_region := mk_region { rbar : Z; rlar : Z }.

Record mpu_common := mk_mpu {
  mpu_type : Z;
  mpu_regCnt : Z;
  mpu_regMax : Z;
  mpu_mapCnt : Z;
  mpu_table : list mpu_region;
  mpu_mapId : list Z
}.

Definition mpu_static : mpu_common :=
  mk_mpu 0 0 0 0 (replicate (Z.to_nat MPU_MAX_REGIONS) (mk_region 0 0)) (replicate (Z.to_nat MPU_MAX_REGIONS) 0).

Definition mpu_regionAttrsRlar `{SyspageTypes} (attr enable : Z) : Z :=
  let attrIndx := 0 in
  let attrIndx := Z.lor attrIndx (b2z (has_attr attr mAttrCacheable)) in
  let attrIndx := Z.lor attrIndx (if has_attr attr mAttrBufferable then Z.shiftl 1 1 else 0) in
  let execNever := b2z (negb (has_attr attr mAttrExec)) in
  Z.lor (Z.lor (Z.shiftl execNever 4) (Z.shiftl attrIndx 1)) (b2z (negb (enable =? 0))).

Definition mpu_regionAttrsRbar `{SyspageTypes} (attr : Z) : Z :=
  let ap := 0 in
  let ap := if has_attr attr mAttrRead then 1 else ap in
  let ap := if has_attr attr mAttrWrite then 1 else ap in
  Z.lor (Z.lor (Z.shiftl (b2z (has_attr attr mAttrShareable)) 4) (Z.shiftl ap 1))
    (b2z (negb (has_attr attr mAttrExec))).

(** [region[i] = r; mapId[i] = id] *)
Definition set_entry (i : Z) (r : mpu_region) (id : Z) (s : mpu_common) : option mpu_common :=
  if (i <? zlen (mpu_table s)) && (i <? zlen (mpu_mapId s)) then
    Some (mk_mpu (mpu_type s) (mpu_regCnt s) (mpu_regMax s) (mpu_mapCnt s)
      (<[Z.to_nat i := r]> (mpu_table s)) (<[Z.to_nat i := id]> (mpu_mapId s)))
  else None.

(** The result, [*idx] and the state. *)
Definition mpu_regionSet (idx start end_ rbarAttr rlarAttr mapId : Z) (s : mpu_common)
    : option (Z * Z * mpu_common) :=
  let size := w32 (end_ - start) in
  let limit := w32 (end_ - 1) in
  if mpu_regMax s <=? idx then Some (- EPERM, idx, s)
  else if negb (end_ =? 0) && (end_ <=? start) then Some (- EINVAL, idx, s)
  else if negb (size =? 0) &&
      ((size <? 32) || negb (Z.land size 0x1f =? 0) || negb (Z.land start 0x1f =? 0)) then
    Some (- EPERM, idx, s)
  else
    let limit := if size =? 0 then 0xffffffff else limit in
    s ← set_entry idx
      (mk_region (Z.lor (Z.ldiff start 0x1f) rbarAttr) (Z.lor (Z.ldiff limit 0x1f) rlarAttr)) mapId s;
    Some (EOK, idx + 1, s).

Fixpoint invalidate_loop (k : nat) (i last : Z) (s : mpu_common) : option mpu_common :=
  match k with
  | O => Some s
  | S k =>
      if (i <? last) && (i <? mpu_regMax s) then
        s ← set_entry i (mk_region 1 0) (w32 (-1)) s;
        invalidate_loop k (i + 1) last s
      else Some s
  end.

Definition mpu_regionInvalidate (first last : Z) (s : mpu_common) : option mpu_common :=
  invalidate_loop 256 (w8 first) (w8 last) s.

(** [type] is the value of the type register, [disable] the build option
    [DISABLE_MPU]; the attribute registers the function programs are fixed. *)
Definition mpu_init (disable : bool) (type : Z) (s : mpu_common) : option mpu_common :=
  let '(type, regMax) :=
    if disable then (0, 0)
    else
      let regMax := Z.land (Z.shiftr type 8) 0xff in
      (type, if MPU_MAX_REGIONS <? regMax then MPU_MAX_REGIONS else regMax) in
  mpu_regionInvalidate 0 MPU_MAX_REGIONS (mk_mpu type 0 regMax 0 (mpu_table s) (mpu_mapId s)).

Definition mpu_regionAlloc `{SyspageTypes} (addr end_ attr mapId enable : Z) (s : mpu_common)
    : option (Z * mpu_common) :=
  if mpu_regMax s =? 0 then Some (EOK, s)
  else
    let rbarAttr := mpu_regionAttrsRbar attr in
    let rlarAttr := mpu_regionAttrsRlar attr enable in
    '(res, regCur, s) ← mpu_regionSet (mpu_regCnt s) addr end_ rbarAttr rlarAttr mapId s;
    if negb (res =? EOK) then
      s ← mpu_regionInvalidate (mpu_regCnt s) regCur s;
      Some (res, s)
    else
      Some (EOK, mk_mpu (mpu_type s) regCur (mpu_regMax s) (w32 (mpu_mapCnt s + 1))
        (mpu_table s) (mpu_mapId s)).

Record hal_mpu := mk_hal_mpu {
  hm_type : Z; hm_allocCnt : Z; hm_table : list mpu_region; hm_map : list Z
}.

(** The system page of the platform has room for [n] regions. *)
Definition mpu_getHalData (n : nat) (s : mpu_common) : option (hal_mpu * mpu_common) :=
  s ← mpu_regionInvalidate (mpu_regCnt s) (mpu_regMax s) s;
  let cnt := if Z.of_nat n <? mpu_regCnt s then Z.of_nat n else mpu_regCnt s in
  let s := mk_mpu (mpu_type s) cnt (mpu_regMax s) (mpu_mapCnt s) (mpu_table s) (mpu_mapId s) in
  if (cnt <=? zlen (mpu_table s)) && (cnt <=? zlen (mpu_mapId s)) then
    let k := Z.to_nat cnt in
    Some (mk_hal_mpu (mpu_type s) cnt
      (take k (mpu_table s) ++ replicate (n - k) (mk_region 1 0))
      (take k (mpu_mapId s) ++ replicate (n - k) (w32 (-1))), s)
  else None.

(** ** What the registers mean *)

Definition region_match (r : mpu_region) (x : Z) : bool :=
  (rlar r mod 2 =? 1) && (rbar r / 32 <=? x / 32) && (x / 32 <=? rlar r / 32).

(** The attributes: SH, AP and XN, and PXN and the index of the memory type. *)
Definition region_attr (r : mpu_region) : Z * Z := (rbar r mod 32, rlar r mod 32).

(** All regions around the address, with the numbers of their maps. *)
Definition matching (l : list (mpu_region * Z)) (x : Z) : list (Z * Z * Z) :=
  omap (fun '(r, id) => if region_match r x then Some (region_attr r, id) else None) l.

Definition disabled (r : mpu_region) : Prop := rlar r mod 2 = 0.

Lemma disabled_match8 r x : disabled r -> region_match r x = false.
Proof. intros D. unfold region_match. by rewrite D. Qed.

Lemma matching_app l1 l2 x : matching (l1 ++ l2) x = matching l1 x ++ matching l2 x.
Proof. apply omap_app. Qed.

Lemma matching_disabled l ids x : Forall disabled l -> matching (zip l ids) x = [].
Proof.
  intros F. revert ids. induction F as [|r l D F IH]; intros [|i ids]; [done..|].
  unfold matching. cbn. rewrite disabled_match8 by done. apply IH.
Qed.

(** ** The table *)

Definition with_maps (t : list mpu_region) (ids : list Z) (s : mpu_common) : mpu_common :=
  mk_mpu (mpu_type s) (mpu_regCnt s) (mpu_regMax s) (mpu_mapCnt s) t ids.

Lemma set_entry_at s pre r post ip i io r' i' :
  mpu_table s = pre ++ r :: post -> mpu_mapId s = ip ++ i :: io -> length ip = length pre ->
  set_entry (zlen pre) r' i' s = Some (with_maps (pre ++ r' :: post) (ip ++ i' :: io) s).
Proof.
  intros T I L. unfold set_entry. rewrite T, I, !length_app. cbn [length].
  rewrite !(proj2 (Z.ltb_lt _ _)) by lia. rewrite Nat2Z.id, insert_app_r_alt, Nat.sub_diag by done.
  by rewrite <- L, insert_app_r_alt, Nat.sub_diag by done.
Qed.

Lemma invalidate_loop_spec k s pre mid post ip im io last :
  mpu_table s = pre ++ mid ++ post -> mpu_mapId s = ip ++ im ++ io ->
  length ip = length pre -> length im = length mid -> (length mid <= k)%nat ->
  Z.min last (mpu_regMax s) = zlen pre + zlen mid ->
  invalidate_loop k (zlen pre) last s =
    Some (with_maps (pre ++ replicate (length mid) (mk_region 1 0) ++ post)
      (ip ++ replicate (length mid) (w32 (-1)) ++ io) s).
Proof.
  revert s pre ip im k. induction mid as [|r mid IH]; intros s pre ip im k T I Lp Lm K M.
  - destruct im; [|done]. assert (E : s = with_maps (pre ++ post) (ip ++ io) s) by (destruct s; cbn in *; by subst).
    cbn. rewrite <- E. destruct k as [|k]; [done|]. cbn [invalidate_loop].
    replace ((zlen pre <? last) && (zlen pre <? mpu_regMax s)) with false; [done|]. cbn in M. lia.
  - destruct im as [|i im]; [done|]. destruct k as [|k]; [cbn in K; lia|]. cbn [invalidate_loop].
    cbn in M, K, Lm. replace ((zlen pre <? last) && (zlen pre <? mpu_regMax s)) with true by lia.
    rewrite (set_entry_at s pre r (mid ++ post) ip i (im ++ io)) by done. cbn [mbind option_bind].
    set (s1 := with_maps _ _ _).
    assert (E := IH s1 (pre ++ [mk_region 1 0]) (ip ++ [w32 (-1)]) im k).
    rewrite !length_app in E. cbn [length] in E. rewrite <- !app_assoc in E.
    specialize (E eq_refl eq_refl ltac:(lia) ltac:(lia) ltac:(lia)).
    replace (Z.of_nat (length pre + 1)) with (zlen pre + 1) in E by lia.
    rewrite E by (cbn [s1 with_maps mpu_regMax]; lia). done.
Qed.

Lemma invalidate_spec8 s pre mid post ip im io first last :
  mpu_table s = pre ++ mid ++ post -> mpu_mapId s = ip ++ im ++ io ->
  length ip = length pre -> length im = length mid -> (length (pre ++ mid) <= 255)%nat ->
  first = zlen pre -> 0 <= last < 256 -> Z.min last (mpu_regMax s) = zlen pre + zlen mid ->
  mpu_regionInvalidate first last s =
    Some (with_maps (pre ++ replicate (length mid) (mk_region 1 0) ++ post)
      (ip ++ replicate (length mid) (w32 (-1)) ++ io) s).
Proof.
  intros T I Lp Lm L -> Lt M. unfold mpu_regionInvalidate. rewrite length_app in L.
  assert (w8 (zlen pre) = zlen pre) as -> by (unfold w8; apply Z.mod_small; lia).
  assert (w8 last = last) as -> by (unfold w8; apply Z.mod_small; lia).
  apply (invalidate_loop_spec _ _ _ _ _ _ im); done || lia.
Qed.

Lemma disabled_invalid n : Forall disabled (replicate n (mk_region 1 0)).
Proof. by apply Forall_replicate. Qed.

(** ** A region *)

Lemma rbarAttr_range `{SyspageTypes} attr : 0 <= mpu_regionAttrsRbar attr < 32.
Proof.
  unfold mpu_regionAttrsRbar.
  destruct (has_attr attr mAttrRead), (has_attr attr mAttrWrite), (has_attr attr mAttrExec),
    (has_attr attr mAttrShareable); vm_compute; by split.
Qed.

Lemma rlarAttr_range `{SyspageTypes} attr :
  0 <= mpu_regionAttrsRlar attr 1 < 32 /\ mpu_regionAttrsRlar attr 1 mod 2 = 1.
Proof.
  unfold mpu_regionAttrsRlar.
  destruct (has_attr attr mAttrExec), (has_attr attr mAttrCacheable), (has_attr attr mAttrBufferable);
    vm_compute; by repeat split.
Qed.

Lemma field32 x a : 0 <= a < 32 -> Z.lor (Z.ldiff x 0x1f) a = x / 32 * 32 + a.
Proof.
  intros A. change 0x1f with (Z.ones 5). rewrite Z.ldiff_ones_r, Z.shiftl_mul_pow2, Z.shiftr_div_pow2 by lia.
  rewrite Z.lor_comm, (lor_disjoint a _ 5 (x / 2 ^ 5)) by (done || lia). change (2 ^ 5) with 32. lia.
Qed.

(** The ranges a region can have. *)
Definition mpu_unit_range (lo up : Z) : bool := (lo mod 32 =? 0) && (up mod 32 =? 0).

Definition map_attr `{SyspageTypes} (attr : Z) : Z * Z :=
  (mpu_regionAttrsRbar attr, mpu_regionAttrsRlar attr 1).

Lemma region_spec `{SyspageTypes} lo up attr x :
  range32 lo up -> mpu_unit_range lo up = true -> 0 <= x ->
  let r := mk_region (Z.lor (Z.ldiff lo 0x1f) (mpu_regionAttrsRbar attr))
    (Z.lor (Z.ldiff (up - 1) 0x1f) (mpu_regionAttrsRlar attr 1)) in
  region_attr r = map_attr attr /\ region_match r x = (lo <=? x) && (x <? up).
Proof.
  intros R U X r. apply andb_true_iff in U as [U1%Z.eqb_eq U2%Z.eqb_eq].
  pose proof (rbarAttr_range attr) as Rb. destruct (rlarAttr_range attr) as [Rl En].
  unfold r, region_attr, map_attr, region_match. cbn [rbar rlar]. rewrite !field32 by done.
  generalize dependent (mpu_regionAttrsRbar attr). generalize dependent (mpu_regionAttrsRlar attr 1).
  intros l Rl En b Rb. unfold range32 in R. split.
  - f_equal; modlia.
  - apply eq_true_iff_eq. rewrite !andb_true_iff, Z.eqb_eq, !Z.leb_le, Z.ltb_lt. modlia.
Qed.

(** ** Allocating the region of a map *)

Definition mpu_ok (s : mpu_common) : Prop :=
  exists pre rest, mpu_table s = pre ++ rest /\ length (pre ++ rest) = 16%nat /\
    length (mpu_mapId s) = 16%nat /\ mpu_regCnt s = zlen pre /\ zlen pre <= mpu_regMax s <= 16 /\
    0 < mpu_regMax s /\ Forall disabled rest.

Definition mpu_matching (s : mpu_common) (x : Z) : list (Z * Z * Z) :=
  matching (zip (mpu_table s) (mpu_mapId s)) x.

(** The ids of the regions in use, of the next one and of the others. *)
Lemma split_ids {A} (ids : list A) n :
  (n <= length ids)%nat -> exists ip io, ids = ip ++ io /\ length ip = n /\ length io = (length ids - n)%nat.
Proof.
  intros L. exists (take n ids), (drop n ids). rewrite take_drop, length_take, length_drop. split_and!; done || lia.
Qed.

Lemma matching_parts s pre post ip io x :
  mpu_table s = pre ++ post -> mpu_mapId s = ip ++ io -> length ip = length pre -> Forall disabled post ->
  mpu_matching s x = matching (zip pre ip) x.
Proof.
  intros T I L F. unfold mpu_matching. rewrite T, I, zip_with_app, matching_app by done.
  rewrite (matching_disabled post) by done. apply app_nil_r.
Qed.

(** The answer to a request, with [free] regions left. *)
Definition alloc_result (free lo up : Z) : Z :=
  if free <=? 0 then - EPERM else if mpu_unit_range lo up then EOK else - EPERM.

Lemma mpu_regionSet_spec8 `{SyspageTypes} s lo up attr id :
  mpu_ok s -> range32 lo up ->
  let out := mpu_regionSet (mpu_regCnt s) lo (w32 up) (mpu_regionAttrsRbar attr) (mpu_regionAttrsRlar attr 1) id s in
  let res := alloc_result (mpu_regMax s - mpu_regCnt s) lo up in
  (res <> EOK /\ out = Some (res, mpu_regCnt s, s)) \/
  (res = EOK /\ exists pre r0 rest ip i0 io r,
    mpu_table s = pre ++ r0 :: rest /\ mpu_mapId s = ip ++ i0 :: io /\ length ip = length pre /\
    mpu_regCnt s = zlen pre /\ mpu_regCnt s < mpu_regMax s /\ disabled r0 /\ Forall disabled rest /\
    out = Some (EOK, zlen pre + 1, with_maps (pre ++ r :: rest) (ip ++ id :: io) s) /\
    forall x, 0 <= x -> region_attr r = map_attr attr /\ region_match r x = (lo <=? x) && (x <? up)).
Proof.
  intros (pre & rest & T & L & Li & C & M & M0 & D) R out res. unfold out, res, alloc_result, mpu_regionSet.
  destruct (Z.leb_spec (mpu_regMax s) (mpu_regCnt s)) as [G|G].
  { left. rewrite (proj2 (Z.leb_le (mpu_regMax s - mpu_regCnt s) 0)) by lia. done. }
  rewrite (proj2 (Z.leb_gt (mpu_regMax s - mpu_regCnt s) 0)) by lia. pose proof R as (Rl & Ru).
  replace (negb (w32 up =? 0) && (w32 up <=? lo)) with false by mlia.
  change 0x1f with (Z.ones 5). rewrite !Z.land_ones by lia. change (2 ^ 5) with 32.
  assert (w32 (w32 up - 1) = up - 1) as -> by mlia.
  assert (Et : negb (w32 (w32 up - lo) =? 0) && ((w32 (w32 up - lo) <? 32) ||
      negb (w32 (w32 up - lo) mod 32 =? 0) || negb (lo mod 32 =? 0)) = negb (mpu_unit_range lo up)).
  { unfold mpu_unit_range. mlia. }
  rewrite Et. destruct (mpu_unit_range lo up) eqn:U; cbn [negb]; [|by left].
  right. split; [done|]. rewrite length_app in L. destruct rest as [|r0 rest]; [cbn in L; lia|].
  destruct (split_ids (mpu_mapId s) (length pre)) as (ip & io' & I & Lp & Lo); [lia|].
  destruct io' as [|i0 io]; [cbn in *; lia|]. inversion D; subst.
  eexists pre, r0, rest, ip, i0, io, _. split_and!; try done.
  - rewrite C, (set_entry_at s pre r0 rest ip i0 io) by done. cbn [mbind option_bind]. do 4 f_equal.
  - intros x X.
    assert ((if w32 (w32 up - lo) =? 0 then 0xffffffff else up - 1) = up - 1) as ->
      by (destruct (Z.eqb_spec (w32 (w32 up - lo)) 0); mlia).
    by apply region_spec.
Qed.

Lemma mpu_regionAlloc_step8 `{SyspageTypes} s lo up attr id :
  mpu_ok s -> range32 lo up ->
  let res := alloc_result (mpu_regMax s - mpu_regCnt s) lo up in
  exists s', mpu_regionAlloc lo (w32 up) attr id 1 s = Some (res, s') /\ mpu_ok s' /\
    mpu_regMax s' = mpu_regMax s /\ mpu_regCnt s' = mpu_regCnt s + b2z (res =? EOK) /\
    forall x, 0 <= x -> mpu_matching s' x =
      mpu_matching s x ++ (if (res =? EOK) && (lo <=? x) && (x <? up) then [(map_attr attr, id)] else []).
Proof.
  intros O R res. pose proof O as (pre & rest & T & L & Li & C & M & M0 & D). unfold mpu_regionAlloc.
  rewrite (proj2 (Z.eqb_neq _ _)) by lia.
  destruct (mpu_regionSet_spec8 s lo up attr id O R)
    as [(N & ->)|(E & pre' & r0 & rest' & ip & i0 & io & r & T' & I & Lp & C' & G & D0 & D' & -> & Hr)];
    cbn [mbind option_bind].
  - fold res in N |- *. rewrite (proj2 (Z.eqb_neq res EOK)) by done. cbn [negb andb b2z].
    destruct (split_ids (mpu_mapId s) (length pre)) as (ip & io & I & Lp & Lo);
      [rewrite length_app in L; lia|].
    rewrite (invalidate_spec8 s pre [] rest ip [] io) by
      (done || rewrite ?app_nil_r; cbn; rewrite length_app in L; lia).
    cbn. assert (with_maps (pre ++ rest) (ip ++ io) s = s) as -> by (destruct s; cbn in *; by subst).
    exists s. split_and!; try done; [lia|]. intros x X. by rewrite app_nil_r.
  - fold res in E. rewrite E. cbn [EOK Z.eqb negb andb b2z]. eexists. split; [done|]. cbn [mpu_regMax mpu_regCnt with_maps].
    rewrite <- T, T', length_app in L. rewrite I, length_app in Li. cbn [length] in L, Li.
    split_and!; [|done|lia|].
    + exists (pre' ++ [r]), rest'. cbn. rewrite <- app_assoc, !length_app. cbn. split_and!; try done; lia.
    + intros x X. rewrite (matching_parts s pre' (r0 :: rest') ip (i0 :: io)) by (try done; by constructor).
      erewrite (matching_parts _ (pre' ++ [r]) rest' (ip ++ [id]) io);
        [|cbn; by rewrite <- app_assoc|cbn; by rewrite <- app_assoc|rewrite !length_app; cbn; lia|done].
      rewrite zip_with_app, matching_app by done. f_equal. destruct (Hr x X) as (Ha & Hm).
      unfold matching. cbn. rewrite Hm, Ha. by destruct (_ && _).
Qed.

Fixpoint mpu_allocs `{SyspageTypes} (l : list map_request) (s : mpu_common) : option (list Z * mpu_common) :=
  match l with
  | [] => Some ([], s)
  | q :: l =>
      '(res, s) ← mpu_regionAlloc (rq_start q) (w32 (rq_end q)) (rq_attr q) (rq_id q) 1 s;
      '(rs, s) ← mpu_allocs l s;
      Some (res :: rs, s)
  end.

(** The answers to the requests, and the maps around an address. *)
Fixpoint alloc_results (free : Z) (l : list map_request) : list Z :=
  match l with
  | [] => []
  | q :: l =>
      let res := alloc_result free (rq_start q) (rq_end q) in
      res :: alloc_results (free - b2z (res =? EOK)) l
  end.

Definition maps_around `{SyspageTypes} (l : list (map_request * Z)) (x : Z) : list (Z * Z * Z) :=
  omap (fun '(q, res) =>
    if (res =? EOK) && (rq_start q <=? x) && (x <? rq_end q) then Some (map_attr (rq_attr q), rq_id q)
    else None) l.

Lemma mpu_allocs_matching `{SyspageTypes} l s :
  mpu_ok s -> Forall (fun q => range32 (rq_start q) (rq_end q)) l ->
  let rs := alloc_results (mpu_regMax s - mpu_regCnt s) l in
  exists s', mpu_allocs l s = Some (rs, s') /\ mpu_ok s' /\
    forall x, 0 <= x -> mpu_matching s' x = mpu_matching s x ++ maps_around (zip l rs) x.
Proof.
  intros O F. revert s O. induction F as [|q l R F IH]; intros s O.
  - exists s. split_and!; try done. intros x X. by rewrite app_nil_r.
  - cbn [alloc_results mpu_allocs].
    destruct (mpu_regionAlloc_step8 s _ _ (rq_attr q) (rq_id q) O R) as (s1 & -> & O1 & Em & Ec & A1).
    cbn [mbind option_bind]. set (res := alloc_result _ _ _) in *.
    destruct (IH s1 O1) as (s2 & E2 & O2 & A2). rewrite Em, Ec in E2, A2.
    replace (mpu_regMax s - (mpu_regCnt s + b2z (res =? EOK)))
      with (mpu_regMax s - mpu_regCnt s - b2z (res =? EOK)) in E2, A2 by lia.
    exists s2. rewrite E2. cbn [mbind option_bind]. split_and!; try done. intros x X.
    rewrite A2, A1, <- app_assoc by done. f_equal. unfold maps_around. cbn. by destruct (_ && _ && _).
Qed.

(** ** From the type register to the table of the kernel *)

Lemma mpu_init_ok8 type s :
  length (mpu_table s) = 16%nat -> length (mpu_mapId s) = 16%nat ->
  Forall disabled (mpu_table s) -> 0 < Z.land (Z.shiftr type 8) 0xff ->
  exists s', mpu_init false type s = Some s' /\ mpu_ok s' /\ mpu_regCnt s' = 0 /\
    mpu_regMax s' = Z.min MPU_MAX_REGIONS (Z.land (Z.shiftr type 8) 0xff) /\
    forall x, mpu_matching s' x = [].
Proof.
  intros Lt Li F W. unfold mpu_init. set (w := Z.land (Z.shiftr type 8) 0xff) in *.
  set (n := if MPU_MAX_REGIONS <? w then MPU_MAX_REGIONS else w).
  assert (En : n = Z.min MPU_MAX_REGIONS w)
    by (unfold n; destruct (Z.ltb_spec MPU_MAX_REGIONS w); lia).
  assert (Rn : 0 < n <= 16) by (unfold MPU_MAX_REGIONS in En; lia). clearbody n.
  rewrite (invalidate_spec8 (mk_mpu type 0 n 0 (mpu_table s) (mpu_mapId s)) [] (ztake n (mpu_table s))
    (zdrop n (mpu_table s)) [] (ztake n (mpu_mapId s)) (zdrop n (mpu_mapId s)) 0 MPU_MAX_REGIONS);
    cbn [mpu_table mpu_mapId mpu_regMax app]; rewrite ?take_drop, ?length_take;
    try done; try (unfold MPU_MAX_REGIONS; cbn; lia).
  eexists. split; [done|].
  assert (D : Forall disabled (replicate (Z.to_nat n `min` length (mpu_table s)) (mk_region 1 0) ++
    zdrop n (mpu_table s)))
    by (apply Forall_app; split; [apply disabled_invalid|by apply Forall_drop]).
  split_and!; try done.
  - eexists [], _. cbn [with_maps mpu_table mpu_mapId mpu_regCnt mpu_regMax app].
    split; [done|]. rewrite !length_app, !length_replicate, !length_drop. split_and!; try done; cbn; lia.
  - intros x. unfold mpu_matching. cbn [with_maps mpu_table mpu_mapId]. by apply matching_disabled.
Qed.

Lemma mpu_getHalData_matching s :
  mpu_ok s -> exists h s', mpu_getHalData 16 s = Some (h, s') /\
    hm_type h = mpu_type s /\ hm_allocCnt h = mpu_regCnt s /\
    length (hm_table h) = 16%nat /\ length (hm_map h) = 16%nat /\
    forall x, matching (zip (hm_table h) (hm_map h)) x = mpu_matching s x.
Proof.
  intros (pre & rest & T & L & Li & C & M & M0 & D). unfold mpu_getHalData.
  rewrite length_app in L. set (n := (Z.to_nat (mpu_regMax s) - length pre)%nat).
  destruct (split_ids (mpu_mapId s) (length pre)) as (ip & iq & I & Lp & Lq); [lia|].
  rewrite (invalidate_spec8 s pre (take n rest) (drop n rest) ip (take n iq) (drop n iq));
    rewrite ?take_drop, ?length_app, ?length_take; try done; try lia.
  cbn [mbind option_bind with_maps mpu_table mpu_mapId mpu_regCnt mpu_type].
  rewrite C. rewrite (proj2 (Z.ltb_ge (Z.of_nat 16) (zlen pre))) by lia.
  rewrite !length_app, !length_replicate, !length_drop.
  rewrite !(proj2 (Z.leb_le _ _)) by lia. cbn [andb]. rewrite Nat2Z.id.
  eexists _, _. split; [done|]. cbn [hm_type hm_allocCnt hm_table hm_map].
  rewrite !take_app_length'; try done.
  split_and!; try done; try (rewrite length_app, length_replicate; lia).
  intros x. rewrite (matching_parts s pre rest ip iq) by done.
  rewrite zip_with_app, matching_app, (matching_disabled (replicate _ _)) by (done || apply disabled_invalid).
  apply app_nil_r.
Qed.

(** From the reset of the unit and after any sequence of maps, each request is
    answered by whether a region is left and the range consists of units of 32
    bytes, and the table handed to the kernel has around every address exactly the
    maps that were accepted, with their attributes and numbers, in order. *)
Lemma mpu_table_maps `{SyspageTypes} type l :
  0 < Z.land (Z.shiftr type 8) 0xff -> Forall (fun q => range32 (rq_start q) (rq_end q)) l ->
  let rs := alloc_results (Z.min MPU_MAX_REGIONS (Z.land (Z.shiftr type 8) 0xff)) l in
  exists s0 s h s', mpu_init false type mpu_static = Some s0 /\ mpu_allocs l s0 = Some (rs, s) /\
    mpu_getHalData 16 s = Some (h, s') /\
    forall x, 0 <= x < 2 ^ 32 -> matching (zip (hm_table h) (hm_map h)) x = maps_around (zip l rs) x.
Proof.
  intros W F rs.
  destruct (mpu_init_ok8 type mpu_static) as (s0 & E0 & O0 & C0 & M0 & A0); try done; [by repeat constructor|].
  destruct (mpu_allocs_matching l s0 O0 F) as (s & E & O & A). rewrite C0, M0, Z.sub_0_r in E, A.
  destruct (mpu_getHalData_matching s O) as (h & s' & Eh & _ & _ & _ & _ & Ah).
  exists s0, s, h, s'. split_and!; try done. intros x X. by rewrite Ah, A, A0 by lia.
Qed.

Lemma mpu_table_maps_witness :
  exists s0 s h s', mpu_init false 0x800 mpu_static = Some s0 /\
    mpu_allocs (H := sample_types) sample_requests s0 = Some ([EOK; EOK; - EPERM], s) /\
    mpu_getHalData 16 s = Some (h, s') /\
    forall x, 0 <= x < 2 ^ 32 -> matching (zip (hm_table h) (hm_map h)) x =
      maps_around (H := sample_types) (zip sample_requests [EOK; EOK; - EPERM]) x.
Proof.
  apply (@mpu_table_maps sample_types 0x800 sample_requests); [by vm_compute|].
  repeat (constructor; [unfold range32; cbn; lia|]). constructor.
Defined.
