(* ===== verification/Getopt.v ===== *)
(** * Command line options (src/lib/getopt.c)

    The arguments are the list of the strings [argv[0 .. argc)], none of them NULL.
    The globals are a record; the messages of the function are not modelled.  The
    second part is a reference parser by recursion over the arguments, and the proof
    that the calls of [lib_getopt] produce its results. *)

From S2P Require Import Prelude CString.

Record getopt := mk_getopt {
  optarg : option cstr;
  optind : Z;
  opterr : Z;
  optopt : Z;
  optwhere : Z
}.

Definition lib_getoptReset (s : getopt) : getopt := mk_getopt None 1 1 0 1.

Definition set_optarg (a : option cstr) (s : getopt) : getopt :=
  mk_getopt a (optind s) (opterr s) (optopt s) (optwhere s).
Definition set_optind (i : Z) (s : getopt) : getopt :=
  mk_getopt (optarg s) i (opterr s) (optopt s) (optwhere s).
Definition set_optopt (c : Z) (s : getopt) : getopt :=
  mk_getopt (optarg s) (optind s) (opterr s) c (optwhere s).
Definition set_optwhere (w : Z) (s : getopt) : getopt :=
  mk_getopt (optarg s) (optind s) (opterr s) (optopt s) w.

(** [optind++; optwhere = 1] *)
Definition next_argv (s : getopt) : getopt := set_optwhere 1 (set_optind (optind s + 1) s).

(** [argv[optind][i]]; reading behind the NUL is a fault. *)
Definition char_at (a : cstr) (i : Z) : option Z :=
  if (0 <=? i) && (i <=? zlen a) then Some (at_ a (Z.to_nat i)) else None.

(** The option of [*optspec] behind its character. *)
Definition takes_arg (spec : cstr) : bool := deref spec =? ":"%ch.
Definition arg_optional (spec : cstr) : bool := deref (tail spec) =? ":"%ch.

Definition lib_getopt (argv : list cstr) (optstring : cstr) (s : getopt) : option (Z * getopt) :=
  let argc := zlen argv in
  let s := if optind s <=? 0 then lib_getoptReset s else s in
  if (argc =? 0) || (argc <=? optind s) then Some (-1, s)
  else
    a ← argv !! Z.to_nat (optind s);
    if negb (deref a =? "-"%ch) || (at_ a 1 =? 0) then Some (-1, s)
    else if (at_ a 1 =? "-"%ch) && (at_ a 2 =? 0) then Some (-1, set_optind (optind s + 1) s)
    else
      opt ← char_at a (optwhere s);
      let s := set_optwhere (optwhere s + 1) s in
      let leading_colon := deref optstring =? ":"%ch in
      match hal_strchr optstring opt with
      | None =>
          let s := set_optopt opt s in
          c ← char_at a (optwhere s);
          Some ("?"%ch, if c =? 0 then next_argv s else s)
      | Some [] => None
      | Some (_ :: spec) =>
          c ← char_at a (optwhere s);
          if takes_arg spec then
            if negb (c =? 0) then
              Some (opt, next_argv (set_optarg (Some (zdrop (optwhere s) a)) s))
            else if arg_optional spec then Some (opt, next_argv (set_optarg None s))
            else if optind s + 1 <? argc then
              arg ← argv !! Z.to_nat (optind s + 1);
              Some (opt, next_argv (set_optind (optind s + 1) (set_optarg (Some arg) s)))
            else
              let s := next_argv (set_optopt opt s) in
              Some (if leading_colon then ":"%ch else "?"%ch, s)
          else if negb (c =? 0) then Some (opt, s)
          else Some (opt, next_argv s)
      end.

(** ** The loop of the commands: [while ((c = lib_getopt(...)) >= 0)]

    The results of the calls, and the pointer each of them stored in [optarg]: the
    function never reads [optarg], so it is cleared before each call. *)

Fixpoint getopt_loop (fuel : nat) (argv : list cstr) (optstring : cstr) (s : getopt)
    : option (list (Z * option cstr) * getopt) :=
  match fuel with
  | O => None
  | S fuel =>
      '(c, s) ← lib_getopt argv optstring (set_optarg None s);
      if c <? 0 then Some ([], s)
      else
        '(l, s') ← getopt_loop fuel argv optstring s;
        Some ((c, optarg s) :: l, s')
  end.

(** ** The reference parser

    The results of the calls, and the arguments left. *)

Definition parsed := (list (Z * option cstr) * list cstr)%type.

Definition result (c : Z) (arg : option cstr) (p : parsed) : parsed := ((c, arg) :: p.1, p.2).

(** The options [cs] of one argument: [after] is the parse of the next arguments,
    [next] the next argument and the parse of those behind it. *)
Fixpoint parse_cluster (optstring : cstr) (after : parsed) (next : option (cstr * parsed)) (cs : cstr)
    : parsed :=
  match cs with
  | [] => after
  | c :: cs =>
      match hal_strchr optstring c with
      | None | Some [] => result "?"%ch None (parse_cluster optstring after next cs)
      | Some (_ :: spec) =>
          if takes_arg spec then
            match cs, next with
            | _ :: _, _ => result c (Some cs) after
            | [], Some (arg, p) => if arg_optional spec then result c None after else result c (Some arg) p
            | [], None =>
                if arg_optional spec then result c None after
                else result (if deref optstring =? ":"%ch then ":"%ch else "?"%ch) None ([], [])
            end
          else result c None (parse_cluster optstring after next cs)
      end
  end.

Definition is_option (a : cstr) : bool := (deref a =? "-"%ch) && negb (at_ a 1 =? 0).
Definition is_end (a : cstr) : bool := (at_ a 1 =? "-"%ch) && (at_ a 2 =? 0).

Fixpoint parse_args (optstring : cstr) (args : list cstr) : parsed :=
  match args with
  | [] => ([], [])
  | a :: rest =>
      if negb (is_option a) then ([], args)
      else if is_end a then ([], rest)
      else
        parse_cluster optstring (parse_args optstring rest)
          (match rest with [] => None | r :: rest => Some (r, parse_args optstring rest) end) (tail a)
  end.

(** ** The calls produce the parse *)

Lemma char_at_drop a w : 0 <= w <= zlen a -> char_at a w = Some (deref (zdrop w a)).
Proof.
  intros W. unfold char_at, at_, deref. rewrite (proj2 (Z.leb_le 0 w)), (proj2 (Z.leb_le w _)) by lia.
  cbn [andb]. by rewrite head_lookup, lookup_drop, Nat.add_0_r.
Qed.

Lemma hal_strchr_head s c p : hal_strchr s c = Some p -> deref p = w8 c.
Proof.
  induction s as [|d s IH]; cbn [hal_strchr].
  - destruct (Z.eqb_spec (deref []) (w8 c)); [by intros [= <-]|done].
  - destruct (Z.eqb_spec (deref (d :: s)) (w8 c)); [by intros [= <-]|done].
Qed.

(** The position in the options of an argument. *)
Record at_option (pre : list cstr) (a : cstr) (rest : list cstr) (w : Z) (cs : cstr) (s : getopt) : Prop := {
  ao_pre : pre <> [];
  ao_opt : is_option a = true;
  ao_end : is_end a = false;
  ao_ind : optind s = zlen pre;
  ao_where : optwhere s = w;
  ao_w : 1 <= w <= zlen a;
  ao_cs : zdrop w a = cs
}.

(** The position before an argument. *)
Definition at_args (pre : list cstr) (s : getopt) : Prop :=
  pre <> [] /\ optind s = zlen pre /\ optwhere s = 1.

Lemma zlen_pos {A} (l : list A) : l <> [] -> 0 < zlen l.
Proof. destruct l; [done|]. cbn. lia. Qed.

(** A call at an option. *)
Lemma lib_getopt_at pre a rest w c cs optstring s :
  at_option pre a rest w (c :: cs) s -> 0 < c < 256 -> cstr_ok cs ->
  let argv := pre ++ a :: rest in
  let s1 := set_optwhere (w + 1) s in
  let stay (s : getopt) := if deref cs =? 0 then next_argv s else s in
  lib_getopt argv optstring s =
    match hal_strchr optstring c with
    | None | Some [] => Some ("?"%ch, stay (set_optopt c s1))
    | Some (_ :: spec) =>
        if takes_arg spec then
          match cs, rest with
          | _ :: _, _ => Some (c, next_argv (set_optarg (Some cs) s1))
          | [], arg :: _ =>
              if arg_optional spec then Some (c, next_argv (set_optarg None s1))
              else Some (c, next_argv (set_optind (optind s + 1) (set_optarg (Some arg) s1)))
          | [], [] =>
              if arg_optional spec then Some (c, next_argv (set_optarg None s1))
              else Some (if deref optstring =? ":"%ch then ":"%ch else "?"%ch, next_argv (set_optopt c s1))
          end
        else Some (c, stay s1)
    end.
Proof.
  intros [Np Op En Ind Wh Hw Dr] Hc Hcs argv s1 stay. unfold lib_getopt, argv.
  apply zlen_pos in Np. rewrite Ind, length_app. cbn [length].
  rewrite (proj2 (Z.leb_gt (zlen pre) 0)), (proj2 (Z.eqb_neq _ 0)) by lia. rewrite Ind.
  rewrite (proj2 (Z.leb_gt _ (zlen pre))) by lia. cbn [orb].
  rewrite Nat2Z.id, (list_lookup_middle pre rest a (length pre)) by done. cbn [mbind option_bind].
  unfold is_option in Op. apply andb_true_iff in Op as [O1 O2]. rewrite O1. cbn [negb orb].
  apply negb_true_iff in O2. rewrite O2. unfold is_end in En. rewrite En.
  assert (Lc : w < zlen a).
  { pose proof (f_equal (@length Z) Dr) as L. rewrite length_drop in L. cbn [length] in L. lia. }
  assert (Dn : zdrop (w + 1) a = cs).
  { replace (Z.to_nat (w + 1)) with (Z.to_nat w + 1)%nat by lia. rewrite <- drop_drop, Dr. done. }
  rewrite Wh, (char_at_drop a w), Dr by lia. cbn [mbind option_bind deref head default from_option id].
  fold s1. cbn [optwhere set_optwhere set_optopt s1 optind].
  rewrite (char_at_drop a (w + 1)), Dn by lia. cbn [mbind option_bind].
  destruct (hal_strchr optstring c) as [[|x spec]|] eqn:E; [|clear E|done].
  { apply hal_strchr_head in E. unfold w8 in E. rewrite Z.mod_small in E by lia. cbn in E. lia. }
  destruct (takes_arg spec); [|by unfold stay; destruct (deref cs =? 0)].
  destruct cs as [|d cs]; cbn [deref head default from_option id].
  - cbn [Z.eqb negb]. rewrite Ind. destruct rest as [|arg rest].
    + rewrite (proj2 (Z.ltb_ge _ _)) by (cbn; lia). by destruct (arg_optional spec).
    + rewrite (proj2 (Z.ltb_lt _ _)) by (cbn; lia).
      replace (Z.to_nat (zlen pre + 1)) with (S (length pre)) by lia.
      destruct (arg_optional spec); [done|].
      rewrite lookup_app_r, Nat.sub_succ_l, Nat.sub_diag by lia. cbn. done.
  - apply cstr_ok_cons in Hcs as [Hd _]. by rewrite (proj2 (Z.eqb_neq d 0)) by lia.
Qed.

(** The bytes of the arguments bound the calls. *)
Definition args_size (args : list cstr) : nat := sum_list_with length args.

Section loop.
Variable optstring : cstr.

Definition loop_ok (fuel : nat) (argv : list cstr) (s : getopt) (p : parsed) : Prop :=
  exists s', getopt_loop fuel argv optstring s = Some (p.1, s') /\ zdrop (optind s') argv = p.2.

Lemma loop_step fuel argv s c s1 arg p :
  lib_getopt argv optstring (set_optarg None s) = Some (c, s1) -> 0 <= c -> optarg s1 = arg ->
  loop_ok fuel argv s1 p -> loop_ok (S fuel) argv s (result c arg p).
Proof.
  intros E C <- (s' & L & R). exists s'. split; [|done]. cbn [getopt_loop]. rewrite E. cbn [mbind option_bind].
  rewrite (proj2 (Z.ltb_ge c 0)), L by lia. done.
Qed.

Lemma loop_end fuel argv s s1 rest :
  lib_getopt argv optstring (set_optarg None s) = Some (-1, s1) -> zdrop (optind s1) argv = rest ->
  loop_ok (S fuel) argv s ([], rest).
Proof. intros E R. exists s1. split; [|done]. cbn [getopt_loop]. by rewrite E. Qed.

(** The loop at the arguments [args]. *)
Definition args_ok (args : list cstr) : Prop :=
  forall pre s fuel, at_args pre s -> (args_size args < fuel)%nat ->
    loop_ok fuel (pre ++ args) s (parse_args optstring args).

Lemma next_args pre a s : optind s = zlen pre -> at_args (pre ++ [a]) (next_argv s).
Proof.
  intros I. split; [by destruct pre|]. cbn. rewrite I, length_app. cbn. split; lia || done.
Qed.

(** The loop at the options of an argument. *)
Lemma cluster_ok pre a rest :
  Forall cstr_ok rest -> args_ok rest -> (forall r rest', rest = r :: rest' -> args_ok rest') ->
  forall cs w s fuel, at_option pre a rest w cs s -> cs <> [] -> cstr_ok cs ->
    (length cs + args_size rest < fuel)%nat ->
    loop_ok fuel (pre ++ a :: rest) s
      (parse_cluster optstring (parse_args optstring rest)
        (match rest with [] => None | r :: rest => Some (r, parse_args optstring rest) end) cs).
Proof.
  intros Fr A1 A2 cs. induction cs as [|c cs IH]; intros w s fuel At N O Fl; [done|].
  apply cstr_ok_cons in O as [Hc O]. destruct fuel as [|fuel]; [lia|]. cbn [length] in Fl.
  assert (At0 : at_option pre a rest w (c :: cs) (set_optarg None s)) by by destruct At; constructor.
  pose proof (lib_getopt_at _ _ _ _ _ _ optstring _ At0 Hc O) as E. cbn zeta in E.
  (* what follows when the argument is finished, and when it is not *)
  assert (Next : forall s', optind s' = zlen pre -> loop_ok fuel (pre ++ a :: rest) (next_argv s') (parse_args optstring rest)).
  { intros s' I. replace (pre ++ a :: rest) with ((pre ++ [a]) ++ rest) by by rewrite <- app_assoc.
    apply A1; [by apply next_args|lia]. }
  assert (Stay : forall s', optind s' = zlen pre -> optwhere s' = w + 1 ->
    loop_ok fuel (pre ++ a :: rest) (if deref cs =? 0 then next_argv s' else s')
      (parse_cluster optstring (parse_args optstring rest)
        (match rest with [] => None | r :: rest => Some (r, parse_args optstring rest) end) cs)).
  { intros s' I W. destruct cs as [|d cs]; [by apply Next|].
    apply cstr_ok_cons in O as O'. cbn [deref head default from_option id].
    rewrite (proj2 (Z.eqb_neq d 0)) by lia. apply (IH (w + 1)); [|done|done|cbn [length] in *; lia].
    destruct At as [Np Op En Ind Wh Hw Dr]. constructor; try done.
    - pose proof (f_equal (@length Z) Dr) as L. rewrite length_drop in L. cbn [length] in L. lia.
    - replace (Z.to_nat (w + 1)) with (Z.to_nat w + 1)%nat by lia. by rewrite <- drop_drop, Dr. }
  pose proof (ao_ind _ _ _ _ _ _ At) as Ind. cbn [parse_cluster].
  destruct (hal_strchr optstring c) as [[|x spec]|] eqn:Es.
  - eapply loop_step; [exact E|done|by destruct (deref cs =? 0)|by apply Stay].
  - destruct (takes_arg spec).
    + destruct cs as [|d cs].
      * destruct rest as [|r rest].
        -- destruct (arg_optional spec).
           ++ eapply loop_step; [exact E|lia|done|by apply Next].
           ++ eapply loop_step; [exact E|by destruct (_ =? _)|done|by apply Next].
        -- destruct (arg_optional spec).
           ++ eapply loop_step; [exact E|lia|done|by apply Next].
           ++ eapply loop_step; [exact E|lia|done|].
              replace (pre ++ a :: r :: rest) with ((pre ++ [a; r]) ++ rest) by by rewrite <- app_assoc.
              apply (A2 r rest eq_refl).
              ** split; [by destruct pre|]. cbn. rewrite Ind, length_app. cbn. split; lia || done.
              ** cbn [args_size sum_list_with] in Fl. unfold args_size in *. cbn in Fl. lia.
      * destruct rest; (eapply loop_step; [exact E|lia|done|by apply Next]).
    + eapply loop_step; [exact E|lia|by destruct (deref cs =? 0)|by apply Stay].
  - eapply loop_step; [exact E|done|by destruct (deref cs =? 0)|by apply Stay].
Qed.

(** A call before an argument that is not an option ends the loop. *)
Lemma lib_getopt_stop pre args s :
  at_args pre s ->
  match args with [] => True | a :: _ => is_option a = false end ->
  exists s', lib_getopt (pre ++ args) optstring s = Some (-1, s') /\ optind s' = zlen pre.
Proof.
  intros (Np & Ind & W) H. apply zlen_pos in Np. unfold lib_getopt.
  rewrite Ind, (proj2 (Z.leb_gt (zlen pre) 0)) by lia. rewrite Ind.
  destruct (Z.leb_spec (zlen (pre ++ args)) (zlen pre)) as [L|L].
  - rewrite orb_true_r. by exists s.
  - rewrite length_app in L. destruct args as [|a rest]; [cbn in L; lia|].
    rewrite (proj2 (Z.eqb_neq (zlen (pre ++ a :: rest)) 0)) by (rewrite length_app; cbn; lia). cbn [orb].
    rewrite Nat2Z.id, (list_lookup_middle pre rest a (length pre)) by done. cbn [mbind option_bind].
    unfold is_option in H.
    destruct (deref a =? _); cbn [negb orb andb] in *; [|by exists s].
    apply negb_false_iff in H. rewrite H. by exists s.
Qed.

Lemma parse_loop args : Forall cstr_ok args -> args_ok args.
Proof.
  intros F. remember (length args) as n eqn:En. assert (Hn : (length args <= n)%nat) by lia. clear En.
  revert args F Hn. induction n as [|n IH]; intros args F Hn pre s fuel At Fl;
    (destruct fuel as [|fuel]; [lia|]);
    assert (At0 : at_args pre (set_optarg None s)) by done.
  - destruct args; [|cbn in Hn; lia].
    destruct (lib_getopt_stop pre [] _ At0 I) as (s' & E & Is). eapply loop_end; [done|].
    rewrite Is, app_nil_r, Nat2Z.id. apply drop_all.
  - destruct args as [|a rest].
    { destruct (lib_getopt_stop pre [] _ At0 I) as (s' & E & Is). eapply loop_end; [done|].
      rewrite Is, app_nil_r, Nat2Z.id. apply drop_all. }
    apply Forall_cons in F as [Oa F]. cbn [parse_args]. cbn in Hn.
    destruct (is_option a) eqn:Op; cbn [negb].
    2:{ destruct (lib_getopt_stop pre (a :: rest) _ At0 Op) as (s' & E & Is). eapply loop_end; [done|].
        by rewrite Is, Nat2Z.id, drop_app_length. }
    destruct (is_end a) eqn:En.
    + destruct At as (Np & Ind & W). apply zlen_pos in Np. eapply loop_end.
      * unfold lib_getopt. cbn [optind set_optarg]. rewrite Ind, length_app. cbn [length].
        rewrite (proj2 (Z.leb_gt (zlen pre) 0)) by lia. cbn [optind set_optarg]. rewrite Ind.
        rewrite (proj2 (Z.leb_gt _ (zlen pre))), (proj2 (Z.eqb_neq _ 0)) by lia. cbn [orb].
        rewrite Nat2Z.id, (list_lookup_middle pre rest a (length pre)) by done. cbn [mbind option_bind].
        unfold is_option in Op. apply andb_true_iff in Op as [O1 O2]. apply negb_true_iff in O2.
        rewrite O1, O2. cbn [negb orb]. unfold is_end in En. by rewrite En.
      * cbn [optind set_optind]. replace (Z.to_nat (zlen pre + 1)) with (length (pre ++ [a]))
          by (rewrite length_app; cbn; lia).
        replace (pre ++ a :: rest) with ((pre ++ [a]) ++ rest) by by rewrite <- app_assoc.
        apply drop_app_length.
    + destruct a as [|d cs]; [done|].
      assert (Ncs : cs <> []) by (intros ->; unfold is_option in Op; cbn in Op; by rewrite andb_false_r in Op).
      apply (cluster_ok pre (d :: cs) rest F) with (w := 1).
      * apply IH; [done|lia].
      * intros r rest' ->. apply Forall_cons in F as [_ F]. apply IH; [done|cbn in Hn; lia].
      * destruct At as (Np & Ind & W). constructor; try done. cbn. destruct cs; [done|cbn; lia].
      * done.
      * by apply cstr_ok_cons in Oa as [_ Oa].
      * unfold args_size in *. cbn [sum_list_with length tail] in *. lia.
Qed.

End loop.

(** C18. Repeated calls of [lib_getopt] after a reset end within the bytes of the
    arguments, and produce the options and arguments of the reference parser:
    grouped options, arguments in the same or the next string, optional and missing
    arguments and unknown options; [optind] is left at the first argument that is
    not an option. *)
Theorem lib_getopt_parses optstring arg0 args fuel s :
  Forall cstr_ok args -> (args_size args < fuel)%nat ->
  exists s', getopt_loop fuel (arg0 :: args) optstring (lib_getoptReset s) =
      Some ((parse_args optstring args).1, s') /\
    zdrop (optind s') (arg0 :: args) = (parse_args optstring args).2.
Proof. intros F L. by apply (parse_loop optstring args F [arg0]). Qed.

Lemma lib_getopt_parses_witness :
  exists s', getopt_loop 20 [str "app"; str "-xb0x10"; str "-o"; str "out"; str "-q"; str "f"] (str "xb:o:")
      (lib_getoptReset (mk_getopt None 7 0 0 3)) =
    Some ([("x"%ch, None); ("b"%ch, Some (str "0x10")); ("o"%ch, Some (str "out")); ("?"%ch, None)], s') /\
    zdrop (optind s') [str "app"; str "-xb0x10"; str "-o"; str "out"; str "-q"; str "f"] = [str "f"].
Proof.
  apply (lib_getopt_parses (str "xb:o:") (str "app") [str "-xb0x10"; str "-o"; str "out"; str "-q"; str "f"] 20
    (mk_getopt None 7 0 0 3)); [repeat constructor|vm_compute; lia].
Defined.
