(* ===== verification/Cmd.v ===== *)
(** * Commands (src/cmds/cmd.c)

    The parser of a line into arguments, the interpreter of a script and the prompt
    with its history.  A pointer into the script is the suffix it points to, the
    buffer of the arguments is the list of the strings put into it and the number
    of bytes they take.  What a command does is a function on a world [W]; the
    commands are the table the linker collects.  Console output is not modelled. *)

From S2P Require Import Prelude CString Mem Devs.

Definition SIZE_CMD_ARG_LINE := 256.
Definition SIZE_CMD_ARGV := 11.
Definition CMD_EXIT_SUCCESS := 0.
Definition CMD_EXIT_FAILURE := 1.
Definition SIZE_HIST := 8.

(** ** src/cmds/cmd.c, cmd_parseArgLine *)

(** [while (lib_isgraph( **lines ) && buf < end)]: the bytes copied and the rest;
    [room] is [end - buf]. *)
Fixpoint copy_graph (lines : cstr) (room : Z) : cstr * cstr :=
  match lines with
  | c :: p =>
      if lib_isgraph c && (0 <? room) then
        let '(w, rest) := copy_graph p (room - 1) in (c :: w, rest)
      else ([], lines)
  | [] => ([], [])
  end.

(** The loop, at most [fuel] steps: the result, [*lines] and the arguments. *)
Fixpoint parseArgLine_loop (fuel : nat) (lines : cstr) (room argvsz : Z) (argv : list cstr)
    : option (Z * cstr * list cstr) :=
  match fuel with
  | O => None
  | S fuel =>
      match lines with
      | [] => Some (zlen argv, [], argv)
      | c :: p =>
          if lib_isspace c then
            if lib_isblank c then parseArgLine_loop fuel p room argvsz argv
            else Some (zlen argv, p, argv)
          else if argvsz <=? zlen argv + 1 then Some (- EINVAL, lines, argv)
          else
            let '(w, lines) := copy_graph lines room in
            let room := room - zlen w in
            if room <=? 0 then Some (- ENOMEM, lines, argv ++ [w])
            else parseArgLine_loop fuel lines (room - 1) argvsz (argv ++ [w])
      end
  end.

(** [None] for [lines] is a NULL pointer. *)
Definition cmd_parseArgLine (lines : option cstr) (bufsz argvsz : Z) : option (Z * cstr * list cstr) :=
  match lines with
  | None | Some [] => Some (-1, [], [])
  | Some l => parseArgLine_loop (length l + Z.to_nat argvsz + 1) l bufsz argvsz []
  end.

(** ** cmd_parse *)

Section interp.
Context {W : Type}.

Record cmd := mk_cmd { cmd_name : cstr; cmd_run : list cstr -> W -> option (Z * W) }.

Variable cmds : list cmd.
Variable lib_getoptReset : W -> W.

(** The loop over the commands. *)
Fixpoint cmd_launch (l : list cmd) (argv : list cstr) (w : W) : option (option Z * W) :=
  match l with
  | [] => Some (None, w)
  | c :: l =>
      if hal_strcmp (default [] (head argv)) (cmd_name c) =? 0 then
        '(ret, w) ← cmd_run c argv (lib_getoptReset w);
        Some (Some ret, w)
      else cmd_launch l argv w
  end.

(** At most [fuel] lines. *)
Fixpoint cmd_parse_loop (fuel : nat) (script : option cstr) (w : W) : option (Z * W) :=
  match fuel with
  | O => None
  | S fuel =>
      '(argc, script, argv) ← cmd_parseArgLine script SIZE_CMD_ARG_LINE SIZE_CMD_ARGV;
      if argc =? 0 then cmd_parse_loop fuel (Some script) w
      else if argc =? -1 then Some (EOK, w)
      else if argc <? 0 then Some (argc, w)
      else
        '(found, w) ← cmd_launch cmds argv w;
        match found with
        | None => Some (- EINVAL, w)
        | Some ret =>
            if negb (ret =? CMD_EXIT_SUCCESS) then Some (if ret <? 0 then ret else - EINVAL, w)
            else cmd_parse_loop fuel (Some script) w
        end
  end.

Definition cmd_parse (script : option cstr) (w : W) : option (Z * W) :=
  cmd_parse_loop (S (length (default [] script))) script w.

Definition cmd_getCmd (id : Z) : option cmd := if id <? zlen cmds then cmds !! Z.to_nat id else None.

End interp.

Arguments cmd : clear implicits.

(** ** cmd_prompt *)

Record prompt := mk_prompt {
  pr_ll : Z;
  pr_cl : Z;
  pr_lines : list (list Z);
  pr_pos : Z;
  pr_newline : bool
}.

(** [lines[k][i] = v] *)
Definition line_put (k i v : Z) (ls : list (list Z)) : option (list (list Z)) :=
  l ← (if 0 <=? k then ls !! Z.to_nat k else None);
  l ← mstore l i [v];
  Some (<[Z.to_nat k := l]> ls).

Definition line_get (k : Z) (ls : list (list Z)) : option cstr :=
  l ← (if 0 <=? k then ls !! Z.to_nat k else None);
  cstring l.

(** [hal_memcpy(lines[to], lines[from], hal_strlen(lines[from]) + 1)] *)
Definition line_copy (to from : Z) (ls : list (list Z)) : option (list (list Z)) :=
  s ← line_get from ls;
  l ← (if 0 <=? to then ls !! Z.to_nat to else None);
  l ← mstore l 0 (s ++ [0]);
  Some (<[Z.to_nat to := l]> ls).

Definition prompt_init : prompt :=
  mk_prompt 0 0 (replicate (Z.to_nat SIZE_HIST) (replicate (Z.to_nat SIZE_CMD_ARG_LINE) 0)) 0 false.

(** A character that is not a control: the state, and the line to execute. *)
Definition prompt_regular (c : Z) (p : prompt) : option (prompt * option cstr) :=
  if (c =? 13) || (c =? 10) then
    if (c =? 10) && pr_newline p then
      Some (mk_prompt (pr_ll p) (pr_cl p) (pr_lines p) (pr_pos p) false, None)
    else
      let newline := if c =? 13 then true else pr_newline p in
      if negb (pr_pos p =? 0) then
        line ← line_get (pr_ll p) (pr_lines p);
        let ll := (pr_ll p + 1) mod SIZE_HIST in
        Some (mk_prompt ll ll (pr_lines p) 0 newline, Some line)
      else Some (mk_prompt (pr_ll p) (pr_cl p) (pr_lines p) 0 newline, None)
  else if c =? 9 then Some (p, None)
  else
    '(lines, pos) ←
      (if negb (c =? 8) && (pr_pos p <? SIZE_CMD_ARG_LINE - 1) then
         ls ← line_put (pr_ll p) (pr_pos p) c (pr_lines p);
         ls ← line_put (pr_ll p) (pr_pos p + 1) 0 ls;
         Some (ls, pr_pos p + 1)
       else Some (pr_lines p, pr_pos p));
    '(lines, pos) ←
      (if (c =? 8) && (0 <? pos) then
         ls ← line_put (pr_ll p) (pos - 1) 0 lines;
         Some (ls, pos - 1)
       else Some (lines, pos));
    Some (mk_prompt (pr_ll p) (pr_cl p) lines pos false, None).

(** The arrows: 72 is up, 80 is down; the line shown changes the position. *)
Definition prompt_control (sc : Z) (p : prompt) : option prompt :=
  '(cl, lines, chgfl) ←
    (if sc =? 72 then
       let ncl := (pr_cl p + SIZE_HIST - 1) mod SIZE_HIST in
       l ← (if 0 <=? ncl then pr_lines p !! Z.to_nat ncl else None);
       first ← load8 l 0;
       if negb (ncl =? pr_ll p) && negb (first =? 0) then
         ls ← line_copy (pr_ll p) ncl (pr_lines p);
         Some (ncl, ls, true)
       else Some (pr_cl p, pr_lines p, false)
     else if sc =? 80 then
       let ncl := (pr_cl p + 1) mod SIZE_HIST in
       if negb (pr_cl p =? pr_ll p) then
         ls ← (if negb (ncl =? pr_ll p) then line_copy (pr_ll p) ncl (pr_lines p)
               else line_put (pr_ll p) 0 0 (pr_lines p));
         Some (ncl, ls, true)
       else Some (pr_cl p, pr_lines p, false)
     else Some (pr_cl p, pr_lines p, false));
  if (chgfl : bool) then
    s ← line_get (pr_ll p) lines;
    Some (mk_prompt (pr_ll p) cl lines (hal_strlen s) (pr_newline p))
  else Some (mk_prompt (pr_ll p) cl lines (pr_pos p) (pr_newline p)).

(** The characters of one turn of the loop: [c], [sc] and the rest of the input;
    a character the console does not deliver reads as 0. *)
Definition getc (input : list Z) : Z * list Z := (deref input, tail input).

Definition prompt_read (input : list Z) : Z * Z * list Z :=
  let '(c, input) := getc input in
  if c =? 127 then (8, 0, input)
  else if c =? 27 then
    let '(c, input) := getc input in
    if c =? 91 then
      let '(c, input) := getc input in
      (0, (if c =? "A"%ch then 72 else if c =? "B"%ch then 80 else 0), input)
    else (0, 0, input)
  else (c, 0, input).

(** One turn: the character, the state, the line to execute and the rest. *)
Definition prompt_step (p : prompt) (input : list Z) : option (Z * prompt * option cstr * list Z) :=
  let '(c, sc, input) := prompt_read input in
  if negb (c =? 0) then
    '(p, line) ← prompt_regular c p;
    Some (c, p, line, input)
  else
    p ← prompt_control sc p;
    Some (c, p, None, input).

(** The turns until the input is used up or ['#'] is read: the lines executed. *)
Fixpoint prompt_loop (fuel : nat) (p : prompt) (input : list Z) : option (list cstr * prompt) :=
  match input with
  | [] => Some ([], p)
  | _ :: _ =>
      match fuel with
      | O => None
      | S fuel =>
          '(c, p, line, input) ← prompt_step p input;
          '(ls, p) ← (if c =? "#"%ch then Some ([], p) else prompt_loop fuel p input);
          Some (match line with Some l => l :: ls | None => ls end, p)
      end
  end.

Definition cmd_prompt (input : list Z) : option (list cstr * prompt) :=
  prompt_loop (length input) prompt_init input.

(** ** The arguments of a line *)

Definition is_newline (c : Z) : bool := lib_isspace c && negb (lib_isblank c).

(** The fields between blanks, the empty ones included, and the words. *)
Fixpoint fields (l : cstr) : list cstr :=
  match l with
  | [] => [[]]
  | c :: l =>
      if lib_isblank c then [] :: fields l
      else match fields l with f :: fs => (c :: f) :: fs | [] => [[c]] end
  end.

Definition words (l : cstr) : list cstr := filter (fun w => w <> []) (fields l).

(** The first line and what follows its newline. *)
Fixpoint split_line (l : cstr) : cstr * cstr :=
  match l with
  | [] => ([], [])
  | c :: l => if is_newline c then ([], l) else let '(line, rest) := split_line l in (c :: line, rest)
  end.

(** The error of the first word that does not fit, with [k] words before it. *)
Fixpoint place (argvsz k room : Z) (ws : list cstr) : option Z :=
  match ws with
  | [] => None
  | w :: ws =>
      if argvsz <=? k + 1 then Some (- EINVAL)
      else if room <=? zlen w then Some (- ENOMEM)
      else place argvsz (k + 1) (room - zlen w - 1) ws
  end.

Definition script_char (c : Z) : Prop := lib_isgraph c = true \/ lib_isspace c = true.

Lemma graph_not_space c : lib_isgraph c = true -> lib_isspace c = false /\ lib_isblank c = false.
Proof. unfold lib_isgraph, lib_isspace, lib_isblank. intros. lia. Qed.

Lemma blank_space c : lib_isblank c = true -> lib_isspace c = true.
Proof. unfold lib_isspace. intros ->. done. Qed.

(** A longest run of graphical characters. *)
Definition ends_word (rest : cstr) : Prop := lib_isgraph (deref rest) = false.

Lemma copy_graph_fits w rest room :
  Forall (fun c => lib_isgraph c = true) w -> ends_word rest -> zlen w < room ->
  copy_graph (w ++ rest) room = (w, rest).
Proof.
  intros F E. revert room. induction F as [|c w G F IH]; intros room L.
  - destruct rest as [|c rest]; [done|]. cbn in *. unfold ends_word in E. cbn in E. by rewrite E.
  - cbn in *. rewrite G, (proj2 (Z.ltb_lt 0 room)) by lia. cbn. by rewrite IH by lia.
Qed.

Lemma copy_graph_full w rest room :
  Forall (fun c => lib_isgraph c = true) w -> 0 <= room <= zlen w ->
  exists w1 w2, copy_graph (w ++ rest) room = (w1, w2) /\ zlen w1 = room.
Proof.
  intros F. revert room. induction F as [|c w G F IH]; intros room L.
  - cbn in L. assert (room = 0) as -> by lia. destruct rest as [|c rest]; [by exists [], []|].
    cbn. rewrite andb_false_r. by exists [], (c :: rest).
  - cbn in *. rewrite G. cbn. destruct (Z.ltb_spec 0 room).
    + destruct (IH (room - 1)) as (w1 & w2 & -> & L1); [lia|]. exists (c :: w1), w2. cbn. split; [done|lia].
    + exists [], (c :: w ++ rest). cbn. split; [done|lia].
Qed.

Lemma fields_cons l : exists f fs, fields l = f :: fs.
Proof.
  induction l as [|c l (f & fs & E)]; cbn [fields]; [eauto|]. rewrite E. destruct (lib_isblank c); eauto.
Qed.

(** The words of a line that begins with a word. *)
Lemma fields_word w l :
  Forall (fun c => lib_isgraph c = true) w -> fields (w ++ l) =
    match fields l with f :: fs => (w ++ f) :: fs | [] => [w] end.
Proof.
  induction 1 as [|c w G F IH]; cbn [app fields];
    [by destruct (fields_cons l) as (f & fs & ->)|].
  destruct (graph_not_space c G) as [_ ->]. rewrite IH. by destruct (fields l).
Qed.

Lemma words_blank c l : lib_isblank c = true -> words (c :: l) = words l.
Proof. intros B. unfold words. cbn [fields]. rewrite B. by rewrite filter_cons_False by (intros X; by apply X). Qed.

Lemma words_word w l :
  Forall (fun c => lib_isgraph c = true) w -> w <> [] -> l = [] \/ lib_isblank (deref l) = true ->
  words (w ++ l) = w :: words l.
Proof.
  intros F N E. unfold words. rewrite fields_word by done. destruct l as [|c l].
  - cbn [fields]. rewrite app_nil_r. by rewrite filter_cons_True.
  - destruct E as [|B]; [done|]. change (deref (c :: l)) with c in B. cbn [fields]. rewrite B, app_nil_r.
    rewrite filter_cons_True by done. by rewrite filter_cons_False by (intros X; by apply X).
Qed.

(** Scripts of graphical characters and white space split into words. *)
Lemma span_word l :
  exists w rest, l = w ++ rest /\ Forall (fun c => lib_isgraph c = true) w /\ ends_word rest.
Proof.
  induction l as [|c l (w & rest & -> & F & E)].
  - exists [], []. split_and!; try constructor.
  - destruct (lib_isgraph c) eqn:G.
    + exists (c :: w), rest. split_and!; try done. by constructor.
    + exists [], (c :: w ++ rest). by split_and!; try constructor.
Qed.

Lemma split_line_word w rest :
  Forall (fun c => lib_isgraph c = true) w ->
  split_line (w ++ rest) = (w ++ (split_line rest).1, (split_line rest).2).
Proof.
  induction 1 as [|c w G F IH]; cbn; [by destruct (split_line rest)|].
  unfold is_newline. destruct (graph_not_space c G) as [-> _]. cbn. by rewrite IH.
Qed.

Lemma split_line_head rest :
  ends_word rest -> Forall script_char rest ->
  (split_line rest).1 = [] \/ lib_isblank (deref (split_line rest).1) = true.
Proof.
  intros E F. destruct rest as [|c rest]; [by left|]. cbn [split_line]. unfold is_newline.
  apply Forall_cons in F as [[G|S] F]; [unfold ends_word in E; cbn in E; congruence|]. rewrite S.
  destruct (lib_isblank c) eqn:B; cbn [negb andb]; [right|by left].
  by destruct (split_line rest).
Qed.

(** The loop puts the words of the line behind the arguments found before. *)
Lemma parseArgLine_loop_words fuel lines room argvsz argv :
  Forall script_char lines -> 0 <= room -> (length lines < fuel)%nat ->
  match place argvsz (zlen argv) room (words (split_line lines).1) with
  | None =>
      parseArgLine_loop fuel lines room argvsz argv =
        Some (zlen argv + zlen (words (split_line lines).1), (split_line lines).2,
          argv ++ words (split_line lines).1)
  | Some e => exists lines' argv', parseArgLine_loop fuel lines room argvsz argv = Some (e, lines', argv')
  end.
Proof.
  revert lines room argv. induction fuel as [|fuel IH]; intros lines room argv F R L; [lia|].
  destruct lines as [|c p]; [cbn; by rewrite Z.add_0_r, app_nil_r|].
  cbn [parseArgLine_loop]. destruct (lib_isspace c) eqn:S.
  - cbn [split_line]. unfold is_newline. rewrite S. apply Forall_cons in F as [_ F].
    destruct (lib_isblank c) eqn:B; cbn [negb andb].
    + specialize (IH p room argv F R ltac:(cbn in L; lia)). destruct (split_line p) as [line rest].
      cbn [fst snd] in *. by rewrite words_blank.
    + cbn. by rewrite Z.add_0_r, app_nil_r.
  - destruct (span_word (c :: p)) as (w & rest & E & G & Ew).
    assert (Nw : w <> []).
    { intros ->. cbn in E. subst rest. apply Forall_cons in F as [[Gc|] _]; [|congruence].
      unfold ends_word in Ew. cbn in Ew. congruence. }
    rewrite E in *. apply Forall_app in F as [_ Fr].
    rewrite split_line_word by done. cbn [fst snd].
    rewrite words_word by (done || by apply split_line_head).
    cbn [place]. destruct (Z.leb_spec argvsz (zlen argv + 1)); [eauto|].
    destruct (Z.leb_spec room (zlen w)) as [Full|Fits].
    + destruct (copy_graph_full w rest room G ltac:(lia)) as (w1 & w2 & -> & L1).
      rewrite (proj2 (Z.leb_le (room - zlen w1) 0)) by lia. eauto.
    + rewrite copy_graph_fits by done. rewrite (proj2 (Z.leb_gt (room - zlen w) 0)) by lia.
      assert (Lw : (0 < length w)%nat) by (destruct w; [done|cbn; lia]). rewrite length_app in L.
      specialize (IH rest (room - zlen w - 1) (argv ++ [w]) Fr ltac:(lia) ltac:(lia)).
      rewrite length_app in IH. cbn [length] in IH.
      replace (Z.of_nat (length argv + 1)) with (zlen argv + 1) in IH by lia.
      destruct (place _ _ _ _); [done|]. rewrite IH, <- app_assoc. cbn. do 3 f_equal. lia.
Qed.

Lemma cmd_parseArgLine_words l bufsz argvsz :
  l <> [] -> Forall script_char l -> 0 < bufsz ->
  match place argvsz 0 bufsz (words (split_line l).1) with
  | None =>
      cmd_parseArgLine (Some l) bufsz argvsz =
        Some (zlen (words (split_line l).1), (split_line l).2, words (split_line l).1)
  | Some e => exists l' argv', cmd_parseArgLine (Some l) bufsz argvsz = Some (e, l', argv')
  end.
Proof.
  intros N F B. unfold cmd_parseArgLine. destruct l as [|c l]; [done|].
  by apply (parseArgLine_loop_words _ (c :: l) bufsz argvsz []); [|lia|lia].
Qed.

(** A line of graphical characters and white space is split into its words: the
    arguments are the words in order and the pointer is behind the newline, and the
    first word beyond the room for arguments or for bytes is the error. *)
Lemma cmd_parseArgLine_spec l bufsz argvsz :
  l <> [] -> Forall script_char l -> 0 < bufsz ->
  let ws := words (split_line l).1 in
  match place argvsz 0 bufsz ws with
  | None => cmd_parseArgLine (Some l) bufsz argvsz = Some (zlen ws, (split_line l).2, ws)
  | Some e => exists l' argv', cmd_parseArgLine (Some l) bufsz argvsz = Some (e, l', argv')
  end.
Proof. apply cmd_parseArgLine_words. Qed.

Lemma cmd_parseArgLine_spec_witness :
  let l := str "  app flash0  -x
go" in
  match place SIZE_CMD_ARGV 0 SIZE_CMD_ARG_LINE (words (split_line l).1) with
  | None => cmd_parseArgLine (Some l) SIZE_CMD_ARG_LINE SIZE_CMD_ARGV =
      Some (zlen (words (split_line l).1), (split_line l).2, words (split_line l).1)
  | Some e => exists l' argv', cmd_parseArgLine (Some l) SIZE_CMD_ARG_LINE SIZE_CMD_ARGV = Some (e, l', argv')
  end.
Proof.
  apply (cmd_parseArgLine_spec (str "  app flash0  -x
go") SIZE_CMD_ARG_LINE SIZE_CMD_ARGV); [done| |done].
  repeat (constructor; [first [by left|by right]|]). constructor.
Defined.

(** ** Every line is parsed *)

Lemma copy_graph_length l room : (length (copy_graph l room).2 <= length l)%nat.
Proof.
  revert room. induction l as [|c l IH]; intros room; cbn [copy_graph]; [done|].
  destruct (_ && _); [|done]. specialize (IH (room - 1)). destruct (copy_graph l (room - 1)).
  cbn [snd] in *. cbn. lia.
Qed.

(** Any bytes: the function returns, and unless it fails it takes a byte. *)
Lemma parseArgLine_loop_total fuel lines room argvsz argv :
  (length lines + Z.to_nat (argvsz - 1 - zlen argv) < fuel)%nat ->
  exists r rest argv', parseArgLine_loop fuel lines room argvsz argv = Some (r, rest, argv') /\
    (0 <= r -> (length rest <= length lines)%nat /\ (lines = [] \/ (length rest < length lines)%nat)).
Proof.
  revert lines room argv. induction fuel as [|fuel IH]; intros lines room argv L; [lia|].
  destruct lines as [|c p]; cbn [parseArgLine_loop].
  { exists (zlen argv), [], argv. split; [done|]. cbn. auto. }
  cbn [length] in L |- *. destruct (lib_isspace c).
  - destruct (lib_isblank c).
    + destruct (IH p room argv) as (r & rest & argv' & -> & H); [lia|]. exists r, rest, argv'.
      split; [done|]. intros R. destruct (H R). lia.
    + exists (zlen argv), p, argv. split; [done|]. lia.
  - destruct (Z.leb_spec argvsz (zlen argv + 1)); [by exists (- EINVAL), (c :: p), argv|].
    pose proof (copy_graph_length (c :: p) room) as Lc.
    destruct (copy_graph (c :: p) room) as [w l']. cbn [snd length] in Lc.
    destruct (Z.leb_spec (room - zlen w) 0); [by exists (- ENOMEM), l', (argv ++ [w])|].
    destruct (IH l' (room - zlen w - 1) (argv ++ [w])) as (r & rest & argv' & -> & H').
    { rewrite length_app. cbn [length]. lia. }
    exists r, rest, argv'. split; [done|]. intros R. destruct (H' R) as [Hr [->|]]; cbn in *; lia.
Qed.

Lemma cmd_parseArgLine_total script bufsz argvsz :
  exists r rest argv, cmd_parseArgLine script bufsz argvsz = Some (r, rest, argv) /\
    (0 <= r -> exists l, script = Some l /\ (length rest < length l)%nat).
Proof.
  destruct script as [[|c l]|]; [by exists (-1), [], []| |by exists (-1), [], []].
  destruct (parseArgLine_loop_total (length (c :: l) + Z.to_nat argvsz + 1) (c :: l) bufsz argvsz [])
    as (r & rest & argv & E & H); [cbn; lia|].
  exists r, rest, argv. split; [exact E|]. intros R. destruct (H R) as [_ [|]]; [done|]. by exists (c :: l).
Qed.

Section interp_proofs.
Context {W : Type}.
Variable cmds : list (cmd W).
Variable lib_getoptReset : W -> W.

Lemma cmd_launch_total l argv w :
  (forall c argv w, c ∈ l -> is_Some (cmd_run c argv w)) -> is_Some (cmd_launch lib_getoptReset l argv w).
Proof.
  induction l as [|c l IH]; intros T; cbn [cmd_launch]; [eauto|]. destruct (_ =? 0).
  - destruct (T c argv (lib_getoptReset w)) as ([ret w'] & ->); [by left|]. eauto.
  - apply IH. intros. apply T. by right.
Qed.

(** C22. A script of any bytes is run to its end or to the first line that fails,
    provided every command returns: no line is parsed twice. *)
Theorem cmd_parse_terminates script w :
  (forall c argv w, c ∈ cmds -> is_Some (cmd_run c argv w)) ->
  is_Some (cmd_parse cmds lib_getoptReset script w).
Proof.
  intros T. unfold cmd_parse. remember (S (length (default [] script))) as fuel eqn:Ef.
  assert (L : (length (default [] script) < fuel)%nat) by lia. clear Ef. revert script w L.
  induction fuel as [|fuel IH]; intros script w L; [lia|]. cbn [cmd_parse_loop].
  destruct (cmd_parseArgLine_total script SIZE_CMD_ARG_LINE SIZE_CMD_ARGV) as (r & rest & argv & -> & H).
  cbn [mbind option_bind]. destruct (Z.eqb_spec r 0) as [Er|].
  { destruct H as (l & -> & Hl); [lia|]. apply IH. cbn in *. lia. }
  destruct (r =? -1); [eauto|]. destruct (Z.ltb_spec r 0); [eauto|].
  destruct H as (l & -> & Hl); [lia|].
  destruct (cmd_launch_total cmds argv w T) as ([[ret|] w'] & ->); cbn [mbind option_bind]; [|eauto].
  destruct (negb _); [eauto|]. apply IH. cbn in *. lia.
Qed.

(** The lines between newlines, and their execution one after the other. *)
Fixpoint script_lines (l : cstr) : list cstr :=
  match l with
  | [] => [[]]
  | c :: l =>
      if is_newline c then [] :: script_lines l
      else match script_lines l with f :: fs => (c :: f) :: fs | [] => [[c]] end
  end.

Fixpoint exec_lines (ls : list cstr) (w : W) : option (Z * W) :=
  match ls with
  | [] => Some (EOK, w)
  | l :: ls =>
      match words l with
      | [] => exec_lines ls w
      | ws =>
          match place SIZE_CMD_ARGV 0 SIZE_CMD_ARG_LINE ws with
          | Some e => Some (e, w)
          | None =>
              '(found, w) ← cmd_launch lib_getoptReset cmds ws w;
              match found with
              | None => Some (- EINVAL, w)
              | Some ret => if ret =? CMD_EXIT_SUCCESS then exec_lines ls w
                  else Some (if ret <? 0 then ret else - EINVAL, w)
              end
          end
      end
  end.

(** The first line of a script and the others. *)
Lemma script_lines_split l :
  script_lines l = (split_line l).1 :: script_lines (split_line l).2 \/
  (script_lines l = [(split_line l).1] /\ (split_line l).2 = []).
Proof.
  induction l as [|c l IH]; [by right|]. cbn [script_lines split_line].
  destruct (is_newline c); [by left|]. destruct (split_line l) as [line rest]. cbn [fst snd] in *.
  destruct IH as [E|[E ->]]; rewrite E; [by left|by right].
Qed.

Lemma split_line_rest l : Forall script_char l -> Forall script_char (split_line l).2.
Proof.
  induction 1 as [|c l Hc F IH]; cbn [split_line]; [constructor|].
  destruct (is_newline c); [done|]. by destruct (split_line l).
Qed.

Lemma split_line_length l : l <> [] -> (length (split_line l).2 < length l)%nat.
Proof.
  induction l as [|c l IH]; [done|]. intros _. cbn [split_line].
  destruct (is_newline c); [cbn; lia|]. destruct l as [|d l]; [cbn; lia|].
  specialize (IH ltac:(done)). destruct (split_line (d :: l)). cbn in *. lia.
Qed.

Lemma place_neg argvsz k room ws e : place argvsz k room ws = Some e -> e = - EINVAL \/ e = - ENOMEM.
Proof.
  revert k room. induction ws as [|w ws IH]; intros k room; cbn [place]; [done|].
  destruct (_ <=? _); [intros [= <-]; by left|]. destruct (_ <=? _); [intros [= <-]; by right|]. apply IH.
Qed.

(** The interpreter runs the lines. *)
Lemma cmd_parse_exec script w :
  Forall script_char script ->
  cmd_parse cmds lib_getoptReset (Some script) w = exec_lines (script_lines script) w.
Proof.
  intros F. unfold cmd_parse. cbn [default from_option id].
  remember (S (length script)) as fuel eqn:Ef.
  assert (L : (length script < fuel)%nat) by lia. clear Ef. revert script w F L.
  induction fuel as [|fuel IH]; intros script w F L; [lia|]. cbn [cmd_parse_loop].
  destruct script as [|c p]; [done|]. set (l := c :: p) in *.
  pose proof (split_line_length l ltac:(done)) as Ll. pose proof (split_line_rest l F) as Fr.
  assert (Rest : forall w, cmd_parse_loop cmds lib_getoptReset fuel (Some (split_line l).2) w =
      match script_lines l with [] => Some (EOK, w) | _ :: ls => exec_lines ls w end).
  { intros w'. rewrite IH by (done || lia). destruct (script_lines_split l) as [->|[-> ->]]; done. }
  assert (El : exists ls, script_lines l = (split_line l).1 :: ls)
    by (destruct (script_lines_split l) as [->|[-> _]]; eauto).
  destruct El as (ls & El). rewrite El in Rest |- *. cbn [exec_lines].
  pose proof (cmd_parseArgLine_words l SIZE_CMD_ARG_LINE SIZE_CMD_ARGV ltac:(done) F ltac:(done)) as P.
  destruct (words (split_line l).1) as [|a ws] eqn:Ew.
  { cbn [place] in P. rewrite P. cbn [mbind option_bind length Z.of_nat Z.eqb]. apply Rest. }
  destruct (place _ _ _ _) as [e|] eqn:Ep.
  { destruct P as (l' & argv' & ->). cbn [mbind option_bind].
    by destruct (place_neg _ _ _ _ _ Ep) as [-> | ->]. }
  rewrite P. cbn [mbind option_bind].
  rewrite (proj2 (Z.eqb_neq _ 0)), (proj2 (Z.eqb_neq _ (-1))), (proj2 (Z.ltb_ge _ 0)) by (cbn; lia).
  destruct (cmd_launch _ _ _ _) as [[[ret|] w']|]; cbn [mbind option_bind]; [|done|done].
  destruct (Z.eqb_spec ret CMD_EXIT_SUCCESS); cbn [negb]; [apply Rest|done].
Qed.

(** C8. A script of graphical characters and white space is its lines executed in
    order: empty lines are skipped, a line that does not fit, an unknown command
    and a command that fails end the script with their error, and the script
    succeeds when every line does. *)
Theorem cmd_parse_lines script w :
  Forall script_char script ->
  cmd_parse cmds lib_getoptReset (Some script) w = exec_lines (script_lines script) w.
Proof. apply cmd_parse_exec. Qed.

End interp_proofs.

(** A command that counts its calls and fails when it is asked to. *)
Definition sample_cmds : list (cmd Z) :=
  [mk_cmd (str "fail") (fun _ w => Some (CMD_EXIT_FAILURE, w));
   mk_cmd (str "add") (fun argv w => Some (CMD_EXIT_SUCCESS, w + zlen argv - 1))].

Definition sample_script : cstr := str "add a b

  add c
fail
add d".

Lemma cmd_parse_lines_witness :
  cmd_parse sample_cmds id (Some sample_script) 0 = exec_lines sample_cmds id (script_lines sample_script) 0.
Proof.
  apply (cmd_parse_lines sample_cmds id sample_script 0).
  repeat (constructor; [first [by left|by right]|]). constructor.
Defined.

Lemma cmd_parse_terminates_witness : is_Some (cmd_parse sample_cmds id (Some sample_script) 0).
Proof.
  apply (cmd_parse_terminates sample_cmds id (Some sample_script) 0).
  intros c argv w I. apply elem_of_cons in I as [->|I]; [eauto|].
  apply elem_of_cons in I as [->|I]; [eauto|]. by apply elem_of_nil in I.
Defined.

Lemma sample_script_result : cmd_parse sample_cmds id (Some sample_script) 0 = Some (- EINVAL, 3).
Proof. by vm_compute. Qed.

(** ** The prompt *)

Lemma splice_one {A} i (v : A) l : 0 <= i < zlen l -> splice i [v] l = <[Z.to_nat i := v]> l.
Proof.
  intros I. unfold splice. rewrite insert_take_drop by lia. cbn. do 3 f_equal. lia.
Qed.

(** A line of the history: its size, and a NUL in it. *)
Definition line_ok (l : list Z) : Prop := zlen l = SIZE_CMD_ARG_LINE /\ 0 ∈ l.

(** The text of the line before [pos]. *)
Definition cur_ok (pos : Z) (l : list Z) : Prop :=
  0 <= pos < SIZE_CMD_ARG_LINE /\ Forall (fun c => c <> 0) (ztake pos l) /\
  (0 < pos -> l !! Z.to_nat pos = Some 0).

Record prompt_ok (p : prompt) (text : cstr) : Prop := {
  po_ll : 0 <= pr_ll p < SIZE_HIST;
  po_cl : 0 <= pr_cl p < SIZE_HIST;
  po_len : zlen (pr_lines p) = SIZE_HIST;
  po_lines : Forall line_ok (pr_lines p);
  po_cur : exists l, pr_lines p !! Z.to_nat (pr_ll p) = Some l /\ cur_ok (pr_pos p) l /\ text = ztake (pr_pos p) l
}.

Lemma cstring_in l : 0 ∈ l -> exists s rest, cstring l = Some s /\ l = s ++ 0 :: rest /\ Forall (fun c => c <> 0) s.
Proof.
  induction l as [|c l IH]; intros I; [by apply elem_of_nil in I|]. cbn.
  destruct (Z.eqb_spec c 0) as [-> |N]; [by exists [], l; split_and!; try constructor|].
  apply elem_of_cons in I as [|I]; [done|]. destruct (IH I) as (s & rest & -> & -> & F).
  exists (c :: s), rest. split_and!; try done. by constructor.
Qed.

Lemma cur_cstring pos l : zlen l = SIZE_CMD_ARG_LINE -> cur_ok pos l -> 0 < pos -> cstring l = Some (ztake pos l).
Proof.
  intros L (P & F & Z0) Hp. rewrite <- (take_drop_middle l (Z.to_nat pos) 0) at 1 by auto.
  by apply cstring_app.
Qed.

Lemma lookup_line (ls : list (list Z)) k :
  zlen ls = SIZE_HIST -> 0 <= k < SIZE_HIST -> exists l, ls !! Z.to_nat k = Some l.
Proof. intros L K. apply lookup_lt_is_Some_2. lia. Qed.

Lemma line_put_ok ls k i v l :
  0 <= k -> ls !! Z.to_nat k = Some l -> 0 <= i < zlen l ->
  line_put k i v ls = Some (<[Z.to_nat k := <[Z.to_nat i := v]> l]> ls).
Proof.
  intros K E I. unfold line_put. rewrite (proj2 (Z.leb_le 0 k)), E by lia. cbn [mbind option_bind].
  rewrite mstore_ok, splice_one by (cbn; lia). done.
Qed.

Lemma line_get_ok ls k l : 0 <= k -> ls !! Z.to_nat k = Some l -> line_get k ls = cstring l.
Proof. intros K E. unfold line_get. by rewrite (proj2 (Z.leb_le 0 k)), E by lia. Qed.

(** Changing the current line. *)
Lemma prompt_ok_line p text l pos nl :
  prompt_ok p text -> line_ok l -> cur_ok pos l ->
  prompt_ok (mk_prompt (pr_ll p) (pr_cl p) (<[Z.to_nat (pr_ll p) := l]> (pr_lines p)) pos nl) (ztake pos l).
Proof.
  intros [Ll Cl Le Fl (l0 & E & C & T)] Lo Cu. constructor; cbn; try done.
  - by rewrite length_insert.
  - by apply Forall_insert.
  - exists l. split; [|done]. apply list_lookup_insert_eq. by apply lookup_lt_Some in E.
Qed.

Lemma type_char p text c nl :
  prompt_ok p text -> c <> 0 -> pr_pos p < SIZE_CMD_ARG_LINE - 1 ->
  exists ls, (ls ← line_put (pr_ll p) (pr_pos p) c (pr_lines p); line_put (pr_ll p) (pr_pos p + 1) 0 ls) = Some ls /\
    prompt_ok (mk_prompt (pr_ll p) (pr_cl p) ls (pr_pos p + 1) nl) (text ++ [c]).
Proof.
  intros O Hc Hp. pose proof O as [Ll Cl Le Fl (l & E & C & ->)].
  pose proof C as (P & F & Z0).
  destruct (proj1 (Forall_lookup _ _) Fl _ _ E) as [Le' _].
  rewrite (line_put_ok _ _ _ _ l) by lia || done. cbn [mbind option_bind].
  set (l1 := <[Z.to_nat (pr_pos p) := c]> l).
  rewrite (line_put_ok _ _ _ _ l1) by
    (try (unfold l1; rewrite length_insert); try lia; apply list_lookup_insert_eq; by apply lookup_lt_Some in E).
  eexists. split; [done|]. rewrite list_insert_insert_eq.
  set (l2 := <[Z.to_nat (pr_pos p + 1) := 0]> l1).
  assert (Nx : Z.to_nat (pr_pos p + 1) = S (Z.to_nat (pr_pos p))) by lia.
  assert (L2 : zlen l2 = SIZE_CMD_ARG_LINE) by (unfold l2, l1; by rewrite !length_insert).
  assert (T : ztake (pr_pos p + 1) l2 = ztake (pr_pos p) l ++ [c]).
  { unfold l2. rewrite take_insert_ge by lia. rewrite Nx. rewrite (take_S_r l1 _ c).
    - unfold l1. by rewrite take_insert_ge by lia.
    - apply list_lookup_insert_eq. unfold SIZE_CMD_ARG_LINE in *. lia. }
  assert (Z2 : l2 !! Z.to_nat (pr_pos p + 1) = Some 0).
  { apply list_lookup_insert_eq. unfold l1. rewrite length_insert. unfold SIZE_CMD_ARG_LINE in *. lia. }
  rewrite <- T. apply (prompt_ok_line p _ l2 _ nl O).
  - split; [done|]. by eapply list_elem_of_lookup_2.
  - split_and!; [lia|lia| |done]. rewrite T. apply Forall_app. split; [done|by constructor].
Qed.

Lemma erase_char p text nl :
  prompt_ok p text -> 0 < pr_pos p ->
  exists ls, line_put (pr_ll p) (pr_pos p - 1) 0 (pr_lines p) = Some ls /\
    prompt_ok (mk_prompt (pr_ll p) (pr_cl p) ls (pr_pos p - 1) nl) (removelast text).
Proof.
  intros O Hp. pose proof O as [Ll Cl Le Fl (l & E & C & ->)]. pose proof C as (P & F & Z0).
  destruct (proj1 (Forall_lookup _ _) Fl _ _ E) as [Le' _].
  rewrite (line_put_ok _ _ _ _ l) by lia || done. eexists. split; [done|].
  set (l1 := <[Z.to_nat (pr_pos p - 1) := 0]> l).
  assert (T : ztake (pr_pos p - 1) l1 = removelast (ztake (pr_pos p) l)).
  { unfold l1. rewrite take_insert_ge by lia. rewrite removelast_firstn_len, firstn_firstn, length_take.
    f_equal. lia. }
  rewrite <- T. apply (prompt_ok_line p _ l1 _ nl O).
  - split; [unfold l1; by rewrite length_insert|]. eapply list_elem_of_lookup_2.
    apply list_lookup_insert_eq. lia.
  - split_and!; [lia|lia| |].
    + rewrite T. rewrite removelast_firstn_len. by apply Forall_take.
    + intros _. apply list_lookup_insert_eq. lia.
Qed.

(** ** The reference: the text of the line, and the flag of a carriage return *)

Definition edit_char (c : Z) (text : cstr) (newline : bool) : cstr * bool * option cstr :=
  if (c =? 13) || (c =? 10) then
    if (c =? 10) && newline then (text, false, None)
    else ([], c =? 13, if bool_decide (text = []) then None else Some text)
  else if c =? 9 then (text, newline, None)
  else if c =? 8 then (removelast text, false, None)
  else (if zlen text <? SIZE_CMD_ARG_LINE - 1 then text ++ [c] else text, false, None).

Lemma prompt_text_length p text : prompt_ok p text -> zlen text = pr_pos p /\ Forall (fun c => c <> 0) text.
Proof.
  intros [Ll Cl Le Fl (l & E & (P & F & _) & ->)]. destruct (proj1 (Forall_lookup _ _) Fl _ _ E) as [L _].
  split; [|done]. rewrite length_take. lia.
Qed.

Lemma prompt_ok_newline p text nl :
  prompt_ok p text -> prompt_ok (mk_prompt (pr_ll p) (pr_cl p) (pr_lines p) (pr_pos p) nl) text.
Proof. intros []. by constructor. Qed.

Lemma prompt_regular_ok c p text :
  prompt_ok p text -> c <> 0 ->
  let '(text', nl', line) := edit_char c text (pr_newline p) in
  exists p', prompt_regular c p = Some (p', line) /\ prompt_ok p' text' /\ pr_newline p' = nl'.
Proof.
  intros O N. pose proof (prompt_text_length _ _ O) as [Lt _].
  pose proof O as [Ll Cl Le Fl (l & E & C & T)]. unfold edit_char, prompt_regular.
  destruct ((c =? 13) || (c =? 10)) eqn:Cr.
  - destruct ((c =? 10) && pr_newline p) eqn:Lf.
    { eexists. split; [done|]. split; [by apply prompt_ok_newline|done]. }
    assert (Nl : (if c =? 13 then true else pr_newline p) = (c =? 13)).
    { destruct (Z.eqb_spec c 13); [done|]. cbn in Cr. rewrite Cr in Lf. by destruct (pr_newline p). }
    rewrite Nl. destruct (Z.eqb_spec (pr_pos p) 0) as [P0|P0]; cbn [negb].
    + rewrite bool_decide_true by (destruct text; [done|cbn in Lt; lia]).
      eexists. split; [done|]. split; [|done]. constructor; try done. exists l. by split_and!.
    + rewrite bool_decide_false by (intros ->; cbn in Lt; lia).
      destruct (proj1 (Forall_lookup _ _) Fl _ _ E) as [L _]. pose proof C as (P & _).
      rewrite (line_get_ok _ _ l), (cur_cstring _ _ L C), <- T by (done || lia). cbn [mbind option_bind].
      eexists. split; [done|]. split; [|done].
      assert (R : 0 <= (pr_ll p + 1) mod SIZE_HIST < SIZE_HIST) by (apply Z.mod_pos_bound; done).
      constructor; cbn; try done. destruct (lookup_line (pr_lines p) _ Le R) as (l' & El).
      exists l'. by split_and!.
  - destruct (Z.eqb_spec c 9); [by eexists|].
    destruct (Z.eqb_spec c 8) as [->|N8]; cbn [negb andb mbind option_bind].
    + destruct (Z.ltb_spec 0 (pr_pos p)) as [P|P]; cbn [mbind option_bind].
      * destruct (erase_char p text false O P) as (ls & -> & O'). cbn [mbind option_bind]. by eexists.
      * assert (text = []) as -> by (destruct text; [done|cbn in Lt; lia]).
        eexists. split; [done|]. split; [by apply prompt_ok_newline|done].
    + rewrite Lt. destruct (Z.ltb_spec (pr_pos p) (SIZE_CMD_ARG_LINE - 1)) as [P|P].
      * destruct (type_char p text c false O N P) as (ls & E1 & O').
        destruct (line_put (pr_ll p) (pr_pos p) c (pr_lines p)) as [ls1|]; [|done].
        cbn [mbind option_bind] in *. rewrite E1. cbn [mbind option_bind]. by eexists.
      * cbn [mbind option_bind]. eexists. split; [done|]. split; [by apply prompt_ok_newline|done].
Qed.

(** Copying a line of the history. *)
Lemma line_copy_ok p text from s cl :
  prompt_ok p text -> 0 <= from < SIZE_HIST -> line_get from (pr_lines p) = Some s ->
  0 <= cl < SIZE_HIST ->
  exists ls, line_copy (pr_ll p) from (pr_lines p) = Some ls /\ line_get (pr_ll p) ls = Some s /\
    forall nl, prompt_ok (mk_prompt (pr_ll p) cl ls (zlen s) nl) s.
Proof.
  intros O Fr G Rc. pose proof O as [Ll Cl Le Fl (l & E & C & T)]. unfold line_copy. rewrite G.
  cbn [mbind option_bind]. rewrite (proj2 (Z.leb_le 0 (pr_ll p))), E by lia. cbn [mbind option_bind].
  destruct (lookup_line (pr_lines p) from Le Fr) as (lf & Ef).
  rewrite (line_get_ok _ _ lf) in G by (done || lia). apply cstring_Some in G as (rest & -> & F).
  destruct (proj1 (Forall_lookup _ _) Fl _ _ Ef) as [Lf _].
  destruct (proj1 (Forall_lookup _ _) Fl _ _ E) as [L _].
  rewrite length_app in Lf. cbn [length] in Lf.
  assert (Ls : zlen (s ++ [0]) <= zlen l) by (rewrite length_app; cbn; lia).
  rewrite mstore_ok by lia. cbn [mbind option_bind]. set (l' := splice 0 (s ++ [0]) l).
  assert (El : l' = s ++ 0 :: drop (length (s ++ [0])) l)
    by (unfold l', splice; cbn; by rewrite <- app_assoc).
  assert (Ll' : zlen l' = SIZE_CMD_ARG_LINE) by (unfold l'; by rewrite length_splice by lia).
  assert (Tk : ztake (zlen s) l' = s) by (rewrite El, Nat2Z.id; apply take_app_length).
  eexists. split; [done|].
  assert (Eg : <[Z.to_nat (pr_ll p) := l']> (pr_lines p) !! Z.to_nat (pr_ll p) = Some l')
    by (apply list_lookup_insert_eq; by apply lookup_lt_Some in E).
  split.
  - rewrite (line_get_ok _ _ l') by (done || lia). rewrite El. by apply cstring_app.
  - intros nl. constructor; cbn; try done; [by rewrite length_insert| |].
    + apply Forall_insert; [done|]. split; [done|]. rewrite El. apply elem_of_app. right. by left.
    + exists l'. split; [done|]. split; [|by rewrite Tk]. split_and!; [lia|lia|by rewrite Tk|].
      intros _. rewrite Nat2Z.id, El. by apply list_lookup_middle.
Qed.

Lemma prompt_control_ok sc p text :
  prompt_ok p text -> exists p' text', prompt_control sc p = Some p' /\ prompt_ok p' text' /\ (sc = 0 -> p' = p).
Proof.
  intros O. pose proof O as [Ll Cl Le Fl (l & E & C & T)]. unfold prompt_control.
  assert (Same : exists p' text', Some (mk_prompt (pr_ll p) (pr_cl p) (pr_lines p) (pr_pos p) (pr_newline p)) = Some p' /\
    prompt_ok p' text' /\ (sc = 0 -> p' = p)) by (exists p, text; by destruct p).
  assert (Get : forall k, 0 <= k < SIZE_HIST -> exists lk s, pr_lines p !! Z.to_nat k = Some lk /\
    zlen lk = SIZE_CMD_ARG_LINE /\ line_get k (pr_lines p) = Some s).
  { intros k K. destruct (lookup_line (pr_lines p) k Le K) as (lk & Ek).
    destruct (proj1 (Forall_lookup _ _) Fl _ _ Ek) as [Lk I]. destruct (cstring_in lk I) as (s & rest & Es & _).
    exists lk, s. split_and!; try done. rewrite (line_get_ok _ _ lk) by (done || lia). done. }
  destruct (Z.eqb_spec sc 72) as [->|N72]; [|destruct (Z.eqb_spec sc 80) as [->|N80]].
  - set (ncl := (pr_cl p + SIZE_HIST - 1) mod SIZE_HIST).
    assert (R : 0 <= ncl < SIZE_HIST) by (apply Z.mod_pos_bound; done).
    destruct (Get ncl R) as (lk & s & Ek & Lk & G).
    rewrite (proj2 (Z.leb_le 0 ncl)), Ek by lia. cbn [mbind option_bind].
    rewrite load8_ok by (rewrite ?Lk; unfold SIZE_CMD_ARG_LINE; lia). cbn [mbind option_bind].
    destruct (_ && _); cbn [mbind option_bind]; [|exact Same].
    destruct (line_copy_ok p text ncl s ncl O R G R) as (ls & -> & Gl & O'). cbn [mbind option_bind].
    rewrite Gl. cbn [mbind option_bind]. rewrite hal_strlen_length. eexists _, s. split; [done|]. split; [|done].
    apply O'.
  - set (ncl := (pr_cl p + 1) mod SIZE_HIST).
    assert (R : 0 <= ncl < SIZE_HIST) by (apply Z.mod_pos_bound; done).
    destruct (negb (pr_cl p =? pr_ll p)); cbn [mbind option_bind]; [|exact Same].
    destruct (negb (ncl =? pr_ll p)).
    + destruct (Get ncl R) as (lk & s & Ek & Lk & G).
      destruct (line_copy_ok p text ncl s ncl O R G R) as (ls & -> & Gl & O'). cbn [mbind option_bind].
      rewrite Gl. cbn [mbind option_bind]. rewrite hal_strlen_length. eexists _, s. split; [done|]. split; [|done].
      apply O'.
    + destruct (proj1 (Forall_lookup _ _) Fl _ _ E) as [L _].
      rewrite (line_put_ok _ _ _ _ l) by (done || unfold SIZE_CMD_ARG_LINE in *; lia).
      cbn [mbind option_bind]. set (l' := <[Z.to_nat 0 := 0]> l).
      assert (L' : zlen l' = SIZE_CMD_ARG_LINE) by (unfold l'; by rewrite length_insert).
      assert (Z' : l' !! 0%nat = Some 0) by (apply list_lookup_insert_eq; unfold SIZE_CMD_ARG_LINE in L; lia).
      rewrite (line_get_ok _ _ l') by
        (lia || (apply list_lookup_insert_eq; by apply lookup_lt_Some in E)).
      clearbody l'. destruct l' as [|x tl]; [done|]. injection Z' as ->. cbn [cstring Z.eqb mbind option_bind hal_strlen].
      assert (O' := prompt_ok_line p text (0 :: tl) 0 (pr_newline p) O).
      eexists _, []. split; [done|]. split; [|done].
      destruct O' as [A1 A2 A3 A4 A5]; [split; [done|by left]|by split_and!|].
      by constructor.
  - exact Same.
Qed.

(** The lines a sequence of keys executes, the arrows apart. *)
Fixpoint edit_lines (text : cstr) (newline : bool) (input : list Z) : list cstr :=
  match input with
  | [] => []
  | c :: input =>
      let c := if c =? 127 then 8 else c in
      if c =? 0 then edit_lines text newline input
      else
        let '(text, newline, line) := edit_char c text newline in
        let ls := if c =? "#"%ch then [] else edit_lines text newline input in
        match line with Some l => l :: ls | None => ls end
  end.

Definition executed_ok (line : option cstr) : Prop :=
  match line with
  | Some l => l <> [] /\ zlen l < SIZE_CMD_ARG_LINE /\ Forall (fun c => c <> 0) l
  | None => True
  end.

Lemma edit_char_line c p text nl :
  prompt_ok p text -> executed_ok (edit_char c text nl).2.
Proof.
  intros O. destruct (prompt_text_length _ _ O) as [L F]. destruct O as [_ _ _ _ (l & _ & (P & _) & _)].
  unfold edit_char. destruct ((c =? 13) || (c =? 10)).
  - destruct (_ && _); [done|]. cbn. destruct (bool_decide_reflect (text = [])); [done|].
    split_and!; [done|lia|done].
  - destruct (c =? 9), (c =? 8); done.
Qed.

Lemma prompt_read_length x input : (length (prompt_read (x :: input)).2 <= length input)%nat.
Proof.
  unfold prompt_read, getc. cbn. destruct (x =? 127); [done|]. destruct (x =? 27); [|done].
  destruct (deref input =? 91); cbn; destruct input as [|y [|z input]]; cbn; lia.
Qed.

Lemma prompt_step_ok p text x input :
  prompt_ok p text ->
  exists c p' line rest text', prompt_step p (x :: input) = Some (c, p', line, rest) /\
    prompt_ok p' text' /\ executed_ok line /\ (length rest <= length input)%nat.
Proof.
  intros O. unfold prompt_step. pose proof (prompt_read_length x input) as L.
  destruct (prompt_read (x :: input)) as [[c sc] rest]. cbn [snd] in L.
  destruct (Z.eqb_spec c 0) as [->|N]; cbn [negb].
  - destruct (prompt_control_ok sc p text O) as (p' & text' & -> & O' & _). cbn [mbind option_bind].
    by exists 0, p', None, rest, text'.
  - pose proof (prompt_regular_ok c p text O N) as R.
    pose proof (edit_char_line c p text (pr_newline p) O) as El.
    destruct (edit_char c text (pr_newline p)) as [[text' nl'] line].
    destruct R as (p' & -> & O' & _). cbn [mbind option_bind]. by exists c, p', line, rest, text'.
Qed.

Lemma prompt_init_ok : prompt_ok prompt_init [].
Proof.
  constructor; try done.
  - apply Forall_replicate. split; [done|]. by left.
  - eexists. by split_and!.
Qed.

Lemma prompt_loop_ok fuel p text input :
  prompt_ok p text -> (length input <= fuel)%nat ->
  exists ls p' text', prompt_loop fuel p input = Some (ls, p') /\ prompt_ok p' text' /\
    Forall (fun l => executed_ok (Some l)) ls.
Proof.
  revert p text input. induction fuel as [|fuel IH]; intros p text input O L;
    (destruct input as [|x input]; [exists [], p, text; by split_and!|]); [cbn in L; lia|].
  destruct (prompt_step_ok p text x input O) as (c & p' & line & rest & text' & E & O' & X & Lr).
  change (prompt_loop (S fuel) p (x :: input)) with
    ('(c, p, line, input) ← prompt_step p (x :: input);
     '(ls, p) ← (if c =? "#"%ch then Some ([], p) else prompt_loop fuel p input);
     Some (match line with Some l => l :: ls | None => ls end, p)).
  rewrite E. cbn [mbind option_bind].
  assert (R : exists ls p2 text2, (if c =? "#"%ch then Some ([], p') else prompt_loop fuel p' rest) = Some (ls, p2) /\
    prompt_ok p2 text2 /\ Forall (fun l => executed_ok (Some l)) ls).
  { destruct (c =? "#"%ch); [by exists [], p', text'|]. apply (IH p' text' rest O'). cbn in L. lia. }
  destruct R as (ls & p2 & text2 & -> & O2 & F). cbn [mbind option_bind].
  destruct line as [l|]; [exists (l :: ls), p2, text2|by exists ls, p2, text2].
  split_and!; try done. by constructor.
Qed.

(** Whatever is typed, the prompt stays within its buffers: every access of the
    history is inside a line and every line stays terminated, and each line it
    executes is a string of one to 255 characters. *)
Lemma cmd_prompt_safe input :
  exists ls p text, cmd_prompt input = Some (ls, p) /\ prompt_ok p text /\
    Forall (fun l => l <> [] /\ zlen l < SIZE_CMD_ARG_LINE /\ Forall (fun c => c <> 0) l) ls.
Proof. apply (prompt_loop_ok (length input) prompt_init [] input); [apply prompt_init_ok|done]. Qed.

Lemma prompt_loop_edits fuel p text input :
  prompt_ok p text -> (length input <= fuel)%nat -> Forall (fun c => c <> 27) input ->
  exists p', prompt_loop fuel p input = Some (edit_lines text (pr_newline p) input, p').
Proof.
  revert p text input. induction fuel as [|fuel IH]; intros p text input O L F;
    (destruct input as [|x input]; [by eexists|]); [cbn in L; lia|]. apply Forall_cons in F as [Nx F].
  change (prompt_loop (S fuel) p (x :: input)) with
    ('(c, p, line, input) ← prompt_step p (x :: input);
     '(ls, p) ← (if c =? "#"%ch then Some ([], p) else prompt_loop fuel p input);
     Some (match line with Some l => l :: ls | None => ls end, p)).
  assert (Er : prompt_read (x :: input) = (if x =? 127 then 8 else x, 0, input)).
  { unfold prompt_read, getc. cbn. destruct (x =? 127); [done|]. by rewrite (proj2 (Z.eqb_neq x 27)). }
  unfold prompt_step. rewrite Er. cbn [edit_lines]. set (c := if x =? 127 then 8 else x). cbn in L.
  destruct (Z.eqb_spec c 0) as [E0|N]; cbn [negb].
  - destruct (prompt_control_ok 0 p text O) as (p1 & text1 & -> & _ & Same).
    rewrite (Same eq_refl). cbn [mbind option_bind].
    rewrite (proj2 (Z.eqb_neq c _)) by (rewrite E0; done).
    destruct (IH p text input O ltac:(lia) F) as (p2 & ->). cbn [mbind option_bind]. by eexists.
  - pose proof (prompt_regular_ok c p text O N) as R.
    destruct (edit_char c text (pr_newline p)) as [[text' nl'] line].
    destruct R as (p1 & -> & O1 & <-). cbn [mbind option_bind].
    destruct (c =? "#"%ch); cbn [mbind option_bind]; [by eexists|].
    destruct (IH p1 text' input O1 ltac:(lia) F) as (p2 & ->). cbn [mbind option_bind]. by eexists.
Qed.

(** C23. Without the arrow keys the prompt executes the lines as they were typed:
    characters append up to the size of the line, backspace and delete remove the
    last one, a carriage return, a line feed or both execute a line that is not
    empty, and a hash ends the prompt. *)
Theorem cmd_prompt_edits input :
  Forall (fun c => c <> 27) input ->
  exists p, cmd_prompt input = Some (edit_lines [] false input, p).
Proof. apply (prompt_loop_edits (length input) prompt_init [] input); [apply prompt_init_ok|done]. Qed.

Definition sample_keys : list Z := str "hela" ++ [127] ++ str "p" ++ [13; 10; 10] ++ str "go#".

Lemma cmd_prompt_edits_witness :
  exists p, cmd_prompt sample_keys = Some (edit_lines [] false sample_keys, p).
Proof. apply (cmd_prompt_edits sample_keys). repeat (constructor; [by vm_compute|]). constructor. Defined.

(** Up recalls the line before, which can be edited. *)
Lemma cmd_prompt_recalls :
  fst <$> cmd_prompt (str "map" ++ [13; 27; 91] ++ str "A" ++ str " x" ++ [13]) =
    Some [str "map"; str "map x"].
Proof. by vm_compute. Qed.
