(* ===== verification/Rtt.v ===== *)
(** * RTT pipes (src/devices/pipe-rtt/rtt.c, src/devices/pipe-rtt/device.c)

    Byte pipes in memory shared with a debug probe: each is a ring of which one
    side owns the write index and the other the read index.  [rtt_state] is the
    descriptor the probe sees, with the memory of the four buffers; the operations
    of the driver are functions on it.  The last sections let the two sides of a
    pipe run at the same time: [ring_step] interleaves the statements of the
    producer and of the consumer, whose indices the other side reads once.

    The probe is the other side: it appears as the changes it makes between two
    calls, and as the other actor of [ring_step]. *)

From S2P Require Import Prelude Mem CString Devs.

Definition ETIME := 37.

Definition RTT_TXCHANNELS := 2.
Definition RTT_RXCHANNELS := 2.

(** [char rtt_tagBackward[]], without its NUL. *)
Definition rtt_tagBackward : cstr := str "EPIP TTR".

(** A pointer is the index of the buffer of [rttBuffers], or NULL. *)
Record rtt_pipe := mk_pipe {
  rp_name : option cstr;
  rp_ptr : option nat;
  rp_sz : Z;
  rp_wr : Z;
  rp_rd : Z;
  rp_flags : Z
}.

Record rtt_desc := mk_desc {
  rd_tag : list Z;
  rd_txChannels : Z;
  rd_rxChannels : Z;
  rd_txChannel : list rtt_pipe;
  rd_rxChannel : list rtt_pipe
}.

(** The static state: the pointer [rtt], the memory of the buffers, and whether
    the hooks of the console and of hal are the functions of this file. *)
Record rtt_state := mk_rtt {
  rt_desc : option rtt_desc;
  rttBuffers : list (list Z);
  rt_libHooks : bool;
  rt_halHook : bool
}.

(** What [memset(rtt, 0, sizeof(rtt))] leaves. *)
Definition rtt_pipe0 : rtt_pipe := mk_pipe None None 0 0 0 0.
Definition rtt_desc0 : rtt_desc :=
  mk_desc (replicate 16 0) 0 0 (replicate (Z.to_nat RTT_TXCHANNELS) rtt_pipe0)
    (replicate (Z.to_nat RTT_RXCHANNELS) rtt_pipe0).

(** The sizes [RTT_BUFSZ_*] of the platform's peripherals.h. *)
Class RttConfig := {
  RTT_BUFSZ_CONSOLE_TX : Z;
  RTT_BUFSZ_CONSOLE_RX : Z;
  RTT_BUFSZ_PHOENIXD_TX : Z;
  RTT_BUFSZ_PHOENIXD_RX : Z
}.

(** [rttBuffers.consoleTx] and the others, by their place in [rttBuffers]. *)
Definition consoleTx : nat := 0.
Definition consoleRx : nat := 1.
Definition phoenixdTx : nat := 2.
Definition phoenixdRx : nat := 3.

Definition rtt_check (st : rtt_state) (chan : Z) : Z :=
  match rt_desc st with
  | None => - ENODEV
  | Some _ => if (chan <? 0) || (RTT_TXCHANNELS <=? chan) then - ENODEV else 0
  end.

(** [i = (i + 1) % sz] *)
Definition ring_next (sz i : Z) : Z := w32 (i + 1) mod sz.

(** [(rd + sz - 1) % sz] *)
Definition ring_prev (sz i : Z) : Z := w32 (i + sz - 1) mod sz.

(** The loop of [rtt_read]: the bytes stored to [dstBuf], [rd] and [todo]. *)
Fixpoint read_loop (srcBuf : list Z) (sz : Z) (todo : nat) (rd wr : Z) : option (list Z * Z * nat) :=
  match todo with
  | O => Some ([], rd, O)
  | S n =>
      if rd =? wr then Some ([], rd, S n)
      else
        c ← srcBuf !! Z.to_nat rd;
        '(out, rd, todo) ← read_loop srcBuf sz n (ring_next sz rd) wr;
        Some (c :: out, rd, todo)
  end.

(** The loop of [rtt_write]: the buffer, [wr] and the bytes of [srcBuf] left. *)
Fixpoint write_loop (dstBuf : list Z) (sz : Z) (srcBuf : list Z) (rd wr : Z)
    : option (list Z * Z * list Z) :=
  match srcBuf with
  | [] => Some (dstBuf, wr, [])
  | c :: src =>
      if rd =? wr then Some (dstBuf, wr, srcBuf)
      else
        _ ← dstBuf !! Z.to_nat wr;
        write_loop (<[Z.to_nat wr := c]> dstBuf) sz src rd (ring_next sz wr)
  end.

Definition set_rd (p : rtt_pipe) (rd : Z) : rtt_pipe :=
  mk_pipe (rp_name p) (rp_ptr p) (rp_sz p) (rp_wr p) rd (rp_flags p).
Definition set_wr (p : rtt_pipe) (wr : Z) : rtt_pipe :=
  mk_pipe (rp_name p) (rp_ptr p) (rp_sz p) wr (rp_rd p) (rp_flags p).

Definition set_tx (d : rtt_desc) (chan : Z) (p : rtt_pipe) : rtt_desc :=
  mk_desc (rd_tag d) (rd_txChannels d) (rd_rxChannels d)
    (<[Z.to_nat chan := p]> (rd_txChannel d)) (rd_rxChannel d).
Definition set_rx (d : rtt_desc) (chan : Z) (p : rtt_pipe) : rtt_desc :=
  mk_desc (rd_tag d) (rd_txChannels d) (rd_rxChannels d)
    (rd_txChannel d) (<[Z.to_nat chan := p]> (rd_rxChannel d)).

Definition set_desc (st : rtt_state) (d : rtt_desc) : rtt_state :=
  mk_rtt (Some d) (rttBuffers st) (rt_libHooks st) (rt_halHook st).

Section rtt.
  Context `{Target}.

(** The result, the bytes stored to [buf] and the state; [None] when the code
    reads or writes outside of a buffer or divides by zero. *)
Definition rtt_read (st : rtt_state) (chan count : Z) : option (Z * list Z * rtt_state) :=
  if rtt_check st chan <? 0 then Some (- ENODEV, [], st)
  else
    d ← rt_desc st;
    p ← rd_rxChannel d !! Z.to_nat chan;
    i ← rp_ptr p;
    srcBuf ← rttBuffers st !! i;
    if rp_sz p =? 0 then None
    else
      '(out, rd, todo) ← read_loop srcBuf (rp_sz p) (Z.to_nat count) (rp_rd p) (rp_wr p);
      Some (sa (count - Z.of_nat todo), out, set_desc st (set_rx d chan (set_rd p rd))).

Definition rtt_write (st : rtt_state) (chan : Z) (buf : list Z) : option (Z * rtt_state) :=
  if rtt_check st chan <? 0 then Some (- ENODEV, st)
  else
    d ← rt_desc st;
    p ← rd_txChannel d !! Z.to_nat chan;
    i ← rp_ptr p;
    dstBuf ← rttBuffers st !! i;
    if rp_sz p =? 0 then None
    else
      let rd := ring_prev (rp_sz p) (rp_rd p) in
      '(dst, wr, rest) ← write_loop dstBuf (rp_sz p) buf rd (rp_wr p);
      let st := mk_rtt (rt_desc st) (<[i := dst]> (rttBuffers st)) (rt_libHooks st) (rt_halHook st) in
      Some (sa (zlen buf - zlen rest), set_desc st (set_tx d chan (set_wr p wr))).

(** ** Waiting

    [timer k] is what the [k]-th call of [hal_timerGet] returns, [probe k] the
    changes the probe makes to the shared memory before that call. *)

Section wait.
  Context (timer : nat -> Z) (probe : nat -> rtt_state -> rtt_state).

(** The loop of [rtt_writeBlocking] from its [k]-th reading of the timer on. *)
Fixpoint writeBlocking_loop (fuel : nat) (k : nat) (start : Z) (st : rtt_state) (chan : Z) (ptr : list Z)
    : option (Z * rtt_state) :=
  match fuel with
  | O => None
  | S fuel =>
      if zlen ptr <=? 0 then Some (0, st)
      else
        let st := probe k st in
        if 100 <=? s64 (timer k - start) then
          d ← rt_desc st;
          p ← rd_txChannel d !! Z.to_nat chan;
          Some (- ETIME, set_desc st (set_tx d chan (set_wr p (rp_rd p))))
        else
          '(len, st) ← rtt_write st chan ptr;
          if len <? 0 then Some (len, st)
          else writeBlocking_loop fuel (S k) start st chan (zdrop len ptr)
  end.

Definition rtt_writeBlocking (fuel : nat) (st : rtt_state) (chan : Z) (buf : list Z)
    : option (Z * rtt_state) :=
  let st := probe 0%nat st in
  writeBlocking_loop fuel 1 (timer 0%nat) st chan buf.

(** The loop of [pipe_read] from its [k]-th reading of the timer on. *)
Fixpoint pipe_read_loop (fuel : nat) (k : nat) (start : Z) (st : rtt_state) (minor len timeout : Z)
    : option (Z * list Z * rtt_state) :=
  match fuel with
  | O => None
  | S fuel =>
      '(ret, out, st) ← rtt_read st (s32 (minor + 1)) len;
      if negb (ret =? 0) then Some (ret, out, st)
      else
        let st := probe k st in
        if timeout <=? s64 (timer k - start) then Some (- ETIME, [], st)
        else pipe_read_loop fuel (S k) start st minor len timeout
  end.

Definition pipe_read (fuel : nat) (st : rtt_state) (minor offs len timeout : Z)
    : option (Z * list Z * rtt_state) :=
  let st := probe 0%nat st in
  pipe_read_loop fuel 1 (timer 0%nat) st minor len timeout.

End wait.

Definition pipe_write (st : rtt_state) (minor offs : Z) (buff : list Z) : option (Z * rtt_state) :=
  rtt_write st (s32 (minor + 1)) buff.

Definition pipe_done (st : rtt_state) (minor : Z) : Z := rtt_check st (s32 (minor + 1)).

Definition pipe_sync (st : rtt_state) (minor : Z) : Z := rtt_check st (s32 (minor + 1)).

Definition pipe_map (st : rtt_state) (minor mode memmode : Z) : Z :=
  if rtt_check st (s32 (minor + 1)) <? 0 then - ENODEV
  else if negb (Z.land mode memmode =? mode) then - EINVAL
  else dev_isNotMappable.

Definition pipe_init (st : rtt_state) (minor : Z) : Z := rtt_check st (s32 (minor + 1)).

End rtt.

(** ** Set-up *)

Section init.
  Context `{RttConfig}.

(** The tag loop of [rtt_init]: [n] bytes are written, [m] are left. *)
Fixpoint tag_loop (tag : list Z) (n m : nat) : list Z :=
  match m with
  | O => tag
  | S m => if (n <? length tag)%nat then tag_loop (<[n := at_ rtt_tagBackward m]> tag) (S n) m else tag
  end.

(** [channelDefs.tx] and [channelDefs.rx]: buffer, size and name *)
Definition channelDefs_tx : list (nat * Z * cstr) :=
  [(consoleTx, RTT_BUFSZ_CONSOLE_TX, str "Console TX");
   (phoenixdTx, RTT_BUFSZ_PHOENIXD_TX, str "phoenixd TX")].
Definition channelDefs_rx : list (nat * Z * cstr) :=
  [(consoleRx, RTT_BUFSZ_CONSOLE_RX, str "Console RX");
   (phoenixdRx, RTT_BUFSZ_PHOENIXD_RX, str "phoenixd RX")].

(** The loops of [rtt_init] that fill the channels. *)
Definition init_channel (p : rtt_pipe) (def : nat * Z * cstr) : rtt_pipe :=
  let '(buf, bufsz, name) := def in
  mk_pipe (Some name) (Some buf) bufsz 0 0 (rp_flags p).

Definition rtt_init (st : rtt_state) : rtt_state :=
  match rt_desc st with
  | Some _ => st
  | None =>
      let d := rtt_desc0 in
      let tx := zip_with init_channel (rd_txChannel d) channelDefs_tx in
      let rx := zip_with init_channel (rd_rxChannel d) channelDefs_rx in
      let tag := tag_loop (rd_tag d) 0 (length rtt_tagBackward) in
      mk_rtt (Some (mk_desc tag RTT_TXCHANNELS RTT_RXCHANNELS tx rx)) (rttBuffers st) true true
  end.

End init.

(** The descriptor is cleared before the driver forgets where it is; hal keeps
    its hook. *)
Definition rtt_done (st : rtt_state) : rtt_state :=
  match rt_desc st with
  | Some _ => mk_rtt None (rttBuffers st) false (rt_halHook st)
  | None => st
  end.

(** ** Two sides at the same time

    A configuration of one pipe: the shared memory and indices; the locals of a
    producer inside [rtt_write] ([rd], [wr] and the bytes of [srcBuf] left) and of
    a consumer inside [rtt_read] ([rd], [wr] and [todo]); and two histories, the
    bytes stored to the ring and the bytes taken from it. *)

Record ring_conf := mk_ring {
  rg_buf : list Z;
  rg_wr : Z;
  rg_rd : Z;
  rg_prod : option (Z * Z * list Z);
  rg_cons : option (Z * Z * nat);
  rg_in : list Z;
  rg_out : list Z
}.

Section ring.
  Context (sz : Z).

(** One statement of the producer. *)
Inductive write_step : ring_conf -> ring_conf -> Prop :=
| write_start buf wr rd k i o src :
    write_step (mk_ring buf wr rd None k i o)
      (mk_ring buf wr rd (Some (ring_prev sz rd, wr, src)) k i o)
| write_byte buf wr rd k i o rd' wr' c src :
    rd' <> wr' ->
    write_step (mk_ring buf wr rd (Some (rd', wr', c :: src)) k i o)
      (mk_ring (<[Z.to_nat wr' := c]> buf) wr rd (Some (rd', ring_next sz wr', src)) k (i ++ [c]) o)
| write_end buf wr rd k i o rd' wr' src :
    src = [] \/ rd' = wr' ->
    write_step (mk_ring buf wr rd (Some (rd', wr', src)) k i o) (mk_ring buf wr' rd None k i o).

(** One statement of the consumer. *)
Inductive read_step : ring_conf -> ring_conf -> Prop :=
| read_start buf wr rd p i o todo :
    read_step (mk_ring buf wr rd p None i o) (mk_ring buf wr rd p (Some (rd, wr, todo)) i o)
| read_byte buf wr rd p i o rd' wr' todo c :
    rd' <> wr' -> buf !! Z.to_nat rd' = Some c ->
    read_step (mk_ring buf wr rd p (Some (rd', wr', S todo)) i o)
      (mk_ring buf wr rd p (Some (ring_next sz rd', wr', todo)) i (o ++ [c]))
| read_end buf wr rd p i o rd' wr' todo :
    todo = O \/ rd' = wr' ->
    read_step (mk_ring buf wr rd p (Some (rd', wr', todo)) i o) (mk_ring buf wr rd' p None i o).

Definition ring_step (c c' : ring_conf) : Prop := write_step c c' \/ read_step c c'.

(** The pipe as [rtt_init] leaves it. *)
Definition ring_init (buf : list Z) : ring_conf := mk_ring buf 0 0 None None [] [].

(** [Cp] bytes have been released by the consumer and [Pp] published by the
    producer; a snapshot of the other side's index is an older value of it. *)
Definition prod_inv (c : ring_conf) (Pp Cp : Z) : Prop :=
  match rg_prod c with
  | None => zlen (rg_in c) = Pp
  | Some (rd, wr, _) =>
      wr = zlen (rg_in c) mod sz /\
      exists Cs, 0 <= Cs <= Cp /\ rd = (Cs + sz - 1) mod sz /\ zlen (rg_in c) - Cs < sz
  end.

Definition cons_inv (c : ring_conf) (Pp Cp : Z) : Prop :=
  match rg_cons c with
  | None => zlen (rg_out c) = Cp
  | Some (rd, wr, _) =>
      rd = zlen (rg_out c) mod sz /\ exists Ps, zlen (rg_out c) <= Ps <= Pp /\ wr = Ps mod sz
  end.

Definition counters (c : ring_conf) (Pp Cp : Z) : Prop :=
  0 <= Cp <= zlen (rg_out c) /\ zlen (rg_out c) <= Pp <= zlen (rg_in c) /\
  zlen (rg_in c) - Cp < sz /\ rg_wr c = Pp mod sz /\ rg_rd c = Cp mod sz /\
  (forall i, Cp <= i < zlen (rg_in c) -> rg_buf c !! Z.to_nat (i mod sz) = rg_in c !! Z.to_nat i).

Definition ring_inv (c : ring_conf) : Prop :=
  0 < sz < 2 ^ 31 /\ zlen (rg_buf c) = sz /\ rg_out c `prefix_of` rg_in c /\
  exists Pp Cp, counters c Pp Cp /\ prod_inv c Pp Cp /\ cons_inv c Pp Cp.

Lemma ring_next_mod x : 0 < sz < 2 ^ 31 -> ring_next sz (x mod sz) = (x + 1) mod sz.
Proof.
  intros R. pose proof (Z.mod_pos_bound x sz). unfold ring_next.
  rewrite w32_small by lia. apply Z.add_mod_idemp_l. lia.
Qed.

Lemma ring_prev_mod x : 0 < sz < 2 ^ 31 -> ring_prev sz (x mod sz) = (x + sz - 1) mod sz.
Proof.
  intros R. pose proof (Z.mod_pos_bound x sz). unfold ring_prev.
  rewrite w32_small by lia. replace (x mod sz + sz - 1) with (x mod sz + (sz - 1)) by lia.
  rewrite Z.add_mod_idemp_l by lia. f_equal. lia.
Qed.

(** Positions less than a turn apart are different slots. *)
Lemma slot_ne x y : 0 < sz -> x < y < x + sz -> x mod sz <> y mod sz.
Proof.
  intros ? ? E. assert (D : (y - x) mod sz = 0) by (rewrite Zminus_mod, E, Z.sub_diag; apply Z.mod_0_l; lia).
  rewrite Z.mod_small in D by lia. lia.
Qed.

Lemma ring_inv_init buf : 0 < sz < 2 ^ 31 -> zlen buf = sz -> ring_inv (ring_init buf).
Proof.
  intros R L. split; [done|]. split; [done|]. split; [done|]. exists 0, 0.
  unfold counters, prod_inv, cons_inv; cbn. rewrite Z.mod_0_l by lia.
  split_and!; try lia; done.
Qed.

Lemma write_step_inv c c' : write_step c c' -> ring_inv c -> ring_inv c'.
Proof.
  intros T (R & L & Pr & Pp & Cp & Co & P & K). unfold counters, prod_inv, cons_inv in *.
  destruct T as [buf wr rd k i o src|buf wr rd k i o rd' wr' c src N|buf wr rd k i o rd' wr' src D];
    cbn in *; destruct Co as (C1 & C2 & C3 & Ew & Er & Co).
  - split; [done|]. split; [done|]. split; [done|]. exists Pp, Cp. unfold counters, prod_inv, cons_inv; cbn.
    split_and!; try done; try lia; [by rewrite P, Ew|].
    exists Cp. split_and!; try lia. rewrite Er. by apply ring_prev_mod.
  - destruct P as (-> & Cs & Cb & -> & Cl).
    assert (zlen i - Cs < sz - 1) by (destruct (Z.eq_dec (zlen i) (Cs + sz - 1)) as [E|]; [by rewrite E in N|lia]).
    pose proof (Z.mod_pos_bound (zlen i) sz ltac:(lia)) as B.
    split; [done|]. split; [cbn; by rewrite length_insert|]. split; [by apply prefix_app_r|].
    exists Pp, Cp. unfold counters, prod_inv, cons_inv; cbn.
    assert (El : zlen (i ++ [c]) = zlen i + 1) by (rewrite length_app; cbn [length]; lia).
    rewrite El. split; [split_and!; try done; try lia|].
    + intros j J. destruct (Z.eq_dec j (zlen i)) as [->|].
      * rewrite list_lookup_insert_eq by lia. rewrite Nat2Z.id. by rewrite list_lookup_middle.
      * pose proof (slot_ne j (zlen i) ltac:(lia) ltac:(lia)).
        pose proof (Z.mod_pos_bound j sz ltac:(lia)).
        rewrite list_lookup_insert_ne by lia. rewrite Co by lia.
        by rewrite lookup_app_l by lia.
    + split; [|done]. split; [by apply ring_next_mod|]. exists Cs. split_and!; [lia..|done|lia].
  - destruct P as (-> & Cs & Cb & -> & Cl).
    split; [done|]. split; [done|]. split; [done|]. exists (zlen i), Cp. unfold counters, prod_inv, cons_inv; cbn.
    split_and!; try done; try lia. destruct k as [[[? ?] ?]|]; [|done].
    destruct K as (-> & Ps & ? & ->). split; [done|]. exists Ps. split; [lia|done].
Qed.

Lemma read_step_inv c c' : read_step c c' -> ring_inv c -> ring_inv c'.
Proof.
  intros T (R & L & Pr & Pp & Cp & Co & P & K). unfold counters, prod_inv, cons_inv in *.
  destruct T as [buf wr rd p i o todo|buf wr rd p i o rd' wr' todo c N E|buf wr rd p i o rd' wr' todo D];
    cbn in *; destruct Co as (C1 & C2 & C3 & Ew & Er & Co).
  - split; [done|]. split; [done|]. split; [done|]. exists Pp, Cp. unfold counters, prod_inv, cons_inv; cbn.
    split_and!; try done; try lia; [by rewrite K, Er|]. exists Pp. split; [lia|done].
  - destruct K as (-> & Ps & Pb & ->).
    assert (zlen o < Ps) by (destruct (Z.eq_dec (zlen o) Ps) as [e|]; [by rewrite e in N|lia]).
    rewrite Co in E by lia. destruct Pr as [l ->].
    rewrite Nat2Z.id, lookup_app_r, Nat.sub_diag in E by lia. destruct l as [|c' l]; [done|].
    injection E as ->.
    split; [done|]. split; [done|]. split; [exists l; cbn; by rewrite <- app_assoc|].
    assert (El : zlen (o ++ [c]) = zlen o + 1) by (rewrite length_app; cbn [length]; lia).
    exists Pp, Cp. unfold counters, prod_inv, cons_inv; cbn. rewrite El.
    split_and!; try done; try lia; [by apply ring_next_mod|]. exists Ps. split; [lia|done].
  - destruct K as (-> & Ps & Pb & ->).
    split; [done|]. split; [done|]. split; [done|]. exists Pp, (zlen o). unfold counters, prod_inv, cons_inv; cbn.
    split_and!; try done; try lia; [intros; apply Co; lia|].
    destruct p as [[[? ?] ?]|]; [|done].
    destruct P as (-> & Cs & ? & -> & ?). split; [done|]. exists Cs. split_and!; [lia..|done|lia].
Qed.

Lemma ring_steps_inv c c' : rtc ring_step c c' -> ring_inv c -> ring_inv c'.
Proof.
  induction 1 as [|c d e T _ IH]; [done|]. intros I. apply IH.
  destruct T; eauto using write_step_inv, read_step_inv.
Qed.

Lemma dist_pos a b : 0 <= a < sz -> 0 <= b < sz -> a <> b -> 0 < (a - b) mod sz.
Proof.
  intros A B N. pose proof (Z.mod_pos_bound (a - b) sz ltac:(lia)).
  assert ((a - b) mod sz <> 0); [|lia]. intros E.
  apply Z.mod_divide in E; [|lia]. destruct E as [q E]. assert (q = 0) by nia. lia.
Qed.

(** One turn of the loops brings the moving index one slot closer. *)
Lemma dist_next a b :
  0 < sz < 2 ^ 31 -> 0 <= a < sz -> 0 <= b < sz -> a <> b ->
  (a - ring_next sz b) mod sz = (a - b) mod sz - 1.
Proof.
  intros R A B N. rewrite <- (Z.mod_small b sz) at 1 by done. rewrite ring_next_mod by done.
  rewrite Zminus_mod_idemp_r. replace (a - (b + 1)) with ((a - b) - 1) by lia.
  rewrite <- (Zminus_mod_idemp_l (a - b)), (Z.mod_small (_ - 1)); [done|].
  pose proof (Z.mod_pos_bound (a - b) sz ltac:(lia)). pose proof (dist_pos a b A B N). lia.
Qed.

Lemma ring_next_range i : 0 < sz -> 0 <= ring_next sz i < sz.
Proof. intros. unfold ring_next. apply Z.mod_pos_bound. lia. Qed.

(** Slots the consumer and the producer may still use. *)
Definition ring_used (c : ring_conf) : Z := (rg_wr c - rg_rd c) mod sz.
Definition ring_free (c : ring_conf) : Z := sz - 1 - ring_used c.

Lemma ring_free_dist wr rd :
  0 < sz < 2 ^ 31 -> 0 <= rd < sz -> 0 <= wr < sz ->
  (ring_prev sz rd - wr) mod sz = sz - 1 - (wr - rd) mod sz.
Proof.
  intros R A B. rewrite <- (Z.mod_small rd sz) at 1 by done. rewrite ring_prev_mod by done.
  rewrite Zminus_mod_idemp_l. pose proof (Z.mod_pos_bound (wr - rd) sz ltac:(lia)).
  pose proof (Z.div_mod (wr - rd) sz ltac:(lia)) as D.
  symmetry. apply (Z.mod_unique_pos _ _ (- ((wr - rd) / sz))); lia.
Qed.

(** The loop of [rtt_write] is a run of the producer. *)
Lemma write_loop_run src buf W R K i o rd wr :
  0 < sz < 2 ^ 31 -> zlen buf = sz -> 0 <= rd < sz -> 0 <= wr < sz ->
  let k := Z.to_nat (Z.min (zlen src) ((rd - wr) mod sz)) in
  exists buf' wr', write_loop buf sz src rd wr = Some (buf', wr', drop k src) /\
    rtc write_step (mk_ring buf W R (Some (rd, wr, src)) K i o)
      (mk_ring buf' W R (Some (rd, wr', drop k src)) K (i ++ take k src) o) /\
    (drop k src = [] \/ rd = wr').
Proof.
  intros S. revert buf i wr. induction src as [|c src IH]; intros buf i wr L A B k; cbn [write_loop].
  - exists buf, wr. unfold k. rewrite drop_nil, take_nil, app_nil_r. split_and!; [done|done|by left].
  - destruct (Z.eqb_spec rd wr) as [->|N].
    + assert (k = O) as -> by (unfold k; rewrite Z.sub_diag, Z.mod_0_l by lia; cbn; lia).
      exists buf, wr. rewrite app_nil_r. split_and!; [done|done|by right].
    + destruct (lookup_lt_is_Some_2 buf (Z.to_nat wr) ltac:(lia)) as [x ->]. cbn [mbind option_bind].
      destruct (IH (<[Z.to_nat wr := c]> buf) (i ++ [c]) (ring_next sz wr)) as (buf' & wr' & E & T & D);
        [by rewrite length_insert|done|apply ring_next_range; lia|].
      rewrite dist_next in E, T, D by done.
      pose proof (Z.mod_pos_bound (rd - wr) sz ltac:(lia)).
      assert (0 < (rd - wr) mod sz) by (apply dist_pos; done).
      assert (k = Datatypes.S (Z.to_nat (Z.min (zlen src) ((rd - wr) mod sz - 1)))) as ->
        by (unfold k; cbn [length]; lia).
      exists buf', wr'. cbn [drop take]. split_and!; [done| |done].
      eapply rtc_l; [by apply write_byte|]. by rewrite <- app_assoc in T.
Qed.

(** The loop of [rtt_read] is a run of the consumer, as long as it reads slots. *)
Lemma read_loop_run todo buf W R P i o rd wr :
  0 < sz < 2 ^ 31 -> zlen buf = sz -> 0 <= rd < sz -> 0 <= wr < sz ->
  let k := Z.to_nat (Z.min (Z.of_nat todo) ((wr - rd) mod sz)) in
  exists out rd', read_loop buf sz todo rd wr = Some (out, rd', (todo - k)%nat) /\ length out = k /\
    rtc read_step (mk_ring buf W R P (Some (rd, wr, todo)) i o)
      (mk_ring buf W R P (Some (rd', wr, (todo - k)%nat)) i (o ++ out)) /\
    ((todo - k)%nat = O \/ rd' = wr).
Proof.
  intros S L. revert o rd. induction todo as [|n IH]; intros o rd A B k; cbn [read_loop].
  - exists [], rd. assert (k = O) as -> by (unfold k; lia). rewrite app_nil_r.
    split_and!; [done|done|done|by left].
  - destruct (Z.eqb_spec rd wr) as [->|N].
    + assert (k = O) as -> by (unfold k; rewrite Z.sub_diag, Z.mod_0_l by lia; cbn; lia).
      exists [], wr. rewrite app_nil_r. split_and!; [done|done|done|by right].
    + destruct (lookup_lt_is_Some_2 buf (Z.to_nat rd) ltac:(lia)) as [c Ec]. rewrite Ec. cbn [mbind option_bind].
      destruct (IH (o ++ [c]) (ring_next sz rd)) as (out & rd' & E & El & T & D);
        [apply ring_next_range; lia|done|].
      rewrite dist_next in E, El, T, D by done.
      pose proof (Z.mod_pos_bound (wr - rd) sz ltac:(lia)).
      assert (0 < (wr - rd) mod sz) by (apply dist_pos; done).
      assert (k = Datatypes.S (Z.to_nat (Z.min (Z.of_nat n) ((wr - rd) mod sz - 1)))) as Ek
        by (unfold k; lia).
      rewrite Ek. exists (c :: out), rd'. rewrite E. cbn [mbind option_bind Nat.sub length].
      split_and!; [done|by rewrite El| |done].
      eapply rtc_l; [by apply read_byte|]. by rewrite <- app_assoc in T.
Qed.

(** ** The driver's calls as runs *)

(** The pipe [chan] among [sel] of the descriptor, at the configuration [c]. *)
Definition pipe_ring (sel : rtt_desc -> list rtt_pipe) (st : rtt_state) (chan : Z) (c : ring_conf) : Prop :=
  exists d p i, rt_desc st = Some d /\ 0 <= chan < RTT_TXCHANNELS /\ sel d !! Z.to_nat chan = Some p /\
    rp_ptr p = Some i /\ rttBuffers st !! i = Some (rg_buf c) /\ rp_sz p = sz /\
    rp_wr p = rg_wr c /\ rp_rd p = rg_rd c.

Definition tx_ring := pipe_ring rd_txChannel.
Definition rx_ring := pipe_ring rd_rxChannel.

Context `{Target}.

Lemma pipe_ring_check sel st chan c :
  pipe_ring sel st chan c -> rtt_check st chan = 0.
Proof.
  intros (d & p & i & E & B & _). unfold rtt_check. rewrite E. unfold RTT_TXCHANNELS in *.
  destruct (Z.ltb_spec chan 0); [lia|]. by destruct (Z.leb_spec 2 chan); [lia|].
Qed.

Lemma ring_inv_range c :
  ring_inv c -> 0 < sz < 2 ^ 31 /\ zlen (rg_buf c) = sz /\ 0 <= rg_rd c < sz /\ 0 <= rg_wr c < sz.
Proof.
  intros (R & L & _ & Pp & Cp & (_ & _ & _ & -> & -> & _) & _).
  split; [done|]. split; [done|]. split; apply Z.mod_pos_bound; lia.
Qed.

Lemma rtt_write_run st chan c buf :
  tx_ring st chan c -> ring_inv c -> rg_prod c = None -> zlen buf < 2 ^ (addr_bits - 1) ->
  let k := Z.min (zlen buf) (ring_free c) in
  exists st' c', rtt_write st chan buf = Some (k, st') /\ tx_ring st' chan c' /\ rtc write_step c c' /\
    rg_prod c' = None /\ rg_in c' = rg_in c ++ ztake k buf.
Proof.
  intros P I Id Lb k. pose proof (ring_inv_range _ I) as (S & L & Br & Bw).
  unfold rtt_write. rewrite (pipe_ring_check _ _ _ _ P). cbn [Z.ltb Z.compare].
  destruct P as (d & p & i & Ed & B & Ep & Ei & Eb & Es & Ew & Er).
  rewrite Ed. cbn [mbind option_bind]. rewrite Ep. cbn [mbind option_bind].
  rewrite Ei. cbn [mbind option_bind]. rewrite Eb. cbn [mbind option_bind].
  rewrite Es, Er, Ew. destruct (Z.eqb_spec sz 0); [lia|].
  destruct (write_loop_run buf (rg_buf c) (rg_wr c) (rg_rd c) (rg_cons c) (rg_in c) (rg_out c)
    (ring_prev sz (rg_rd c)) (rg_wr c)) as (buf' & wr' & E & T & D); try done.
  { unfold ring_prev. apply Z.mod_pos_bound. lia. }
  rewrite ring_free_dist in E, T, D by done.
  fold (ring_used c) in E, T, D. fold (ring_free c) in E, T, D. fold k in E, T, D. rewrite E.
  cbn [mbind option_bind].
  assert (0 <= ring_free c < sz).
  { unfold ring_free, ring_used. pose proof (Z.mod_pos_bound (rg_wr c - rg_rd c) sz). lia. }
  exists (set_desc (mk_rtt (rt_desc st) (<[i := buf']> (rttBuffers st)) (rt_libHooks st) (rt_halHook st))
    (set_tx d chan (set_wr p wr'))),
    (mk_ring buf' wr' (rg_rd c) None (rg_cons c) (rg_in c ++ ztake k buf) (rg_out c)).
  split; [|split; [|split; [destruct c; cbn in *; subst|done]]].
  - rewrite length_drop, sa_small by lia. f_equal. apply pair_equal_spec. split; [lia|done].
  - exists (set_tx d chan (set_wr p wr')), (set_wr p wr'), i. cbn.
    rewrite !list_lookup_insert_eq by (by eapply lookup_lt_Some). split_and!; (done || apply B).
  - eapply rtc_l; [apply write_start|]. eapply rtc_r; [exact T|]. by apply write_end.
Qed.

Lemma rtt_read_run st chan c count :
  rx_ring st chan c -> ring_inv c -> rg_cons c = None -> 0 <= count < 2 ^ (addr_bits - 1) ->
  let k := Z.min count (ring_used c) in
  exists st' c' out, rtt_read st chan count = Some (k, out, st') /\ rx_ring st' chan c' /\
    rtc read_step c c' /\ rg_cons c' = None /\ rg_out c' = rg_out c ++ out /\ zlen out = k.
Proof.
  intros P I Id Lb k. pose proof (ring_inv_range _ I) as (S & L & Br & Bw).
  unfold rtt_read. rewrite (pipe_ring_check _ _ _ _ P). cbn [Z.ltb Z.compare].
  destruct P as (d & p & i & Ed & B & Ep & Ei & Eb & Es & Ew & Er).
  rewrite Ed. cbn [mbind option_bind]. rewrite Ep. cbn [mbind option_bind].
  rewrite Ei. cbn [mbind option_bind]. rewrite Eb. cbn [mbind option_bind].
  rewrite Es, Er, Ew. destruct (Z.eqb_spec sz 0); [lia|].
  destruct (read_loop_run (Z.to_nat count) (rg_buf c) (rg_wr c) (rg_rd c) (rg_prod c) (rg_in c) (rg_out c)
    (rg_rd c) (rg_wr c)) as (out & rd' & E & El & T & D); try done.
  fold (ring_used c) in E, El, T, D. rewrite Z2Nat.id in E, El, T, D by lia. fold k in E, El, T, D. rewrite E.
  cbn [mbind option_bind].
  assert (0 <= ring_used c) by (apply Z.mod_pos_bound; lia).
  exists (set_desc st (set_rx d chan (set_rd p rd'))),
    (mk_ring (rg_buf c) (rg_wr c) rd' (rg_prod c) None (rg_in c) (rg_out c ++ out)), out.
  split; [|split; [|split; [destruct c; cbn in *; subst|split_and!; [done|done|lia]]]].
  - rewrite sa_small by lia. do 3 f_equal. lia.
  - exists (set_rx d chan (set_rd p rd')), (set_rd p rd'), i. cbn.
    rewrite !list_lookup_insert_eq by (by eapply lookup_lt_Some). split_and!; (done || apply B).
  - eapply rtc_l; [apply read_start|]. eapply rtc_r; [exact T|]. by apply read_end.
Qed.

(** The consumer leaves the producer's side alone. *)
Lemma read_steps_frame c c' :
  rtc read_step c c' -> rg_in c' = rg_in c /\ rg_prod c' = rg_prod c /\ rg_wr c' = rg_wr c.
Proof.
  induction 1 as [|? ? ? T _ (-> & -> & ->)]; [done|]. by destruct T.
Qed.

Lemma write_steps_cons c c' : rtc write_step c c' -> rg_cons c' = rg_cons c.
Proof. induction 1 as [|? ? ? T _ ->]; [done|]. by destruct T. Qed.

Lemma write_steps_ring c c' : rtc write_step c c' -> rtc ring_step c c'.
Proof. intros T. eapply rtc_subrel; [|exact T]. by left. Qed.

Lemma read_steps_ring c c' : rtc read_step c c' -> rtc ring_step c c'.
Proof. intros T. eapply rtc_subrel; [|exact T]. by right. Qed.

Section blocking.
  Context (timer : nat -> Z) (probe : nat -> rtt_state -> rtt_state) (chan : Z).
  (** The channel in a state both sides are idle in. *)
Definition idle (st : rtt_state) (c : ring_conf) : Prop :=
  tx_ring st chan c /\ ring_inv c /\ rg_prod c = None /\ rg_cons c = None.

  (** Between two calls the probe only consumes from the pipe. *)
  Context (Hprobe : forall k st c, idle st c ->
    exists c', tx_ring (probe k st) chan c' /\ rtc read_step c c' /\ rg_cons c' = None).

Lemma probe_run k st c :
  idle st c -> exists c', idle (probe k st) c' /\ rtc ring_step c c' /\ rg_in c' = rg_in c.
Proof.
  intros D. destruct (Hprobe k st c D) as (c' & P' & T & Ic). destruct D as (_ & I & Ip & _).
  destruct (read_steps_frame _ _ T) as (Ei & Ep & _). apply read_steps_ring in T.
  exists c'. split; [|done]. split; [done|]. split; [by eapply ring_steps_inv|]. split; [congruence|done].
Qed.

Lemma write_run st c buf :
  idle st c -> zlen buf < 2 ^ (addr_bits - 1) ->
  let k := Z.min (zlen buf) (ring_free c) in
  exists st' c', 0 <= k /\ rtt_write st chan buf = Some (k, st') /\ idle st' c' /\ rtc ring_step c c' /\
    rg_in c' = rg_in c ++ ztake k buf.
Proof.
  intros (P & I & Ip & Ic) L k. destruct (rtt_write_run _ _ _ buf P I Ip L) as (st' & c' & E & P' & T & Ip' & Ei).
  pose proof (write_steps_cons _ _ T) as Ec. apply write_steps_ring in T. exists st', c'.
  split.
  { pose proof (ring_inv_range _ I) as (? & _ & ? & ?). unfold k, ring_free, ring_used.
    pose proof (Z.mod_pos_bound (rg_wr c - rg_rd c) sz). lia. }
  split; [done|]. split; [|done]. split; [done|]. split; [by eapply ring_steps_inv|]. split; [done|congruence].
Qed.

Lemma writeBlocking_loop_S fuel k start st ptr :
  writeBlocking_loop timer probe (S fuel) k start st chan ptr =
  if zlen ptr <=? 0 then Some (0, st)
  else if 100 <=? s64 (timer k - start) then
    d ← rt_desc (probe k st);
    p ← rd_txChannel d !! Z.to_nat chan;
    Some (- ETIME, set_desc (probe k st) (set_tx d chan (set_wr p (rp_rd p))))
  else
    '(len, st) ← rtt_write (probe k st) chan ptr;
    if len <? 0 then Some (len, st)
    else writeBlocking_loop timer probe fuel (S k) start st chan (zdrop len ptr).
Proof. reflexivity. Qed.

(** A failed wait leaves the ring empty. *)
Definition dropped (st : rtt_state) : Prop :=
  exists d p, rt_desc st = Some d /\ rd_txChannel d !! Z.to_nat chan = Some p /\ rp_wr p = rp_rd p.

Lemma writeBlocking_loop_run m k start st c ptr :
  100 <= s64 (timer (k + m)%nat - start) -> idle st c -> zlen ptr < 2 ^ (addr_bits - 1) ->
  exists r st', writeBlocking_loop timer probe (S (S m)) k start st chan ptr = Some (r, st') /\
    ((r = 0 /\ exists c', rtc ring_step c c' /\ tx_ring st' chan c' /\ rg_in c' = rg_in c ++ ptr) \/
     (r = - ETIME /\ dropped st')).
Proof.
  revert k st c ptr. induction m as [|m IH]; intros k st c ptr Ht D L; rewrite writeBlocking_loop_S;
    (destruct (Z.leb_spec (zlen ptr) 0) as [Ez|];
      [exists 0, st; split; [done|]; left; split; [done|]; exists c;
       destruct ptr; [rewrite app_nil_r; by destruct D|cbn in Ez; lia]|]);
    destruct (probe_run k st c D) as (c1 & D1 & T1 & E1).
  all: destruct (Z.leb_spec 100 (s64 (timer k - start))) as [Hk|Hk];
    [destruct D1 as [(d & p & i & Ed & B & Ep & _) _];
     exists (- ETIME), (set_desc (probe k st) (set_tx d chan (set_wr p (rp_rd p))));
     rewrite Ed; cbn [mbind option_bind]; rewrite Ep; cbn [mbind option_bind];
     split; [done|]; right; split; [done|];
     exists (set_tx d chan (set_wr p (rp_rd p))), (set_wr p (rp_rd p)); cbn;
     rewrite list_lookup_insert_eq by (by eapply lookup_lt_Some); done|].
  - rewrite Nat.add_0_r in Ht. lia.
  - destruct (write_run _ _ ptr D1 L) as (st2 & c2 & Hl & E & D2 & T2 & E2).
    rewrite E. cbn [mbind option_bind]. set (l := Z.min (zlen ptr) (ring_free c1)) in *.
    destruct (Z.ltb_spec l 0); [lia|].
    destruct (IH (S k) st2 c2 (zdrop l ptr)) as (r & st' & Er & F); try done.
    { by rewrite Nat.add_succ_comm. }
    { rewrite length_drop. lia. }
    exists r, st'. split; [exact Er|]. destruct F as [(-> & c' & T' & P' & E')|F]; [|by right].
    left. split; [done|]. exists c'. split; [by do 2 (etransitivity; [eassumption|])|]. split; [done|].
    rewrite E', E2, E1, <- app_assoc. by rewrite take_drop.
Qed.

(** With room in the ring whenever the driver looks, nothing is given up. *)
Lemma writeBlocking_loop_delivers n k start st c ptr :
  (length ptr <= n)%nat ->
  (forall j, (k <= j < k + length ptr)%nat -> s64 (timer j - start) < 100) ->
  (forall j st c, idle (probe j st) c -> 0 < ring_free c) ->
  idle st c -> zlen ptr < 2 ^ (addr_bits - 1) ->
  exists st' c', writeBlocking_loop timer probe (S n) k start st chan ptr = Some (0, st') /\
    rtc ring_step c c' /\ tx_ring st' chan c' /\ rg_in c' = rg_in c ++ ptr.
Proof.
  revert k st c ptr. induction n as [|n IH]; intros k st c ptr Ln Ht Hf D L; rewrite writeBlocking_loop_S;
    (destruct (Z.leb_spec (zlen ptr) 0) as [Ez|];
      [exists st, c; destruct ptr; [rewrite app_nil_r; by destruct D|cbn in Ez; lia]|]); [lia|].
  destruct (probe_run k st c D) as (c1 & D1 & T1 & E1).
  destruct (Z.leb_spec 100 (s64 (timer k - start))); [specialize (Ht k); lia|].
  destruct (write_run _ _ ptr D1 L) as (st2 & c2 & Hl & E & D2 & T2 & E2).
  rewrite E. cbn [mbind option_bind]. set (l := Z.min (zlen ptr) (ring_free c1)) in *.
  assert (0 < l) by (specialize (Hf k st c1 D1); lia).
  destruct (Z.ltb_spec l 0); [lia|].
  assert (El : length (zdrop l ptr) = (length ptr - Z.to_nat l)%nat) by apply length_drop.
  destruct (IH (S k) st2 c2 (zdrop l ptr)) as (st' & c' & Er & T' & P' & E'); try done.
  { lia. }
  { intros j J. apply Ht. lia. }
  { lia. }
  exists st', c'. split; [exact Er|]. split; [by do 2 (etransitivity; [eassumption|])|].
  split; [done|]. rewrite E', E2, E1, <- app_assoc. by rewrite take_drop.
Qed.

End blocking.

(** ** Properties *)

(** C10. A pipe is a first-in first-out queue whatever the interleaving of its two
    sides: in every configuration reached by statements of a producer in
    [rtt_write] and a consumer in [rtt_read], the bytes taken are a prefix of the
    bytes stored, fewer than the size of the ring are in between, the next access
    of either side is inside of the buffer, and between calls the two indices
    count what is in the ring. *)
Theorem rtt_pipe_fifo buf c :
  0 < sz < 2 ^ 31 -> zlen buf = sz -> rtc ring_step (ring_init buf) c ->
  rg_out c `prefix_of` rg_in c /\ zlen (rg_in c) - zlen (rg_out c) < sz /\
  (forall rd wr src, rg_prod c = Some (rd, wr, src) -> 0 <= wr < zlen (rg_buf c)) /\
  (forall rd wr todo, rg_cons c = Some (rd, wr, todo) -> 0 <= rd < zlen (rg_buf c)) /\
  (rg_prod c = None -> rg_cons c = None -> ring_used c = zlen (rg_in c) - zlen (rg_out c)).
Proof.
  intros S L T. apply ring_steps_inv in T; [|by apply ring_inv_init].
  destruct T as (_ & L' & Pr & Pp & Cp & (C1 & C2 & C3 & Ew & Er & _) & P & K).
  split; [done|]. split; [lia|]. unfold prod_inv, cons_inv in *. rewrite L'. split_and!.
  - intros rd wr src E. rewrite E in P. destruct P as [-> _]. apply Z.mod_pos_bound. lia.
  - intros rd wr todo E. rewrite E in K. destruct K as [-> _]. apply Z.mod_pos_bound. lia.
  - intros E1 E2. rewrite E1 in P. rewrite E2 in K. unfold ring_used.
    rewrite Ew, Er, P, K, <- Zminus_mod. apply Z.mod_small. lia.
Qed.

(** The driver's calls are runs of that system and keep its history: on a pipe
    whose configuration is reachable, [rtt_write] appends to the bytes stored as
    many bytes as fit and returns their number, and [rtt_read] returns the oldest
    bytes not yet taken, as many as asked for and there. *)
Lemma rtt_refines_ring buf0 c st chan :
  0 < sz < 2 ^ 31 -> zlen buf0 = sz -> rtc ring_step (ring_init buf0) c ->
  (forall buf, tx_ring st chan c -> rg_prod c = None -> zlen buf < 2 ^ (addr_bits - 1) ->
    let k := Z.min (zlen buf) (ring_free c) in
    exists st' c', rtt_write st chan buf = Some (k, st') /\ tx_ring st' chan c' /\
      rtc ring_step c c' /\ rg_prod c' = None /\ rg_in c' = rg_in c ++ ztake k buf) /\
  (forall count, rx_ring st chan c -> rg_cons c = None -> 0 <= count < 2 ^ (addr_bits - 1) ->
    let k := Z.min count (ring_used c) in
    exists st' c', rtt_read st chan count = Some (k, zslice (zlen (rg_out c)) k (rg_in c), st') /\
      rx_ring st' chan c' /\ rtc ring_step c c' /\ rg_cons c' = None /\ rg_in c' = rg_in c /\
      zlen (rg_out c') = zlen (rg_out c) + k).
Proof.
  intros S L T. apply ring_steps_inv in T; [|by apply ring_inv_init]. split.
  - intros buf P Id Lb k. destruct (rtt_write_run st chan c buf P T Id Lb) as (st' & c' & ? & ? & R & ? & ?).
    exists st', c'. split_and!; try done. by apply write_steps_ring.
  - intros count P Id Lb k.
    destruct (rtt_read_run st chan c count P T Id Lb) as (st' & c' & out & E & P' & R & Id' & Eo & Lo).
    destruct (read_steps_frame _ _ R) as (Ei & _ & _). apply read_steps_ring in R.
    pose proof (ring_steps_inv _ _ R T) as (_ & _ & [l Pr] & _). rewrite Ei, Eo, <- app_assoc in Pr.
    exists st', c'. split_and!; try done.
    + rewrite E, Pr. do 3 f_equal. unfold zslice. rewrite Nat2Z.id, drop_app_length. fold k in Lo.
      by rewrite take_app_length' by lia.
    + rewrite Eo, length_app. lia.
Qed.

(** A blocking write comes back: once 100 ms have passed on the timer it has
    returned, either 0 with every byte stored to the ring, in order, or [-ETIME]
    with the ring emptied.  If there is room whenever it looks and the time is not
    up before it has looked once per byte, it returns 0. *)
Lemma rtt_writeBlocking_returns timer probe chan buf0 c st buf m :
  (forall k st c, idle chan st c ->
    exists c', tx_ring (probe k st) chan c' /\ rtc read_step c c' /\ rg_cons c' = None) ->
  0 < sz < 2 ^ 31 -> zlen buf0 = sz -> rtc ring_step (ring_init buf0) c ->
  tx_ring st chan c -> rg_prod c = None -> rg_cons c = None -> zlen buf < 2 ^ (addr_bits - 1) ->
  100 <= s64 (timer (1 + m)%nat - timer 0%nat) ->
  (exists r st', rtt_writeBlocking timer probe (S (S m)) st chan buf = Some (r, st') /\
    ((r = 0 /\ exists c', rtc ring_step c c' /\ tx_ring st' chan c' /\ rg_in c' = rg_in c ++ buf) \/
     (r = - ETIME /\ dropped chan st'))) /\
  ((forall j, (1 <= j < 1 + length buf)%nat -> s64 (timer j - timer 0%nat) < 100) ->
   (forall j st c, idle chan (probe j st) c -> 0 < ring_free c) ->
   exists st' c', rtt_writeBlocking timer probe (S (length buf)) st chan buf = Some (0, st') /\
     rtc ring_step c c' /\ tx_ring st' chan c' /\ rg_in c' = rg_in c ++ buf).
Proof.
  intros Hp S L T P Ip Ic Lb Ht. apply ring_steps_inv in T; [|by apply ring_inv_init].
  destruct (probe_run probe chan Hp 0 st c) as (c1 & D1 & T1 & E1); [done|].
  unfold rtt_writeBlocking. split.
  - destruct (writeBlocking_loop_run timer probe chan Hp m 1 (timer 0%nat) _ c1 buf Ht D1 Lb)
      as (r & st' & E & D). exists r, st'. split; [done|]. destruct D as [(-> & c' & T' & P' & E')|D]; [|by right].
    left. split; [done|]. exists c'. rewrite E', E1. split; [by etransitivity|done].
  - intros Hj Hf.
    destruct (writeBlocking_loop_delivers timer probe chan Hp _ 1 (timer 0%nat) _ c1 buf (le_n _) Hj Hf D1 Lb)
      as (st' & c' & E & T' & P' & E'). exists st', c'. rewrite E', E1. split; [done|]. split; [by etransitivity|done].
Qed.

End ring.

(** ** Witnesses *)

Definition sample_rtt_config : RttConfig :=
  {| RTT_BUFSZ_CONSOLE_TX := 4; RTT_BUFSZ_CONSOLE_RX := 4; RTT_BUFSZ_PHOENIXD_TX := 4;
     RTT_BUFSZ_PHOENIXD_RX := 4 |}.

Definition sample_rtt : rtt_state :=
  @rtt_init sample_rtt_config (mk_rtt None (replicate 4 [0; 0; 0; 0]) false false).

(** The tag is stored the right way round and the pipes are empty. *)
Example sample_rtt_tag : rd_tag <$> rt_desc sample_rtt = Some (str "RTT PIPE" ++ replicate 8 0).
Proof. reflexivity. Qed.

Lemma sample_tx_ring : tx_ring 4 sample_rtt 0 (ring_init [0; 0; 0; 0]).
Proof. do 3 eexists. split_and!; reflexivity || done. Qed.

Lemma sample_rx_ring : rx_ring 4 sample_rtt 1 (ring_init [0; 0; 0; 0]).
Proof. do 3 eexists. split_and!; reflexivity || done. Qed.

(** A probe that takes all there is. *)
Definition drain (k : nat) (st : rtt_state) : rtt_state :=
  match rt_desc st with
  | Some d =>
      match rd_txChannel d !! 0%nat with
      | Some p => set_desc st (set_tx d 0 (set_rd p (rp_wr p)))
      | None => st
      end
  | None => st
  end.

Lemma drain_idle sz k st c :
  idle sz 0 st c -> exists c', tx_ring sz (drain k st) 0 c' /\ rtc (read_step sz) c c' /\ rg_cons c' = None.
Proof.
  intros ((d & p & i & Ed & B & Ep & Ei & Eb & Es & Ew & Er) & I & Ip & Ic).
  pose proof (ring_inv_range _ _ I) as (S & L & Br & Bw). destruct c as [b wr rd pr co ii oo]; cbn in *. subst pr co.
  pose proof (Z.mod_pos_bound (wr - rd) sz ltac:(lia)).
  destruct (read_loop_run sz (Z.to_nat sz) b wr rd None ii oo rd wr S L Br Bw) as (out & rd' & _ & El & T & [D| ->]).
  { rewrite Z2Nat.id in D by lia. lia. }
  exists (mk_ring b wr wr None None ii (oo ++ out)). split; [|split; [|done]].
  - exists (set_tx d 0 (set_rd p (rp_wr p))), (set_rd p (rp_wr p)), i. unfold drain. rewrite Ed.
    change (Z.to_nat 0) with O in Ep. rewrite Ep. cbn.
    rewrite list_lookup_insert_eq by (by eapply lookup_lt_Some). split_and!; done.
  - eapply rtc_l; [apply read_start|]. eapply rtc_r; [exact T|]. apply read_end. by right.
Qed.

Lemma drain_free sz k st c : 1 < sz -> idle sz 0 (drain k st) c -> 0 < ring_free sz c.
Proof.
  intros S ((d & p & i & Ed & B & Ep & _ & _ & _ & Ew & Er) & _). unfold drain in Ed.
  change (Z.to_nat 0) with O in Ep.
  assert (rp_rd p = rp_wr p) as E.
  { destruct (rt_desc st) as [d0|] eqn:E0; [|congruence].
    destruct (rd_txChannel d0 !! 0%nat) as [p0|] eqn:E1; [|congruence].
    cbn in Ed. injection Ed as <-. cbn in Ep.
    rewrite list_lookup_insert_eq in Ep by (by eapply lookup_lt_Some). by injection Ep as <-. }
  unfold ring_free, ring_used. rewrite <- Ew, <- Er, E, Z.sub_diag, Z.mod_0_l by lia. lia.
Qed.

(** The consumer looks while the producer is storing, and sees nothing yet; it
    looks again after the producer has published, and takes one byte. *)
Lemma rtt_pipe_fifo_witness :
  exists c, rg_in c = [7; 8] /\ rg_out c = [7] /\ rg_out c `prefix_of` rg_in c.
Proof.
  exists (mk_ring [7; 8; 0; 0] 2 0 None (Some (1, 2, 2%nat)) [7; 8] [7]). split; [done|]. split; [done|].
  refine (proj1 (rtt_pipe_fifo 4 [0; 0; 0; 0] _ ltac:(lia) eq_refl _)).
  eapply rtc_l; [left; exact (write_start 4 _ _ _ _ _ _ [7; 8])|].
  eapply rtc_l; [left; by apply write_byte|].
  eapply rtc_l; [right; exact (read_start 4 _ _ _ _ _ _ 3)|].
  eapply rtc_l; [right; apply read_end; by right|].
  eapply rtc_l; [left; by apply write_byte|].
  eapply rtc_l; [left; apply write_end; by left|].
  eapply rtc_l; [right; exact (read_start 4 _ _ _ _ _ _ 3)|].
  eapply rtc_l; [right; by apply read_byte|]. apply rtc_refl.
Defined.

(** Five bytes do not fit a ring of four: three are accepted. *)
Lemma rtt_refines_ring_witness :
  exists st' c', @rtt_write target32 sample_rtt 0 [1; 2; 3; 4; 5] = Some (3, st') /\
    tx_ring 4 st' 0 c' /\ rtc (ring_step 4) (ring_init [0; 0; 0; 0]) c' /\
    rg_prod c' = None /\ rg_in c' = [1; 2; 3].
Proof.
  exact (proj1 (@rtt_refines_ring 4 target32 [0; 0; 0; 0] (ring_init [0; 0; 0; 0]) sample_rtt 0 ltac:(lia)
    eq_refl (rtc_refl _ _)) [1; 2; 3; 4; 5] sample_tx_ring eq_refl ltac:(cbn; lia)).
Defined.

(** The timer advances by 30 ms from one reading to the next; the probe keeps up. *)
Lemma rtt_writeBlocking_returns_witness :
  exists st' c', @rtt_writeBlocking target32 (fun k => 30 * Z.of_nat k) drain 3 sample_rtt 0 [1; 2] = Some (0, st') /\
    rtc (ring_step 4) (ring_init [0; 0; 0; 0]) c' /\ tx_ring 4 st' 0 c' /\ rg_in c' = [1; 2].
Proof.
  apply (proj2 (@rtt_writeBlocking_returns 4 target32 (fun k => 30 * Z.of_nat k) drain 0 [0; 0; 0; 0]
    (ring_init [0; 0; 0; 0]) sample_rtt [1; 2] 3 (drain_idle 4) ltac:(lia) eq_refl (rtc_refl _ _)
    sample_tx_ring eq_refl eq_refl ltac:(cbn; lia) ltac:(vm_compute; done))).
  - intros j J. cbn [length] in J. assert (j = 1 \/ j = 2)%nat as [-> | ->] by lia; by vm_compute.
  - intros j st c. apply drain_free. lia.
Defined.
