(* ===== verification/Nor.v ===== *)
(** * NOR flash chips (src/devices/flash-imxrt/nor/nor.c, nor_issi.c, nor_mx.c, nor.h)

    The commands of a serial NOR chip, sent as transfers of the FlexSPI
    controller, and the table of supported chips.  The controller's registers, the
    chip behind them and the timer are the world [W]; the functions of fspi/fspi.c
    that access them are the class [Flexspi].  A pointer a transfer stores through
    is the list of bytes it returns.  [None] is an access to an uninitialised
    status byte, or no result within [fuel] readings of the status register.

    [NorOps] and [NorLaws] are the interface the flash driver is proved against:
    the operations on sectors and pages with their effect on the contents of the
    chip.  [Flexspi_chip] states the documented behaviour of the chip for single
    commands; [nor_laws] shows that nor.c turns it into the interface. *)

From S2P Require Import Prelude Mem CString Devs.

Definition EACCES := 13.

(** ** src/devices/flash-imxrt/fspi.h *)

Definition FLEXSPI_PORTS : nat := 4.

Record flexspi_t := mk_flexspi {
  fs_ahbAddr : Z;
  fs_instance : Z;
  fs_slPortMask : Z;
  fs_slFlashSz : list Z
}.

Inductive xfer_op :=
| xfer_opCommand
| xfer_opRead (sz : Z)
| xfer_opWrite (data : list Z).

Record xferOp := mk_xfer {
  x_op : xfer_op;
  x_timeout : Z;
  x_addr : Z;
  x_port : Z;
  x_seqIdx : Z;
  x_seqNum : Z
}.

Definition LUT_SEQSZ := 4.
Definition LUT_ENTRIES := 16.
Definition LUT_SEQIDX (seq : Z) : Z := seq.
Definition LUT_SEQNUM (seq : Z) : Z := 0.

(** The [lut_seq] tables of nor_lut.h, by name. *)
Inductive lut_table :=
| lutGeneric3Byte | lutGeneric4Byte | lutIssi3Byte | lutIssi4Byte | lutMicronMono | lutMicronDie.

(** The controller, whose functions access its registers. *)
Class Flexspi (W : Type) := {
  flexspi_xferExec : flexspi_t -> xferOp -> W -> Z * list Z * W;
  flexspi_lutUpdate : flexspi_t -> Z -> list Z -> W -> W;
  (** the table and the entry it is copied from *)
  flexspi_lutUpdateEntries : flexspi_t -> Z -> lut_table -> Z -> Z -> W -> W;
  flexspi_init : flexspi_t -> Z -> Z -> W -> Z * flexspi_t * W;
  flexspi_setSizeRegs : flexspi_t -> W -> W;
  flexspi_postinit : flexspi_t -> W -> W
}.

(** [flexspi_setFlashSize]: the sizes it keeps; the registers get the same. *)
Definition flexspi_setFlashSize (fspi : flexspi_t) (flashSizes : list Z) : flexspi_t :=
  mk_flexspi (fs_ahbAddr fspi) (fs_instance fspi) (fs_slPortMask fspi)
    (imap (fun i old =>
       match flashSizes !! i with
       | Some sz =>
           if negb (Z.land (fs_slPortMask fspi) (Z.shiftl 1 (Z.of_nat i)) =? 0) then
             w32 (Z.shiftl (Z.land (Z.shiftr sz 10) (2 ^ 22 - 1)) 10)
           else old
       | None => old
       end) (fs_slFlashSz fspi)).

Definition flexspi_deinit (fspi : flexspi_t) : Z := EOK.

(** ** src/devices/flash-imxrt/nor/nor.h *)

Definition NOR_ERASED_STATE := 0xff.
Definition NOR_DEFAULT_TIMEOUT := 10000.
Definition NOR_SECTORSZ_MAX := 0x1000.
Definition NOR_PAGESZ_MAX := 0x100.
Definition NOR_CAPS_GENERIC := 0.
Definition NOR_CAPS_EN4B := 0x100.
Definition NOR_CAPS_DIE2 := 0x1000.
Definition NOR_CAPS_DIE4 := 0x2000.

(** The values of [info->init]. *)
Inductive nor_init := nor_issiInit_ | nor_mxQuadEnable_.

Record nor_info := mk_info {
  jedecId : Z;
  ni_name : cstr;
  totalSz : Z;
  pageSz : Z;
  sectorSz : Z;
  capFlags : Z;
  ni_lut : lut_table;
  ni_init : option nor_init
}.

Record nor_device := mk_dev {
  nd_nor : option nor_info;
  nd_fspi : flexspi_t;
  nd_port : Z;
  nd_active : Z;
  nd_timeout : Z;
  sectorPrevAddr : Z;
  sectorSyncAddr : Z;
  sectorBuf : list Z
}.

(** The anonymous enumeration of the sequences. *)
Definition fspi_readData := 0.
Definition fspi_readStatus := 1.
Definition fspi_writeStatus := 2.
Definition fspi_writeEnable := 3.
Definition fspi_writeDisable := 4.
Definition fspi_eraseSector := 5.
Definition fspi_eraseBlock := 6.
Definition fspi_eraseChip := 7.
Definition fspi_programQPP := 8.
Definition fspi_readID := 9.
Definition fspi_enter4byteAddr := 10.
Definition fspi_exit4byteAddr := 11.
Definition fspi_cmdCustom1 := 12.
Definition fspi_cmdCustom2 := 13.

(** ** src/devices/flash-imxrt/nor/nor.c *)

Definition FLASH_ID (vid pid : Z) : Z :=
  Z.lor (Z.lor (Z.land vid 0xff) (Z.land pid 0xff00)) (Z.shiftl (Z.land pid 0xff) 16).

(** First byte of the identifier and name, from the third character on. *)
Definition nor_vendors : list (Z * cstr) :=
  [(0xef, str "Winbond"); (0x20, str "Micron"); (0x9d, str "ISSI"); (0xc2, str "Macronix")].

Definition MB (n : Z) : Z := n * 1024 * 1024.

Definition flashInfo : list nor_info :=
  [ mk_info (FLASH_ID 0xef 0x4015) (str "W25Q16") (MB 2) 0x100 0x1000 NOR_CAPS_GENERIC lutGeneric3Byte None;
    mk_info (FLASH_ID 0xef 0x4016) (str "W25Q32") (MB 4) 0x100 0x1000 NOR_CAPS_GENERIC lutGeneric3Byte None;
    mk_info (FLASH_ID 0xef 0x4017) (str "W25Q64") (MB 8) 0x100 0x1000 NOR_CAPS_GENERIC lutGeneric3Byte None;
    mk_info (FLASH_ID 0xef 0x4018) (str "W25Q128") (MB 16) 0x100 0x1000 NOR_CAPS_GENERIC lutGeneric3Byte None;
    mk_info (FLASH_ID 0xef 0x4019) (str "W25Q256JVEIQ") (MB 32) 0x100 0x1000 NOR_CAPS_GENERIC lutGeneric4Byte None;
    mk_info (FLASH_ID 0xef 0x6019) (str "W25Q256JW-Q") (MB 32) 0x100 0x1000 NOR_CAPS_GENERIC lutGeneric4Byte None;
    mk_info (FLASH_ID 0xef 0x8019) (str "W25Q256JW-M") (MB 32) 0x100 0x1000 NOR_CAPS_GENERIC lutGeneric4Byte None;
    mk_info (FLASH_ID 0xef 0x6020) (str "W25Q512NW-Q") (MB 64) 0x100 0x1000 NOR_CAPS_GENERIC lutGeneric4Byte None;
    mk_info (FLASH_ID 0x9d 0x7016) (str "IS25WP032") (MB 4) 0x100 0x1000 NOR_CAPS_GENERIC lutIssi3Byte (Some nor_issiInit_);
    mk_info (FLASH_ID 0x9d 0x7017) (str "IS25WP064") (MB 8) 0x100 0x1000 NOR_CAPS_GENERIC lutIssi3Byte (Some nor_issiInit_);
    mk_info (FLASH_ID 0x9d 0x7018) (str "IS25WP128") (MB 16) 0x100 0x1000 NOR_CAPS_GENERIC lutIssi3Byte (Some nor_issiInit_);
    mk_info (FLASH_ID 0x9d 0x7019) (str "IS25WP256") (MB 32) 0x100 0x1000 NOR_CAPS_GENERIC lutIssi4Byte (Some nor_issiInit_);
    mk_info (FLASH_ID 0x9d 0x6019) (str "IS25LP256") (MB 32) 0x100 0x1000 NOR_CAPS_GENERIC lutIssi4Byte (Some nor_issiInit_);
    mk_info (FLASH_ID 0x20 0xba19) (str "MT25QL256") (MB 32) 0x100 0x1000 (Z.lor NOR_CAPS_GENERIC NOR_CAPS_EN4B) lutMicronMono None;
    mk_info (FLASH_ID 0x20 0xba20) (str "MT25QL512") (MB 64) 0x100 0x1000 (Z.lor NOR_CAPS_GENERIC NOR_CAPS_EN4B) lutMicronMono None;
    mk_info (FLASH_ID 0x20 0xba21) (str "MT25QL01G") (MB 128) 0x100 0x1000 (Z.lor NOR_CAPS_DIE2 NOR_CAPS_EN4B) lutMicronDie None;
    mk_info (FLASH_ID 0x20 0xba22) (str "MT25QL02G") (MB 256) 0x100 0x1000 (Z.lor NOR_CAPS_DIE4 NOR_CAPS_EN4B) lutMicronDie None;
    mk_info (FLASH_ID 0xc2 0x2016) (str "MX25L3233") (MB 4) 0x100 0x1000 NOR_CAPS_GENERIC lutGeneric3Byte (Some nor_mxQuadEnable_) ].

(** [LUT_SEQ(lutCmd_SDR, lutPad1, FLASH_CMD_RDID, lutCmdREAD_SDR, lutPad1, 0x04)] *)
Definition lut_readID : Z :=
  Z.lor (Z.shiftl (Z.lor (Z.shiftl 0x09 10) 0x04) 16) (Z.lor (Z.shiftl 0x01 10) 0x9f).

Section nor.
  Context {W : Type} `{Flexspi W} (fuel : nat).

(** The fields of [xfer] the functions fill in, and the transfer. *)
Definition nor_xfer (fspi : flexspi_t) (op : xfer_op) (port timeout addr seq : Z) (w : W) : Z * list Z * W :=
  flexspi_xferExec fspi (mk_xfer op timeout addr port (LUT_SEQIDX seq) (LUT_SEQNUM seq)) w.

Definition nor_command (fspi : flexspi_t) (port timeout addr seq : Z) (w : W) : Z * W :=
  let '(res, _, w) := nor_xfer fspi xfer_opCommand port timeout addr seq w in (res, w).

(** The result and the bytes of [*retValue] written, the lowest first. *)
Definition nor_readID (fspi : flexspi_t) (port timeout : Z) (w : W) : Z * list Z * W :=
  let w := flexspi_lutUpdate fspi (fspi_readID * LUT_SEQSZ) [lut_readID; 0; 0; 0] w in
  nor_xfer fspi (xfer_opRead 3) port timeout 0 fspi_readID w.

Definition nor_readStatus (fspi : flexspi_t) (port timeout : Z) (w : W) : Z * list Z * W :=
  nor_xfer fspi (xfer_opRead 1) port timeout 0 fspi_readStatus w.

Fixpoint waitBusy_loop (fuel : nat) (fspi : flexspi_t) (port timeout status : Z) (w : W) : option (Z * W) :=
  match fuel with
  | O => None
  | S fuel =>
      let '(res, d, w) := nor_readStatus fspi port timeout w in
      if res <? EOK then Some (res, w)
      else
        let status := default status (head d) in
        if negb (Z.land status 1 =? 0) then waitBusy_loop fuel fspi port timeout status w
        else Some (EOK, w)
  end.

Definition nor_waitBusy (fspi : flexspi_t) (port timeout : Z) (w : W) : option (Z * W) :=
  waitBusy_loop fuel fspi port timeout 0 w.

Definition nor_writeEnable (fspi : flexspi_t) (port enable timeout : Z) (w : W) : option (Z * W) :=
  '(res, w) ← nor_waitBusy fspi port timeout w;
  if res <? EOK then Some (res, w)
  else
    let seqCode := if negb (enable =? 0) then fspi_writeEnable else fspi_writeDisable in
    let '(res, w) := nor_command fspi port timeout 0 seqCode w in
    if res <? EOK then Some (res, w)
    else
      let '(res, d, w) := nor_readStatus fspi port timeout w in
      if res <? EOK then Some (res, w)
      else
        status ← head d;
        if negb (Z.land (Z.shiftr status 1) 1 =? b2z (negb (enable =? 0))) then Some (- EACCES, w)
        else Some (EOK, w).

Definition nor_eraseSector (fspi : flexspi_t) (port addr timeout : Z) (w : W) : option (Z * W) :=
  '(res, w) ← nor_writeEnable fspi port 1 timeout w;
  if res <? EOK then Some (res, w)
  else
    let '(res, w) := nor_command fspi port timeout addr fspi_eraseSector w in
    if res <? EOK then Some (res, w) else nor_waitBusy fspi port timeout w.

Definition nor_mode4ByteAddr (fspi : flexspi_t) (port en4b timeout : Z) (w : W) : Z * W :=
  let seqCode := if en4b =? 0 then fspi_exit4byteAddr else fspi_enter4byteAddr in
  nor_command fspi port timeout 0 seqCode w.

(** The loop of [nor_eraseChipDie], [k] dies left. *)
Fixpoint eraseChipDie_loop (k : nat) (fspi : flexspi_t) (port capFlags dieCount dieIndex dieSize timeout res : Z) (w : W)
    : option (Z * W) :=
  match k with
  | O => Some (res, w)
  | S k =>
      '(res, w) ← nor_writeEnable fspi port 1 timeout w;
      if res <? EOK then Some (res, w)
      else
        let '(res, w) :=
          if (1 <? dieCount) && negb (Z.land capFlags NOR_CAPS_EN4B =? 0) then
            nor_mode4ByteAddr fspi port 1 timeout w
          else (res, w) in
        if res <? EOK then Some (res, w)
        else
          let '(res, w) := nor_command fspi port timeout (w32 (dieIndex * dieSize)) fspi_eraseChip w in
          if res <? EOK then Some (res, w)
          else
            '(res, w) ← nor_waitBusy fspi port timeout w;
            if res <? EOK then Some (res, w)
            else eraseChipDie_loop k fspi port capFlags dieCount (dieIndex + 1) dieSize timeout res w
  end.

Definition nor_eraseChipDie (fspi : flexspi_t) (port capFlags dieCount dieSize timeout : Z) (w : W)
    : option (Z * W) :=
  eraseChipDie_loop (Z.to_nat dieCount) fspi port capFlags dieCount 0 dieSize timeout (- EIO) w.

Definition nor_pageProgram (fspi : flexspi_t) (port dstAddr : Z) (src : list Z) (timeout : Z) (w : W)
    : option (Z * W) :=
  '(res, w) ← nor_writeEnable fspi port 1 timeout w;
  if res <? EOK then Some (res, w)
  else
    let '(res, _, w) := nor_xfer fspi (xfer_opWrite src) port timeout dstAddr fspi_programQPP w in
    if res <? EOK then Some (res, w) else nor_waitBusy fspi port timeout w.

(** The result and the bytes stored to [data]. *)
Definition nor_readData (fspi : flexspi_t) (port addr size timeout : Z) (w : W) : Z * list Z * W :=
  nor_xfer fspi (xfer_opRead size) port timeout addr fspi_readData w.

(** The chip and its vendor, as found in the tables. *)
Definition nor_lookup (jedec : Z) : option (nor_info * cstr) :=
  info ← find (fun info => jedecId info =? jedec) flashInfo;
  Some (info, default (str "Unknown") (snd <$> find (fun v => v.1 =? Z.land jedec 0xff) nor_vendors)).

Definition nor_probe (fspi : flexspi_t) (port : Z) (w : W) : Z * option (nor_info * cstr) * W :=
  let '(res, d, w) := nor_readID fspi port 1000 w in
  if res <? EOK then (res, None, w)
  else
    let jedec := deref d + Z.shiftl (at_ d 1) 8 + Z.shiftl (at_ d 2) 16 in
    match nor_lookup jedec with
    | Some r => (EOK, Some r, w)
    | None => (- ENXIO, None, w)
    end.

Definition nor_deviceInit (dev : nor_device) (port active timeout : Z) : nor_device :=
  mk_dev None (nd_fspi dev) port active timeout (w32 (-1)) (w32 (-1))
    (replicate (Z.to_nat NOR_SECTORSZ_MAX) NOR_ERASED_STATE).

(** ** src/devices/flash-imxrt/nor/nor_mx.c, nor_issi.c *)

Definition nor_mxQuadEnable (dev : nor_device) (w : W) : option (Z * W) :=
  if nd_active dev =? 0 then Some (- ENODEV, w)
  else
    info ← nd_nor dev;
    let fspi := nd_fspi dev in
    let load seq w := flexspi_lutUpdateEntries fspi (seq * LUT_SEQSZ) (ni_lut info) seq 1 w in
    let w := load fspi_writeEnable w in
    let w := load fspi_writeStatus w in
    let w := load fspi_readStatus w in
    let '(res, d, w) := nor_xfer fspi (xfer_opRead 1) (nd_port dev) 1000 0 fspi_readStatus w in
    if res <? EOK then Some (res, w)
    else
      let quadEnable := default 0x40 (head d) in
      if negb (Z.land quadEnable (Z.shiftl 1 6) =? 0) then Some (EOK, w)
      else
        let quadEnable := Z.lor quadEnable (Z.shiftl 1 6) in
        '(res, w) ← nor_writeEnable fspi (nd_port dev) 1 1000 w;
        if res <? EOK then Some (res, w)
        else
          let '(res, _, w) :=
            nor_xfer fspi (xfer_opWrite [w8 quadEnable]) (nd_port dev) 1000 0 fspi_writeStatus w in
          if res <? EOK then Some (res, w) else nor_waitBusy fspi (nd_port dev) 1000 w.

Definition nor_issiInit (dev : nor_device) (w : W) : option (Z * W) :=
  if nd_active dev =? 0 then Some (- ENODEV, w)
  else
    info ← nd_nor dev;
    let fspi := nd_fspi dev in
    let load seq w := flexspi_lutUpdateEntries fspi (seq * LUT_SEQSZ) (ni_lut info) seq 1 w in
    let w := load fspi_readStatus w in
    let w := load fspi_writeStatus w in
    let w := load fspi_writeEnable w in
    let w := load fspi_cmdCustom1 w in
    let w := load fspi_cmdCustom2 w in
    let '(res, d, w) := nor_readStatus fspi (nd_port dev) 1000 w in
    if res <? EOK then Some (res, w)
    else
      status ← head d;
      '(res, w) ←
        (if Z.land status (Z.shiftl 1 6) =? 0 then
           '(res, w) ← nor_writeEnable fspi (nd_port dev) 1 1000 w;
           if res <? EOK then Some (res, w)
           else
             let status := Z.lor status (Z.shiftl 1 6) in
             let '(res, _, w) :=
               nor_xfer fspi (xfer_opWrite [status]) (nd_port dev) 1000 0 fspi_writeStatus w in
             if res <? EOK then Some (res, w) else nor_waitBusy fspi (nd_port dev) 1000 w
         else Some (EOK, w));
      if res <? EOK then Some (res, w)
      else
        let '(res, d, w) := nor_xfer fspi (xfer_opRead 1) (nd_port dev) 1000 0 fspi_cmdCustom1 w in
        if res <? EOK then Some (res, w)
        else
          params ← head d;
          if negb (Z.shiftr (Z.land params 0x87) 3 =? 11) then
            let params := Z.lor (Z.land params 0x87) (Z.shiftl 11 3) in
            let '(res, _, w) :=
              nor_xfer fspi (xfer_opWrite [params]) (nd_port dev) 1000 0 fspi_cmdCustom2 w in
            if res <? EOK then Some (res, w) else nor_waitBusy fspi (nd_port dev) 1000 w
          else Some (EOK, w).

End nor.

(** ** What the driver needs of a chip

    [untouched a n l l']: the bytes outside of [a .. a + n) are the same. *)

Definition untouched {A} (a n : Z) (l l' : list A) : Prop :=
  length l' = length l /\ ztake a l' = ztake a l /\ zdrop (a + n) l' = zdrop (a + n) l.

Definition blank (n : Z) : list Z := replicate (Z.to_nat n) NOR_ERASED_STATE.

(** Programming clears bits. *)
Definition programmed (old data : list Z) : list Z := zip_with Z.land old data.

(** A chip of [total] bytes behind [fspi], with sectors, pages and dies of the
    given sizes.  [idle] is a chip that is not busy; [reliable] promises that no
    operation fails. *)
Class NorLaws {W : Type} `{Flexspi W} (fuel : nat) (fspi : flexspi_t) (port total ssz psz die : Z) := {
  contents : W -> list Z;
  idle : W -> Prop;
  reliable : Prop;
  contents_length w : zlen (contents w) = total;
  erase_law a t w :
    idle w -> 0 <= a -> a + ssz <= total -> a mod ssz = 0 ->
    exists r w', nor_eraseSector fuel fspi port a t w = Some (r, w') /\
      untouched a ssz (contents w) (contents w') /\ (reliable -> 0 <= r) /\
      (0 <= r -> idle w' /\ contents w' = splice a (blank ssz) (contents w));
  program_law a data t w :
    idle w -> 0 <= a -> a + psz <= total -> a mod psz = 0 -> zlen data = psz ->
    exists r w', nor_pageProgram fuel fspi port a data t w = Some (r, w') /\
      untouched a psz (contents w) (contents w') /\ (reliable -> 0 <= r) /\
      (0 <= r -> idle w' /\
        contents w' = splice a (programmed (zslice a psz (contents w)) data) (contents w));
  read_law a n t w :
    idle w -> 0 <= a -> 0 <= n -> a + n <= total ->
    exists r d w', nor_readData fspi port a n t w = (r, d, w') /\
      contents w' = contents w /\ idle w' /\ zlen d <= n /\ (reliable -> 0 <= r) /\
      (0 <= r -> d = zslice a n (contents w));
  die_law caps n t w :
    idle w -> 0 < n -> n * die = total ->
    exists r w', nor_eraseChipDie fuel fspi port caps n die t w = Some (r, w') /\
      (reliable -> 0 <= r) /\ (0 <= r -> idle w' /\ contents w' = blank total)
}.

(** ** The documented behaviour of the chip's commands

    A chip that is busy finishes within [max_busy] readings of its status; write
    enable sets the latch [wel] a later erase or program needs; an erase sets the
    bytes of its sector or die, a program clears bits of its page, a failed one may
    leave anything there; other commands do not change the contents. *)
Class NorChip {W : Type} `{Flexspi W} (fspi : flexspi_t) (port total ssz psz die : Z) := {
  ch_contents : W -> list Z;
  ch_wel : W -> bool;
  ch_busy : W -> nat;
  ch_reliable : Prop;
  max_busy : nat;
  ch_length w : zlen (ch_contents w) = total;
  ch_busy_max w : (ch_busy w <= max_busy)%nat;
  ch_status t w :
    exists r d w', nor_readStatus fspi port t w = (r, d, w') /\
      ch_contents w' = ch_contents w /\ ch_wel w' = ch_wel w /\ ch_busy w' = pred (ch_busy w) /\
      (ch_reliable -> 0 <= r) /\
      (0 <= r -> exists s, d = [s] /\ Z.land s 1 = b2z (0 <? ch_busy w)%nat /\
        Z.land (Z.shiftr s 1) 1 = b2z (ch_wel w));
  ch_enable t w :
    ch_busy w = O ->
    exists r w', nor_command fspi port t 0 fspi_writeEnable w = (r, w') /\
      ch_contents w' = ch_contents w /\ ch_busy w' = O /\ (ch_reliable -> 0 <= r) /\ (0 <= r -> ch_wel w' = true);
  ch_mode4 t w :
    ch_busy w = O ->
    exists r w', nor_command fspi port t 0 fspi_enter4byteAddr w = (r, w') /\
      ch_contents w' = ch_contents w /\ ch_wel w' = ch_wel w /\ ch_busy w' = O /\ (ch_reliable -> 0 <= r);
  ch_erase a t w :
    ch_busy w = O -> ch_wel w = true -> 0 <= a -> a + ssz <= total -> a mod ssz = 0 ->
    exists r w', nor_command fspi port t a fspi_eraseSector w = (r, w') /\
      untouched a ssz (ch_contents w) (ch_contents w') /\ (ch_reliable -> 0 <= r) /\
      (0 <= r -> ch_contents w' = splice a (blank ssz) (ch_contents w));
  ch_erase_die a t w :
    ch_busy w = O -> ch_wel w = true -> 0 <= a -> a + die <= total -> a mod die = 0 ->
    exists r w', nor_command fspi port t a fspi_eraseChip w = (r, w') /\ (ch_reliable -> 0 <= r) /\
      (0 <= r -> ch_contents w' = splice a (blank die) (ch_contents w));
  ch_program a data t w :
    ch_busy w = O -> ch_wel w = true -> 0 <= a -> a + psz <= total -> a mod psz = 0 -> zlen data = psz ->
    exists r d w', nor_xfer fspi (xfer_opWrite data) port t a fspi_programQPP w = (r, d, w') /\
      untouched a psz (ch_contents w) (ch_contents w') /\ (ch_reliable -> 0 <= r) /\
      (0 <= r -> ch_contents w' = splice a (programmed (zslice a psz (ch_contents w)) data) (ch_contents w));
  ch_read a n t w :
    ch_busy w = O -> 0 <= a -> 0 <= n -> a + n <= total ->
    exists r d w', nor_xfer fspi (xfer_opRead n) port t a fspi_readData w = (r, d, w') /\
      ch_contents w' = ch_contents w /\ ch_busy w' = O /\ zlen d <= n /\ (ch_reliable -> 0 <= r) /\
      (0 <= r -> d = zslice a n (ch_contents w))
}.

Section chip.
  Context {W : Type} `{Flexspi W} (fspi : flexspi_t) (port total ssz psz die : Z)
    {C : NorChip fspi port total ssz psz die} (fuel : nat).
  Context (Hfuel : (max_busy < fuel)%nat).

(** Waiting ends, and on success the chip is idle. *)
Lemma waitBusy_loop_spec k t s w :
  (ch_busy w < k)%nat ->
  exists r w', waitBusy_loop k fspi port t s w = Some (r, w') /\ ch_contents w' = ch_contents w /\
    ch_wel w' = ch_wel w /\ (ch_reliable -> 0 <= r) /\ (0 <= r -> ch_busy w' = O).
Proof.
  revert s w. induction k as [|k IH]; intros s w L; [lia|]. cbn [waitBusy_loop].
  destruct (ch_status t w) as (r & d & w1 & -> & E1 & E2 & E3 & R & F). unfold EOK.
  destruct (Z.ltb_spec r 0) as [N|P].
  - exists r, w1. split_and!; try done. lia.
  - destruct (F P) as (st & -> & Eb & _). change (default s (head [st])) with st. cbv zeta. rewrite Eb.
    destruct (Nat.ltb_spec 0 (ch_busy w)) as [B|B]; cbn [b2z Z.eqb negb].
    + destruct (IH st w1) as (r' & w' & -> & Ec & Ew & R' & F'); [lia|].
      exists r', w'. rewrite Ec, Ew. done.
    + exists 0, w1. split_and!; try done. lia.
Qed.

Lemma nor_waitBusy_spec t w :
  exists r w', nor_waitBusy fuel fspi port t w = Some (r, w') /\ ch_contents w' = ch_contents w /\
    ch_wel w' = ch_wel w /\ (ch_reliable -> 0 <= r) /\ (0 <= r -> ch_busy w' = O).
Proof. apply waitBusy_loop_spec. pose proof (ch_busy_max w). lia. Qed.

(** Write enable leaves an idle chip with the latch set. *)
Lemma nor_writeEnable_spec t w :
  exists r w', nor_writeEnable fuel fspi port 1 t w = Some (r, w') /\ ch_contents w' = ch_contents w /\
    (ch_reliable -> 0 <= r) /\ (0 <= r -> ch_busy w' = O /\ ch_wel w' = true).
Proof.
  unfold nor_writeEnable, EOK. destruct (nor_waitBusy_spec t w) as (r & w1 & -> & E1 & _ & R1 & F1).
  cbn [mbind option_bind]. destruct (Z.ltb_spec r 0) as [N|P].
  { exists r, w1. split_and!; try done. lia. }
  cbn [Z.eqb negb]. destruct (ch_enable t w1 (F1 P)) as (r2 & w2 & -> & E2 & B2 & R2 & F2).
  destruct (Z.ltb_spec r2 0) as [N2|P2].
  { exists r2, w2. split_and!; try congruence; try done. lia. }
  destruct (ch_status t w2) as (r3 & d & w3 & -> & E3 & L3 & B3 & R3 & F3).
  destruct (Z.ltb_spec r3 0) as [N3|P3].
  { exists r3, w3. split_and!; try congruence; try done. lia. }
  destruct (F3 P3) as (s & -> & _ & El). cbn [head mbind option_bind]. rewrite El, (F2 P2). cbn [b2z Z.eqb Pos.eqb negb].
  exists 0, w3. rewrite B2 in B3. cbn in B3. rewrite L3, (F2 P2). split_and!; try congruence; lia || done.
Qed.

(** A command sent to an enabled chip and waited for. *)
Lemma after_enable t w (k : W -> Z * W) (Q : list Z -> Prop) (U : list Z -> Prop) :
  U (ch_contents w) ->
  (forall w1, ch_busy w1 = O -> ch_wel w1 = true -> ch_contents w1 = ch_contents w ->
     exists r w', k w1 = (r, w') /\ U (ch_contents w') /\ (ch_reliable -> 0 <= r) /\
       (0 <= r -> Q (ch_contents w'))) ->
  exists r w',
    ('(res, w) ← nor_writeEnable fuel fspi port 1 t w;
     if res <? EOK then Some (res, w)
     else let '(res, w) := k w in
          if res <? EOK then Some (res, w) else nor_waitBusy fuel fspi port t w) = Some (r, w') /\
    U (ch_contents w') /\ (ch_reliable -> 0 <= r) /\ (0 <= r -> ch_busy w' = O /\ Q (ch_contents w')).
Proof.
  intros Hu Hk. unfold EOK. destruct (nor_writeEnable_spec t w) as (r & w1 & -> & E1 & R1 & F1).
  cbn [mbind option_bind]. destruct (Z.ltb_spec r 0) as [N|P].
  { exists r, w1. rewrite E1. split_and!; try done. lia. }
  destruct (Hk w1 (proj1 (F1 P)) (proj2 (F1 P)) E1) as (r2 & w2 & -> & U2 & R2 & F2).
  destruct (Z.ltb_spec r2 0) as [N2|P2].
  { exists r2, w2. split_and!; try done. lia. }
  destruct (nor_waitBusy_spec t w2) as (r3 & w3 & -> & E3 & _ & R3 & F3).
  exists r3, w3. rewrite E3. split_and!; try done. intros P3. split; [by apply F3|by apply F2].
Qed.

Lemma untouched_refl {A} a n (l : list A) : untouched a n l l.
Proof. done. Qed.

Lemma nor_eraseSector_spec a t w :
  0 <= a -> a + ssz <= total -> a mod ssz = 0 ->
  exists r w', nor_eraseSector fuel fspi port a t w = Some (r, w') /\
    untouched a ssz (ch_contents w) (ch_contents w') /\ (ch_reliable -> 0 <= r) /\
    (0 <= r -> ch_busy w' = O /\ ch_contents w' = splice a (blank ssz) (ch_contents w)).
Proof.
  intros A B D. unfold nor_eraseSector.
  apply (after_enable t w (nor_command fspi port t a fspi_eraseSector)
    (fun l => l = splice a (blank ssz) (ch_contents w)) (untouched a ssz (ch_contents w))); [done|].
  intros w1 B1 E1 <-. by apply ch_erase.
Qed.

Lemma nor_pageProgram_spec a data t w :
  0 <= a -> a + psz <= total -> a mod psz = 0 -> zlen data = psz ->
  exists r w', nor_pageProgram fuel fspi port a data t w = Some (r, w') /\
    untouched a psz (ch_contents w) (ch_contents w') /\ (ch_reliable -> 0 <= r) /\
    (0 <= r -> ch_busy w' = O /\
      ch_contents w' = splice a (programmed (zslice a psz (ch_contents w)) data) (ch_contents w)).
Proof.
  intros A B D L. unfold nor_pageProgram.
  destruct (after_enable t w
    (fun w => let '(res, _, w) := nor_xfer fspi (xfer_opWrite data) port t a fspi_programQPP w in (res, w))
    (fun l => l = splice a (programmed (zslice a psz (ch_contents w)) data) (ch_contents w))
    (untouched a psz (ch_contents w))) as (r & w' & E & R); [done| |].
  - intros w1 B1 E1 <-. destruct (ch_program a data t w1) as (r & d & w' & -> & U); try done. by exists r, w'.
  - exists r, w'. split; [|done]. rewrite <- E. destruct (nor_writeEnable _ _ _ _ _ _) as [[r0 w0]|]; [|done].
    cbn [mbind option_bind]. destruct (r0 <? EOK); [done|]. by destruct (nor_xfer _ _ _ _ _ _ _) as [[? ?] ?].
Qed.

(** The dies before [j] are blank, and one more turn clears die [j]. *)
Lemma blank_splice (l : list Z) j :
  0 <= j -> 0 < die -> (j + 1) * die <= zlen l -> ztake (j * die) l = blank (j * die) ->
  ztake ((j + 1) * die) (splice (j * die) (blank die) l) = blank ((j + 1) * die).
Proof.
  intros J D L E. unfold splice. rewrite E. unfold blank.
  rewrite app_assoc, <- replicate_add.
  replace (Z.to_nat (j * die) + Z.to_nat die)%nat with (Z.to_nat ((j + 1) * die)) by nia.
  apply take_app_length'. by rewrite length_replicate.
Qed.

Lemma eraseChipDie_loop_spec k caps n j t res w :
  0 < die -> n * die = total -> total <= 2 ^ 31 -> 0 <= j -> j + Z.of_nat k = n -> ch_busy w = O ->
  ztake (j * die) (ch_contents w) = blank (j * die) -> (k = O -> 0 <= res) ->
  exists r w', eraseChipDie_loop fuel k fspi port caps n j die t res w = Some (r, w') /\
    (ch_reliable -> 0 <= r) /\ (0 <= r -> ch_busy w' = O /\ ch_contents w' = blank total).
Proof.
  intros D En Lt. revert j res w. induction k as [|k IH]; intros j res w J Ej Bz E Hr; cbn [eraseChipDie_loop].
  - exists res, w. split; [done|]. split; [auto|]. intros _. split; [done|].
    pose proof (ch_length w). rewrite take_ge in E by nia. rewrite E. f_equal. nia.
  - unfold EOK. destruct (nor_writeEnable_spec t w) as (r & w1 & -> & E1 & R1 & F1).
    cbn [mbind option_bind]. destruct (Z.ltb_spec r 0) as [N|P].
    { exists r, w1. split_and!; try done. lia. }
    destruct (F1 P) as [B1 L1].
    assert (exists r2 w2, (if (1 <? n) && negb (Z.land caps NOR_CAPS_EN4B =? 0)
        then nor_mode4ByteAddr fspi port 1 t w1 else (r, w1)) = (r2, w2) /\
        ch_contents w2 = ch_contents w /\ ch_wel w2 = true /\ ch_busy w2 = O /\ (ch_reliable -> 0 <= r2))
      as (r2 & w2 & -> & E2 & L2 & B2 & R2).
    { destruct (_ && _); [|exists r, w1; by split_and!].
      destruct (ch_mode4 t w1 B1) as (r2 & w2 & ? & ? & ? & ? & ?). exists r2, w2. split_and!; congruence || done. }
    destruct (Z.ltb_spec r2 0) as [N2|P2].
    { exists r2, w2. split_and!; try done. lia. }
    rewrite w32_small by nia.
    destruct (ch_erase_die (j * die) t w2 B2 L2) as (r3 & w3 & -> & R3 & F3); [nia|nia|by apply Z.mod_mul; lia|].
    destruct (Z.ltb_spec r3 0) as [N3|P3].
    { exists r3, w3. split_and!; try done. lia. }
    destruct (nor_waitBusy_spec t w3) as (r4 & w4 & -> & E4 & _ & R4 & F4). cbn [mbind option_bind].
    destruct (Z.ltb_spec r4 0) as [N4|P4].
    { exists r4, w4. split_and!; try done. lia. }
    apply IH; [lia|lia|by apply F4| |done].
    rewrite E4, (F3 P3), E2. pose proof (ch_length w). apply blank_splice; [lia|lia|nia|done].
Qed.

Definition nor_laws_of (D : 0 < die) (Lt : total <= 2 ^ 31) : NorLaws fuel fspi port total ssz psz die.
Proof.
  refine {| contents := ch_contents; idle w := ch_busy w = O; reliable := ch_reliable |}; [apply ch_length|..].
  - intros a t w _ A B M. by apply nor_eraseSector_spec.
  - intros a data t w _ A B M L. by apply nor_pageProgram_spec.
  - intros a n t w Bz A N B. by apply ch_read.
  - intros caps n t w Bz N En. unfold nor_eraseChipDie. apply eraseChipDie_loop_spec; try done; lia.
Defined.

(** C16. nor.c gives the driver what it needs: over any chip that follows the command
    set, erasing a sector or the chip, programming a page and reading come back
    after at most [max_busy] more readings of the status and do what [NorLaws]
    asks of them, failures included. *)
Theorem nor_laws :
  0 < die -> total <= 2 ^ 31 ->
  exists L : NorLaws fuel fspi port total ssz psz die,
    @contents _ _ _ _ _ _ _ _ _ L = ch_contents /\ (@reliable _ _ _ _ _ _ _ _ _ L <-> ch_reliable) /\
    forall w, @idle _ _ _ _ _ _ _ _ _ L w <-> ch_busy w = O.
Proof. intros D Lt. exists (nor_laws_of D Lt). by split_and!. Qed.

End chip.

(** ** A chip of sixteen bytes, busy for two readings after an erase or a program *)

Record chip := mk_chip { cp_bytes : list Z; cp_wel : bool; cp_busy : nat }.

(** Its contents, whatever list the record holds. *)
Definition chip_bytes (c : chip) : list Z := ztake 16 (cp_bytes c ++ blank 16).
Definition chip_busy (c : chip) : nat := Nat.min 2 (cp_busy c).

Definition chip_xfer (fspi : flexspi_t) (x : xferOp) (c : chip) : Z * list Z * chip :=
  match x_op x with
  | xfer_opCommand =>
      if x_seqIdx x =? fspi_writeEnable then (0, [], mk_chip (chip_bytes c) true (cp_busy c))
      else if x_seqIdx x =? fspi_eraseSector then
        (0, [], mk_chip (splice (x_addr x) (blank 4) (chip_bytes c)) false 2)
      else if x_seqIdx x =? fspi_eraseChip then
        (0, [], mk_chip (splice (x_addr x) (blank 16) (chip_bytes c)) false 2)
      else (0, [], c)
  | xfer_opRead n =>
      if x_seqIdx x =? fspi_readStatus then
        (1, [b2z (0 <? chip_busy c)%nat + 2 * b2z (cp_wel c)],
         mk_chip (chip_bytes c) (cp_wel c) (pred (chip_busy c)))
      else if x_seqIdx x =? fspi_readData then (n, zslice (x_addr x) n (chip_bytes c), c)
      else (n, [0xef; 0x40; 0x15], c)
  | xfer_opWrite data =>
      (zlen data, [], mk_chip (splice (x_addr x)
        (programmed (zslice (x_addr x) 2 (chip_bytes c)) data) (chip_bytes c)) false 2)
  end.

#[export] Instance chip_flexspi : Flexspi chip := {|
  flexspi_xferExec := chip_xfer;
  flexspi_lutUpdate _ _ _ c := c;
  flexspi_lutUpdateEntries _ _ _ _ _ c := c;
  flexspi_init f i m c := (EOK, mk_flexspi 0x60000000 i m [0; 0; 0; 0], c);
  flexspi_setSizeRegs _ c := c;
  flexspi_postinit _ c := c
|}.

Lemma chip_bytes_length c : zlen (chip_bytes c) = 16.
Proof. unfold chip_bytes, blank. rewrite length_take, length_app, length_replicate. lia. Qed.

(** Bytes of the right length are kept as they are. *)
Lemma chip_bytes_mk l b n : zlen l = 16 -> chip_bytes (mk_chip l b n) = l.
Proof. intros L. unfold chip_bytes. cbn [cp_bytes]. apply take_app_length'. lia. Qed.

Lemma untouched_splice {A} a n (xs l : list A) :
  0 <= a -> zlen xs = n -> a + n <= zlen l -> untouched a n l (splice a xs l).
Proof.
  intros P E L. split; [apply length_splice; lia|]. unfold splice. split.
  - rewrite take_app_length' by (rewrite length_take; lia). done.
  - rewrite app_assoc, drop_app_length' by (rewrite length_app, length_take; lia). f_equal. lia.
Qed.

Lemma length_blank n : 0 <= n -> zlen (blank n) = n.
Proof. intros. unfold blank. rewrite length_replicate. lia. Qed.

Lemma length_programmed old data : length data = length old -> length (programmed old data) = length old.
Proof. intros E. unfold programmed. rewrite length_zip_with. lia. Qed.

Definition chip_fspi : flexspi_t := mk_flexspi 0x60000000 1 1 [16; 0; 0; 0].

#[export] Instance sample_chip : NorChip chip_fspi 0 16 4 2 16.
Proof.
  refine {| ch_contents := chip_bytes; ch_wel := cp_wel; ch_busy := chip_busy; ch_reliable := True;
            max_busy := 2 |}; unfold nor_readStatus, nor_command, nor_xfer.
  - apply chip_bytes_length.
  - intros w. unfold chip_busy. lia.
  - intros t w. cbn -[chip_busy]. do 3 eexists. split; [reflexivity|]. cbn -[chip_busy]. rewrite chip_bytes_mk by apply chip_bytes_length.
    split_and!; try done; [unfold chip_busy; cbn [cp_busy]; lia|]. intros _. eexists. split; [done|].
    by destruct (chip_busy w), (cp_wel w).
  - intros t w B. cbn. do 2 eexists. split; [reflexivity|]. cbn. rewrite chip_bytes_mk by apply chip_bytes_length. done.
  - intros t w B. cbn. do 2 eexists. split; [reflexivity|]. by split_and!.
  - intros a t w B L A1 A2 A3. cbn. do 2 eexists. split; [reflexivity|].
    assert (zlen (splice a (blank 4) (chip_bytes w)) = 16).
    { rewrite length_splice; rewrite ?chip_bytes_length, ?length_blank; lia. }
    rewrite chip_bytes_mk by done. split_and!; try done.
    apply untouched_splice; rewrite ?chip_bytes_length, ?length_blank; lia.
  - intros a t w B L A1 A2 A3. cbn. do 2 eexists. split; [reflexivity|].
    rewrite chip_bytes_mk; [done|].
    rewrite length_splice; rewrite ?chip_bytes_length, ?length_blank; lia.
  - intros a data t w B L A1 A2 A3 D. cbn. do 3 eexists. split; [reflexivity|].
    pose proof (length_zslice a 2 (chip_bytes w) A1 ltac:(lia)) as Es. rewrite chip_bytes_length in Es.
    specialize (Es A2).
    assert (Ep : zlen (programmed (zslice a 2 (chip_bytes w)) data) = 2) by (rewrite length_programmed; lia).
    assert (zlen (splice a (programmed (zslice a 2 (chip_bytes w)) data) (chip_bytes w)) = 16).
    { rewrite length_splice; rewrite ?chip_bytes_length, ?Ep; lia. }
    rewrite chip_bytes_mk by done. split_and!; try done; [|lia].
    apply untouched_splice; rewrite ?chip_bytes_length, ?Ep; lia.
  - intros a n t w B A1 A2 A3. cbn. do 3 eexists. split; [reflexivity|].
    split_and!; try done. rewrite length_zslice; rewrite ?chip_bytes_length; lia.
Defined.

Lemma nor_laws_witness : exists L : NorLaws 3 chip_fspi 0 16 4 2 16, @contents _ _ _ _ _ _ _ _ _ L = chip_bytes.
Proof.
  destruct (nor_laws (C := sample_chip) chip_fspi 0 16 4 2 16 3 (le_n 3) ltac:(lia) ltac:(lia)) as (L & E & _).
  exists L. exact E.
Defined.

(** Every chip of the table has the layout the driver counts on, and an
    identifier of its own. *)
Definition info_ok (info : nor_info) : bool :=
  (pageSz info =? NOR_PAGESZ_MAX) && (sectorSz info =? NOR_SECTORSZ_MAX) &&
  (0 <? totalSz info) && (totalSz info <=? 2 ^ 31) && (totalSz info mod sectorSz info =? 0).

Lemma flashInfo_ok : Forall (fun info => info_ok info = true) flashInfo /\ NoDup (map jedecId flashInfo).
Proof. split; [by repeat constructor|]. apply (bool_decide_unpack _). by vm_compute. Qed.
