(* ===== verification/FlashDrv.v ===== *)
(** * The NOR flash driver with its sector buffer (src/devices/flash-imxrt/flashdrv.c)

    Writes go to a buffer that holds one sector; [flashdrv_sync] erases the sector
    of the flash and programs the pages of the buffer that are not blank.
    [flash_view] is what the flash holds once the buffer is written back: the
    theorems relate the operations to it, over any chip that satisfies [NorLaws].
    Addresses and sizes are 32 bits wide on these targets.  [None] is a NULL
    pointer read through, or no result within [fuel] readings of the status. *)

From S2P Require Import Prelude Mem CString Devs Nor.

(** The platform: the number of controllers and the ports in use
    (hal/armv7m/imxrt, peripherals.h). *)
Class FlashConfig := {
  FLASH_NO : Z;
  FLEXSPI1_PORT_MASK : Z;
  FLEXSPI2_PORT_MASK : Z
}.

Definition minorToInstance `{FlashConfig} (minor : Z) : Z :=
  if minor =? 0 then 1 else if (minor =? 1) && (1 <? FLASH_NO) then 2 else -1.

Definition minorToPortMask `{FlashConfig} (minor : Z) : Z :=
  if minor =? 0 then FLEXSPI1_PORT_MASK
  else if (minor =? 1) && (1 <? FLASH_NO) then FLEXSPI2_PORT_MASK
  else 0.

Definition minorToDevice `{FlashConfig} (devs : list nor_device) (minor : Z) : option nor_device :=
  if FLASH_NO <=? minor then None else devs !! Z.to_nat minor.

Definition get_sectorIdFromAddress (info : nor_info) (addr : Z) : Z := s32 (addr / sectorSz info).

Definition get_sectorAddress (info : nor_info) (addr : Z) : Z := Z.ldiff addr (w32 (sectorSz info - 1)).

(** The field updates of the functions below. *)
Definition set_addrs (d : nor_device) (prev sync : Z) : nor_device :=
  mk_dev (nd_nor d) (nd_fspi d) (nd_port d) (nd_active d) (nd_timeout d) prev sync (sectorBuf d).
Definition set_buf (d : nor_device) (buf : list Z) : nor_device :=
  mk_dev (nd_nor d) (nd_fspi d) (nd_port d) (nd_active d) (nd_timeout d) (sectorPrevAddr d) (sectorSyncAddr d) buf.

Section flash.
  Context {W : Type} `{Flexspi W} (fuel : nat).

(** The size of the flash the controller was told. *)
Definition flash_size (d : nor_device) : Z := default 0 (fs_slFlashSz (nd_fspi d) !! Z.to_nat (nd_port d)).

(** The loop over the pages of [flashdrv_sync]. *)
Fixpoint sync_pages (k : nat) (d : nor_device) (info : nor_info) (sectorAddr ofs : Z) (w : W)
    : option (Z * W) :=
  match k with
  | O => None
  | S k =>
      if ofs <? sectorSz info then
        let page := zslice ofs (pageSz info) (sectorBuf d) in
        if forallb (fun c => c =? NOR_ERASED_STATE) page then sync_pages k d info sectorAddr (ofs + pageSz info) w
        else
          '(res, w) ← nor_pageProgram fuel (nd_fspi d) (nd_port d) (w32 (sectorAddr + ofs)) page (nd_timeout d) w;
          if res <? 0 then Some (res, w) else sync_pages k d info sectorAddr (ofs + pageSz info) w
      else Some (EOK, w)
  end.

(** The sector address is computed before the device is checked: a missing
    device, or one no chip was found for, is read through a NULL pointer. *)
Definition flashdrv_sync (d : nor_device) (w : W) : option (Z * nor_device * W) :=
  info ← nd_nor d;
  let sectorAddr := get_sectorAddress info (sectorPrevAddr d) in
  if nd_active d =? 0 then Some (- ENXIO, d, w)
  else if sectorPrevAddr d =? w32 (-1) then Some (EOK, d, w)
  else if sectorPrevAddr d =? sectorSyncAddr d then Some (EOK, d, w)
  else
    '(res, w) ←
      (if forallb (fun c => c =? NOR_ERASED_STATE) (ztake (sectorSz info) (sectorBuf d)) then Some (EOK, w)
       else nor_eraseSector fuel (nd_fspi d) (nd_port d) sectorAddr (nd_timeout d) w);
    if res <? 0 then Some (res, d, w)
    else
      '(res, w) ← sync_pages (S (Z.to_nat (sectorSz info))) d info sectorAddr 0 w;
      if res <? 0 then Some (res, d, w)
      else Some (sectorSz info, set_addrs d (sectorPrevAddr d) (sectorPrevAddr d), w).

Definition bufferSync (d : nor_device) (dstAddr isLast : Z) (w : W) : option (Z * nor_device * W) :=
  info ← nd_nor d;
  if get_sectorIdFromAddress info dstAddr =? get_sectorIdFromAddress info (sectorPrevAddr d) then Some (0, d, w)
  else
    '(res, d, w) ← flashdrv_sync d w;
    if res <? 0 then Some (res, d, w)
    else
      let d := if totalSz info <=? dstAddr then set_addrs d (w32 (-1)) (w32 (-1)) else d in
      if negb (isLast =? 0) then Some (res, d, w)
      else if totalSz info <? w32 (dstAddr + sectorSz info) then Some (- EIO, d, w)
      else
        let '(res, data, w) :=
          nor_readData (nd_fspi d) (nd_port d) (get_sectorAddress info dstAddr) (sectorSz info) (nd_timeout d) w in
        let d := set_buf d (splice 0 data (sectorBuf d)) in
        if res <? 0 then Some (res, d, w) else Some (res, set_addrs d dstAddr (sectorSyncAddr d), w).

(** The loop of [flashdrv_write]: a negative result, or 0 with the address the
    loop has reached. *)
Fixpoint write_chunks (k : nat) (d : nor_device) (dstAddr : Z) (srcPtr : list Z) (w : W)
    : option (Z * Z * nor_device * W) :=
  match k with
  | O => None
  | S k =>
      if zlen srcPtr <=? 0 then Some (0, dstAddr, d, w)
      else
        '(res, d, w) ← bufferSync d dstAddr 0 w;
        if res <? 0 then Some (res, dstAddr, d, w)
        else
          info ← nd_nor d;
          let chunkSz := zlen srcPtr in
          let ofs := Z.land dstAddr (w32 (sectorSz info - 1)) in
          let chunkSz := if w32 (sectorSz info - ofs) <? chunkSz then w32 (sectorSz info - ofs) else chunkSz in
          let d := set_buf d (splice ofs (ztake chunkSz srcPtr) (sectorBuf d)) in
          write_chunks k d (w32 (dstAddr + chunkSz)) (zdrop chunkSz srcPtr) w
  end.

Definition flashdrv_write (d : nor_device) (dstAddr : Z) (data : option (list Z)) (w : W)
    : option (Z * nor_device * W) :=
  if nd_active d =? 0 then Some (- ENXIO, d, w)
  else
    match data with
    | None => Some (- EINVAL, d, w)
    | Some data =>
        if flash_size d <? w32 (dstAddr + zlen data) then Some (- EINVAL, d, w)
        else if zlen data =? 0 then Some (0, d, w)
        else
          '(res, dstAddr, d, w) ← write_chunks (S (length data)) d dstAddr data w;
          if res <? 0 then Some (res, d, w)
          else
            '(res, d, w) ← bufferSync d dstAddr 1 w;
            if res <? 0 then Some (res, d, w) else Some (zlen data, d, w)
    end.

(** The result and the bytes stored to [data], which is not NULL. *)
Definition flashdrv_read (d : nor_device) (addr size timeout : Z) (w : W) : Z * list Z * W :=
  if nd_active d =? 0 then (- ENXIO, [], w)
  else if flash_size d <? w32 (addr + size) then (- EINVAL, [], w)
  else if size =? 0 then (0, [], w)
  else
    let timeout := if timeout =? 0 then nd_timeout d else timeout in
    nor_readData (nd_fspi d) (nd_port d) addr size timeout w.

(** The loop of [flashdrv_erase]: the result and [len]. *)
Fixpoint erase_sectors (k : nat) (d : nor_device) (info : nor_info) (addr end_ len : Z) (w : W)
    : option (Z * W) :=
  match k with
  | O => None
  | S k =>
      if addr <? end_ then
        '(res, w) ← nor_eraseSector fuel (nd_fspi d) (nd_port d) addr (nd_timeout d) w;
        if res <? 0 then Some (res, w)
        else erase_sectors k d info (w32 (addr + sectorSz info)) end_ (len + sectorSz info) w
      else Some (len, w)
  end.

Definition flashdrv_erase (d : nor_device) (addr len : Z) (w : W) : option (Z * nor_device * W) :=
  if nd_active d =? 0 then Some (- ENXIO, d, w)
  else if (flash_size d <? w32 (addr + len)) && negb (len =? w32 (-1)) then Some (- EINVAL, d, w)
  else if len =? 0 then Some (0, d, w)
  else
    let d := set_addrs d (w32 (-1)) (w32 (-1)) in
    info ← nd_nor d;
    if len =? w32 (-1) then
      let len := flash_size d in
      let dieCount :=
        if negb (Z.land (capFlags info) NOR_CAPS_DIE4 =? 0) then 4
        else if negb (Z.land (capFlags info) NOR_CAPS_DIE2 =? 0) then 2
        else 1 in
      '(res, w) ← nor_eraseChipDie fuel (nd_fspi d) (nd_port d) (capFlags info) dieCount (len / dieCount)
        (nd_timeout d) w;
      if res <? 0 then Some (res, d, w) else Some (len, d, w)
    else
      let addr_mask := w32 (sectorSz info - 1) in
      let end_ := Z.ldiff (w32 (addr + len + addr_mask)) addr_mask in
      let addr := Z.ldiff addr addr_mask in
      '(res, w) ← erase_sectors (S (Z.to_nat (end_ - addr))) d info addr end_ 0 w;
      Some (res, d, w).

(** The result and [*a]. *)
Definition flashdrv_map (d : nor_device) (addr sz mode memaddr memsz memmode : Z) : Z * option Z :=
  if nd_active d =? 0 then (- ENXIO, None)
  else
    let fSz := flash_size d in
    let fStart := fs_ahbAddr (nd_fspi d) in
    if fSz <? w32 (addr + sz) then (- EINVAL, Some fStart)
    else if (fStart <=? memaddr) && (w32 (memaddr + memsz) <=? w32 (fStart + fSz)) then (dev_isMappable, Some fStart)
    else if negb (Z.land mode memmode =? mode) then (- EINVAL, Some fStart)
    else (dev_isNotMappable, Some fStart).

(** The result and [*outSz]. *)
Definition flashdrv_control (d : nor_device) (cmd : Z) : option (Z * option Z) :=
  if nd_active d =? 0 then Some (- ENXIO, None)
  else if cmd =? DEV_CONTROL_GETPROP_TOTALSZ then Some (EOK, Some (flash_size d))
  else if cmd =? DEV_CONTROL_GETPROP_BLOCKSZ then info ← nd_nor d; Some (EOK, Some (sectorSz info))
  else Some (- ENOSYS, None).

Definition flashdrv_done (d : nor_device) (w : W) : option (Z * nor_device * W) :=
  '(res, d, w) ← flashdrv_sync d w;
  if res <? EOK then Some (res, d, w)
  else if nd_active d =? 0 then Some (- ENXIO, d, w)
  else
    let res := flexspi_deinit (nd_fspi d) in
    if res <? EOK then Some (res, d, w) else Some (EOK, d, w).

(** ** Set-up *)

Definition set_active (d : nor_device) (active : Z) : nor_device :=
  mk_dev (nd_nor d) (nd_fspi d) (nd_port d) active (nd_timeout d) (sectorPrevAddr d) (sectorSyncAddr d) (sectorBuf d).
Definition set_nor (d : nor_device) (info : nor_info) : nor_device :=
  mk_dev (Some info) (nd_fspi d) (nd_port d) (nd_active d) (nd_timeout d) (sectorPrevAddr d) (sectorSyncAddr d)
    (sectorBuf d).
Definition set_fspi (d : nor_device) (fspi : flexspi_t) : nor_device :=
  mk_dev (nd_nor d) fspi (nd_port d) (nd_active d) (nd_timeout d) (sectorPrevAddr d) (sectorSyncAddr d) (sectorBuf d).

(** [dev->nor->init(dev)] *)
Definition run_init (i : option nor_init) (d : nor_device) (w : W) : option (Z * W) :=
  match i with
  | None => Some (0, w)
  | Some nor_issiInit_ => nor_issiInit fuel d w
  | Some nor_mxQuadEnable_ => nor_mxQuadEnable fuel d w
  end.

(** The loop of [flashdrv_init] over the ports, [k] left. *)
Fixpoint init_ports (k : nat) (d : nor_device) (portMask port : Z) (w : W) : option (Z * nor_device * W) :=
  match k with
  | O => Some (- ENXIO, d, w)
  | S k =>
      let d := nor_deviceInit d port 0 NOR_DEFAULT_TIMEOUT in
      if Z.land portMask (Z.shiftl 1 port) =? 0 then init_ports k d portMask (port + 1) w
      else
        let '(res, found, w) := nor_probe (nd_fspi d) port w in
        match found with
        | None => init_ports k d portMask (port + 1) w
        | Some (info, _) =>
            let d := set_active (set_nor d info) 1 in
            '(res, w) ← run_init (ni_init info) d w;
            if res <? 0 then Some (res, set_active d 0, w)
            else
              let w := flexspi_lutUpdateEntries (nd_fspi d) 0 (ni_lut info) 0 LUT_ENTRIES w in
              let flashSz := <[Z.to_nat port := totalSz info]> (replicate FLEXSPI_PORTS 0) in
              let d := set_fspi d (flexspi_setFlashSize (nd_fspi d) flashSz) in
              let w := flexspi_setSizeRegs (nd_fspi d) w in
              let w := flexspi_postinit (nd_fspi d) w in
              Some (EOK, d, w)
        end
  end.

Definition flashdrv_init `{FlashConfig} (minor : Z) (d : nor_device) (w : W) : option (Z * nor_device * W) :=
  let '(res, fspi, w) := flexspi_init (nd_fspi d) (minorToInstance minor) (minorToPortMask minor) w in
  let d := set_fspi d fspi in
  if res <? EOK then Some (res, d, w)
  else init_ports FLEXSPI_PORTS d (minorToPortMask minor) 0 w.

(** The operations by minor number: all but the two that write the buffer back
    refuse a minor without a device. *)
Definition at_minor `{FlashConfig} {A} (missing : option A) (f : nor_device -> option (A * nor_device * W))
    (devs : list nor_device) (minor : Z) (w : W) : option (A * list nor_device * W) :=
  match minorToDevice devs minor with
  | Some d => '(res, d, w) ← f d; Some (res, <[Z.to_nat minor := d]> devs, w)
  | None => res ← missing; Some (res, devs, w)
  end.

Definition fdrv_sync `{FlashConfig} (devs : list nor_device) (minor : Z) (w : W) :=
  at_minor None (fun d => flashdrv_sync d w) devs minor w.
Definition fdrv_done `{FlashConfig} (devs : list nor_device) (minor : Z) (w : W) :=
  at_minor None (fun d => flashdrv_done d w) devs minor w.
Definition fdrv_write `{FlashConfig} (devs : list nor_device) (minor dstAddr : Z) (data : option (list Z)) (w : W) :=
  at_minor (Some (- ENXIO)) (fun d => flashdrv_write d dstAddr data w) devs minor w.
Definition fdrv_erase `{FlashConfig} (devs : list nor_device) (minor addr len : Z) (w : W) :=
  at_minor (Some (- ENXIO)) (fun d => flashdrv_erase d addr len w) devs minor w.
Definition fdrv_init `{FlashConfig} (devs : list nor_device) (minor : Z) (w : W) :=
  at_minor (Some (- ENXIO)) (fun d => flashdrv_init minor d w) devs minor w.

End flash.

(** ** What the buffer stands for *)

Lemma Forall_blank n : Forall is_byte (blank n).
Proof. apply Forall_replicate. by split. Qed.

(** Programming blank bytes stores the data. *)
Lemma programmed_blank data n : Forall is_byte data -> zlen data = n -> programmed (blank n) data = data.
Proof.
  intros B <-. unfold programmed, blank. rewrite Nat2Z.id. induction B as [|c l [H1 H2] _ IH]; [done|].
  cbn [length replicate zip_with]. f_equal; [|exact IH].
  change NOR_ERASED_STATE with (Z.ones 8). rewrite Z.land_comm, Z.land_ones by lia. apply Z.mod_small. lia.
Qed.

Lemma all_erased_spec n l :
  zlen l = n -> forallb (fun c => c =? NOR_ERASED_STATE) l = true <-> l = blank n.
Proof.
  intros <-. unfold blank. rewrite Nat2Z.id, forallb_forall. split.
  - intros E. apply list_eq. intros i. destruct (l !! i) as [c|] eqn:El.
    + pose proof (E c) as Ec. rewrite Z.eqb_eq in Ec.
      rewrite Ec by (apply list_elem_of_In; by eapply list_elem_of_lookup_2).
      symmetry. apply lookup_replicate. split; [done|]. by eapply lookup_lt_Some.
    + symmetry. apply lookup_replicate_None. by apply lookup_ge_None.
  - intros -> c In. apply Z.eqb_eq. by apply repeat_spec in In as ->
      || (apply list_elem_of_In, elem_of_replicate in In; apply In).
Qed.

Section view.
  Context (total ssz psz : Z) (info : nor_info).

(** The geometry of the chips the driver is made for. *)
Definition geometry : Prop :=
  (exists j, 1 <= j <= 12 /\ ssz = 2 ^ j) /\ (0 < psz /\ ssz mod psz = 0) /\
  (0 < total <= 2 ^ 31 /\ total mod ssz = 0) /\
  totalSz info = total /\ sectorSz info = ssz /\ pageSz info = psz.

(** First address of the sector of [a]. *)
Definition sect (a : Z) : Z := a - a mod ssz.

(** An active device on that chip; no sector is buffered at address -1. *)
Definition dev_ok (fspi : flexspi_t) (port : Z) (d : nor_device) : Prop :=
  nd_nor d = Some info /\ nd_fspi d = fspi /\ nd_port d = port /\ nd_active d <> 0 /\ flash_size d = total /\
  zlen (sectorBuf d) = NOR_SECTORSZ_MAX /\ Forall is_byte (sectorBuf d) /\
  ((sectorPrevAddr d = 2 ^ 32 - 1 /\ sectorSyncAddr d = 2 ^ 32 - 1) \/ 0 <= sectorPrevAddr d < total).

(** The buffer holds bytes the flash does not have yet. *)
Definition dirty (d : nor_device) : bool :=
  negb (sectorPrevAddr d =? 2 ^ 32 - 1) && negb (sectorPrevAddr d =? sectorSyncAddr d).

(** The flash with the buffer written back. *)
Definition flash_view (d : nor_device) (l : list Z) : list Z :=
  if dirty d then splice (sect (sectorPrevAddr d)) (ztake ssz (sectorBuf d)) l else l.

(** A blank buffer is only written back correctly when the sector is blank. *)
Definition flushable (d : nor_device) (l : list Z) : Prop :=
  dirty d = true -> ztake ssz (sectorBuf d) = blank ssz -> zslice (sect (sectorPrevAddr d)) ssz l = blank ssz.

(** A write to the sector of [dst] is kept: the buffer does not hold that sector
    as already written back. *)
Definition fresh (d : nor_device) (dst : Z) : Prop :=
  sectorPrevAddr d = 2 ^ 32 - 1 \/ dirty d = true \/ sect (sectorPrevAddr d) <> sect dst.

Context (G : geometry).

Lemma ssz_range : 2 <= ssz <= 4096 /\ 2 ^ 32 mod ssz = 0.
Proof.
  destruct G as [(j & J & ->) _]. split.
  - change 4096 with (2 ^ 12). split; [apply (Z.pow_le_mono_r 2 1 j); lia|apply Z.pow_le_mono_r; lia].
  - apply Z.mod_divide; [lia|]. exists (2 ^ (32 - j)). rewrite <- Z.pow_add_r by lia. f_equal. lia.
Qed.

Lemma sect_spec a : 0 <= a -> 0 <= sect a <= a /\ a < sect a + ssz /\ sect a mod ssz = 0 /\ sect a = ssz * (a / ssz).
Proof.
  intros A. pose proof ssz_range. unfold sect. pose proof (Z.mod_pos_bound a ssz ltac:(lia)).
  pose proof (Z.div_mod a ssz ltac:(lia)). pose proof (Z.div_pos a ssz A ltac:(lia)).
  split_and!; try lia; try nia.
  rewrite Zminus_mod, Z.mod_mod, Z.sub_diag by lia. apply Z.mod_0_l. lia.
Qed.

Lemma get_sectorAddress_spec a : 0 <= a -> get_sectorAddress info a = sect a.
Proof.
  intros A. destruct (sect_spec a A) as (_ & _ & _ & ->).
  destruct G as [(j & J & Es) (_ & _ & _ & E & _)]. unfold get_sectorAddress. rewrite E, Es.
  pose proof ssz_range. rewrite w32_small by lia. replace (2 ^ j - 1) with (Z.ones j) by (rewrite Z.ones_equiv; lia).
  rewrite Z.ldiff_ones_r, Z.shiftl_mul_pow2, Z.shiftr_div_pow2 by lia. lia.
Qed.

Lemma get_offset_spec a : Z.land a (w32 (sectorSz info - 1)) = a mod ssz.
Proof.
  destruct G as [(j & J & Es) (_ & _ & _ & E & _)]. rewrite E, Es.
  pose proof ssz_range. rewrite w32_small by lia. replace (2 ^ j - 1) with (Z.ones j) by (rewrite Z.ones_equiv; lia).
  apply Z.land_ones. lia.
Qed.

Lemma sector_id_spec a : 0 <= a < 2 ^ 32 -> get_sectorIdFromAddress info a = a / ssz.
Proof.
  intros A. destruct G as [_ (_ & _ & _ & E & _)]. unfold get_sectorIdFromAddress. rewrite E.
  pose proof ssz_range. apply s32_small. split; [apply Z.div_pos; lia|].
  apply Z.div_lt_upper_bound; lia.
Qed.

Lemma same_sector a b :
  0 <= a < 2 ^ 32 -> 0 <= b < 2 ^ 32 ->
  (get_sectorIdFromAddress info a =? get_sectorIdFromAddress info b) = bool_decide (sect a = sect b).
Proof.
  intros A B. rewrite !sector_id_spec by done. pose proof ssz_range.
  destruct (sect_spec a ltac:(lia)) as (_ & _ & _ & ->). destruct (sect_spec b ltac:(lia)) as (_ & _ & _ & ->).
  destruct (Z.eqb_spec (a / ssz) (b / ssz)) as [->|N]; symmetry; [by apply bool_decide_true|].
  apply bool_decide_false. intros E. apply N. nia.
Qed.

(** The address -1 is in no sector of the chip. *)
Lemma sect_none a : 0 <= a <= total -> sect a <> sect (2 ^ 32 - 1).
Proof.
  intros A. pose proof ssz_range as [R M]. destruct G as (_ & _ & (T & _) & _).
  destruct (sect_spec a ltac:(lia)) as (B & _). unfold sect at 2.
  assert ((2 ^ 32 - 1) mod ssz = ssz - 1).
  { rewrite Zminus_mod, M, (Z.mod_small 1) by lia. rewrite <- (Z.mod_add (0 - 1) 1) by lia. rewrite Z.mod_small; lia. }
  lia.
Qed.

(** A sector of the chip lies within it. *)
Lemma sect_within a : 0 <= a < total -> sect a + ssz <= total.
Proof.
  intros A. pose proof ssz_range. destruct G as (_ & _ & (T & M) & _).
  destruct (sect_spec a ltac:(lia)) as (_ & _ & _ & ->). apply Z.mod_divide in M as [q ->]; [|lia].
  assert (a / ssz < q) by (apply Z.div_lt_upper_bound; lia). nia.
Qed.

Lemma dirty_range fspi port d : dev_ok fspi port d -> dirty d = true -> 0 <= sectorPrevAddr d < total.
Proof.
  intros (_ & _ & _ & _ & _ & _ & _ & [[E _]|?]); [|done]. unfold dirty. rewrite E. cbn. done.
Qed.
End view.

(** ** The operations *)

Lemma untouched_sub {A} a n b m (l l' l'' : list A) :
  0 <= a -> a <= b -> 0 <= m -> b + m <= a + n ->
  untouched a n l l' -> untouched b m l' l'' -> untouched a n l l''.
Proof.
  intros A0 AB M BN (L1 & T1 & D1) (L2 & T2 & D2). split; [lia|]. split.
  - rewrite <- T1. assert (E : forall x : list A, ztake a x = ztake a (ztake b x))
      by (intros; rewrite take_take; f_equal; lia). by rewrite (E l''), (E l'), T2.
  - rewrite <- D1. assert (E : forall x : list A, zdrop (a + n) x = zdrop (a + n - (b + m)) (zdrop (b + m) x))
      by (intros; rewrite drop_drop; f_equal; lia). by rewrite (E l''), (E l'), D2.
Qed.

(** A sector whose first [ofs] bytes are those of [buf] and the others blank. *)
Definition half_done (ofs ssz : Z) (buf : list Z) : list Z := ztake ofs buf ++ blank (ssz - ofs).

Lemma half_done_length ofs ssz buf : 0 <= ofs <= ssz -> ofs <= zlen buf -> zlen (half_done ofs ssz buf) = ssz.
Proof.
  intros. unfold half_done. rewrite length_app, length_take. pose proof (length_blank (ssz - ofs)). lia.
Qed.

Lemma half_done_page ofs n ssz (buf : list Z) :
  0 <= ofs -> 0 <= n -> ofs + n <= ssz -> ssz <= zlen buf ->
  splice ofs (zslice ofs n buf) (half_done ofs ssz buf) = half_done (ofs + n) ssz buf.
Proof.
  intros. pose proof (length_zslice ofs n buf ltac:(lia) ltac:(lia) ltac:(lia)).
  assert (zlen (ztake ofs buf) = ofs) by (rewrite length_take; lia).
  pose proof (zslice_app 0 ofs n buf ltac:(lia) ltac:(lia) ltac:(lia)) as Ea.
  rewrite !zslice_0, Z.add_0_l in Ea. unfold half_done, splice. rewrite Ea, <- app_assoc.
  rewrite take_app_length' by lia. f_equal. f_equal. rewrite drop_app_ge by lia. unfold blank.
  rewrite drop_replicate. f_equal. lia.
Qed.

Lemma half_done_blank ofs n ssz (buf : list Z) :
  0 <= ofs -> 0 <= n -> ofs + n <= ssz -> ofs <= zlen buf -> zslice ofs n (half_done ofs ssz buf) = blank n.
Proof.
  intros. unfold zslice, half_done. rewrite drop_app_length' by (rewrite length_take; lia).
  unfold blank. rewrite take_replicate. f_equal. lia.
Qed.

Section ops.
  Context {W : Type} `{F : Flexspi W} (fuel : nat) (fspi : flexspi_t) (port total ssz psz die : Z).
  Context {L : NorLaws fuel fspi port total ssz psz die} (info : nor_info).
  Context (G : geometry total ssz psz info).

Abbreviation ok d := (dev_ok total info fspi port d).
Abbreviation sect := (sect ssz).
Abbreviation view d l := (flash_view ssz d l).

(** Programming the pages from [ofs] on completes the sector. *)
Lemma sync_pages_spec k d base ofs l w :
  ok d -> idle w -> 0 <= base -> base mod ssz = 0 -> base + ssz <= total -> zlen l = total ->
  0 <= ofs <= ssz -> ofs mod psz = 0 -> (Z.to_nat (ssz - ofs) < k)%nat ->
  contents w = splice base (half_done ofs ssz (sectorBuf d)) l ->
  exists r w', sync_pages fuel k d info base ofs w = Some (r, w') /\
    untouched base ssz l (contents w') /\ (reliable -> 0 <= r) /\
    (0 <= r -> idle w' /\ contents w' = splice base (ztake ssz (sectorBuf d)) l).
Proof.
  intros D. revert ofs w. induction k as [|k IH]; intros ofs w I B Bm Bt Ll Lo M K E; [lia|].
  pose proof D as (Dn & Df & Dp & Da & Dz & Db & Dy & _). cbn [sync_pages].
  destruct (ssz_range _ _ _ _ G) as [R _].
  destruct G as (_ & [P1 P2] & (T1 & T2) & _ & -> & ->). unfold NOR_SECTORSZ_MAX in Db.
  pose proof (half_done_length ofs ssz (sectorBuf d) ltac:(lia) ltac:(lia)) as Lh.
  assert (U : untouched base ssz l (contents w)) by (rewrite E; apply untouched_splice; lia).
  destruct (Z.ltb_spec ofs ssz) as [O|O].
  2: { exists EOK, w. split; [done|]. split; [done|]. split; [done|]. intros _. split; [done|].
       rewrite E. unfold half_done. replace ofs with ssz by lia. rewrite Z.sub_diag. cbn. by rewrite app_nil_r. }
  assert (Op : ofs + psz <= ssz).
  { apply Z.mod_divide in M as [a Ea]; [|lia]. apply Z.mod_divide in P2 as [b Eb]; [|lia].
    assert (a < b) by (apply (Z.mul_lt_mono_pos_r psz); lia). rewrite Ea, Eb.
    transitivity ((a + 1) * psz); [lia|]. apply Z.mul_le_mono_nonneg_r; lia. }
  set (page := zslice ofs psz (sectorBuf d)).
  assert (Lp : zlen page = psz) by (apply length_zslice; lia).
  assert (Nm : (ofs + psz) mod psz = 0) by (rewrite <- (Z.mul_1_l psz) at 1; rewrite Z.mod_add; lia).
  assert (Next : splice (base + ofs) page (contents w) = splice base (half_done (ofs + psz) ssz (sectorBuf d)) l).
  { rewrite E, splice_into by lia. f_equal. replace (base + ofs - base) with ofs by lia. by apply half_done_page; lia. }
  assert (Es : zslice (base + ofs) psz (contents w) = blank psz).
  { rewrite E, zslice_splice_inner by lia. replace (base + ofs - base) with ofs by lia. by apply half_done_blank; lia. }
  destruct (forallb _ page) eqn:Ea.
  - apply (IH (ofs + psz) w); try done; try lia. rewrite <- Next.
    apply (all_erased_spec psz) in Ea; [|done]. rewrite Ea, <- Es. symmetry.
    apply splice_zslice; [lia..|]. rewrite contents_length. lia.
  - assert (Am : (base + ofs) mod psz = 0).
    { apply Z.mod_divide in Bm as [a ->]; [|lia]. apply Z.mod_divide in P2 as [b ->]; [|lia].
      apply Z.mod_divide in M as [c ->]; [|lia].
      replace (a * (b * psz) + c * psz) with ((a * b + c) * psz) by ring. apply Z.mod_mul. lia. }
    rewrite Df, Dp, w32_small by lia.
    destruct (program_law (base + ofs) page (nd_timeout d) w I ltac:(lia) ltac:(lia) Am Lp)
      as (r & w1 & -> & U1 & R1 & F1). cbn [mbind option_bind].
    assert (U' : untouched base ssz l (contents w1)).
    { eapply (untouched_sub base ssz (base + ofs) psz); [lia..|exact U|exact U1]. }
    destruct (Z.ltb_spec r 0) as [N|N]; [exists r, w1; split_and!; try done; lia|].
    destruct (F1 N) as [I1 E1]. apply (IH (ofs + psz) w1); try done; try lia. rewrite <- Next, E1, Es.
    f_equal. apply programmed_blank; [by apply Forall_zslice|done].
Qed.

(** Writing the buffer back: the flash becomes the view; a failure disturbs the
    sector of the buffer at most. *)
Lemma flashdrv_sync_spec d w :
  ok d -> idle w -> flushable ssz d (contents w) ->
  exists r d' w', flashdrv_sync fuel d w = Some (r, d', w') /\ (reliable -> 0 <= r) /\
    (if dirty d then untouched (sect (sectorPrevAddr d)) ssz (contents w) (contents w')
     else contents w' = contents w) /\
    (0 <= r -> idle w' /\ contents w' = view d (contents w) /\ ok d' /\ dirty d' = false /\
      sectorPrevAddr d' = sectorPrevAddr d /\ (sectorPrevAddr d = 2 ^ 32 - 1 -> d' = d)).
Proof.
  intros D I Fl. pose proof D as (Dn & Df & Dp & Da & Dz & Db & Dy & Dr).
  pose proof (ssz_range _ _ _ _ G) as [R _]. unfold NOR_SECTORSZ_MAX in Db.
  unfold flashdrv_sync. rewrite Dn. cbn [mbind option_bind].
  destruct (Z.eqb_spec (nd_active d) 0); [done|]. change (w32 (-1)) with (2 ^ 32 - 1).
  unfold flash_view. destruct (dirty d) eqn:Ed.
  2: { exists EOK, d, w. split; [|by split_and!]. unfold dirty in Ed.
       destruct (Z.eqb_spec (sectorPrevAddr d) (2 ^ 32 - 1)); [done|].
       by destruct (Z.eqb_spec (sectorPrevAddr d) (sectorSyncAddr d)). }
  pose proof (dirty_range _ _ _ _ _ D Ed) as Pr.
  pose proof Ed as Ed'. unfold dirty in Ed'. apply andb_prop in Ed' as [->%negb_true_iff ->%negb_true_iff].
  assert (Si : sectorSz info = ssz) by apply G.
  set (base := sect (sectorPrevAddr d)).
  assert (0 <= base /\ base mod ssz = 0 /\ base + ssz <= total) as (B1 & B2 & B3).
  { destruct (sect_spec _ _ _ _ G (sectorPrevAddr d) ltac:(lia)) as (? & _ & ? & _).
    pose proof (sect_within _ _ _ _ G _ Pr). unfold base. split_and!; (done || lia). }
  rewrite (get_sectorAddress_spec _ _ _ _ G) by lia. fold base. rewrite Si.
  assert (Eb : zlen (ztake ssz (sectorBuf d)) = ssz) by (rewrite length_take; lia).
  assert (Step : exists r w1, (if forallb (fun c => Z.eqb c NOR_ERASED_STATE) (ztake ssz (sectorBuf d))
      then Some (EOK, w) else nor_eraseSector fuel (nd_fspi d) (nd_port d) base (nd_timeout d) w) = Some (r, w1) /\
      untouched base ssz (contents w) (contents w1) /\ (reliable -> 0 <= r) /\
      (0 <= r -> idle w1 /\ contents w1 = splice base (blank ssz) (contents w))).
  { destruct (forallb _ _) eqn:Ea; [|rewrite Df, Dp; by apply erase_law].
    exists EOK, w. split_and!; try done. intros _. split; [done|]. apply (all_erased_spec ssz) in Ea; [|done].
    rewrite <- (Fl Ed Ea). symmetry. apply splice_zslice; [lia..|]. rewrite contents_length. lia. }
  destruct Step as (r & w1 & -> & U1 & R1 & F1). cbn [mbind option_bind].
  destruct (Z.ltb_spec r 0) as [N|N]; [exists r, d, w1; split_and!; try done; lia|].
  destruct (F1 N) as [I1 E1].
  destruct (sync_pages_spec (S (Z.to_nat ssz)) d base 0 (contents w) w1) as (r2 & w2 & -> & U2 & R2 & F2);
    try done; try lia; [apply contents_length|rewrite E1; unfold half_done; by rewrite Z.sub_0_r|].
  cbn [mbind option_bind]. destruct (Z.ltb_spec r2 0) as [N2|N2]; [exists r2, d, w2; split_and!; try done; lia|].
  destruct (F2 N2) as [I2 E2].
  exists ssz, (set_addrs d (sectorPrevAddr d) (sectorPrevAddr d)), w2.
  split; [done|]. split; [lia|]. split; [done|]. intros _. split; [done|]. split; [done|]. split.
  { unfold dev_ok, flash_size. cbn. split_and!; try done. by right. }
  split; [unfold dirty; cbn; by rewrite Z.eqb_refl, andb_false_r|]. split; [done|]. intros Ep. rewrite Ep in Pr. destruct G as (_ & _ & (T & _) & _). lia.
Qed.

Lemma buf_slice_length d : ok d -> zlen (ztake ssz (sectorBuf d)) = ssz.
Proof.
  intros (_ & _ & _ & _ & _ & Db & _). pose proof (ssz_range _ _ _ _ G) as [R _].
  unfold NOR_SECTORSZ_MAX in Db. rewrite length_take. lia.
Qed.

(** The sector of an address of the chip. *)
Lemma sect_bounds a : 0 <= a < total ->
  0 <= sect a /\ sect a mod ssz = 0 /\ sect a <= a /\ a < sect a + ssz /\ sect a + ssz <= total.
Proof.
  intros A. destruct (sect_spec _ _ _ _ G a ltac:(lia)) as (? & ? & ? & _).
  pose proof (sect_within _ _ _ _ G a A). split_and!; (done || lia).
Qed.

Lemma view_length d l : ok d -> zlen l = total -> zlen (view d l) = total.
Proof.
  intros D Ll. unfold flash_view. destruct (dirty d) eqn:E; [|done].
  pose proof (sect_bounds _ (dirty_range _ _ _ _ _ D E)). pose proof (buf_slice_length d D).
  rewrite length_splice; lia.
Qed.

Lemma view_bytes d l : ok d -> Forall is_byte l -> Forall is_byte (view d l).
Proof.
  intros (_ & _ & _ & _ & _ & _ & B & _) Bl. unfold flash_view. destruct (dirty d); [|done].
  apply Forall_splice; [done|by apply Forall_take].
Qed.

(** Getting the sector of [dst] into the buffer does not change the view. *)
Lemma bufferSync_spec d dst w :
  ok d -> idle w -> 0 <= dst < total -> fresh ssz d dst -> flushable ssz d (contents w) ->
  Forall is_byte (contents w) ->
  exists r d' w', bufferSync fuel d dst 0 w = Some (r, d', w') /\
    (reliable -> dst + ssz <= total -> 0 <= r) /\
    (0 <= r -> idle w' /\ ok d' /\ dirty d' = true /\ sect (sectorPrevAddr d') = sect dst /\
      Forall is_byte (contents w') /\ view d' (contents w') = view d (contents w)).
Proof.
  intros D I B Fr Fl By. pose proof D as (Dn & Df & Dp & Da & Dz & Db & Dy & Dr).
  pose proof (ssz_range _ _ _ _ G) as [R _]. unfold NOR_SECTORSZ_MAX in Db.
  pose proof G as (_ & _ & (T1 & T2) & Ti & Si & _). pose proof (sect_bounds dst B) as Sb.
  unfold bufferSync. rewrite Dn. cbn [mbind option_bind]. rewrite (same_sector _ _ _ _ G) by lia.
  case_bool_decide as Es.
  { exists 0, d, w. split; [done|]. split; [done|]. intros _.
    assert (dirty d = true); [|by split_and!]. destruct Fr as [E|[?|?]]; [|done|congruence].
    rewrite E in Es. by apply (sect_none _ _ _ _ G) in Es; [|lia]. }
  destruct (flashdrv_sync_spec d w D I Fl) as (r & d1 & w1 & -> & R1 & _ & F1). cbn [mbind option_bind].
  destruct (Z.ltb_spec r 0) as [N|N]; [exists r, d1, w1; split; [done|]; split; [auto|lia]|].
  destruct (F1 N) as (I1 & E1 & D1 & Dt1 & Ep1 & _). pose proof D1 as (Dn1 & Df1 & Dp1 & Da1 & Dz1 & Db1 & Dy1 & Dr1).
  unfold NOR_SECTORSZ_MAX in Db1. rewrite Ti, Si.
  destruct (Z.leb_spec total dst); [lia|]. cbn [Z.eqb negb]. rewrite w32_small by lia.
  destruct (Z.ltb_spec total (dst + ssz)) as [N2|N2].
  { exists (- EIO), d1, w1. split; [done|]. split; unfold EIO; lia. }
  rewrite (get_sectorAddress_spec _ _ _ _ G), Df1, Dp1 by lia.
  destruct (read_law (sect dst) ssz (nd_timeout d1) w1 I1) as (r2 & data & w2 & -> & E2 & I2 & L2 & R2 & F2); [lia..|].
  destruct (Z.ltb_spec r2 0) as [N3|N3]; [eexists r2, _, w2; split; [done|]; split; [auto|lia]|].
  eexists r2, _, w2. split; [reflexivity|]. split; [auto|]. intros _. split; [done|].
  specialize (F2 N3).
  assert (Ld : zlen data = ssz) by (rewrite F2; apply length_zslice; rewrite ?contents_length; lia).
  assert (By1 : Forall is_byte (contents w1)) by (rewrite E1; by apply view_bytes).
  assert (Et : ztake ssz (splice 0 data (sectorBuf d1)) = data).
  { rewrite <- zslice_0, zslice_splice_same; [done|lia..]. }
  assert (Hd : dirty (set_addrs (set_buf d1 (splice 0 data (sectorBuf d1))) dst (sectorSyncAddr d1)) = true).
  { unfold dirty in *. cbn. destruct (Z.eqb_spec dst (2 ^ 32 - 1)); [lia|]. cbn [negb andb] in *.
    destruct (Z.eqb_spec dst (sectorSyncAddr d1)) as [Eq|]; [|done]. exfalso.
    destruct Dr1 as [[Ea Eb]|Ra]; [lia|].
    destruct (Z.eqb_spec (sectorPrevAddr d1) (2 ^ 32 - 1)); [lia|].
    destruct (Z.eqb_spec (sectorPrevAddr d1) (sectorSyncAddr d1)); [|done]. apply Es. congruence. }
  split.
  { unfold dev_ok, flash_size, NOR_SECTORSZ_MAX. cbn. split_and!; try done.
    - rewrite length_splice; lia.
    - apply Forall_splice; [done|]. rewrite F2. by apply Forall_zslice.
    - by right. }
  split; [done|]. split; [done|]. rewrite E2. split; [done|].
  unfold flash_view at 1. replace (dirty _) with true by (symmetry; exact Hd). cbn [sectorPrevAddr set_addrs sectorBuf set_buf].
  rewrite Et, F2, splice_zslice by (rewrite ?contents_length; lia). by rewrite E1.
Qed.

(** No sector the bytes [src] at [dst] reach becomes blank in [l]. *)
Definition not_blanked (dst n : Z) (l : list Z) : Prop :=
  forall s, s mod ssz = 0 -> 0 <= s -> s + ssz <= total -> s < dst + n -> dst < s + ssz ->
    zslice s ssz l <> blank ssz.

(** Storing a chunk of the sector in the buffer changes the view there. *)
Lemma store_chunk d dst chunk w :
  ok d -> dirty d = true -> 0 <= dst -> dst + zlen chunk <= total -> sect (sectorPrevAddr d) = sect dst ->
  dst + zlen chunk <= sect dst + ssz -> Forall is_byte chunk ->
  let d' := set_buf d (splice (dst mod ssz) chunk (sectorBuf d)) in
  ok d' /\ dirty d' = true /\ view d' (contents w) = splice dst chunk (view d (contents w)) /\
  zslice (sect dst) ssz (view d' (contents w)) = ztake ssz (sectorBuf d').
Proof.
  intros D Dt A Lc Es Lw Bc d'. pose proof D as (Dn & Df & Dp & Da & Dz & Db & Dy & Dr).
  pose proof (ssz_range _ _ _ _ G) as [R _]. unfold NOR_SECTORSZ_MAX in Db.
  pose proof (dirty_range _ _ _ _ _ D Dt) as Pr. pose proof (sect_bounds _ Pr) as Sb. rewrite Es in Sb.
  assert (dst mod ssz = dst - sect dst) as Eo by (unfold sect; lia).
  pose proof (Z.mod_pos_bound dst ssz ltac:(lia)).
  assert (D' : ok d').
  { unfold dev_ok, flash_size, NOR_SECTORSZ_MAX, d'. cbn. split_and!; try done.
    - rewrite length_splice; lia.
    - by apply Forall_splice. }
  assert (Et : ztake ssz (sectorBuf d') = splice (dst mod ssz) chunk (ztake ssz (sectorBuf d))).
  { unfold d'. cbn. pose proof (buf_slice_length d D). rewrite <- !zslice_0.
    assert (zlen (zslice 0 ssz (sectorBuf d)) = ssz) by (apply length_zslice; lia). slots. }
  split; [done|]. split; [done|]. pose proof (contents_length w). pose proof (buf_slice_length d D).
  pose proof (buf_slice_length d' D').
  assert (Ev : view d' (contents w) = splice (sect dst) (ztake ssz (sectorBuf d')) (contents w)).
  { unfold flash_view. change (dirty d') with (dirty d). by rewrite Dt, <- Es. }
  split.
  - rewrite Ev, Et. unfold flash_view. rewrite Dt, Es, splice_into by lia. by rewrite Eo.
  - rewrite Ev. apply zslice_splice_same; lia.
Qed.

Lemma write_chunks_spec k d dst src w :
  (length src < k)%nat -> ok d -> idle w -> 0 <= dst -> dst + zlen src <= total ->
  fresh ssz d dst -> flushable ssz d (contents w) -> Forall is_byte src -> Forall is_byte (contents w) ->
  not_blanked dst (zlen src) (splice dst src (view d (contents w))) ->
  exists r dst' d' w', write_chunks fuel k d dst src w = Some (r, dst', d', w') /\
    (reliable -> src = [] \/ dst + ssz <= total -> 0 <= r) /\
    (0 <= r -> dst' = dst + zlen src /\ idle w' /\ ok d' /\ flushable ssz d' (contents w') /\
      Forall is_byte (contents w') /\ view d' (contents w') = splice dst src (view d (contents w))).
Proof.
  revert d dst src w. induction k as [|k IH]; intros d dst src w K D I A B Fr Fl Bs By Nb; [lia|].
  cbn [write_chunks]. pose proof (ssz_range _ _ _ _ G) as [R _]. pose proof G as (_ & _ & (T1 & T2) & Ti & Si & _).
  destruct (Z.leb_spec (zlen src) 0) as [Z0|Z0].
  { destruct src as [|? src]; [|cbn in Z0; lia]. exists 0, dst, d, w. split; [done|]. split; [done|]. intros _.
    rewrite Z.add_0_r, splice_nil. by split_and!. }
  destruct (bufferSync_spec d dst w D I ltac:(lia) Fr Fl By) as (r & d1 & w1 & -> & R1 & F1).
  cbn [mbind option_bind]. destruct (Z.ltb_spec r 0) as [N|N].
  { exists r, dst, d1, w1. split; [done|]. split; [|lia]. intros Hr [->|Hd]; [cbn in Z0; lia|auto]. }
  destruct (F1 N) as (I1 & D1 & Dt1 & Es1 & By1 & Ev1). pose proof D1 as (Dn1 & _).
  rewrite Dn1. cbn [mbind option_bind]. rewrite (get_offset_spec _ _ _ _ G), Si.
  pose proof (Z.mod_pos_bound dst ssz ltac:(lia)). rewrite w32_small by lia.
  pose proof (sect_bounds dst ltac:(lia)) as Sb. assert (Eo : dst mod ssz = dst - sect dst) by (unfold sect; lia).
  set (n := if ssz - dst mod ssz <? zlen src then ssz - dst mod ssz else zlen src).
  assert (Hn : 0 < n <= zlen src /\ dst + n <= sect dst + ssz /\ (n < zlen src -> dst + n = sect dst + ssz))
    by (unfold n; destruct (Z.ltb_spec (ssz - dst mod ssz) (zlen src)); lia).
  assert (Lc : zlen (ztake n src) = n) by (rewrite length_take; lia).
  destruct (store_chunk d1 dst (ztake n src) w1) as (D2 & Dt2 & Ev2 & Es2);
    try done; try lia; [by apply Forall_take|].
  set (d2 := set_buf d1 (splice (dst mod ssz) (ztake n src) (sectorBuf d1))) in *.
  rewrite w32_small by lia.
  assert (Evf : splice (dst + n) (zdrop n src) (view d2 (contents w1)) = splice dst src (view d (contents w))).
  { rewrite Ev2, Ev1. replace (dst + n) with (dst + zlen (ztake n src)) by lia. rewrite splice_app.
    - by rewrite take_drop.
    - done.
    - rewrite view_length by (done || apply contents_length). rewrite Lc, length_drop. lia. }
  assert (Ls : zlen (zdrop n src) = zlen src - n) by (rewrite length_drop; lia).
  assert (Fl2 : flushable ssz d2 (contents w1)).
  { intros _ Eb. exfalso. apply (Nb (sect dst)); try lia. rewrite <- Evf.
    destruct (Z.eq_dec n (zlen src)) as [En|En].
    - assert (zdrop n src = []) as -> by (apply length_zero_iff_nil; lia). rewrite splice_nil, Es2. exact Eb.
    - rewrite zslice_splice_before by (rewrite ?view_length by (done || apply contents_length); lia).
      rewrite Es2. exact Eb. }
  destruct (IH d2 (dst + n) (zdrop n src) w1) as (r2 & dst2 & d3 & w2 & E & R2 & F2);
    try done; try lia; [by right; left|by apply Forall_drop| |].
  { intros s S1 S2 S3 S4 S5. rewrite Evf. apply Nb; try done; lia. }
  exists r2, dst2, d3, w2. split; [exact E|]. split.
  - intros Hr _. apply R2; [done|]. destruct (Z.eq_dec n (zlen src)) as [En|En].
    + left. apply length_zero_iff_nil. lia.
    + right. assert (dst + n = sect dst + ssz) as -> by lia.
      pose proof (sect_bounds (sect dst + ssz) ltac:(lia)) as Sc.
      assert (sect (sect dst + ssz) = sect dst + ssz) as Eq; [|lia].
      unfold FlashDrv.sect at 1. rewrite <- Z.add_mod_idemp_l, (proj1 (proj2 Sb)), Z.add_0_l, Z.mod_same by lia. lia.
  - intros Hr. destruct (F2 Hr) as (-> & I2 & D3 & Fl3 & By3 & Ev3). rewrite Ev3, Evf. split_and!; try done. lia.
Qed.

(** The last step of a write: the buffer is written back when the write has
    reached another sector. *)
Lemma bufferSync_last_spec d dst w :
  ok d -> idle w -> 0 <= dst <= total -> flushable ssz d (contents w) ->
  exists r d' w', bufferSync fuel d dst 1 w = Some (r, d', w') /\ (reliable -> 0 <= r) /\
    (0 <= r -> idle w' /\ ok d' /\ flushable ssz d' (contents w') /\ view d' (contents w') = view d (contents w)).
Proof.
  intros D I B Fl. pose proof D as (Dn & Df & Dp & Da & Dz & Db & Dy & Dr).
  pose proof G as (_ & _ & (T1 & T2) & Ti & Si & _). unfold bufferSync. rewrite Dn. cbn [mbind option_bind].
  destruct (_ =? _); [exists 0, d, w; by split_and!|].
  destruct (flashdrv_sync_spec d w D I Fl) as (r & d1 & w1 & -> & R1 & _ & F1). cbn [mbind option_bind].
  destruct (Z.ltb_spec r 0) as [N|N]; [exists r, d1, w1; split_and!; try done; lia|].
  destruct (F1 N) as (I1 & E1 & D1 & Dt1 & _). cbn [Z.eqb negb]. rewrite Ti.
  exists r, (if total <=? dst then set_addrs d1 (w32 (-1)) (w32 (-1)) else d1), w1.
  split; [done|]. split; [done|]. intros _. split; [done|].
  assert (Hd : dirty (if total <=? dst then set_addrs d1 (w32 (-1)) (w32 (-1)) else d1) = false).
  { destruct (total <=? dst); [|done]. unfold dirty. cbn. done. }
  split; [|split; [intros Ht; congruence|unfold flash_view at 1; by rewrite Hd]].
  destruct (total <=? dst); [|done]. destruct D1 as (? & ? & ? & ? & ? & ? & ? & _).
  unfold dev_ok, flash_size. cbn. split_and!; try done. by left.
Qed.



(** The erase loop blanks the sectors it passes. *)
Lemma erase_sectors_spec k d base addr end_ l w :
  ok d -> idle w -> 0 <= base <= addr -> addr <= end_ <= total -> zlen l = total ->
  addr mod ssz = 0 -> end_ mod ssz = 0 -> (Z.to_nat (end_ - addr) < k)%nat ->
  contents w = splice base (blank (addr - base)) l ->
  exists r w', erase_sectors fuel k d info addr end_ (addr - base) w = Some (r, w') /\
    untouched base (end_ - base) l (contents w') /\ (reliable -> 0 <= r) /\
    (0 <= r -> r = end_ - base /\ contents w' = splice base (blank (end_ - base)) l).
Proof.
  intros D. revert addr w. induction k as [|k IH]; intros addr w I B C Ll Ma Me K E; [lia|]. cbn [erase_sectors].
  pose proof D as (_ & Df & Dp & _). pose proof (ssz_range _ _ _ _ G) as [R _].
  pose proof G as (_ & _ & (T1 & T2) & _ & Si & _).
  assert (U : untouched base (end_ - base) l (contents w)).
  { rewrite E. pose proof (length_blank (addr - base)).
    eapply (untouched_sub base _ base (addr - base)); [lia..|apply untouched_refl|].
    apply untouched_splice; lia. }
  destruct (Z.ltb_spec addr end_) as [O|O].
  2: { assert (addr = end_) as -> by lia. exists (end_ - base), w. split_and!; try done; lia. }
  assert (On : addr + ssz <= end_).
  { apply Z.mod_divide in Ma as [a Ea]; [|lia]. apply Z.mod_divide in Me as [b Eb]; [|lia].
    assert (a < b) by (apply (Z.mul_lt_mono_pos_r ssz); lia). rewrite Ea, Eb.
    transitivity ((a + 1) * ssz); [lia|]. apply Z.mul_le_mono_nonneg_r; lia. }
  rewrite Df, Dp, Si.
  destruct (erase_law addr (nd_timeout d) w I ltac:(lia) ltac:(lia) Ma) as (r & w1 & -> & U1 & R1 & F1).
  cbn [mbind option_bind].
  assert (U' : untouched base (end_ - base) l (contents w1)).
  { eapply (untouched_sub base _ addr ssz); [lia..|exact U|exact U1]. }
  destruct (Z.ltb_spec r 0) as [N|N]; [exists r, w1; split_and!; try done; lia|].
  destruct (F1 N) as [I1 E1]. rewrite w32_small by lia.
  replace (addr - base + ssz) with (addr + ssz - base) by lia.
  apply (IH (addr + ssz) w1); try done; try lia.
  - rewrite <- (Z.mul_1_l ssz) at 1. rewrite Z.mod_add by lia. done.
  - rewrite E1, E. pose proof (length_blank (addr - base)). pose proof (length_blank ssz).
    replace addr with (base + zlen (blank (addr - base))) at 1 by lia.
    rewrite splice_app by lia. f_equal. unfold blank. rewrite <- replicate_add. f_equal. lia.
Qed.

(** An erase of [addr .. addr + len) within the chip blanks the sectors that
    meet the range and returns their size, an erase of the whole chip blanks every
    byte; either way the buffer no longer stands for anything.  When it fails, the
    bytes of other sectors are as they were. *)
Lemma flashdrv_erase_spec d addr len w :
  ok d -> idle w -> 0 <= addr -> 0 < len -> addr + len <= total ->
  let first := sect addr in
  let end_ := sect (addr + len + ssz - 1) in
  (exists r d' w', flashdrv_erase fuel d addr len w = Some (r, d', w') /\ (reliable -> 0 <= r) /\
    dirty d' = false /\ untouched first (end_ - first) (contents w) (contents w') /\
    first <= addr /\ addr + len <= end_ /\
    (0 <= r -> r = end_ - first /\ contents w' = splice first (blank (end_ - first)) (contents w))) /\
  (forall n, (n = 1 \/ n = 2 \/ n = 4) -> n * die = total ->
    n = (if negb (Z.land (capFlags info) NOR_CAPS_DIE4 =? 0) then 4
         else if negb (Z.land (capFlags info) NOR_CAPS_DIE2 =? 0) then 2 else 1) ->
    exists r d' w', flashdrv_erase fuel d 0 (2 ^ 32 - 1) w = Some (r, d', w') /\ (reliable -> 0 <= r) /\
      dirty d' = false /\ (0 <= r -> r = total /\ contents w' = blank total)).
Proof.
  intros D I A Lp B first end_. pose proof D as (Dn & Df & Dp & Da & Dz & _).
  pose proof (ssz_range _ _ _ _ G) as [R _]. pose proof G as (_ & _ & (T1 & T2) & _ & Si & _).
  unfold flashdrv_erase. destruct (Z.eqb_spec (nd_active d) 0); [done|]. rewrite Dz. cbn [nd_nor set_addrs]. rewrite Dn.
  change (w32 (-1)) with (2 ^ 32 - 1). split.
  - rewrite (w32_small (addr + len)) by lia. destruct (Z.ltb_spec total (addr + len)); [lia|]. cbn [andb].
    destruct (Z.eqb_spec len 0); [lia|]. cbn [mbind option_bind].
    destruct (Z.eqb_spec len (2 ^ 32 - 1)); [lia|]. rewrite Si, (w32_small (ssz - 1)), w32_small by lia.
    assert (Mask : forall a, 0 <= a -> Z.ldiff a (ssz - 1) = sect a).
    { intros a Pa. rewrite <- (get_sectorAddress_spec _ _ _ _ G a Pa). unfold get_sectorAddress.
      by rewrite Si, w32_small by lia. }
    rewrite !Mask by lia. replace (addr + len + (ssz - 1)) with (addr + len + ssz - 1) by lia. fold first end_.
    destruct (sect_bounds addr ltac:(lia)) as (S1 & S2 & S3 & S4 & S5). fold first in S1, S2, S3, S4, S5.
    destruct (sect_spec _ _ _ _ G (addr + len + ssz - 1) ltac:(lia)) as ([E1 E2] & E3 & E4 & E5).
    fold end_ in E1, E2, E3, E4, E5.
    assert (E6 : end_ <= total).
    { apply Z.mod_divide in T2 as [q Eq]; [|lia]. rewrite E5, Eq.
      assert ((addr + len + ssz - 1) / ssz < q + 1); [apply Z.div_lt_upper_bound; nia|nia]. }
    pose proof (contents_length w).
    destruct (erase_sectors_spec (S (Z.to_nat (end_ - first))) (set_addrs d (2 ^ 32 - 1) (2 ^ 32 - 1))
      first first end_ (contents w) w) as (r & w' & E & U & Rr & F1); try done; try lia.
    { unfold dev_ok, flash_size in *. cbn. destruct D as (? & ? & ? & ? & ? & ? & ? & _). split_and!; try done. by left. }
    { rewrite Z.sub_diag. change (blank 0) with (@nil Z). by rewrite splice_nil. }
    rewrite Z.sub_diag in E. rewrite E. cbn [mbind option_bind].
    exists r, (set_addrs d (2 ^ 32 - 1) (2 ^ 32 - 1)), w'. split_and!; try done; lia.
  - intros m Hn En Em. rewrite Z.add_0_l. change (w32 (2 ^ 32 - 1)) with (2 ^ 32 - 1).
    rewrite Z.eqb_refl, andb_false_r. cbn [Z.eqb Z.sub Z.pow]. change (2 ^ 32 - 1 =? 0) with false. cbn [mbind option_bind]. rewrite <- Em.
    cbn [set_addrs nd_fspi nd_port nd_timeout]. rewrite Df, Dp.
    change (flash_size _) with (flash_size d). rewrite Dz. replace (total / m) with die by (rewrite <- En, Z.mul_comm, Z.div_mul; lia).
    destruct (die_law (capFlags info) m (nd_timeout d) w I ltac:(lia) En) as (r & w1 & -> & R1 & F1).
    cbn [mbind option_bind]. destruct (Z.ltb_spec r 0) as [N|N].
    + eexists r, _, w1. split_and!; try done. lia.
    + eexists total, _, w1. split_and!; try done; [lia|]. intros _. split; [done|]. by apply F1.
Qed.
End ops.

(** ** On the chip of sixteen bytes *)

Definition sample_info : nor_info :=
  mk_info 0 (str "sample") 16 2 4 NOR_CAPS_GENERIC lutGeneric3Byte None.

Definition sample_dev : nor_device :=
  mk_dev (Some sample_info) chip_fspi 0 1 NOR_DEFAULT_TIMEOUT (2 ^ 32 - 1) (2 ^ 32 - 1)
    (replicate (Z.to_nat NOR_SECTORSZ_MAX) NOR_ERASED_STATE).

Definition sample_bytes : list Z := [0; 1; 2; 3; 4; 5; 6; 7; 8; 9; 10; 11; 12; 13; 14; 15].
Definition sample_flash : chip := mk_chip sample_bytes false 0.

#[export] Instance sample_laws : NorLaws 3 chip_fspi 0 16 4 2 16 :=
  nor_laws_of (C := sample_chip) chip_fspi 0 16 4 2 16 3 (le_n 3) ltac:(lia) ltac:(lia).

Lemma sample_geometry : geometry 16 4 2 sample_info.
Proof.
  split; [exists 2; split; [lia|done]|]. split; [by split|]. split; [split; [lia|done]|]. by split_and!.
Qed.

Lemma sample_ok : dev_ok 16 sample_info chip_fspi 0 sample_dev.
Proof.
  unfold dev_ok, sample_dev. cbn [nd_nor nd_fspi nd_port nd_active sectorBuf sectorPrevAddr sectorSyncAddr].
  split_and!; try done.
  - apply Forall_replicate. by split.
  - by left.
Qed.



Lemma flashdrv_erase_spec_witness :
  exists r d' w', flashdrv_erase 3 sample_dev 5 2 sample_flash = Some (r, d', w') /\ r = 4 /\
    chip_bytes w' = [0; 1; 2; 3; 255; 255; 255; 255; 8; 9; 10; 11; 12; 13; 14; 15].
Proof.
  destruct (proj1 (flashdrv_erase_spec (L := sample_laws) 3 chip_fspi 0 16 4 2 16 sample_info sample_geometry sample_dev 5 2
    sample_flash sample_ok eq_refl ltac:(lia) ltac:(lia) ltac:(lia))) as (r & d' & w' & E & R & _ & _ & _ & _ & F).
  exists r, d', w'. split; [exact E|]. destruct (F (R I)) as [-> F2]. split; [done|]. exact F2.
Defined.

(** *** Where the driver loses data

    A sequence of writes and write-backs; the flash at the end. *)
Inductive flash_op := OpWrite (dst : Z) (data : list Z) | OpSync.

Fixpoint run_flash (ops : list flash_op) (d : nor_device) (w : chip) : option (list Z * list Z) :=
  match ops with
  | [] => Some ([], chip_bytes w)
  | OpWrite dst data :: ops =>
      '(r, d, w) ← flashdrv_write 3 d dst (Some data) w; '(rs, l) ← run_flash ops d w; Some (r :: rs, l)
  | OpSync :: ops =>
      '(r, d, w) ← flashdrv_sync 3 d w; '(rs, l) ← run_flash ops d w; Some (r :: rs, l)
  end.

(** After a write-back, a second write to the same sector is reported as done and
    never reaches the flash: [sectorSyncAddr] still marks the sector as clean. *)
Lemma write_after_sync_lost :
  run_flash [OpWrite 0 [20]; OpSync; OpWrite 1 [21]; OpSync] sample_dev sample_flash =
  Some ([1; 4; 1; 0], [20; 1; 2; 3; 4; 5; 6; 7; 8; 9; 10; 11; 12; 13; 14; 15]).
Proof. by vm_compute. Qed.

(** A sector written full of 0xff is not erased: its old bytes stay. *)
Lemma write_ones_lost :
  run_flash [OpWrite 4 [255; 255; 255; 255]; OpSync] sample_dev sample_flash = Some ([4; 0], sample_bytes).
Proof. by vm_compute. Qed.

(** A write to the last sector must start at its first byte. *)
Lemma write_last_sector_refused :
  run_flash [OpWrite 13 [20]] sample_dev sample_flash = Some ([- EIO], sample_bytes) /\
  run_flash [OpWrite 12 [20]; OpSync] sample_dev sample_flash =
  Some ([1; 4], [0; 1; 2; 3; 4; 5; 6; 7; 8; 9; 10; 11; 20; 13; 14; 15]).
Proof. split; by vm_compute. Qed.
