(* ===== verification/PMem.v ===== *)
(** * Physical memory

    The memory the loader fills, by address, and the copies to and from it. *)

From S2P Require Import Prelude.

Definition pmem := Z -> Z.

#[export] Instance pmem_equiv : Equiv pmem := fun m m' => forall x, m x = m' x.

#[export] Instance pmem_equivalence : Equivalence (≡@{pmem}).
Proof.
  split; [by intros m x|by intros m m' E x; rewrite E|by intros m m' m'' E E' x; rewrite E, E'].
Qed.

(** The [n] bytes at [a]. *)
Definition mem_read (a n : Z) (m : pmem) : list Z := (fun i => m (a + Z.of_nat i)) <$> seq 0 (Z.to_nat n).

(** [memcpy(a, bs, n)] of all [n] bytes [bs] *)
Definition mem_write (a : Z) (bs : list Z) (m : pmem) : pmem :=
  fun x => if (a <=? x) && (x <? a + zlen bs) then default 0 (bs !! Z.to_nat (x - a)) else m x.

#[export] Instance mem_read_proper a n : Proper ((≡) ==> (=)) (mem_read a n).
Proof. intros m m' E. apply list_fmap_ext. intros i j _. apply E. Qed.

#[export] Instance mem_write_proper a bs : Proper ((≡) ==> (≡)) (mem_write a bs).
Proof. intros m m' E x. unfold mem_write. by rewrite E. Qed.

Lemma length_mem_read a n m : 0 <= n -> zlen (mem_read a n m) = n.
Proof. intros. unfold mem_read. rewrite length_fmap, length_seq. lia. Qed.

Lemma lookup_mem_read a n m i :
  mem_read a n m !! i = if Z.of_nat i <? n then Some (m (a + Z.of_nat i)) else None.
Proof.
  unfold mem_read. rewrite list_lookup_fmap. destruct (Z.ltb_spec (Z.of_nat i) n).
  - by rewrite lookup_seq_lt by lia.
  - by rewrite lookup_seq_ge by lia.
Qed.

Lemma mem_write_in a bs m x : a <= x < a + zlen bs -> Some (mem_write a bs m x) = bs !! Z.to_nat (x - a).
Proof.
  intros. unfold mem_write. destruct (Z.leb_spec a x); [|lia]. destruct (Z.ltb_spec x (a + zlen bs)); [|lia].
  cbn. destruct (lookup_lt_is_Some_2 bs (Z.to_nat (x - a)) ltac:(lia)) as [c ->]. done.
Qed.

Lemma mem_write_out a bs m x : x < a \/ a + zlen bs <= x -> mem_write a bs m x = m x.
Proof.
  intros. unfold mem_write. destruct (Z.leb_spec a x), (Z.ltb_spec x (a + zlen bs)); cbn; done || lia.
Qed.

Lemma mem_read_write a bs m : mem_read a (zlen bs) (mem_write a bs m) = bs.
Proof.
  apply list_eq. intros i. rewrite lookup_mem_read. destruct (Z.ltb_spec (Z.of_nat i) (zlen bs)).
  - rewrite mem_write_in by lia. f_equal. lia.
  - symmetry. apply lookup_ge_None. lia.
Qed.

(** Bytes outside of the copy are as before. *)
Lemma mem_read_write_out a bs b n m :
  b + n <= a \/ a + zlen bs <= b -> mem_read b n (mem_write a bs m) = mem_read b n m.
Proof.
  intros. apply list_eq. intros i. rewrite !lookup_mem_read. destruct (Z.ltb_spec (Z.of_nat i) n); [|done].
  by rewrite mem_write_out by lia.
Qed.

Lemma mem_write_app a xs ys m :
  mem_write (a + zlen xs) ys (mem_write a xs m) ≡ mem_write a (xs ++ ys) m.
Proof.
  intros x. assert (zlen (xs ++ ys) = zlen xs + zlen ys) by (rewrite length_app; lia).
  destruct (decide (x < a \/ a + zlen xs + zlen ys <= x)) as [O|I].
  - rewrite !mem_write_out by lia. done.
  - apply (inj Some). rewrite (mem_write_in a (xs ++ ys)) by lia.
    destruct (decide (x < a + zlen xs)).
    + rewrite mem_write_out, mem_write_in by lia. by rewrite lookup_app_l by lia.
    + rewrite mem_write_in by lia. rewrite lookup_app_r by lia. f_equal. lia.
Qed.

Lemma mem_write_nil a m : mem_write a [] m ≡ m.
Proof. intros x. apply mem_write_out. cbn. lia. Qed.
