(* ===== verification/RamDrv.v ===== *)
(** * The RAM disk (src/devices/ram-storage/ramdrv.c)

    A bank of memory as a storage device.  The world of the driver is the physical
    memory; [ramdrv] is the driver as it is registered in the device table. *)

From S2P Require Import Prelude CString Devs PMem.

(** [RAM_ADDR] and [RAM_BANK_SIZE] of the platform's config.h. *)
Class RamConfig := { RAM_ADDR : Z; RAM_BANK_SIZE : Z }.

Definition RAM_NO := 1.
Definition DEV_RAM := 4.

Section ram.
  Context `{Target} `{RamConfig}.

(** [ramParams[minor].start] and [.end] *)
Definition ramParams (minor : Z) : Z * Z := (RAM_ADDR, wa (RAM_ADDR + RAM_BANK_SIZE)).

Definition ramdrv_isValidAddress (minor off size : Z) : bool :=
  let '(start, end_) := ramParams minor in
  let rsize := wa (end_ - start) in
  (off <? rsize) && (size <=? wa (rsize - off)).

Definition ramdrv_isValidMinor (minor : Z) : bool := minor <? RAM_NO.

Definition ramdrv_read (minor offs len timeout : Z) (m : pmem) : (Z * list Z) * pmem :=
  if ramdrv_isValidMinor minor && ramdrv_isValidAddress minor offs len then
    ((sa len, mem_read (wa ((ramParams minor).1 + offs)) len m), m)
  else ((- EINVAL, []), m).

Definition ramdrv_write (minor offs : Z) (buff : list Z) (m : pmem) : Z * pmem :=
  if negb (ramdrv_isValidMinor minor) || negb (ramdrv_isValidAddress minor offs (zlen buff)) then (- EINVAL, m)
  else (sa (zlen buff), mem_write (wa ((ramParams minor).1 + offs)) buff m).

Definition ramdrv_done (minor : Z) (m : pmem) : Z * pmem :=
  (if negb (ramdrv_isValidMinor minor) then - EINVAL else EOK, m).

Definition ramdrv_sync (minor : Z) (m : pmem) : Z * pmem :=
  (if negb (ramdrv_isValidMinor minor) then - EINVAL else EOK, m).

(** The result and [*a]. *)
Definition ramdrv_map (minor addr sz mode memaddr memsz memmode : Z) (m : pmem) : (Z * option Z) * pmem :=
  if negb (ramdrv_isValidMinor minor) then ((- EINVAL, None), m)
  else
    let '(rStart, rEnd) := ramParams minor in
    let rSz := wa (rEnd - rStart) in
    if rSz <=? wa (addr + sz) then ((- EINVAL, None), m)
    else if (rStart <=? memaddr) && (wa (memaddr + memsz) <=? wa (rStart + rSz)) then
      ((dev_isMappable, Some rStart), m)
    else if negb (Z.land mode memmode =? mode) then ((- EINVAL, None), m)
    else ((dev_isNotMappable, None), m).

Definition ramdrv_init (minor : Z) (m : pmem) : Z * pmem :=
  (if negb (ramdrv_isValidMinor minor) then - EINVAL else EOK, m).

(** The structures [opsRamStorage] and [devRamStorage]. *)
Definition ramdrv : dev pmem :=
  {| dev_name := Some (str "ram-storage"); dev_init := Some ramdrv_init; dev_done := Some ramdrv_done;
     dev_ops_ := Some {| op_sync := Some ramdrv_sync; op_map := Some ramdrv_map; op_control := None;
       op_read := Some ramdrv_read; op_write := Some ramdrv_write; op_erase := None |} |}.

Definition ramdrv_reg (t : devtab pmem) : devtab pmem := devs_register t DEV_RAM RAM_NO ramdrv.

(** ** The device is the bank *)

(** The bank lies within the address space. *)
Definition bank_ok : Prop := 0 < RAM_ADDR /\ 0 < RAM_BANK_SIZE /\ RAM_ADDR + RAM_BANK_SIZE < 2 ^ addr_bits.

Lemma bank_range : bank_ok -> wa (wa (RAM_ADDR + RAM_BANK_SIZE) - RAM_ADDR) = RAM_BANK_SIZE.
Proof. intros (? & ? & ?). rewrite (wa_small (RAM_ADDR + _)) by lia. rewrite wa_small; lia. Qed.

Lemma ramdrv_valid off size :
  bank_ok -> 0 <= off -> 0 <= size ->
  ramdrv_isValidAddress 0 off size = (off <? RAM_BANK_SIZE) && (off + size <=? RAM_BANK_SIZE).
Proof.
  intros B O Z0. pose proof B as (? & ? & ?). unfold ramdrv_isValidAddress, ramParams. rewrite bank_range by done.
  destruct (Z.ltb_spec off RAM_BANK_SIZE); [|done]. cbn [andb]. rewrite wa_small by lia.
  destruct (Z.leb_spec size (RAM_BANK_SIZE - off)), (Z.leb_spec (off + size) RAM_BANK_SIZE); done || lia.
Qed.

(** The device is its bank: an access that stays within the bank transfers
    exactly the bytes asked for, what is written is read back, and a write changes
    no byte outside of the place it names; any other access is refused with
    [-EINVAL] and leaves the memory alone. *)
Lemma ramdrv_is_bank offs data m :
  bank_ok -> RAM_BANK_SIZE < 2 ^ (addr_bits - 1) -> 0 <= offs ->
  let '(res, m') := ramdrv_write 0 offs data m in
  if (offs <? RAM_BANK_SIZE) && (offs + zlen data <=? RAM_BANK_SIZE) then
    res = zlen data /\
    (forall t, ramdrv_read 0 offs (zlen data) t m' = ((zlen data, data), m')) /\
    (forall o n t, 0 <= o -> 0 <= n -> o + n <= offs \/ offs + zlen data <= o ->
       (ramdrv_read 0 o n t m').1 = (ramdrv_read 0 o n t m).1) /\
    (forall x, x < RAM_ADDR \/ RAM_ADDR + RAM_BANK_SIZE <= x -> m' x = m x)
  else res = - EINVAL /\ m' = m /\ (forall t, ramdrv_read 0 offs (zlen data) t m = ((- EINVAL, []), m)).
Proof.
  intros B Bs O. pose proof B as (? & ? & ?). unfold ramdrv_write, ramdrv_read. rewrite ramdrv_valid by (done || lia).
  change (ramdrv_isValidMinor 0) with true. cbn [negb orb andb].
  destruct (_ && _) eqn:V; cbn [negb]; [|by split_and!].
  apply andb_prop in V as [V1%Z.ltb_lt V2%Z.leb_le]. cbn [ramParams fst]. rewrite (wa_small (RAM_ADDR + offs)), sa_small by lia.
  split_and!; [done|..].
  - intros t. by rewrite mem_read_write.
  - intros o n t Po Pn D. rewrite ramdrv_valid by (done || lia). destruct (_ && _) eqn:V; [|done].
    apply andb_prop in V as [V3%Z.ltb_lt V4%Z.leb_le]. cbn [fst]. rewrite (wa_small (RAM_ADDR + o)) by lia.
    by rewrite mem_read_write_out by lia.
  - intros x X. apply mem_write_out. lia.
Qed.

End ram.

Definition sample_ram : RamConfig := {| RAM_ADDR := 0x8000000; RAM_BANK_SIZE := 0x8000000 |}.

Lemma ramdrv_is_bank_witness :
  let '(res, m') := ramdrv_write (H := target32) (H0 := sample_ram) 0 16 [1; 2; 3] (fun _ => 0) in
  res = 3 /\ forall t, ramdrv_read (H := target32) (H0 := sample_ram) 0 16 3 t m' = ((3, [1; 2; 3]), m').
Proof.
  destruct (ramdrv_is_bank (H := target32) (H0 := sample_ram) 16 [1; 2; 3] (fun _ => 0)
    ltac:(repeat split) ltac:(reflexivity) ltac:(lia)) as (E & R & _).
  split; [exact E|exact R].
Defined.

(** A range that ends where the bank ends cannot be mapped. *)
Lemma ramdrv_map_last_byte :
  (ramdrv_map (H := target32) (H0 := sample_ram) 0 0 0x8000000 1 0x8000000 0x8000000 1 (fun _ => 0)).1
  = (- EINVAL, None).
Proof. reflexivity. Qed.
