(* ===== verification/Loader.v ===== *)
(** * The loader's state and the commands on devices and files

    (src/cmds/phfs.c, src/cmds/alias.c, src/cmds/map.c, src/cmds/copy.c)

    The commands run on one state: the registries of phfs, the system page, the
    globals of getopt and the world behind the devices, which also holds the memory
    programs are copied to.  They are written in a state monad whose failure is a
    fault of the program.  A loop whose length depends on a device runs at most
    [steps] times.  The contents of uninitialised locals come from [garbage].
    Console output is not modelled. *)

From S2P Require Import Prelude Mem CList CString Devs Msg Phfs Syspage Getopt Cmd.

Definition SIZE_MSG_BUFF := 0x100.
Definition flagSyspageNoCopy := 2.
Definition PHFS_OPEN_RDONLY := 0.
Definition PHFS_OPEN_RDWR := 1.
Definition PHFS_OPEN_CREATE := 2.

(** ** State *)

Section loader.
  Context `{Target} `{SyspageTypes} `{SyspageHal} {W : Type}.

Record loader := mk_loader {
  ld_phfs : phfs_state;
  ld_sys : syspage;
  ld_hal : hw;
  ld_ids : gmap Z (list Z);
  ld_getopt : getopt;
  ld_aliasBase : Z;
  ld_w : W
}.

Definition set_phfs (p : phfs_state) (l : loader) : loader :=
  mk_loader p (ld_sys l) (ld_hal l) (ld_ids l) (ld_getopt l) (ld_aliasBase l) (ld_w l).
Definition set_sys (s : syspage) (l : loader) : loader :=
  mk_loader (ld_phfs l) s (ld_hal l) (ld_ids l) (ld_getopt l) (ld_aliasBase l) (ld_w l).
Definition set_hal (h : hw) (l : loader) : loader :=
  mk_loader (ld_phfs l) (ld_sys l) h (ld_ids l) (ld_getopt l) (ld_aliasBase l) (ld_w l).
Definition set_ids (m : gmap Z (list Z)) (l : loader) : loader :=
  mk_loader (ld_phfs l) (ld_sys l) (ld_hal l) m (ld_getopt l) (ld_aliasBase l) (ld_w l).
Definition set_getopt (g : getopt) (l : loader) : loader :=
  mk_loader (ld_phfs l) (ld_sys l) (ld_hal l) (ld_ids l) g (ld_aliasBase l) (ld_w l).
Definition set_aliasBase (b : Z) (l : loader) : loader :=
  mk_loader (ld_phfs l) (ld_sys l) (ld_hal l) (ld_ids l) (ld_getopt l) b (ld_w l).
Definition set_w (w : W) (l : loader) : loader :=
  mk_loader (ld_phfs l) (ld_sys l) (ld_hal l) (ld_ids l) (ld_getopt l) (ld_aliasBase l) w.

(** ** The monad of the commands *)

Definition M (A : Type) : Type := loader -> option (A * loader).

#[export] Instance M_ret : MRet M := fun A a l => Some (a, l).
#[export] Instance M_bind : MBind M := fun A B f m l =>
  match m l with Some (a, l) => f a l | None => None end.

Definition fault {A} : M A := fun _ => None.
Definition lift {A} (o : option A) : M A := match o with Some a => mret a | None => fault end.
Definition get {A} (f : loader -> A) : M A := fun l => Some (f l, l).
Definition upd (f : loader -> loader) : M unit := fun l => Some (tt, f l).

(** An operation on the system page, and a query. *)
Definition sys {A} (f : syspage -> option (A * syspage)) : M A :=
  fun l => match f (ld_sys l) with Some (a, s) => Some (a, set_sys s l) | None => None end.
Definition sys_get {A} (f : syspage -> option A) : M A :=
  fun l => match f (ld_sys l) with Some a => Some (a, l) | None => None end.

(** ** The devices, and the memory *)

Record garbage := mk_garbage {
  g_buff : list Z;
  g_hdr : list Z;
  g_addr : Z;
  g_handler : handler;
  g_size : Z
}.

Context (t : devtab W) (fuel steps : nat) (smsg rmsg : msg) (mem_store : Z -> list Z -> W -> W) (gb : garbage).

(** An operation on the world that may answer a fault. *)
Definition world {A} (f : phfs_state -> W -> option (A * W)) : M A :=
  fun l => match f (ld_phfs l) (ld_w l) with Some (a, w) => Some (a, set_w w l) | None => None end.

Definition ph_open (alias : cstr) (file : option cstr) (flags : Z) (h : handler) : M (Z * handler) :=
  world (fun s w => '(r, h, w) ← phfs_open t fuel smsg rmsg s alias file flags h w; Some ((r, h), w)).
Definition ph_read (h : handler) (offs len : Z) : M (Z * list Z) :=
  world (fun s w => '(r, d, w) ← phfs_read t fuel smsg rmsg s h offs len w; Some ((r, d), w)).
Definition ph_write (h : handler) (offs : Z) (buff : list Z) : M Z :=
  world (fun s w => phfs_write t fuel smsg rmsg s h offs buff w).
Definition ph_close (h : handler) : M Z := world (fun s w => phfs_close t s h w).
Definition ph_map (h : handler) (addr sz mode memaddr memsz memmode : Z) : M (Z * option Z) :=
  world (fun s w => phfs_map t s h addr sz mode memaddr memsz memmode w).
Definition ph_stat (h : handler) : M (Z * option Z) :=
  world (fun s w => '(r, z, w) ← phfs_stat t fuel smsg rmsg s h w; Some ((r, z), w)).

(** [hal_memcpy] to memory *)
Definition memcpy (dst : Z) (bs : list Z) : M unit :=
  upd (fun l => set_w (mem_store dst bs (ld_w l)) l).

(** ** src/cmds/phfs.c *)

Definition cmd_phfs (argv : list cstr) : M Z :=
  let argc := zlen argv in
  if argc =? 1 then mret CMD_EXIT_SUCCESS
  else if (argc <? 3) || (4 <? argc) then mret CMD_EXIT_FAILURE
  else
    a1 ← lift (argv !! 1%nat);
    a2 ← lift (argv !! 2%nat);
    let '(major, endptr) := lib_strtoul a2 0 in
    if negb (deref endptr =? "."%ch) then mret CMD_EXIT_FAILURE
    else
      let '(minor, endptr) := lib_strtoul (tail endptr) 0 in
      if negb (deref endptr =? 0) then mret CMD_EXIT_FAILURE
      else
        s ← get ld_phfs;
        let '(res, s) := phfs_devReg t s (Some a1) (w32 major) (w32 minor) (argv !! 3%nat) in
        _ ← upd (set_phfs s);
        mret (if res <? 0 then CMD_EXIT_FAILURE else CMD_EXIT_SUCCESS).

(** ** src/cmds/map.c *)

Definition cmd_map (argv : list cstr) : M Z :=
  let argc := zlen argv in
  if argc =? 1 then mret CMD_EXIT_SUCCESS
  else if negb (argc =? 5) then mret CMD_EXIT_FAILURE
  else
    a1 ← lift (argv !! 1%nat);
    a2 ← lift (argv !! 2%nat);
    let '(start, endptr) := lib_strtoul a2 0 in
    if negb (deref endptr =? 0) then mret CMD_EXIT_FAILURE
    else
      a3 ← lift (argv !! 3%nat);
      let '(end_, endptr) := lib_strtoul a3 0 in
      if negb (deref endptr =? 0) then mret CMD_EXIT_FAILURE
      else
        a4 ← lift (argv !! 4%nat);
        hws ← get ld_hal;
        '(res, hws) ← sys (fun s => '(r, hws, s) ← syspage_mapAdd a1 start end_ a4 hws s; Some ((r, hws), s));
        _ ← upd (set_hal hws);
        mret (if res <? 0 then CMD_EXIT_FAILURE else CMD_EXIT_SUCCESS).

(** ** src/cmds/alias.c *)

(** The loop over the options: [inl] the result of the command, [inr relative]. *)
Fixpoint alias_options (k : nat) (argv : list cstr) (relative : bool) : M (Z + bool) :=
  match k with
  | O => fault
  | S k =>
      g ← get ld_getopt;
      '(c, g) ← lift (lib_getopt argv (str "rb:") g);
      _ ← upd (set_getopt g);
      if c <? 0 then mret (inr relative)
      else if c =? "r"%ch then alias_options k argv true
      else if c =? "b"%ch then
        if negb (zlen argv =? 3) then mret (inl CMD_EXIT_FAILURE)
        else
          arg ← lift (optarg g);
          let '(newBase, endptr) := lib_strtol arg 0 in
          if negb (deref endptr =? 0) then mret (inl CMD_EXIT_FAILURE)
          else
            _ ← upd (fun l => set_aliasBase (wa (if relative then ld_aliasBase l + newBase else newBase)) l);
            mret (inl CMD_EXIT_SUCCESS)
      else mret (inl CMD_EXIT_FAILURE)
  end.

(** Every option consumes a character of the arguments. *)
Definition cmd_alias (argv : list cstr) : M Z :=
  let argc := zlen argv in
  if argc =? 1 then mret CMD_EXIT_SUCCESS
  else
    r ← alias_options (S (length (concat argv))) argv false;
    match r with
    | inl res => mret res
    | inr relative =>
        g ← get ld_getopt;
        if negb (argc - optind g =? 3) then mret CMD_EXIT_FAILURE
        else
          a1 ← lift (argv !! Z.to_nat (optind g + 1));
          let '(addr, endptr) := lib_strtoul a1 0 in
          if negb (deref endptr =? 0) then mret CMD_EXIT_FAILURE
          else
            a2 ← lift (argv !! Z.to_nat (optind g + 2));
            let '(sz, endptr) := lib_strtoul a2 0 in
            if negb (deref endptr =? 0) then mret CMD_EXIT_FAILURE
            else
              base ← get ld_aliasBase;
              if relative && (wa (addr + base) <? addr) then mret CMD_EXIT_FAILURE
              else
                let addr := if relative then wa (addr + base) else addr in
                a0 ← lift (argv !! Z.to_nat (optind g));
                s ← get ld_phfs;
                let '(res, s) := phfs_aliasReg s (Some a0) addr sz in
                _ ← upd (set_phfs s);
                mret (if res <? 0 then CMD_EXIT_FAILURE else CMD_EXIT_SUCCESS)
    end.

(** ** src/cmds/copy.c *)

(** The inner loop: writes the first [chunk] bytes of [buff] as long as the device
    takes some; [inl] an error, [inr] the last result and [wsz]. *)
Fixpoint copy_write (k : nat) (dst : handler) (dstAddr : Z) (buff : list Z) (chunk wsz res : Z) : M (Z + Z * Z) :=
  match k with
  | O => fault
  | S k =>
      if chunk =? 0 then mret (inr (res, wsz))
      else
        bs ← lift (mbytes buff 0 chunk);
        res ← ph_write dst (wa (dstAddr + wsz)) bs;
        if res <? 0 then mret (inl res)
        else copy_write k dst dstAddr buff (wa (chunk - res)) (wa (wsz + res)) res
  end.

Fixpoint copy_loop (k : nat) (src : handler) (srcAddr srcSz : Z) (dst : handler) (dstAddr : Z)
    (buff : list Z) (rsz wsz : Z) : M Z :=
  match k with
  | O => fault
  | S k =>
      let left := wa (srcSz - rsz) in
      let chunk := if SIZE_MSG_BUFF <? left then SIZE_MSG_BUFF else left in
      '(res, data) ← ph_read src (wa (srcAddr + rsz)) chunk;
      if res <? 0 then mret res
      else
        buff ← lift (mstore buff 0 data);
        let rsz := wa (rsz + res) in
        r ← copy_write steps dst dstAddr buff res wsz res;
        match r with
        | inl err => mret err
        | inr (res, wsz) =>
            if (0 <? wa (srcSz - rsz)) && (0 <? res) then copy_loop k src srcAddr srcSz dst dstAddr buff rsz wsz
            else mret (sa wsz)
        end
  end.

Definition copy_size (srcSz dstSz : Z) : Z :=
  if (srcSz =? 0) && (dstSz =? 0) then addr_max
  else if negb (srcSz =? 0) && negb (dstSz =? 0) then (if srcSz <? dstSz then srcSz else dstSz)
  else if dstSz <? srcSz then srcSz else dstSz.

Definition cmd_cpphfs2phfs (src : handler) (srcAddr srcSz : Z) (dst : handler) (dstAddr dstSz : Z) : M Z :=
  copy_loop steps src srcAddr (copy_size srcSz dstSz) dst dstAddr (g_buff gb) 0 0.

(** The result, and what it stores: the handler, the offset, the size and the file,
    with the index of the next argument. *)
Definition cmd_devParse (argv : list cstr) (isDst : bool) (argvID : Z) (h : handler)
    : M (Z * handler * Z * Z * option cstr * Z) :=
  let flags := if isDst then Z.lor PHFS_OPEN_CREATE PHFS_OPEN_RDWR else PHFS_OPEN_RDONLY in
  alias ← lift (argv !! Z.to_nat argvID);
  let argvID := argvID + 1 in
  if zlen argv <=? argvID then mret (- EINVAL, h, 0, 0, None, argvID)
  else
    a ← lift (argv !! Z.to_nat argvID);
    let '(offs, endptr) := lib_strtoul a 0 in
    if negb (deref endptr =? 0) then
      '(res, h) ← ph_open alias (Some a) flags h;
      if res <? 0 then mret (res, h, 0, 0, Some a, argvID) else mret (EOK, h, 0, 0, Some a, argvID + 1)
    else
      let argvID := argvID + 1 in
      a ← lift (argv !! Z.to_nat argvID);
      let '(sz, endptr) := lib_strtoul a 0 in
      if negb (deref endptr =? 0) then mret (- EINVAL, h, offs, sz, None, argvID)
      else
        '(res, h) ← ph_open alias None 0 h;
        if res <? 0 then mret (res, h, offs, sz, None, argvID) else mret (EOK, h, offs, sz, None, argvID + 1).

Definition cmd_copy (argv : list cstr) : M Z :=
  if zlen argv <? 5 then mret CMD_EXIT_FAILURE
  else
    '(res, h0, offs0, sz0, file0, argvID) ← cmd_devParse argv false 1 (g_handler gb);
    if res <? 0 then mret CMD_EXIT_FAILURE
    else
      '(res, h1, offs1, sz1, file1, argvID) ← cmd_devParse argv true argvID (g_handler gb);
      if res <? 0 then _ ← ph_close h0; mret CMD_EXIT_FAILURE
      else
        res ← cmd_cpphfs2phfs h0 offs0 sz0 h1 offs1 sz1;
        _ ← ph_close h0;
        _ ← ph_close h1;
        if res <? 0 then mret CMD_EXIT_FAILURE
        else
          s ← get ld_phfs;
          let '(res, s) := phfs_aliasReg s (match file1 with None => file0 | Some _ => file1 end) offs1 (wa res) in
          _ ← upd (set_phfs s);
          mret (if res <? 0 then CMD_EXIT_FAILURE else CMD_EXIT_SUCCESS).

End loader.
