(* ===== verification/App.v ===== *)
(** * Loading programs, data and the kernel

    (src/cmds/app.c, src/cmds/blob.c, src/cmds/kernel.c, src/cmds/kernelimg.c)

    A file is placed in a map of the system page, either where the device already
    shows it to the processor or by copying it into a new entry, and described there
    as a program.  The fields of an ELF file are little-endian. *)

From S2P Require Import Prelude Mem CList CString Devs Msg Phfs Syspage SyspageMaps SyspageProgs Getopt Cmd Loader.

(** ** src/cmds/elf.h *)

Definition PHT_LOAD := 1.
Definition PHF_X := 1.
Definition sizeof_Elf32_Ehdr := 52.

Definition elf_magic (hdr : list Z) : bool :=
  (at_ hdr 0 =? 0x7f) && (at_ hdr 1 =? "E"%ch) && (at_ hdr 2 =? "L"%ch) && (at_ hdr 3 =? "F"%ch).

(** The unsigned field of [n] bytes at [off]. *)
Definition field (b : list Z) (off n : Z) : option Z := bs ← mbytes b off n; Some (le_val bs).

(** The headers of kernel.c: those of Elf64 on the 64-bit targets. *)
Record elf_layout := mk_elf_layout {
  sizeof_ehdr : Z; o_entry : Z; o_phoff : Z; o_phnum : Z; sizeof_phdr : Z;
  o_type : Z; o_flags : Z; o_offset : Z; o_vaddr : Z; o_filesz : Z; o_memsz : Z; o_align : Z; sz_addr : Z
}.

Definition elf32 : elf_layout := mk_elf_layout 52 24 28 44 32 0 24 4 8 16 20 28 4.
Definition elf64 : elf_layout := mk_elf_layout 64 24 32 56 56 0 4 8 16 32 40 48 8.

Section app.
  Context `{Target} `{SyspageTypes} `{SyspageHal} {W : Type}.
  Context (t : devtab W) (fuel steps : nat) (smsg rmsg : msg) (mem_store : Z -> list Z -> W -> W) (gb : garbage).

Abbreviation CM := (M (W := W)).
Abbreviation read := (ph_read t fuel smsg rmsg).

(** ** src/cmds/app.c *)

Fixpoint cp2ent_loop (k : nat) (h : handler) (start sz offs : Z) (buff : list Z) : CM Z :=
  match k with
  | O => fault
  | S k =>
      if offs <? sz then
        '(len, data) ← read h offs (umin SIZE_MSG_BUFF (wa (sz - offs)));
        if len <? 0 then mret (s32 len)
        else
          buff ← lift (mstore buff 0 data);
          bs ← lift (mbytes buff 0 len);
          _ ← memcpy mem_store (wa (start + offs)) bs;
          cp2ent_loop k h start sz (wa (offs + len)) buff
      else mret EOK
  end.

Definition cmd_cp2ent (h : handler) (e : mapent) : CM Z :=
  cp2ent_loop steps h (e_start e) (wa (e_end e - e_start e)) 0 (g_buff gb).

(** [mapIDs[i] = id] for the next [i]. *)
Definition store_id (mapIDs id : Z) : CM unit :=
  upd (fun l => set_ids (<[mapIDs := default [] (ld_ids l !! mapIDs) ++ [id]]> (ld_ids l)) l).

(** [mapNames] points to [nb] strings, one behind the other. *)
Fixpoint cmd_mapsAdd2Prog (mapIDs : Z) (nb : nat) (mapNames : list Z) : CM Z :=
  match nb with
  | O => mret EOK
  | S nb =>
      name ← lift (cstring mapNames);
      '(res, id) ← sys_get (syspage_mapNameResolve name);
      if res <? 0 then mret res
      else
        id ← lift id;
        _ ← store_id mapIDs id;
        cmd_mapsAdd2Prog mapIDs nb (zdrop (hal_strlen name + 1) mapNames)
  end.

(** The string with the separators cut to NULs, and the number of its parts. *)
Fixpoint cmd_mapsParse (maps : cstr) (sep : Z) : list Z * Z :=
  match maps with
  | [] => ([0], 1)
  | c :: maps =>
      let '(bs, nb) := cmd_mapsParse maps sep in
      if c =? sep then (0 :: bs, nb + 1) else (c :: bs, nb)
  end.

(** The place of the file: the result, and the entry on success. *)
Definition app_place (h : handler) (size : Z) (imap : cstr) (flags : Z) : CM (Z * Z) :=
  '(res, attr) ← sys_get (syspage_mapAttrResolve imap);
  if res <? 0 then mret (- EINVAL, NULL)
  else
    attr ← lift attr;
    '(res, range) ← sys_get (syspage_mapRangeResolve imap);
    if res <? 0 then mret (- EINVAL, NULL)
    else
      '(start, end_) ← lift range;
      s ← get ld_phfs;
      let '(res, offs) := phfs_aliasAddrResolve s h in
      let offs := if res <? 0 then 0 else default 0 offs in
      '(res, addr) ← ph_map t h offs size (Z.lor mAttrRead mAttrExec) start (wa (end_ - start)) attr;
      let addr := default (g_addr gb) addr in
      if res <? 0 then mret (res, NULL)
      else if (res =? dev_isMappable) ||
          ((res =? dev_isNotMappable) && negb (Z.land flags flagSyspageNoCopy =? 0)) then
        entry ← sys (syspage_entryAdd None (wa (addr + offs)) size SIZE_PAGE);
        mret (if entry =? NULL then - ENOMEM else EOK, entry)
      else if res =? dev_isNotMappable then
        entry ← sys (syspage_entryAdd (Some imap) addr_max size SIZE_PAGE);
        if entry =? NULL then mret (- ENOMEM, NULL)
        else
          e ← sys_get (fun s => s_entt s !! entry);
          res ← cmd_cp2ent h e;
          mret (if res <? 0 then res else EOK, entry)
      else mret (- ENOMEM, NULL).

(** A store to a field of the program [p]. *)
Definition prog_upd (f : prog -> prog) (p : Z) : CM unit :=
  sys (fun s => h ← store_upd f p (s_progt s); Some (tt, set_progt h s)).

Definition set_imaps (a : Z) (p : prog) : prog :=
  mk_prog (p_next p) (p_prev p) (p_start p) (p_end p) (p_argv p) a (p_imapSz p) (p_dmaps p) (p_dmapSz p).
Definition set_dmaps (a : Z) (p : prog) : prog :=
  mk_prog (p_next p) (p_prev p) (p_start p) (p_end p) (p_argv p) (p_imaps p) (p_imapSz p) a (p_dmapSz p).
Definition set_sizes (imapSz dmapSz start end_ : Z) (p : prog) : prog :=
  mk_prog (p_next p) (p_prev p) start end_ (p_argv p) (p_imaps p) imapSz (p_dmaps p) dmapSz.

(** The arrays of map numbers and the range of the new program [p]. *)
Definition app_fill (p entry : Z) (imaps : list Z) (imapSz : Z) (dmaps : list Z) (dmapSz : Z) : CM Z :=
  ia ← sys (fun s => Some (syspage_alloc imapSz s));
  _ ← prog_upd (set_imaps ia) p;
  if ia =? NULL then mret (- ENOMEM)
  else
    da ← sys (fun s => Some (syspage_alloc dmapSz s));
    _ ← prog_upd (set_dmaps da) p;
    if da =? NULL then mret (- ENOMEM)
    else
      res ← cmd_mapsAdd2Prog ia (Z.to_nat imapSz) imaps;
      if res <? 0 then mret res
      else
        res ← cmd_mapsAdd2Prog da (Z.to_nat dmapSz) dmaps;
        if res <? 0 then mret res
        else
          e ← sys_get (fun s => s_entt s !! entry);
          _ ← prog_upd (set_sizes imapSz dmapSz (e_start e) (e_end e)) p;
          mret EOK.

(** The program for the entry. *)
Definition app_prog (entry : Z) (appArgv : cstr) (flags : Z) (imaps : list Z) (imapSz : Z) (dmaps : list Z)
    (dmapSz : Z) : CM Z :=
  p ← sys (syspage_progAdd appArgv flags);
  if p =? NULL then mret (- ENOMEM) else app_fill p entry imaps imapSz dmaps dmapSz.

Definition cmd_appLoad (h : handler) (size : Z) (imaps dmaps appArgv : cstr) (flags : Z) : CM Z :=
  '(res, data) ← read h 0 sizeof_Elf32_Ehdr;
  let res := s32 res in
  if res <? 0 then mret res
  else
    hdr ← lift (mstore (ztake sizeof_Elf32_Ehdr (g_hdr gb)) 0 data);
    if negb (elf_magic hdr) then mret (- EIO)
    else
      let '(imaps, imapSz) := cmd_mapsParse imaps ";"%ch in
      let '(dmaps, dmapSz) := cmd_mapsParse dmaps ";"%ch in
      imap ← lift (cstring imaps);
      '(res, entry) ← app_place h size imap flags;
      if res <? 0 then mret res
      else app_prog entry appArgv flags imaps imapSz dmaps dmapSz.

(** The option of [argv[2]]: the flags and the index of the next argument. *)
Definition app_flags (a : cstr) : option (Z * nat) :=
  if deref a =? "-"%ch then
    if (Z.lor (at_ a 1) 0x20 =? "x"%ch) && (at_ a 2 =? 0) then Some (flagSyspageExec, 3%nat)
    else if (Z.lor (at_ a 1) 0x20 =? "x"%ch) && (Z.lor (at_ a 2) 0x20 =? "n"%ch) && (at_ a 3 =? 0) then
      Some (Z.lor flagSyspageExec flagSyspageNoCopy, 3%nat)
    else None
  else Some (0, 2%nat).

(** The part of the string in front of the first separator. *)
Fixpoint until (sep : Z) (s : cstr) : cstr :=
  match s with
  | [] => []
  | c :: s => if c =? sep then [] else c :: until sep s
  end.

Definition cmd_app (argv : list cstr) : CM Z :=
  let argc := zlen argv in
  if argc =? 1 then mret CMD_EXIT_SUCCESS
  else if (argc <? 5) || (6 <? argc) then mret CMD_EXIT_FAILURE
  else
    a2 ← lift (argv !! 2%nat);
    match app_flags a2 with
    | None => mret CMD_EXIT_FAILURE
    | Some (flags, argvID) =>
        if negb (Z.of_nat argvID =? argc - 3) then mret CMD_EXIT_FAILURE
        else
          appArgv ← lift (argv !! argvID);
          let name := until ";"%ch appArgv in
          if SIZE_CMD_ARG_LINE <=? zlen name then fault
          else
            imaps ← lift (argv !! S argvID);
            dmaps ← lift (argv !! S (S argvID));
            a1 ← lift (argv !! 1%nat);
            '(res, h) ← ph_open t fuel smsg rmsg a1 (Some name) 0 (g_handler gb);
            if res <? 0 then mret CMD_EXIT_FAILURE
            else
              '(res, size) ← ph_stat t fuel smsg rmsg h;
              if res <? 0 then _ ← ph_close t h; mret CMD_EXIT_FAILURE
              else
                res ← cmd_appLoad h (default (g_size gb) size) imaps dmaps appArgv flags;
                _ ← ph_close t h;
                mret (if res <? 0 then CMD_EXIT_FAILURE else CMD_EXIT_SUCCESS)
    end.

(** ** src/cmds/blob.c *)

Definition blob_place (h : handler) (size : Z) (map : cstr) : CM (Z * Z) :=
  s ← get ld_phfs;
  let '(res, offs) := phfs_aliasAddrResolve s h in
  let offs := if res <? 0 then 0 else default 0 offs in
  '(res, attr) ← sys_get (syspage_mapAttrResolve map);
  if res <? 0 then mret (- EINVAL, NULL)
  else
    attr ← lift attr;
    '(res, range) ← sys_get (syspage_mapRangeResolve map);
    if res <? 0 then mret (- EINVAL, NULL)
    else
      '(start, end_) ← lift range;
      '(res, addr) ← ph_map t h offs size mAttrRead start (wa (end_ - start)) attr;
      let addr := default (g_addr gb) addr in
      if res <? 0 then mret (res, NULL)
      else if res =? dev_isMappable then
        entry ← sys (syspage_entryAdd None (wa (addr + offs)) size SIZE_PAGE);
        mret (if entry =? NULL then - ENOMEM else EOK, entry)
      else if res =? dev_isNotMappable then
        entry ← sys (syspage_entryAdd (Some map) addr_max size SIZE_PAGE);
        if entry =? NULL then mret (- ENOMEM, NULL)
        else
          e ← sys_get (fun s => s_entt s !! entry);
          res ← cmd_cp2ent h e;
          mret (if res <? 0 then res else EOK, entry)
      else mret (- ENOMEM, NULL).

(** A program that could not be added is stored to all the same. *)
Definition cmd_blobLoad (h : handler) (size : Z) (name map : cstr) : CM Z :=
  '(res, entry) ← blob_place h size map;
  if res <? 0 then mret res
  else
    p ← sys (syspage_progAdd name 0);
    e ← sys_get (fun s => s_entt s !! entry);
    _ ← prog_upd (set_range (e_start e) (e_end e)) p;
    mret EOK.

Definition cmd_blob (argv : list cstr) : CM Z :=
  let argc := zlen argv in
  if argc =? 1 then mret CMD_EXIT_SUCCESS
  else if negb (argc =? 4) then mret CMD_EXIT_FAILURE
  else
    dev ← lift (argv !! 1%nat);
    name ← lift (argv !! 2%nat);
    map ← lift (argv !! 3%nat);
    '(res, h) ← ph_open t fuel smsg rmsg dev (Some name) 0 (g_handler gb);
    if res <? 0 then mret CMD_EXIT_FAILURE
    else
      '(res, size) ← ph_stat t fuel smsg rmsg h;
      if res <? 0 then _ ← ph_close t h; mret CMD_EXIT_FAILURE
      else
        res ← cmd_blobLoad h (default (g_size gb) size) name map;
        _ ← ph_close t h;
        mret (if res <? 0 then CMD_EXIT_FAILURE else CMD_EXIT_SUCCESS).

(** ** src/cmds/kernel.c *)

(** [PATH_KERNEL] of the platform's config.h; its address translation and the
    function that notes the kernel's entry point. *)
Context (PATH_KERNEL : cstr) (hal_kernelGetAddress : Z -> Z) (hal_kernelEntryPoint : Z -> W -> W).

Definition elf_of_target : elf_layout := if addr_bits =? 64 then elf64 else elf32.

(** The copy of a segment: [inl] a failure. *)
Fixpoint segment_loop (k : nat) (h : handler) (start filesz elfOffs segOffs : Z) (buff : list Z) : CM (option Z) :=
  match k with
  | O => fault
  | S k =>
      if segOffs <? filesz then
        '(res, data) ← read h elfOffs (umin SIZE_MSG_BUFF (wa (filesz - segOffs)));
        if res <? 0 then mret (Some CMD_EXIT_FAILURE)
        else
          buff ← lift (mstore buff 0 data);
          bs ← lift (mbytes buff 0 res);
          _ ← memcpy mem_store (wa (start + segOffs)) bs;
          segment_loop k h start filesz (wa (elfOffs + res)) (wa (segOffs + res)) buff
      else mret None
  end.

(** The loop over the program headers, [k] of them left: [inl] a failure, [inr] the
    address of the kernel. *)
Fixpoint segments_loop (k : nat) (h : handler) (phoff i kernelPAddr : Z) (phdr buff : list Z) : CM (Z + Z) :=
  match k with
  | O => mret (inr kernelPAddr)
  | S k =>
      let L := elf_of_target in
      '(res, data) ← read h (wa (phoff + i * sizeof_phdr L)) (sizeof_phdr L);
      if res <? 0 then _ ← ph_close t h; mret (inl CMD_EXIT_FAILURE)
      else
        phdr ← lift (mstore phdr 0 data);
        type ← lift (field phdr (o_type L) 4);
        if negb (type =? PHT_LOAD) then segments_loop k h phoff (i + 1) kernelPAddr phdr buff
        else
          vaddr ← lift (field phdr (o_vaddr L) (sz_addr L));
          memsz ← lift (field phdr (o_memsz L) (sz_addr L));
          filesz ← lift (field phdr (o_filesz L) (sz_addr L));
          offset ← lift (field phdr (o_offset L) (sz_addr L));
          align ← lift (field phdr (o_align L) (sz_addr L));
          pflags ← lift (field phdr (o_flags L) 4);
          entry ← sys (syspage_entryAdd None (hal_kernelGetAddress vaddr) memsz (w32 align));
          if entry =? NULL then _ ← ph_close t h; mret (inl CMD_EXIT_FAILURE)
          else
            e ← sys_get (fun s => s_entt s !! entry);
            let kernelPAddr := if negb (Z.land pflags PHF_X =? 0) then e_start e else kernelPAddr in
            r ← segment_loop steps h (e_start e) filesz offset 0 buff;
            match r with
            | Some res => _ ← ph_close t h; mret (inl res)
            | None => segments_loop k h phoff (i + 1) kernelPAddr phdr buff
            end
  end.

(** [garbage_phdr] is the uninitialised program header. *)
Definition cmd_kernel (garbage_phdr : list Z) (argv : list cstr) : CM Z :=
  let argc := zlen argv in
  if (argc =? 1) || (3 <? argc) then mret CMD_EXIT_FAILURE
  else
    a1 ← lift (argv !! 1%nat);
    let kname := default PATH_KERNEL (argv !! 2%nat) in
    '(res, h) ← ph_open t fuel smsg rmsg a1 (Some kname) 0 (g_handler gb);
    if res <? 0 then mret CMD_EXIT_FAILURE
    else
      let L := elf_of_target in
      '(res, data) ← read h 0 (sizeof_ehdr L);
      if res <? 0 then _ ← ph_close t h; mret CMD_EXIT_FAILURE
      else
        hdr ← lift (mstore (ztake (sizeof_ehdr L) (g_hdr gb)) 0 data);
        if negb (elf_magic hdr) then _ ← ph_close t h; mret CMD_EXIT_FAILURE
        else
          phnum ← lift (field hdr (o_phnum L) 2);
          phoff ← lift (field hdr (o_phoff L) (sz_addr L));
          r ← segments_loop (Z.to_nat phnum) h phoff 0 addr_max garbage_phdr (g_buff gb);
          match r with
          | inl res => mret res
          | inr kernelPAddr =>
              e_entry ← lift (field hdr (o_entry L) (sz_addr L));
              _ ← upd (fun l => set_w (hal_kernelEntryPoint (hal_kernelGetAddress e_entry) (ld_w l)) l);
              _ ← sys (fun s => Some (tt, syspage_kernelPAddrAdd kernelPAddr s));
              _ ← ph_close t h;
              mret CMD_EXIT_SUCCESS
          end.

(** ** src/cmds/kernelimg.c *)

(** The entry point of the platform: its offset in the image, and whether it is
    there that the address is read. *)
Context (hal_kernelGetEntryPointOffset : Z * bool).

(** The four numbers behind the name. *)
Definition hex_arg (a : cstr) : option Z :=
  let '(v, endptr) := lib_strtoul a 16 in if negb (deref endptr =? 0) then None else Some v.

(** [garbage_kentry] are the bytes of the uninitialised [kentry]. *)
Definition cmd_kernelimg (garbage_kentry : list Z) (argv : list cstr) : CM Z :=
  let argc := zlen argv in
  if (argc <? 6) || (7 <? argc) then mret CMD_EXIT_FAILURE
  else
    a1 ← lift (argv !! 1%nat);
    kname ← (if argc =? 7 then lift (argv !! 2%nat) else mret PATH_KERNEL);
    '(res, h) ← ph_open t fuel smsg rmsg a1 (Some kname) 0 (g_handler gb);
    if res <? 0 then mret CMD_EXIT_FAILURE
    else
      let fail := _ ← ph_close t h; mret CMD_EXIT_FAILURE in
      let '(entryoff, indirect) := hal_kernelGetEntryPointOffset in
      '(res, kentry) ←
        (if indirect then
           '(res, data) ← read h entryoff (addr_bits / 8);
           kentry ← lift (mstore garbage_kentry 0 data);
           mret (res, le_val kentry)
         else mret (0, entryoff));
      if res <? 0 then fail
      else
        b1 ← lift (argv !! Z.to_nat (argc - 4));
        b2 ← lift (argv !! Z.to_nat (argc - 3));
        b3 ← lift (argv !! Z.to_nat (argc - 2));
        b4 ← lift (argv !! Z.to_nat (argc - 1));
        match hex_arg b1, hex_arg b2, hex_arg b3, hex_arg b4 with
        | Some tbeg, Some tsz, Some dbeg, Some dsz =>
            s ← get ld_phfs;
            let '(res, offs) := phfs_aliasAddrResolve s h in
            let offs := if res <? 0 then 0 else default 0 offs in
            '(res, size) ← ph_stat t fuel smsg rmsg h;
            if res <? 0 then fail
            else
              '(res, _) ← ph_map t h offs (default (g_size gb) size) (Z.lor mAttrRead mAttrExec) tbeg tsz
                (Z.lor mAttrRead mAttrExec);
              if res <? 0 then fail
              else if negb (res =? dev_isMappable) then fail
              else
                entry ← sys (syspage_entryAdd None tbeg tsz sizeof_long_long);
                if entry =? NULL then fail
                else
                  entry ← sys (syspage_entryAdd None dbeg dsz sizeof_long_long);
                  if entry =? NULL then fail
                  else
                    _ ← upd (fun l => set_w (hal_kernelEntryPoint (hal_kernelGetAddress kentry) (ld_w l)) l);
                    _ ← ph_close t h;
                    mret CMD_EXIT_SUCCESS
        | _, _, _, _ => fail
        end.

End app.
