(* ===== verification/AppLoad.v ===== *)
(** * Loading a program: correctness

    [cmd_appLoad] is specified against an interface of the file, [FileSource]: what
    a read answers, what the driver says of mapping it, and which memory is not
    part of the file.  RamFile.v implements it for a file on a RAM disk. *)

From S2P Require Import Prelude Mem CList CString Devs Msg Phfs Syspage SyspageMaps SyspageProgs Getopt Cmd PMem Loader App.

(** ** Interfaces *)

(** The memory of the world. *)
Class LoadMem (W : Type) (mem_store : Z -> list Z -> W -> W) := {
  w_mem : W -> pmem;
  w_mem_store : forall a bs w, w_mem (mem_store a bs w) ≡ mem_write a bs (w_mem w)
}.

(** An open file with [content] that has to be copied to a map of [lo, hi), in the
    worlds of [inv]; [inv] does not depend on the memory there, and the driver
    leaves all memory alone. *)
Record FileSource `{Target} {W} (t : devtab W) (fuel : nat) (smsg rmsg : msg) (mem_store : Z -> list Z -> W -> W)
    `{!LoadMem W mem_store} (s : phfs_state) (h : handler) (content : list Z) (lo hi : Z) (inv : W -> Prop) := {
  src_read : forall w offs n, inv w -> 0 <= offs < zlen content -> 0 < n <= SIZE_MSG_BUFF ->
    exists res data w', phfs_read t fuel smsg rmsg s h offs n w = Some (res, data, w') /\
      inv w' /\ w_mem w' ≡ w_mem w /\
      (- 2 ^ 31 <= res < 0 \/ 0 < res <= n /\ zlen data = res /\ data = zslice offs res content);
  src_map : forall w offs sz mode attr, inv w ->
    exists res a w', phfs_map t s h offs sz mode lo (wa (hi - lo)) attr w = Some ((res, a), w') /\
      inv w' /\ w_mem w' ≡ w_mem w /\ (res < 0 \/ res = dev_isNotMappable);
  src_store : forall w a bs, inv w -> lo <= a -> a + zlen bs <= hi -> inv (mem_store a bs w)
}.

(** ** The strings of map names *)

(** The parts of a string between separators. *)
Fixpoint parts (sep : Z) (s : cstr) : list cstr :=
  match s with
  | [] => [[]]
  | c :: s =>
      if c =? sep then [] :: parts sep s
      else match parts sep s with p :: ps => (c :: p) :: ps | [] => [[c]] end
  end.

Definition terminated (ps : list cstr) : list Z := concat ((fun p => p ++ [0]) <$> ps).

Lemma cmd_mapsParse_spec sep s :
  cmd_mapsParse s sep = (terminated (parts sep s), zlen (parts sep s)) /\ parts sep s <> [].
Proof.
  induction s as [|c s [IH N]]; [done|]. cbn [cmd_mapsParse parts]. rewrite IH.
  destruct (c =? sep); cbn [length].
  - split; [|done]. f_equal. lia.
  - destruct (parts sep s) as [|p ps]; [done|]. done.
Qed.

Lemma parts_ok sep s : cstr_ok s -> Forall cstr_ok (parts sep s).
Proof.
  induction 1 as [|c s C F IH]; cbn; [by repeat constructor|].
  destruct (c =? sep); [constructor; [constructor|done]|].
  destruct (parts sep s) as [|p ps]; [constructor; [by apply cstr_ok_cons; split; [done|constructor]|constructor]|].
  apply Forall_cons in IH as [? ?]. constructor; [by apply cstr_ok_cons|done].
Qed.

Lemma cstr_ok_nonzero s : cstr_ok s -> Forall (fun c => c <> 0) s.
Proof. intros O. eapply Forall_impl; [exact O|]. cbn. lia. Qed.

Lemma cstring_terminated names name :
  Forall cstr_ok names -> head names = Some name -> cstring (terminated names) = Some name.
Proof.
  intros F E. destruct F as [|n ns O F]; [done|]. injection E as ->. unfold terminated. cbn [fmap list_fmap concat].
  rewrite <- app_assoc. cbn [app]. by rewrite cstring_app by (by apply cstr_ok_nonzero).
Qed.

(** The number of the map a name stands for. *)
Definition map_no (ms : list amap) (name : cstr) : option Z :=
  head (omap (fun am => if named name am then Some (w8 (a_id am)) else None) ms).

Section run.
  Context `{Target} `{SyspageTypes} `{SyspageHal} {W : Type}.
  Context (t : devtab W) (fuel steps : nat) (smsg rmsg : msg) (mem_store : Z -> list Z -> W -> W) (gb : garbage).
  Context `{!LoadMem W mem_store}.

Abbreviation CM := (M (W := W)).

(** ** Running the monad *)

Lemma bind_eq {A B} (m : CM A) (f : A -> CM B) l :
  (x ← m; f x) l = match m l with Some (a, l) => f a l | None => None end.
Proof. done. Qed.

Lemma sys_run {A} (f : syspage -> option (A * syspage)) (l : loader (W := W)) a s :
  f (ld_sys l) = Some (a, s) -> sys f l = Some (a, set_sys s l).
Proof. intros E. unfold sys. by rewrite E. Qed.

Lemma sys_get_run {A} (f : syspage -> option A) (l : loader (W := W)) a :
  f (ld_sys l) = Some a -> sys_get f l = Some (a, l).
Proof. intros E. unfold sys_get. by rewrite E. Qed.

(** ** Numbers of maps *)

Lemma mapNameResolve_spec s ms name :
  sys_at s ms -> cstr_ok name -> Forall (fun am => cstr_ok (a_name am)) ms ->
  syspage_mapNameResolve name s =
    Some (match map_no ms name with Some id => (EOK, Some id) | None => (- EINVAL, None) end).
Proof.
  intros S N F. unfold syspage_mapNameResolve. rewrite (syspage_mapGet_spec s ms) by done.
  cbn [mbind option_bind]. unfold map_no. destruct S as (_ & M & _). clear F.
  induction M as [|am ms (m & Em & _ & _ & _ & Id & _) M IH]; [done|]. cbn [omap list_omap].
  destruct (named name am); [|exact IH]. cbn [head]. rewrite Em. cbn [mbind option_bind]. by rewrite Id.
Qed.

(** The array gets the numbers of the maps, up to the first name that is not a map's. *)
Lemma cmd_mapsAdd2Prog_spec (l : loader (W := W)) ms p names rest :
  sys_at (ld_sys l) ms -> Forall (fun am => cstr_ok (a_name am)) ms -> Forall cstr_ok names ->
  exists res ids, cmd_mapsAdd2Prog p (length names) (terminated names ++ rest) l = Some (res, set_ids ids l) /\
    (forall q, q <> p -> ids !! q = ld_ids l !! q) /\
    match mapM (map_no ms) names with
    | Some nos => res = EOK /\ default [] (ids !! p) = default [] (ld_ids l !! p) ++ nos
    | None => res = - EINVAL
    end.
Proof.
  intros S Fm Fn. revert l S. induction Fn as [|name names On Fn IH]; intros l S.
  { exists EOK, (ld_ids l). cbn. rewrite app_nil_r. split; [by destruct l|done]. }
  cbn [length cmd_mapsAdd2Prog]. unfold terminated. cbn [fmap list_fmap concat]. rewrite <- !app_assoc. cbn [app].
  rewrite cstring_app by (by apply cstr_ok_nonzero). cbn [lift]. rewrite bind_eq.
  cbn [mret M_ret]. rewrite bind_eq, (sys_get_run _ _ _ (mapNameResolve_spec _ ms name S On Fm)).
  cbn [mapM]. destruct (map_no ms name) as [id|] eqn:E.
  2: { exists (- EINVAL), (ld_ids l). cbn. split; [by destruct l|done]. }
  change (EOK <? 0) with false. cbn iota. cbn [lift]. rewrite bind_eq. cbn [mret M_ret]. rewrite bind_eq.
  unfold store_id, upd. set (l1 := set_ids _ l).
  destruct (IH l1) as (res & ids & R & Fr & Res); [exact S|]. exists res, ids.
  rewrite hal_strlen_length. replace (Z.to_nat (zlen name + 1)) with (length (name ++ [0]))
    by (rewrite length_app; cbn; lia).
  change (name ++ 0 :: concat ((fun p => p ++ [0]) <$> names) ++ rest) with
    (name ++ [0] ++ (terminated names ++ rest)). rewrite app_assoc, drop_app_length.
  split; [by rewrite R|]. split.
  - intros q Nq. rewrite Fr by done. cbn. by rewrite lookup_insert_ne.
  - cbn [mbind option_bind]. destruct (mapM (map_no ms) names) as [nos|]; [|done].
    destruct Res as [-> Ei]. cbn. split; [done|]. rewrite Ei. cbn. rewrite lookup_insert_eq. cbn.
    by rewrite <- app_assoc.
Qed.

(** ** The copy *)

(** What an access needs to be exact: no address wraps. *)
Definition fits (start sz : Z) : Prop := 0 <= start /\ 0 <= sz /\ start + sz < 2 ^ 32.

(** A read of the file fails, or the driver refuses to map it. *)
Definition dev_fails (s : phfs_state) (h : handler) (inv : W -> Prop) : Prop :=
  exists w r, inv w /\ r < 0 /\
    ((exists offs n data w', phfs_read t fuel smsg rmsg s h offs n w = Some (r, data, w')) \/
     (exists offs sz mode start len attr a w', phfs_map t s h offs sz mode start len attr w = Some ((r, a), w'))).

Lemma cp2ent_loop_spec s h content lo hi inv start sz k offs buff m0 (l : loader (W := W)) :
  FileSource t fuel smsg rmsg mem_store s h content lo hi inv ->
  ld_phfs l = s -> inv (ld_w l) -> fits start sz -> lo <= start -> start + sz <= hi -> sz = zlen content ->
  0 <= offs <= sz -> sz - offs < Z.of_nat k -> zlen buff = SIZE_MSG_BUFF ->
  w_mem (ld_w l) ≡ mem_write start (ztake offs content) m0 ->
  exists res w n, cp2ent_loop t fuel smsg rmsg mem_store k h start sz offs buff l = Some (res, set_w w l) /\
    inv w /\ 0 <= n <= sz /\ w_mem w ≡ mem_write start (ztake n content) m0 /\
    (res = EOK /\ n = sz \/ res < 0 /\ dev_fails s h inv).
Proof.
  intros Src. revert offs buff l. induction k as [|k IH]; intros offs buff l Es I Fit L1 L2 Sz O K B Me; [lia|].
  destruct Fit as (F1 & F2 & F3). pose proof addr_bits_ge32. cbn [cp2ent_loop]. unfold SIZE_MSG_BUFF in *.
  destruct (Z.ltb_spec offs sz) as [Lt|Ge].
  2: { exists EOK, (ld_w l), offs. split; [by destruct l|]. split; [done|]. split; [done|]. split; [done|].
       left. split; [done|lia]. }
  rewrite bind_eq, (wa_small (sz - offs)) by lia. unfold ph_read, world. rewrite Es.
  set (c := umin 256 (sz - offs)). assert (Hc : c = Z.min 256 (sz - offs)) by (unfold c, umin; cases_ifs; lia).
  destruct (src_read _ _ _ _ _ _ _ _ _ _ _ Src (ld_w l) offs c I ltac:(lia) ltac:(unfold SIZE_MSG_BUFF; lia))
    as (res & data & w1 & Er & I1 & M1 & D). rewrite Er. cbn [mbind option_bind].
  destruct D as [D|(D1 & D2 & D3)].
  - destruct (Z.ltb_spec res 0); [|lia]. exists (s32 res), w1, offs. split; [done|]. split; [done|]. split; [lia|].
    split; [by rewrite M1|]. right. split; [|exists (ld_w l), res; split_and!; [done|lia|left; by eauto]].
    rewrite s32_neg; lia.
  - destruct (Z.ltb_spec res 0); [lia|]. rewrite mstore_ok by lia. cbn [lift]. rewrite bind_eq.
    cbn [mret M_ret]. rewrite bind_eq. set (buff1 := splice 0 data buff).
    assert (Lb : length buff1 = length buff) by (apply length_splice; lia).
    rewrite mbytes_ok by lia. cbn [lift mret M_ret]. rewrite bind_eq. unfold memcpy, upd.
    assert (Ed : zslice 0 res buff1 = data) by (apply zslice_splice_same; lia). rewrite Ed.
    rewrite (wa_small (start + offs)), (wa_small (offs + res)) by lia.
    set (l1 := set_w _ _).
    destruct (IH (offs + res) buff1 l1) as (r & w & n & R & Iw & N & Mw & Res); try done; try lia.
    + cbn. apply (src_store _ _ _ _ _ _ _ _ _ _ _ Src); done || lia.
    + cbn. rewrite w_mem_store, M1, Me.
      assert (Lt1 : zlen (ztake offs content) = offs) by (rewrite length_take; lia).
      rewrite <- Lt1 at 1. rewrite mem_write_app. f_equiv.
      rewrite <- !zslice_0, (zslice_app 0 offs res) by lia. by rewrite D3.
    + exists r, w, n. split; [exact R|]. split; [done|]. split; [done|]. by split.
Qed.

(** The file is in memory at [start]. *)
Lemma mem_read_content start content m m' :
  m' ≡ mem_write start (ztake (zlen content) content) m -> mem_read start (zlen content) m' = content.
Proof. intros E. rewrite E, take_ge by lia. apply mem_read_write. Qed.

(** ** The place of the file *)

Section place.
  Context (s : phfs_state) (h : handler) (content : list Z) (inv : W -> Prop) (ms : list amap) (i : nat) (am : amap).
  Context (Src : FileSource t fuel smsg rmsg mem_store s h content (a_start am) (a_end am) inv).
  Context (Names : Forall (fun am => cstr_ok (a_name am)) ms) (Alloc : can_alloc ms i am 12 (zlen content)).
  Context (Steps : zlen content < Z.of_nat steps) (Buff : zlen (g_buff gb) = SIZE_MSG_BUFF).

(** What the loader has so far: maps, programs and arrays of map numbers below the
    top of the heap. *)
Definition ld_ok (l : loader (W := W)) (ms : list amap) (gs : list aprog) : Prop :=
  sys_at (ld_sys l) ms /\ progs_at (ld_sys l) gs /\
  (forall p, p ∈ dom (ld_ids l) -> p < s_heapTop (ld_sys l)).

(** The memory outside of the map is as before. *)
Definition mem_kept (w w' : W) : Prop :=
  forall x, x < a_start am \/ a_end am <= x -> w_mem w' x = w_mem w x.

(** An entry of the map with the file in it. *)
Definition placed (l : loader (W := W)) (entry st : Z) (ps : list Z) : Prop :=
  (SIZE_PAGE | st) /\ a_start am <= st /\ st + zlen content <= a_end am /\ Forall (apart st (zlen content)) (a_ents am) /\
  sys_at (ld_sys l) (allocated ms i am st (zlen content) ps) /\
  (exists e, s_entt (ld_sys l) !! entry = Some e /\ e_start e = st /\ e_end e = st + zlen content) /\
  mem_read st (zlen content) (w_mem (ld_w l)) = content.

(** No gap of the map is big enough. *)
Definition no_gap : Prop :=
  a_ents am <> [] /\ forall g, g ∈ gaps (2 ^ 12) (a_start am) (a_end am) (a_ents am) -> g.2 < zlen content.

(** The heap has no more than [n] bytes left. *)
Definition heap_short (s : syspage) (n : Z) : Prop := s_heapEnd s <= s_heapTop s + n.

Lemma app_place_spec (l : loader (W := W)) gs flags :
  ld_phfs l = s -> inv (ld_w l) -> ld_ok l ms gs -> Z.land flags flagSyspageNoCopy = 0 ->
  exists res entry l', app_place t fuel steps smsg rmsg mem_store gb h (zlen content) (a_name am) flags l =
      Some ((res, entry), l') /\
    ld_phfs l' = s /\ inv (ld_w l') /\ mem_kept (ld_w l) (ld_w l') /\
    ((res < 0 /\ (dev_fails s h inv \/ no_gap \/ heap_short (ld_sys l) (sizeof_mapent + 8)) /\
       (ld_ok l' ms gs \/ exists st ps, ld_ok l' (allocated ms i am st (zlen content) ps) gs)) \/
     (res = EOK /\ s_heapEnd (ld_sys l') = s_heapEnd (ld_sys l) /\
       s_heapTop (ld_sys l') < s_heapTop (ld_sys l) + sizeof_mapent + 8 /\ exists st ps, placed l' entry st ps /\ ld_ok l' (allocated ms i am st (zlen content) ps) gs)).
Proof.
  intros Es I (S & P & Ids) Fl. destruct Alloc as (E & N & Sz & F & Ne).
  destruct (sys_at_lookup _ ms i am S E) as (m & Em & Ms & Mend & Ma & _).
  pose proof (syspage_mapGet_at _ ms i am S Names E N) as G. unfold app_place.
  rewrite bind_eq, (sys_get_run _ l (EOK, Some (m_attr m)))
    by (unfold syspage_mapAttrResolve; rewrite G; cbn [mbind option_bind]; by rewrite Em).
  change (EOK <? 0) with false. cbn iota. rewrite bind_eq. cbn [lift mret M_ret].
  rewrite bind_eq, (sys_get_run _ l (EOK, Some (m_start m, m_end m)))
    by (unfold syspage_mapRangeResolve; rewrite G; cbn [mbind option_bind]; by rewrite Em).
  change (EOK <? 0) with false. cbn iota. rewrite bind_eq. cbn [lift mret M_ret].
  rewrite bind_eq. unfold get. rewrite Es. destruct (phfs_aliasAddrResolve s h) as [ra offs].
  rewrite bind_eq. unfold ph_map, world. rewrite Es. set (offs' := if ra <? 0 then 0 else _). rewrite Ms, Mend.
  destruct (src_map _ _ _ _ _ _ _ _ _ _ _ Src (ld_w l) offs' (zlen content) (Z.lor mAttrRead mAttrExec)
    (m_attr m) I) as (res & a & w1 & Ew & I1 & M1 & D). rewrite Ew.
  assert (K1 : mem_kept (ld_w l) w1) by (intros x _; apply M1).
  set (l1 := set_w w1 l). assert (O1 : ld_ok l1 ms gs) by done.
  destruct (Z.ltb_spec res 0) as [R|R].
  { exists res, NULL, l1. split; [done|]. split; [done|]. split; [done|]. split; [done|].
    left. split; [done|]. split; [|by left]. left. exists (ld_w l), res.
    split; [done|]. split; [done|]. right. by eauto 10. }
  destruct D as [D| ->]; [lia|]. rewrite Fl. cbn [Z.eqb Pos.eqb negb orb andb dev_isNotMappable dev_isMappable].
  rewrite bind_eq. change SIZE_PAGE with (2 ^ 12).
  destruct (syspage_entryAdd_in_map (ld_sys l1) ms i am 12 (zlen content) ltac:(lia) S Names E N Sz F Ne)
    as (r & s1 & Er & D). rewrite (sys_run _ l1 _ _ Er).
  destruct D as [(-> & -> & Why)|(st & ps & Nz & V & Ds & L1 & L2 & Ap & _ & S1 & _ & T1 & T2 & Ep & Ept & Est)].
  { exists (- ENOMEM), NULL, (set_sys (ld_sys l1) l1). split; [done|]. split; [done|]. split; [done|]. split; [done|].
    left. split; [unfold ENOMEM; lia|]. split; [|by left]. right.
    destruct Why as [Why|Why]; [right|by left]. unfold heap_short. cbn in Why. lia. }
  destruct (Z.eqb_spec r NULL); [done|]. fold (allocated ms i am st (zlen content) ps) in S1.
  destruct (s_entt s1 !! r) as [e|] eqn:Ee; [|done]. cbn in V. injection V as V1 V2 V3.
  rewrite bind_eq, (sys_get_run _ (set_sys s1 l1) e) by done. rewrite bind_eq. unfold cmd_cp2ent. rewrite V1, V2.
  destruct F as (F0 & F1 & _). pose proof addr_bits_ge32.
  replace (st + zlen content - st) with (zlen content) by lia. rewrite (wa_small (zlen content)) by lia.
  assert (P1 : progs_at s1 gs) by (apply (progs_at_ext (ld_sys l)); try done; intros q c; by rewrite Est).
  destruct (cp2ent_loop_spec s h content (a_start am) (a_end am) inv st (zlen content) steps 0 (g_buff gb)
    (w_mem w1) (set_sys s1 l1) Src) as (r2 & w2 & cnt & -> & I2 & Nn & M2 & Res); try done; try lia.
  { split_and!; lia. }
  { cbn. by rewrite mem_write_nil. }
  set (l2 := set_w w2 _).
  assert (K2 : mem_kept (ld_w l) w2).
  { intros x X. rewrite (M2 x), mem_write_out; [by apply K1|]. rewrite length_take. lia. }
  assert (O2 : ld_ok l2 (allocated ms i am st (zlen content) ps) gs).
  { split; [done|]. split; [done|]. intros q Q. cbn in T1 |- *. specialize (Ids q Q). lia. }
  destruct (Z.ltb_spec r2 0).
  - exists r2, r, l2. split; [done|]. split; [done|]. split; [done|]. split; [done|].
    left. split; [done|]. split; [|right; by exists st, ps]. left. destruct Res as [[-> _]|[_ ?]]; done.
  - exists EOK, r, l2. split; [done|]. split; [done|]. split; [done|]. split; [done|].
    right. split; [done|]. cbn in T1, T2 |- *. split; [done|]. split; [lia|].
    exists st, ps. split; [|done]. destruct Res as [[_ ->]|[? _]]; [|lia].
    unfold placed. split; [done|]. split; [done|]. split; [done|]. split; [done|]. split; [done|].
    split; [by exists e|]. by apply (mem_read_content st content (w_mem w1)).
Qed.

End place.

(** ** The program *)

(** A record of the heap. *)
Lemma ld_alloc (l : loader (W := W)) ms gs n :
  ld_ok l ms gs -> 0 < n <= 2 ^ 16 ->
  exists a s', syspage_alloc n (ld_sys l) = (a, s') /\ ld_ok (set_sys s' l) ms gs /\
    s_entt s' = s_entt (ld_sys l) /\ s_heapEnd s' = s_heapEnd (ld_sys l) /\
    ((a = NULL /\ heap_short (ld_sys l) (n + 8)) \/
     (a <> NULL /\ a = s_heapTop (ld_sys l) /\ a + n <= s_heapTop s' < a + n + 8)).
Proof.
  intros (S & P & Ids) N. pose proof S as (_ & _ & _ & Hk). unfold heap_short.
  destruct (syspage_alloc_spec n (ld_sys l) Hk N) as [(top & -> & T & Hk')|[-> Full]].
  - destruct (heap_fresh (ld_sys l) Hk) as (_ & _ & _ & _ & Nz). destruct (set_heap_at _ ms gs top S P Hk').
    eexists _, _. split; [done|]. split; [split; [done|]; split; [done|]|].
    + intros q Q. specialize (Ids q Q). cbn. lia.
    + split; [done|]. split; [done|]. right. cbn. split; [done|]. split; [done|lia].
  - exists NULL, (ld_sys l). split; [done|]. split; [done|]. split; [done|]. split; [done|]. left. split; [done|lia].
Qed.

(** Stores to the fields of the last program. *)
Lemma prog_upd_spec (l : loader (W := W)) ms gs g g' f :
  ld_ok l ms (gs ++ [g]) -> g_ptr g' = g_ptr g ->
  (forall n, p_next (f n) = p_next n /\ p_prev (f n) = p_prev n /\ p_argv (f n) = p_argv n) ->
  (forall n, g = prog_view n (g_ptr g) (g_argv g) -> prog_view (f n) (g_ptr g) (g_argv g) = g') ->
  exists s', prog_upd f (g_ptr g) l = Some (tt, set_sys s' l) /\ ld_ok (set_sys s' l) ms (gs ++ [g']) /\
    s_entt s' = s_entt (ld_sys l) /\ s_heapEnd s' = s_heapEnd (ld_sys l) /\
    s_heapTop s' = s_heapTop (ld_sys l).
Proof.
  intros (S & P & Ids) Ep Lf V. destruct (progs_at_lookup _ _ g P) as (n & En & Es & Vn);
    [apply elem_of_app; right; by left|]. destruct (Lf n) as (L1 & L2 & L3).
  exists (set_progt (<[g_ptr g := f n]> (s_progt (ld_sys l))) (ld_sys l)).
  split; [unfold prog_upd, sys, store_upd; by rewrite En|]. split; [|done]. split; [|split; [|done]].
  - apply (sys_at_ext (ld_sys l)); try done. apply heap_ok_set_progt; [by destruct S as (_ & _ & _ & ?)|].
    apply elem_of_dom_2 in En. rewrite dom_insert_L. set_solver.
  - rewrite <- (V n Vn). by apply progs_at_update with (n := n).
Qed.

Lemma ld_ok_ids (l : loader (W := W)) ms gs ids p :
  ld_ok l ms gs -> p < s_heapTop (ld_sys l) -> (forall q, q <> p -> ids !! q = ld_ids l !! q) ->
  ld_ok (set_ids ids l) ms gs.
Proof.
  intros (S & P & Ids) T Fr. split; [done|]. split; [done|]. intros q Q.
  change (q < s_heapTop (ld_sys l)). destruct (decide (q = p)) as [->|N]; [done|]. apply Ids.
  change (q ∈ dom ids) in Q. apply elem_of_dom in Q. rewrite Fr in Q by done. by apply elem_of_dom.
Qed.

(** [gs], and perhaps one more program. *)
Definition one_more (gs gs' : list aprog) : Prop := gs' = gs \/ exists g, gs' = gs ++ [g].

(** A new array holds the numbers stored to it. *)
Lemma stored ms names nos (o : option (list Z)) :
  mapM (map_no ms) names = Some nos -> 0 < zlen names <= 2 ^ 16 -> default [] o = default [] None ++ nos -> o = Some nos.
Proof.
  intros M L E. destruct o as [x|]; cbn in E; [by subst|]. subst nos.
  apply mapM_Some_1, Forall2_length in M. cbn in M. lia.
Qed.

Lemma app_fill_spec (l : loader (W := W)) ms gs entry e p argv inames dnames :
  ld_ok l ms (gs ++ [mk_aprog p argv 0 0 NULL 0 NULL 0]) -> Forall (fun am => cstr_ok (a_name am)) ms ->
  s_entt (ld_sys l) !! entry = Some e -> Forall cstr_ok inames -> Forall cstr_ok dnames ->
  0 < zlen inames <= 2 ^ 16 -> 0 < zlen dnames <= 2 ^ 16 ->
  exists res l', app_fill p entry (terminated inames) (zlen inames) (terminated dnames) (zlen dnames) l = Some (res, l') /\
    ld_phfs l' = ld_phfs l /\ ld_w l' = ld_w l /\
    ((res = EOK /\ exists ia da inos dnos, mapM (map_no ms) inames = Some inos /\
       mapM (map_no ms) dnames = Some dnos /\ ld_ids l' !! ia = Some inos /\ ld_ids l' !! da = Some dnos /\
       ld_ok l' ms (gs ++ [mk_aprog p argv (e_start e) (e_end e) ia (zlen inames) da (zlen dnames)])) \/
     (res < 0 /\ (mapM (map_no ms) inames = None \/ mapM (map_no ms) dnames = None \/
        heap_short (ld_sys l) (zlen inames + zlen dnames + 16)) /\
      exists g, ld_ok l' ms (gs ++ [g]))).
Proof.
  intros O Fm Ee Oi Od Li Ld. unfold app_fill. rewrite bind_eq.
  destruct (ld_alloc l ms _ (zlen inames) O Li) as (ia & s1 & E1 & O1 & Et1 & He1 & D1).
  assert (R1 : sys (fun s => Some (syspage_alloc (zlen inames) s)) l = Some (ia, set_sys s1 l))
    by (unfold sys; by rewrite E1). rewrite R1. clear R1 E1. rewrite bind_eq.
  destruct (prog_upd_spec (set_sys s1 l) ms gs _ (mk_aprog p argv 0 0 ia 0 NULL 0) (set_imaps ia) O1)
    as (s2 & R2 & O2 & Et2 & He2 & Ht2); [done|done|by intros [] [= -> -> -> -> -> ->]|].
  cbn [g_ptr] in R2. rewrite R2. clear R2. cbn [ld_sys set_sys] in Et2, He2, Ht2.
  destruct D1 as [[-> Sh]|(Nz1 & Ea1 & T1)].
  { exists (- ENOMEM), (set_sys s2 (set_sys s1 l)). split; [done|]. split; [done|]. split; [done|]. right.
    split; [unfold ENOMEM; lia|]. split; [right; right; unfold heap_short in *; lia|by eexists]. }
  destruct (Z.eqb_spec ia NULL); [done|]. rewrite bind_eq.
  destruct (ld_alloc _ ms _ (zlen dnames) O2 Ld) as (da & s3 & E3 & O3 & Et3 & He3 & D3).
  cbn [ld_sys set_sys] in Et3, He3, D3.
  assert (R3 : sys (fun s => Some (syspage_alloc (zlen dnames) s)) (set_sys s2 (set_sys s1 l)) =
    Some (da, set_sys s3 (set_sys s2 (set_sys s1 l)))) by (unfold sys; by rewrite E3). rewrite R3. clear R3 E3.
  rewrite bind_eq.
  destruct (prog_upd_spec _ ms gs _ (mk_aprog p argv 0 0 ia 0 da 0) (set_dmaps da) O3)
    as (s4 & R4 & O4 & Et4 & He4 & Ht4); [done|done|by intros [] [= -> -> -> -> -> ->]|].
  cbn [g_ptr] in R4. rewrite R4. clear R4. cbn [ld_sys set_sys] in Et4, He4, Ht4.
  destruct D3 as [[-> Sh]|(Nz3 & Ea3 & T3)].
  { eexists _, _. split; [done|]. split; [done|]. split; [done|]. right. split; [unfold ENOMEM; lia|].
    split; [right; right; unfold heap_short in *; cbn in Sh; lia|by eexists]. }
  destruct (Z.eqb_spec da NULL); [done|]. set (l4 := set_sys s4 _) in *.
  assert (F4 : forall q, s_heapTop (ld_sys l) <= q -> ld_ids l4 !! q = None).
  { intros q Q. apply not_elem_of_dom. intros X. destruct O as (_ & _ & Ids). specialize (Ids q X). lia. }
  assert (Ni : ia <> da) by lia. assert (Tops : s_heapTop (ld_sys l4) = s_heapTop s4) by done.
  destruct (cmd_mapsAdd2Prog_spec l4 ms ia inames [] ltac:(apply O4) Fm Oi) as (r5 & ids5 & R5 & Fr5 & D5).
  rewrite app_nil_r in R5. rewrite !Nat2Z.id, bind_eq, R5. clear R5.
  assert (O5 : ld_ok (set_ids ids5 l4) ms (gs ++ [mk_aprog p argv 0 0 ia 0 da 0]))
    by (apply (ld_ok_ids l4 ms _ ids5 ia); [done|lia|done]).
  destruct (mapM (map_no ms) inames) as [inos|] eqn:Mi.
  2: { subst r5. eexists _, _. split; [done|]. split; [done|]. split; [done|]. right. split; [unfold EINVAL; lia|].
       split; [by left|by eexists]. }
  destruct D5 as [-> D5]. change (EOK <? 0) with false. cbn iota.
  destruct (cmd_mapsAdd2Prog_spec (set_ids ids5 l4) ms da dnames [] ltac:(apply O5) Fm Od) as (r6 & ids6 & R6 & Fr6 & D6).
  rewrite app_nil_r in R6. rewrite bind_eq, R6. clear R6.
  assert (O6 : ld_ok (set_ids ids6 (set_ids ids5 l4)) ms (gs ++ [mk_aprog p argv 0 0 ia 0 da 0]))
    by (apply (ld_ok_ids (set_ids ids5 l4) ms _ ids6 da); [done|cbn; lia|done]).
  destruct (mapM (map_no ms) dnames) as [dnos|] eqn:Md.
  2: { subst r6. eexists _, _. split; [done|]. split; [done|]. split; [done|]. right. split; [unfold EINVAL; lia|].
       split; [right; by left|by eexists]. }
  destruct D6 as [-> D6]. change (EOK <? 0) with false. cbn iota. rewrite bind_eq.
  rewrite (sys_get_run _ _ e) by (cbn; congruence). rewrite bind_eq.
  destruct (prog_upd_spec _ ms gs _ (mk_aprog p argv (e_start e) (e_end e) ia (zlen inames) da (zlen dnames))
    (set_sizes (zlen inames) (zlen dnames) (e_start e) (e_end e)) O6) as (s7 & R7 & O7 & _);
    [done|done|by intros [] [= -> -> -> -> -> ->]|].
  cbn [g_ptr] in R7. rewrite R7. clear R7. eexists _, _. split; [done|]. split; [done|]. split; [done|]. left.
  split; [done|]. exists ia, da, inos, dnos. split; [done|]. split; [done|].
  cbn [ld_ids set_ids] in D5, D6, Fr5, Fr6 |- *. cbn.
  rewrite F4 in D5 by lia. rewrite (Fr5 da), F4 in D6 by (done || lia). rewrite Fr6 by done.
  split; [by apply (stored ms inames)|]. split; [by apply (stored ms dnames)|done].
Qed.

Lemma app_prog_spec (l : loader (W := W)) ms gs entry e argv flags inames dnames :
  ld_ok l ms gs -> Forall (fun am => cstr_ok (a_name am)) ms -> s_entt (ld_sys l) !! entry = Some e ->
  zlen argv < 2 ^ 15 -> Forall cstr_ok inames -> Forall cstr_ok dnames ->
  0 < zlen inames <= 2 ^ 16 -> 0 < zlen dnames <= 2 ^ 16 ->
  exists res l', app_prog entry argv flags (terminated inames) (zlen inames) (terminated dnames) (zlen dnames) l =
      Some (res, l') /\ ld_phfs l' = ld_phfs l /\ ld_w l' = ld_w l /\
    ((res = EOK /\ exists p ia da inos dnos, mapM (map_no ms) inames = Some inos /\
       mapM (map_no ms) dnames = Some dnos /\ ld_ids l' !! ia = Some inos /\ ld_ids l' !! da = Some dnos /\
       ld_ok l' ms (gs ++ [mk_aprog p (argv_of argv flags) (e_start e) (e_end e) ia (zlen inames) da (zlen dnames)])) \/
     (res < 0 /\ (mapM (map_no ms) inames = None \/ mapM (map_no ms) dnames = None \/
        heap_short (ld_sys l) (sizeof_prog + zlen argv + zlen inames + zlen dnames + 34)) /\
      exists gs', one_more gs gs' /\ ld_ok l' ms gs')).
Proof.
  intros O Fm Ee La Oi Od Li Ld. pose proof O as (S & P & Ids). unfold app_prog, heap_short. rewrite bind_eq.
  pose proof sizeof_pos as (_ & _ & _ & Pp).
  destruct (syspage_progAdd_spec (ld_sys l) ms gs argv flags S P La) as (p & s1 & E1 & S1 & Et1 & He1 & T1 & D).
  rewrite (sys_run _ l _ _ E1). set (l1 := set_sys s1 l).
  assert (I1 : forall q, q ∈ dom (ld_ids l1) -> q < s_heapTop (ld_sys l1)).
  { intros q Q. specialize (Ids q Q). cbn. lia. }
  destruct D as [(-> & P1 & Why)|[Np P1]].
  { exists (- ENOMEM), l1. split; [done|]. split; [done|]. split; [done|]. right.
    split; [unfold ENOMEM; lia|]. split; [right; right; lia|]. exists gs. by split; [left|]. }
  destruct (Z.eqb_spec p NULL); [done|].
  destruct (app_fill_spec l1 ms gs entry e p (argv_of argv flags) inames dnames) as (res & l' & R & Ep & Ew & D);
    try done; [by rewrite <- Ee, <- Et1|]. exists res, l'. split; [exact R|]. split; [done|]. split; [done|].
  destruct D as [(-> & ia & da & inos & dnos & D)|(Neg & Why & g & D)].
  - left. split; [done|]. by exists p, ia, da, inos, dnos.
  - right. split; [done|]. split; [|exists (gs ++ [g]); split; [right; by exists g|done]].
    destruct Why as [Why|[Why|Why]]; [by left|right; by left|right; right]. unfold heap_short in Why. cbn in Why. lia.
Qed.

(** ** The command *)

Lemma length_parts sep x : 0 < zlen (parts sep x) <= zlen x + 1.
Proof.
  induction x as [|c x IH]; [cbn; lia|]. cbn [parts]. destruct (c =? sep); cbn [length]; [lia|].
  destruct (parts sep x); cbn [length] in *; lia.
Qed.

Lemma omap_insert_same {A B} (f : A -> option B) (xs : list A) i x y :
  xs !! i = Some x -> f y = f x -> omap f (<[i := y]> xs) = omap f xs.
Proof.
  intros E Ef. rewrite <- (take_drop_middle xs i x E) at 2. rewrite insert_take_drop by (by eapply lookup_lt_Some).
  rewrite !omap_app. cbn. by rewrite Ef.
Qed.

Lemma allocated_names ms i am st sz ps :
  ms !! i = Some am -> Forall (fun am => cstr_ok (a_name am)) ms ->
  Forall (fun am => cstr_ok (a_name am)) (allocated ms i am st sz ps) /\
  forall names, mapM (map_no (allocated ms i am st sz ps)) names = mapM (map_no ms) names.
Proof.
  intros E F. unfold allocated. set (am' := with_ents _ _ am). split.
  - apply Forall_insert; [done|]. rewrite Forall_lookup in F. exact (F i am E).
  - intros names. assert (Q : forall name, map_no (<[i := am']> ms) name = map_no ms name).
    { intros name. unfold map_no. f_equal. by apply (omap_insert_same _ _ _ am). }
    induction names as [|name names IH]; [done|]. cbn. rewrite Q, IH. done.
Qed.

(** The header the first read answers, over what the buffer held before. *)
Definition elf_seen (s : phfs_state) (h : handler) (w : W) : bool :=
  match phfs_read t fuel smsg rmsg s h 0 sizeof_Elf32_Ehdr w with
  | Some (_, data, _) => elf_magic (splice 0 data (ztake sizeof_Elf32_Ehdr (g_hdr gb)))
  | None => false
  end.


End run.
