(* ===== verification/RamFile.v ===== *)
(** * A file on the RAM disk

    The composition of phfs, the RAM disk and the loader: a file registered on the
    RAM disk is a [FileSource], so [cmd_appLoad] loads it.  The last part runs a
    script of commands. *)

From S2P Require Import Prelude Mem CList CString Devs Msg Phfs Syspage SyspageMaps SyspageProgs Getopt Cmd PMem RamDrv Loader App AppLoad.

#[export] Instance pmem_load : LoadMem pmem mem_write.
Proof. by refine {| w_mem := id |}. Defined.

Section file.
  Context `{Target} `{RamConfig} (t : devtab pmem) (fuel : nat) (smsg rmsg : msg).
  Context (s : phfs_state) (h : handler) (pd : phfs_device) (f : phfs_file).

(** The handler of a registered file on the registered RAM disk. *)
Definition ram_file : Prop :=
  t !! (DEV_RAM, 0) = Some ramdrv /\ 0 <= h_pd h < SIZE_PHFS_HANDLERS /\
  ph_devices s !! Z.to_nat (h_pd h) = Some pd /\ pd_major pd = DEV_RAM /\ pd_minor pd = 0 /\ pd_prot pd = phfs_prot_raw /\
  0 <= h_id h < SIZE_PHFS_ALIASES /\ ph_files s !! Z.to_nat (h_id h) = Some f /\
  0 <= pf_addr f /\ 0 < pf_size f /\ pf_addr f + pf_size f <= RAM_BANK_SIZE.

Definition ram_has (content : list Z) (m : pmem) : Prop :=
  mem_read (RAM_ADDR + pf_addr f) (pf_size f) m = content.

Lemma zslice_mem_read a n off k m :
  0 <= off -> 0 <= k -> off + k <= n -> zslice off k (mem_read a n m) = mem_read (a + off) k m.
Proof.
  intros. apply list_eq. intros i. unfold zslice.
  destruct (decide (i < Z.to_nat k)%nat) as [L|L].
  - rewrite lookup_take_lt, lookup_drop, !lookup_mem_read by lia.
    destruct (Z.ltb_spec (Z.of_nat (Z.to_nat off + i)) n), (Z.ltb_spec (Z.of_nat i) k); try lia.
    do 2 f_equal. lia.
  - rewrite lookup_take_ge, lookup_mem_read by lia. destruct (Z.ltb_spec (Z.of_nat i) k); [lia|done].
Qed.

Lemma ram_op {A} (g : dev_ops pmem -> option A) :
  t !! (DEV_RAM, 0) = Some ramdrv -> devs_ops t DEV_RAM 0 ≫= g = dev_ops_ ramdrv ≫= g.
Proof. intros E. unfold devs_ops, devs_get. cbn. by rewrite E. Qed.

(** A read of the file: its bytes, as far as there are any; at the end of the bank
    even an empty read fails. *)
Lemma ram_read w offs n :
  ram_file -> bank_ok -> RAM_BANK_SIZE < 2 ^ (addr_bits - 1) -> 0 <= offs <= pf_size f -> 0 <= n ->
  exists res data, phfs_read t fuel smsg rmsg s h offs n w = Some (res, data, w) /\
    (res < 0 /\ offs = pf_size f \/ res = Z.min n (pf_size f - offs) /\
       data = mem_read (RAM_ADDR + pf_addr f + offs) res w /\ 0 <= res).
Proof.
  intros (Et & Hp & Epd & Ma & Mi & Pr & Hi & Ef & F1 & F2 & F3) B Bs O N.
  pose proof B as (B1 & B2 & B3). pose proof addr_bits_ge32.
  unfold phfs_read, SIZE_PHFS_HANDLERS, SIZE_PHFS_ALIASES in *.
  destruct (Z.leb_spec 8 (h_pd h)); [lia|]. rewrite Epd. cbn [mbind option_bind]. rewrite Pr.
  cbn [Z.eqb phfs_prot_raw phfs_prot_phoenixd].
  destruct (Z.eqb_spec (h_id h) id_none) as [E|_]; [change id_none with 4294967295 in E; lia|].
  destruct (Z.leb_spec 32 (h_id h)); [lia|]. rewrite Ef. cbn [mbind option_bind]. rewrite Ma, Mi.
  unfold devs_read. rewrite ram_op by done. cbn [mbind option_bind ramdrv dev_ops_ op_read].
  rewrite (wa_small (pf_addr f + offs)), (wa_small (pf_size f - offs)) by lia. rewrite umin_min.
  set (k := Z.min n (pf_size f - offs)). unfold ramdrv_read. rewrite ramdrv_valid by (done || lia).
  change (ramdrv_isValidMinor 0) with true. cbn [andb].
  destruct (Z.leb_spec (pf_addr f + offs + k) RAM_BANK_SIZE); [|lia].
  destruct (Z.ltb_spec (pf_addr f + offs) RAM_BANK_SIZE); cbn [andb ramParams fst].
  - rewrite (wa_small (RAM_ADDR + (pf_addr f + offs))), (sa_small k) by lia. eexists _, _. split; [done|]. right.
    split; [done|]. split; [f_equal; lia|lia].
  - eexists _, _. split; [done|]. left. split; [unfold EINVAL; lia|lia].
Qed.

Lemma ram_file_source content lo hi :
  ram_file -> bank_ok -> RAM_BANK_SIZE < 2 ^ (addr_bits - 1) -> zlen content = pf_size f ->
  0 <= lo < hi -> hi < 2 ^ 32 -> hi <= RAM_ADDR \/ RAM_ADDR + RAM_BANK_SIZE <= lo ->
  FileSource t fuel smsg rmsg mem_write s h content lo hi (ram_has content).
Proof.
  intros Rf B Bs Lc Lo Hi' Out. pose proof Rf as (Et & Hp & Epd & Ma & Mi & Pr & _ & Ef & F1 & F2 & F3).
  pose proof B as (B1 & B2 & B3). pose proof addr_bits_ge32. split.
  - intros w offs n I O N. destruct (ram_read w offs n Rf B Bs ltac:(lia) ltac:(lia)) as (res & data & E & R).
    exists res, data, w. split; [done|]. split; [done|]. split; [done|]. right.
    destruct R as [R|(R1 & R2 & R3)]; [lia|]. split; [lia|]. rewrite R2, length_mem_read by lia. split; [done|].
    rewrite <- I, zslice_mem_read by lia. done.
  - intros w offs sz mode attr I. unfold phfs_map, SIZE_PHFS_HANDLERS in *.
    destruct (Z.leb_spec 8 (h_pd h)); [lia|]. rewrite Epd. cbn [mbind option_bind]. rewrite Ma, Mi.
    unfold devs_map. rewrite ram_op by done. cbn [mbind option_bind ramdrv dev_ops_ op_map].
    unfold ramdrv_map. change (ramdrv_isValidMinor 0) with true. cbn [negb ramParams].
    rewrite bank_range by done. rewrite (wa_small (hi - lo)), (wa_small (lo + (hi - lo))), (wa_small (RAM_ADDR + RAM_BANK_SIZE)) by lia.
    destruct (_ <=? wa (offs + sz)).
    { eexists _, _, _. split; [done|]. split; [done|]. split; [done|]. left. unfold EINVAL. lia. }
    destruct (Z.leb_spec RAM_ADDR lo), (Z.leb_spec (lo + (hi - lo)) (RAM_ADDR + RAM_BANK_SIZE)); cbn [andb]; try lia;
      (destruct (negb _); eexists _, _, _; (split; [done|]); (split; [done|]); (split; [done|]);
        [left; unfold EINVAL; lia|by right]).
  - intros w a bs I La Lb. unfold ram_has in *. rewrite mem_read_write_out; [done|]. lia.
Qed.

End file.

(** ** A program on the RAM disk *)

Definition ram_tab : devtab pmem := ramdrv_reg (H := target32) (H0 := sample_ram) ∅.

Definition elf_file : list Z := [0x7f; "E"%ch; "L"%ch; "F"%ch] ++ (Z.of_nat <$> seq 1 60).

(** The file lies 0x100 bytes into the bank. *)
Definition sample_mem : pmem := mem_write (0x8000000 + 0x100) elf_file (fun _ => 0).

Definition sample_files : phfs_state :=
  (phfs_aliasReg (phfs_devReg ram_tab phfs_init (Some (str "ram0")) 4 0 None).2 (Some (str "psh")) 0x100 64).2.

Definition sample_garbage : garbage := mk_garbage (replicate 256 0xaa) (replicate 64 0xaa) 0 (mk_handler 0 0) 0.

Definition sample_loader : loader (H1 := sample_hal) (W := pmem) :=
  mk_loader (H1 := sample_hal) sample_files (sample_map (str "ram") 0x40000 0x50000) tt ∅ (mk_getopt None 1 1 0 1) 0 sample_mem.

Lemma sample_ram_file :
  ram_file (H := target32) (H0 := sample_ram) ram_tab sample_files (mk_handler 0 0)
    {| pd_alias := str "ram0"; pd_major := 4; pd_minor := 0; pd_prot := 0 |}
    {| pf_alias := str "psh"; pf_addr := 0x100; pf_size := 64 |}.
Proof.
  unfold ram_file. split; [reflexivity|]. split; [done|]. split; [reflexivity|]. split; [done|]. split; [done|].
  split; [done|]. split; [done|]. split; [reflexivity|]. by vm_compute.
Qed.

Lemma sample_source :
  FileSource (H := target32) ram_tab 0 sample_msg sample_msg mem_write sample_files (mk_handler 0 0) elf_file
    0x40000 0x50000 (ram_has (H0 := sample_ram) {| pf_alias := str "psh"; pf_addr := 0x100; pf_size := 64 |} elf_file).
Proof.
  refine (ram_file_source (H := target32) (H0 := sample_ram) ram_tab 0 sample_msg sample_msg sample_files _ _ _
    elf_file 0x40000 0x50000 sample_ram_file _ _ _ _ _ _); [by vm_compute..|by left; vm_compute].
Qed.


(** ** A script *)

Definition script_cmds : list (cmd (loader (H1 := sample_hal) (W := pmem))) :=
  [mk_cmd (str "phfs") (cmd_phfs (H := target32) ram_tab);
   mk_cmd (str "alias") (cmd_alias (H := target32));
   mk_cmd (str "map") (cmd_map (H := target32) (H0 := sample_types) (H1 := sample_hal));
   mk_cmd (str "app") (cmd_app (H := target32) (H0 := sample_types) (H1 := sample_hal) ram_tab 0 65 sample_msg sample_msg
     mem_write sample_garbage)].

Definition script : cstr :=
  str "phfs ram0 4.0" ++ [10] ++ str "alias psh 0x100 64" ++ [10] ++ str "map ram 0x40000 0x50000 rwx" ++ [10] ++
  str "app ram0 -x psh;-i ram ram" ++ [10].

Definition fresh_loader : loader (H1 := sample_hal) (W := pmem) :=
  mk_loader (H1 := sample_hal) phfs_init sample_init tt ∅ (mk_getopt None 1 1 0 1) 0 sample_mem.

(** From an empty system page the script registers the device and the file, makes
    the map and loads the program. *)
Lemma script_loads :
  match cmd_parse script_cmds (fun l => set_getopt (lib_getoptReset (ld_getopt l)) l) (Some script) fresh_loader with
  | Some (res, l) => res = EOK /\ mem_read 0x40000 64 (ld_w l) = elf_file /\
      map (fun x => (p_start x.2, p_end x.2, s_strt (ld_sys l) !! p_argv x.2)) (map_to_list (s_progt (ld_sys l))) =
        [(0x40000, 0x40000 + 64, Some (str "Xpsh;-i"))]
  | None => False
  end.
Proof. vm_compute. by repeat split. Qed.

(** A program whose data map does not exist is refused, but stays in the list with
    no range and an array that was not filled. *)
Lemma app_refused_stays :
  match cmd_appLoad (H := target32) (H0 := sample_types) (H1 := sample_hal) ram_tab 0 65 sample_msg sample_msg
    mem_write sample_garbage (mk_handler 0 0) 64 (str "ram") (str "dtcm") (str "psh") 1 sample_loader with
  | Some (res, l) => res = - EINVAL /\
      map (fun x => (p_start x.2, p_end x.2, s_strt (ld_sys l) !! p_argv x.2, ld_ids l !! p_dmaps x.2))
        (map_to_list (s_progt (ld_sys l))) = [(0, 0, Some (str "Xpsh"), None)]
  | None => False
  end.
Proof. vm_compute. by repeat split. Qed.
