(* ===== verification/Copy.v ===== *)
(** * Copying between devices: correctness of src/cmds/copy.c

    The loops of [cmd_cpphfs2phfs] are specified against an interface of the two
    open files, [CopyEnds]; two places of a RAM disk implement it. *)

From S2P Require Import Prelude Mem CString Devs Msg Phfs Syspage SyspageMaps Getopt Cmd PMem RamDrv Loader App AppLoad RamFile.

(** A source with [content] and a destination of [cap] bytes seen through [view], in
    the worlds of [inv]: a read answers bytes of the source, none only at its end;
    a write takes all bytes or none. *)
Record CopyEnds `{Target} {W} (t : devtab W) (fuel : nat) (smsg rmsg : msg) (s : phfs_state) (src dst : handler)
    (content : list Z) (cap : Z) (view : W -> pmem) (inv : W -> Prop) := {
  cp_read : forall w offs n, inv w -> 0 <= offs <= zlen content -> 0 < n <= SIZE_MSG_BUFF ->
    exists res data w', phfs_read t fuel smsg rmsg s src offs n w = Some (res, data, w') /\
      inv w' /\ view w' ≡ view w /\
      (res < 0 \/ 0 <= res <= n /\ zlen data = res /\ offs + res <= zlen content /\
        data = zslice offs res content /\ (res = 0 -> offs = zlen content));
  cp_write : forall w offs bs, inv w -> 0 <= offs -> offs + zlen bs <= cap -> bs <> [] ->
    exists res w', phfs_write t fuel smsg rmsg s dst offs bs w = Some (res, w') /\ inv w' /\
      (res < 0 /\ view w' ≡ view w \/ res = zlen bs /\ view w' ≡ mem_write offs bs (view w))
}.

Section copy.
  Context `{Target} `{SyspageTypes} `{SyspageHal} {W : Type}.
  Context (t : devtab W) (fuel steps : nat) (smsg rmsg : msg) (gb : garbage).
  Context (s : phfs_state) (src dst : handler) (content : list Z) (cap : Z) (view : W -> pmem) (inv : W -> Prop).
  Context (Ends : CopyEnds t fuel smsg rmsg s src dst content cap view inv).
  Context (Steps : (2 <= steps)%nat) (Cap : cap < 2 ^ addr_bits) (Len : zlen content < 2 ^ 31).

(** A read or a write fails. *)
Definition copy_fails : Prop :=
  exists w r, inv w /\ r < 0 /\
    ((exists offs n data w', phfs_read t fuel smsg rmsg s src offs n w = Some (r, data, w')) \/
     (exists offs bs w', phfs_write t fuel smsg rmsg s dst offs bs w = Some (r, w'))).

(** One write of a chunk. *)
Lemma copy_write_spec (l : loader (W := W)) dstAddr buff chunk wsz data :
  ld_phfs l = s -> inv (ld_w l) -> 0 <= dstAddr -> 0 <= wsz -> 0 < chunk -> chunk <= zlen buff ->
  dstAddr + wsz + chunk <= cap -> zslice 0 chunk buff = data -> zlen data = chunk ->
  exists r w, copy_write t fuel smsg rmsg steps dst dstAddr buff chunk wsz chunk l = Some (r, set_w w l) /\ inv w /\
    ((exists e, r = inl e /\ e < 0 /\ view w ≡ view (ld_w l) /\ copy_fails) \/
     (r = inr (chunk, wsz + chunk) /\ view w ≡ mem_write (dstAddr + wsz) data (view (ld_w l)))).
Proof.
  intros Es I D0 W0 C0 Cb Fit Da Ld. destruct steps as [|[|k]]; [lia|lia|]. cbn [copy_write].
  destruct (Z.eqb_spec chunk 0); [lia|]. rewrite mbytes_ok by lia. cbn [lift]. rewrite bind_eq. cbn [mret M_ret].
  rewrite bind_eq. unfold ph_write, world. rewrite Es, Da, (wa_small (dstAddr + wsz)) by lia.
  destruct (cp_write _ _ _ _ _ _ _ _ _ _ _ Ends (ld_w l) (dstAddr + wsz) data I) as (r & w1 & E & I1 & R);
    [lia|lia|by intros ->; cbn in Ld; lia|]. rewrite E.
  destruct R as [[Neg V]|[-> V]].
  - destruct (Z.ltb_spec r 0); [|lia]. exists (inl r), w1. split; [done|]. split; [done|]. left. exists r.
    split; [done|]. split; [done|]. split; [done|]. exists (ld_w l), r. split; [done|]. split; [done|]. right. by eauto.
  - destruct (Z.ltb_spec (zlen data) 0); [lia|]. exists (inr (chunk, wsz + chunk)), w1.
    rewrite Ld, Z.sub_diag, (wa_small 0), (wa_small (wsz + chunk)) by (pose proof addr_bits_ge32; lia).
    split; [done|]. split; [done|]. by right.
Qed.

Lemma copy_loop_spec srcAddr srcSz dstAddr m0 k d buff (l : loader (W := W)) :
  let n := Z.min srcSz (zlen content - srcAddr) in
  ld_phfs l = s -> inv (ld_w l) -> 0 <= srcAddr <= zlen content -> 0 < srcSz <= addr_max ->
  0 <= dstAddr -> dstAddr + n <= cap -> zlen buff = SIZE_MSG_BUFF ->
  0 <= d <= n -> d < srcSz -> n - d < Z.of_nat k -> view (ld_w l) ≡ mem_write dstAddr (zslice srcAddr d content) m0 ->
  exists res w j, copy_loop t fuel steps smsg rmsg k src srcAddr srcSz dst dstAddr buff d d l = Some (res, set_w w l) /\
    inv w /\ 0 <= j <= n /\ view w ≡ mem_write dstAddr (zslice srcAddr j content) m0 /\
    (res = n /\ j = n \/ res < 0 /\ copy_fails).
Proof.
  intros n. revert d buff l. induction k as [|k IH]; intros d buff l Es I Sa Ss D0 Fit Lb D Dl K V; [lia|].
  cbn [copy_loop]. rewrite bind_eq. unfold ph_read, world. rewrite Es. unfold SIZE_MSG_BUFF in *.
  pose proof addr_bits_ge32. unfold addr_max in Ss.
  rewrite (wa_small (srcSz - d)), (wa_small (srcAddr + d)) by lia.
  set (c := if 256 <? srcSz - d then 256 else srcSz - d).
  assert (Hc : c = Z.min 256 (srcSz - d)) by (unfold c; cases_ifs; lia).
  destruct (cp_read _ _ _ _ _ _ _ _ _ _ _ Ends (ld_w l) (srcAddr + d) c I ltac:(lia) ltac:(unfold SIZE_MSG_BUFF; lia))
    as (res & data & w1 & E & I1 & V1 & R). rewrite E. cbn [mbind option_bind].
  destruct R as [R|(R1 & R2 & R3 & R4 & R5)].
  { destruct (Z.ltb_spec res 0); [|lia]. exists res, w1, d. split; [done|]. split; [done|]. split; [done|].
    split; [by rewrite V1|]. right. split; [done|]. exists (ld_w l), res. split; [done|]. split; [done|]. left. by eauto. }
  destruct (Z.ltb_spec res 0); [lia|]. rewrite mstore_ok by lia. cbn [lift]. rewrite bind_eq. cbn [mret M_ret].
  rewrite bind_eq, (wa_small (d + res)) by lia. set (buff1 := splice 0 data buff).
  assert (L1 : length buff1 = length buff) by (apply length_splice; lia).
  destruct (decide (res = 0)) as [->|Nz].
  { destruct steps as [|k'] eqn:Ek; [lia|]. cbn [copy_write]. change (0 =? 0) with true. cbn iota. cbn [mret M_ret].
    rewrite Z.add_0_r, andb_false_r. rewrite sa_small31 by lia. exists d, w1, d. specialize (R5 eq_refl).
    split; [done|]. split; [done|]. split; [done|]. split; [by rewrite V1|]. left. lia. }
  set (l1 := set_w w1 l).
  destruct (copy_write_spec l1 dstAddr buff1 res d data) as (r & w2 & -> & I2 & [(e & -> & Ne & V2 & Cf)|(-> & V2)]);
    try done; try lia.
  { apply zslice_splice_same; lia. }
  { exists e, w2, d. split; [done|]. split; [done|]. split; [done|]. split; [by etrans; [|exact V]; etrans|]. by right. }
  assert (V3 : view w2 ≡ mem_write dstAddr (zslice srcAddr (d + res) content) m0).
  { change (ld_w l1) with w1 in V2. rewrite V2, V1, V. assert (Ls : zlen (zslice srcAddr d content) = d) by (apply length_zslice; lia).
    rewrite <- Ls at 1. rewrite mem_write_app. rewrite (zslice_app srcAddr d res) by lia. by rewrite R4. }
  rewrite (wa_small (srcSz - (d + res))) by lia. destruct (Z.ltb_spec 0 res); [|lia]. rewrite andb_true_r.
  destruct (Z.ltb_spec 0 (srcSz - (d + res))).
  - destruct (IH (d + res) buff1 (set_w w2 l1)) as (r & w & j & Er & Rest); try done; try lia.
    exists r, w, j. by split.
  - rewrite sa_small31 by lia. exists (d + res), w2, (d + res). split; [done|]. split; [done|]. split; [lia|].
    split; [done|]. left. lia.
Qed.


End copy.

(** ** From a file of a RAM disk to another place of it *)

Section ram.
  Context `{Target} `{RamConfig} (t : devtab pmem) (fuel : nat) (smsg rmsg : msg).
  Context (s : phfs_state) (src dst : handler) (pd : phfs_device) (f : phfs_file).

Lemma ram_copy_ends content cap :
  ram_file t s src pd f -> h_pd dst = h_pd src -> h_id dst = id_none -> bank_ok -> RAM_BANK_SIZE < 2 ^ (addr_bits - 1) ->
  zlen content = pf_size f -> cap <= pf_addr f ->
  CopyEnds t fuel smsg rmsg s src dst content cap (fun m x => m (RAM_ADDR + x)) (ram_has f content).
Proof.
  intros Rf Hd Hi B Bs Lc Cp. pose proof Rf as (Et & Hp & Epd & Ma & Mi & Pr & _ & Ef & F1 & F2 & F3).
  pose proof B as (B1 & B2 & B3). split.
  - intros w offs n I O N. destruct (ram_read t fuel smsg rmsg s src pd f w offs n Rf B Bs ltac:(lia) ltac:(lia))
      as (res & data & E & R). exists res, data, w. split; [done|]. split; [done|]. split; [done|].
    destruct R as [R|(R1 & R2 & R3)]; [left; lia|right].
    split; [lia|]. split; [by rewrite R2, length_mem_read by lia|]. split; [lia|]. split; [|lia].
    by rewrite R2, <- I, zslice_mem_read by lia.
  - intros w offs bs I O Fit Nb. assert (Ln : 0 < zlen bs) by (destruct bs; [done|cbn; lia]).
    unfold phfs_write, SIZE_PHFS_HANDLERS, SIZE_PHFS_ALIASES in *. rewrite Hd.
    destruct (Z.leb_spec 8 (h_pd src)); [lia|]. rewrite Epd. cbn [mbind option_bind]. rewrite Pr.
    cbn [Z.eqb phfs_prot_raw phfs_prot_phoenixd]. rewrite Hi, Z.eqb_refl, Ma, Mi.
    unfold devs_write. rewrite ram_op by done. cbn [mbind option_bind ramdrv dev_ops_ op_write].
    unfold ramdrv_write. change (ramdrv_isValidMinor 0) with true. cbn [negb orb].
    rewrite ramdrv_valid by (done || lia).
    destruct (Z.ltb_spec offs RAM_BANK_SIZE); [|lia]. destruct (Z.leb_spec (offs + zlen bs) RAM_BANK_SIZE); [|lia].
    cbn [andb negb ramParams fst]. rewrite (wa_small (RAM_ADDR + offs)), sa_small by lia.
    eexists _, _. split; [done|]. split; [unfold ram_has in *; rewrite mem_read_write_out by lia; done|]. right.
    split; [done|]. intros x. unfold mem_write.
    destruct (Z.leb_spec (RAM_ADDR + offs) (RAM_ADDR + x)), (Z.leb_spec offs x); try lia; [|done].
    destruct (Z.ltb_spec (RAM_ADDR + x) (RAM_ADDR + offs + zlen bs)), (Z.ltb_spec x (offs + zlen bs)); try lia; [|done].
    cbn [andb]. do 3 f_equal. lia.
Qed.

End ram.

Lemma sample_ends :
  CopyEnds (H := target32) ram_tab 0 sample_msg sample_msg sample_files (mk_handler 0 0) (mk_handler 0 id_none)
    elf_file 0x100 (fun m x => m (0x8000000 + x))
    (ram_has (H0 := sample_ram) {| pf_alias := str "psh"; pf_addr := 0x100; pf_size := 64 |} elf_file).
Proof.
  refine (ram_copy_ends (H := target32) (H0 := sample_ram) ram_tab 0 sample_msg sample_msg sample_files (mk_handler 0 0)
    (mk_handler 0 id_none) _ _ elf_file 0x100 sample_ram_file _ _ _ _ _ _); by vm_compute.
Qed.


(** ** Short writes *)

(** A device that takes one byte at a time. *)
Definition slow_tab : devtab pmem :=
  <[(2, 0) := {| dev_name := Some (str "slow"); dev_init := Some (fun _ w => (0, w)); dev_done := Some (fun _ w => (0, w));
     dev_ops_ := Some {| op_sync := None; op_map := None; op_control := None; op_read := None; op_erase := None;
       op_write := Some (fun _ offs bs m => (1, mem_write offs (take 1 bs) m)) |} |}]> ∅.

(** The rest of a chunk is written from the start of the buffer again: the
    destination gets the first byte three times. *)
Lemma copy_short_write :
  let files := (phfs_devReg slow_tab phfs_init (Some (str "slow")) 2 0 None).2 in
  match copy_write (H := target32) (H1 := sample_hal) slow_tab 0 sample_msg sample_msg 5 (mk_handler 0 id_none) 0 [10; 20; 30] 3 0 3
    (set_phfs files (set_w (fun _ => 0) sample_loader)) with
  | Some (r, l) => r = inr (1, 3) /\ mem_read 0 3 (ld_w l) = [10; 10; 10]
  | None => False
  end.
Proof. by vm_compute. Qed.

(** A copy between two raw places has no file name to register: it is done, and
    reported as a failure. *)
Lemma copy_raw_reports_failure :
  match cmd_copy (H := target32) (H1 := sample_hal) ram_tab 0 65 sample_msg sample_msg sample_garbage
    (str <$> ["copy"%string; "ram0"%string; "0x100"%string; "64"%string; "ram0"%string; "0"%string; "64"%string]) sample_loader with
  | Some (res, l) => res = CMD_EXIT_FAILURE /\ mem_read 0x8000000 64 (ld_w l) = elf_file
  | None => False
  end.
Proof. by vm_compute. Qed.
