(* ===== verification/Script.v ===== *)
(** * Scripts from files (src/cmds/call.c, src/cmds/script.c)

    [cmd_call] reads a file byte by byte and gives each line to [cmd_parse], whose
    table holds [cmd_call] itself: a script can call another, to a depth the stack
    bounds and [depth] stands for. *)

From S2P Require Import Prelude Mem CString Devs Msg Phfs Syspage Getopt Cmd Loader App AppLoad RamDrv PMem RamFile SyspageMaps.

Definition SIZE_MAGIC_NB := 8.

Section call.
  Context `{Target} `{SyspageTypes} `{SyspageHal} {W : Type}.
  Context (t : devtab W) (fuel steps : nat) (smsg rmsg : msg) (gb : garbage).

Abbreviation CM := (M (W := W)).
Abbreviation read := (ph_read t fuel smsg rmsg).

(** ** src/cmds/call.c *)

(** The loop: [line] is [buff[0 .. i)], [c] the last byte read; [parse] is
    [cmd_parse]. *)
Fixpoint call_loop (k : nat) (parse : cstr -> CM Z) (h : handler) (offs : Z) (line : cstr) (c : Z) : CM Z :=
  match k with
  | O => fault
  | S k =>
      '(len, data) ← read h offs 1;
      if len <? 0 then _ ← ph_close t h; mret (s32 len)
      else
        b ← lift (mstore [c] 0 data);
        let c := deref b in
        let offs := wa (offs + len) in
        if (len =? 0) || (c =? 10) || (c =? 0) then
          res ← parse line;
          if negb (res =? CMD_EXIT_SUCCESS) then mret (if res <? 0 then res else - EINVAL)
          else if (c =? 0) || negb (0 <? len) then _ ← ph_close t h; mret CMD_EXIT_SUCCESS
          else call_loop k parse h offs [] c
        else if zlen line =? SIZE_CMD_ARG_LINE - 1 then _ ← ph_close t h; mret (- ENOMEM)
        else call_loop k parse h offs (line ++ [c]) c
  end.

Definition cmd_call (parse : cstr -> CM Z) (argv : list cstr) : CM Z :=
  let argc := zlen argv in
  if argc =? 1 then mret (- EINVAL)
  else if negb (argc =? 4) then mret (- EINVAL)
  else
    a1 ← lift (argv !! 1%nat);
    a2 ← lift (argv !! 2%nat);
    a3 ← lift (argv !! 3%nat);
    '(res, h) ← ph_open t fuel smsg rmsg a1 (Some a2) 0 (g_handler gb);
    if res <? 0 then mret res
    else
      '(len, data) ← read h 0 SIZE_MAGIC_NB;
      if negb (len =? SIZE_MAGIC_NB) then _ ← ph_close t h; mret (if len <? 0 then s32 len else - EIO)
      else
        buff ← lift (mstore (g_buff gb) 0 data);
        magic ← lift (cstring (ztake len buff ++ [0]));
        if negb (hal_strcmp magic a3 =? 0) then _ ← ph_close t h; mret CMD_EXIT_SUCCESS
        else call_loop steps parse h len [] 0.

(** ** src/cmds/script.c

    The command only shows the script; what is left of it are its reads. *)

Fixpoint script_loop (k : nat) (h : handler) (offs : Z) (buff : list Z) : CM Z :=
  match k with
  | O => fault
  | S k =>
      '(res, data) ← read h offs (SIZE_CMD_ARG_LINE - 1);
      if res <? 0 then _ ← ph_close t h; mret CMD_EXIT_FAILURE
      else
        buff ← lift (mstore buff 0 data);
        buff ← lift (mstore buff res [0]);
        if 0 <? res then script_loop k h (wa (offs + res)) buff
        else _ ← ph_close t h; mret CMD_EXIT_SUCCESS
  end.

Definition cmd_script (argv : list cstr) : CM Z :=
  let argc := zlen argv in
  if argc =? 1 then mret CMD_EXIT_SUCCESS
  else if negb (argc =? 4) then mret CMD_EXIT_FAILURE
  else
    a1 ← lift (argv !! 1%nat);
    a2 ← lift (argv !! 2%nat);
    a3 ← lift (argv !! 3%nat);
    '(res, h) ← ph_open t fuel smsg rmsg a1 (Some a2) 0 (g_handler gb);
    if res <? 0 then mret CMD_EXIT_FAILURE
    else
      '(res, data) ← read h 0 SIZE_MAGIC_NB;
      if res <? 0 then _ ← ph_close t h; mret CMD_EXIT_FAILURE
      else
        buff ← lift (mstore (g_buff gb) 0 data);
        buff ← lift (mstore buff res [0]);
        magic ← lift (cstring buff);
        if negb (hal_strcmp magic a3 =? 0) then _ ← ph_close t h; mret CMD_EXIT_SUCCESS
        else script_loop steps h res buff.

(** ** The interpreter with the command in its table *)

Context (cmds : list (cmd (loader (W := W)))).

Definition reset (l : loader (W := W)) : loader := set_getopt (lib_getoptReset (ld_getopt l)) l.

(** [cmd_parse] when scripts call each other at most [depth] deep. *)
Fixpoint plo_parse (depth : nat) (line : cstr) : CM Z :=
  match depth with
  | O => fault
  | S depth => cmd_parse (mk_cmd (str "call") (cmd_call (plo_parse depth)) :: cmds) reset (Some line)
  end.

End call.

(** ** A script in a file runs like the same text *)

(** The text is its parts between newlines, executed one after the other. *)
Lemma script_lines_newline a b : script_lines (a ++ 10 :: b) = script_lines a ++ script_lines b.
Proof.
  induction a as [|c a IH]; [done|]. cbn [app script_lines]. rewrite IH. destruct (is_newline c); [done|].
  destruct (script_lines a) eqn:E; [|done]. by destruct (script_lines_split a) as [E'|[E' _]]; rewrite E' in E.
Qed.

Lemma parts_app sep a b : parts sep (a ++ sep :: b) = parts sep a ++ parts sep b.
Proof.
  induction a as [|c a IH]; cbn [app parts]; [by rewrite Z.eqb_refl|]. rewrite IH.
  destruct (c =? sep); [done|]. pose proof (length_parts sep a). by destruct (parts sep a); [cbn in *; lia|].
Qed.

Section exec.
  Context {W : Type} (cmds : list (cmd W)) (rst : W -> W).

Lemma exec_lines_app ls1 ls2 w :
  exec_lines cmds rst (ls1 ++ ls2) w =
    match exec_lines cmds rst ls1 w with
    | Some (r, w) => if r =? EOK then exec_lines cmds rst ls2 w else Some (r, w)
    | None => None
    end.
Proof.
  revert w. induction ls1 as [|l ls1 IH]; intros w; [done|]. cbn [app exec_lines].
  destruct (words l) as [|x ws]; [apply IH|]. destruct (place _ _ _ _) as [e|] eqn:Ep.
  - by destruct (place_neg _ _ _ _ _ Ep) as [-> | ->].
  - destruct (cmd_launch _ _ _ _) as [[[ret|] w']|]; cbn [mbind option_bind]; [|done|done].
    destruct (ret =? CMD_EXIT_SUCCESS); [apply IH|]. destruct (Z.ltb_spec ret 0); [|done].
    by destruct (Z.eqb_spec ret EOK); [unfold EOK in *; lia|].
Qed.

(** The result of a script is 0 or an error. *)
Lemma exec_lines_result ls w r w' : exec_lines cmds rst ls w = Some (r, w') -> r = EOK \/ r < 0.
Proof.
  revert w. induction ls as [|l ls IH]; intros w; cbn [exec_lines]; [intros [= <- _]; by left|].
  destruct (words l) as [|x ws]; [apply IH|]. destruct (place _ _ _ _) as [e|] eqn:Ep.
  - intros [= <- _]. right. by destruct (place_neg _ _ _ _ _ Ep) as [-> | ->].
  - destruct (cmd_launch _ _ _ _) as [[[ret|] w1]|]; cbn [mbind option_bind]; [| |done].
    + destruct (ret =? CMD_EXIT_SUCCESS); [apply IH|]. intros [= <- _]. right. unfold EINVAL.
      destruct (Z.ltb_spec ret 0); lia.
    + intros [= <- _]. right. unfold EINVAL. lia.
Qed.

(** What every command preserves, a script does. *)
Lemma exec_lines_inv (inv : W -> Prop) ls w r w' :
  (forall c argv w r w', c ∈ cmds -> inv w -> cmd_run c argv (rst w) = Some (r, w') -> inv w') ->
  inv w -> exec_lines cmds rst ls w = Some (r, w') -> inv w'.
Proof.
  intros P. revert w. induction ls as [|l ls IH]; intros w I; cbn [exec_lines]; [by intros [= _ <-]|].
  destruct (words l) as [|x ws]; [by apply IH|]. destruct (place _ _ _ _) as [e|]; [by intros [= _ <-]|].
  assert (Q : forall cs f w1, (forall c, c ∈ cs -> c ∈ cmds) -> cmd_launch rst cs (x :: ws) w = Some (f, w1) -> inv w1).
  { intros cs f w1. induction cs as [|c cs IHc]; cbn [cmd_launch]; [by intros _ [= _ <-]|]. intros Sub.
    destruct (_ =? 0).
    - destruct (cmd_run c (x :: ws) (rst w)) as [[ret w2]|] eqn:E; cbn [mbind option_bind]; [|done].
      intros [= _ <-]. apply (P c (x :: ws) w ret); [apply Sub; by left|done|done].
    - apply IHc. intros c' I'. apply Sub. by right. }
  destruct (cmd_launch _ _ _ _) as [[[ret|] w1]|] eqn:E; cbn [mbind option_bind]; [| |done].
  - specialize (Q cmds _ _ ltac:(done) E). destruct (ret =? CMD_EXIT_SUCCESS); [by apply IH|by intros [= _ <-]].
  - specialize (Q cmds _ _ ltac:(done) E). by intros [= _ <-].
Qed.

End exec.

Section spec.
  Context `{Target} `{SyspageTypes} `{SyspageHal} {W : Type}.
  Context (t : devtab W) (fuel steps : nat) (smsg rmsg : msg) (gb : garbage) (cs : list (cmd (loader (W := W)))).

Abbreviation CM := (M (W := W)).

Definition parse (line : cstr) : CM Z := cmd_parse cs reset (Some line).

(** A file with [content] behind the handle: reads answer its bytes and change
    nothing, whatever the commands did before. *)
Definition call_source (h : handler) (content : list Z) (inv : loader (W := W) -> Prop) : Prop :=
  (forall l offs n, inv l -> 0 <= offs -> 0 < n -> offs + n <= zlen content ->
     ph_read t fuel smsg rmsg h offs n l = Some ((n, zslice offs n content), l)) /\
  (forall c argv l r l', c ∈ cs -> inv l -> cmd_run c argv (reset l) = Some (r, l') -> inv l').

(** A script to its end: the file is closed unless the script failed. *)
Definition closed_after (h : handler) (x : option (Z * loader (W := W))) : option (Z * loader (W := W)) :=
  match x with
  | Some (r, l) => if r =? EOK then (_ ← ph_close t h; mret CMD_EXIT_SUCCESS) l else Some (r, l)
  | None => None
  end.

Lemma parts_short n line c tx :
  Forall (fun c => c <> 10) line -> c <> 10 -> Forall (fun p => zlen p <= n) (parts 10 (line ++ c :: tx)) -> zlen line < n.
Proof.
  intros F N P. enough (exists p ps, parts 10 (line ++ c :: tx) = (line ++ p) :: ps /\ (0 < length p)%nat) as (p & ps & E & L).
  { rewrite E in P. apply Forall_cons in P as [P _]. rewrite length_app in P. lia. }
  clear P. induction F as [|x line X F (p & ps & E & L)]; cbn [app parts].
  - destruct (Z.eqb_spec c 10); [done|]. destruct (parts 10 tx) as [|q qs]; eexists _, _; (split; [reflexivity|cbn; lia]).
  - destruct (Z.eqb_spec x 10); [done|]. rewrite E. by exists p, ps.
Qed.

Lemma call_loop_spec h content inv k offs line c0 tx rest (l : loader (W := W)) :
  call_source h content inv -> inv l -> zlen content < 2 ^ 31 -> 0 <= offs -> zdrop offs content = tx ++ 0 :: rest ->
  Forall script_char (line ++ tx) -> Forall (fun c => c <> 10) line ->
  Forall (fun p => zlen p <= SIZE_CMD_ARG_LINE - 1) (parts 10 (line ++ tx)) -> (length tx < k)%nat ->
  call_loop t fuel smsg rmsg k parse h offs line c0 l =
    closed_after h (exec_lines cs reset (script_lines (line ++ tx)) l).
Proof.
  intros [Rd Pv]. revert offs line c0 tx l. induction k as [|k IH]; intros offs line c0 tx l I Lc O D F N P K; [lia|].
  assert (Lo : offs < zlen content).
  { apply (f_equal length) in D. rewrite length_drop, length_app in D. cbn in D. lia. }
  assert (R : ph_read t fuel smsg rmsg h offs 1 l = Some ((1, [default 0 (head (tx ++ [0]))]), l)).
  { rewrite Rd by (done || lia). do 2 f_equal. f_equal. unfold zslice. rewrite D. by destruct tx. }
  pose proof addr_bits_ge32. cbn [call_loop]. rewrite bind_eq, R. change (1 <? 0) with false. cbn iota.
  rewrite mstore_ok by (cbn; lia). cbn [lift]. rewrite bind_eq. cbn [mret M_ret]. rewrite (wa_small (offs + 1)) by lia.
  change (1 =? 0) with false. change (negb (0 <? 1)) with false. rewrite orb_false_r. cbn [orb].
  assert (Ex : forall a, Forall script_char a -> parse a l = exec_lines cs reset (script_lines a) l)
    by (intros a A; by apply cmd_parse_exec).
  apply Forall_app in F as [Fl Ft].
  destruct tx as [|c tx]; cbn [app head default from_option id].
  { rewrite app_nil_r. change (deref (splice 0 [0] [c0])) with 0. cbn [Z.eqb orb]. rewrite bind_eq, Ex by done.
    destruct (exec_lines cs reset (script_lines line) l) as [[r l1]|] eqn:E; [|done].
    pose proof (exec_lines_result _ _ _ _ _ _ E) as Rr. unfold closed_after, CMD_EXIT_SUCCESS, EOK in *.
    destruct (Z.eqb_spec r 0); cbn [negb]; [done|]. destruct (Z.ltb_spec r 0); [done|lia]. }
  change (deref (splice 0 [c] [c0])) with c. apply Forall_cons in Ft as [Fc Ft].
  assert (D1 : zdrop (offs + 1) content = tx ++ 0 :: rest).
  { replace (Z.to_nat (offs + 1)) with (Z.to_nat offs + 1)%nat by lia. by rewrite <- drop_drop, D. }
  cbn [length] in K. destruct (Z.eqb_spec c 10) as [->|Nc]; cbn [orb].
  - rewrite bind_eq, Ex, script_lines_newline, exec_lines_app by done.
    destruct (exec_lines cs reset (script_lines line) l) as [[r l1]|] eqn:E; [|done].
    pose proof (exec_lines_result _ _ _ _ _ _ E) as Rr. unfold CMD_EXIT_SUCCESS, EOK in *.
    destruct (Z.eqb_spec r 0) as [->|]; cbn [negb].
    + change (10 =? 0) with false. cbn iota. apply (IH (offs + 1) [] 10 tx); try done; try lia.
      * by apply (exec_lines_inv cs reset inv (script_lines line) l 0).
      * rewrite parts_app in P. apply Forall_app in P as [_ P]. exact P.
    + destruct (Z.ltb_spec r 0); [|lia]. unfold closed_after, EOK. by destruct (Z.eqb_spec r 0).
  - destruct (Z.eqb_spec c 0) as [->|N0].
    { exfalso. destruct Fc as [Fc|Fc]; by vm_compute in Fc. }
    cbn [orb]. pose proof (parts_short _ _ _ _ N Nc P) as Sh. unfold SIZE_CMD_ARG_LINE in *.
    destruct (Z.eqb_spec (zlen line) (256 - 1)); [lia|].
    rewrite (IH (offs + 1) (line ++ [c]) c tx); try done; try lia.
    + by rewrite <- app_assoc.
    + rewrite <- app_assoc. apply Forall_app. split; [done|]. by constructor.
    + apply Forall_app. by repeat constructor.
    + by rewrite <- app_assoc.
Qed.

(** C11. Calling a script that lies in a file behind its magic number does the same
    as [cmd_parse] on its text: the lines are executed in order, the first that
    fails ends the script with its error, and a script that succeeds closes the
    file.  The lines fit in the buffer and the script ends with a NUL. *)
Theorem cmd_call_equiv h inv dev name magic text rest (l0 l : loader (W := W)) :
  let content := magic ++ text ++ 0 :: rest in
  ph_open t fuel smsg rmsg dev (Some name) 0 (g_handler gb) l0 = Some ((EOK, h), l) ->
  call_source h content inv -> inv l -> zlen content < 2 ^ 31 ->
  cstr_ok magic -> zlen magic = SIZE_MAGIC_NB -> Forall script_char text ->
  Forall (fun p => zlen p <= SIZE_CMD_ARG_LINE - 1) (parts 10 text) ->
  zlen (g_buff gb) = SIZE_CMD_ARG_LINE -> (length text < steps)%nat ->
  cmd_call t fuel steps smsg rmsg gb parse [str "call"; dev; name; magic] l0 =
    closed_after h (cmd_parse cs reset (Some text) l).
Proof.
  intros content Op Src I Lc Om Lm F P Lb K. unfold cmd_call. change (zlen [str "call"; dev; name; magic]) with 4.
  cbn [Z.eqb Pos.eqb negb lookup list_lookup lift]. rewrite !bind_eq. cbn [mret M_ret]. rewrite bind_eq. cbn [mret M_ret].
  rewrite bind_eq. cbn [mret M_ret]. rewrite bind_eq, Op. change (EOK <? 0) with false. cbn iota.
  pose proof Src as [Rd _]. rewrite bind_eq. unfold SIZE_MAGIC_NB, SIZE_CMD_ARG_LINE in *.
  assert (Lt : 8 <= zlen content) by (unfold content; rewrite length_app; lia).
  rewrite Rd by (done || lia).
  assert (Zm : zslice 0 8 content = magic) by (unfold zslice, content; rewrite drop_0, take_app_length'; [done|lia]).
  rewrite Zm. change (8 =? 8) with true. cbn [negb].
  rewrite mstore_ok by lia. cbn [lift]. rewrite bind_eq. cbn [mret M_ret].
  assert (Tk : ztake 8 (splice 0 magic (g_buff gb)) = magic).
  { rewrite <- zslice_0. apply zslice_splice_same; lia. }
  rewrite Tk, cstring_app by (by apply cstr_ok_nonzero). cbn [lift]. rewrite bind_eq. cbn [mret M_ret].
  rewrite hal_strcmp_refl. change (0 =? 0) with true. cbn [negb].
  unfold parse at 1. rewrite cmd_parse_exec by done.
  apply (call_loop_spec h content inv steps 8 [] 0 text rest l Src I Lc); try done.
  unfold content. rewrite drop_app_length'; [done|lia].
Qed.

End spec.

(** ** A script on the RAM disk *)

Lemma cmd_map_keeps `{Target} `{SyspageTypes} `{SyspageHal} {W} argv (l : loader (W := W)) r l' :
  cmd_map argv l = Some (r, l') -> ld_phfs l' = ld_phfs l /\ ld_w l' = ld_w l.
Proof.
  unfold cmd_map, lift, get, sys, upd, mbind, M_bind, mret, M_ret, fault. intros E.
  repeat (case_match; simplify_eq; try done); by repeat (case_match; simplify_eq).
Qed.

Definition boot_text : cstr := str "map ram 0x40000 0x50000 rwx" ++ [10; 10] ++ str "map itcm 0x60000 0x61000 rx".
Definition boot_file : list Z := str "PLOSCR01" ++ boot_text ++ [0].
Definition boot_mem : pmem := mem_write (0x8000000 + 0x100) boot_file (fun _ => 0).
Definition boot_files : phfs_state :=
  (phfs_aliasReg (phfs_devReg ram_tab phfs_init (Some (str "ram0")) 4 0 None).2 (Some (str "boot")) 0x100 (zlen boot_file)).2.

Definition boot_loader : loader (H1 := sample_hal) (W := pmem) :=
  mk_loader (H1 := sample_hal) boot_files sample_init tt ∅ (mk_getopt None 1 1 0 1) 0 boot_mem.

Definition boot_cmds : list (cmd (loader (H1 := sample_hal) (W := pmem))) :=
  [mk_cmd (str "map") (cmd_map (H := target32) (H0 := sample_types) (H1 := sample_hal))].

Definition boot_inv (l : loader (H1 := sample_hal) (W := pmem)) : Prop := ld_phfs l = boot_files /\ ld_w l = boot_mem.

Lemma boot_ram_file :
  ram_file (H := target32) (H0 := sample_ram) ram_tab boot_files (mk_handler 0 0)
    {| pd_alias := str "ram0"; pd_major := 4; pd_minor := 0; pd_prot := 0 |}
    {| pf_alias := str "boot"; pf_addr := 0x100; pf_size := zlen boot_file |}.
Proof.
  unfold ram_file. split; [reflexivity|]. split; [done|]. split; [reflexivity|]. split; [done|]. split; [done|].
  split; [done|]. split; [done|]. split; [reflexivity|]. by vm_compute.
Qed.

Lemma boot_source :
  call_source (H := target32) (H1 := sample_hal) ram_tab 0 sample_msg sample_msg boot_cmds (mk_handler 0 0) boot_file boot_inv.
Proof.
  split.
  - intros [p s hws ids g b w] offs n [Ep Ew] O N Fit. cbn in Ep, Ew. subst p w. unfold ph_read, world. cbn [ld_phfs ld_w].
    destruct (ram_read (H := target32) (H0 := sample_ram) ram_tab 0 sample_msg sample_msg boot_files (mk_handler 0 0) _ _
      boot_mem offs n boot_ram_file) as (res & data & -> & [D|(-> & -> & _)]); cbn [pf_size pf_addr RAM_ADDR sample_ram] in *;
      [by vm_compute|by vm_compute|lia|lia|lia|].
    cbn [mbind option_bind]. rewrite Z.min_l by lia. do 3 f_equal.
    rewrite <- (zslice_mem_read (0x8000000 + 0x100) (zlen boot_file)) by lia.
    unfold boot_mem. by rewrite mem_read_write.
  - intros c argv l r l' [->|[]%elem_of_nil]%elem_of_cons [I1 I2] E. cbn [cmd_run] in E.
    apply cmd_map_keeps in E as [E1 E2]. split; [by rewrite E1|by rewrite E2].
Qed.

Lemma cmd_call_equiv_witness :
  cmd_call (H := target32) (H1 := sample_hal) ram_tab 0 100 sample_msg sample_msg sample_garbage
      (parse (H1 := sample_hal) boot_cmds) [str "call"; str "ram0"; str "boot"; str "PLOSCR01"] boot_loader =
    closed_after (H1 := sample_hal) ram_tab (mk_handler 0 0) (cmd_parse boot_cmds reset (Some boot_text) boot_loader).
Proof.
  refine (cmd_call_equiv (H := target32) (H1 := sample_hal) ram_tab 0 100 sample_msg sample_msg sample_garbage boot_cmds
    (mk_handler 0 0) boot_inv (str "ram0") (str "boot") (str "PLOSCR01") boot_text [] boot_loader boot_loader
    _ boot_source _ _ _ _ _ _ _ _).
  - reflexivity.
  - by split.
  - by vm_compute.
  - by repeat constructor.
  - reflexivity.
  - repeat (constructor; [first [left; reflexivity|right; reflexivity]|]). constructor.
  - by repeat constructor.
  - reflexivity.
  - vm_compute. lia.
Defined.
