(* ===== verification/Tools.v ===== *)
(** * Commands on memory and raw devices

    (src/cmds/erase.c, src/cmds/jffs2.c, src/cmds/ptable.c, src/cmds/mem.c)

    The commands that read or change storage below the files, and memory.  What
    they print is not modelled. *)

From S2P Require Import Prelude Mem CList CString Crc PTable Devs Msg Phfs Syspage SyspageMaps Getopt Cmd PMem Loader App AppLoad RamFile.

(** No character was taken: [ptr == endptr] *)
Definition none_taken (ptr endptr : cstr) : bool := zlen endptr =? zlen ptr.

Section tools.
  Context `{Target} `{SyspageTypes} `{SyspageHal} {W : Type}.
  Context (t : devtab W) (fuel steps : nat) (smsg rmsg : msg) (mem_store : Z -> list Z -> W -> W) (gb : garbage).

Abbreviation CM := (M (W := W)).

(** ** src/cmds/erase.c, without the confirmation some platforms ask for *)

Definition ph_erase (h : handler) (offs len flags : Z) : CM Z :=
  world (fun s w => phfs_erase t s h offs len flags w).

Definition cmd_erase (argv : list cstr) : CM Z :=
  let argc := zlen argv in
  if negb (argc =? 2) && negb (argc =? 4) then mret CMD_EXIT_FAILURE
  else
    a1 ← lift (argv !! 1%nat);
    range ←
      (if negb (argc =? 2) then
         a2 ← lift (argv !! 2%nat);
         let '(offs, endptr) := lib_strtoul a2 0 in
         if none_taken a2 endptr then mret None
         else
           a3 ← lift (argv !! 3%nat);
           let '(len, endptr) := lib_strtoul a3 0 in
           mret (if none_taken a3 endptr then None else Some (offs, len))
       else mret (Some (0, addr_max)));
    match range with
    | None => mret CMD_EXIT_FAILURE
    | Some (offs, len) =>
        '(res, h) ← ph_open t fuel smsg rmsg a1 None PHFS_OPEN_RAWONLY (g_handler gb);
        if res <? 0 then mret CMD_EXIT_FAILURE
        else
          res ← ph_erase h offs len 0;
          _ ← ph_close t h;
          mret (if res <? 0 then CMD_EXIT_FAILURE else CMD_EXIT_SUCCESS)
    end.

(** ** src/cmds/jffs2.c *)

Definition JFFS2_MAGIC_BITMASK := 0x1985.
Definition JFFS2_NODETYPE_CLEANMARKER := 0x2003.
Definition MIN_CLEANMARKER_SIZE := 12.

(** The bytes of [struct jffs2_cleanmarker_node]. *)
Definition cleanmarker_node (cleanmarkerSize : Z) : list Z :=
  let hdr := le_bytes 2 JFFS2_MAGIC_BITMASK ++ le_bytes 2 JFFS2_NODETYPE_CLEANMARKER ++ le_bytes 4 (w32 cleanmarkerSize) in
  hdr ++ le_bytes 4 (lib_crc32 hdr 0).

Record jffs2_opts := mk_jffs2 {
  j_major : Z; j_minor : Z; j_clean : bool; j_erase : bool;
  j_start : Z; j_nb : Z; j_bsize : Z; j_csize : Z
}.

(** [<start>:<number>:<size>:<marker size>] *)
Definition jffs2_blocks (a : cstr) : option (Z * Z * Z * Z) :=
  let '(startBlock, e) := lib_strtoul a 0 in
  if negb (deref e =? ":"%ch) then None
  else
    let '(numBlocks, e) := lib_strtoul (tail e) 0 in
    if negb (deref e =? ":"%ch) then None
    else
      let '(blockSize, e) := lib_strtoul (tail e) 0 in
      if negb (deref e =? ":"%ch) then None
      else
        let '(cleanmarkerSize, e) := lib_strtoul (tail e) 0 in
        if negb (deref e =? 0) then None else Some (startBlock, numBlocks, blockSize, cleanmarkerSize).

(** The loop over the options; [None] for a failure of the command. *)
Fixpoint jffs2_options (k : nat) (argv : list cstr) (o : jffs2_opts) : CM (option jffs2_opts) :=
  match k with
  | O => fault
  | S k =>
      g ← get ld_getopt;
      '(c, g) ← lift (lib_getopt argv (str "c:d:e") g);
      _ ← upd (set_getopt g);
      if c <? 0 then mret (Some o)
      else if c =? "e"%ch then
        jffs2_options k argv (mk_jffs2 (j_major o) (j_minor o) (j_clean o) true (j_start o) (j_nb o) (j_bsize o) (j_csize o))
      else if c =? "c"%ch then
        a ← lift (optarg g);
        match jffs2_blocks a with
        | None => mret None
        | Some (st, nb, bs, cs) => jffs2_options k argv (mk_jffs2 (j_major o) (j_minor o) true (j_erase o) st nb bs cs)
        end
      else if c =? "d"%ch then
        a ← lift (optarg g);
        let '(major, e) := lib_strtoul a 0 in
        if negb (deref e =? "."%ch) then mret None
        else
          let '(minor, e) := lib_strtoul (tail e) 0 in
          if negb (deref e =? 0) then mret None
          else jffs2_options k argv
            (mk_jffs2 (s32 major) (s32 minor) (j_clean o) (j_erase o) (j_start o) (j_nb o) (j_bsize o) (j_csize o))
      else mret None
  end.

(** The blocks [i .. i + k); errors are only reported. *)
Fixpoint mark_blocks (k : nat) (o : jffs2_opts) (node : list Z) (i : Z) (w : W) : W :=
  match k with
  | O => w
  | S k =>
      let addr := wa (wa (j_start o + i) * j_bsize o) in
      let w := if j_erase o then (devs_erase t (w32 (j_major o)) (w32 (j_minor o)) addr (j_bsize o) 0 w).2 else w in
      let w := (devs_write t (w32 (j_major o)) (w32 (j_minor o)) addr node w).2 in
      mark_blocks k o node (i + 1) w
  end.

Definition cmd_jffs2 (argv : list cstr) : CM Z :=
  opts ← jffs2_options (S (length (concat argv))) argv
    (mk_jffs2 (-1) (-1) false false addr_max addr_max addr_max addr_max);
  match opts with
  | None => mret CMD_EXIT_FAILURE
  | Some o =>
      if j_major o =? -1 then mret CMD_EXIT_FAILURE
      else if negb (j_clean o) then mret CMD_EXIT_FAILURE
      else if j_csize o <? MIN_CLEANMARKER_SIZE then mret CMD_EXIT_FAILURE
      else if devs_check t (w32 (j_major o)) (w32 (j_minor o)) <? 0 then mret CMD_EXIT_FAILURE
      else
        _ ← upd (fun l => set_w (mark_blocks (Z.to_nat (j_nb o)) o (cleanmarker_node (j_csize o)) 0 (ld_w l)) l);
        mret CMD_EXIT_SUCCESS
  end.

(** ** src/cmds/ptable.c *)

(** The size of the static [ptable_common.ptable]. *)
Definition sizeof_ptables := sizeof_ptable * 1024.

(** The result, and the buffer of the table; [count] is the uninitialised
    [partCount]. *)
Definition partRead (h : handler) (offs memsz blksz : Z) (count ptable : list Z) : CM (Z * list Z) :=
  '(res, data) ← ph_read t fuel smsg rmsg h offs 4;
  let res := s32 res in
  if res <? 0 then mret (res, ptable)
  else
    count ← lift (mstore count 0 data);
    let partCount := le_val count in
    if partCount =? 0 then mret (0, ptable)
    else
      let ptableSize := ptable_size partCount in
      if sizeof_ptables <? ptableSize then mret (-1, ptable)
      else
        '(res, data) ← ph_read t fuel smsg rmsg h offs ptableSize;
        let res := s32 res in
        if res <? 0 then mret (res, ptable)
        else
          ptable ← lift (mstore ptable 0 data);
          res ← lift (ptable_deserialize (Some ptable) (w32 memsz) (w32 blksz));
          if res <? 0 then mret (res, ptable) else mret (s32 partCount, ptable).

Definition ctl (major minor cmd arg : Z) : CM (Z * Z) :=
  world (fun _ w => Some (devs_control t major minor cmd arg w)).

(** [memsz0] and [blksz0] are what the static variables held before. *)
Definition cmd_ptable (memsz0 blksz0 : Z) (count ptable : list Z) (argv : list cstr) : CM Z :=
  let argc := zlen argv in
  if negb (argc =? 2) && negb (argc =? 3) then mret (- EINVAL)
  else
    a1 ← lift (argv !! 1%nat);
    offs ←
      (if argc =? 3 then
         a2 ← lift (argv !! 2%nat);
         let '(offs, endptr) := lib_strtoul a2 0 in mret (if none_taken a2 endptr then None else Some offs)
       else mret (Some 0));
    match offs with
    | None => mret (- EINVAL)
    | Some offs =>
        s ← get ld_phfs;
        match phfs_devGet s a1 with
        | (0, Some pd) =>
            if negb (pd_prot pd =? phfs_prot_raw) then mret CMD_EXIT_FAILURE
            else
              '(res, memsz) ← ctl (pd_major pd) (pd_minor pd) DEV_CONTROL_GETPROP_TOTALSZ memsz0;
              if negb (res =? EOK) then mret CMD_EXIT_FAILURE
              else
                '(res, blksz) ← ctl (pd_major pd) (pd_minor pd) DEV_CONTROL_GETPROP_BLOCKSZ blksz0;
                if negb (res =? EOK) then mret CMD_EXIT_FAILURE
                else
                  let offs := if argc =? 3 then offs else wa (memsz - blksz) in
                  '(res, h) ← ph_open t fuel smsg rmsg a1 None PHFS_OPEN_RAWONLY (g_handler gb);
                  if res <? 0 then mret CMD_EXIT_FAILURE
                  else
                    '(res, _) ← partRead h offs memsz blksz count ptable;
                    _ ← ph_close t h;
                    mret (if res <=? 0 then CMD_EXIT_FAILURE else CMD_EXIT_SUCCESS)
        | _ => mret CMD_EXIT_FAILURE
        end
    end.

(** ** src/cmds/mem.c *)

Definition mem_region_validator (addr size attr : Z) (s : syspage) : option bool :=
  mapAttr ← syspage_mapRangeCheck addr (wa (addr + size)) s;
  Some (match mapAttr with None => false | Some a => Z.land a attr =? attr end).

Definition access_size (size : Z) : bool := (size =? 1) || (size =? 2) || (size =? 4) || (size =? 8).

(** The value read is only shown. *)
Definition memr (addr size : Z) (forceValid : bool) : CM Z :=
  ok ← (if forceValid then mret true else sys_get (mem_region_validator addr size mAttrRead));
  mret (if ok : bool then if access_size size then 0 else - EINVAL else 0).

Definition memw (addr size val : Z) (forceValid : bool) : CM Z :=
  ok ← (if forceValid then mret true else sys_get (mem_region_validator addr size mAttrWrite));
  if (ok : bool) then
    if access_size size then _ ← memcpy mem_store addr (le_bytes (Z.to_nat size) val); mret 0 else mret (- EINVAL)
  else mret 0.

(** The loops over [count]. *)
Fixpoint mem_loop (k : nat) (op : Z -> CM Z) (size addr : Z) : CM Z :=
  match k with
  | O => mret CMD_EXIT_SUCCESS
  | S k => res ← op addr; if res <? 0 then mret CMD_EXIT_FAILURE else mem_loop k op size (wa (addr + size))
  end.

Record mem_opts := mk_mem_opts {
  mo_align : Z; mo_count : Z; mo_size : Z; mo_force : bool; mo_read : bool; mo_write : bool; mo_value : Z
}.

(** A number that fills the argument, or 0. *)
Definition full_number (a : cstr) : Z :=
  let '(v, e) := lib_strtoul a 0 in if none_taken a e || negb (deref e =? 0) then 0 else v.

Fixpoint mem_options (k : nat) (argv : list cstr) (o : mem_opts) : CM (option mem_opts) :=
  match k with
  | O => fault
  | S k =>
      g ← get ld_getopt;
      '(c, g) ← lift (lib_getopt argv (str "a:c:Fhrs:w:") g);
      _ ← upd (set_getopt g);
      let '(mk_mem_opts al cn sz f r w v) := o in
      if c <? 0 then mret (Some o)
      else if c =? "a"%ch then
        a ← lift (optarg g); mem_options k argv (mk_mem_opts (full_number a) cn sz f r w v)
      else if c =? "c"%ch then
        a ← lift (optarg g); mem_options k argv (mk_mem_opts al (full_number a) sz f r w v)
      else if c =? "F"%ch then mem_options k argv (mk_mem_opts al cn sz true r w v)
      else if c =? "r"%ch then mem_options k argv (mk_mem_opts al cn sz f true w v)
      else if c =? "s"%ch then
        a ← lift (optarg g); mem_options k argv (mk_mem_opts al cn (full_number a) f r w v)
      else if c =? "w"%ch then
        a ← lift (optarg g);
        let '(x, e) := lib_strtoul a 0 in
        mem_options k argv (mk_mem_opts al cn sz f r (w || negb (none_taken a e || negb (deref e =? 0))) x)
      else mret None
  end.

(** The checks of the options. *)
Definition mem_opts_ok (o : mem_opts) : bool :=
  negb ((mo_align o =? 0) || negb (Z.land (mo_align o) (wa (mo_align o - 1)) =? 0)) &&
  negb ((mo_size o =? 0) || negb (Z.land (mo_size o) (wa (mo_size o - 1)) =? 0)) &&
  negb (mo_align o <? mo_size o) && negb (mo_count o =? 0) && xorb (mo_read o) (mo_write o).

Definition cmd_memMain (argv : list cstr) : CM Z :=
  opts ← mem_options (S (length (concat argv))) argv (mk_mem_opts (addr_bits / 8) 1 (addr_bits / 8) false false false 0);
  match opts with
  | None => mret CMD_EXIT_FAILURE
  | Some o =>
      g ← get ld_getopt;
      if (optind g =? zlen argv) || negb (mem_opts_ok o) then mret CMD_EXIT_FAILURE
      else
        a ← lift (argv !! Z.to_nat (optind g));
        let '(addr, e) := lib_strtoul a 0 in
        if none_taken a e || negb (deref e =? 0) then mret CMD_EXIT_FAILURE
        else
          let addr := Z.land addr (wa (Z.lnot (wa (mo_align o - 1)))) in
          if mo_read o then mem_loop (Z.to_nat (mo_count o)) (fun a => memr a (mo_size o) (mo_force o)) (mo_size o) addr
          else if mo_write o then
            mem_loop (Z.to_nat (mo_count o)) (fun a => memw a (mo_size o) (mo_value o) (mo_force o)) (mo_size o) addr
          else mret CMD_EXIT_SUCCESS
  end.

End tools.

(** ** The options of a command come from its arguments *)

Lemma at_in (a : cstr) i : at_ a i = 0 \/ at_ a i ∈ a.
Proof.
  unfold at_. destruct (a !! i) as [c|] eqn:E; [right|by left]. by apply list_elem_of_lookup_2 in E.
Qed.

(** A call of [lib_getopt] answers an option of an argument, or no letter at all. *)
Lemma lib_getopt_letter argv spec g c g' :
  lib_getopt argv spec g = Some (c, g') -> c ∈ [-1; 0; "?"%ch; ":"%ch] \/ exists a, a ∈ argv /\ c ∈ a.
Proof.
  unfold lib_getopt. cbn zeta. set (s := if optind g <=? 0 then _ else _).
  destruct (_ || _); [intros [= <- _]; left; set_solver|].
  destruct (argv !! Z.to_nat (optind s)) as [a|] eqn:A; cbn [mbind option_bind]; [|done]. apply list_elem_of_lookup_2 in A.
  destruct (_ || _); [intros [= <- _]; left; set_solver|].
  destruct (_ && _); [intros [= <- _]; left; set_solver|].
  destruct (char_at a (optwhere s)) as [o|] eqn:O; cbn [mbind option_bind]; [|done].
  assert (L : o ∈ [-1; 0; "?"%ch; ":"%ch] \/ exists a, a ∈ argv /\ o ∈ a).
  { unfold char_at in O. destruct (_ && _); [|done]. injection O as <-.
    destruct (at_in a (Z.to_nat (optwhere s))) as [->|I]; [left; set_solver|right; by exists a]. }
  clear O.
  assert (K : "?"%ch ∈ [-1; 0; "?"%ch; ":"%ch] /\ ":"%ch ∈ [-1; 0; "?"%ch; ":"%ch]) by set_solver.
  destruct (hal_strchr spec o) as [[|x sp]|]; [done| |].
  2: { destruct (char_at a _); cbn [mbind option_bind]; [|done]. intros [= <- _]. left. apply K. }
  destruct (char_at a _) as [c'|]; cbn [mbind option_bind]; [|done].
  destruct (takes_arg sp); [|destruct (negb _); by intros [= <- _]].
  destruct (negb _); [by intros [= <- _]|]. destruct (arg_optional sp); [by intros [= <- _]|].
  destruct (_ <? _).
  - destruct (argv !! _); cbn [mbind option_bind]; [|done]. by intros [= <- _].
  - intros [= <- _]. left. destruct (_ =? _); apply K.
Qed.

Lemma land_wa `{Target} a c : Z.land a (wa c) = wa (Z.land a c).
Proof. unfold wa. assert (0 <= addr_bits) by (destruct addr_bits_ok; lia). by rewrite <- !Z.land_ones, Z.land_assoc by done. Qed.

Section mem.
  Context `{Target} `{SyspageTypes} `{SyspageHal} {W : Type} (mem_store : Z -> list Z -> W -> W) `{!LoadMem W mem_store}.

Abbreviation CM := (M (W := W)).

(** *** The options *)

Lemma mem_options_spec k argv o (l : loader (W := W)) r l' :
  Forall (fun a => "F"%ch ∉ a) argv -> mem_options k argv o l = Some (r, l') ->
  ld_sys l' = ld_sys l /\ ld_w l' = ld_w l /\
  forall o', r = Some o' -> mo_force o' = mo_force o.
Proof.
  intros NF. revert o l. induction k as [|k IH]; intros o l E; cbn [mem_options] in E; [done|].
  unfold get, upd, lift, fault, mbind, M_bind, mret, M_ret in E.
  destruct (lib_getopt argv _ _) as [[c g]|] eqn:G; [|done]. destruct o as [al cn sz f rd wr v].
  assert (B : c <> "F"%ch).
  { apply lib_getopt_letter in G as [I|(a & A & I)].
    - intros ->. set_solver.
    - intros ->. rewrite Forall_forall in NF. by apply (NF a A). }
  destruct (c <? 0); [injection E as <- <-; split; [done|split; [done|congruence]]|].
  destruct (Z.eqb_spec c "F"%ch) as [|_]; [done|].
  repeat match type of E with
  | (if ?b then _ else _) _ = _ => destruct b
  | match ?x with Some _ => _ | None => _ end = _ =>
      destruct x as [[??]|] eqn:X; [|done]; destruct (optarg g); [injection X as <- <-|done]
  end; try (injection E as <- <-; done); try destruct (lib_strtoul _ _); exact (IH _ _ E).
Qed.

(** *** The check of a range *)

Lemma mem_region_spec s ms addr size attr b :
  sys_at s ms -> mem_region_validator addr size attr s = Some b ->
  b = true -> exists am, am ∈ ms /\ a_start am <= addr /\ wa (addr + size) < a_end am /\ Z.land (a_attr am) attr = attr.
Proof.
  intros S E ->. unfold mem_region_validator, syspage_mapRangeCheck in E.
  rewrite (maps_find_spec _ (fun am =>
    if (a_start am <=? addr) && (wa (addr + size) <? a_end am) then Some (a_attr am) else None) s ms S) in E.
  2: { intros am m (m' & Em' & A & B & C & _) Em I. rewrite Em in Em'. injection Em' as <-. by rewrite A, B, C. }
  cbn [mbind option_bind] in E. destruct (head _) as [at_|] eqn:Hd; [|done]. injection E as E.
  apply head_Some_elem_of, list_elem_of_omap in Hd as (am & I & F). exists am. split; [done|].
  destruct (Z.leb_spec (a_start am) addr), (Z.ltb_spec (wa (addr + size)) (a_end am)); try done.
  injection F as ->. split; [done|]. split; [done|]. by apply Z.eqb_eq.
Qed.

(** A byte in no map that can be written, and not in the last word of the address
    space. *)
Definition unwritable (ms : list amap) (x : Z) : Prop :=
  0 <= x < 2 ^ addr_bits - 8 /\
  forall am, am ∈ ms -> a_start am <= x < a_end am -> Z.land (a_attr am) mAttrWrite <> mAttrWrite.

Lemma memw_spec ms addr size val (l : loader (W := W)) r l' x :
  sys_at (ld_sys l) ms -> 0 <= addr < 2 ^ addr_bits -> unwritable ms x ->
  memw mem_store addr size val false l = Some (r, l') ->
  ld_sys l' = ld_sys l /\ w_mem (ld_w l') x = w_mem (ld_w l) x.
Proof.
  intros S A (X & U) E. unfold memw, sys_get, mbind, M_bind, mret, M_ret, memcpy, upd in E.
  destruct (mem_region_validator _ _ _ _) as [ok|] eqn:V; [|done]. destruct ok; [|by injection E as _ <-].
  destruct (access_size size) eqn:Z'; [|by injection E as _ <-]. injection E as _ <-. split; [done|].
  cbn [ld_w set_w]. rewrite w_mem_store. apply mem_write_out. rewrite length_le_bytes.
  apply (mem_region_spec _ ms) in V as (am & I & V1 & V2 & V3); [|done|done].
  assert (1 <= size <= 8).
  { unfold access_size in Z'. destruct (Z.eqb_spec size 1), (Z.eqb_spec size 2), (Z.eqb_spec size 4),
      (Z.eqb_spec size 8); try done; lia. }
  destruct (decide (x < addr \/ addr + size <= x)) as [|N]; [lia|]. exfalso.
  rewrite wa_small in V2 by lia. apply (U am I); [lia|done].
Qed.

Lemma mem_loop_inv (inv : loader (W := W) -> Prop) (op : Z -> CM Z) size k addr l r l' :
  (forall a l r l', 0 <= a < 2 ^ addr_bits -> inv l -> op a l = Some (r, l') -> inv l') ->
  0 <= addr < 2 ^ addr_bits -> inv l -> mem_loop k op size addr l = Some (r, l') -> inv l'.
Proof.
  intros P. revert addr l. induction k as [|k IH]; intros addr l A I E; cbn [mem_loop] in E.
  { by injection E as _ <-. }
  unfold mbind, M_bind, mret, M_ret in E. destruct (op addr l) as [[r1 l1]|] eqn:O; [|done].
  apply P in O; [|done|done]. destruct (r1 <? 0); [by injection E as _ <-|].
  apply (IH _ _ (wa_range _) O E).
Qed.


End mem.

Lemma lift_bind `{Target} `{SyspageTypes} `{SyspageHal} {W A B} (o : option A) (f : A -> M (W := W) B) l :
  (lift o ≫= f) l = match o with Some a => f a l | None => None end.
Proof. by destruct o. Qed.

(** ** A table read from a device *)

Section table.
  Context `{Target} `{SyspageTypes} `{SyspageHal} {W : Type}.
  Context (t : devtab W) (fuel : nat) (smsg rmsg : msg).

(** Whatever the device answers, a number of partitions is only returned with a
    table that is well formed for the device. *)
Lemma partRead_sound h offs memsz blksz count pt (l l' : loader (W := W)) c m :
  (forall o n l r d l', ph_read t fuel smsg rmsg h o n l = Some ((r, d), l') -> Forall is_byte d) ->
  Forall is_byte pt -> 0 < w32 blksz ->
  partRead t fuel smsg rmsg h offs memsz blksz count pt l = Some ((c, m), l') -> 0 < c ->
  exists n, load32 m 0 = Some (Z.of_nat n) /\ table_ok m (w32 memsz) (w32 blksz) n.
Proof.
  intros By Bp K E C. unfold partRead in E. rewrite bind_eq in E.
  destruct (ph_read _ _ _ _ h offs 4 l) as [[[r d] l1]|]; [|done].
  destruct (Z.ltb_spec (s32 r) 0); [injection E as <- _ _; lia|].
  rewrite lift_bind in E. destruct (mstore count 0 d) as [cb|]; [|done].
  cbn zeta in E. destruct (le_val cb =? 0); [injection E as <- _ _; lia|].
  destruct (sizeof_ptables <? _); [injection E as <- _ _; lia|]. rewrite bind_eq in E.
  destruct (ph_read _ _ _ _ h offs _ l1) as [[[r2 d2] l2]|] eqn:R; [|done]. apply By in R.
  destruct (Z.ltb_spec (s32 r2) 0); [injection E as <- _ _; lia|].
  rewrite lift_bind in E. destruct (mstore pt 0 d2) as [pt'|] eqn:S; [|done].
  assert (B : Forall is_byte pt').
  { unfold mstore in S. destruct (_ && _); [|done]. injection S as <-. by apply Forall_splice. }
  rewrite lift_bind in E. destruct (ptable_deserialize _ _ _) as [res|] eqn:V; [|done].
  pose proof (ptable_verify_result _ _ _ _ V).
  destruct (Z.ltb_spec res 0); injection E as <- <- _; [lia|].
  apply ptable_deserialize_ok; [done|apply w32_range|split; [done|apply w32_range]|]. rewrite V. f_equal. lia.
Qed.

End table.

(** ** [mem] at work *)

(** What the check of a range refuses and lets through: the last word of a map, as
    the end is compared as if it belonged to the range, and the last word of the
    address space, whose end wraps to 0. *)
Lemma mem_refuses_last_word :
  mem_region_validator (H := target32) 0x4fff8 4 (mAttrWrite (SyspageTypes := sample_types)) (sample_map (str "ram") 0x40000 0x50000) = Some true /\
  mem_region_validator (H := target32) 0x4fffc 4 (mAttrWrite (SyspageTypes := sample_types)) (sample_map (str "ram") 0x40000 0x50000) = Some false /\
  mem_region_validator (H := target32) 0xfffffffc 4 (mAttrWrite (SyspageTypes := sample_types)) (sample_map (str "ram") 0x40000 0x50000) = Some true.
Proof. by vm_compute. Qed.

Definition mem_args (a : string) : list cstr := str <$> ["mem"; "-w"; "0x55"; "-c"; "2"; a]%string.

Definition mem_run (a : string) :=
  cmd_memMain (H := target32) (H0 := sample_types) (H1 := sample_hal) mem_write (mem_args a) sample_loader.

Lemma mem_writes :
  match mem_run "0x40004" with Some (r, l) => (r, mem_read 0x40000 16 (ld_w l)) | None => (-1, []) end =
    (0, [0; 0; 0; 0; 0x55; 0; 0; 0; 0x55; 0; 0; 0; 0; 0; 0; 0]).
Proof. by vm_compute. Qed.

