(* ===== verification/HalMemory.v ===== *)
(** * The memory of the platforms (src/hal/armv7m/imxrt/hal.c,
      src/hal/armv7a/imx6ull/hal.c, src/hal/armv7a/zynq7000/hal.c, src/hal/ia32/memory.c)

    [hal_memoryGetNextEntry] tells the system page which parts of a map are not
    free: the sections of the loader, the system page, and what the BIOS reserves.
    The other platforms have copies of the first of these functions.  The addresses
    of the sections are those of the linker; the map of the BIOS is a parameter. *)

From S2P Require Import Prelude CList CString Devs Syspage SyspageMaps Mpu.

Section ranges.
  Context `{Target} `{SyspageTypes}.

(** ** The range of an entry within [start, end)

    The entry is clipped in place; [minEntry] is the lowest range found so far. *)
Definition hal_getMinOverlappedRange (start end_ : Z) (entry minEntry : aent) : aent * aent :=
  if (start <? ae_end entry) && (ae_start entry <? end_) then
    let entry := if ae_start entry <? start then mk_aent start (ae_end entry) (ae_type entry) else entry in
    let entry := if end_ <? ae_end entry then mk_aent (ae_start entry) end_ (ae_type entry) else entry in
    (entry, if ae_start entry <? ae_start minEntry then entry else minEntry)
  else (entry, minEntry).

Fixpoint entries_loop (start end_ : Z) (entries : list aent) (minEntry : aent) : aent :=
  match entries with
  | [] => minEntry
  | e :: entries =>
      entries_loop start end_ entries
        (if ae_end e <=? ae_start e then minEntry else (hal_getMinOverlappedRange start end_ e minEntry).2)
  end.

Definition no_entry : aent := mk_aent addr_max 0 0.

(** The last lines: nothing was found, or the result. *)
Definition found (minEntry : aent) : option (Z * Z * Z) :=
  if ae_start minEntry =? addr_max then None
  else Some (ae_start minEntry, ae_end minEntry, ae_type minEntry).

(** [hs] is the system page. *)
Definition next_entry (entries : list aent) (hs heap_limit start end_ : Z) : option (Z * Z * Z) :=
  if start =? end_ then None
  else
    let minEntry := (hal_getMinOverlappedRange start end_ (mk_aent hs heap_limit hal_entryReserved) no_entry).2 in
    found (entries_loop start end_ entries minEntry).

(** ** The tables of the platforms

    The symbols of the linker scripts. *)
Record sections := {
  init_start : Z; init_end : Z; text_start : Z; etext : Z; rodata_start : Z; rodata_end : Z;
  cmd_start : Z; cmd_end : Z; init_array_start : Z; init_array_end : Z; fini_array_start : Z; fini_array_end : Z;
  ramtext_start : Z; ramtext_end : Z; data_start : Z; data_end : Z; bss_start : Z; bss_end : Z;
  heap_base : Z; heap_limit : Z; stack_limit : Z; stack_top : Z
}.

Definition temp (a b : Z) : aent := mk_aent a b hal_entryTemp.

Definition imxrt_entries (l : sections) : list aent :=
  [temp (init_start l) (init_end l); temp (text_start l) (etext l); temp (rodata_start l) (rodata_end l);
   temp (cmd_start l) (cmd_end l); temp (init_array_start l) (init_array_end l);
   temp (fini_array_start l) (fini_array_end l); temp (ramtext_start l) (ramtext_end l);
   temp (data_start l) (data_end l); temp (bss_start l) (bss_end l); temp (heap_base l) (heap_limit l);
   temp (stack_limit l) (stack_top l)].

Definition imxrt_memoryGetNextEntry (l : sections) (hs start end_ : Z) : option (Z * Z * Z) :=
  next_entry (imxrt_entries l) hs (heap_limit l) start end_.

(** The sections in DDR memory. *)
Record ddr_sections := { ddr_start : Z; ddr_end : Z; uncached_ddr_start : Z; uncached_ddr_end : Z }.

Definition imx6ull_memoryGetNextEntry (l : sections) (d : ddr_sections) (nand_start nand_end hs start end_ : Z)
    : option (Z * Z * Z) :=
  next_entry (imxrt_entries l ++
    [temp (ddr_start d) (ddr_end d); temp (uncached_ddr_start d) (uncached_ddr_end d); temp nand_start nand_end])
    hs (heap_limit l) start end_.

Definition ADDR_DDR := 0x100000.
Definition SIZE_DDR := 512 * 1024 * 1024.
Definition SIZE_BITSTREAM := 4 * 1024 * 1024.
Definition ADDR_BITSTREAM := ADDR_DDR + SIZE_DDR - SIZE_BITSTREAM.

Definition zynq7000_memoryGetNextEntry (l : sections) (d : ddr_sections) (hs start end_ : Z) : option (Z * Z * Z) :=
  next_entry (imxrt_entries l ++
    [temp (ddr_start d) (ddr_end d); temp (uncached_ddr_start d) (uncached_ddr_end d); temp ADDR_BITSTREAM SIZE_BITSTREAM])
    hs (heap_limit l) start end_.

(** ** The map of the BIOS (src/hal/ia32/memory.c)

    A call of the BIOS with the offset [offs]: the address, the length and the type
    of a range and the next offset, or nothing when it sets the carry flag. *)

Definition bios := Z -> option (Z * Z * Z * Z).

Definition hal_memoryGetEntry (b : bios) (offs : Z) : option (aent * Z * Z) :=
  '(addr, len, ty, next) ← b offs;
  let end_ := w64 (addr + len) in
  Some (mk_aent (w32 addr) (w32 (if end_ <=? 0xffffffff then end_ else end_ - 1)) hal_entryReserved, ty, next).

(** The loop over the ranges: the lowest entry, or nothing when the BIOS fails.
    [prev] is the end of [prevEntry]. *)
Fixpoint e820_loop (fuel : nat) (b : bios) (start end_ offs prev : Z) (minEntry : aent) : option (option aent) :=
  match fuel with
  | O => None
  | S fuel =>
      match hal_memoryGetEntry b offs with
      | None => Some None
      | Some (e, ty, offs) =>
          let '(e, minEntry) :=
            if negb (ty =? 1) then hal_getMinOverlappedRange start end_ e minEntry else (e, minEntry) in
          let minEntry :=
            if negb (prev =? ae_start e) then
              (hal_getMinOverlappedRange start end_ (mk_aent prev (ae_start e) hal_entryInvalid) minEntry).2
            else minEntry in
          if offs =? 0 then Some (Some minEntry) else e820_loop fuel b start end_ offs (ae_end e) minEntry
      end
  end.

Record ia32_sections := {
  i_start : Z; i_end : Z; i_ramtext_start : Z; i_ramtext_end : Z; i_data_start : Z; i_data_end : Z;
  i_bss_start : Z; i_bss_end : Z; i_heap_base : Z; i_heap_limit : Z; i_stack_limit : Z; i_stack_top : Z
}.

Definition ia32_entries (l : ia32_sections) : list aent :=
  [temp 0 0x1000; temp (i_start l) (i_end l); temp (i_ramtext_start l) (i_ramtext_end l);
   temp (i_data_start l) (i_data_end l); temp (i_bss_start l) (i_bss_end l); temp (i_heap_base l) (i_heap_limit l);
   temp (i_stack_limit l) (i_stack_top l);
   temp 0x1000 0x1800 (* GDT *); temp 0x1800 0x2000 (* IDT *);
   temp 0x77c00 0x77e00 (* VBE_INFO *); temp 0x77e00 0x77f00 (* VBE_MODE_INFO *);
   temp 0x78000 0x80000 (* RCACHE, WCACHE *)].

Definition ia32_memoryGetNextEntry (fuel : nat) (l : ia32_sections) (b : bios) (hs start end_ : Z)
    : option (option (Z * Z * Z)) :=
  if start =? end_ then Some None
  else
    let minEntry := (hal_getMinOverlappedRange start end_ (mk_aent hs (i_heap_limit l) hal_entryTemp) no_entry).2 in
    let minEntry := entries_loop start end_ (ia32_entries l) minEntry in
    r ← e820_loop fuel b start end_ 0 0 minEntry;
    Some (r ≫= found).

End ranges.

(** ** The platforms as the system page sees them

    i.MX RT: the protection unit is told of every map; [None] stands for an access
    outside its tables. *)
Definition imxrt_hal `{Target} `{SyspageTypes} (l : sections) : SyspageHal :=
  {| hw := Z * option mpu_common;
     hal_memoryGetNextEntry := fun h start end_ => imxrt_memoryGetNextEntry l h.1 start end_;
     hal_memoryAddMap := fun h start end_ attr mapId =>
       match h.2 ≫= mpu_regionAlloc start end_ attr mapId 1 with
       | Some (res, m) => (res, (h.1, Some m))
       | None => (0, (h.1, None))
       end |}.

Definition zynq7000_hal `{Target} `{SyspageTypes} (l : sections) (d : ddr_sections) : SyspageHal :=
  {| hw := Z;
     hal_memoryGetNextEntry := fun h start end_ => zynq7000_memoryGetNextEntry l d h start end_;
     hal_memoryAddMap := fun h _ _ _ _ => (0, h) |}.

Definition ia32_hal `{Target} `{SyspageTypes} (fuel : nat) (l : ia32_sections) (b : bios) : SyspageHal :=
  {| hw := Z;
     hal_memoryGetNextEntry := fun h start end_ => ia32_memoryGetNextEntry fuel l b h start end_ ≫= id;
     hal_memoryAddMap := fun h _ _ _ _ => (0, h) |}.

(** ** What a platform promises: its answers cover the bytes that are not free

    [busy x]: the byte at [x] is in use. *)

Record reserves (next : Z -> Z -> option (Z * Z * Z)) (busy : Z -> Prop) (top : Z) : Prop := {
  res_range : forall lo hi a b ty, lo <= hi -> next lo hi = Some (a, b, ty) -> lo <= a /\ a < b /\ b <= hi;
  res_busy : forall lo hi a b ty x, lo <= hi -> next lo hi = Some (a, b, ty) -> a <= x < b -> busy x;
  res_first : forall lo hi a b ty x,
    lo <= hi -> next lo hi = Some (a, b, ty) -> hi <= top -> lo <= x < a -> ~ busy x;
  res_none : forall lo hi x, next lo hi = None -> hi <= top -> lo <= x < hi -> ~ busy x
}.

Definition in_range (e : aent) (x : Z) : Prop := ae_start e <= x < ae_end e.

Lemma reserves_answers `{SyspageHal} hws busy top :
  reserves (hal_memoryGetNextEntry hws) busy top -> hal_answers hws.
Proof. intros R lo hi a b ty. apply R. Qed.

Lemma ranges_above `{SyspageHal} hws hi lo es e :
  hal_answers hws -> lo <= hi -> hal_ranges hws hi lo es -> e ∈ es -> lo <= ae_start e.
Proof.
  intros A L. induction 1 as [lo N|lo a b ty es N Rs IH]; [by intros ?%elem_of_nil|].
  pose proof (A _ _ _ _ _ L N). intros [->|I]%elem_of_cons; [cbn; lia|]. specialize (IH ltac:(lia) I). lia.
Qed.

(** The entries of a map are exactly the bytes in use. *)
Lemma ranges_cover `{SyspageHal} hws busy top hi lo es x :
  reserves (hal_memoryGetNextEntry hws) busy top -> hi <= top -> hal_ranges hws hi lo es ->
  lo <= x < hi -> busy x <-> exists e, e ∈ es /\ in_range e x.
Proof.
  intros R Le. induction 1 as [lo N|lo a b ty es N Rs IH]; intros X.
  - split; [intros B; by destruct (res_none _ _ _ R _ _ x N Le X)|by intros (e & ?%elem_of_nil & _)].
  - pose proof (res_range _ _ _ R lo hi a b ty ltac:(lia) N) as A.
    assert (In : forall e, e ∈ mk_aent a b ty :: es -> in_range e x -> a <= x < b \/ b <= x /\ e ∈ es).
    { intros e [->|I]%elem_of_cons Q; [by left|right]. split; [|done].
      pose proof (ranges_above hws hi b es e (reserves_answers _ _ _ R) ltac:(lia) Rs I). unfold in_range in Q. lia. }
    destruct (decide (x < a)) as [L|L]; [|destruct (decide (x < b)) as [L2|L2]].
    + split; [intros B; by destruct (res_first _ _ _ R lo hi a b ty x ltac:(lia) N Le ltac:(lia) B)|].
      intros (e & I & Q). destruct (In e I Q); lia.
    + split; [|intros _; by apply (res_busy _ _ _ R lo hi a b ty x ltac:(lia) N ltac:(lia))]. intros _.
      exists (mk_aent a b ty). split; [by left|by unfold in_range; cbn; lia].
    + rewrite IH by lia. split; intros (e & I & Q); exists e; (split; [|done]); [by right|].
      destruct (In e I Q) as [|[_ ?]]; [lia|done].
Qed.

(** ** The lowest range *)

Section lowest.
  Context `{Target} (start end_ : Z).

(** [m] is the lowest of the ranges whose bytes are [busy], or nothing. *)
Definition lowest (busy : Z -> Prop) (m : aent) : Prop :=
  m = no_entry /\ (end_ <= addr_max -> forall x, start <= x < end_ -> ~ busy x) \/
  start <= ae_start m < ae_end m /\ ae_end m <= end_ /\ ae_start m < addr_max /\ (forall x, in_range m x -> busy x) /\
  (end_ <= addr_max -> forall x, start <= x < ae_start m -> ~ busy x).

Lemma lowest_ext busy busy' m :
  (forall x, start <= x < end_ -> busy x <-> busy' x) -> lowest busy m -> lowest busy' m.
Proof.
  intros E [[-> F]|(A & B & T & C & D)].
  - left. split; [done|]. intros L x X. rewrite <- E by done. by apply F.
  - right. split; [done|]. split; [done|]. split; [done|]. split.
    + intros x X. rewrite <- E by (unfold in_range in X; lia). by apply C.
    + intros L x X. rewrite <- E by lia. by apply D.
Qed.

Lemma lowest_step busy e m :
  start < end_ -> lowest busy m -> ae_start e < ae_end e ->
  lowest (fun x => busy x \/ in_range e x) (hal_getMinOverlappedRange start end_ e m).2.
Proof.
  intros O L V. destruct e as [a b ty]. unfold hal_getMinOverlappedRange, in_range. cbn [ae_start ae_end ae_type] in *.
  destruct (Z.ltb_spec start b), (Z.ltb_spec a end_); cbn [andb fst snd];
    try (apply (lowest_ext busy); [|done]; intros x X; split; [by left|by intros [|?]; [|lia]]).
  remember (Z.max a start) as a' eqn:Ea. remember (Z.min b end_) as b' eqn:Eb.
  assert (E : (if end_ <? ae_end (if a <? start then mk_aent start b ty else mk_aent a b ty)
    then mk_aent (ae_start (if a <? start then mk_aent start b ty else mk_aent a b ty)) end_
      (ae_type (if a <? start then mk_aent start b ty else mk_aent a b ty))
    else if a <? start then mk_aent start b ty else mk_aent a b ty) = mk_aent a' b' ty).
  { destruct (Z.ltb_spec a start); cbn; destruct (Z.ltb_spec end_ b); f_equal; lia. }
  rewrite E. clear E. cbn [ae_start]. assert (A : start <= a' < b' /\ b' <= end_) by lia.
  assert (I : forall x, start <= x < end_ -> a <= x < b <-> a' <= x < b') by (intros; lia).
  destruct L as [[-> F]|(P & Q & T & C & D)].
  - cbn [ae_start no_entry]. destruct (Z.ltb_spec a' addr_max).
    + right. cbn. split; [lia|]. split; [lia|]. split; [done|]. split; [intros x X; unfold in_range in X; cbn in X; right; lia|].
      intros Le x X [B|B]; [by apply (F Le x); [lia|]|lia].
    + left. split; [done|]. intros Le. lia.
  - destruct (Z.ltb_spec a' (ae_start m)).
    + right. cbn. split; [lia|]. split; [lia|]. split; [lia|]. split; [intros x X; unfold in_range in X; cbn in X; right; lia|].
      intros Le x X [B|B]; [by apply (D Le x); [lia|]|lia].
    + right. split; [done|]. split; [done|]. split; [done|]. split; [intros x X; left; by apply C|].
      intros Le x X [B|B]; [by apply (D Le x)|lia].
Qed.

Definition in_any (es : list aent) (x : Z) : Prop := exists e, e ∈ es /\ in_range e x.

Lemma lowest_loop es busy m :
  start < end_ -> lowest busy m -> lowest (fun x => busy x \/ in_any es x) (entries_loop start end_ es m).
Proof.
  intros O. revert busy m. induction es as [|e es IH]; intros busy m L; cbn [entries_loop].
  - apply (lowest_ext busy); [|done]. intros x _. split; [by left|]. by intros [|(e & ?%elem_of_nil & _)].
  - apply (lowest_ext (fun x => (busy x \/ in_range e x) \/ in_any es x)).
    { intros x _. unfold in_any. set_solver. }
    apply IH. destruct (Z.leb_spec (ae_end e) (ae_start e)); [|by apply lowest_step].
    apply (lowest_ext busy); [|done]. intros x _. split; [by left|]. by intros [|[? ?]]; [|lia].
Qed.

Lemma lowest_none : lowest (fun _ => False) no_entry.
Proof. left. split; [done|]. tauto. Qed.

End lowest.

Lemma lowest_found `{Target} next busy :
  (forall lo hi, lo <= hi -> lowest lo hi busy no_entry /\ next lo hi = None \/ exists m, lowest lo hi busy m /\ next lo hi = found m) ->
  reserves next busy addr_max.
Proof.
  intros N.
  assert (Sm : forall lo hi a b ty, lo <= hi -> next lo hi = Some (a, b, ty) -> lo <= a /\ a < b /\ b <= hi /\
    (forall x, a <= x < b -> busy x) /\ (hi <= addr_max -> forall x, lo <= x < a -> ~ busy x)).
  { intros lo hi a b ty O E. destruct (N lo hi O) as [[_ E']|(m & L & E')]; rewrite E' in E; [done|].
    unfold found in E. destruct (Z.eqb_spec (ae_start m) addr_max); [done|]. injection E as <- <- _.
    destruct L as [[-> _]|(A & B & _ & C & D)]; [done|]. split_and!; (lia || done). }
  split.
  - intros lo hi a b ty O E. apply Sm in E; [lia|done].
  - intros lo hi a b ty x O E. by apply Sm in E as (_ & _ & _ & B & _); [apply B|].
  - intros lo hi a b ty x O E Le X. apply Sm in E as (_ & _ & _ & _ & F); [by apply F|done].
  - intros lo hi x E Le X. revert Le X. destruct (decide (lo <= hi)) as [O|]; [|lia]. destruct (N lo hi O) as [[[[_ F]|L] _]|(m & L & E')].
    + by intros; apply F.
    + cbn in L. lia.
    + rewrite E' in E. unfold found in E. destruct (Z.eqb_spec (ae_start m) addr_max) as [Em|]; [|done].
      destruct L as [[_ F]|L]; [by intros; apply F|lia].
Qed.

(** A platform with a table of sections. *)
Lemma next_entry_reserves `{Target} `{SyspageTypes} es hs limit :
  hs < limit -> reserves (next_entry es hs limit) (fun x => hs <= x < limit \/ in_any es x) addr_max.
Proof.
  intros V. apply lowest_found. intros lo hi O. unfold next_entry. destruct (Z.eqb_spec lo hi) as [->|N].
  { left. split; [|done]. left. split; [done|]. lia. }
  right. eexists. split; [|reflexivity]. apply lowest_loop; [lia|].
  apply (lowest_ext lo hi (fun x => False \/ in_range (mk_aent hs limit hal_entryReserved) x)); [intros x _; unfold in_range; cbn; tauto|].
  apply lowest_step; [lia|apply lowest_none|done].
Qed.

(** ** The map of the BIOS *)

Section e820.
  Context `{Target} `{SyspageTypes} (b : bios).

(** The ranges the BIOS answers from the offset [offs] on: address, length, type. *)
Fixpoint bios_lists (offs : Z) (rs : list (Z * Z * Z)) : Prop :=
  match rs with
  | [] => False
  | (addr, len, ty) :: rs =>
      exists next, b offs = Some (addr, len, ty, next) /\
        (if bool_decide (rs = []) then next = 0 else next <> 0 /\ bios_lists next rs)
  end.

(** The ranges lie below 4 GB and follow each other, behind [prev]. *)
Fixpoint ranges_follow (prev : Z) (rs : list (Z * Z * Z)) : Prop :=
  match rs with
  | [] => True
  | (addr, len, _) :: rs =>
      0 <= prev <= addr /\ 0 < len /\ addr + len < 2 ^ 32 /\ ranges_follow (addr + len) rs
  end.

(** Not free: a gap before a range, or a range of another type than free memory. *)
Fixpoint e820_busy (prev : Z) (rs : list (Z * Z * Z)) (x : Z) : Prop :=
  match rs with
  | [] => False
  | (addr, len, ty) :: rs =>
      prev <= x < addr \/ (ty <> 1 /\ addr <= x < addr + len) \/ e820_busy (addr + len) rs x
  end.

(** Clipping a range in place does not matter: [prev'], the end the code goes on
    with, differs from [prev] only behind the end of the query. *)
Lemma e820_loop_spec start end_ fuel offs prev prev' rs busy m :
  start < end_ -> bios_lists offs rs -> ranges_follow prev rs -> (length rs <= fuel)%nat ->
  prev' = prev \/ prev' = end_ /\ end_ <= prev -> lowest start end_ busy m ->
  exists m', e820_loop fuel b start end_ offs prev' m = Some (Some m') /\
    lowest start end_ (fun x => busy x \/ e820_busy prev rs x) m'.
Proof.
  intros O. revert offs prev prev' busy m fuel. induction rs as [|[[addr len] ty] rs IH];
    intros offs prev prev' busy m fuel B F K P L; [done|].
  destruct fuel as [|fuel]; [cbn in K; lia|]. destruct B as (next & Eb & Bn). destruct F as (F1 & F2 & F3 & Fn).
  cbn [e820_loop]. unfold hal_memoryGetEntry. rewrite Eb. cbn [mbind option_bind].
  assert (W : w64 (addr + len) = addr + len) by (unfold w64; apply Z.mod_small; lia). rewrite W.
  destruct (Z.leb_spec (addr + len) 0xffffffff); [|lia]. rewrite !w32_small by lia.
  set (e := mk_aent addr (addr + len) hal_entryReserved).
  (* the range *)
  assert (R : exists a' p' m1,
    (if negb (ty =? 1) then hal_getMinOverlappedRange start end_ e m else (e, m)) = (mk_aent a' p' hal_entryReserved, m1) /\
    lowest start end_ (fun x => busy x \/ ty <> 1 /\ addr <= x < addr + len) m1 /\
    (a' = addr \/ a' = start /\ addr <= start) /\ (p' = addr + len \/ p' = end_ /\ end_ <= addr + len) /\
    (end_ <= addr -> a' = addr)).
  { destruct (Z.eqb_spec ty 1) as [->|N]; cbn [negb].
    - exists addr, (addr + len), m. split; [done|]. split; [|lia]. apply (lowest_ext _ _ busy); [|done]. intros; tauto.
    - exists (ae_start (hal_getMinOverlappedRange start end_ e m).1), (ae_end (hal_getMinOverlappedRange start end_ e m).1),
        (hal_getMinOverlappedRange start end_ e m).2.
      split; [|split].
      + unfold hal_getMinOverlappedRange, e. destruct (_ && _); [|done]. cbn.
        by destruct (addr <? start); cbn; destruct (end_ <? addr + len).
      + apply (lowest_ext _ _ (fun x => busy x \/ in_range e x)); [intros x _; unfold in_range; cbn; tauto|].
        apply lowest_step; [done|done|cbn; lia].
      + unfold hal_getMinOverlappedRange, e. cbn [ae_start ae_end ae_type].
        destruct (Z.ltb_spec start (addr + len)), (Z.ltb_spec addr end_); cbn [andb fst ae_start ae_end]; try lia.
        destruct (Z.ltb_spec addr start); cbn [ae_start ae_end ae_type];
          (destruct (Z.ltb_spec end_ (addr + len)); cbn [ae_start ae_end]; lia). }
  destruct R as (a' & p' & m1 & -> & L1 & Ha & Hp & Hi). cbn [ae_start ae_end].
  (* the gap *)
  set (m2 := if negb (prev' =? a') then _ else m1).
  assert (L2 : lowest start end_ (fun x => (busy x \/ ty <> 1 /\ addr <= x < addr + len) \/ prev <= x < addr) m2).
  { unfold m2. destruct (Z.eqb_spec prev' a') as [Eg|Ng]; cbn [negb].
    - apply (lowest_ext _ _ _ _ _) with (2 := L1). intros x X. split; [by left|]. intros [|Q]; [done|]. exfalso. lia.
    - apply (lowest_ext _ _ (fun x => (busy x \/ ty <> 1 /\ addr <= x < addr + len) \/
        in_range (mk_aent prev' a' hal_entryInvalid) x)).
      { intros x X. unfold in_range. cbn. split; (intros [Q|Q]; [by left|right; lia]). }
      apply lowest_step; [done|done|cbn; lia]. }
  (* the rest *)
  destruct (bool_decide_reflect (rs = [])) as [->|Nr].
  - subst next. cbn [Z.eqb]. exists m2. split; [done|]. apply (lowest_ext _ _ _ _ _) with (2 := L2). cbn. intros; tauto.
  - destruct Bn as [Nz Bn]. destruct (Z.eqb_spec next 0); [done|].
    destruct (IH next (addr + len) p' _ m2 fuel Bn Fn ltac:(cbn in K; lia) Hp L2) as (m' & E & L3).
    exists m'. split; [done|]. apply (lowest_ext _ _ _ _ _) with (2 := L3). cbn. intros; tauto.
Qed.

(** The platform with a BIOS. *)
Lemma ia32_reserves fuel l hs rs :
  hs < i_heap_limit l -> bios_lists 0 rs -> ranges_follow 0 rs -> (length rs <= fuel)%nat ->
  reserves (fun lo hi => ia32_memoryGetNextEntry fuel l b hs lo hi ≫= id)
    (fun x => (hs <= x < i_heap_limit l \/ in_any (ia32_entries l) x) \/ e820_busy 0 rs x) addr_max.
Proof.
  intros V B F K. apply lowest_found. intros lo hi O. unfold ia32_memoryGetNextEntry.
  destruct (Z.eqb_spec lo hi) as [->|N]. { left. split; [|done]. left. split; [done|]. lia. }
  right. assert (L : lowest lo hi (fun x => hs <= x < i_heap_limit l \/ in_any (ia32_entries l) x)
    (entries_loop lo hi (ia32_entries l)
      (hal_getMinOverlappedRange lo hi (mk_aent hs (i_heap_limit l) hal_entryTemp) no_entry).2)).
  { apply lowest_loop; [lia|].
    apply (lowest_ext lo hi (fun x => False \/ in_range (mk_aent hs (i_heap_limit l) hal_entryTemp) x));
      [intros x _; unfold in_range; cbn; tauto|].
    apply lowest_step; [lia|apply lowest_none|done]. }
  destruct (e820_loop_spec lo hi fuel 0 0 0 rs _ _ ltac:(lia) B F K ltac:(by left) L) as (m' & -> & L').
  exists m'. by split.
Qed.

End e820.

(** ** The maps of a platform *)

(** The platform keeps its promise in every state [plat_hw] that adding maps
    reaches. *)
Class Platform (P : SyspageHal) `{Target} (busy : Z -> Prop) := {
  plat_hw : hw -> Prop;
  plat_reserves : forall h, plat_hw h -> reserves (hal_memoryGetNextEntry h) busy addr_max;
  plat_addMap : forall h start end_ attr id, plat_hw h -> plat_hw (hal_memoryAddMap h start end_ attr id).2
}.

Definition sections_busy (es : list aent) (hs limit x : Z) : Prop :=
  hs <= x < limit \/ in_any es x.

#[export] Instance imxrt_platform `{Target} `{SyspageTypes} (l : sections) (hs : Z) (V : hs < heap_limit l) :
  Platform (imxrt_hal l) (sections_busy (imxrt_entries l) hs (heap_limit l)).
Proof.
  refine (Build_Platform (imxrt_hal l) _ _ (fun h : Z * option mpu_common => h.1 = hs) _ _).
  - intros [h m] E. cbn in E. subst h. by apply next_entry_reserves.
  - intros [h m] start end_ attr id E. cbn in *. by destruct (m ≫= _) as [[res m']|].
Defined.

#[export] Instance ia32_platform `{Target} `{SyspageTypes} (fuel : nat) (l : ia32_sections) (b : bios) (hs : Z) rs
  (V : hs < i_heap_limit l) (B : bios_lists b 0 rs) (F : ranges_follow 0 rs) (K : (length rs <= fuel)%nat) :
  Platform (ia32_hal fuel l b) (fun x => sections_busy (ia32_entries l) hs (i_heap_limit l) x \/ e820_busy 0 rs x).
Proof.
  refine (Build_Platform (ia32_hal fuel l b) _ _ (fun h : Z => h = hs) _ _).
  - intros h ->. by apply (ia32_reserves b fuel l hs rs V B F K).
  - by intros h start end_ attr id ->.
Defined.

Section covers.
  Context `{Target} `{SyspageTypes} (P : SyspageHal) (busy : Z -> Prop) `{!Platform P busy}.


(** Memory allocated in such a map is not in use. *)
Lemma entryAdd_spares s ms i am k sz r s' :
  0 <= k < 32 -> sys_at s ms -> Forall (fun am => cstr_ok (a_name am)) ms -> ms !! i = Some am ->
  name_at ms i (a_name am) -> 0 < sz -> fit_ok k (a_start am) (a_end am) (a_ents am) ->
  (a_ents am = [] -> round_up (2 ^ k) (a_start am) + sz <= a_end am) ->
  (forall x, a_start am <= x < a_end am -> busy x -> in_any (a_ents am) x) ->
  syspage_entryAdd (Some (a_name am)) addr_max sz (2 ^ k) s = Some (r, s') -> r <> NULL ->
  exists st, view <$> s_entt s' !! r = Some (mk_aent st (st + sz) hal_entryAllocated) /\
    forall x, st <= x < st + sz -> ~ busy x.
Proof.
  intros K S Fn E N Sz F Ne G Er Nz.
  destruct (syspage_entryAdd_in_map s ms i am k sz K S Fn E N Sz F Ne) as (r1 & s1 & E1 & D).
  rewrite Er in E1. injection E1 as <- <-. destruct D as [[? _]|(st & ps & _ & V & _ & Lo & Hi & Ap & _)]; [done|].
  exists st. split; [done|]. intros x X B. destruct (G x ltac:(lia) B) as (e & I & Q).
  rewrite Forall_forall in Ap. apply (Ap e I). unfold in_range in Q. lia.
Qed.

End covers.

(** ** Examples *)

Definition sample_sections : sections :=
  {| init_start := 0; init_end := 0; text_start := 0x60000000; etext := 0x60008000; rodata_start := 0x60008000;
     rodata_end := 0x60009000; cmd_start := 0; cmd_end := 0; init_array_start := 0x20800; init_array_end := 0x20900;
     fini_array_start := 0; fini_array_end := 0; ramtext_start := 0x1000; ramtext_end := 0x2000;
     data_start := 0x20000; data_end := 0x20800; bss_start := 0x20900; bss_end := 0x22000;
     heap_base := 0x22000; heap_limit := 0x24000; stack_limit := 0x24000; stack_top := 0x25000 |}.

Definition sample_imxrt : SyspageHal := imxrt_hal (H := target32) (H0 := sample_types) sample_sections.


(** The map of a PC: the loader in low memory, 64 MB of memory, and a range of the
    BIOS in the middle; the gap below 1 MB is not free either. *)
Definition sample_ia32 : ia32_sections :=
  {| i_start := 0x7c00; i_end := 0x20000; i_ramtext_start := 0; i_ramtext_end := 0; i_data_start := 0x20000;
     i_data_end := 0x21000; i_bss_start := 0x21000; i_bss_end := 0x30000; i_heap_base := 0x30000;
     i_heap_limit := 0x40000; i_stack_limit := 0x5000; i_stack_top := 0x6000 |}.

Definition sample_e820 : list (Z * Z * Z) :=
  [(0, 0x9fc00, 1); (0x9fc00, 0x400, 2); (0x100000, 0x3f00000, 1); (0x2000000 * 2, 0x10000, 2)].

Definition sample_bios : bios := fun offs =>
  '(a, n, t) ← sample_e820 !! Z.to_nat offs; Some (a, n, t, if offs =? 3 then 0 else offs + 1).

Section pc.
  Context `{Target} `{SyspageTypes}.

(** On a PC the answers are, from the lowest on, exactly the memory in use: the
    sections and the system page, the ranges the BIOS does not call free and the
    gaps of its map, although the ranges are clipped in place while the gaps are
    taken from them.  The ranges of the BIOS lie below 4 GB, in order. *)
Lemma ia32_memory_reserves b fuel l hs rs :
  hs < i_heap_limit l -> bios_lists b 0 rs -> ranges_follow 0 rs -> (length rs <= fuel)%nat ->
  reserves (fun lo hi => ia32_memoryGetNextEntry fuel l b hs lo hi ≫= id)
    (fun x => sections_busy (ia32_entries l) hs (i_heap_limit l) x \/ e820_busy 0 rs x) addr_max.
Proof. apply ia32_reserves. Qed.
End pc.

Definition ia32_next (lo hi : Z) : option (Z * Z * Z) :=
  ia32_memoryGetNextEntry (H := target32) (H0 := sample_types) 4 sample_ia32 sample_bios 0x30000 lo hi ≫= id.

Lemma ia32_memory_reserves_witness :
  reserves ia32_next (fun x => sections_busy (ia32_entries (H0 := sample_types) sample_ia32) 0x30000 0x40000 x \/
    e820_busy 0 sample_e820 x) (addr_max (H := target32)) /\
  ia32_next 0x80000 0x200000 = Some (0x9fc00, 0xa0000, 0) /\ ia32_next 0xa0000 0x200000 = Some (0xa0000, 0x100000, 3).
Proof.
  split; [|by vm_compute].
  refine (ia32_memory_reserves (H := target32) (H0 := sample_types) sample_bios 4 sample_ia32 0x30000 sample_e820 _ _ _ _).
  - by vm_compute.
  - repeat (eexists; split; [reflexivity|cbn; split; [done|]]). eexists. split; reflexivity.
  - by vm_compute.
  - cbn. lia.
Defined.

(** A range the BIOS reserves above 4 GB is cut to 32 bits: it covers all of the
    memory. *)
Lemma e820_above_4g :
  ia32_memoryGetNextEntry (H := target32) (H0 := sample_types) 4 sample_ia32
    (fun _ => Some (0xfd00000000, 0x300000000, 2, 0)) 0x30000 0x1000000 0x2000000 = Some (Some (0x1000000, 0x2000000, 0)).
Proof. by vm_compute. Qed.

(** When the BIOS reports the end of its map with the carry flag, nothing is in use. *)
Lemma e820_carry :
  ia32_memoryGetNextEntry (H := target32) (H0 := sample_types) 4 sample_ia32
    (fun offs => if offs =? 0 then Some (0, 0x9fc00, 1, 1) else None) 0x30000 0 0x80000 = Some None.
Proof. by vm_compute. Qed.

(** The entry of the bitstream ends at its size, before it starts: it is skipped. *)
Lemma bitstream_not_reserved :
  zynq7000_memoryGetNextEntry (H := target32) (H0 := sample_types) sample_sections
    {| ddr_start := 0x100000; ddr_end := 0x200000; uncached_ddr_start := 0x200000; uncached_ddr_end := 0x300000 |}
    0x22000 ADDR_BITSTREAM (ADDR_BITSTREAM + SIZE_BITSTREAM) = None.
Proof. by vm_compute. Qed.

(** An entry within the rounding behind the one before it: the gap between them
    wraps, and when nothing else fits the allocation lies over the next section. *)
Lemma alloc_over_section :
  (r ← syspage_mapAdd (H := target32) (H0 := sample_types) (H1 := sample_imxrt) (str "ocram") 0x20000 0x30000
     (str "rwx") (0x22000, None) sample_init;
   let '(_, _, s) := r in
   '(e, s) ← syspage_entryAdd (H := target32) (H0 := sample_types) (Some (str "ocram")) (addr_max (H := target32)) 0xc000 0x1000 s;
   view <$> s_entt s !! e) = Some (mk_aent 0x21000 0x2d000 1) /\
  in_any (imxrt_entries (H0 := sample_types) sample_sections) 0x21000.
Proof.
  split; [by vm_compute|]. exists (temp (H0 := sample_types) 0x20900 0x22000). split; [|by unfold in_range; cbn].
  do 8 right. by left.
Qed.
