(* ===== verification/Mmu.v ===== *)
(** * Address translation of the ARM application processors
      (src/hal/armv7a/mmu.c, src/hal/aarch64/mmu.c and the [hal_memoryInit] of the
      platforms with an MMU)

    The translation tables are state; what the processor does with them is the
    function [walk], written from the architecture manuals.  [Translation] is what
    both implementations give the platforms: [mmu_mapAddr] changes the translation
    of one region.  The platforms are programs over it.  Barriers, the TLB and the
    enabling of the unit are not modelled. *)

From S2P Require Import Prelude.

(** ** The interface *)

(** The bits [lo .. lo + n) of a word. *)
Definition field (x lo n : Z) : Z := x / 2 ^ lo mod 2 ^ n.

(** [R] are tables, [A] the attributes of a translation; a region has [2 ^ bits]
    bytes. *)
Class Translation (R A : Type) (bits : Z) (mapAddr : Z -> Z -> Z -> R -> R) (walk : R -> Z -> option (Z * A))
    (attrs : Z -> A) := {
  tr_ok : R -> Prop;
  tr_bits : 0 < bits < 32;
  tr_map_ok : forall r paddr vaddr flags,
    tr_ok r -> 0 <= paddr < 2 ^ 32 -> 0 <= vaddr < 2 ^ 32 -> tr_ok (mapAddr paddr vaddr flags r);
  tr_walk : forall r paddr vaddr flags va,
    tr_ok r -> 0 <= paddr < 2 ^ 32 -> 0 <= vaddr < 2 ^ 32 -> 0 <= va < 2 ^ 32 ->
    walk (mapAddr paddr vaddr flags r) va =
      if va / 2 ^ bits =? vaddr / 2 ^ bits then Some (paddr / 2 ^ bits * 2 ^ bits + va mod 2 ^ bits, attrs flags)
      else walk r va
}.

(** ** The loops of the platforms: [for (sz = 0; sz < size; sz += region)]

    [k] iterations from [sz] on; [skip] is the condition of a [continue]. *)
Fixpoint map_loop {R} (mapAddr : Z -> Z -> Z -> R -> R) (region : Z) (skip : Z -> bool) (start flags : Z) (sz : Z) (k : nat)
    (r : R) : R :=
  match k with
  | O => r
  | S k =>
      let addr := start + sz in
      map_loop mapAddr region skip start flags (sz + region) k (if skip addr then r else mapAddr addr addr flags r)
  end.

(** The number of iterations. *)
Definition regions (size region : Z) : nat := Z.to_nat ((size + (region - 1)) / region).

Definition no_skip (addr : Z) : bool := false.

Definition map_range {R} (mapAddr : Z -> Z -> Z -> R -> R) (region start size flags : Z) (r : R) : R :=
  map_loop mapAddr region no_skip start flags 0 (regions size region) r.

Section platform.
  Context {R A : Type} {bits : Z} {mapAddr : Z -> Z -> Z -> R -> R} {walk : R -> Z -> option (Z * A)} {attrs : Z -> A}.
  Context `{!Translation R A bits mapAddr walk attrs}.

Abbreviation region := (2 ^ bits).

Lemma region_pos : 0 < region.
Proof. pose proof tr_bits. apply Z.pow_pos_nonneg; lia. Qed.

Lemma region_eq va : va / region * region + va mod region = va.
Proof. pose proof region_pos. pose proof (Z.div_mod va region ltac:(lia)). lia. Qed.

(** A loop maps the regions it visits to themselves and leaves the others. *)
Lemma map_loop_spec skip start flags k sz r va :
  tr_ok r -> 0 <= start + sz -> start + sz + Z.of_nat k * region <= 2 ^ 32 + (start + sz) mod region ->
  (forall a, skip a = skip (a / region * region)) -> 0 <= va < 2 ^ 32 ->
  tr_ok (map_loop mapAddr region skip start flags sz k r) /\
  walk (map_loop mapAddr region skip start flags sz k r) va =
    let i := va / region - (start + sz) / region in
    if (0 <=? i) && (i <? Z.of_nat k) && negb (skip va) then Some (va, attrs flags) else walk r va.
Proof.
  pose proof region_pos as P. intros O L T Sk V. revert sz r O L T. induction k as [|k IH]; intros sz r O L T; cbn [map_loop].
  { split; [done|]. cbn zeta. destruct (Z.leb_spec 0 (va / region - (start + sz) / region)),
      (Z.ltb_spec (va / region - (start + sz) / region) (Z.of_nat 0)); done || lia. }
  cbn zeta. set (addr := start + sz) in *.
  pose proof (Z.mod_pos_bound addr region P) as Mb. pose proof (region_eq addr) as Ra.
  assert (A1 : (start + (sz + region)) / region = addr / region + 1).
  { replace (start + (sz + region)) with (addr + 1 * region) by lia. by rewrite Z.div_add by lia. }
  assert (A2 : (start + (sz + region)) mod region = addr mod region).
  { replace (start + (sz + region)) with (addr + 1 * region) by lia. by rewrite Z.mod_add by lia. }
  assert (Ar : 0 <= addr < 2 ^ 32) by nia.
  destruct (IH (sz + region) (if skip addr then r else mapAddr addr addr flags r)) as [O' W].
  { destruct (skip addr); [done|by apply tr_map_ok]. }
  { lia. }
  { rewrite A2. lia. }
  split; [done|]. rewrite W, A1. set (i := va / region - addr / region).
  replace (va / region - (addr / region + 1)) with (i - 1) by lia.
  assert (Same : i = 0 -> skip addr = skip va).
  { intros I. rewrite (Sk addr), (Sk va). do 2 f_equal. lia. }
  assert (Wr : walk (if skip addr then r else mapAddr addr addr flags r) va =
    if (i =? 0) && negb (skip va) then Some (va, attrs flags) else walk r va).
  { destruct (Z.eqb_spec i 0) as [I|I].
    - rewrite <- Same by done. destruct (skip addr); [done|]. rewrite tr_walk by done.
      destruct (Z.eqb_spec (va / region) (addr / region)) as [E|]; [|lia]. rewrite <- E, region_eq. done.
    - destruct (skip addr); [done|]. rewrite tr_walk by done.
      by destruct (Z.eqb_spec (va / region) (addr / region)); [lia|]. }
  rewrite Wr. destruct (skip va); cbn [negb]; rewrite ?andb_false_r, ?andb_true_r; [done|].
  destruct (Z.leb_spec 0 (i - 1)), (Z.ltb_spec (i - 1) (Z.of_nat k)), (Z.leb_spec 0 i),
    (Z.ltb_spec i (Z.of_nat (S k))), (Z.eqb_spec i 0); cbn [andb]; done || lia.
Qed.

(** The regions a range meets, from the one it starts in on. *)
Lemma map_range_spec start size flags r va :
  let base := start / region * region in
  let n := Z.of_nat (regions size region) * region in
  tr_ok r -> 0 <= start -> base + n <= 2 ^ 32 -> 0 <= va < 2 ^ 32 ->
  tr_ok (map_range mapAddr region start size flags r) /\
  walk (map_range mapAddr region start size flags r) va =
    if (base <=? va) && (va <? base + n) then Some (va, attrs flags) else walk r va.
Proof.
  pose proof region_pos as P. intros base n O L T V.
  destruct (map_loop_spec no_skip start flags (regions size region) 0 r va) as [O' W]; [done|lia| |done|done|].
  { rewrite Z.add_0_r. pose proof (region_eq start). fold n. unfold base in T. lia. }
  split; [done|]. unfold map_range. rewrite W. cbn zeta. rewrite Z.add_0_r. cbn [negb no_skip].
  rewrite andb_true_r. pose proof (Z.mod_pos_bound va region P). pose proof (region_eq va). unfold base, n in *.
  destruct (Z.leb_spec 0 (va / region - start / region)),
    (Z.ltb_spec (va / region - start / region) (Z.of_nat (regions size region))),
    (Z.leb_spec (start / region * region) va),
    (Z.ltb_spec va (start / region * region + Z.of_nat (regions size region) * region)); cbn [andb]; try done; nia.
Qed.

(** Ranges one after the other: the last one that meets the region of an address
    decides. *)
Definition in_map_range (start size va : Z) : bool :=
  (start / region * region <=? va) && (va <? start / region * region + Z.of_nat (regions size region) * region).

Definition map_ranges (rs : list (Z * Z * Z)) (r : R) : R :=
  foldl (fun r '(start, size, flags) => map_range mapAddr region start size flags r) r rs.

Definition range_view (va : Z) (rs : list (Z * Z * Z)) (dflt : option (Z * A)) : option (Z * A) :=
  foldl (fun x '(start, size, flags) => if in_map_range start size va then Some (va, attrs flags) else x) dflt rs.

Lemma map_ranges_spec rs r va :
  tr_ok r -> 0 <= va < 2 ^ 32 ->
  Forall (fun '(start, size, _) =>
    0 <= start /\ start / region * region + Z.of_nat (regions size region) * region <= 2 ^ 32) rs ->
  walk (map_ranges rs r) va = range_view va rs (walk r va).
Proof.
  intros T V F. revert r T. induction F as [|[[start size] flags] rs [B1 B2] F IH]; intros r T; [done|].
  destruct (map_range_spec start size flags r va T B1 B2 V) as [T' W].
  unfold map_ranges, range_view in *. cbn [foldl]. rewrite (IH _ T'), W. done.
Qed.

End platform.

(** Computes the bounds of the ranges of a platform. *)
Ltac eval_ranges va :=
  unfold in_map_range;
  repeat match goal with
  | |- context [Z.leb ?a va] => let v := eval vm_compute in a in progress change (Z.leb a va) with (Z.leb v va)
  | |- context [Z.ltb va ?a] => let v := eval vm_compute in a in progress change (Z.ltb va a) with (Z.ltb va v)
  end.

(** Both sides are the same choice by comparisons of [va] with numbers. *)
Ltac compare_ranges va :=
  eval_ranges va;
  repeat match goal with
  | |- context [Z.leb ?a va] => destruct (Z.leb_spec a va)
  | |- context [Z.ltb va ?a] => destruct (Z.ltb_spec va a)
  end; cbn [andb orb]; first [reflexivity | lia].
