(* ===== verification/Mmu64.v ===== *)
(** * AArch64: two levels of tables (src/hal/aarch64/mmu.c, and [hal_memoryInit] of
      src/hal/aarch64/generic/hal.c and src/hal/aarch64/zynqmp/hal.c)

    The second level describes blocks of 2 MB.  [mmu_currentEL] and the register of
    the processor's features are parameters, as are the addresses of the tables. *)

From S2P Require Import Prelude Mem Mmu.

Definition SIZE_MMU_SECTION_REGION := 2 ^ 21.

Definition MMU_FLAG_CACHED := 0x0.
Definition MMU_FLAG_UNCACHED := 0x1.
Definition MMU_FLAG_XN := 0x2.
Definition MMU_FLAG_DEVICE := 0x4.

Definition DESCR_VALID := 1.
Definition DESCR_TABLE := 2.
Definition DESCR_ATTR (x : Z) : Z := Z.shiftl (Z.land x 0x7) 2.
Definition DESCR_ISH := 0x300.
Definition DESCR_AF := 0x400.
Definition DESCR_PXN := Z.shiftl 1 53.

Definition MAIR_ATTR (idx val : Z) : Z := Z.shiftl val (idx * 8).
Definition MAIR_DEVICE (type : Z) : Z := Z.shiftl (Z.land type 0x3) 2.
Definition MAIR_NORMAL (inner outer : Z) : Z := Z.lor (Z.land inner 0xf) (Z.shiftl (Z.land outer 0xf) 4).
Definition MAIR_DEV_nGnRnE := 0x0.
Definition MAIR_DEV_nGnRE := 0x1.
Definition MAIR_NOR_NC := 0x4.
Definition MAIR_NOR_C_WB_NT_RA_WA := 0xf.

Definition MAIR_IDX_CACHED := 0.
Definition MAIR_IDX_NONCACHED := 1.
Definition MAIR_IDX_DEVICE := 2.
Definition MAIR_IDX_S_ORDERED := 3.

(** The memory of the Raspberry Pi 4 (ld/aarch64a72-generic.ldt) and of the ZynqMP
    (ld/aarch64a53-zynqmp.ldt) *)
Definition rpi4_ADDR_DDR := 0x00000000.
Definition rpi4_SIZE_DDR := 0xfc000000.
Definition rpi4_ADDR_GPU_RSV := 0x3b400000.
Definition rpi4_SIZE_GPU_RSV := 0x04c00000.

Definition zynqmp_ADDR_OCRAM := 0xfffc0000.
Definition zynqmp_SIZE_OCRAM := 256 * 1024.
Definition zynqmp_ADDR_DDR := 0x00000000.
Definition zynqmp_SIZE_DDR := 512 * 1024 * 1024.
Definition zynqmp_SIZE_BITSTREAM := 36 * 1024 * 1024.
Definition zynqmp_ADDR_BITSTREAM := zynqmp_ADDR_DDR + zynqmp_SIZE_DDR - zynqmp_SIZE_BITSTREAM.
Definition zynqmp_SIZE_DDR_PLO := 4 * 1024 * 1024.
Definition zynqmp_ADDR_BUFF_DDR := zynqmp_ADDR_DDR + zynqmp_SIZE_DDR - zynqmp_SIZE_DDR_PLO - zynqmp_SIZE_BITSTREAM.
Definition zynqmp_SIZE_BUFF_DDR := 2 * 1024 * 1024.
Definition zynqmp_ADDR_UNCACHED_BUFF_DDR := zynqmp_ADDR_BUFF_DDR + zynqmp_SIZE_BUFF_DDR.
Definition zynqmp_SIZE_UNCACHED_BUFF_DDR := 2 * 1024 * 1024.

(** The tables and the registers of the current exception level. *)
Record mmu := mk_mmu {
  ttl1 : list Z;
  ttl2 : list (list Z);
  r_ttbr0 : Z;
  r_tcr : Z;
  r_mair : Z
}.

(** Static storage. *)
Definition mmu_static : mmu := mk_mmu (replicate 4 0) (replicate 4 (replicate 512 0)) 0 0 0.

Section mmu.
  Context (ttl1_addr ttl2_addr : Z) (el id_aa64mmfr0 : Z).

(** [mmu_setTranslationRegs]; the size of the addresses lies elsewhere at EL2. *)
Definition mmu_setTranslationRegs (ttbr0 tcr mair : Z) (m : mmu) : mmu :=
  mk_mmu (ttl1 m) (ttl2 m) ttbr0
    (if el =? 2 then Z.lor (Z.land tcr (Z.lnot (Z.shiftl 0x7 32))) (Z.shiftl (Z.land (Z.shiftr tcr 32) 0x7) 16) else tcr)
    mair.

Definition set_block (idx1 idx2 descriptor : Z) (m : mmu) : mmu :=
  mk_mmu (ttl1 m) (alter (<[Z.to_nat idx2 := descriptor]>) (Z.to_nat idx1) (ttl2 m)) (r_ttbr0 m) (r_tcr m) (r_mair m).

Definition region_base (addr : Z) : Z := Z.land addr (Z.lnot (SIZE_MMU_SECTION_REGION - 1)).

Definition mmu_mapAddr (paddr vaddr flags : Z) (m : mmu) : mmu :=
  let idx1 := Z.land (Z.shiftr vaddr 30) (Z.shiftl 1 2 - 1) in
  let idx2 := Z.land (Z.shiftr vaddr 21) (Z.shiftl 1 9 - 1) in
  let descriptor := Z.lor (Z.lor (Z.lor (region_base paddr) DESCR_ISH) DESCR_AF) DESCR_VALID in
  let descriptor := if negb (Z.land flags MMU_FLAG_XN =? 0) then Z.lor descriptor DESCR_PXN else descriptor in
  let descriptor :=
    if negb (Z.land flags MMU_FLAG_DEVICE =? 0) then Z.lor descriptor (DESCR_ATTR MAIR_IDX_DEVICE)
    else if negb (Z.land flags MMU_FLAG_UNCACHED =? 0) then Z.lor descriptor (DESCR_ATTR MAIR_IDX_NONCACHED)
    else Z.lor descriptor (DESCR_ATTR MAIR_IDX_CACHED) in
  set_block idx1 idx2 descriptor m.

(** The loop over all of the memory in [mmu_init]. *)
Fixpoint init_loop (k : nat) (addr : Z) (m : mmu) : mmu :=
  match k with
  | O => m
  | S k =>
      let idx1 := Z.land (Z.shiftr addr 30) (Z.shiftl 1 2 - 1) in
      let idx2 := Z.land (Z.shiftr addr 21) (Z.shiftl 1 9 - 1) in
      let descriptor := Z.lor (Z.lor (Z.lor (Z.lor (Z.lor (region_base addr) DESCR_PXN) (DESCR_ATTR MAIR_IDX_DEVICE))
        DESCR_ISH) DESCR_AF) DESCR_VALID in
      init_loop k (addr + SIZE_MMU_SECTION_REGION) (set_block idx1 idx2 descriptor m)
  end.

Definition mmu_init (m : mmu) : mmu :=
  let m := mk_mmu ((fun i => Z.lor (Z.lor (ttl2_addr + 4096 * Z.of_nat i) DESCR_VALID) DESCR_TABLE) <$> seq 0 4)
    (ttl2 m) (r_ttbr0 m) (r_tcr m) (r_mair m) in
  let m := init_loop 2048 0 m in
  let tcr := Z.shiftl (Z.land id_aa64mmfr0 0x7) 32 in
  let tcr := Z.lor tcr (Z.lor (Z.lor (Z.lor (Z.lor (Z.lor (Z.lor (Z.shiftl 1 23) 0) (Z.shiftl 3 12)) (Z.shiftl 1 10))
    (Z.shiftl 1 8)) 0) 32) in
  let mair := Z.lor (Z.lor (Z.lor
    (MAIR_ATTR MAIR_IDX_CACHED (MAIR_NORMAL MAIR_NOR_C_WB_NT_RA_WA MAIR_NOR_C_WB_NT_RA_WA))
    (MAIR_ATTR MAIR_IDX_NONCACHED (MAIR_NORMAL MAIR_NOR_NC MAIR_NOR_NC)))
    (MAIR_ATTR MAIR_IDX_DEVICE (MAIR_DEVICE MAIR_DEV_nGnRE)))
    (MAIR_ATTR MAIR_IDX_S_ORDERED (MAIR_DEVICE MAIR_DEV_nGnRnE)) in
  mmu_setTranslationRegs ttl1_addr tcr mair m.

(** ** The platforms *)

(** src/hal/aarch64/generic/hal.c *)
Definition gpu_reserved (addr : Z) : bool := (rpi4_ADDR_GPU_RSV <=? addr) && (addr <? rpi4_ADDR_GPU_RSV + rpi4_SIZE_GPU_RSV).

Definition rpi4_memoryInit (m : mmu) : mmu :=
  map_loop mmu_mapAddr SIZE_MMU_SECTION_REGION gpu_reserved rpi4_ADDR_DDR MMU_FLAG_CACHED 0
    (regions rpi4_SIZE_DDR SIZE_MMU_SECTION_REGION) (mmu_init m).

(** src/hal/aarch64/zynqmp/hal.c *)
Definition zynqmp_memoryInit (m : mmu) : mmu :=
  let map_range := map_range mmu_mapAddr SIZE_MMU_SECTION_REGION in
  let m := mmu_init m in
  let m := map_range zynqmp_ADDR_OCRAM zynqmp_SIZE_OCRAM MMU_FLAG_CACHED m in
  let m := map_range zynqmp_ADDR_DDR zynqmp_SIZE_DDR MMU_FLAG_CACHED m in
  let m := map_range zynqmp_ADDR_BITSTREAM zynqmp_SIZE_BITSTREAM (Z.lor MMU_FLAG_UNCACHED MMU_FLAG_XN) m in
  map_range zynqmp_ADDR_UNCACHED_BUFF_DDR zynqmp_SIZE_UNCACHED_BUFF_DDR (Z.lor MMU_FLAG_UNCACHED MMU_FLAG_XN) m.

(** ** The processor

    The walk of a stage 1 translation with 4 KB pages: a table of the first level
    found at TTBR0, its entry a table of the second level, whose entry is a block.
    [None] is a fault.  The bit that forbids execution is bit 53 at EL1; at EL2 and
    EL3, which have one privilege level, it is bit 54. *)

Record attributes := mk_attr { mem_attr : Z; shareable : Z; execute_never : bool }.

Definition table2 (m : mmu) (addr : Z) : option (list Z) :=
  if ttl2_addr <=? addr then ttl2 m !! Z.to_nat ((addr - ttl2_addr) / 4096) else None.

Definition walk (m : mmu) (va : Z) : option (Z * attributes) :=
  if negb (field (r_tcr m) 0 6 =? 32) || (2 ^ 32 <=? va) || negb (r_ttbr0 m =? ttl1_addr) then None
  else
    d1 ← ttl1 m !! Z.to_nat (field va 30 2);
    if negb (field d1 0 2 =? 3) then None
    else
      t ← table2 m (field d1 12 36 * 4096);
      d2 ← t !! Z.to_nat (field va 21 9);
      if negb (field d2 0 2 =? 1) || (field d2 10 1 =? 0) then None
      else
        Some (field d2 21 27 * 2 ^ 21 + va mod 2 ^ 21,
          mk_attr (field (r_mair m) (8 * field d2 2 3) 8) (field d2 8 2)
            (field d2 (if el =? 1 then 53 else 54) 1 =? 1)).

(** The attributes a flag asks for: MAIR bytes of device memory, of normal memory
    without and with caches. *)
Definition attrs (flags : Z) : attributes :=
  mk_attr (if negb (Z.land flags MMU_FLAG_DEVICE =? 0) then 0x04
    else if negb (Z.land flags MMU_FLAG_UNCACHED =? 0) then 0x44 else 0xff) 3
    ((el =? 1) && negb (Z.land flags MMU_FLAG_XN =? 0)).

End mmu.

(** ** Descriptors *)

Lemma region_base_spec addr : region_base addr = addr / 2 ^ 21 * 2 ^ 21.
Proof.
  unfold region_base, SIZE_MMU_SECTION_REGION. replace (2 ^ 21 - 1) with (Z.ones 21) by done.
  by rewrite <- Z.ldiff_land, Z.ldiff_ones_r, Z.shiftr_div_pow2, Z.shiftl_mul_pow2 by lia.
Qed.

(** The descriptor of the block [q] with the attributes [low] and the bit 53. *)
Definition block (q low : Z) (xn : bool) : Z := q * 2 ^ 21 + low + (if xn then 2 ^ 53 else 0).

Lemma lor_block q low (xn : bool) hi :
  0 <= q < 2 ^ 11 -> 0 <= low < 2 ^ 21 -> hi = (if xn then 2 ^ 53 else 0) -> Z.lor (q * 2 ^ 21) (Z.lor low hi) = block q low xn.
Proof.
  intros Q L ->. unfold block. rewrite Z.lor_assoc, (Z.lor_comm (q * 2 ^ 21)), (lor_add low _ 21 q) by lia.
  destruct xn; [|by rewrite Z.lor_0_r; lia]. rewrite (lor_add _ _ 53 1) by lia. lia.
Qed.

Lemma field_block q low xn :
  0 <= q < 2 ^ 11 -> 0 <= low < 2 ^ 12 ->
  let d := block q low xn in
  field d 0 2 = field low 0 2 /\ field d 2 3 = field low 2 3 /\ field d 8 2 = field low 8 2 /\ field d 10 1 = field low 10 1 /\
  field d 21 27 = q /\ field d 53 1 = (if xn then 1 else 0) /\ field d 54 1 = 0.
Proof.
  intros Q L d. unfold field, d, block. destruct xn; cbn -[Z.div Z.modulo Z.mul Z.add]; split_and!; modlia.
Qed.

Lemma mapAddr_descriptor q xn (idx : Z) (d := Z.lor (Z.lor (Z.lor (q * 2 ^ 21) DESCR_ISH) DESCR_AF) DESCR_VALID) :
  0 <= q < 2 ^ 11 -> 0 <= idx < 3 ->
  Z.lor (if xn : bool then Z.lor d DESCR_PXN else d) (DESCR_ATTR idx) = block q (0x701 + 4 * idx) xn.
Proof.
  intros Q I. assert (E : idx = 0 \/ idx = 1 \/ idx = 2) by lia.
  rewrite <- (lor_block q (0x701 + 4 * idx) xn _ Q ltac:(lia) eq_refl).
  destruct xn, E as [-> | [-> | ->]]; unfold d; rewrite <- !Z.lor_assoc; f_equal; by vm_compute.
Qed.

Lemma init_descriptor q :
  0 <= q < 2 ^ 11 ->
  Z.lor (Z.lor (Z.lor (Z.lor (Z.lor (q * 2 ^ 21) DESCR_PXN) (DESCR_ATTR MAIR_IDX_DEVICE)) DESCR_ISH) DESCR_AF) DESCR_VALID =
    block q (0x701 + 4 * 2) true.
Proof.
  intros Q. rewrite <- (lor_block q (0x701 + 4 * 2) true _ Q ltac:(lia) eq_refl), <- !Z.lor_assoc. by f_equal.
Qed.

(** ** The tables *)

Section spec.
  Context (ttl1_addr ttl2_addr : Z) (el id_aa64mmfr0 : Z).
  Context (addr_ok : 0 <= ttl2_addr < 2 ^ 48 - 2 ^ 14) (addr_al : (4096 | ttl2_addr)).

(** What [mmu_init] sets up and nothing changes. *)
Definition mair_value : Z := 0x00000000000444ff.

Definition tables (m : mmu) : Prop :=
  ttl1 m = (fun i => ttl2_addr + 4096 * Z.of_nat i + 3) <$> seq 0 4 /\
  length (ttl2 m) = 4%nat /\ Forall (fun t => length t = 512%nat) (ttl2 m) /\
  r_ttbr0 m = ttl1_addr /\ field (r_tcr m) 0 6 = 32 /\ r_mair m = mair_value.

(** The block descriptor of an address. *)
Definition entry (m : mmu) (va : Z) : option Z :=
  ttl2 m !! Z.to_nat (va / 2 ^ 30) ≫= (.!! Z.to_nat (va / 2 ^ 21 mod 512)).

(** The translation a descriptor gives. *)
Definition translate (va d : Z) : option (Z * attributes) :=
  if negb (field d 0 2 =? 1) || (field d 10 1 =? 0) then None
  else
    Some (field d 21 27 * 2 ^ 21 + va mod 2 ^ 21,
      mk_attr (field mair_value (8 * field d 2 3) 8) (field d 8 2) (field d (if el =? 1 then 53 else 54) 1 =? 1)).

Lemma walk_entry m va : tables m -> 0 <= va < 2 ^ 32 -> walk ttl1_addr ttl2_addr el m va = entry m va ≫= translate va.
Proof.
  intros (E1 & L2 & _ & E3 & E4 & E5) V. unfold walk, entry. rewrite E3, E4, E5, Z.eqb_refl.
  destruct (Z.leb_spec (2 ^ 32) va); [lia|]. cbn [Z.eqb Pos.eqb negb orb].
  assert (F : field va 30 2 = va / 2 ^ 30) by (unfold field; apply Z.mod_small; modlia).
  rewrite F, E1, list_lookup_fmap. set (i := va / 2 ^ 30). assert (I : 0 <= i < 4) by (unfold i; modlia).
  rewrite lookup_seq_lt by lia. cbn [fmap option_fmap option_map mbind option_bind].
  rewrite Nat.add_0_l, Z2Nat.id by lia. destruct addr_al as [a Ea].
  assert (F1 : field (ttl2_addr + 4096 * i + 3) 0 2 = 3) by (unfold field; rewrite Ea; clear; modlia).
  assert (F2 : field (ttl2_addr + 4096 * i + 3) 12 36 = a + i).
  { unfold field. replace (ttl2_addr + 4096 * i + 3) with (3 + (a + i) * 2 ^ 12) by lia.
    rewrite Z.div_add, Z.div_small, Z.mod_small by lia. lia. }
  rewrite F1, F2. cbn [Z.eqb Pos.eqb negb]. unfold table2.
  destruct (Z.leb_spec ttl2_addr ((a + i) * 4096)); [|lia].
  replace ((a + i) * 4096 - ttl2_addr) with (i * 4096) by lia. rewrite Z.div_mul by lia.
  assert (F3 : field va 21 9 = va / 2 ^ 21 mod 512) by done. rewrite F3.
  rewrite Z.eqb_refl. cbn [negb]. by destruct (ttl2 m !! Z.to_nat i) as [t|].
Qed.

Lemma entry_set m (i1 i2 d va : Z) :
  tables m -> 0 <= i1 < 4 -> 0 <= i2 < 512 -> 0 <= va < 2 ^ 32 ->
  tables (set_block i1 i2 d m) /\
  entry (set_block i1 i2 d m) va = if va / 2 ^ 21 =? i1 * 512 + i2 then Some d else entry m va.
Proof.
  intros (E1 & L2 & L3 & E3) I1 I2 V. split.
  - split; [done|]. cbn [set_block ttl2]. split; [by rewrite length_alter|]. split; [|done].
    apply Forall_alter; [done|]. intros t _ Ht. by rewrite length_insert.
  - unfold entry. cbn [set_block ttl2]. set (j1 := va / 2 ^ 30). set (j2 := va / 2 ^ 21 mod 512).
    assert (J : va / 2 ^ 21 = j1 * 512 + j2 /\ 0 <= j1 < 4 /\ 0 <= j2 < 512) by (unfold j1, j2; modlia).
    destruct J as (-> & J1 & J2). destruct (Z.eqb_spec (j1 * 512 + j2) (i1 * 512 + i2)) as [E|E].
    + assert (j1 = i1 /\ j2 = i2) as [-> ->] by lia. rewrite list_lookup_alter_eq.
      destruct (lookup_lt_is_Some_2 (ttl2 m) (Z.to_nat i1)) as [t Et]; [lia|]. rewrite Et. cbn [fmap option_fmap option_map mbind option_bind].
      rewrite Forall_lookup in L3. specialize (L3 _ _ Et). apply list_lookup_insert_eq. lia.
    + destruct (decide (j1 = i1)) as [->|N].
      * rewrite list_lookup_alter_eq. destruct (ttl2 m !! Z.to_nat i1) as [t|]; [|done].
        cbn [fmap option_fmap option_map mbind option_bind]. apply list_lookup_insert_ne. lia.
      * rewrite list_lookup_alter_ne by lia. done.
Qed.

Lemma indices va :
  0 <= va < 2 ^ 32 ->
  Z.land (Z.shiftr va 30) (Z.shiftl 1 2 - 1) = va / 2 ^ 30 /\
  Z.land (Z.shiftr va 21) (Z.shiftl 1 9 - 1) = va / 2 ^ 21 mod 512 /\
  va / 2 ^ 30 * 512 + va / 2 ^ 21 mod 512 = va / 2 ^ 21 /\ 0 <= va / 2 ^ 30 < 4 /\ 0 <= va / 2 ^ 21 < 2 ^ 11.
Proof.
  intros V. change (Z.shiftl 1 2 - 1) with (Z.ones 2). change (Z.shiftl 1 9 - 1) with (Z.ones 9).
  rewrite !Z.land_ones, !Z.shiftr_div_pow2 by lia. split_and!; try modlia; done.
Qed.

(** What a block translates to. *)
Lemma translate_block va q idx xn :
  0 <= q < 2 ^ 11 -> 0 <= idx < 3 ->
  translate va (block q (0x701 + 4 * idx) xn) =
    Some (q * 2 ^ 21 + va mod 2 ^ 21, mk_attr (field mair_value (8 * idx) 8) 3 ((el =? 1) && xn)).
Proof.
  intros Q I. unfold translate.
  destruct (field_block q (0x701 + 4 * idx) xn) as (-> & -> & -> & -> & -> & F5 & F6); [lia|lia|].
  assert (E : idx = 0 \/ idx = 1 \/ idx = 2) by lia.
  destruct (el =? 1), E as [-> | [-> | ->]]; cbn [andb]; rewrite ?F5, ?F6; by destruct xn.
Qed.

Lemma mapAddr_block paddr vaddr flags m :
  0 <= paddr < 2 ^ 32 -> 0 <= vaddr < 2 ^ 32 ->
  mmu_mapAddr paddr vaddr flags m =
    set_block (vaddr / 2 ^ 30) (vaddr / 2 ^ 21 mod 512)
      (block (paddr / 2 ^ 21) (0x701 + 4 * (if negb (Z.land flags MMU_FLAG_DEVICE =? 0) then 2
         else if negb (Z.land flags MMU_FLAG_UNCACHED =? 0) then 1 else 0)) (negb (Z.land flags MMU_FLAG_XN =? 0))) m.
Proof.
  intros P V. unfold mmu_mapAddr. destruct (indices vaddr V) as (-> & -> & _). rewrite region_base_spec. f_equal.
  rewrite <- mapAddr_descriptor by first [modlia | repeat case_match; lia].
  by destruct (negb (Z.land flags MMU_FLAG_XN =? 0)), (negb (Z.land flags MMU_FLAG_DEVICE =? 0)),
    (negb (Z.land flags MMU_FLAG_UNCACHED =? 0)).
Qed.

(** The tables after [mmu_init]: everything is device memory. *)
Lemma init_loop_spec k addr m va :
  tables m -> 0 <= addr -> (2 ^ 21 | addr) -> addr + Z.of_nat k * 2 ^ 21 <= 2 ^ 32 -> 0 <= va < 2 ^ 32 ->
  tables (init_loop k addr m) /\
  entry (init_loop k addr m) va =
    if (addr <=? va) && (va <? addr + Z.of_nat k * 2 ^ 21) then Some (block (va / 2 ^ 21) (0x701 + 4 * 2) true)
    else entry m va.
Proof.
  intros T A D L V. revert addr m T A D L. induction k as [|k IH]; intros addr m T A D L; cbn [init_loop].
  { split; [done|]. destruct (Z.leb_spec addr va), (Z.ltb_spec va (addr + Z.of_nat 0 * 2 ^ 21)); done || lia. }
  assert (Ar : 0 <= addr < 2 ^ 32) by lia. destruct (indices addr Ar) as (-> & -> & I3 & I4 & I5).
  rewrite region_base_spec, init_descriptor by done. unfold SIZE_MMU_SECTION_REGION. cbn zeta.
  set (d := block _ _ _). destruct (entry_set m (addr / 2 ^ 30) (addr / 2 ^ 21 mod 512) d va T) as [T' E];
    [done|apply Z.mod_pos_bound; lia|done|].
  destruct (IH (addr + 2 ^ 21) _ T') as [T2 E2]; [lia|by apply Z.divide_add_r; [|exists 1]|lia|].
  split; [done|]. rewrite E2, E, I3. destruct D as [q ->].
  rewrite Z.div_mul in * by lia.
  destruct (Z.leb_spec (q * 2 ^ 21 + 2 ^ 21) va), (Z.ltb_spec va (q * 2 ^ 21 + 2 ^ 21 + Z.of_nat k * 2 ^ 21)),
    (Z.leb_spec (q * 2 ^ 21) va), (Z.ltb_spec va (q * 2 ^ 21 + Z.of_nat (S k) * 2 ^ 21)),
    (Z.eqb_spec (va / 2 ^ 21) q) as [<-|]; cbn [andb]; try done; try modlia.
  unfold d. by rewrite Z.div_mul by lia.
Qed.

Lemma field6 x : field x 0 6 = Z.land x 63.
Proof. unfold field. change 63 with (Z.ones 6). by rewrite Z.div_1_r, Z.land_ones by lia. Qed.

Lemma shiftl_low x k : 6 <= k -> Z.land (Z.shiftl x k) 63 = 0.
Proof.
  intros K. change 63 with (Z.ones 6). rewrite Z.land_ones, Z.shiftl_mul_pow2 by lia.
  replace k with (k - 6 + 6) by lia. rewrite Z.pow_add_r, Z.mul_assoc by lia. by apply Z.mod_mul.
Qed.

(** The storage of the tables. *)
Definition storage (m : mmu) : Prop := length (ttl2 m) = 4%nat /\ Forall (fun t => length t = 512%nat) (ttl2 m).

Lemma mmu_init_spec m va :
  storage m -> 0 <= va < 2 ^ 32 ->
  tables (mmu_init ttl1_addr ttl2_addr el id_aa64mmfr0 m) /\
  entry (mmu_init ttl1_addr ttl2_addr el id_aa64mmfr0 m) va = Some (block (va / 2 ^ 21) (0x701 + 4 * 2) true).
Proof.
  intros [S1 S2] V. unfold mmu_init. cbn zeta. assert (En : Z.of_nat 2048 = 2048) by done. revert En.
  generalize 2048%nat. intros n En. set (tcr := Z.lor _ _). set (mair := Z.lor _ (MAIR_ATTR MAIR_IDX_S_ORDERED _)).
  set (l1 := _ <$> seq 0 4).
  assert (L1 : l1 = (fun i => ttl2_addr + 4096 * Z.of_nat i + 3) <$> seq 0 4).
  { unfold l1. apply list_fmap_ext. intros i x _. destruct addr_al as [a ->]. rewrite <- Z.lor_assoc.
    change (Z.lor DESCR_VALID DESCR_TABLE) with 3. rewrite Z.lor_comm, (lor_add 3 _ 12 (a + Z.of_nat x)) by lia. lia. }
  assert (Tc : Z.land tcr 63 = 32).
  { unfold tcr. rewrite Z.land_lor_distr_l, shiftl_low by lia. by vm_compute. }
  set (m0 := mk_mmu l1 (ttl2 m) ttl1_addr tcr mair).
  assert (T0 : tables m0) by (split; [exact L1|split; [done|split; [done|split; [done|split; [by rewrite field6|by vm_compute]]]]]).
  assert (Reg : forall k a t2 x y z x' y' z', ttl1 (init_loop k a (mk_mmu l1 t2 x y z)) = l1 /\
    ttl2 (init_loop k a (mk_mmu l1 t2 x y z)) = ttl2 (init_loop k a (mk_mmu l1 t2 x' y' z'))).
  { clear. induction k as [|k IH]; intros; cbn [init_loop]; [done|]. apply IH. }
  destruct (Reg n 0 (ttl2 m) (r_ttbr0 m) (r_tcr m) (r_mair m) ttl1_addr tcr mair) as [R1 R2].
  destruct (init_loop_spec n 0 m0 va T0) as [(_ & T2 & T3 & _) E]; [lia|by exists 0|lia|done|].
  unfold tables, entry, mmu_setTranslationRegs. cbn [ttl1 ttl2 r_ttbr0 r_tcr r_mair]. rewrite R1, R2. split.
  - split; [done|]. split; [exact T2|]. split; [exact T3|]. split; [done|]. split; [|by vm_compute].
    rewrite field6. destruct (el =? 2); [|done].
    rewrite Z.land_lor_distr_l, shiftl_low, <- Z.land_assoc, Z.lor_0_r by lia.
    change (Z.land (Z.lnot (Z.shiftl 7 32)) 63) with 63. done.
  - fold m0. unfold entry in E. rewrite E. clear -V En.
    by destruct (Z.leb_spec 0 va), (Z.ltb_spec va (0 + Z.of_nat n * 2 ^ 21)); cbn [andb]; try lia.
Qed.

(** The interface. *)
Definition aarch64_translation : Translation mmu attributes 21 mmu_mapAddr (walk ttl1_addr ttl2_addr el) (attrs el).
Proof.
  refine {| tr_ok := tables |}.
  - lia.
  - intros m paddr vaddr flags T P V. rewrite mapAddr_block by done. destruct (indices vaddr V) as (_ & _ & _ & I & _).
    apply (entry_set m _ _ _ 0 T I); [apply Z.mod_pos_bound; lia|lia].
  - intros m paddr vaddr flags va T P V A. rewrite mapAddr_block by done.
    destruct (indices vaddr V) as (_ & _ & I3 & I4 & _).
    set (d := block _ _ _). destruct (entry_set m (vaddr / 2 ^ 30) (vaddr / 2 ^ 21 mod 512) d va T I4) as [T' E];
      [apply Z.mod_pos_bound; lia|done|].
    rewrite walk_entry, E, I3, (walk_entry m) by done.
    destruct (Z.eqb_spec (va / 2 ^ 21) (vaddr / 2 ^ 21)); [|done]. cbn [mbind option_bind]. unfold d.
    rewrite translate_block by first [modlia | repeat case_match; lia]. unfold attrs.
    by destruct (negb (Z.land flags MMU_FLAG_DEVICE =? 0)), (negb (Z.land flags MMU_FLAG_UNCACHED =? 0)).
Defined.

Lemma mmu_init_walk m va :
  storage m -> 0 <= va < 2 ^ 32 ->
  tables (mmu_init ttl1_addr ttl2_addr el id_aa64mmfr0 m) /\
  walk ttl1_addr ttl2_addr el (mmu_init ttl1_addr ttl2_addr el id_aa64mmfr0 m) va =
    Some (va, mk_attr 0x04 3 (el =? 1)).
Proof.
  intros S V. destruct (mmu_init_spec m va S V) as [T E]. split; [done|].
  rewrite walk_entry, E by done. cbn [mbind option_bind]. rewrite translate_block by first [modlia | lia].
  rewrite andb_true_r. do 2 f_equal. modlia.
Qed.

End spec.

(** ** The memory of the platforms *)

Section platforms.
  Context (ttl1_addr ttl2_addr : Z) (el id_aa64mmfr0 : Z) (m : mmu).
  Context (addr_ok : 0 <= ttl2_addr < 2 ^ 48 - 2 ^ 14) (addr_al : (4096 | ttl2_addr)) (m_ok : storage m).

#[local] Existing Instance aarch64_translation.

Abbreviation tr := (aarch64_translation ttl1_addr ttl2_addr el addr_ok addr_al).
Abbreviation walk_of := (walk ttl1_addr ttl2_addr el).

(** Normal memory with caches, without, and device memory. *)
Definition cached : attributes := mk_attr 0xff 3 false.
Definition uncached (xn : bool) : attributes := mk_attr 0x44 3 xn.
Definition device (xn : bool) : attributes := mk_attr 0x04 3 xn.

Lemma attrs_cached : attrs el MMU_FLAG_CACHED = cached.
Proof. unfold attrs, cached. by rewrite andb_false_r. Qed.

Lemma attrs_uncached_xn : attrs el (Z.lor MMU_FLAG_UNCACHED MMU_FLAG_XN) = uncached (el =? 1).
Proof. unfold attrs, uncached. by rewrite andb_true_r. Qed.

(** C26. On the Raspberry Pi 4 every address translates to itself.  The memory below
    0x3b400000 and from 0x40000000 to 0xfc000000 has caches and can be executed; the
    memory of the GPU and the peripherals are device memory, which EL1 cannot
    execute. *)
Theorem rpi4_memory_map va :
  0 <= va < 2 ^ 32 ->
  walk_of (rpi4_memoryInit ttl1_addr ttl2_addr el id_aa64mmfr0 m) va =
    Some (va, if (va <? 0x3b400000) || (0x40000000 <=? va) && (va <? 0xfc000000) then cached else device (el =? 1)).
Proof.
  intros V. unfold rpi4_memoryInit.
  destruct (mmu_init_walk ttl1_addr ttl2_addr el id_aa64mmfr0 addr_ok addr_al m va m_ok V) as [T W].
  destruct (map_loop_spec (Translation0 := tr) gpu_reserved rpi4_ADDR_DDR MMU_FLAG_CACHED 2016 0
    (mmu_init ttl1_addr ttl2_addr el id_aa64mmfr0 m) va T) as [_ W2]; [by vm_compute..| |done|].
  { intros a. unfold gpu_reserved, rpi4_ADDR_GPU_RSV, rpi4_SIZE_GPU_RSV.
    destruct (Z.leb_spec 0x3b400000 a), (Z.ltb_spec a (0x3b400000 + 0x04c00000)),
      (Z.leb_spec 0x3b400000 (a / 2 ^ 21 * 2 ^ 21)), (Z.ltb_spec (a / 2 ^ 21 * 2 ^ 21) (0x3b400000 + 0x04c00000));
      cbn [andb]; try done; modlia. }
  change (regions rpi4_SIZE_DDR SIZE_MMU_SECTION_REGION) with 2016%nat. unfold SIZE_MMU_SECTION_REGION.
  rewrite W2, W. cbn zeta. unfold gpu_reserved, rpi4_ADDR_GPU_RSV, rpi4_SIZE_GPU_RSV, rpi4_ADDR_DDR.
  rewrite Z.div_0_l, Z.sub_0_r by done. clear T W W2.
  assert (S : 0 <= va / 2 ^ 21 /\ (va / 2 ^ 21 < 2016 <-> va < 0xfc000000)) by (split; [|split]; modlia).
  destruct S as [S1 S2]. set (s := va / 2 ^ 21) in *. change (Z.of_nat 2016) with 2016.
  replace ((0 <=? s) && (s <? 2016) && negb ((0x3b400000 <=? va) && (va <? 0x3b400000 + 0x04c00000))) with
    ((va <? 0x3b400000) || (0x40000000 <=? va) && (va <? 0xfc000000)).
  { destruct (_ || _); [|done]. by rewrite attrs_cached. }
  destruct (Z.leb_spec 0 s), (Z.ltb_spec s 2016), (Z.leb_spec 0x3b400000 va), (Z.ltb_spec va (0x3b400000 + 0x04c00000)),
    (Z.ltb_spec va 0x3b400000), (Z.leb_spec 0x40000000 va), (Z.ltb_spec va 0xfc000000); cbn [andb orb negb]; done || lia.
Qed.

Definition zynqmp_ranges : list (Z * Z * Z) :=
  [(zynqmp_ADDR_OCRAM, zynqmp_SIZE_OCRAM, MMU_FLAG_CACHED); (zynqmp_ADDR_DDR, zynqmp_SIZE_DDR, MMU_FLAG_CACHED);
   (zynqmp_ADDR_BITSTREAM, zynqmp_SIZE_BITSTREAM, Z.lor MMU_FLAG_UNCACHED MMU_FLAG_XN);
   (zynqmp_ADDR_UNCACHED_BUFF_DDR, zynqmp_SIZE_UNCACHED_BUFF_DDR, Z.lor MMU_FLAG_UNCACHED MMU_FLAG_XN)].

Lemma zynqmp_memoryInit_ranges :
  zynqmp_memoryInit ttl1_addr ttl2_addr el id_aa64mmfr0 m =
    map_ranges (bits := 21) (mapAddr := mmu_mapAddr) zynqmp_ranges (mmu_init ttl1_addr ttl2_addr el id_aa64mmfr0 m).
Proof.
  unfold zynqmp_memoryInit. cbn zeta. generalize (mmu_init ttl1_addr ttl2_addr el id_aa64mmfr0 m). intros m0.
  unfold map_ranges, zynqmp_ranges. cbn [foldl]. unfold SIZE_MMU_SECTION_REGION. reflexivity.
Qed.

(** On the ZynqMP: memory, with the buffers and the bitstream uncached, the memory
    on the chip, and devices. *)
Lemma zynqmp_memory_map va :
  0 <= va < 2 ^ 32 ->
  walk_of (zynqmp_memoryInit ttl1_addr ttl2_addr el id_aa64mmfr0 m) va =
    Some (va, if (0x1da00000 <=? va) && (va <? 0x20000000) then uncached (el =? 1)
      else if (va <? 0x20000000) || (0xffe00000 <=? va) then cached else device (el =? 1)).
Proof.
  intros V. destruct (mmu_init_walk ttl1_addr ttl2_addr el id_aa64mmfr0 addr_ok addr_al m va m_ok V) as [T W].
  rewrite zynqmp_memoryInit_ranges. generalize dependent (mmu_init ttl1_addr ttl2_addr el id_aa64mmfr0 m). intros m0 T W.
  rewrite (map_ranges_spec (Translation0 := tr) _ _ va T V), W by (repeat constructor; by vm_compute).
  unfold range_view. cbn [foldl zynqmp_ranges]. rewrite attrs_cached, attrs_uncached_xn. clear T W.
  fold (device (el =? 1)). compare_ranges va.
Qed.

End platforms.

(** At EL3, where the ZynqMP runs, bit 53 is not looked at: what was mapped as
    execute-never can be executed. *)
Lemma zynqmp_executable ttl1_addr ttl2_addr id m va :
  0 <= ttl2_addr < 2 ^ 48 - 2 ^ 14 -> (4096 | ttl2_addr) -> storage m -> 0x1da00000 <= va < 0x20000000 ->
  walk ttl1_addr ttl2_addr 3 (zynqmp_memoryInit ttl1_addr ttl2_addr 3 id m) va = Some (va, mk_attr 0x44 3 false).
Proof.
  intros A D S V. rewrite (zynqmp_memory_map ttl1_addr ttl2_addr 3 id m A D S) by lia.
  compare_ranges va.
Qed.

Lemma static_storage : storage mmu_static.
Proof. split; [done|]. by repeat constructor. Qed.

Lemma rpi4_memory_map_witness :
  0 <= 0x3b400000 < 2 ^ 32 /\
  walk 0x84000 0x85000 1 (rpi4_memoryInit 0x84000 0x85000 1 0 mmu_static) 0x3b400000 = Some (0x3b400000, mk_attr 0x04 3 true).
Proof.
  split; [lia|]. refine (rpi4_memory_map 0x84000 0x85000 1 0 mmu_static _ _ static_storage 0x3b400000 _).
  - lia.
  - by exists 133.
  - lia.
Defined.
