(* ===== verification/Mmu7.v ===== *)
(** * ARMv7-A: one level of sections (src/hal/armv7a/mmu.c, and [hal_memoryInit] of
      src/hal/armv7a/zynq7000/hal.c and src/hal/armv7a/imx6ull/hal.c)

    The table has an entry for every 1 MB section.  Its address is a parameter. *)

From S2P Require Import Prelude Mem Mmu.

Definition SIZE_MMU_SECTION_REGION := 0x100000.

Definition MMU_FLAG_CACHED := 0x1.
Definition MMU_FLAG_UNCACHED := 0x2.
Definition MMU_FLAG_XN := 0x4.

(** The table and the registers: both table registers, their control register and
    the domains. *)
Record mmu := mk_mmu { ttl1 : list Z; r_ttbr0 : Z; r_ttbr1 : Z; r_ttbcr : Z; r_dacr : Z }.

Section mmu.
  Context (ttl1_addr : Z).

Definition mmu_setTTBR0 (addr : Z) (m : mmu) : mmu := mk_mmu (ttl1 m) addr addr 1 (r_dacr m).
Definition mmu_setDACR (val : Z) (m : mmu) : mmu := mk_mmu (ttl1 m) (r_ttbr0 m) (r_ttbr1 m) (r_ttbcr m) val.

Definition set_entry (id descriptor : Z) (m : mmu) : mmu :=
  mk_mmu (<[Z.to_nat id := descriptor]> (ttl1 m)) (r_ttbr0 m) (r_ttbr1 m) (r_ttbcr m) (r_dacr m).

Definition has_flag (flags flag : Z) : bool := negb (Z.land flags flag =? 0).

Definition mmu_mapAddr (paddr vaddr flags : Z) (m : mmu) : mmu :=
  let ap := 0x3 in
  let '(tex, cb) := if has_flag flags MMU_FLAG_UNCACHED then (2, 0) else (0, 0) in
  let '(tex, cb) := if has_flag flags MMU_FLAG_CACHED then (6, 3) else (tex, cb) in
  let '(tex, xn) := if has_flag flags MMU_FLAG_XN then (0, 1) else (tex, 0) in
  let id := Z.shiftr vaddr 20 in
  set_entry id
    (Z.lor (Z.lor (Z.lor (Z.lor (Z.lor (Z.land paddr (Z.lnot (SIZE_MMU_SECTION_REGION - 1))) (Z.shiftl tex 12))
      (Z.shiftl ap 10)) (Z.shiftl xn 4)) (Z.shiftl cb 2)) 0x2) m.

Definition mmu_init (m : mmu) : mmu :=
  let m := mk_mmu (replicate 4096 0) (r_ttbr0 m) (r_ttbr1 m) (r_ttbcr m) (r_dacr m) in
  let m := map_loop mmu_mapAddr SIZE_MMU_SECTION_REGION no_skip 0 (Z.lor MMU_FLAG_UNCACHED MMU_FLAG_XN) 0 4096 m in
  let ttbr0 := Z.lor (Z.lor (Z.lor ttl1_addr (Z.shiftl 1 6)) (Z.shiftl 3 3)) 1 in
  mmu_setDACR 0x00000001 (mmu_setTTBR0 ttbr0 m).

(** ** The platforms

    src/hal/armv7a/zynq7000/hal.c (ld/armv7a9-zynq7000.ldt) *)
Definition zynq7000_ADDR_OCRAM_LOW := 0x00000000.
Definition zynq7000_SIZE_OCRAM_LOW := 192 * 1024.
Definition zynq7000_ADDR_OCRAM_HIGH := 0xffff0000.
Definition zynq7000_SIZE_OCRAM_HIGH := 64 * 1024.
Definition zynq7000_ADDR_DDR := 0x00100000.
Definition zynq7000_SIZE_DDR := 512 * 1024 * 1024.
Definition zynq7000_SIZE_BITSTREAM := 4 * 1024 * 1024.
Definition zynq7000_ADDR_BITSTREAM := zynq7000_ADDR_DDR + zynq7000_SIZE_DDR - zynq7000_SIZE_BITSTREAM.
Definition zynq7000_SIZE_DDR_PLO := 4 * 1024 * 1024.
Definition zynq7000_ADDR_BUFF_DDR :=
  zynq7000_ADDR_DDR + zynq7000_SIZE_DDR - zynq7000_SIZE_DDR_PLO - zynq7000_SIZE_BITSTREAM.
Definition zynq7000_SIZE_BUFF_DDR := 2 * 1024 * 1024.
Definition zynq7000_ADDR_UNCACHED_BUFF_DDR := zynq7000_ADDR_BUFF_DDR + zynq7000_SIZE_BUFF_DDR.
Definition zynq7000_SIZE_UNCACHED_BUFF_DDR := 2 * 1024 * 1024.

(** The first loop runs while [sz <= size]. *)
Definition zynq7000_memoryInit (m : mmu) : mmu :=
  let map_range := map_range mmu_mapAddr SIZE_MMU_SECTION_REGION in
  let m := mmu_init m in
  let m := map_range zynq7000_ADDR_OCRAM_LOW (zynq7000_SIZE_OCRAM_LOW + 1) MMU_FLAG_CACHED m in
  let m := map_range (Z.land zynq7000_ADDR_OCRAM_HIGH (Z.lnot (SIZE_MMU_SECTION_REGION - 1))) zynq7000_SIZE_OCRAM_HIGH
    MMU_FLAG_CACHED m in
  let m := map_range zynq7000_ADDR_DDR zynq7000_SIZE_DDR MMU_FLAG_CACHED m in
  let m := map_range zynq7000_ADDR_BITSTREAM zynq7000_SIZE_BITSTREAM (Z.lor MMU_FLAG_UNCACHED MMU_FLAG_XN) m in
  map_range zynq7000_ADDR_UNCACHED_BUFF_DDR zynq7000_SIZE_UNCACHED_BUFF_DDR (Z.lor MMU_FLAG_UNCACHED MMU_FLAG_XN) m.

(** src/hal/armv7a/imx6ull/hal.c (ld/armv7a7-imx6ull.ldt) *)
Definition imx6ull_ADDR_DDR := 0x80000000.
Definition imx6ull_SIZE_DDR := 128 * 1024 * 1024.
Definition imx6ull_ADDR_OCRAM_HIGH := 0x907000.
Definition imx6ull_SIZE_OCRAM_HIGH := 100 * 1024.
Definition imx6ull_ADDR_OCRAM_LOW := 0x900000.
Definition imx6ull_SIZE_OCRAM_LOW := 28 * 1024.
Definition imx6ull_SIZE_DDR_PLO := 4 * 1024 * 1024.
Definition imx6ull_ADDR_BUFF_DDR := imx6ull_ADDR_DDR + imx6ull_SIZE_DDR - imx6ull_SIZE_DDR_PLO.
Definition imx6ull_SIZE_BUFF_DDR := 2 * 1024 * 1024.
Definition imx6ull_ADDR_UNCACHED_BUFF_DDR := imx6ull_ADDR_BUFF_DDR + imx6ull_SIZE_BUFF_DDR.
Definition imx6ull_SIZE_UNCACHED_BUFF_DDR := 2 * 1024 * 1024.

Definition imx6ull_memoryInit (m : mmu) : mmu :=
  let map_range := map_range mmu_mapAddr SIZE_MMU_SECTION_REGION in
  let m := mmu_init m in
  let m := map_range imx6ull_ADDR_OCRAM_LOW imx6ull_SIZE_OCRAM_LOW MMU_FLAG_CACHED m in
  let m := map_range imx6ull_ADDR_OCRAM_HIGH imx6ull_SIZE_OCRAM_HIGH MMU_FLAG_CACHED m in
  let m := map_range imx6ull_ADDR_DDR imx6ull_SIZE_DDR MMU_FLAG_CACHED m in
  map_range imx6ull_ADDR_UNCACHED_BUFF_DDR imx6ull_SIZE_UNCACHED_BUFF_DDR (Z.lor MMU_FLAG_UNCACHED MMU_FLAG_XN) m.

(** ** The processor

    The walk with short descriptors: the control register splits the address space
    between the two table registers.  Sections of domain 0 are accepted when the
    domain checks permissions and these allow every access.  [None] is a fault. *)

Inductive mem_type := StronglyOrdered | Device | Uncached | Cached.

Definition mem_type_of (tex cb : Z) : mem_type :=
  if tex =? 0 then (if cb =? 0 then StronglyOrdered else if cb =? 1 then Device else Cached)
  else if tex =? 1 then (if cb =? 0 then Uncached else Cached)
  else if tex =? 2 then Device else if tex =? 4 then (if cb =? 0 then Uncached else Cached) else Cached.

Record attributes := mk_attr { mtype : mem_type; execute_never : bool }.

Definition section_of (va d : Z) : option (Z * attributes) :=
  if negb (field d 0 2 =? 2) || negb (field d 18 1 =? 0) || negb (field d 5 4 =? 0) ||
     negb (field d 10 2 =? 3) || negb (field d 15 1 =? 0) then None
  else Some (field d 20 12 * 2 ^ 20 + va mod 2 ^ 20, mk_attr (mem_type_of (field d 12 3) (field d 2 2)) (field d 4 1 =? 1)).

Definition walk (m : mmu) (va : Z) : option (Z * attributes) :=
  let n := field (r_ttbcr m) 0 3 in
  let base := if (n =? 0) || (va / 2 ^ (32 - n) =? 0) then field (r_ttbr0 m) (14 - n) (18 + n) * 2 ^ (14 - n)
    else field (r_ttbr1 m) 14 18 * 2 ^ 14 in
  if negb (base =? ttl1_addr) || negb (field (r_dacr m) 0 2 =? 1) then None
  else d ← ttl1 m !! Z.to_nat (va / 2 ^ 20); section_of va d.

Definition attrs (flags : Z) : attributes :=
  let xn := has_flag flags MMU_FLAG_XN in
  mk_attr (if has_flag flags MMU_FLAG_CACHED then Cached
    else if has_flag flags MMU_FLAG_UNCACHED then (if xn then StronglyOrdered else Device) else StronglyOrdered) xn.

(** ** Descriptors *)

(** The descriptor [mmu_mapAddr] writes. *)
Definition descriptor (q flags : Z) : Z :=
  q * 2 ^ 20 +
  (if has_flag flags MMU_FLAG_XN then (if has_flag flags MMU_FLAG_CACHED then 0xc1e else 0xc12)
   else if has_flag flags MMU_FLAG_CACHED then 0x6c0e else if has_flag flags MMU_FLAG_UNCACHED then 0x2c02 else 0xc02).

Lemma mapAddr_section paddr vaddr flags m :
  0 <= vaddr < 2 ^ 32 -> mmu_mapAddr paddr vaddr flags m = set_entry (vaddr / 2 ^ 20) (descriptor (paddr / 2 ^ 20) flags) m.
Proof.
  intros V. unfold mmu_mapAddr, descriptor. rewrite Z.shiftr_div_pow2 by lia.
  assert (B : Z.land paddr (Z.lnot (SIZE_MMU_SECTION_REGION - 1)) = paddr / 2 ^ 20 * 2 ^ 20).
  { replace (SIZE_MMU_SECTION_REGION - 1) with (Z.ones 20) by done.
    by rewrite <- Z.ldiff_land, Z.ldiff_ones_r, Z.shiftr_div_pow2, Z.shiftl_mul_pow2 by lia. }
  rewrite B. set (q := paddr / 2 ^ 20).
  assert (L : forall low, 0 <= low < 2 ^ 20 -> Z.lor (q * 2 ^ 20) low = q * 2 ^ 20 + low).
  { intros low Hl. rewrite Z.lor_comm, (lor_add low _ 20 q) by lia. lia. }
  destruct (has_flag flags MMU_FLAG_XN), (has_flag flags MMU_FLAG_CACHED), (has_flag flags MMU_FLAG_UNCACHED);
    cbv beta iota zeta; rewrite <- !Z.lor_assoc; f_equal; rewrite <- L by lia; by f_equal.
Qed.

Lemma section_descriptor va q flags :
  0 <= q < 2 ^ 12 -> section_of va (descriptor q flags) = Some (q * 2 ^ 20 + va mod 2 ^ 20, attrs flags).
Proof.
  intros Q. unfold section_of, descriptor, attrs.
  set (low := if has_flag flags MMU_FLAG_XN then _ else _). 
  assert (F : field (q * 2 ^ 20 + low) 20 12 = q /\ forall a b, 0 <= a -> 0 <= b -> a + b <= 20 ->
    field (q * 2 ^ 20 + low) a b = field low a b).
  { assert (0 <= low < 2 ^ 20) by (unfold low; repeat case_match; lia). unfold field. split.
    - rewrite Z.add_comm, Z.div_add, Z.div_small, Z.mod_small by lia. lia.
    - intros a b A B AB. replace 20 with (a + b + (20 - a - b)) by lia. rewrite !Z.pow_add_r by lia.
      replace (q * (2 ^ a * 2 ^ b * 2 ^ (20 - a - b)) + low) with (low + q * 2 ^ (20 - a - b) * 2 ^ b * 2 ^ a) by lia.
      rewrite Z.div_add by (apply Z.pow_nonzero; lia). by rewrite Z.mod_add by (apply Z.pow_nonzero; lia). }
  destruct F as [-> F]. rewrite !F by lia. unfold low. clear F low.
  by destruct (has_flag flags MMU_FLAG_XN), (has_flag flags MMU_FLAG_CACHED), (has_flag flags MMU_FLAG_UNCACHED).
Qed.

(** ** The tables *)

Context (addr_ok : 0 <= ttl1_addr < 2 ^ 32) (addr_al : (2 ^ 14 | ttl1_addr)).

Definition tables (m : mmu) : Prop :=
  length (ttl1 m) = 4096%nat /\ r_ttbr0 m = ttl1_addr + 0x59 /\ r_ttbr1 m = ttl1_addr + 0x59 /\ r_ttbcr m = 1 /\ r_dacr m = 1.

(** Both registers hold the one table, so the split does not matter. *)
Lemma walk_section m va :
  tables m -> 0 <= va < 2 ^ 32 -> walk m va = ttl1 m !! Z.to_nat (va / 2 ^ 20) ≫= section_of va.
Proof.
  intros (_ & E0 & E1 & E2 & E3) V. unfold walk. rewrite E0, E1, E2, E3. change (field 1 0 3) with 1.
  destruct addr_al as [q Eq].
  assert (F : field (ttl1_addr + 0x59) (14 - 1) (18 + 1) * 2 ^ (14 - 1) = ttl1_addr /\
    field (ttl1_addr + 0x59) 14 18 * 2 ^ 14 = ttl1_addr).
  { unfold field. replace (ttl1_addr + 0x59) with (0x59 + q * 2 * 2 ^ 13) at 1 by lia.
    replace (ttl1_addr + 0x59) with (0x59 + q * 2 ^ 14) by lia. change (14 - 1) with 13. change (18 + 1) with 19.
    rewrite !Z.div_add, !Z.div_small, !Z.mod_small by lia. lia. }
  destruct F as [-> ->]. by destruct ((1 =? 0) || (va / 2 ^ (32 - 1) =? 0)); rewrite Z.eqb_refl.
Qed.

Lemma section_set m id d va :
  tables m -> 0 <= id < 4096 -> 0 <= va < 2 ^ 32 ->
  tables (set_entry id d m) /\
  ttl1 (set_entry id d m) !! Z.to_nat (va / 2 ^ 20) = if va / 2 ^ 20 =? id then Some d else ttl1 m !! Z.to_nat (va / 2 ^ 20).
Proof.
  intros (L & R) I V. split; [by split; [cbn; rewrite length_insert|]|]. cbn [set_entry ttl1].
  assert (0 <= va / 2 ^ 20) by modlia.
  destruct (Z.eqb_spec (va / 2 ^ 20) id) as [->|N]; [apply list_lookup_insert_eq; lia|apply list_lookup_insert_ne; lia].
Qed.

Definition armv7_translation : Translation mmu attributes 20 mmu_mapAddr walk attrs.
Proof.
  refine {| tr_ok := tables |}.
  - lia.
  - intros m paddr vaddr flags T P V. rewrite mapAddr_section by done.
    apply (section_set m _ _ 0 T); [modlia|lia].
  - intros m paddr vaddr flags va T P V A. rewrite mapAddr_section by done.
    destruct (section_set m (vaddr / 2 ^ 20) (descriptor (paddr / 2 ^ 20) flags) va T) as [T' E]; [modlia|done|].
    rewrite walk_section, E, (walk_section m) by done. destruct (_ =? _); [|done]. cbn [mbind option_bind].
    apply section_descriptor. modlia.
Defined.

(** The registers do not depend on the entries. *)
Lemma map_loop_regs flags k sz ttbr0 m :
  mmu_setDACR 1 (mmu_setTTBR0 ttbr0 (map_loop mmu_mapAddr SIZE_MMU_SECTION_REGION no_skip 0 flags sz k m)) =
  map_loop mmu_mapAddr SIZE_MMU_SECTION_REGION no_skip 0 flags sz k (mmu_setDACR 1 (mmu_setTTBR0 ttbr0 m)).
Proof.
  revert sz m. induction k as [|k IH]; intros sz m; cbn [map_loop no_skip]; [done|]. rewrite IH. f_equal.
  unfold mmu_mapAddr. by repeat case_match.
Qed.

Definition init_ttbr0 : Z := Z.lor (Z.lor (Z.lor ttl1_addr (Z.shiftl 1 6)) (Z.shiftl 3 3)) 1.

Lemma init_tables l m :
  length l = 4096%nat -> tables (mmu_setDACR 1 (mmu_setTTBR0 init_ttbr0 (mk_mmu l (r_ttbr0 m) (r_ttbr1 m) (r_ttbcr m) (r_dacr m)))).
Proof.
  intros L. split; [exact L|]. assert (E : init_ttbr0 = ttl1_addr + 0x59); [|by rewrite <- E].
  unfold init_ttbr0. destruct addr_al as [q ->]. rewrite <- !Z.lor_assoc. change (Z.lor _ (Z.lor _ 1)) with 0x59.
  rewrite Z.lor_comm, (lor_add 0x59 _ 14 q) by lia. lia.
Qed.

Lemma uncached_xn_attrs : attrs (Z.lor MMU_FLAG_UNCACHED MMU_FLAG_XN) = mk_attr StronglyOrdered true.
Proof. done. Qed.

(** The loop of [mmu_init] with any table and number of sections. *)
Lemma init_loop_walk n m va :
  tables m -> Z.of_nat n = 4096 -> 0 <= va < 2 ^ 32 ->
  tables (map_loop mmu_mapAddr SIZE_MMU_SECTION_REGION no_skip 0 (Z.lor MMU_FLAG_UNCACHED MMU_FLAG_XN) 0 n m) /\
  walk (map_loop mmu_mapAddr SIZE_MMU_SECTION_REGION no_skip 0 (Z.lor MMU_FLAG_UNCACHED MMU_FLAG_XN) 0 n m) va =
    Some (va, mk_attr StronglyOrdered true).
Proof.
  intros T En V.
  destruct (map_loop_spec (Translation0 := armv7_translation) no_skip 0 (Z.lor MMU_FLAG_UNCACHED MMU_FLAG_XN) n 0 m va T)
    as [T' W]; [done|change ((0 + 0) mod 2 ^ 20) with 0; lia|done|done|].
  split; [exact T'|]. change SIZE_MMU_SECTION_REGION with (2 ^ 20). rewrite W. cbv zeta. clear W T T'.
  change ((0 + 0) `div` 2 ^ 20) with 0. rewrite Z.sub_0_r, En. unfold no_skip. rewrite andb_true_r, uncached_xn_attrs.
  assert (S : 0 <= va / 2 ^ 20 < 4096) by modlia. clear -S.
  by destruct (Z.leb_spec 0 (va / 2 ^ 20)), (Z.ltb_spec (va / 2 ^ 20) 4096); cbn [andb]; try lia.
Qed.

Lemma sections_init_walk m va :
  0 <= va < 2 ^ 32 -> tables (mmu_init m) /\ walk (mmu_init m) va = Some (va, mk_attr StronglyOrdered true).
Proof.
  intros V. unfold mmu_init. cbv zeta. rewrite map_loop_regs.
  apply init_loop_walk; [apply init_tables, length_replicate|reflexivity|exact V].
Qed.

(** ** The memory of the platforms *)

Definition cached : attributes := mk_attr Cached false.
Definition strongly_ordered : attributes := mk_attr StronglyOrdered true.

Definition uncached_xn : Z := Z.lor MMU_FLAG_UNCACHED MMU_FLAG_XN.

Definition zynq7000_ranges : list (Z * Z * Z) :=
  [(zynq7000_ADDR_OCRAM_LOW, zynq7000_SIZE_OCRAM_LOW + 1, MMU_FLAG_CACHED); (0xfff00000, zynq7000_SIZE_OCRAM_HIGH, MMU_FLAG_CACHED);
   (zynq7000_ADDR_DDR, zynq7000_SIZE_DDR, MMU_FLAG_CACHED); (zynq7000_ADDR_BITSTREAM, zynq7000_SIZE_BITSTREAM, uncached_xn);
   (zynq7000_ADDR_UNCACHED_BUFF_DDR, zynq7000_SIZE_UNCACHED_BUFF_DDR, uncached_xn)].

Definition imx6ull_ranges : list (Z * Z * Z) :=
  [(imx6ull_ADDR_OCRAM_LOW, imx6ull_SIZE_OCRAM_LOW, MMU_FLAG_CACHED); (imx6ull_ADDR_OCRAM_HIGH, imx6ull_SIZE_OCRAM_HIGH, MMU_FLAG_CACHED);
   (imx6ull_ADDR_DDR, imx6ull_SIZE_DDR, MMU_FLAG_CACHED); (imx6ull_ADDR_UNCACHED_BUFF_DDR, imx6ull_SIZE_UNCACHED_BUFF_DDR, uncached_xn)].

Lemma memoryInit_ranges m :
  zynq7000_memoryInit m = map_ranges (bits := 20) (mapAddr := mmu_mapAddr) zynq7000_ranges (mmu_init m) /\
  imx6ull_memoryInit m = map_ranges (bits := 20) (mapAddr := mmu_mapAddr) imx6ull_ranges (mmu_init m).
Proof.
  unfold zynq7000_memoryInit, imx6ull_memoryInit. cbn zeta. generalize (mmu_init m). intros m0.
  unfold map_ranges, zynq7000_ranges, imx6ull_ranges, SIZE_MMU_SECTION_REGION. cbn [foldl].
  change (Z.land zynq7000_ADDR_OCRAM_HIGH (Z.lnot (0x100000 - 1))) with 0xfff00000. by split.
Qed.

(** On the Zynq: memory with caches but for the bitstream and a buffer, the memory
    on the chip at both ends, and the rest strongly ordered. *)
Lemma zynq7000_memory_map m va :
  0 <= va < 2 ^ 32 ->
  walk (zynq7000_memoryInit m) va =
    Some (va, if (0x1fb00000 <=? va) && (va <? 0x20100000) then strongly_ordered
      else if (va <? 0x20100000) || (0xfff00000 <=? va) then cached else strongly_ordered).
Proof.
  intros V. destruct (sections_init_walk m va V) as [T W]. rewrite (proj1 (memoryInit_ranges m)).
  generalize dependent (mmu_init m). intros m0 T W.
  rewrite (map_ranges_spec (Translation0 := armv7_translation) _ _ va T V), W by (repeat constructor; by vm_compute).
  unfold range_view. cbn [foldl zynq7000_ranges]. clear T W.
  change (attrs MMU_FLAG_CACHED) with cached. change (attrs uncached_xn) with strongly_ordered.
  fold strongly_ordered. compare_ranges va.
Qed.

(** On the i.MX 6ULL. *)
Lemma imx6ull_memory_map m va :
  0 <= va < 2 ^ 32 ->
  walk (imx6ull_memoryInit m) va =
    Some (va, if (0x87e00000 <=? va) && (va <? 0x88000000) then strongly_ordered
      else if (0x80000000 <=? va) && (va <? 0x88000000) || (0x900000 <=? va) && (va <? 0xa00000) then cached
      else strongly_ordered).
Proof.
  intros V. destruct (sections_init_walk m va V) as [T W]. rewrite (proj2 (memoryInit_ranges m)).
  generalize dependent (mmu_init m). intros m0 T W.
  rewrite (map_ranges_spec (Translation0 := armv7_translation) _ _ va T V), W by (repeat constructor; by vm_compute).
  unfold range_view. cbn [foldl imx6ull_ranges]. clear T W.
  change (attrs MMU_FLAG_CACHED) with cached. change (attrs uncached_xn) with strongly_ordered.
  fold strongly_ordered. compare_ranges va.
Qed.

End mmu.
