(* ===== verification/DiskBios.v ===== *)
(** * Disks of the BIOS (src/devices/disk-bios/disk-bios.c)

    Disks behind interrupt 0x13, with a cache of one track segment for reads and one
    for writes in low memory.  The interrupt is the class [Int13]: the registers and
    packets the code hands to it, and the memory of the caches it transfers to and
    from.  [Int13_disks] states what it does with them.  The last part shows what the
    caches promise, and what they do not: [None] is a division by zero or an access
    outside the caches. *)

From S2P Require Import Prelude Mem Devs.

(** src/hal/ia32/peripherals.h, src/ld/ia32-generic.ldt *)
Definition DISKBIOS_FLOPPY_CNT := 1.
Definition DISKBIOS_HD_CNT := 4.
Definition DISKBIOS_MAX_CNT := DISKBIOS_FLOPPY_CNT + DISKBIOS_HD_CNT.
Definition ADDR_RCACHE := 0x78000.
Definition SIZE_RCACHE := 0x4000.
Definition ADDR_WCACHE := ADDR_RCACHE + SIZE_RCACHE.
Definition SIZE_WCACHE := 0x4000.

Definition SIZE_BLOCK := 0x200.
Definition DISK_READ := 0x2.
Definition DISK_WRITE := 0x3.
Definition BLOCKS_RCACHE := SIZE_RCACHE / SIZE_BLOCK.
Definition BLOCKS_WCACHE := SIZE_WCACHE / SIZE_BLOCK.

(** The geometry packet. *)
Record geo := mk_geo {
  g_len : Z; g_flags : Z; g_cyls : Z; g_heads : Z; g_secs : Z; g_size : Z; g_secsz : Z; g_edd : Z
}.

Record diskbios_t := mk_disk { dn : Z; lba : Z; d_geo : geo }.

(** The last read and the last written segment. *)
Record rtag := mk_rtag { lrdn : Z; lrc : Z; lrh : Z; lrp : Z }.
Record wtag := mk_wtag { lwdn : Z; lwc : Z; lwh : Z; lwp : Z; lwb : Z; lwe : Z }.

(** [diskbios_common] and the memory of both caches, from [ADDR_RCACHE] on. *)
Record common := mk_common { disks : list diskbios_t; rt : rtag; wt : wtag; cmem : list Z }.

(** ** Interrupt 0x13

    Every service answers the carry flag and [eax]. *)

(** The disk address packet. *)
Record dap := mk_dap { dap_len : Z; dap_res : Z; dap_secs : Z; dap_offs : Z; dap_seg : Z; dap_sec : Z }.

Class Int13 (W : Type) := {
  (* 0x41, extensions: [bx] and [cl] *)
  int13_extensions : Z -> W -> bool * Z * Z * Z * W;
  (* 0x48, extended parameters: the packet *)
  int13_ext_params : Z -> geo -> W -> bool * Z * geo * W;
  (* 0x08, parameters: [ch], [cl], [dh] *)
  int13_params : Z -> W -> bool * Z * Z * Z * Z * W;
  (* 0x42 and 0x43, extended transfer: [ax], the disk, the packet *)
  int13_ext : Z -> Z -> dap -> list Z -> W -> bool * Z * list Z * W;
  (* 0x02 and 0x03, transfer: [ax], [bx], [cx], [dx], [es] *)
  int13_chs : Z -> Z -> Z -> Z -> Z -> list Z -> W -> bool * Z * list Z * W
}.

(** [rolb $0x2] and [rorb $0x2] *)
Definition rolb2 (x : Z) : Z := Z.lor (w8 (Z.shiftl x 2)) (Z.shiftr x 6).
Definition rorb2 (x : Z) : Z := Z.lor (Z.shiftr x 2) (w8 (Z.shiftl x 6)).

Definition seg_of (buff : Z) : Z := w16 (Z.shiftr (Z.land buff 0xffff0000) 4).

Definition set_geo (d : diskbios_t) (g : geo) : diskbios_t := mk_disk (dn d) (lba d) g.

Section bios.
  Context {W : Type} `{Int13 W}.

Definition diskbios_lba (disk : diskbios_t) (w : W) : Z * W :=
  let '(cf, eax, bx, cl, w) := int13_extensions (dn disk) w in
  (if cf then eax else if negb (bx =? 0xaa55) then eax else if Z.land cl 1 =? 0 then eax else 0, w).

Definition diskbios_geometry (disk : diskbios_t) (w : W) : Z * diskbios_t * W :=
  let g := d_geo disk in
  let g := mk_geo 30 (g_flags g) (g_cyls g) (g_heads g) (g_secs g) (g_size g) SIZE_BLOCK (g_edd g) in
  if negb (lba disk =? 0) then
    let '(cf, eax, g, w) := int13_ext_params (dn disk) g w in
    (if cf then eax else 0, set_geo disk g, w)
  else
    let '(cf, eax, ch, cl, dh, w) := int13_params (dn disk) w in
    if cf then (eax, set_geo disk g, w)
    else
      let g := mk_geo (g_len g) (g_flags g) (Z.lor (Z.shiftl (rolb2 (Z.land cl 0xc0)) 8) ch + 1) (dh + 1) (Z.land cl 0x3f)
        (g_size g) (g_secsz g) (g_edd g) in
      (0, set_geo disk g, w).

(** [mem] is the memory of the caches; [n] is an [unsigned char]. *)
Definition diskbios_access (disk : diskbios_t) (mode c h s n buff : Z) (mem : list Z) (w : W) : Z * list Z * W :=
  let '(cf, eax, mem, w) :=
    if negb (lba disk =? 0) then
      let p := mk_dap 16 0 (w8 n) (w16 buff) (seg_of buff)
        (w64 ((c * g_heads (d_geo disk) + h) * g_secs (d_geo disk) + w32 (s - 1))) in
      int13_ext (Z.shiftl (w8 (mode + 0x40)) 8) (dn disk) p mem w
    else
      let cx := Z.land c 0xffff in
      let cl := rorb2 (Z.shiftr cx 8) in
      let cx := Z.lor (Z.lor (Z.shiftl (Z.land cx 0xff) 8) cl) (Z.land s 0xff) in
      int13_chs (Z.lor (Z.shiftl mode 8) (w8 n)) (Z.land buff 0xffff) cx (Z.lor (Z.shiftl (Z.land h 0xff) 8) (dn disk))
        (seg_of buff) mem w in
  (if cf then eax else 0, mem, w).

(** ** The driver *)

(** The last comparison is between an [unsigned char] and -1. *)
Definition diskbios_get (s : common) (minor : Z) : option diskbios_t :=
  if DISKBIOS_MAX_CNT <=? minor then None
  else disk ← disks s !! Z.to_nat minor; if dn disk =? -1 then None else Some disk.

(** Cylinder, head and sector of a block; the divisors come from the BIOS. *)
Definition block_chs (disk : diskbios_t) (sb : Z) : option (Z * Z * Z) :=
  let g := d_geo disk in
  if (g_secs g =? 0) || (g_heads g =? 0) then None
  else Some (w32 (sb / g_secs g / g_heads g), (sb / g_secs g) mod g_heads g, sb mod g_secs g).

(** The loop of [diskbios_read]: [k] blocks left, [buff] read so far. *)
Fixpoint read_loop (k : nat) (disk : diskbios_t) (sb eb offs len : Z) (buff : list Z) (s : common) (w : W)
    : option (Z * list Z * common * W) :=
  match k with
  | O => Some (s32 (zlen buff), buff, s, w)
  | S k =>
      '(c, h, sec) ← block_chs disk sb;
      let p := sec / BLOCKS_RCACHE * BLOCKS_RCACHE in
      let miss := negb (dn disk =? lrdn (rt s)) || negb (c =? lrc (rt s)) || negb (h =? lrh (rt s)) || negb (p =? lrp (rt s)) in
      let '(res, mem, w) :=
        if miss then
          diskbios_access disk DISK_READ c h (w32 (p + 1)) (Z.min BLOCKS_RCACHE (g_secs (d_geo disk) - p)) ADDR_RCACHE (cmem s) w
        else (0, cmem s, w) in
      if negb (res =? 0) then Some (- EIO, buff, mk_common (disks s) (rt s) (wt s) mem, w)
      else
        let s := mk_common (disks s) (if miss then mk_rtag (dn disk) c h p else rt s) (wt s) mem in
        let size := if sb =? eb then w32 (len - zlen buff) else SIZE_BLOCK - offs mod SIZE_BLOCK in
        bs ← mbytes (cmem s) (sec mod BLOCKS_RCACHE * SIZE_BLOCK + offs mod SIZE_BLOCK) size;
        read_loop k disk (sb + 1) eb (w32 (offs + size)) len (buff ++ bs) s w
  end.

(** The result and the bytes stored to [buff]. *)
Definition diskbios_read (minor offs len timeout : Z) (s : common) (w : W) : option (Z * list Z * common * W) :=
  match diskbios_get s minor with
  | None => Some (- EINVAL, [], s, w)
  | Some disk =>
      if len =? 0 then Some (0, [], s, w)
      else
        let sb := offs / SIZE_BLOCK in
        let eb := w32 (offs + len - 1) / SIZE_BLOCK in
        read_loop (Z.to_nat (eb - sb + 1)) disk sb eb offs len [] s w
  end.

(** The write cache to the disk, as [diskbios_write] and [diskbios_sync] do it. *)
Definition wcache_flush (disk : diskbios_t) (s : common) (w : W) : Z * common * W :=
  let t := wt s in
  let '(res, mem, w) :=
    diskbios_access disk DISK_WRITE (lwc t) (lwh t) (w32 (lwp t + lwb t + 1)) (lwe t - lwb t) (ADDR_WCACHE + lwb t * SIZE_BLOCK)
      (cmem s) w in
  if negb (res =? 0) then (- EIO, mk_common (disks s) (rt s) t mem, w)
  else (EOK, mk_common (disks s) (rt s) (mk_wtag (lwdn t) (lwc t) (lwh t) (lwp t) 0 0) mem, w).

(** The condition on which [diskbios_write] flushes. *)
Definition must_flush (disk : diskbios_t) (c h b p : Z) (t : wtag) : bool :=
  negb (lwb t =? lwe t) &&
  (negb (dn disk =? lwdn t) || negb (c =? lwc t) || negb (h =? lwh t) || negb (p =? lwp t) || (b + 1 <? lwb t) || (lwe t <? b)).

(** The segment that is pending after block [b] was put into the cache. *)
Definition wtag_put (disk : diskbios_t) (c h b p : Z) (t : wtag) : wtag :=
  let '(lwb, lwe) :=
    if lwb t =? lwe t then (b, b + 1)
    else if b + 1 =? lwb t then (lwb t - 1, lwe t)
    else if b =? lwe t then (lwb t, lwe t + 1)
    else (lwb t, lwe t) in
  mk_wtag (dn disk) c h p lwb lwe.

(** The loop of [diskbios_write]: [n] bytes of [buff] are written. *)
Fixpoint write_loop (k : nat) (disk : diskbios_t) (sb eb offs n : Z) (buff : list Z) (s : common) (w : W)
    : option (Z * common * W) :=
  match k with
  | O => Some (s32 n, s, w)
  | S k =>
      '(c, h, sec) ← block_chs disk sb;
      let b := sec mod BLOCKS_WCACHE in
      let p := sec / BLOCKS_WCACHE * BLOCKS_WCACHE in
      let '(res, s, w) := if must_flush disk c h b p (wt s) then wcache_flush disk s w else (EOK, s, w) in
      if res <? 0 then Some (res, s, w)
      else
        let size := if sb =? eb then w32 (zlen buff - n) else SIZE_BLOCK - offs mod SIZE_BLOCK in
        mem ← mstore (cmem s) (SIZE_RCACHE + b * SIZE_BLOCK + offs mod SIZE_BLOCK) (zslice n size buff);
        let s := mk_common (disks s) (rt s) (wtag_put disk c h b p (wt s)) mem in
        write_loop k disk (sb + 1) eb (w32 (offs + size)) (n + size) buff s w
  end.

Definition diskbios_write (minor offs : Z) (buff : list Z) (s : common) (w : W) : option (Z * common * W) :=
  match diskbios_get s minor with
  | None => Some (- EINVAL, s, w)
  | Some disk =>
      if zlen buff =? 0 then Some (0, s, w)
      else
        let sb := offs / SIZE_BLOCK in
        let eb := w32 (offs + zlen buff - 1) / SIZE_BLOCK in
        write_loop (Z.to_nat (eb - sb + 1)) disk sb eb offs 0 buff s w
  end.

Definition diskbios_sync (minor : Z) (s : common) (w : W) : Z * common * W :=
  match diskbios_get s minor with
  | None => (- EINVAL, s, w)
  | Some disk =>
      if negb (lwb (wt s) =? lwe (wt s)) && (dn disk =? lwdn (wt s)) then wcache_flush disk s w else (EOK, s, w)
  end.

Definition diskbios_map (minor addr sz mode memaddr memsz memmode : Z) (s : common) : Z :=
  match diskbios_get s minor with
  | None => - EINVAL
  | Some _ => if negb (Z.land mode memmode =? mode) then - EINVAL else dev_isNotMappable
  end.

Definition diskbios_done (minor : Z) (s : common) (w : W) : Z * common * W := diskbios_sync minor s w.

Definition diskbios_init (minor : Z) (s : common) (w : W) : Z * common * W :=
  match diskbios_get s minor with
  | None => (- EINVAL, s, w)
  | Some disk =>
      let set d := mk_common (<[Z.to_nat minor := d]> (disks s)) (rt s) (wt s) (cmem s) in
      let disk := mk_disk (w8 (if DISKBIOS_FLOPPY_CNT <=? minor then minor + 0x80 - DISKBIOS_FLOPPY_CNT else minor)) 0 (d_geo disk) in
      let '(res, w) := diskbios_lba disk w in
      let disk := mk_disk (dn disk) (if negb (res =? 0) then 0 else 1) (d_geo disk) in
      let '(res, disk, w) := diskbios_geometry disk w in
      if negb (res =? 0) then (- ENODEV, set (mk_disk (w8 (-1)) (lba disk) (d_geo disk)), w)
      else (EOK, set disk, w)
  end.

End bios.

(** Static storage after [diskbios_register]; the memory of the caches is whatever
    it was. *)
Definition diskbios_register (mem : list Z) : common :=
  mk_common (replicate (Z.to_nat DISKBIOS_MAX_CNT) (mk_disk 0 0 (mk_geo 0 0 0 0 0 0 0 0)))
    (mk_rtag (w8 (-1)) 0 0 0) (mk_wtag (w8 (-1)) 0 0 0 0 0) mem.

(** ** What the interrupt does

    [disk_of w d] are the bytes of disk [d].  A transfer moves whole sectors between
    the disk and memory; it is specified by the number of its first sector, whatever
    addresses it. *)

Section transfer.
  Context {W : Type} (disk_of : W -> Z -> list Z).

Definition transfer (mode d sector count addr : Z) (mem : list Z) (w : W) (mem' : list Z) (w' : W) : Prop :=
  (forall d', d' <> d -> disk_of w' d' = disk_of w d') /\
  if mode =? DISK_READ then
    mem' = splice (addr - ADDR_RCACHE) (zslice (sector * SIZE_BLOCK) (count * SIZE_BLOCK) (disk_of w d)) mem /\
    disk_of w' d = disk_of w d
  else
    mem' = mem /\
    disk_of w' d = splice (sector * SIZE_BLOCK) (zslice (addr - ADDR_RCACHE) (count * SIZE_BLOCK) mem) (disk_of w d).
End transfer.

(** The memory of a transfer lies in the caches. *)
Definition in_caches (addr count : Z) (mem : list Z) : Prop :=
  ADDR_RCACHE <= addr /\ addr + count * SIZE_BLOCK <= ADDR_RCACHE + zlen mem.

(** [chs_geo] are the cylinders, heads and sectors of a disk addressed by them. *)
Class Int13_disks (W : Type) `{Int13 W} := {
  disk_of : W -> Z -> list Z;
  chs_geo : Z -> Z * Z * Z;
  ext_law : forall mode d p mem w,
    mode = DISK_READ \/ mode = DISK_WRITE -> dap_len p = 16 -> dap_res p = 0 -> 0 < dap_secs p -> 0 <= dap_sec p ->
    (dap_sec p + dap_secs p) * SIZE_BLOCK <= zlen (disk_of w d) -> in_caches (dap_seg p * 16 + dap_offs p) (dap_secs p) mem ->
    exists eax mem' w', int13_ext (Z.shiftl (mode + 0x40) 8) d p mem w = (false, eax, mem', w') /\
      transfer disk_of mode d (dap_sec p) (dap_secs p) (dap_seg p * 16 + dap_offs p) mem w mem' w';
  chs_law : forall mode n bx cx dx es mem w,
    let '(cyls, heads, secs) := chs_geo (dx mod 256) in
    let c := cx / 256 + cx mod 256 / 64 * 256 in
    let h := dx / 256 in
    let s := cx mod 64 in
    mode = DISK_READ \/ mode = DISK_WRITE -> 0 < n < 256 -> c < cyls -> h < heads -> 1 <= s -> s + n - 1 <= secs ->
    in_caches (es * 16 + bx) n mem ->
    exists eax mem' w', int13_chs (mode * 256 + n) bx cx dx es mem w = (false, eax, mem', w') /\
      transfer disk_of mode (dx mod 256) ((c * heads + h) * secs + s - 1) n (es * 16 + bx) mem w mem' w'
}.

(** ** Addresses of sectors *)

Lemma seg_offs buff : 0 <= buff < 2 ^ 20 -> seg_of buff * 16 + w16 buff = buff.
Proof.
  intros B. unfold seg_of.
  replace (Z.land buff 0xffff0000) with (buff / 65536 * 65536).
  { rewrite Z.shiftr_div_pow2 by lia. mlia. }
  change 0xffff0000 with (Z.ldiff (Z.ones 32) 0xffff). rewrite Z.ldiff_land, Z.land_assoc, Z.land_ones by lia.
  rewrite Z.mod_small, <- Z.ldiff_land, ldiff_ffff by lia. done.
Qed.

(** The register of cylinder and sector is taken apart as it was put together. *)
Lemma chs_decode c s :
  0 <= c < 1024 -> 0 <= s < 64 ->
  let cx := Z.lor (Z.lor (Z.shiftl (Z.land (Z.land c 0xffff) 0xff) 8) (rorb2 (Z.shiftr (Z.land c 0xffff) 8))) (Z.land s 0xff) in
  cx / 256 + cx mod 256 / 64 * 256 = c /\ cx mod 64 = s.
Proof.
  intros C S. cbv zeta. rewrite land_ffff, (Z.mod_small c), !land_ff, (Z.mod_small s), Z.shiftr_div_pow2 by lia.
  assert (R : rorb2 (c / 2 ^ 8) = c / 256 * 64).
  { assert (Q : 0 <= c / 256 < 4) by modlia. change (2 ^ 8) with 256. set (q := c / 256) in *. clearbody q.
    assert (q = 0 \/ q = 1 \/ q = 2 \/ q = 3) as [->|[->|[->| ->]]] by lia; reflexivity. }
  rewrite R. set (q := c / 256). assert (Q : 0 <= q < 4) by (unfold q; modlia).
  assert (E : Z.lor (Z.lor (Z.shiftl (c mod 256) 8) (q * 64)) s = c mod 256 * 256 + q * 64 + s).
  { rewrite <- Z.lor_assoc, (Z.lor_comm (q * 64)), (lor_add s _ 6 q), Z.lor_comm, (lor_add _ _ 8 (c mod 256))
      by (rewrite ?Z.shiftl_mul_pow2 by lia; lia). rewrite Z.shiftl_mul_pow2 by lia. lia. }
  rewrite E. unfold q. split; modlia.
Qed.

Section disks.
  Context {W : Type} `{Int13_disks W} (d : diskbios_t).

Abbreviation heads := (g_heads (d_geo d)).
Abbreviation secs := (g_secs (d_geo d)).

(** What the driver knows of a disk agrees with the disk: whole tracks, and with the
    sectors addressed by cylinder and head, the limits of that addressing. *)
Record disk_ok (w : W) : Prop := {
  ok_dn : 0 <= dn d < 256;
  ok_heads : 0 < heads < 2 ^ 32;
  ok_secs : 0 < secs < 2 ^ 32;
  ok_tracks : (secs * SIZE_BLOCK | zlen (disk_of w (dn d)));
  ok_chs : lba d = 0 -> exists cyls, chs_geo (dn d) = (cyls, heads, secs) /\ cyls <= 1024 /\ heads <= 256 /\ secs <= 63 /\
    zlen (disk_of w (dn d)) = cyls * heads * secs * SIZE_BLOCK
}.

Lemma disk_ok_ext w w' : zlen (disk_of w' (dn d)) = zlen (disk_of w (dn d)) -> disk_ok w -> disk_ok w'.
Proof. intros E [A B C D F]. split; rewrite ?E; done. Qed.

(** The first sector of a track. *)
Lemma track_pos w c h : disk_ok w -> 0 <= c -> 0 <= h -> 0 <= (c * heads + h) * secs.
Proof.
  intros O C Hh. pose proof (ok_heads w O). pose proof (ok_secs w O). pose proof (Z.mul_nonneg_nonneg c heads).
  apply Z.mul_nonneg_nonneg; lia.
Qed.

Abbreviation sector c h s := ((c * heads + h) * secs + s - 1).

Lemma access_spec mode c h s n buff mem w :
  disk_ok w -> mode = DISK_READ \/ mode = DISK_WRITE -> 0 <= c < 2 ^ 30 -> 0 <= h < heads -> 1 <= s -> 0 < n <= 32 -> s + n - 1 <= secs ->
  (sector c h s + n) * SIZE_BLOCK <= zlen (disk_of w (dn d)) -> zlen mem = SIZE_RCACHE + SIZE_WCACHE -> in_caches buff n mem ->
  sector c h s < 2 ^ 64 ->
  exists mem' w', diskbios_access d mode c h s n buff mem w = (0, mem', w') /\
    transfer disk_of mode (dn d) (sector c h s) n buff mem w mem' w'.
Proof.
  intros O M C Hh S N L Sz Lm I T. pose proof I as [I1 I2]. rewrite Lm in I2. unfold ADDR_RCACHE, SIZE_RCACHE, SIZE_WCACHE, SIZE_BLOCK in I1, I2.
  assert (A : seg_of buff * 16 + w16 buff = buff) by (apply seg_offs; lia).
  assert (N8 : w8 n = n) by (apply Z.mod_small; lia). pose proof (ok_secs w O) as Os.
  assert (Sp : 0 <= (c * heads + h) * secs) by (apply (track_pos w); lia || done).
  unfold diskbios_access. destruct (Z.eqb_spec (lba d) 0) as [E|E]; cbn [negb].
  - destruct (ok_chs w O E) as (cyls & G & B1 & B2 & B3 & B4).
    set (cx := Z.lor _ (Z.land s 0xff)).
    assert (Cc : c < cyls).
    { destruct (Z.lt_ge_cases c cyls) as [|Ge]; [done|]. pose proof (Z.mul_le_mono_nonneg_r cyls c (heads * secs) ltac:(nia) Ge).
      pose proof (Z.mul_nonneg_nonneg h secs ltac:(lia) ltac:(lia)). unfold SIZE_BLOCK in *. lia. }
    destruct (chs_decode c s) as [D1 D2]; [lia..|]. cbv zeta in D1, D2. fold cx in D1, D2.
    set (dx := Z.lor (Z.shiftl (Z.land h 0xff) 8) (dn d)). assert (Ex : dx = h * 256 + dn d).
    { unfold dx. pose proof (ok_dn w O). rewrite land_ff, Z.mod_small, Z.lor_comm, lor_shiftl_add by lia. lia. }
    assert (Dx : dx / 256 = h /\ dx mod 256 = dn d) by (pose proof (ok_dn w O); rewrite Ex; modlia). destruct Dx as [Dh Dd].
    assert (Ax : Z.lor (Z.shiftl mode 8) n = mode * 256 + n) by (rewrite Z.lor_comm, lor_shiftl_add by lia; lia).
    rewrite N8, Ax, land_ffff. change (buff mod 65536) with (w16 buff).
    pose proof (chs_law mode n (w16 buff) cx dx (seg_of buff) mem w) as Law. rewrite Dd, G, D1, D2, Dh, A in Law. cbv zeta in Law.
    destruct Law as (eax & mem' & w' & -> & Tr); [done|lia..|done|].
    by exists mem', w'.
  - assert (Ax : w8 (mode + 0x40) = mode + 0x40) by (destruct M as [-> | ->]; done).
    rewrite N8, Ax, (w32_small (s - 1)) by lia.
    replace ((c * heads + h) * secs + (s - 1)) with (sector c h s) by lia.
    unfold w64. rewrite (Z.mod_small (sector c h s)) by lia. set (p := mk_dap _ _ _ _ _ _).
    destruct (ext_law mode (dn d) p mem w) as (eax & mem' & w' & -> & Tr); cbn [p dap_len dap_res dap_secs dap_sec dap_seg dap_offs];
      [done|done|done|lia|lia|done|by rewrite A|].
    exists mem', w'. split; [done|]. cbn [p dap_secs dap_sec dap_seg dap_offs] in Tr. by rewrite A in Tr.
Qed.

(** ** The write cache

    First block of the pending segment's part of the track, and the disk as it is
    once the segment is written back. *)
Definition seg_base (t : wtag) : Z := (lwc t * heads + lwh t) * secs + lwp t.

Definition disk_view (s : common) (w : W) : list Z :=
  let t := wt s in
  splice ((seg_base t + lwb t) * SIZE_BLOCK) (zslice (SIZE_RCACHE + lwb t * SIZE_BLOCK) ((lwe t - lwb t) * SIZE_BLOCK) (cmem s))
    (disk_of w (dn d)).

(** A pending segment is of this disk and lies in one track. *)
Record wcache_ok (s : common) (w : W) : Prop := {
  wc_mem : zlen (cmem s) = SIZE_RCACHE + SIZE_WCACHE;
  wc_seg : 0 <= lwb (wt s) <= lwe (wt s) /\ lwe (wt s) <= BLOCKS_WCACHE;
  wc_empty : lwb (wt s) = lwe (wt s) -> lwb (wt s) = 0;
  wc_track : lwb (wt s) < lwe (wt s) ->
    lwdn (wt s) = dn d /\ 0 <= lwc (wt s) < 2 ^ 30 /\ 0 <= lwh (wt s) < heads /\ 0 <= lwp (wt s) /\
    lwp (wt s) + lwe (wt s) <= secs /\ (seg_base (wt s) + lwe (wt s)) * SIZE_BLOCK <= zlen (disk_of w (dn d)) /\
    seg_base (wt s) < 2 ^ 63
}.

(** An empty cache. *)
Definition wcache_empty (s : common) : Prop := lwb (wt s) = 0 /\ lwe (wt s) = 0.

Lemma view_empty s w : wcache_empty s -> disk_view s w = disk_of w (dn d).
Proof. intros [B E]. unfold disk_view. cbn zeta. by rewrite B, E, zslice_nil, splice_nil. Qed.

Lemma disk_view_length s w : disk_ok w -> wcache_ok s w -> zlen (disk_view s w) = zlen (disk_of w (dn d)).
Proof.
  intros O Wk. destruct (wc_seg s w Wk) as [Sg Sg']. destruct (Z.eqb_spec (lwb (wt s)) (lwe (wt s))) as [E|N].
  { pose proof (wc_empty s w Wk E). rewrite view_empty; [done|split; lia]. }
  destruct (wc_track s w Wk) as (_ & C & Hh & P & _ & Sz & _); [lia|].
  unfold disk_view. cbv zeta. pose proof (wc_mem s w Wk). unfold seg_base, BLOCKS_WCACHE, SIZE_RCACHE, SIZE_WCACHE, SIZE_BLOCK in *.
  change (0x4000 / 0x200) with 32 in *. pose proof (track_pos w (lwc (wt s)) (lwh (wt s)) O).
  rewrite length_splice; [done|lia|]. rewrite length_zslice by lia. lia.
Qed.

Lemma wcache_flush_spec s w :
  disk_ok w -> wcache_ok s w -> lwb (wt s) < lwe (wt s) ->
  exists s' w', wcache_flush d s w = (EOK, s', w') /\ disk_of w' (dn d) = disk_view s w /\
    (forall d', d' <> dn d -> disk_of w' d' = disk_of w d') /\
    disks s' = disks s /\ rt s' = rt s /\ cmem s' = cmem s /\ wcache_empty s'.
Proof.
  intros O Wk Lt. destruct (wc_track s w Wk Lt) as (Dn & C & Hh & P & Ps & Sz & B63). destruct (wc_seg s w Wk) as [B E].
  unfold BLOCKS_WCACHE, SIZE_WCACHE, SIZE_BLOCK in E. change (0x4000 / 0x200) with 32 in E.
  pose proof (ok_secs w O) as Os. pose proof (wc_mem s w Wk) as Lm. unfold seg_base in *. unfold wcache_flush. set (t := wt s) in *.
  rewrite (w32_small (lwp t + lwb t + 1)) by lia.
  destruct (access_spec DISK_WRITE (lwc t) (lwh t) (lwp t + lwb t + 1) (lwe t - lwb t) (ADDR_WCACHE + lwb t * SIZE_BLOCK) (cmem s) w)
    as (mem' & w' & -> & Od & -> & Eq); [done|by right|lia..| |done| |lia|].
  - unfold SIZE_BLOCK in *. lia.
  - unfold in_caches. rewrite Lm. unfold ADDR_WCACHE, ADDR_RCACHE, SIZE_RCACHE, SIZE_WCACHE, SIZE_BLOCK. lia.
  - eexists _, w'. split; [done|]. split; [|by repeat split].
    rewrite Eq. unfold disk_view, seg_base. cbn zeta. fold t. f_equal; [f_equal; lia|]. f_equal. unfold ADDR_WCACHE. lia.
Qed.

(** ** One block

    The block [sb] lies in track [c], [h] at [p + b]. *)
Lemma block_chs_spec w sb :
  disk_ok w -> 0 <= sb < 2 ^ 30 ->
  exists c h sec, block_chs d sb = Some (c, h, sec) /\ 0 <= c < 2 ^ 30 /\ 0 <= h < heads /\ 0 <= sec < secs /\
    (c * heads + h) * secs + sec = sb.
Proof.
  intros O S. pose proof (ok_heads w O). pose proof (ok_secs w O). unfold block_chs.
  destruct (Z.eqb_spec secs 0), (Z.eqb_spec heads 0); try lia. cbn [orb].
  pose proof (Z.mod_pos_bound (sb / secs) heads ltac:(lia)). pose proof (Z.mod_pos_bound sb secs ltac:(lia)).
  pose proof (Z.div_mod sb secs ltac:(lia)). pose proof (Z.div_mod (sb / secs) heads ltac:(lia)).
  assert (0 <= sb / secs <= sb) by (split; [apply Z.div_pos; lia|apply Z.div_le_upper_bound; nia]).
  assert (0 <= sb / secs / heads <= sb / secs) by (split; [apply Z.div_pos; lia|apply Z.div_le_upper_bound; nia]).
  eexists _, _, _. split; [reflexivity|]. rewrite w32_small by lia. split_and!; lia.
Qed.

(** Position of a block in its cache segment. *)
Lemma block_pos blocks sec : 0 < blocks -> 0 <= sec -> 0 <= sec mod blocks < blocks /\ 0 <= sec / blocks * blocks /\ sec / blocks * blocks + sec mod blocks = sec.
Proof. intros B S. pose proof (Z.div_mod sec blocks ltac:(lia)). pose proof (Z.mod_pos_bound sec blocks B).
  pose proof (Z.div_pos sec blocks S B). split_and!; nia. Qed.

(** A block that joins the pending segment. *)
Lemma put_block s w sb c h b p data :
  disk_ok w -> wcache_ok s w -> must_flush d c h b p (wt s) = false ->
  0 <= c < 2 ^ 30 -> 0 <= h < heads -> 0 <= p -> 0 <= b < 32 -> p + b < secs ->
  (c * heads + h) * secs + (p + b) = sb -> 0 <= sb < 2 ^ 30 -> (sb + 1) * SIZE_BLOCK <= zlen (disk_of w (dn d)) -> zlen data = SIZE_BLOCK ->
  let s' := mk_common (disks s) (rt s) (wtag_put d c h b p (wt s)) (splice (SIZE_RCACHE + b * SIZE_BLOCK) data (cmem s)) in
  wcache_ok s' w /\ disk_view s' w = splice (sb * SIZE_BLOCK) data (disk_view s w) /\ rt s' = rt s.
Proof.
  intros O Wk M C Hh P B Pb Eb Sb Sz Ld. destruct (wc_seg s w Wk) as [Bg En]. pose proof (wc_mem s w Wk) as Lm.
  pose proof (wc_empty s w Wk) as Em. pose proof (wc_track s w Wk) as Tr. unfold seg_base in Tr. cbv zeta.
  unfold must_flush in M. unfold disk_view, wtag_put, seg_base. cbn [wt cmem rt]. set (t := wt s) in *.
  unfold BLOCKS_WCACHE, SIZE_RCACHE, SIZE_WCACHE, SIZE_BLOCK in *. change (0x4000 / 0x200) with 32 in *.
  assert (Lsp : zlen (splice (0x4000 + b * 0x200) data (cmem s)) = 0x4000 + 0x4000) by (rewrite length_splice; lia).
  assert (Base : (c * heads + h) * secs + p = sb - b) by lia.
  assert (Dk : 0 <= (c * heads + h) * secs) by (apply (track_pos w); lia || done).
  destruct (Z.eqb_spec (lwb t) (lwe t)) as [E|E]; cbn [negb andb] in M.
  - split_and!; [|cbn [lwb lwe lwc lwh lwp]|done].
    + split; cbn [wt cmem lwb lwe lwdn lwc lwh lwp]; unfold BLOCKS_WCACHE, SIZE_RCACHE, SIZE_WCACHE, SIZE_BLOCK, seg_base;
        cbn [lwc lwh lwp]; change (0x4000 / 0x200) with 32; try done; lia.
    + rewrite Base, E, Z.sub_diag, zslice_nil, splice_nil. replace (b + 1 - b) with 1 by lia.
      rewrite zslice_splice_same by lia. f_equal. lia.
  - apply orb_false_elim in M as [M M6]. apply orb_false_elim in M as [M M5]. apply orb_false_elim in M as [M M4].
    apply orb_false_elim in M as [M M3]. apply orb_false_elim in M as [M1 M2].
    apply negb_false_iff, Z.eqb_eq in M1, M2, M3, M4. apply Z.ltb_ge in M5, M6.
    assert (Lz : zlen (zslice (0x4000 + lwb t * 0x200) ((lwe t - lwb t) * 0x200) (cmem s)) = (lwe t - lwb t) * 0x200)
      by (apply length_zslice; lia).
    destruct Tr as (_ & _ & _ & _ & T5 & T6 & T7); [lia|]. rewrite <- M2, <- M3, <- M4 in *.
    destruct (Z.eqb_spec (b + 1) (lwb t)); [|destruct (Z.eqb_spec b (lwe t))];
      (split_and!; [split; cbn [wt cmem lwb lwe lwdn lwc lwh lwp]; unfold BLOCKS_WCACHE, SIZE_RCACHE, SIZE_WCACHE, SIZE_BLOCK, seg_base;
        cbn [lwc lwh lwp]; change (0x4000 / 0x200) with 32;
        try done; lia| |done]); cbn [lwb lwe lwc lwh lwp]; rewrite Base; slots.
Qed.

(** ** Writing whole blocks *)

(** The write-back before a block that does not join the segment. *)
Lemma write_flush c h b p s w :
  disk_ok w -> wcache_ok s w ->
  exists s' w', (if must_flush d c h b p (wt s) then wcache_flush d s w else (EOK, s, w)) = (EOK, s', w') /\
    must_flush d c h b p (wt s') = false /\ disk_view s' w' = disk_view s w /\ disk_ok w' /\ wcache_ok s' w' /\
    zlen (disk_of w' (dn d)) = zlen (disk_of w (dn d)) /\
    (forall d', d' <> dn d -> disk_of w' d' = disk_of w d') /\ rt s' = rt s /\ disks s' = disks s.
Proof.
  intros O Wk. destruct (must_flush d c h b p (wt s)) eqn:M; [|exists s, w; by split_and!].
  assert (Lt : lwb (wt s) < lwe (wt s)).
  { destruct (wc_seg s w Wk) as [B _]. unfold must_flush in M. destruct (Z.eqb_spec (lwb (wt s)) (lwe (wt s))); [done|lia]. }
  destruct (wcache_flush_spec s w O Wk Lt) as (s' & w' & E & Dv & Od & Ds & Rs & Ms & [Eb Ee]).
  assert (Lz : zlen (disk_of w' (dn d)) = zlen (disk_of w (dn d))) by (rewrite Dv; by apply disk_view_length).
  exists s', w'. split; [done|]. split; [by unfold must_flush; rewrite Eb, Ee|]. split; [by rewrite view_empty, Dv|].
  split; [by apply (disk_ok_ext w)|]. split; [|done].
  split; rewrite ?Ms, ?Eb, ?Ee; [apply Wk|done|done|done].
Qed.

Lemma write_loop_spec k sb eb n buff s w :
  disk_ok w -> wcache_ok s w -> 0 <= sb -> sb + Z.of_nat k = eb + 1 -> 0 <= n -> zlen buff = n + Z.of_nat k * SIZE_BLOCK ->
  zlen buff < 2 ^ 31 -> (eb + 1) * SIZE_BLOCK <= zlen (disk_of w (dn d)) -> (eb + 1) * SIZE_BLOCK < 2 ^ 32 ->
  exists s' w', write_loop k d sb eb (sb * SIZE_BLOCK) n buff s w = Some (zlen buff, s', w') /\
    disk_view s' w' = splice (sb * SIZE_BLOCK) (zslice n (Z.of_nat k * SIZE_BLOCK) buff) (disk_view s w) /\
    disk_ok w' /\ wcache_ok s' w' /\ zlen (disk_of w' (dn d)) = zlen (disk_of w (dn d)) /\
    (forall d', d' <> dn d -> disk_of w' d' = disk_of w d') /\ rt s' = rt s /\ disks s' = disks s.
Proof.
  revert sb n s w. induction k as [|k IH]; intros sb n s w O Wk Sb Ek N Lb L31 Sz S32; cbn [write_loop].
  { exists s, w. assert (zlen buff = n) as -> by lia. rewrite s32_small by lia. split; [done|].
    rewrite zslice_nil, splice_nil. by split_and!. }
  destruct (block_chs_spec w sb O) as (c & h & sec & -> & C & Hh & Sc & Es); [unfold SIZE_BLOCK in *; lia|]. cbn [mbind option_bind].
  destruct (block_pos BLOCKS_WCACHE sec) as (B & P & Pb); [done|lia|]. change BLOCKS_WCACHE with 32 in *.
  set (b := sec mod 32) in *. set (p := sec / 32 * 32) in *.
  destruct (write_flush c h b p s w O Wk) as (s1 & w1 & -> & M & V1 & O1 & Wk1 & L1 & Od1 & R1 & D1).
  change (EOK <? 0) with false. cbv match.
  assert (Al : sb * SIZE_BLOCK mod SIZE_BLOCK = 0) by (unfold SIZE_BLOCK; apply Z.mod_mul; lia).
  set (size := if sb =? eb then _ else _). assert (Ez : size = SIZE_BLOCK).
  { unfold size. rewrite Al, Z.sub_0_r. destruct (Z.eqb_spec sb eb); [|done]. rewrite w32_small; unfold SIZE_BLOCK in *; lia. }
  clearbody size. subst size. rewrite Al, Z.add_0_r.
  assert (Lz : zlen (zslice n SIZE_BLOCK buff) = SIZE_BLOCK) by (apply length_zslice; unfold SIZE_BLOCK in *; lia).
  pose proof (wc_mem s1 w1 Wk1) as Lm. rewrite mstore_ok by (rewrite ?Lz, ?Lm; unfold SIZE_RCACHE, SIZE_WCACHE, SIZE_BLOCK; lia).
  cbn [mbind option_bind].
  destruct (put_block s1 w1 sb c h b p (zslice n SIZE_BLOCK buff)) as (Wk2 & V2 & R2);
    [done|done|done|done|done|lia|done|lia|lia|unfold SIZE_BLOCK in *; lia|rewrite L1; unfold SIZE_BLOCK in *; lia|done|].
  cbv zeta in Wk2, V2. set (s2 := mk_common _ _ _ _) in *.
  destruct (Z.eqb_spec (Z.of_nat k) 0) as [K0|K0].
  - assert (k = 0)%nat as -> by lia. cbn [write_loop]. exists s2, w1.
    assert (zlen buff = n + SIZE_BLOCK) as -> by lia. rewrite s32_small by (unfold SIZE_BLOCK in *; lia). split; [done|]. rewrite V2, V1, Z.mul_1_l. by rewrite R1 in R2; split_and!.
  - rewrite w32_small by (unfold SIZE_BLOCK in *; lia).
    replace (sb * SIZE_BLOCK + SIZE_BLOCK) with ((sb + 1) * SIZE_BLOCK) by lia.
    destruct (IH (sb + 1) (n + SIZE_BLOCK) s2 w1) as (s' & w' & E & V & O' & Wk' & L' & Od' & R' & D');
      [done|done|lia|lia|unfold SIZE_BLOCK; lia|lia|done|by rewrite L1|done|].
    exists s', w'. split; [done|]. split.
    + rewrite V, V2, V1. replace ((sb + 1) * SIZE_BLOCK) with (sb * SIZE_BLOCK + zlen (zslice n SIZE_BLOCK buff)) by lia.
      assert (Lz2 : zlen (zslice (n + SIZE_BLOCK) (Z.of_nat k * SIZE_BLOCK) buff) = Z.of_nat k * SIZE_BLOCK)
        by (apply length_zslice; unfold SIZE_BLOCK in *; lia).
      rewrite splice_app by (rewrite ?disk_view_length, ?Lz, ?Lz2 by done; unfold SIZE_BLOCK in *; lia).
      f_equal. rewrite <- zslice_app by lia. f_equal. lia.
    + rewrite L', L1, R', D'. split_and!; try done; try (by rewrite R2, R1). intros d' Nd. by rewrite Od', Od1.
Qed.

(** ** The read cache

    When it holds a segment of this disk, the segment is as it is on the disk. *)
Abbreviation segment p := (Z.min BLOCKS_RCACHE (secs - p)).

Definition rcache_holds (c h p : Z) (mem : list Z) (w : W) : Prop :=
  zslice 0 (segment p * SIZE_BLOCK) mem =
  zslice (((c * heads + h) * secs + p) * SIZE_BLOCK) (segment p * SIZE_BLOCK) (disk_of w (dn d)).

Record rcache_ok (s : common) (w : W) : Prop := {
  rc_mem : zlen (cmem s) = SIZE_RCACHE + SIZE_WCACHE;
  rc_tag : lrdn (rt s) = dn d -> rcache_holds (lrc (rt s)) (lrh (rt s)) (lrp (rt s)) (cmem s) w
}.

(** A whole track segment lies on the disk. *)
Lemma segment_on_disk w c h sec sb :
  disk_ok w -> 0 <= c -> 0 <= h < heads -> 0 <= sec < secs -> (c * heads + h) * secs + sec = sb ->
  (sb + 1) * SIZE_BLOCK <= zlen (disk_of w (dn d)) -> (((c * heads + h) * secs) + secs) * SIZE_BLOCK <= zlen (disk_of w (dn d)).
Proof.
  intros O C Hh Sc Es Sz. destruct (ok_tracks w O) as [tr Tr]. rewrite Tr in Sz |- *. set (t0 := c * heads + h) in *.
  replace (tr * (secs * SIZE_BLOCK)) with (tr * secs * SIZE_BLOCK) in * by lia.
  assert (L : t0 < tr) by (unfold SIZE_BLOCK in *; nia). pose proof (Z.mul_le_mono_nonneg_r (t0 + 1) tr secs ltac:(lia) ltac:(lia)).
  apply Z.mul_le_mono_nonneg_r; [done|lia].
Qed.

Lemma read_fill c h sec sb s w :
  disk_ok w -> rcache_ok s w -> 0 <= c < 2 ^ 30 -> 0 <= h < heads -> 0 <= sec < secs -> (c * heads + h) * secs + sec = sb ->
  (sb + 1) * SIZE_BLOCK <= zlen (disk_of w (dn d)) -> sb < 2 ^ 30 ->
  let p := sec / BLOCKS_RCACHE * BLOCKS_RCACHE in
  let miss := negb (dn d =? lrdn (rt s)) || negb (c =? lrc (rt s)) || negb (h =? lrh (rt s)) || negb (p =? lrp (rt s)) in
  exists mem w',
    (if miss then diskbios_access d DISK_READ c h (w32 (p + 1)) (segment p) ADDR_RCACHE (cmem s) w else (0, cmem s, w)) = (0, mem, w') /\
    rcache_holds c h p mem w /\ (forall d', disk_of w' d' = disk_of w d') /\ zlen mem = zlen (cmem s) /\
    (forall o n, SIZE_RCACHE <= o -> 0 <= n -> o + n <= zlen (cmem s) -> zslice o n mem = zslice o n (cmem s)) /\
    (if miss then mk_rtag (dn d) c h p else rt s) = mk_rtag (dn d) c h p.
Proof.
  intros O Rk C Hh Sc Es Sz S30. cbv zeta. pose proof (ok_secs w O) as Os. pose proof (rc_mem s w Rk) as Lm.
  destruct (block_pos BLOCKS_RCACHE sec) as (B & P & Pb); [done|lia|]. set (p := sec / BLOCKS_RCACHE * BLOCKS_RCACHE) in *.
  pose proof (segment_on_disk w c h sec sb O ltac:(lia) Hh Sc Es Sz) as Fit.
  assert (Dk : 0 <= (c * heads + h) * secs) by (apply (track_pos w); lia || done).
  change BLOCKS_RCACHE with 32 in *. destruct (_ || _) eqn:M.
  - destruct (access_spec DISK_READ c h (p + 1) (Z.min 32 (secs - p)) ADDR_RCACHE (cmem s) w)
      as (mem & w' & E & Od & Em & Eq); [done|by left|done|done|lia|lia|lia|unfold SIZE_BLOCK in *; lia|done| |lia|].
    { split; [done|]. rewrite Lm. unfold ADDR_RCACHE, SIZE_RCACHE, SIZE_WCACHE, SIZE_BLOCK. lia. }
    rewrite w32_small, E by lia. exists mem, w'. rewrite Z.sub_diag in Em.
    replace ((c * heads + h) * secs + (p + 1) - 1) with ((c * heads + h) * secs + p) in Em by lia.
    set (seg := zslice _ _ _) in Em. assert (Ls : zlen seg = segment p * SIZE_BLOCK).
    { unfold seg. change BLOCKS_RCACHE with 32. apply length_zslice; unfold SIZE_BLOCK in *; lia. }
    change BLOCKS_RCACHE with 32 in Ls. unfold SIZE_RCACHE, SIZE_WCACHE in *.
    assert (Bd : zlen seg <= 0x4000) by (rewrite Ls; unfold SIZE_BLOCK; lia).
    split; [done|]. split; [|split; [|split; [|split; [|done]]]].
    + unfold rcache_holds. change BLOCKS_RCACHE with 32. fold seg. rewrite Em. apply zslice_splice_same; lia.
    + intros d'. destruct (decide (d' = dn d)) as [-> |]; [done|by apply Od].
    + by rewrite Em, length_splice by lia.
    + intros o n Ho Hn Hon. rewrite Em. apply zslice_splice_after; lia.
  - apply orb_false_elim in M as [M M4]. apply orb_false_elim in M as [M M3]. apply orb_false_elim in M as [M1 M2].
    apply negb_false_iff, Z.eqb_eq in M1, M2, M3, M4. exists (cmem s), w. split; [done|].
    pose proof (rc_tag s w Rk (eq_sym M1)) as Ht. rewrite <- M2, <- M3, <- M4 in Ht. split_and!; try done.
    rewrite M1, M2, M3, M4. by destruct (rt s).
Qed.

(** ** Reading *)

Lemma read_loop_spec k sb eb offs len buff s w :
  disk_ok w -> rcache_ok s w -> 0 <= offs -> sb + Z.of_nat k = eb + 1 ->
  let rem := len - zlen buff in
  (k = 0%nat -> rem = 0) -> (k <> 0%nat -> 0 < rem /\ sb = offs / SIZE_BLOCK /\ eb = (offs + rem - 1) / SIZE_BLOCK) ->
  offs + rem <= zlen (disk_of w (dn d)) -> offs + rem < 2 ^ 32 -> 0 <= len < 2 ^ 31 ->
  exists s' w', read_loop k d sb eb offs len buff s w = Some (len, buff ++ zslice offs rem (disk_of w (dn d)), s', w') /\
    rcache_ok s' w' /\ (forall d', disk_of w' d' = disk_of w d') /\ zlen (cmem s') = zlen (cmem s) /\
    (forall o n, SIZE_RCACHE <= o -> 0 <= n -> o + n <= zlen (cmem s) -> zslice o n (cmem s') = zslice o n (cmem s)) /\
    wt s' = wt s /\ disks s' = disks s.
Proof.
  revert sb offs buff s w. induction k as [|k IH]; intros sb offs buff s w O Rk Of Ek rem K0 Ks Sz S32 L31; cbn [read_loop].
  { exists s, w. unfold rem in *. rewrite K0, zslice_nil, app_nil_r by done. assert (zlen buff = len) as -> by (specialize (K0 eq_refl); lia).
    rewrite s32_small by lia. by split_and!. }
  destruct (Ks ltac:(done)) as (Rp & Sb & Eb). clear K0 Ks. pose proof (Z.div_mod offs SIZE_BLOCK ltac:(done)) as Dm.
  pose proof (Z.mod_pos_bound offs SIZE_BLOCK ltac:(done)) as Om. rewrite <- Sb in Dm. set (o := offs mod SIZE_BLOCK) in *.
  assert (End : (sb + 1) * SIZE_BLOCK <= zlen (disk_of w (dn d))).
  { destruct (ok_tracks w O) as [tr Tr]. rewrite Tr in Sz |- *. pose proof (ok_secs w O). unfold SIZE_BLOCK in *.
    assert (sb < tr * secs) by lia. lia. }
  destruct (block_chs_spec w sb O) as (c & h & sec & -> & C & Hh & Sc & Es); [unfold SIZE_BLOCK in *; lia|].
  cbn [mbind option_bind].
  destruct (read_fill c h sec sb s w O Rk C Hh Sc Es End) as (mem & w1 & E1 & Hold & Dw & Lm & Hi & Tg); [unfold SIZE_BLOCK in *; lia|].
  cbv zeta in *. rewrite E1, Tg. change (negb (0 =? 0)) with false. cbv match. cbn [cmem].
  set (size := if sb =? eb then _ else _). set (s1 := mk_common _ _ _ _).
  assert (Rz : 0 < size /\ o + size <= SIZE_BLOCK /\ size <= rem /\ (k = 0%nat -> size = rem) /\
    (k <> 0%nat -> offs + size = (sb + 1) * SIZE_BLOCK /\ 0 < rem - size)).
  { pose proof (Z.div_mod (offs + rem - 1) SIZE_BLOCK ltac:(done)) as Dm2.
    pose proof (Z.mod_pos_bound (offs + rem - 1) SIZE_BLOCK ltac:(done)) as Om2.
    unfold size. destruct (Z.eqb_spec sb eb) as [Q|Q]; [fold rem; rewrite w32_small by lia|]; clear - Dm Om Q Eb Ek Rp Dm2 Om2;
      rewrite <- Eb in Dm2; unfold SIZE_BLOCK in *; split_and!; intros; lia. }
  clearbody size. destruct Rz as (R1 & R2 & R3 & R4 & R5).
  destruct (block_pos BLOCKS_RCACHE sec) as (B & P & Pb); [done|lia|]. set (p := sec / BLOCKS_RCACHE * BLOCKS_RCACHE) in *.
  set (b := sec mod BLOCKS_RCACHE) in *. pose proof (rc_mem s w Rk) as Lc.
  assert (Chunk : zslice (b * SIZE_BLOCK + o) size mem = zslice offs size (disk_of w (dn d))).
  { assert (In : (b + 1) * SIZE_BLOCK <= segment p * SIZE_BLOCK) by (apply Z.mul_le_mono_nonneg_r; lia).
    transitivity (zslice (b * SIZE_BLOCK + o) size (zslice 0 (segment p * SIZE_BLOCK) mem)).
    { rewrite zslice_zslice by (unfold SIZE_BLOCK in *; lia). f_equal. }
    pose proof (track_pos w c h O ltac:(lia) ltac:(lia)).
    rewrite Hold, zslice_zslice by (unfold SIZE_BLOCK in *; lia). f_equal. lia. }
  change BLOCKS_RCACHE with 32 in *. rewrite mbytes_ok by (rewrite ?Lm, ?Lc; unfold SIZE_RCACHE, SIZE_WCACHE, SIZE_BLOCK in *; lia).
  cbn [mbind option_bind]. rewrite Chunk.
  assert (Lz : zlen (zslice offs size (disk_of w (dn d))) = size) by (apply length_zslice; lia).
  rewrite w32_small by lia.
  assert (Rk1 : rcache_ok s1 w1).
  { split; [cbn [s1 cmem]; by rewrite Lm|]. cbn [s1 rt lrc lrh lrp cmem]. intros _. unfold rcache_holds in *. by rewrite Dw. }
  destruct (IH (sb + 1) (offs + size) (buff ++ zslice offs size (disk_of w (dn d))) s1 w1) as (s' & w' & E & Rk' & Dw' & Lm' & Hi' & Wt' & Ds');
    rewrite ?length_app, ?Nat2Z.inj_add, ?Lz, ?Dw; replace (len - (zlen buff + size)) with (rem - size) by lia.
  - apply (disk_ok_ext w); [by rewrite Dw|done].
  - done.
  - lia.
  - lia.
  - intros. rewrite R4; lia.
  - intros N. destruct (R5 N) as [E5 ?]. split; [done|]. rewrite Eb. split; [by rewrite E5, Z.div_mul by done|f_equal; lia].
  - lia.
  - lia.
  - lia.
  - exists s', w'. split; [rewrite E, length_app, Nat2Z.inj_add, Lz, Dw; do 4 f_equal|].
    + rewrite <- app_assoc. f_equal. replace (len - (zlen buff + size)) with (rem - size) by lia. rewrite <- zslice_app by lia. f_equal. lia.
    + cbn [s1 cmem wt disks] in *. split_and!; try done; [by intros; rewrite Dw'|by rewrite Lm'|]. intros o' n' H1 H2 H3. rewrite Hi', Hi by lia. done.
Qed.

(** The number of blocks of an access. *)
Lemma blocks_count offs len :
  0 <= offs -> 0 < len -> offs + len < 2 ^ 32 ->
  let eb := w32 (offs + len - 1) / SIZE_BLOCK in
  eb = (offs + len - 1) / SIZE_BLOCK /\ offs / SIZE_BLOCK + Z.of_nat (Z.to_nat (eb - offs / SIZE_BLOCK + 1)) = eb + 1.
Proof.
  intros O L S. cbv zeta. rewrite w32_small by lia. split; [done|].
  pose proof (Z.div_le_mono offs (offs + len - 1) SIZE_BLOCK ltac:(done) ltac:(lia)). lia.
Qed.

Lemma get_same s s' minor : disks s' = disks s -> diskbios_get s' minor = diskbios_get s minor.
Proof. intros E. unfold diskbios_get. by rewrite E. Qed.

(** A read returns the bytes of the disk, at any place and of any length, and leaves
    the write cache alone. *)
Lemma diskbios_read_spec minor offs len timeout s w :
  diskbios_get s minor = Some d -> disk_ok w -> rcache_ok s w -> 0 <= offs -> 0 <= len < 2 ^ 31 ->
  offs + len <= zlen (disk_of w (dn d)) -> offs + len < 2 ^ 32 ->
  exists s' w', diskbios_read minor offs len timeout s w = Some (len, zslice offs len (disk_of w (dn d)), s', w') /\
    rcache_ok s' w' /\ (forall d', disk_of w' d' = disk_of w d') /\
    (forall o n, SIZE_RCACHE <= o -> 0 <= n -> o + n <= zlen (cmem s) -> zslice o n (cmem s') = zslice o n (cmem s)) /\
    wt s' = wt s /\ disks s' = disks s.
Proof.
  intros G O Rk Of L Sz S32. unfold diskbios_read. rewrite G. destruct (Z.eqb_spec len 0) as [->|N].
  { exists s, w. rewrite zslice_nil. by split_and!. }
  destruct (blocks_count offs len Of ltac:(lia) S32) as [Eb Ek]. cbv zeta in *. set (k := Z.to_nat _) in *.
  destruct (read_loop_spec k (offs / SIZE_BLOCK) (w32 (offs + len - 1) / SIZE_BLOCK) offs len [] s w) as (s' & w' & E & R & D & _ & T);
    cbn [length]; rewrite ?Z.sub_0_r; try done;
    [| |cbn [length app] in E; rewrite Z.sub_0_r in E; by exists s', w'].
  - intros K. rewrite K in Ek. pose proof (Z.div_le_mono offs (offs + len - 1) SIZE_BLOCK ltac:(done) ltac:(lia)). lia.
  - intros _. split_and!; [lia|done|done].
Qed.

Lemma diskbios_write_spec minor offs buff s w :
  diskbios_get s minor = Some d -> disk_ok w -> wcache_ok s w -> 0 <= offs -> (SIZE_BLOCK | offs) -> (SIZE_BLOCK | zlen buff) ->
  offs + zlen buff <= zlen (disk_of w (dn d)) -> offs + zlen buff < 2 ^ 32 -> zlen buff < 2 ^ 31 ->
  exists s' w', diskbios_write minor offs buff s w = Some (zlen buff, s', w') /\
    disk_view s' w' = splice offs buff (disk_view s w) /\ disk_ok w' /\ wcache_ok s' w' /\
    zlen (disk_of w' (dn d)) = zlen (disk_of w (dn d)) /\
    (forall d', d' <> dn d -> disk_of w' d' = disk_of w d') /\ rt s' = rt s /\ disks s' = disks s.
Proof.
  intros G O Wk Of [a Ea] [n En] Sz S32 S31. unfold diskbios_write. rewrite G. destruct (Z.eqb_spec (zlen buff) 0) as [Z0|N].
  { exists s, w. rewrite Z0. destruct buff; [|done]. rewrite splice_nil. by split_and!. }
  destruct (blocks_count offs (zlen buff) Of ltac:(lia) S32) as [Eb Ek]. cbv zeta in *. rewrite Eb in *.
  assert (Da : offs / SIZE_BLOCK = a) by (rewrite Ea; by apply Z.div_mul). rewrite Da in *. clear Da.
  assert (De : (offs + zlen buff - 1) / SIZE_BLOCK = a + n - 1).
  { rewrite Ea, En. symmetry. apply Z.div_unique with (r := SIZE_BLOCK - 1); unfold SIZE_BLOCK; lia. }
  rewrite De in *. clear De.
  replace (a + n - 1 - a + 1) with n in * by lia. set (k := Z.to_nat n) in *.
  assert (Zk : Z.of_nat k = n) by lia.
  destruct (write_loop_spec k a (a + n - 1) 0 buff s w) as (s' & w' & E & V & T); try done; rewrite ?Zk; unfold SIZE_BLOCK in *; try lia.
  exists s', w'. rewrite Ea. split; [done|]. split; [|exact T]. rewrite V, Zk, <- En, zslice_0, take_ge by lia. done.
Qed.

(** Writing back leaves the cache empty and the disk as it was seen. *)
Lemma diskbios_sync_spec minor s w :
  diskbios_get s minor = Some d -> disk_ok w -> wcache_ok s w ->
  exists s' w', diskbios_sync minor s w = (EOK, s', w') /\ disk_of w' (dn d) = disk_view s w /\ wcache_empty s' /\ disk_ok w' /\
    (forall d', d' <> dn d -> disk_of w' d' = disk_of w d') /\ rt s' = rt s /\ cmem s' = cmem s /\ disks s' = disks s.
Proof.
  intros G O Wk. unfold diskbios_sync. rewrite G. destruct (wc_seg s w Wk) as [B _].
  destruct (Z.eqb_spec (lwb (wt s)) (lwe (wt s))) as [E|N]; cbn [negb andb].
  - pose proof (wc_empty s w Wk E). assert (Em : wcache_empty s) by (split; lia).
    exists s, w. rewrite view_empty by done. by split_and!.
  - destruct (wc_track s w Wk ltac:(lia)) as (-> & _). rewrite Z.eqb_refl.
    destruct (wcache_flush_spec s w O Wk ltac:(lia)) as (s' & w' & E & Dv & Od & Ds & Rs & Ms & Em).
    exists s', w'. split_and!; try done. apply (disk_ok_ext w); [|done]. by rewrite Dv, disk_view_length.
Qed.

End disks.

(** ** Concrete disks

    A BIOS that transfers between the caches and disks of one cylinder, two heads
    and 40 sectors. *)
Definition sample_transfer (mode d sector n addr : Z) (mem : list Z) (w : Z -> list Z) : bool * Z * list Z * (Z -> list Z) :=
  if mode =? DISK_READ then
    (false, 0, splice (addr - ADDR_RCACHE) (zslice (sector * SIZE_BLOCK) (n * SIZE_BLOCK) (w d)) mem, w)
  else
    (false, 0, mem, fun d' => if d' =? d then splice (sector * SIZE_BLOCK) (zslice (addr - ADDR_RCACHE) (n * SIZE_BLOCK) mem) (w d)
      else w d').

Definition sample_geo : geo := mk_geo 30 0 1 2 40 80 512 0.

#[export] Instance sample_int13 : Int13 (Z -> list Z) := {|
  int13_extensions d w := (d =? 0x83, 0x100, 0xaa55, 1, w);
  int13_ext_params d g w := (d =? 0x83, 0x700, sample_geo, w);
  int13_params d w := (d =? 0x83, 0x700, 0, 40, 1, w);
  int13_ext ax d p mem w :=
    sample_transfer (ax / 256 - 0x40) d (dap_sec p) (dap_secs p) (dap_seg p * 16 + dap_offs p) mem w;
  int13_chs ax bx cx dx es mem w :=
    sample_transfer (ax / 256) (dx mod 256) (((cx / 256 + cx mod 256 / 64 * 256) * 2 + dx / 256) * 40 + cx mod 64 - 1) (ax mod 256)
      (es * 16 + bx) mem w
|}.

Lemma sample_transfer_ok mode d sector n addr mem (w : Z -> list Z) :
  mode = DISK_READ \/ mode = DISK_WRITE ->
  exists eax mem' w', sample_transfer mode d sector n addr mem w = (false, eax, mem', w') /\
    transfer (fun w d => w d) mode d sector n addr mem w mem' w'.
Proof.
  intros [-> | ->]; eexists _, _, _; (split; [reflexivity|]); cbn.
  - by repeat split.
  - split; [|split; [done|]]; [|by rewrite Z.eqb_refl]. intros d' N. by destruct (Z.eqb_spec d' d).
Qed.

#[export] Instance sample_disks : Int13_disks (Z -> list Z).
Proof.
  refine {| disk_of w d := w d; chs_geo _ := (1, 2, 40) |}.
  - intros mode d p mem w M _ _ _ _ _ _. cbn [int13_ext sample_int13].
    replace (Z.shiftl (mode + 0x40) 8 / 256 - 0x40) with mode by (destruct M as [-> | ->]; done).
    by apply sample_transfer_ok.
  - intros mode n bx cx dx es mem w c h s M N _ _ _ _ _. cbn [int13_chs sample_int13].
    replace ((mode * 256 + n) / 256) with mode by modlia. replace ((mode * 256 + n) mod 256) with n by modlia.
    by apply sample_transfer_ok.
Defined.

(** The driver after the initialisation of the first two hard disks. *)
Definition sample_init (w : Z -> list Z) : common :=
  let s := diskbios_register (replicate (Z.to_nat 0x8000) 0) in
  let '(_, s, w) := diskbios_init 1 s w in
  let '(_, s, _) := diskbios_init 2 s w in s.

Definition blank_disks : Z -> list Z := fun _ => replicate (Z.to_nat (80 * 512)) 0.

Definition first_disk : diskbios_t := mk_disk 0x80 1 sample_geo.


(** ** What the caches do not promise

    A read after the write-back still answers what the read cache held before. *)
Lemma read_stale :
  (let s := sample_init blank_disks in
   '(_, _, s, w) ← diskbios_read 1 0 4 0 s blank_disks;
   '(_, s, w) ← diskbios_write 1 0 (replicate 512 7) s w;
   let '(res, s, w) := diskbios_sync 1 s w in
   '(_, bs, _, _) ← diskbios_read 1 0 4 0 s w;
   Some (res, zslice 0 4 (w 0x80), bs)) = Some (EOK, [7; 7; 7; 7], [0; 0; 0; 0]).
Proof. by vm_compute. Qed.

(** A write to another disk flushes what is pending to that disk. *)
Lemma flush_to_wrong_disk :
  (let s := sample_init blank_disks in
   '(_, s, w) ← diskbios_write 1 0 (replicate 512 7) s blank_disks;
   '(_, s, w) ← diskbios_write 2 1024 (replicate 512 8) s w;
   Some (zslice 0 4 (w 0x80), zslice 0 4 (w 0x81))) = Some ([0; 0; 0; 0], [7; 7; 7; 7]).
Proof. by vm_compute. Qed.

(** A write of part of a block also writes what the cache held in the rest of it. *)
Lemma partial_block :
  (let s := sample_init blank_disks in
   '(_, s, w) ← diskbios_write 1 0 (replicate 512 7) s blank_disks;
   let '(_, s, w) := diskbios_sync 1 s w in
   '(_, s, w) ← diskbios_write 1 (32 * 512) [8] s w;
   let '(_, s, w) := diskbios_sync 1 s w in
   Some (zslice (32 * 512) 4 (w 0x80))) = Some [8; 7; 7; 7].
Proof. by vm_compute. Qed.

(** A disk that could not be initialised is not refused, since an [unsigned char] is
    never -1: its geometry is 0 and a read divides by it. *)
Lemma missing_disk_divides :
  (let '(res, s, w) := diskbios_init 4 (diskbios_register []) (fun d : Z => @nil Z) in
   (res, (fun d => g_secs (d_geo d)) <$> diskbios_get s 4)) = (- ENODEV, Some 0) /\
  diskbios_read 4 0 1 0 (diskbios_init 4 (diskbios_register []) (fun d : Z => @nil Z)).1.2 (fun d : Z => @nil Z) = None.
Proof. by vm_compute. Qed.
