(* ===== verification/Fdt.v ===== *)
(** * Flattened device trees

    The format both parsers read (src/hal/riscv64/dtb.c, src/riscv-sbi/core/fdt/fdt.c):
    a tree of named nodes with properties, laid out as a sequence of tokens of
    big-endian words.  [flatten] and [enc] are the specification of a blob; the
    reading of words and strings, shared by the parsers, is related to it. *)

From S2P Require Import Prelude Mem CString.

(** src/riscv-sbi/core/fdt/fdt-internal.h *)
Definition FDT_MAGIC := 0xd00dfeed.
Definition FDT_BEGIN_NODE := 1.
Definition FDT_END_NODE := 2.
Definition FDT_PROP := 3.
Definition FDT_NOP := 4.
Definition FDT_END := 9.

(** src/hal/riscv64/dtb.h: on a 32-bit unsigned integer *)
Definition ntoh16 (x : Z) : Z := Z.lor (Z.land (w32 (Z.shiftl x 8)) 0xff00) (Z.land (Z.shiftr x 8) 0xff).
Definition ntoh32 (x : Z) : Z := Z.lor (w32 (Z.shiftl (ntoh16 x) 16)) (ntoh16 (Z.shiftr x 16)).

(** [__builtin_bswap32] *)
Definition fdt32_to_cpu (x : Z) : Z := le_val (rev (le_bytes 4 x)).

(** ** Trees and tokens *)

Inductive token :=
| TBegin (name : cstr)
| TProp (nameoff : Z) (data : list Z)
| TEnd
| TNop.

Inductive node := Node (name : cstr) (props : list (Z * list Z)) (children : list node).

Definition node_name (t : node) : cstr := let 'Node n _ _ := t in n.
Definition children (t : node) : list node := let 'Node _ _ cs := t in cs.

Fixpoint flatten (t : node) : list token :=
  let 'Node n ps cs := t in
  TBegin n :: ((fun p => TProp p.1 p.2) <$> ps) ++ concat (map flatten cs) ++ [TEnd].

Definition be_bytes (x : Z) : list Z := rev (le_bytes 4 x).

(** Zeros up to a multiple of four. *)
Definition padding (n : nat) : list Z := replicate (Z.to_nat (- Z.of_nat n mod 4)) 0.

Definition padded (bs : list Z) : list Z := bs ++ padding (length bs).

Definition enc_token (e : token) : list Z :=
  match e with
  | TBegin n => be_bytes FDT_BEGIN_NODE ++ padded (n ++ [0])
  | TProp o d => be_bytes FDT_PROP ++ be_bytes (zlen d) ++ be_bytes o ++ padded d
  | TEnd => be_bytes FDT_END_NODE
  | TNop => be_bytes FDT_NOP
  end.

Definition enc (es : list token) : list Z := concat (map enc_token es).

Definition token_ok (e : token) : Prop :=
  match e with
  | TBegin n => cstr_ok n
  | TProp o d => 0 <= o < 2 ^ 32 /\ zlen d < 2 ^ 31
  | _ => True
  end.

(** The blob [m] has the tokens [es] and the end at [p], which is aligned. *)
Definition tokens_at (m : list Z) (p : Z) (es : list token) : Prop :=
  0 <= p /\ (4 | p) /\ Forall token_ok es /\ exists post, zdrop p m = enc es ++ be_bytes FDT_END ++ post.

(** ** Words *)

Lemma ntoh32_swap x : 0 <= x < 2 ^ 32 -> ntoh32 x = fdt32_to_cpu x.
Proof.
  intros X. unfold ntoh32, fdt32_to_cpu.
  assert (N : forall y, 0 <= y < 2 ^ 32 -> ntoh16 y = y / 256 mod 256 + y mod 256 * 256).
  { intros y Y. unfold ntoh16. rewrite land_ff, Z.shiftl_mul_pow2, Z.shiftr_div_pow2 by lia. change (2 ^ 8) with 256.
    replace (Z.land (w32 (y * 256)) 0xff00) with (y mod 256 * 256).
    { rewrite Z.lor_comm, (lor_add _ _ 8 (y mod 256)) by modlia. lia. }
    change 0xff00 with (Z.ldiff (Z.ones 16) (Z.ones 8)). rewrite Z.ldiff_land, Z.land_assoc, Z.land_ones by lia.
    rewrite <- Z.ldiff_land, Z.ldiff_ones_r, Z.shiftl_mul_pow2, Z.shiftr_div_pow2 by lia. mlia. }
  rewrite !N by (rewrite ?Z.shiftr_div_pow2 by lia; modlia). rewrite Z.shiftl_mul_pow2, Z.shiftr_div_pow2 by lia.
  rewrite Z.lor_comm, (lor_add _ _ 16 (x / 256 mod 256 + x mod 256 * 256)) by mlia. cbn. mlia.
Qed.

Lemma fdt32_be x : 0 <= x < 2 ^ 32 -> fdt32_to_cpu (le_val (be_bytes x)) = x.
Proof. intros X. unfold fdt32_to_cpu, be_bytes. cbn. modlia. Qed.

Lemma le_val_be x : 0 <= x < 2 ^ 32 -> 0 <= le_val (be_bytes x) < 2 ^ 32.
Proof. intros X. unfold be_bytes. cbn. modlia. Qed.

Lemma length_be x : length (be_bytes x) = 4%nat.
Proof. done. Qed.

(** A word at a place where the blob is known. *)
Lemma zdrop_drop (m : list Z) p n : 0 <= p -> zdrop (p + Z.of_nat n) m = drop n (zdrop p m).
Proof. intros. rewrite drop_drop. f_equal. lia. Qed.

Lemma load32_at m p x rest : 0 <= p -> zdrop p m = be_bytes x ++ rest -> load32 m p = Some (le_val (be_bytes x)).
Proof.
  intros P E. assert (L : (4 <= length (zdrop p m))%nat) by (rewrite E; cbn; lia). rewrite length_drop in L.
  rewrite load32_ok by lia. unfold zslice. rewrite E. done.
Qed.

(** Bytes behind known ones. *)
Lemma drop_known (m : list Z) p bs rest : 0 <= p -> zdrop p m = bs ++ rest -> zdrop (p + zlen bs) m = rest.
Proof. intros P E. rewrite zdrop_drop, E by done. by rewrite drop_app_length. Qed.

(** ** Tokens *)

Lemma padding_aligned n : (4 | Z.of_nat n + zlen (padding n)).
Proof. unfold padding. rewrite length_replicate. apply Z.mod_divide; [done|]. modlia. Qed.

Lemma length_padded bs : (4 | zlen (padded bs)) /\ zlen bs <= zlen (padded bs) < zlen bs + 4.
Proof.
  unfold padded. rewrite length_app, Nat2Z.inj_add. split; [apply padding_aligned|].
  unfold padding. rewrite length_replicate. modlia.
Qed.

(** The sizes as the code computes them. *)
Lemma ldiff3 x : Z.ldiff x 3 = x / 4 * 4.
Proof. change 3 with (Z.ones 2). by rewrite Z.ldiff_ones_r, Z.shiftl_mul_pow2, Z.shiftr_div_pow2 by lia. Qed.

Lemma padded_size bs : zlen (padded bs) = Z.ldiff (zlen bs + 3) 3.
Proof.
  rewrite ldiff3. destruct (length_padded bs) as [[q E] L]. modlia.
Qed.

Lemma token_size e : (4 | zlen (enc_token e)) /\ 4 <= zlen (enc_token e).
Proof.
  destruct e as [n|o d| |]; unfold enc_token; rewrite ?length_app, ?length_be, ?Nat2Z.inj_add; try (split; [by exists 1|lia]).
  - destruct (length_padded (n ++ [0])) as [[q E] L]. split; [exists (q + 1); lia|lia].
  - destruct (length_padded d) as [[q E] L]. split; [exists (q + 3); lia|lia].
Qed.

Lemma tokens_length m p es : tokens_at m p es -> (4 * length es + 4 <= length m)%nat.
Proof.
  intros (P & _ & _ & post & E). assert (L : (4 * length es <= length (enc es))%nat).
  { clear E. unfold enc. induction es as [|e es IH]; cbn [map concat length]; [done|]. rewrite length_app.
    destruct (token_size e). lia. }
  assert (Ld : length (zdrop p m) = length (enc es ++ be_bytes FDT_END ++ post)) by (by rewrite E).
  rewrite length_drop, !length_app, length_be in Ld. lia.
Qed.

Lemma tokens_next m p e es : tokens_at m p (e :: es) -> tokens_at m (p + zlen (enc_token e)) es.
Proof.
  intros (P & [q Q] & O & post & E). apply Forall_cons in O as [_ O]. destruct (token_size e) as [[k K] S].
  split; [lia|]. split; [exists (q + k); lia|]. split; [done|]. exists post.
  apply (drop_known m p (enc_token e)); [done|]. rewrite E. unfold enc. cbn [map concat]. by rewrite <- app_assoc.
Qed.

Lemma tokens_word m p e es :
  tokens_at m p (e :: es) ->
  load32 m p = Some (le_val (be_bytes match e with TBegin _ => FDT_BEGIN_NODE | TProp _ _ => FDT_PROP | TEnd => FDT_END_NODE | TNop => FDT_NOP end)).
Proof.
  intros (P & _ & _ & post & E). unfold enc in E. cbn [map concat] in E.
  destruct e; cbn [enc_token] in E; rewrite <- ?app_assoc in E; by eapply load32_at.
Qed.

Lemma tokens_end m p : tokens_at m p [] -> load32 m p = Some (le_val (be_bytes FDT_END)).
Proof. intros (P & _ & _ & post & E). unfold enc in E. cbn [map concat app] in E. by eapply load32_at. Qed.

(** The name of a node, the words and the bytes of a property. *)
Lemma tokens_name m p n es :
  tokens_at m p (TBegin n :: es) -> cstring (zdrop (p + 4) m) = Some n.
Proof.
  intros (P & _ & O & post & E). apply Forall_cons in O as [O _]. unfold enc in E. cbn [map concat enc_token] in E.
  rewrite <- !app_assoc in E. apply (drop_known m p (be_bytes FDT_BEGIN_NODE)) in E; [|done]. change (zlen (be_bytes _)) with 4 in E.
  rewrite E. unfold padded. rewrite <- !app_assoc. apply cstring_app. eapply Forall_impl; [exact O|]. cbn. lia.
Qed.

Lemma tokens_prop m p o d es :
  tokens_at m p (TProp o d :: es) ->
  load32 m (p + 4) = Some (le_val (be_bytes (zlen d))) /\ load32 m (p + 8) = Some (le_val (be_bytes o)) /\
  zslice (p + 12) (zlen d) m = d /\ p + 12 + zlen d <= zlen m.
Proof.
  intros (P & _ & O & post & E). unfold enc in E. cbn [map concat enc_token] in E. rewrite <- !app_assoc in E.
  pose proof (drop_known m p _ _ P E) as E1. change (zlen (be_bytes FDT_PROP)) with 4 in E1.
  pose proof (drop_known m (p + 4) _ _ ltac:(lia) E1) as E2. change (zlen (be_bytes (zlen d))) with 4 in E2.
  pose proof (drop_known m (p + 4 + 4) _ _ ltac:(lia) E2) as E3. change (zlen (be_bytes o)) with 4 in E3.
  replace (p + 4 + 4) with (p + 8) in * by lia. replace (p + 8 + 4) with (p + 12) in * by lia.
  split_and!; [eapply load32_at; [lia|exact E1]|eapply load32_at; [lia|exact E2]| |].
  - unfold zslice, padded in *. rewrite E3, <- app_assoc. rewrite Nat2Z.id. by rewrite take_app_length.
  - assert (L : length (zdrop (p + 12) m) = length (padded d ++ enc es ++ be_bytes FDT_END ++ post)) by (by rewrite E3).
    rewrite length_drop, !length_app in L. destruct (length_padded d). cbn [length be_bytes] in L. rewrite length_be in L. lia.
Qed.

(** ** Induction on trees *)
Lemma node_ind' (P : node -> Prop) :
  (forall n ps cs, Forall P cs -> P (Node n ps cs)) -> forall t, P t.
Proof.
  intros H. fix IH 1. intros [n ps cs]. apply H. induction cs as [|c cs ICs]; constructor; [apply IH|exact ICs].
Qed.

(** ** A blob

    The header, the structure block and the block of strings. *)
Definition blob_of (root : node) (strings : list Z) : list Z :=
  let body := enc (flatten root) ++ be_bytes FDT_END in
  let off_strings := 40 + zlen body in
  concat (map be_bytes [FDT_MAGIC; off_strings + zlen strings; 40; off_strings; 40; 17; 16; 0; zlen strings; zlen body]) ++
  body ++ strings.

(** A board with two processors, a serial port and an interrupt controller. *)
Definition sample_strings : list Z :=
  concat (map (fun s => str s ++ [0]) ["compatible"; "reg"; "clock-frequency"; "#address-cells"; "#size-cells"; "model"]%string).

Definition sample_cpu (n : string) : node :=
  Node (str n) [(0, str "riscv" ++ [0]); (15, be_bytes 1000000)] [Node (str "interrupt-controller") [(0, str "riscv,cpu-intc" ++ [0])] []].

Definition sample_soc : node :=
  Node (str "soc") [(31, be_bytes 2); (46, be_bytes 2)]
    [Node (str "plic@c000000") [(0, str "riscv,plic0" ++ [0])] [];
     Node (str "serial@10000000")
       [(0, str "sifive,uart" ++ [0] ++ str "ns16550a" ++ [0]); (11, be_bytes 0 ++ be_bytes 0x10000000 ++ be_bytes 0 ++ be_bytes 0x100);
        (15, be_bytes 3686400)] []].

Definition sample_tree : node :=
  Node [] [(0, str "riscv-virtio" ++ [0]); (58, str "board" ++ [0])]
    [Node (str "memory@80000000") [(11, be_bytes 0 ++ be_bytes 0x80000000 ++ be_bytes 0 ++ be_bytes 0x8000000)] [];
     Node (str "cpus") [(31, be_bytes 1)] [sample_cpu "cpu@0"; sample_cpu "cpu@1"]; sample_soc].
