(* ===== verification/SbiFdt.v ===== *)
(** * The device tree of the RISC-V firmware (src/riscv-sbi/core/fdt/fdt.c, fdt-helper.c)

    Nodes and properties are offsets into the structure block.  The blob is a list of
    bytes, whose address is a multiple of four, so that aligning an address is
    aligning an offset.  Walks over the tokens take as many steps as the blob has
    bytes, which is more than it has tokens.  [None] is an access outside the blob.
    The string routines (core/string.c) are copies of those in CString.v. *)

From S2P Require Import Prelude Mem CString Fdt.

Definition FDT_EOK := 0.
Definition FDT_EBADOFFS := -1.
Definition FDT_EBADSTRUCT := -2.
Definition FDT_EEND := -3.
Definition FDT_ENOTFOUND := -5.

Definition CEIL (x y : Z) : Z := Z.ldiff (x + y - 1) (y - 1).

(** [fdt_common], with the addresses as offsets. *)
Record fdt_common := mk_fdt { fdt : list Z; dt_struct : Z; dt_strings : Z }.

Record fdt_cellInfo_t := mk_cells { addressCells : Z; sizeCells : Z }.
Record sbi_reg_t := mk_reg { base : Z; size : Z }.
Record uart_info_t := mk_uart { u_reg : sbi_reg_t; freq : Z; baud : Z }.

(** A word of the blob, in the order of the processor. *)
Definition fdt_word (m : list Z) (p : Z) : option Z := x ← load32 m p; Some (fdt32_to_cpu x).

Definition fdt_init (m : list Z) : option fdt_common :=
  off_dt_struct ← fdt_word m 8;
  off_dt_strings ← fdt_word m 12;
  Some (mk_fdt m off_dt_struct off_dt_strings).

Section fdt.
  Context (c : fdt_common).
Let m := fdt c.
Let fuel := S (length m).

(** The size of a property, from its token on. *)
Definition fdt_consumeProp (pos : Z) : option Z :=
  len ← fdt_word m (pos + 4);
  Some (w32 (12 + CEIL len 4)).

(** [depth] is [None] for a NULL pointer. *)
Definition fdt_tryConsumeNode (pos offset : Z) (depth : option Z) : option (Z * option Z) :=
  token ← fdt_word m pos;
  if token =? FDT_BEGIN_NODE then
    let depth := d ← depth; Some (if offset =? 0 then d + 1 else d) in
    name ← cstring (zdrop (pos + 4) m);
    Some (CEIL (pos + 4 + zlen name + 1) 4, depth)
  else Some (pos, depth).

(** The loop of [fdt_nextNode]. *)
Fixpoint next_loop (k : nat) (nextPos depth : Z) : option (Z * Z) :=
  match k with
  | O => None
  | S k =>
      let pos := nextPos in
      token ← fdt_word m nextPos;
      let nextPos := nextPos + 4 in
      if token =? FDT_BEGIN_NODE then Some (pos - dt_struct c, depth + 1)
      else if token =? FDT_END_NODE then
        if depth <? 0 then Some (FDT_EBADSTRUCT, depth) else next_loop k nextPos (depth - 1)
      else if token =? FDT_END then Some (FDT_EEND, depth)
      else if token =? FDT_PROP then n ← fdt_consumeProp pos; next_loop k (pos + n) depth
      else next_loop k nextPos depth
  end.

(** The offset of the next node, or an error, and [*depth]. *)
Definition fdt_nextNode (offset depth : Z) : option (Z * Z) :=
  size ← fdt_word m 36;
  if (offset <? 0) || (size <=? offset) || negb (offset mod 4 =? 0) then Some (FDT_EBADOFFS, depth)
  else
    token ← (if offset =? 0 then Some FDT_BEGIN_NODE else fdt_word m (dt_struct c + offset));
    if negb (token =? FDT_BEGIN_NODE) then Some (FDT_EBADOFFS, depth)
    else
      '(nextPos, d) ← fdt_tryConsumeNode (dt_struct c + offset) offset (Some depth);
      depth ← d;
      next_loop fuel nextPos depth.

(** The name, or NULL. *)
Definition fdt_getNodeName (offset : Z) : option (option cstr) :=
  token ← fdt_word m (dt_struct c + offset);
  if negb (token =? FDT_BEGIN_NODE) then Some None
  else name ← cstring (zdrop (dt_struct c + offset + 4) m); Some (Some name).

(** The loop of [fdt_getPropertyByName]. *)
Fixpoint prop_loop (k : nat) (nextPos : Z) (name : cstr) : option Z :=
  match k with
  | O => None
  | S k =>
      let pos := nextPos in
      token ← fdt_word m nextPos;
      if token =? FDT_PROP then
        nameoff ← fdt_word m (pos + 8);
        propName ← cstring (zdrop (dt_strings c + nameoff) m);
        if hal_strcmp propName name =? 0 then Some (pos - dt_struct c)
        else n ← fdt_consumeProp pos; prop_loop k (pos + n) name
      else if (token =? FDT_BEGIN_NODE) || (token =? FDT_END_NODE) || (token =? FDT_END) then Some FDT_ENOTFOUND
      else prop_loop k (nextPos + 4) name
  end.

Definition fdt_getPropertyByName (offset : Z) (name : cstr) : option Z :=
  '(nextPos, _) ← fdt_tryConsumeNode (dt_struct c + offset) offset None;
  prop_loop fuel nextPos name.

(** The property's place, or NULL. *)
Definition fdt_getProperty (offset : Z) (name : cstr) : option (option Z) :=
  propOffset ← fdt_getPropertyByName offset name;
  Some (if propOffset <? 0 then None else Some (dt_struct c + propOffset)).

Definition prop_len (prop : Z) : option Z := fdt_word m (prop + 4).
Definition prop_data (prop i : Z) : option Z := fdt_word m (prop + 12 + 4 * i).

(** The strings of a property: whether one of them is [compatible]. *)
Fixpoint strings_loop (k : nat) (currStr end_ : Z) (compatible : cstr) : option bool :=
  match k with
  | O => None
  | S k =>
      if currStr <? end_ then
        s ← cstring (zdrop currStr m);
        if hal_strcmp s compatible =? 0 then Some true else strings_loop k (currStr + hal_strlen s + 1) end_ compatible
      else Some false
  end.

Definition is_compatible (compatible : cstr) (offset : Z) : option bool :=
  propOffset ← fdt_getPropertyByName offset (str "compatible");
  if propOffset <? 0 then Some false
  else
    let prop := dt_struct c + propOffset in
    propLen ← prop_len prop;
    strings_loop fuel (prop + 12) (prop + 12 + propLen) compatible.

Definition has_phandle (phandle : Z) (offset : Z) : option bool :=
  propOffset ← fdt_getPropertyByName offset (str "phandle");
  if propOffset <? 0 then Some false
  else
    let prop := dt_struct c + propOffset in
    propLen ← prop_len prop;
    if propLen =? 4 then x ← prop_data prop 0; Some (x =? phandle) else Some false.

(** The loops of [fdt_findNodeByCompatible] and [fdt_findNodeByPhandle]. *)
Fixpoint find_loop (k : nat) (test : Z -> option bool) (offset depth : Z) : option (Z * Z) :=
  match k with
  | O => None
  | S k =>
      if offset <? 0 then Some (FDT_ENOTFOUND, depth)
      else
        b ← test offset;
        if (b : bool) then Some (offset, depth) else '(offset, depth) ← fdt_nextNode offset depth; find_loop k test offset depth
  end.

Definition fdt_findNodeByCompatible (offset depth : Z) (compatible : cstr) : option (Z * Z) :=
  '(offset, depth) ← fdt_nextNode offset depth;
  if offset <? 0 then Some (offset, depth) else find_loop fuel (is_compatible compatible) offset depth.

Definition fdt_findNodeByPhandle (offset depth phandle : Z) : option (Z * Z) :=
  '(offset, depth) ← fdt_nextNode offset depth;
  if offset <? 0 then Some (offset, depth) else find_loop fuel (has_phandle phandle) offset depth.

(** The result and [*info], which is complete when the result is [FDT_EOK]. *)
Definition fdt_getCellInfo (offset : Z) : option (Z * option fdt_cellInfo_t) :=
  token ← fdt_word m (dt_struct c + offset);
  if negb (token =? FDT_BEGIN_NODE) then Some (FDT_EBADOFFS, None)
  else
    propOffset ← fdt_getPropertyByName offset (str "#address-cells");
    if propOffset <? 0 then Some (propOffset, None)
    else
      addressCells ← prop_data (dt_struct c + propOffset) 0;
      propOffset ← fdt_getPropertyByName offset (str "#size-cells");
      if propOffset <? 0 then Some (propOffset, None)
      else sizeCells ← prop_data (dt_struct c + propOffset) 0; Some (FDT_EOK, Some (mk_cells addressCells sizeCells)).

(** ** fdt-helper.c *)

(** The test of the two searches by name. *)
Definition is_named (offset depth : Z) (targetName : cstr) (targetNameLen : nat) (targetDepth : Z) : option bool :=
  name ← fdt_getNodeName offset;
  if negb (depth =? targetDepth) then Some false
  else name ← name; Some (hal_strncmp targetName name targetNameLen =? 0).

Fixpoint byName_loop (k : nat) (offset depth : Z) (targetName : cstr) (len : nat) (targetDepth : Z) : option (Z * Z) :=
  match k with
  | O => None
  | S k =>
      '(offset, depth) ← fdt_nextNode offset depth;
      if offset <? 0 then Some (offset, depth)
      else
        b ← is_named offset depth targetName len targetDepth;
        if (b : bool) then Some (offset, depth) else byName_loop k offset depth targetName len targetDepth
  end.

Definition fdt_findNodeByName (offset depth : Z) (targetName : cstr) (len : nat) (targetDepth : Z) : option (Z * Z) :=
  byName_loop fuel offset depth targetName len targetDepth.

Fixpoint inCurrent_loop (k : nat) (offset depth : Z) (targetName : cstr) (len : nat) (targetDepth : Z) : option (Z * Z) :=
  match k with
  | O => None
  | S k =>
      '(offset, depth) ← fdt_nextNode offset depth;
      if offset <? 0 then Some (offset, depth)
      else
        b ← is_named offset depth targetName len targetDepth;
        if (b : bool) then Some (offset, depth)
        else if targetDepth <=? depth then inCurrent_loop k offset depth targetName len targetDepth
        else Some (FDT_ENOTFOUND, depth)
  end.

Definition fdt_findInCurrentNode (offset depth : Z) (targetName : cstr) (len : nat) (targetDepth : Z) : option (Z * Z) :=
  inCurrent_loop fuel offset depth targetName len targetDepth.

(** The loop of [fdt_parseCpus]. *)
Fixpoint cpus_loop (k : nat) (offset depth cpus : Z) : option Z :=
  match k with
  | O => None
  | S k =>
      '(offset, depth) ← fdt_findInCurrentNode offset depth (str "cpu@") 4 2;
      if 0 <=? offset then cpus_loop k offset depth (cpus + 1)
      else if offset =? FDT_ENOTFOUND then Some cpus
      else Some offset
  end.

Definition fdt_parseCpus : option Z :=
  '(offset, depth) ← fdt_findNodeByName 0 (-1) (str "cpus") 4 1;
  if offset <? 0 then Some offset else cpus_loop fuel offset depth 0.

(** The result and [*info]. *)
Definition fdt_getPeripheralAddressCells (offset depth : Z) (node : cstr) : option (Z * Z * option fdt_cellInfo_t) :=
  '(offset, depth) ← fdt_findNodeByName offset depth node 4 1;
  if offset <? 0 then Some (offset, depth, None)
  else
    '(err, cells) ← fdt_getCellInfo offset;
    if negb (err =? FDT_EOK) && negb (err =? FDT_ENOTFOUND) then Some (err, depth, None)
    else Some (offset, depth, if err =? FDT_ENOTFOUND then Some (mk_cells 2 1) else cells).

Definition fdt_getReg (prop : Z) (cells : fdt_cellInfo_t) : option sbi_reg_t :=
  base ← prop_data prop 0;
  base ← (if addressCells cells =? 2 then lo ← prop_data prop 1; Some (Z.lor (Z.shiftl base 32) lo) else Some base);
  size ← prop_data prop (addressCells cells);
  size ← (if sizeCells cells =? 2 then lo ← prop_data prop (w32 (addressCells cells + 1)); Some (Z.lor (Z.shiftl size 32) lo)
    else Some size);
  Some (mk_reg base size).

Definition fdt_getPeripheralReg (offset depth : Z) (compatible : cstr) : option (Z * Z * option sbi_reg_t) :=
  '(offset, depth, cells) ← fdt_getPeripheralAddressCells offset depth (str "soc");
  if offset <? 0 then Some (offset, depth, None)
  else
    '(offset, depth) ← fdt_findNodeByCompatible offset depth compatible;
    if offset <? 0 then Some (offset, depth, None)
    else
      prop ← fdt_getProperty offset (str "reg");
      match prop with
      | None => Some (FDT_EBADSTRUCT, depth, None)
      | Some prop => cells ← cells; reg ← fdt_getReg prop cells; Some (offset, depth, Some reg)
      end.

(** [*prop->data] of the clock: in the node, or in the node its phandle names. *)
Definition uart_clock (offset : Z) : option (Z + Z) :=
  prop ← fdt_getProperty offset (str "clock-frequency");
  match prop with
  | Some prop => x ← prop_data prop 0; Some (inr x)
  | None =>
      prop ← fdt_getProperty offset (str "clocks");
      match prop with
      | None => Some (inl FDT_EBADSTRUCT)
      | Some prop =>
          phandle ← prop_data prop 0;
          '(clockOffset, _) ← fdt_findNodeByPhandle 0 (-1) phandle;
          if clockOffset <? 0 then Some (inl clockOffset)
          else
            prop ← fdt_getProperty clockOffset (str "clock-frequency");
            match prop with
            | None => Some (inl FDT_EBADSTRUCT)
            | Some prop => x ← prop_data prop 0; Some (inr x)
            end
      end
  end.

Definition fdt_getUartInfo (compatible : cstr) : option (Z * option uart_info_t) :=
  '(offset, _, reg) ← fdt_getPeripheralReg 0 (-1) compatible;
  if offset <? 0 then Some (offset, None)
  else
    reg ← reg;
    clock ← uart_clock offset;
    match clock with
    | inl err => Some (err, None)
    | inr freq =>
        prop ← fdt_getProperty offset (str "current-speed");
        baud ← (match prop with Some prop => prop_data prop 0 | None => Some 115200 end);
        Some (FDT_EOK, Some (mk_uart reg freq baud))
    end.

Definition fdt_getClintInfo : option (Z * option sbi_reg_t) :=
  '(offset, _, reg) ← fdt_getPeripheralReg 0 (-1) (str "riscv,clint0");
  if offset <? 0 then Some (offset, None) else reg ← reg; Some (FDT_EOK, Some reg).

End fdt.

(** ** Walking over tokens *)

(** The nodes of the tokens [es] met at depth [d], with their depths and names. *)
Fixpoint shape (es : list token) (d : Z) : list (Z * cstr) :=
  match es with
  | [] => []
  | TBegin n :: es => (d + 1, n) :: shape es (d + 1)
  | TEnd :: es => shape es (d - 1)
  | _ :: es => shape es d
  end.

(** No node ends at a negative depth. *)
Fixpoint nested (es : list token) (d : Z) : Prop :=
  match es with
  | [] => True
  | TBegin _ :: es => nested es (d + 1)
  | TEnd :: es => 0 <= d /\ nested es (d - 1)
  | _ :: es => nested es d
  end.

Lemma fdt_word_at m p x rest : 0 <= p -> 0 <= x < 2 ^ 32 -> zdrop p m = be_bytes x ++ rest -> fdt_word m p = Some x.
Proof. intros P X E. unfold fdt_word. rewrite (load32_at m p x rest) by done. cbn [mbind option_bind]. by rewrite fdt32_be. Qed.

Definition tag (e : token) : Z :=
  match e with TBegin _ => FDT_BEGIN_NODE | TProp _ _ => FDT_PROP | TEnd => FDT_END_NODE | TNop => FDT_NOP end.

Lemma fdt_word_token m p e es : tokens_at m p (e :: es) -> fdt_word m p = Some (tag e).
Proof. intros T. unfold fdt_word. rewrite (tokens_word m p e es T). by destruct e. Qed.

Lemma fdt_word_end m p : tokens_at m p [] -> fdt_word m p = Some FDT_END.
Proof. intros T. unfold fdt_word. by rewrite (tokens_end m p T). Qed.

Lemma CEIL_padded bs : CEIL (zlen bs) 4 = zlen (padded bs).
Proof. unfold CEIL. rewrite padded_size. f_equal; lia. Qed.

Section walk.
  Context (c : fdt_common).
  Abbreviation m := (fdt c).

Lemma consumeProp_spec p o d es :
  tokens_at m p (TProp o d :: es) -> fdt_consumeProp c p = Some (zlen (enc_token (TProp o d))).
Proof.
  intros T. destruct (tokens_prop m p o d es T) as (L & _). destruct T as (_ & _ & O & _). apply Forall_cons in O as [[_ O] _].
  unfold fdt_consumeProp, fdt_word. rewrite L. cbn [mbind option_bind]. rewrite fdt32_be, CEIL_padded by lia. f_equal.
  destruct (length_padded d) as [_ Lp]. rewrite w32_small by lia. cbn [enc_token]. rewrite !length_app, !length_be. lia.
Qed.

(** The name of a node is skipped to the next token. *)
Lemma tryConsume_spec p offset depth n es :
  tokens_at m p (TBegin n :: es) ->
  fdt_tryConsumeNode c p offset depth =
    Some (p + zlen (enc_token (TBegin n)), d ← depth; Some (if offset =? 0 then d + 1 else d)).
Proof.
  intros T. unfold fdt_tryConsumeNode. rewrite (fdt_word_token m p _ es T). cbn [mbind option_bind tag].
  rewrite Z.eqb_refl, (tokens_name m p n es T). cbn [mbind option_bind]. f_equal. f_equal.
  destruct T as (P & [q Q] & _). cbn [enc_token]. rewrite length_app, length_be.
  destruct (length_padded (n ++ [0])) as [[r R] L]. rewrite length_app in L. cbn [length] in L.
  unfold CEIL. change (4 - 1) with 3. rewrite ldiff3. modlia.
Qed.

(** [total] bytes of tokens; a cursor is the offset of a node, the depth the caller
    keeps and the nodes that follow. *)
Context (total : Z) (size_ok : fdt_word m 36 = Some (total + 4)).

Definition cursor (offset depth : Z) (L : list (Z * cstr)) : Prop :=
  exists n es, let d := if offset =? 0 then depth + 1 else depth in
    tokens_at m (dt_struct c + offset) (TBegin n :: es) /\ offset + zlen (enc (TBegin n :: es)) = total /\
    0 <= offset /\ (4 | offset) /\ nested es d /\ shape es d = L.

Definition named (n : cstr) (offset : Z) : Prop := fdt_getNodeName c offset = Some (Some n).

Lemma next_loop_spec es k offset d :
  tokens_at m (dt_struct c + offset) es -> offset + zlen (enc es) = total -> 0 < offset -> (4 | offset) -> nested es d ->
  (length es < k)%nat ->
  match shape es d with
  | [] => exists d', next_loop c k (dt_struct c + offset) d = Some (FDT_EEND, d')
  | (d1, n1) :: L => exists offset1, next_loop c k (dt_struct c + offset) d = Some (offset1, d1) /\ 0 < offset1 /\
      cursor offset1 d1 L /\ named n1 offset1
  end.
Proof.
  revert k offset d. induction es as [|e es IH]; intros k offset d T Tot Pos Al Ne Lt; (destruct k as [|k]; [cbn in Lt; lia|]).
  { cbn [shape next_loop]. rewrite (fdt_word_end m _ T). cbn. by exists d. }
  pose proof (tokens_next m _ _ _ T) as T2. pose proof (token_size e) as [[q Q] Sz].
  assert (Tot2 : offset + zlen (enc_token e) + zlen (enc es) = total).
  { rewrite <- Tot. unfold enc. cbn [map concat]. rewrite length_app. lia. }
  assert (Al2 : (4 | offset + zlen (enc_token e))) by (apply Z.divide_add_r; [done|by exists q]).
  rewrite <- Z.add_assoc in T2. cbn [next_loop]. rewrite (fdt_word_token m _ _ _ T). cbn [mbind option_bind].
  cbn [length] in Lt. destruct e as [n|o dt| |]; cbn [tag shape nested] in *.
  - cbn. exists offset. replace (dt_struct c + offset - dt_struct c) with offset by lia. split; [done|]. split; [done|].
    split; [|by unfold named, fdt_getNodeName; rewrite (fdt_word_token m _ _ _ T); cbn; rewrite (tokens_name m _ _ _ T)].
    exists n, es. destruct (Z.eqb_spec offset 0); [lia|]. cbv zeta. split_and!; done || lia.
  - cbn. rewrite (consumeProp_spec _ _ _ _ T). cbn [mbind option_bind]. rewrite <- Z.add_assoc. apply IH; done || lia.
  - cbn. destruct Ne as [Dn Ne]. destruct (Z.ltb_spec d 0); [lia|]. rewrite <- Z.add_assoc. apply IH; done || lia.
  - cbn. rewrite <- Z.add_assoc. apply IH; done || lia.
Qed.

Lemma nextNode_spec offset depth L :
  cursor offset depth L ->
  match L with
  | [] => exists d', fdt_nextNode c offset depth = Some (FDT_EEND, d')
  | (d1, n1) :: L => exists offset1, fdt_nextNode c offset depth = Some (offset1, d1) /\ 0 < offset1 /\ cursor offset1 d1 L /\ named n1 offset1
  end.
Proof.
  intros (n & es & T & Tot & Pos & Al & Ne & Sh). set (d := if offset =? 0 then _ else _) in *.
  pose proof (token_size (TBegin n)) as [[q Q] Sz].
  assert (Tot2 : offset + zlen (enc_token (TBegin n)) + zlen (enc es) = total).
  { rewrite <- Tot. unfold enc. cbn [map concat]. rewrite length_app. lia. }
  unfold fdt_nextNode. rewrite size_ok. cbn [mbind option_bind].
  destruct (Z.ltb_spec offset 0); [lia|]. destruct (Z.leb_spec (total + 4) offset); [lia|].
  destruct Al as [a ->]. rewrite Z.mod_mul by done. cbn [orb negb Z.eqb].
  rewrite (fdt_word_token m _ _ _ T).
  assert (E : (if a * 4 =? 0 then Some FDT_BEGIN_NODE else Some (tag (TBegin n))) = Some FDT_BEGIN_NODE) by (by destruct (_ =? _)).
  rewrite E. cbn [mbind option_bind]. change (negb (FDT_BEGIN_NODE =? FDT_BEGIN_NODE)) with false. cbv match.
  rewrite (tryConsume_spec _ _ _ n es T). cbn [mbind option_bind]. fold d. rewrite <- Z.add_assoc.
  pose proof (tokens_next m _ _ _ T) as T2. rewrite <- Z.add_assoc in T2. pose proof (tokens_length m _ _ T2).
  rewrite <- Sh. apply next_loop_spec; try done; [lia| |lia]. apply Z.divide_add_r; [by exists a|by exists q].
Qed.

(** ** The searches *)

Lemma is_named_spec offset depth n target len targetDepth :
  named n offset -> is_named c offset depth target len targetDepth = Some ((depth =? targetDepth) && (hal_strncmp target n len =? 0)).
Proof. intros N. unfold is_named. rewrite N. cbn [mbind option_bind]. by destruct (depth =? targetDepth). Qed.

Definition fits (target : cstr) (len : nat) (targetDepth : Z) (x : Z * cstr) : bool :=
  (x.1 =? targetDepth) && (hal_strncmp target x.2 len =? 0).

(** The nodes behind the first one that fits. *)
Fixpoint seek (test : Z * cstr -> bool) (L : list (Z * cstr)) : option (Z * list (Z * cstr)) :=
  match L with
  | [] => None
  | x :: L => if test x then Some (x.1, L) else seek test L
  end.

Lemma byName_spec target len targetDepth L k offset depth :
  cursor offset depth L -> (length L < k)%nat ->
  match seek (fits target len targetDepth) L with
  | None => exists d', byName_loop c k offset depth target len targetDepth = Some (FDT_EEND, d')
  | Some (d1, L1) => exists offset1, byName_loop c k offset depth target len targetDepth = Some (offset1, d1) /\ 0 < offset1 /\
      cursor offset1 d1 L1 /\ (length L1 < length L)%nat
  end.
Proof.
  revert k offset depth. induction L as [|[d1 n1] L IH]; intros k offset depth C Lt; (destruct k as [|k]; [cbn in Lt; lia|]).
  - destruct (nextNode_spec _ _ _ C) as [d' E]. cbn. rewrite E. by exists d'.
  - destruct (nextNode_spec _ _ _ C) as (o1 & E & P & C1 & N). cbn [byName_loop seek fits fst snd length] in *. rewrite E.
    cbn [mbind option_bind]. destruct (Z.ltb_spec o1 0); [lia|]. rewrite (is_named_spec _ _ _ _ _ _ N). cbn [mbind option_bind].
    unfold fits at 1. cbn [fst snd]. destruct (_ && _); [exists o1; split_and!; done || lia|].
    specialize (IH k o1 d1 C1 ltac:(lia)). destruct (seek _ L) as [[d2 L2]|]; [|done].
    destruct IH as (o2 & E2 & P2 & C2 & L2'). exists o2. split_and!; done || lia.
Qed.

(** The number of CPUs as [fdt_parseCpus] counts them among the nodes behind /cpus:
    nothing when the blob ends there. *)
Fixpoint cpu_count (L : list (Z * cstr)) : option Z :=
  match L with
  | [] => None
  | x :: L => if fits (str "cpu@") 4 2 x then n ← cpu_count L; Some (n + 1) else if 2 <=? x.1 then cpu_count L else Some 0
  end.

Lemma inCurrent_spec L k offset depth :
  cursor offset depth L -> (length L < k)%nat ->
  (exists d', inCurrent_loop c k offset depth (str "cpu@") 4 2 = Some (FDT_EEND, d') /\ cpu_count L = None) \/
  (exists d', inCurrent_loop c k offset depth (str "cpu@") 4 2 = Some (FDT_ENOTFOUND, d') /\ cpu_count L = Some 0) \/
  (exists offset1 d1 L1, inCurrent_loop c k offset depth (str "cpu@") 4 2 = Some (offset1, d1) /\ 0 < offset1 /\
    cursor offset1 d1 L1 /\ (length L1 < length L)%nat /\ cpu_count L = n ← cpu_count L1; Some (n + 1)).
Proof.
  revert k offset depth. induction L as [|[d1 n1] L IH]; intros k offset depth C Lt; (destruct k as [|k]; [cbn in Lt; lia|]).
  - destruct (nextNode_spec _ _ _ C) as [d' E]. left. exists d'. cbn. by rewrite E.
  - destruct (nextNode_spec _ _ _ C) as (o1 & E & P & C1 & N). cbn [inCurrent_loop cpu_count length] in *. rewrite E.
    cbn [mbind option_bind]. destruct (Z.ltb_spec o1 0); [lia|]. rewrite (is_named_spec _ _ _ _ _ _ N). cbn [mbind option_bind].
    unfold fits at 1 2 3. cbn [fst snd]. destruct (_ && _).
    + right. right. exists o1, d1, L. split_and!; done || lia.
    + destruct (Z.leb_spec 2 d1); [|right; left; by exists d1].
      destruct (IH k o1 d1 C1 ltac:(lia)) as [?|[?|(o2 & d2 & L2 & E2 & P2 & C2 & L2' & Ec)]]; [by left|by right; left|].
      right. right. exists o2, d2, L2. split_and!; done || lia.
Qed.

Lemma cpus_loop_spec L k offset depth cpus :
  cursor offset depth L -> (length L < k)%nat -> (length L < length m)%nat ->
  cpus_loop c k offset depth cpus = Some (match cpu_count L with Some n => cpus + n | None => FDT_EEND end).
Proof.
  revert L offset depth cpus. induction k as [|k IH]; intros L offset depth cpus C Lt Lm; [lia|]. cbn [cpus_loop].
  unfold fdt_findInCurrentNode.
  destruct (inCurrent_spec L (S (length m)) offset depth C) as [(d' & -> & ->)|[(d' & -> & ->)|(o1 & d1 & L1 & -> & P & C1 & L1' & ->)]];
    [lia|done|cbn; by rewrite Z.add_0_r|].
  cbn [mbind option_bind]. destruct (Z.leb_spec 0 o1); [|lia]. rewrite (IH L1) by (done || lia).
  destruct (cpu_count L1); cbn; [f_equal; lia|done].
Qed.

End walk.

(** ** Trees *)

(** The nodes of a tree at depth [d], in the order of the blob. *)
Fixpoint preorder (d : Z) (t : node) : list (Z * cstr) :=
  let 'Node n _ cs := t in (d, n) :: concat (map (preorder (d + 1)) cs).

Lemma shape_props (ps : list (Z * list Z)) es d : shape (((fun p => TProp p.1 p.2) <$> ps) ++ es) d = shape es d.
Proof. induction ps as [|p ps IH]; [done|]. cbn. done. Qed.

Lemma nested_props (ps : list (Z * list Z)) es d : nested (((fun p => TProp p.1 p.2) <$> ps) ++ es) d <-> nested es d.
Proof. induction ps as [|p ps IH]; [done|]. cbn. done. Qed.

Lemma shape_flatten t es d : shape (flatten t ++ es) d = preorder (d + 1) t ++ shape es d.
Proof.
  revert es d. induction t as [n ps cs IH] using node_ind'. intros es d. cbn [flatten preorder app shape].
  f_equal. rewrite <- app_assoc, shape_props, <- app_assoc.
  assert (F : forall es, shape (concat (map flatten cs) ++ es) (d + 1) = concat (map (preorder (d + 1 + 1)) cs) ++ shape es (d + 1)).
  { clear es. induction IH as [|c cs Hc _ IHc]; intros es; [done|]. cbn [map concat]. rewrite <- !app_assoc. by rewrite Hc, IHc. }
  rewrite F. cbn [app shape]. by replace (d + 1 - 1) with d by lia.
Qed.

Lemma shape_forest ts es d : shape (concat (map flatten ts) ++ es) d = concat (map (preorder (d + 1)) ts) ++ shape es d.
Proof. induction ts as [|t ts IH]; [done|]. cbn [map concat]. by rewrite <- !app_assoc, shape_flatten, IH. Qed.

Lemma nested_flatten t es d : -1 <= d -> nested es d -> nested (flatten t ++ es) d.
Proof.
  revert es d. induction t as [n ps cs IH] using node_ind'. intros es d D N. cbn [flatten app nested].
  rewrite <- app_assoc, nested_props, <- app_assoc.
  assert (F : forall es, nested es (d + 1) -> nested (concat (map flatten cs) ++ es) (d + 1)).
  { clear es N. induction IH as [|c cs Hc _ IHc]; intros es N; [done|]. cbn [map concat]. rewrite <- !app_assoc. apply Hc; [lia|]. by apply IHc. }
  apply F. cbn [app nested]. split; [lia|]. by replace (d + 1 - 1) with d by lia.
Qed.

(** [hal_strncmp] against a target of the given length tests for a prefix. *)
Definition starts (p s : cstr) : bool := bool_decide (take (length p) s = p).

Lemma strncmp_starts i p s : cstr_ok p -> cstr_ok s -> 0 <= i -> (strncmp_loop i p s (length p) =? 0) = starts p s.
Proof.
  unfold starts. revert i s. induction p as [|a p IH]; intros i s Op Os I; cbn [length strncmp_loop take].
  - by rewrite bool_decide_true by done.
  - apply cstr_ok_cons in Op as [A Op]. destruct s as [|b s]; cbn [deref head default tail].
    + cbn. destruct (Z.eqb_spec a 0); [lia|]. cbn. destruct (Z.ltb_spec a 0); [lia|]. rewrite bool_decide_false by done.
      destruct (Z.eqb_spec (i + 1) 0); [lia|done].
    + apply cstr_ok_cons in Os as [B Os]. cbn. destruct (Z.eqb_spec a 0), (Z.eqb_spec b 0); try lia. cbn.
      destruct (Z.eqb_spec a b) as [->|N].
      * rewrite IH by (done || lia). apply bool_decide_ext. split; [by intros ->|by intros [= ?]].
      * rewrite bool_decide_false by (intros [= ? _]; done).
        destruct (_ <? _); [destruct (Z.eqb_spec (- i - 1) 0)|destruct (Z.eqb_spec (i + 1) 0)]; lia || done.
Qed.

Lemma strncmp_prefix p n s : length p = n -> cstr_ok p -> cstr_ok s -> (hal_strncmp p s n =? 0) = starts p s.
Proof. intros <- Op Os. by apply strncmp_starts. Qed.

(** The string literals of the code. *)
Ltac literal := by repeat constructor.

(** The children of /cpus that are processors. *)
Definition is_cpu (t : node) : bool := starts (str "cpu@") (node_name t).

Fixpoint names_ok (t : node) : Prop :=
  let 'Node n _ cs := t in cstr_ok n /\ foldr and True (map names_ok cs).

Lemma count_deep ts L d : 2 < d -> cpu_count (concat (map (preorder d) ts) ++ L) = cpu_count L.
Proof.
  assert (T : forall t L d, 2 < d -> cpu_count (preorder d t ++ L) = cpu_count L).
  { clear. intros t. induction t as [n ps cs IH] using node_ind'. intros L d D. cbn [preorder app cpu_count fits fst snd].
    unfold fits. cbn [fst]. destruct (Z.eqb_spec d 2), (Z.leb_spec 2 d); try lia. cbn [andb].
    assert (F : forall L, cpu_count (concat (map (preorder (d + 1)) cs) ++ L) = cpu_count L).
    { clear L. induction IH as [|c cs Hc _ IHc]; intros L; [done|]. cbn [map concat]. rewrite <- app_assoc, Hc by lia. apply IHc. }
    apply F. }
  intros D. induction ts as [|t ts IH]; [done|]. cbn [map concat]. by rewrite <- app_assoc, T, IH.
Qed.

Lemma count_children cs L :
  Forall (fun t => cstr_ok (node_name t)) cs ->
  cpu_count (concat (map (preorder 2) cs) ++ L) = n ← cpu_count L; Some (Z.of_nat (length (filter is_cpu cs)) + n).
Proof.
  induction 1 as [|t cs O _ IH]; [cbn; by destruct (cpu_count L)|]. cbn [map concat].
  destruct t as [n ps ts]. cbn [preorder app cpu_count]. rewrite <- app_assoc, count_deep, IH by lia.
  unfold fits. cbn [fst snd]. change (2 =? 2) with true. change (2 <=? 2) with true. cbn [andb].
  rewrite strncmp_prefix by (done || literal).
  rewrite filter_cons. destruct (starts (str "cpu@") n) eqn:S;
    [rewrite decide_True by (unfold is_cpu; cbn [node_name]; by rewrite S)|
     rewrite decide_False by (unfold is_cpu; cbn [node_name]; rewrite S; by intros [])];
    destruct (cpu_count L); cbn [mbind option_bind length]; f_equal; lia.
Qed.

(** Nodes that are not the one looked for at depth 1. *)
Lemma seek_skip target len ts L :
  Forall (fun t => hal_strncmp target (node_name t) len <> 0) ts ->
  seek (fits target len 1) (concat (map (preorder 1) ts) ++ L) = seek (fits target len 1) L.
Proof.
  assert (T : forall t d L, 1 < d -> seek (fits target len 1) (preorder d t ++ L) = seek (fits target len 1) L).
  { clear. intros t. induction t as [n ps cs IH] using node_ind'. intros d L D. cbn [preorder app seek].
    unfold fits at 1. cbn [fst]. destruct (Z.eqb_spec d 1); [lia|]. cbn [andb].
    assert (F : forall L, seek (fits target len 1) (concat (map (preorder (d + 1)) cs) ++ L) = seek (fits target len 1) L).
    { clear L. induction IH as [|c cs Hc _ IHc]; intros L; [done|]. cbn [map concat]. rewrite <- app_assoc, Hc by lia. apply IHc. }
    apply F. }
  assert (F : forall ts L, seek (fits target len 1) (concat (map (preorder 2) ts) ++ L) = seek (fits target len 1) L).
  { intros ts'. induction ts' as [|t ts' IH]; intros L'; [done|]. cbn [map concat]. rewrite <- app_assoc, T by lia. apply IH. }
  induction 1 as [|t ts O _ IH]; [done|]. cbn [map concat]. destruct t as [n ps cs]. cbn [preorder app seek node_name] in *.
  rewrite <- app_assoc. unfold fits at 1. cbn [fst snd]. destruct (Z.eqb_spec (hal_strncmp target n len) 0); [done|]. cbn [andb].
  by rewrite andb_false_r, F, IH.
Qed.

(** ** Blobs of trees *)

Record blob (c : fdt_common) (root : node) : Prop := {
  blob_tokens : tokens_at (fdt c) (dt_struct c) (flatten root);
  blob_size : fdt_word (fdt c) 36 = Some (zlen (enc (flatten root)) + 4)
}.

Lemma forest_ok ts es : Forall token_ok (concat (map flatten ts) ++ es) -> Forall (fun t => cstr_ok (node_name t)) ts.
Proof.
  induction ts as [|[n ps cs] ts IH]; intros F; [done|]. cbn [map concat flatten] in F. rewrite <- app_assoc in F. cbn [app] in F.
  apply Forall_cons in F as [On F]. constructor; [exact On|]. apply IH. by apply Forall_app in F as [_ F].
Qed.

Lemma tree_ok n ps cs : Forall token_ok (flatten (Node n ps cs)) -> Forall (fun t => cstr_ok (node_name t)) cs.
Proof.
  intros F. cbn [flatten] in F. apply Forall_cons in F as [_ F]. apply Forall_app in F as [_ F]. by eapply forest_ok.
Qed.

Lemma root_cursor c root : blob c root -> cursor c (zlen (enc (flatten root))) 0 (-1) (concat (map (preorder 1) (children root))).
Proof.
  intros [T Sz]. destruct root as [n ps cs]. set (F := flatten (Node n ps cs)) in *. eexists n, _. change (0 =? 0) with true. cbv zeta match.
  rewrite Z.add_0_r. split; [exact T|]. split; [done|]. split; [done|]. split; [by exists 0|].
  pose proof (nested_flatten (Node n ps cs) [] (-1) ltac:(lia) I) as Ne. pose proof (shape_flatten (Node n ps cs) [] (-1)) as Sh.
  rewrite app_nil_r in Ne, Sh. cbn [flatten nested shape preorder] in Ne, Sh. split; [exact Ne|]. rewrite app_nil_r in Sh.
  by injection Sh.
Qed.

Lemma cursor_length c total offset depth L : cursor c total offset depth L -> (length L < length (fdt c))%nat.
Proof.
  intros (n & es & T & _ & _ & _ & _ & <-). pose proof (tokens_length _ _ _ T) as Le. cbn [length] in Le.
  assert (L : forall d, (length (shape es d) <= length es)%nat); [|specialize (L (if offset =? 0 then depth + 1 else depth)); lia].
  clear. induction es as [|[] es IH]; intros d; cbn [shape length];
    [lia|specialize (IH (d + 1))|specialize (IH d)|specialize (IH (d - 1))|specialize (IH d)]; lia.
Qed.

Lemma parseCpus_spec c root before cs cn cps after :
  blob c root -> children root = before ++ Node cn cps cs :: after ->
  starts (str "cpus") cn = true -> Forall (fun t => starts (str "cpus") (node_name t) = false) before ->
  fdt_parseCpus c = Some (match after with [] => FDT_EEND | _ => Z.of_nat (length (filter is_cpu cs)) end).
Proof.
  intros B Ch Sc Sb. pose proof (root_cursor c root B) as C. destruct B as [T Sz]. destruct root as [rn rps rcs]. cbn [children] in *.
  subst rcs. pose proof (tree_ok _ _ _ (proj1 (proj2 (proj2 T)))) as On. apply Forall_app in On as [Ob On]. apply Forall_cons in On as [Oc Oa].
  cbn [node_name] in Oc. assert (Ok : Forall (fun t => cstr_ok (node_name t)) cs).
  { destruct T as (_ & _ & F & _). cbn [flatten] in F. apply Forall_cons in F as [_ F]. apply Forall_app in F as [_ F].
    rewrite map_app, concat_app, <- app_assoc in F. apply Forall_app in F as [_ F]. cbn [map concat] in F.
    rewrite <- app_assoc in F. apply Forall_app in F as [F _]. by eapply tree_ok. }
  pose proof (cursor_length _ _ _ _ _ C) as Lc.
  pose proof (byName_spec c _ Sz (str "cpus") 4 1 _ (S (length (fdt c))) _ _ C ltac:(lia)) as By.
  rewrite map_app, concat_app, seek_skip in By.
  2:{ clear -Ob Sb. induction Ob as [|t ts O _ IH]; [done|]. apply Forall_cons in Sb as [S Sb]. constructor; [|by apply IH].
      rewrite <- Z.eqb_neq, strncmp_prefix; done || literal. }
  cbn [map concat preorder app seek] in By. unfold fits at 1 in By. cbn [fst snd] in By. change (1 =? 1) with true in By.
  rewrite strncmp_prefix, Sc in By by (done || literal). cbn [andb] in By.
  destruct By as (o1 & E & P & C1 & L1). unfold fdt_parseCpus, fdt_findNodeByName. rewrite E. cbn [mbind option_bind].
  destruct (Z.ltb_spec o1 0); [lia|]. pose proof (cursor_length _ _ _ _ _ C1).
  rewrite (cpus_loop_spec c _ Sz _ (S (length (fdt c))) _ _ 0 C1) by lia.
  change (1 + 1) with 2. rewrite count_children by done. destruct after as [|[n ps ts] after]; [done|].
  cbn [map concat preorder app cpu_count]. unfold fits. cbn [fst snd]. change (1 =? 2) with false. change (2 <=? 1) with false.
  cbn [andb mbind option_bind]. f_equal. lia.
Qed.

(** [fdt_parseCpus] counts the children of the first node of the root whose name
    starts with cpus that are called cpu@..., when another node of the root follows;
    when the tree ends there, it answers the error [FDT_EEND]. *)
Lemma fdt_parseCpus_tree c root before cs cn cps after :
  blob c root -> children root = before ++ Node cn cps cs :: after ->
  starts (str "cpus") cn = true -> Forall (fun t => starts (str "cpus") (node_name t) = false) before ->
  fdt_parseCpus c = Some (match after with [] => FDT_EEND | _ => Z.of_nat (length (filter is_cpu cs)) end).
Proof. apply parseCpus_spec. Qed.

(** ** Properties *)

Definition prop_name (c : fdt_common) (o : Z) : option cstr := cstring (zdrop (dt_strings c + o) (fdt c)).

(** No property follows. *)
Definition props_end (es : list token) : Prop :=
  match es with TProp _ _ :: _ => False | TNop :: _ => False | _ => True end.

Lemma prop_loop_spec c k (ps : list (Z * list Z)) es offset name :
  tokens_at (fdt c) (dt_struct c + offset) (((fun p => TProp p.1 p.2) <$> ps) ++ es) -> props_end es -> 0 <= offset ->
  Forall (fun p => exists s, prop_name c p.1 = Some s /\ cstr_ok s) ps -> cstr_ok name -> (length ps < k)%nat ->
  (prop_loop c k (dt_struct c + offset) name = Some FDT_ENOTFOUND /\ Forall (fun p => prop_name c p.1 <> Some name) ps) \/
  (exists a o d b offset1, ps = a ++ (o, d) :: b /\ Forall (fun p => prop_name c p.1 <> Some name) a /\ prop_name c o = Some name /\
    prop_loop c k (dt_struct c + offset) name = Some offset1 /\ 0 <= offset1 /\
    prop_len c (dt_struct c + offset1) = Some (zlen d) /\ zslice (dt_struct c + offset1 + 12) (zlen d) (fdt c) = d).
Proof.
  revert k offset. induction ps as [|[o d] ps IH]; intros k offset T En Pos F On Lt; (destruct k as [|k]; [cbn in Lt; lia|]).
  - left. split; [|done]. cbn [prop_loop]. cbn [fmap list_fmap app] in T. destruct es as [|[n|o d| |] es]; try done.
    + by rewrite (fdt_word_end _ _ T).
    + by rewrite (fdt_word_token _ _ _ _ T).
    + by rewrite (fdt_word_token _ _ _ _ T).
  - cbn [fmap list_fmap app fst snd] in T. apply Forall_cons in F as [(s & Es & Os) F]. cbn [fst] in Es.
    pose proof (tokens_prop _ _ _ _ _ T) as (L4 & L8 & Dt & _). pose proof T as (_ & _ & Ok & _). apply Forall_cons in Ok as [[Oo Od] _].
    assert (Er : prop_loop c (S k) (dt_struct c + offset) name = if bool_decide (s = name) then Some offset
      else prop_loop c k (dt_struct c + offset + zlen (enc_token (TProp o d))) name).
    { cbn [prop_loop]. rewrite (fdt_word_token _ _ _ _ T). cbn [mbind option_bind tag]. change (FDT_PROP =? FDT_PROP) with true. cbv match.
      unfold fdt_word at 1. rewrite L8. cbn [mbind option_bind]. rewrite fdt32_be by done. unfold prop_name in Es. rewrite Es.
      cbn [mbind option_bind]. rewrite hal_strcmp_eqb, (consumeProp_spec _ _ _ _ _ T) by done. cbn [mbind option_bind].
      by replace (dt_struct c + offset - dt_struct c) with offset by lia. }
    rewrite Er. clear Er. case_bool_decide as Eq.
    + right. subst s. exists [], o, d, ps, offset. split_and!; try done.
      unfold prop_len, fdt_word. rewrite L4. cbn [mbind option_bind]. by rewrite fdt32_be by lia.
    + pose proof (tokens_next _ _ _ _ T) as T2.
      rewrite <- Z.add_assoc in T2 |- *. destruct (token_size (TProp o d)) as [_ Sz]. cbn [length] in Lt.
      destruct (IH k _ T2 En ltac:(lia) F On ltac:(lia)) as [[E N]|(a & o1 & d1 & b & off1 & -> & Na & R)].
      * left. split; [done|]. constructor; [|done]. cbn [fst]. rewrite Es. by intros [= ->].
      * right. exists ((o, d) :: a), o1, d1, b, off1. split; [done|]. split; [|done]. constructor; [|done]. cbn [fst].
        rewrite Es. by intros [= ->].
Qed.

(** [fdt_getProperty] finds the first property of a node with the name, with its
    length and bytes, or answers NULL when the node has none. *)
Lemma fdt_getProperty_spec c offset n ps es name :
  tokens_at (fdt c) (dt_struct c + offset) (TBegin n :: ((fun p => TProp p.1 p.2) <$> ps) ++ es) -> props_end es -> 0 <= offset ->
  Forall (fun p => exists s, prop_name c p.1 = Some s /\ cstr_ok s) ps -> cstr_ok name ->
  (fdt_getProperty c offset name = Some None /\ Forall (fun p => prop_name c p.1 <> Some name) ps) \/
  (exists a o d b prop, ps = a ++ (o, d) :: b /\ Forall (fun p => prop_name c p.1 <> Some name) a /\ prop_name c o = Some name /\
    fdt_getProperty c offset name = Some (Some prop) /\ prop_len c prop = Some (zlen d) /\ zslice (prop + 12) (zlen d) (fdt c) = d).
Proof.
  intros T En Pos F On. unfold fdt_getProperty, fdt_getPropertyByName. rewrite (tryConsume_spec _ _ _ _ _ _ T). cbn [mbind option_bind].
  pose proof (tokens_next _ _ _ _ T) as T2. pose proof (tokens_length _ _ _ T) as Le. cbn [length] in Le. rewrite length_app, length_fmap in Le.
  rewrite <- Z.add_assoc in T2 |- *. pose proof (token_size (TBegin n)) as [_ Sz].
  destruct (prop_loop_spec c (S (length (fdt c))) ps es _ name T2 En ltac:(lia) F On ltac:(lia)) as [[E N]|(a & o & d & b & o1 & Ep & Na & No & E & P & Ln & Dt)].
  - left. by rewrite E.
  - right. exists a, o, d, b, (dt_struct c + o1). rewrite E. cbn [mbind option_bind]. destruct (Z.ltb_spec o1 0); [lia|].
    by split_and!.
Qed.

(** ** A concrete blob *)

Definition sample_fdt : fdt_common := default (mk_fdt [] 0 0) (fdt_init (blob_of sample_tree sample_strings)).

Lemma sample_fdt_blob : blob sample_fdt sample_tree.
Proof.
  split; [|by vm_compute]. split; [by vm_compute|]. split; [by exists 10|]. split.
  - repeat constructor; by vm_compute.
  - exists sample_strings. by vm_compute.
Qed.

Lemma fdt_parseCpus_tree_witness : fdt_parseCpus sample_fdt = Some 2.
Proof.
  rewrite (fdt_parseCpus_tree sample_fdt sample_tree [Node (str "memory@80000000") [(11, be_bytes 0 ++ be_bytes 0x80000000 ++ be_bytes 0 ++ be_bytes 0x8000000)] []]
    [sample_cpu "cpu@0"; sample_cpu "cpu@1"] (str "cpus") [(31, be_bytes 1)] [sample_soc]).
  - by vm_compute.
  - apply sample_fdt_blob.
  - done.
  - by vm_compute.
  - by repeat constructor.
Defined.

(** The serial port is found through the cells of its bus. *)
Example sample_uart :
  fdt_getUartInfo sample_fdt (str "ns16550a") = Some (FDT_EOK, Some (mk_uart (mk_reg 0x10000000 0x100) 3686400 115200)).
Proof. by vm_compute. Qed.

(** The processors are not counted when they are the last node. *)
Lemma cpus_last :
  (c ← fdt_init (blob_of (Node [] [] [Node (str "cpus") [] [sample_cpu "cpu@0"]]) sample_strings); fdt_parseCpus c) = Some FDT_EEND.
Proof. by vm_compute. Qed.
