(* ===== verification/Dtb.v ===== *)
(** * The device tree of the RISC-V platforms (src/hal/riscv64/dtb.c)

    The loader reads the number of processors, the memory and the presence of an
    interrupt controller from the flattened tree the firmware passes.  A pointer
    into the blob is its offset.  The loop takes as many steps as the blob has
    bytes, which is more than it has words.  [None] is an access outside the blob or
    outside the array of processors. *)

From S2P Require Import Prelude Mem CString Fdt.

Record cpu := mk_cpu { cpu_compatible : option Z; cpu_mmu : option Z; cpu_isa : option Z; cpu_clock : Z }.

(** [dtb_common] without the fields that are never set. *)
Record dtb_common := mk_dtb {
  model : option Z; compatible : option Z; ncpus : Z; cpus : list cpu; nreg : Z; reg : option Z; intctl_exist : Z; start : Z
}.

Definition dtb_static : dtb_common := mk_dtb None None 0 (replicate 8 (mk_cpu None None None 0)) 0 None 0 0.

Inductive dtb_state :=
| stateIdle | stateSystem | stateCPU | stateCPUInterruptController | stateMemory | stateSOC | stateSOCInterruptController.

#[export] Instance dtb_state_eq_dec : EqDecision dtb_state.
Proof. solve_decision. Defined.

Section dtb.
  Context (m : list Z) (_start : Z).

Definition dtb_getString (i : Z) : option cstr :=
  off ← load32 m 12;
  cstring (zdrop (ntoh32 off + i) m).

(** The name of a property against a literal. *)
Definition is_string (i : Z) (s : string) : option bool :=
  name ← dtb_getString i; Some (hal_strcmp name (str s) =? 0).

Definition dtb_parseSystem (dtb si l : Z) (c : dtb_common) : option dtb_common :=
  b ← is_string si "model";
  if (b : bool) then Some (mk_dtb (Some dtb) (compatible c) (ncpus c) (cpus c) (nreg c) (reg c) (intctl_exist c) (start c))
  else
    b ← is_string si "compatible";
    Some (if (b : bool) then mk_dtb (model c) (Some dtb) (ncpus c) (cpus c) (nreg c) (reg c) (intctl_exist c) (start c) else c).

(** [dtb_common.cpus[dtb_common.ncpus]] *)
Definition upd_cpu (f : cpu -> cpu) (c : dtb_common) : option dtb_common :=
  p ← cpus c !! Z.to_nat (ncpus c);
  Some (mk_dtb (model c) (compatible c) (ncpus c) (<[Z.to_nat (ncpus c) := f p]> (cpus c)) (nreg c) (reg c) (intctl_exist c) (start c)).

Definition dtb_parseCPU (dtb si l : Z) (c : dtb_common) : option dtb_common :=
  b ← is_string si "compatible";
  if (b : bool) then upd_cpu (fun p => mk_cpu (Some dtb) (cpu_mmu p) (cpu_isa p) (cpu_clock p)) c
  else
    b ← is_string si "riscv,isa";
    if (b : bool) then upd_cpu (fun p => mk_cpu (cpu_compatible p) (cpu_mmu p) (Some dtb) (cpu_clock p)) c
    else
      b ← is_string si "mmu-type";
      if (b : bool) then upd_cpu (fun p => mk_cpu (cpu_compatible p) (Some dtb) (cpu_isa p) (cpu_clock p)) c
      else
        b ← is_string si "clock-frequency";
        if (b : bool) then
          x ← load32 m dtb; upd_cpu (fun p => mk_cpu (cpu_compatible p) (cpu_mmu p) (cpu_isa p) (ntoh32 x)) c
        else Some c.

Definition dtb_parseInterruptController (dtb si l : Z) (c : dtb_common) : option dtb_common := Some c.

Definition dtb_parseSOCInterruptController (dtb si l : Z) (c : dtb_common) : option dtb_common :=
  Some (mk_dtb (model c) (compatible c) (ncpus c) (cpus c) (nreg c) (reg c) 1 (start c)).

Definition dtb_parseMemory (dtb si l : Z) (c : dtb_common) : option dtb_common :=
  b ← is_string si "reg";
  Some (if (b : bool) then mk_dtb (model c) (compatible c) (ncpus c) (cpus c) (l / 16) (Some dtb) (intctl_exist c) (start c) else c).

(** The branches of [dtb_parse]: the state after the name of a node, after its end
    with the number of processors to add, and the effect of a property. *)
Definition is_state (a b : dtb_state) : bool :=
  match a, b with
  | stateCPU, stateCPU | stateSOC, stateSOC => true
  | _, _ => false
  end.

Definition has_name (name : cstr) (s : string) (n : nat) : bool := hal_strncmp name (str s) n =? 0.

Definition dtb_begin (d : Z) (state : dtb_state) (name : cstr) : dtb_state :=
  if (d =? 0) && (deref name =? 0) then stateSystem
  else if (d =? 1) && has_name name "memory@" 7 then stateMemory
  else if (d =? 2) && has_name name "cpu@" 4 then stateCPU
  else if is_state state stateCPU && has_name name "interrupt-controller" 20 then stateCPUInterruptController
  else if (d =? 1) && has_name name "soc" 3 then stateSOC
  else if is_state state stateSOC && (has_name name "interrupt-controller@" 21 || has_name name "plic@" 5) then
    stateSOCInterruptController
  else state.

Definition dtb_end (state : dtb_state) : dtb_state * Z :=
  match state with
  | stateCPU => (stateSystem, 1)
  | stateMemory => (stateSystem, 0)
  | stateCPUInterruptController => (stateCPU, 0)
  | stateSOCInterruptController => (stateSOC, 0)
  | _ => (state, 0)
  end.

Definition dtb_prop (state : dtb_state) (dtb si l : Z) (c : dtb_common) : option dtb_common :=
  match state with
  | stateSystem => dtb_parseSystem dtb si l c
  | stateMemory => dtb_parseMemory dtb si l c
  | stateCPU => dtb_parseCPU dtb si l c
  | stateCPUInterruptController => dtb_parseInterruptController dtb si l c
  | stateSOCInterruptController => dtb_parseSOCInterruptController dtb si l c
  | _ => Some c
  end.

Definition add_cpus (n : Z) (c : dtb_common) : dtb_common :=
  mk_dtb (model c) (compatible c) (ncpus c + n) (cpus c) (nreg c) (reg c) (intctl_exist c) (start c).

(** The loop of [dtb_parse]; a name takes the bytes before its NUL, rounded up, and
    a word of zeros that is left is no token. *)
Fixpoint dtb_loop (k : nat) (dtb d : Z) (state : dtb_state) (c : dtb_common) : option dtb_common :=
  match k with
  | O => None
  | S k =>
      x ← load32 m dtb;
      let token := ntoh32 x in
      let dtb := dtb + 4 in
      if token =? 1 then
        name ← cstring (zdrop dtb m);
        dtb_loop k (dtb + Z.ldiff (hal_strlen name + 3) 3) (w32 (d + 1)) (dtb_begin d state name) c
      else if token =? 3 then
        l ← load32 m dtb;
        let l := Z.ldiff (ntoh32 l + 3) 3 in
        si ← load32 m (dtb + 4);
        c ← dtb_prop state (dtb + 8) (ntoh32 si) l c;
        dtb_loop k (dtb + 8 + l) d state c
      else if token =? 2 then
        let '(state, n) := dtb_end state in dtb_loop k dtb (w32 (d - 1)) state (add_cpus n c)
      else if token =? 9 then Some c
      else dtb_loop k dtb d state c
  end.

Definition dtb_parse (c : dtb_common) : option dtb_common :=
  magic ← load32 m 0;
  if negb (magic =? ntoh32 0xd00dfeed) then Some c
  else
    off ← load32 m 8;
    let c := mk_dtb (model c) (compatible c) 0 (cpus c) (nreg c) (reg c) 0 (start c) in
    c ← dtb_loop (S (length m)) (ntoh32 off) 0 stateIdle c;
    Some (mk_dtb (model c) (compatible c) (ncpus c) (cpus c) (nreg c) (reg c) (intctl_exist c) _start).

Definition dtb_getPLIC (c : dtb_common) : Z := intctl_exist c.

(** ** The loop follows the tokens *)

Fixpoint run (es : list token) (p d : Z) (state : dtb_state) (c : dtb_common) : option dtb_common :=
  match es with
  | [] => Some c
  | e :: es =>
      let p' := p + zlen (enc_token e) in
      match e with
      | TBegin n => run es p' (w32 (d + 1)) (dtb_begin d state n) c
      | TProp o data => c ← dtb_prop state (p + 12) o (zlen (padded data)) c; run es p' d state c
      | TEnd => run es p' (w32 (d - 1)) (dtb_end state).1 (add_cpus (dtb_end state).2 c)
      | TNop => run es p' d state c
      end
  end.

Lemma ntoh32_be x : 0 <= x < 2 ^ 32 -> ntoh32 (le_val (be_bytes x)) = x.
Proof. intros X. rewrite ntoh32_swap by (by apply le_val_be). by apply fdt32_be. Qed.

(** Where a name ends: at the next token, or a word of zeros before it. *)
Lemma name_end p n es :
  tokens_at m p (TBegin n :: es) ->
  let q := p + 4 + Z.ldiff (zlen n + 3) 3 in
  q = p + zlen (enc_token (TBegin n)) \/ q + 4 = p + zlen (enc_token (TBegin n)) /\ load32 m q = Some (le_val (be_bytes 0)).
Proof.
  intros T q. cbn [enc_token]. rewrite length_app, length_be. unfold q. rewrite <- padded_size.
  assert (L : zlen (padded (n ++ [0])) = zlen (padded n) \/ zlen (padded n) = zlen n /\ zlen (padded (n ++ [0])) = zlen n + 4).
  { rewrite !padded_size, !ldiff3, length_app. cbn [length]. modlia. }
  destruct L as [L|[L1 L2]]; [left; lia|right]. split; [lia|]. destruct T as (P & _ & _ & post & E).
  unfold enc in E. cbn [map concat enc_token] in E. rewrite <- !app_assoc in E.
  pose proof (drop_known m p _ _ P E) as E1. change (zlen (be_bytes FDT_BEGIN_NODE)) with 4 in E1.
  assert (Ep : padded (n ++ [0]) = n ++ be_bytes 0).
  { unfold padded at 1 in L2. unfold padded. set (pd := padding (length (n ++ [0]))) in *. rewrite !length_app in L2.
    cbn [length] in L2. assert (Lp : length pd = 3%nat) by lia. rewrite <- app_assoc. f_equal.
    unfold pd, padding in *. rewrite length_replicate in Lp. by rewrite Lp. }
  rewrite Ep, <- app_assoc in E1. pose proof (drop_known m (p + 4) _ _ ltac:(lia) E1) as E2. rewrite L1.
  eapply load32_at; [lia|exact E2].
Qed.

Lemma dtb_loop_run es k p d state c :
  tokens_at m p es -> (2 * length es < k)%nat -> dtb_loop k p d state c = run es p d state c.
Proof.
  revert k p d state c. induction es as [|e es IH]; intros k p d state c T Lt; (destruct k as [|k]; [lia|]); cbn [dtb_loop].
  { rewrite (tokens_end m p T). cbn [mbind option_bind]. by rewrite ntoh32_be. }
  cbn [length] in Lt. pose proof (tokens_next m p e es T) as T2. rewrite (tokens_word m p e es T). cbn [mbind option_bind run].
  destruct e as [n|o dt| |]; rewrite ntoh32_be by done; cbn [Z.eqb Pos.eqb FDT_BEGIN_NODE FDT_PROP FDT_END_NODE FDT_NOP].
  - rewrite (tokens_name m p n es T). cbn [mbind option_bind]. rewrite hal_strlen_length.
    destruct (name_end p n es T) as [E|[E Z0]]; [rewrite E; apply IH; [done|lia]|].
    destruct k as [|k]; [lia|]. cbn [dtb_loop]. rewrite Z0. cbn [mbind option_bind]. rewrite ntoh32_be by done. cbn [Z.eqb].
    rewrite E. apply IH; [done|lia].
  - destruct (tokens_prop m p o dt es T) as (L4 & L8 & _). destruct T as (_ & _ & O & _). apply Forall_cons in O as [[O1 O2] _].
    rewrite L4. cbn [mbind option_bind]. replace (p + 4 + 4) with (p + 8) by lia. rewrite L8. cbn [mbind option_bind].
    rewrite !ntoh32_be by lia. rewrite <- padded_size. replace (p + 4 + 8) with (p + 12) by lia.
    destruct (dtb_prop state _ _ _ c) as [c'|]; [|done]. cbn [mbind option_bind].
    replace (p + 12 + zlen (padded dt)) with (p + zlen (enc_token (TProp o dt))); [apply IH; [done|lia]|].
    cbn [enc_token]. rewrite !length_app, !length_be. lia.
  - destruct (dtb_end state) as [state' n]. apply IH; [done|lia].
  - apply IH; [done|lia].
Qed.


(** ** Segments of tokens

    The names of the properties are strings of the blob. *)
Definition resolved (e : token) : Prop :=
  match e with TProp o _ => is_Some (dtb_getString o) | _ => True end.

(** With room for [r] processors, the tokens [ts] lead from one state to another and
    add [k] processors; with [x] an interrupt controller is among them. *)
Definition goes (x : bool) (r : Z) (ts : list token) (d : Z) (st st' : dtb_state) (k : Z) : Prop :=
  forall es p c, tokens_at m p (ts ++ es) -> Forall resolved ts -> 0 <= ncpus c -> ncpus c + r <= 8 -> length (cpus c) = 8%nat ->
  exists p' c', run (ts ++ es) p d st c = run es p' d st' c' /\ tokens_at m p' es /\ ncpus c' = ncpus c + k /\
    length (cpus c') = 8%nat /\ (x = true \/ intctl_exist c = 1 -> intctl_exist c' = 1).

Lemma goes_nil r d st : goes false r [] d st st 0.
Proof. intros es p c T _ _ _ L. exists p, c. split_and!; done || lia || naive_solver. Qed.

Lemma goes_app x1 x2 r1 r2 r ts1 ts2 d st st1 st2 k1 k2 :
  goes x1 r1 ts1 d st st1 k1 -> goes x2 r2 ts2 d st1 st2 k2 -> 0 <= k1 -> r1 <= r -> k1 + r2 <= r ->
  goes (x1 || x2) r (ts1 ++ ts2) d st st2 (k1 + k2).
Proof.
  intros G1 G2 K R1 R2 es p c T F N R L. apply Forall_app in F as [F1 F2]. rewrite <- app_assoc in *.
  destruct (G1 (ts2 ++ es) p c T F1 N ltac:(lia) L) as (p1 & c1 & -> & T1 & N1 & L1 & X1).
  destruct (G2 es p1 c1 T1 F2 ltac:(lia) ltac:(lia) L1) as (p2 & c2 & -> & T2 & N2 & L2 & X2).
  exists p2, c2. split_and!; try (done || lia). destruct x1, x2; naive_solver.
Qed.

Lemma is_string_Some o s : is_Some (dtb_getString o) -> exists b, is_string o s = Some b.
Proof. intros [n E]. unfold is_string. rewrite E. by eexists. Qed.

(** A change that keeps the number of processors and the controller. *)
Definition keeps (c : dtb_common) (r : option dtb_common) : Prop :=
  exists c', r = Some c' /\ ncpus c' = ncpus c /\ length (cpus c') = 8%nat /\ intctl_exist c' = intctl_exist c.

Lemma upd_cpu_ok f c : 0 <= ncpus c < 8 -> length (cpus c) = 8%nat -> keeps c (upd_cpu f c).
Proof.
  intros N L. unfold upd_cpu. destruct (cpus c !! Z.to_nat (ncpus c)) eqn:E.
  - eexists. split; [done|]. cbn. by rewrite length_insert.
  - apply lookup_ge_None in E. lia.
Qed.

(** The bytes of a property are followed by at least one word. *)
Lemma prop_word p o dt es : tokens_at m p (TProp o dt :: es) -> is_Some (load32 m (p + 12)).
Proof.
  intros T. pose proof T as (P & _ & _ & post & E). unfold enc in E. cbn [map concat enc_token] in E.
  assert (L : length (zdrop p m) = length (((be_bytes FDT_PROP ++ be_bytes (zlen dt) ++ be_bytes o ++ padded dt) ++ concat (map enc_token es)) ++
    be_bytes FDT_END ++ post)) by (by rewrite E).
  rewrite length_drop, !length_app, !length_be in L. exists (le_val (zslice (p + 12) 4 m)). apply load32_ok; lia.
Qed.

Lemma prop_keeps st p o dt es c :
  tokens_at m p (TProp o dt :: es) -> is_Some (dtb_getString o) -> 0 <= ncpus c -> (st = stateCPU -> ncpus c < 8) -> length (cpus c) = 8%nat ->
  st <> stateSOCInterruptController -> keeps c (dtb_prop st (p + 12) o (zlen (padded dt)) c).
Proof.
  intros T S N R L Ns. destruct (prop_word p o dt es T) as [x X].
  assert (B : forall s, exists b, is_string o s = Some b) by (intros; by apply is_string_Some).
  destruct st; cbn [dtb_prop]; try (by exists c).
  - unfold dtb_parseSystem. destruct (B "model"%string) as [[] ->], (B "compatible"%string) as [[] ->]; by eexists.
  - specialize (R eq_refl). unfold dtb_parseCPU.
    destruct (B "compatible"%string) as [b1 ->], (B "riscv,isa"%string) as [b2 ->], (B "mmu-type"%string) as [b3 ->],
      (B "clock-frequency"%string) as [b4 ->]. rewrite X. cbn [mbind option_bind].
    destruct b1; [by apply upd_cpu_ok|]. destruct b2; [by apply upd_cpu_ok|]. destruct b3; [by apply upd_cpu_ok|].
    destruct b4; [by apply upd_cpu_ok|by exists c].
  - unfold dtb_parseMemory. destruct (B "reg"%string) as [[] ->]; by eexists.
Qed.

Lemma goes_prop r q d st :
  (st = stateCPU -> 1 <= r) ->
  goes (if st is stateSOCInterruptController then true else false) r [TProp q.1 q.2] d st st 0.
Proof.
  intros R es p c T F N Rc L. apply Forall_cons in F as [F0 _]. cbn [app run].
  assert (K : exists c', dtb_prop st (p + 12) q.1 (zlen (padded q.2)) c = Some c' /\ ncpus c' = ncpus c /\ length (cpus c') = 8%nat /\
    ((if st is stateSOCInterruptController then true else false) = true \/ intctl_exist c = 1 -> intctl_exist c' = 1)).
  { destruct (decide (st = stateSOCInterruptController)) as [->|Ns]; [by eexists|].
    destruct (prop_keeps st p q.1 q.2 es c T F0 N ltac:(intros Q; specialize (R Q); lia) L Ns) as (c1 & E & N1 & L1 & X1).
    exists c1. split_and!; try done. rewrite X1. destruct st; naive_solver. }
  destruct K as (c1 & -> & N1 & L1 & X1). cbn [mbind option_bind].
  eexists _, c1. split; [reflexivity|]. split; [by apply (tokens_next m _ _ _ T)|]. split_and!; done || lia.
Qed.

Lemma goes_props r (ps : list (Z * list Z)) d st :
  (st = stateCPU -> 1 <= r) ->
  goes (match st, ps with stateSOCInterruptController, _ :: _ => true | _, _ => false end) r ((fun p => TProp p.1 p.2) <$> ps) d st st 0.
Proof.
  intros R. induction ps as [|q ps IH]; [by destruct st; apply goes_nil|].
  pose proof (goes_app _ _ r r r _ _ _ _ _ _ _ _ (goes_prop r q d st R) IH ltac:(lia) ltac:(lia) ltac:(lia)) as G.
  by destruct st, ps.
Qed.

(** A node: its name, its properties, its children and its end. *)
Lemma goes_node x r n ps cs d st s1 k1 :
  0 <= d < 2 ^ 32 - 1 -> (dtb_begin d st n = stateCPU -> 1 <= r) ->
  goes x r (concat (map flatten cs)) (d + 1) (dtb_begin d st n) s1 k1 -> 0 <= k1 ->
  goes (match dtb_begin d st n, ps with stateSOCInterruptController, _ :: _ => true | _, _ => x end) r
    (flatten (Node n ps cs)) d st (dtb_end s1).1 (k1 + (dtb_end s1).2).
Proof.
  intros D R G K es p c T F N Rc L. cbn [flatten app] in T, F |- *. apply Forall_cons in F as [_ F]. cbn [run].
  rewrite w32_small by lia.
  pose proof (goes_app _ _ r r r _ _ _ _ _ _ _ _ (goes_props r ps (d + 1) _ R) G ltac:(lia) ltac:(lia) ltac:(lia)) as G2.
  rewrite !app_assoc, <- (app_assoc _ [TEnd]) in *. apply Forall_app in F as [F _]. pose proof (tokens_next _ _ _ _ T) as T1.
  destruct (G2 _ _ c T1 F N ltac:(lia) L) as (p2 & c2 & -> & T2 & N2 & L2 & X2).
  cbn [app run]. rewrite w32_small by lia. replace (d + 1 - 1) with d by lia.
  eexists _, _. split; [reflexivity|]. split; [by apply (tokens_next _ _ TEnd)|]. split; [cbn [ncpus add_cpus]; lia|].
  split; [done|]. intros X. apply X2. by destruct (dtb_begin d st n), ps, x; cbn in *.
Qed.

(** ** States

    A processor is pending while its node is open and not counted. *)
Definition pending (st : dtb_state) : bool :=
  match st with stateCPU | stateCPUInterruptController => true | _ => false end.

(** What a node below a processor, or nodes one after the other, do to the state. *)
Definition moves (st st' : dtb_state) (k : Z) : Prop :=
  pending st = false /\ pending st' = false /\ k = 0 \/
  pending st = true /\ pending st' = false /\ k = 1 \/
  pending st = true /\ (st' = stateCPU \/ st' = st) /\ k = 0.

Definition room (st : dtb_state) : Z := if pending st then 1 else 0.

Lemma moves_trans s1 s2 s3 k1 k2 :
  moves s1 s2 k1 -> moves s2 s3 k2 -> moves s1 s3 (k1 + k2) /\ 0 <= k1 /\ k1 + room s2 <= room s1.
Proof.
  unfold moves, room. intros [(A & B & C)|[(A & B & C)|(A & [B|B] & C)]] [(A2 & B2 & C2)|[(A2 & B2 & C2)|(A2 & [B2|B2] & C2)]];
    subst; rewrite ?A, ?B; try (cbn in *; congruence); naive_solver lia.
Qed.

Lemma moves_node d st n s1 k1 :
  3 <= d -> moves (dtb_begin d st n) s1 k1 ->
  moves st (dtb_end s1).1 (k1 + (dtb_end s1).2) /\ 0 <= k1 /\ room (dtb_begin d st n) = room st.
Proof.
  intros D M.
  assert (B : pending st = false /\ pending (dtb_begin d st n) = false \/
    st = stateCPU /\ (dtb_begin d st n = stateCPU \/ dtb_begin d st n = stateCPUInterruptController) \/
    st = stateCPUInterruptController /\ dtb_begin d st n = stateCPUInterruptController).
  { unfold dtb_begin. destruct (Z.eqb_spec d 0), (Z.eqb_spec d 1), (Z.eqb_spec d 2); try lia. cbn [andb].
    destruct st; cbn; repeat case_match; auto. }
  set (b := dtb_begin d st n) in *. clearbody b.
  assert (E : forall s, pending s = false -> pending (dtb_end s).1 = false /\ (dtb_end s).2 = 0) by (by intros []).
  unfold moves, room in *. destruct B as [[B1 B2]|[[-> [-> | ->]]|[-> ->]]]; rewrite ?B1, ?B2;
    destruct M as [(M1 & M2 & ->)|[(M1 & M2 & ->)|(M1 & [-> | ->] & ->)]]; cbn in M1; try congruence;
    try (destruct (E _ M2) as [E1 E2]; rewrite E1, E2); cbn; naive_solver lia.
Qed.

(** ** Trees *)

Fixpoint height (t : node) : Z := let 'Node _ _ cs := t in 1 + foldr Z.max 0 (map height cs).

Lemma height_children t d n ps cs :
  d + height (Node n ps cs) < 2 ^ 32 -> t ∈ cs -> d + 1 + height t < 2 ^ 32.
Proof.
  intros Hd I. cbn [height] in Hd. assert (height t <= foldr Z.max 0 (map height cs)); [|lia].
  clear Hd. induction cs as [|c cs IH]; [by apply elem_of_nil in I|]. apply elem_of_cons in I as [->|I]; cbn; [lia|specialize (IH I); lia].
Qed.

Lemma height_pos t : 1 <= height t.
Proof. destruct t as [n ps cs]. cbn. assert (0 <= foldr Z.max 0 (map height cs)); [|lia]. induction cs; cbn; lia. Qed.

(** What a node of depth [d] does below a processor or elsewhere; so do several. *)
Definition moved (d : Z) (ts : list token) (st : dtb_state) : Prop :=
  exists x st' k, moves st st' k /\ goes x (room st) ts d st st' k.

Lemma moved_forest d cs st : (forall t st, t ∈ cs -> moved d (flatten t) st) -> moved d (concat (map flatten cs)) st.
Proof.
  revert st. induction cs as [|t cs IH]; intros s Hc.
  - exists false, s, 0. split; [unfold moves; destruct (pending s) eqn:E; naive_solver|apply goes_nil].
  - destruct (Hc t s ltac:(by left)) as (x1 & s1 & k1 & M1 & G1).
    destruct (IH s1 ltac:(intros; apply Hc; by right)) as (x2 & s2 & k2 & M2 & G2).
    destruct (moves_trans s s1 s2 k1 k2 M1 M2) as (M & K & R). eexists _, s2, (k1 + k2). split; [done|].
    eapply goes_app; [exact G1|exact G2|lia..].
Qed.

Lemma deep t d st : 3 <= d -> d + height t < 2 ^ 32 -> moved d (flatten t) st.
Proof.
  revert d st. induction t as [n ps cs IH] using node_ind'. intros d st D Hd. rewrite Forall_forall in IH.
  destruct (moved_forest (d + 1) cs (dtb_begin d st n)) as (x & s1 & k1 & M & G).
  { intros t s I. apply IH; [done|lia|by eapply height_children]. }
  destruct (moves_node d st n s1 k1 D M) as (M' & K & R). eexists _, _, _. split; [exact M'|].
  pose proof (height_pos (Node n ps cs)). rewrite R in G. apply (goes_node x); [lia| |done|done].
  intros E. rewrite E in R. cbn in R. lia.
Qed.

(** Nodes of depth two, a processor or not. *)
Definition is_cpu (t : node) : bool := has_name (node_name t) "cpu@" 4.

Lemma quiet_end st : pending st = false -> (dtb_end st).2 = 0 /\ pending (dtb_end st).1 = false.
Proof. by destruct st. Qed.

Lemma quiet_begin d st n : pending st = false -> (d =? 2) && has_name n "cpu@" 4 = false -> pending (dtb_begin d st n) = false.
Proof. intros P C. unfold dtb_begin. rewrite C. destruct st; cbn in *; repeat case_match; done. Qed.

Definition one (t : node) : Z := if is_cpu t then 1 else 0.

Lemma node2 t st :
  pending st = false -> 2 + height t < 2 ^ 32 -> exists x st', pending st' = false /\ goes x (one t) (flatten t) 2 st st' (one t).
Proof.
  intros P Hd. destruct t as [n ps cs]. unfold one, is_cpu. cbn [node_name].
  destruct (moved_forest 3 cs (dtb_begin 2 st n)) as (x & s1 & k1 & M & G);
    [intros t s I; apply deep; [lia|by apply (height_children t 2 n ps cs)]|].
  pose proof (height_pos (Node n ps cs)). destruct (has_name n "cpu@" 4) eqn:C.
  - assert (B : dtb_begin 2 st n = stateCPU).
    { unfold dtb_begin. rewrite C. cbn. done. }
    rewrite B in *. destruct M as [(M & _)|[(_ & M2 & ->)|(_ & M2 & ->)]]; [done| |].
    + destruct (quiet_end s1 M2) as [E1 E2].
      pose proof (goes_node x 1 n ps cs 2 st s1 1 ltac:(lia) ltac:(lia)) as Gn. rewrite B, E1 in Gn. eexists _, _. split; [exact E2|]. by apply Gn.
    + assert (s1 = stateCPU) as -> by (by destruct M2).
      pose proof (goes_node x 1 n ps cs 2 st stateCPU 0 ltac:(lia) ltac:(lia)) as Gn. rewrite B in Gn. eexists _, stateSystem. split; [done|]. by apply Gn.
  - assert (B : pending (dtb_begin 2 st n) = false) by (by apply quiet_begin; rewrite ?C).
    destruct M as [(M1 & M2 & ->)|[(M & _)|(M & _)]]; [|congruence..]. destruct (quiet_end s1 M2) as [E1 E2].
    pose proof (goes_node x 0 n ps cs 2 st s1 0 ltac:(lia)) as Gn. rewrite E1 in Gn. unfold room in G. rewrite B in G.
    eexists _, _. split; [exact E2|]. apply Gn; [|done|lia]. intros E. by rewrite E in B.
Qed.

(** A sequence of nodes that each keep the state quiet; [good] ones bring an
    interrupt controller. *)
Lemma quiet_forest (d : Z) (num : node -> Z) (good : node -> bool) ts st :
  (forall t st, t ∈ ts -> pending st = false ->
    exists x st', pending st' = false /\ goes x (num t) (flatten t) d st st' (num t) /\ (good t = true -> x = true)) ->
  (forall t, 0 <= num t) -> pending st = false ->
  exists x st', pending st' = false /\ (existsb good ts = true -> x = true) /\
    goes x (foldr Z.add 0 (map num ts)) (concat (map flatten ts)) d st st' (foldr Z.add 0 (map num ts)).
Proof.
  intros Hn N. revert st. induction ts as [|t ts IH]; intros st P; [exists false, st; split_and!; [done|done|apply goes_nil]|].
  destruct (Hn t st ltac:(by left) P) as (x1 & s1 & P1 & G1 & X1).
  destruct (IH ltac:(intros; apply Hn; [by right|done]) s1 P1) as (x2 & s2 & P2 & X2 & G2).
  assert (0 <= foldr Z.add 0 (map num ts)) by (clear -N; induction ts as [|t ts IH]; cbn; [lia|specialize (N t); lia]).
  specialize (N t). exists (x1 || x2), s2. split; [done|]. split.
  - cbn [existsb]. intros [E|E]%orb_prop; [by rewrite X1|rewrite X2; [by rewrite orb_true_r|done]].
  - cbn [map foldr concat]. eapply goes_app; [exact G1|exact G2|lia..].
Qed.

Definition cpus_in (t : node) : Z := foldr Z.add 0 (map one (children t)).

Lemma one_pos t : 0 <= one t.
Proof. unfold one. by destruct (is_cpu t). Qed.

Lemma cpus_in_pos t : 0 <= cpus_in t.
Proof. unfold cpus_in. induction (children t) as [|c cs IH]; cbn; [lia|]. pose proof (one_pos c). lia. Qed.

Lemma node1 t st :
  pending st = false -> 1 + height t < 2 ^ 32 -> exists x st', pending st' = false /\ goes x (cpus_in t) (flatten t) 1 st st' (cpus_in t).
Proof.
  intros P Hd. destruct t as [n ps cs]. pose proof (height_pos (Node n ps cs)).
  assert (B : pending (dtb_begin 1 st n) = false) by (by apply quiet_begin).
  destruct (quiet_forest 2 one (fun _ => false) cs (dtb_begin 1 st n)) as (x & s1 & P1 & _ & G); [|apply one_pos|done|].
  { intros t s I Ps. destruct (node2 t s Ps) as (x & s' & P' & G); [by apply (height_children t 1 n ps cs)|].
    exists x, s'. by split_and!. }
  destruct (quiet_end s1 P1) as [E1 E2]. change (foldr Z.add 0 (map one cs)) with (cpus_in (Node n ps cs)) in G.
  pose proof (goes_node x (cpus_in (Node n ps cs)) n ps cs 1 st s1 (cpus_in (Node n ps cs)) ltac:(lia)) as Gn.
  rewrite E1, Z.add_0_r in Gn. eexists _, _. split; [exact E2|]. apply Gn; [|done|apply cpus_in_pos]. intros E. by rewrite E in B.
Qed.

(** ** The interrupt controller of the system on chip *)

Definition is_soc (t : node) : bool := has_name (node_name t) "soc" 3.
Definition plic_name (n : cstr) : bool := has_name n "interrupt-controller@" 21 || has_name n "plic@" 5.
Definition is_plic (t : node) : bool :=
  let 'Node n ps _ := t in plic_name n && match ps with [] => false | _ => true end.

(** The first character of a name with a prefix. *)
Lemma has_name_first n c s k : c <> 0 -> hal_strncmp n (c :: s) (S k) = 0 -> deref n = c.
Proof.
  intros C. unfold hal_strncmp. cbn [strncmp_loop]. change (deref (c :: s)) with c. generalize (deref n). intros x.
  cbv zeta. destruct (Z.eqb_spec x 0), (Z.eqb_spec c 0); try done; cbn [negb andb].
  - by destruct (_ <? _).
  - destruct (Z.eqb_spec x c); [done|]. by destruct (_ <? _).
Qed.

Lemma soc_not n s k c : has_name n "soc" 3 = true -> hd_error (str s) = Some c -> c <> 0 -> c <> "s"%ch -> has_name n s (S k) = false.
Proof.
  unfold has_name. intros Sc E C Ns. apply Z.eqb_eq in Sc. pose proof (has_name_first n "s"%ch (str "oc") 2 ltac:(done) Sc) as F.
  apply Z.eqb_neq. intros Q. destruct (str s) as [|c' s'] eqn:Es; [done|]. injection E as ->. pose proof (has_name_first n _ _ _ C Q). congruence.
Qed.

(** Within it the state comes back. *)
Definition in_soc (st : dtb_state) : Prop := st = stateSOC \/ st = stateSOCInterruptController.

Lemma soc_forest d cs st :
  (forall t st, t ∈ cs -> in_soc st -> exists x, goes x 0 (flatten t) d st stateSOC 0) -> in_soc st ->
  exists x st', in_soc st' /\ goes x 0 (concat (map flatten cs)) d st st' 0.
Proof.
  revert st. induction cs as [|t cs IH]; intros st Hc Is; [exists false, st; split; [done|apply goes_nil]|].
  destruct (Hc t st ltac:(by left) Is) as [x1 G1].
  destruct (IH stateSOC ltac:(intros; apply Hc; [by right|done]) ltac:(by left)) as (x2 & s2 & I2 & G2).
  exists (x1 || x2), s2. split; [done|]. change 0 with (0 + 0) at 2. cbn [map concat]. eapply goes_app; [exact G1|exact G2|lia..].
Qed.

Lemma soc_end st : in_soc st -> dtb_end st = (stateSOC, 0).
Proof. by intros [-> | ->]. Qed.

Lemma soc_begin d st n :
  2 <= d -> (d =? 2) && has_name n "cpu@" 4 = false -> in_soc st ->
  in_soc (dtb_begin d st n) /\ (st = stateSOC -> plic_name n = true -> dtb_begin d st n = stateSOCInterruptController).
Proof.
  intros D C Is. unfold dtb_begin, in_soc, plic_name. rewrite C. destruct (Z.eqb_spec d 0), (Z.eqb_spec d 1); try lia. cbn [andb].
  destruct Is as [-> | ->]; cbn; repeat case_match; auto; naive_solver.
Qed.

Lemma soc_deep t d st : 3 <= d -> d + height t < 2 ^ 32 -> in_soc st -> exists x, goes x 0 (flatten t) d st stateSOC 0.
Proof.
  revert d st. induction t as [n ps cs IH] using node_ind'. intros d st D Hd Is. rewrite Forall_forall in IH.
  destruct (soc_begin d st n ltac:(lia)) as [B _]; [by destruct (Z.eqb_spec d 2); [lia|]|done|].
  destruct (soc_forest (d + 1) cs (dtb_begin d st n)) as (x & s1 & I1 & G); [|done|].
  { intros t s I Is'. apply IH; [done|lia|by eapply height_children|done]. }
  pose proof (height_pos (Node n ps cs)). eexists. pose proof (goes_node x 0 n ps cs d st s1 0) as Gn. rewrite (soc_end s1 I1) in Gn.
  apply Gn; [lia| |done|done]. intros E. destruct B as [B|B]; congruence.
Qed.

Lemma soc_node2 t : 2 + height t < 2 ^ 32 -> is_cpu t = false -> exists x, goes x 0 (flatten t) 2 stateSOC stateSOC 0 /\ (is_plic t = true -> x = true).
Proof.
  intros Hd C. destruct t as [n ps cs]. unfold is_cpu in C. cbn [node_name] in C.
  destruct (soc_begin 2 stateSOC n ltac:(lia)) as [B Pl]; [by rewrite C|by left|].
  destruct (soc_forest 3 cs (dtb_begin 2 stateSOC n)) as (x & s1 & I1 & G); [|done|].
  { intros t s I Is'. apply soc_deep; [lia|by apply (height_children t 2 n ps cs)|done]. }
  pose proof (height_pos (Node n ps cs)). pose proof (goes_node x 0 n ps cs 2 stateSOC s1 0) as Gn. rewrite (soc_end s1 I1) in Gn.
  eexists. split; [apply Gn; [lia| |done|done]; intros E; destruct B as [B|B]; congruence|].
  cbn [is_plic]. intros [Hp Hq]%andb_prop. rewrite (Pl eq_refl Hp). by destruct ps.
Qed.

Definition good_soc (t : node) : bool := is_soc t && existsb is_plic (children t) && forallb (fun t => negb (is_cpu t)) (children t).

Lemma soc_node1 t st :
  pending st = false -> 1 + height t < 2 ^ 32 -> good_soc t = true ->
  exists st', pending st' = false /\ goes true (cpus_in t) (flatten t) 1 st st' (cpus_in t).
Proof.
  intros P Hd Gs. destruct t as [n ps cs]. unfold good_soc in Gs. cbn [children] in Gs. apply andb_prop in Gs as [[Sc Ex]%andb_prop Nc].
  unfold is_soc in Sc. cbn [node_name] in Sc. rewrite forallb_forall in Nc.
  assert (B : dtb_begin 1 st n = stateSOC).
  { unfold dtb_begin. cbn [Z.eqb Pos.eqb andb]. rewrite (soc_not n "memory@" 6 "m"%ch), Sc by done. by destruct st. }
  assert (Z0 : cpus_in (Node n ps cs) = 0).
  { unfold cpus_in. cbn [children]. clear -Nc. induction cs as [|c cs IH]; [done|]. cbn [map foldr]. rewrite IH by (intros; apply Nc; by right).
    unfold one. specialize (Nc c ltac:(by left)). by destruct (is_cpu c). }
  assert (F : exists x, goes x 0 (concat (map flatten cs)) 2 stateSOC stateSOC 0 /\ (existsb is_plic cs = true -> x = true)).
  { assert (Hc : forall t, t ∈ cs -> 2 + height t < 2 ^ 32) by (intros t I; by apply (height_children t 1 n ps cs)).
    clear -Nc Hc. induction cs as [|c cs IH]; [exists false; split; [apply goes_nil|done]|].
    destruct (soc_node2 c (Hc c ltac:(by left))) as (x1 & G1 & X1); [specialize (Nc c ltac:(by left)); by destruct (is_cpu c)|].
    destruct IH as (x2 & G2 & X2); [intros; apply Nc; by right|intros; apply Hc; by right|].
    exists (x1 || x2). split; [change 0 with (0 + 0) at 2; cbn [map concat]; eapply goes_app; [exact G1|exact G2|lia..]|].
    cbn [existsb]. intros [E|E]%orb_prop; [by rewrite X1|rewrite X2; [by rewrite orb_true_r|done]]. }
  destruct F as (x & G & X). rewrite (X Ex) in G. pose proof (height_pos (Node n ps cs)). rewrite Z0.
  pose proof (goes_node true 0 n ps cs 1 st stateSOC 0 ltac:(lia)) as Gn. rewrite B in Gn. exists stateSOC. split; [done|]. by apply Gn.
Qed.

(** ** The whole tree *)

Definition total_cpus (root : node) : Z := foldr Z.add 0 (map cpus_in (children root)).

Definition has_plic (root : node) : bool := existsb good_soc (children root).

Lemma root_goes root :
  height root < 2 ^ 32 -> exists x st', (has_plic root = true -> x = true) /\
    goes x (total_cpus root) (flatten root) 0 stateIdle st' (total_cpus root).
Proof.
  intros Hd. destruct root as [n ps cs]. unfold has_plic, total_cpus. cbn [children].
  assert (B : pending (dtb_begin 0 stateIdle n) = false) by (by apply quiet_begin).
  destruct (quiet_forest 1 cpus_in good_soc cs (dtb_begin 0 stateIdle n)) as (x & s1 & P1 & X & G); [|apply cpus_in_pos|done|].
  { intros t s I Ps. assert (Ht : 1 + height t < 2 ^ 32) by (by apply (height_children t 0 n ps cs)).
    destruct (good_soc t) eqn:Gs.
    - destruct (soc_node1 t s Ps Ht Gs) as (s' & P' & G'). by exists true, s'.
    - destruct (node1 t s Ps Ht) as (x & s' & P' & G'). by exists x, s'. }
  destruct (quiet_end s1 P1) as [E1 _]. set (k := foldr Z.add 0 (map cpus_in cs)) in *.
  assert (K : 0 <= k) by (unfold k; clear; induction cs as [|c cs IH]; cbn; [lia|pose proof (cpus_in_pos c); lia]).
  pose proof (goes_node x k n ps cs 0 stateIdle s1 k ltac:(lia)) as Gn. rewrite E1, Z.add_0_r in Gn.
  eexists _, _. split; [|apply Gn; [intros E; by rewrite E in B|done|done]]. intros E. rewrite X by done. by destruct (dtb_begin 0 stateIdle n), ps.
Qed.

(** Without a node of that name there is no controller. *)
Definition no_plic (e : token) : Prop := match e with TBegin n => plic_name n = false | _ => True end.

Lemma upd_cpu_exist f c c' : upd_cpu f c = Some c' -> intctl_exist c' = intctl_exist c.
Proof. unfold upd_cpu. destruct (cpus c !! _); [|done]. by intros [= <-]. Qed.

Lemma prop_exist st p o l c c' : st <> stateSOCInterruptController -> dtb_prop st p o l c = Some c' -> intctl_exist c' = intctl_exist c.
Proof.
  intros N. destruct st; cbn [dtb_prop]; try done; try (by intros [= <-]).
  - unfold dtb_parseSystem. repeat (destruct (is_string _ _) as [[]|]; cbn [mbind option_bind]; try done; try (by intros [= <-])).
  - unfold dtb_parseCPU. repeat (destruct (is_string _ _) as [[]|]; cbn [mbind option_bind]; try done; try (by intros [= <-]); try apply upd_cpu_exist).
    destruct (load32 m p); [apply upd_cpu_exist|done].
  - unfold dtb_parseMemory. repeat (destruct (is_string _ _) as [[]|]; cbn [mbind option_bind]; try done; try (by intros [= <-])).
Qed.

Lemma run_exist es p d st c c' :
  Forall no_plic es -> st <> stateSOCInterruptController -> run es p d st c = Some c' -> intctl_exist c' = intctl_exist c.
Proof.
  revert p d st c. induction es as [|e es IH]; intros p d st c F N; cbn [run]; [by intros [= ->]|].
  apply Forall_cons in F as [F0 F]. destruct e as [n|o dt| |].
  - apply IH; [done|]. cbn in F0. unfold plic_name in F0. unfold dtb_begin. rewrite F0, andb_false_r. repeat case_match; done.
  - destruct (dtb_prop st _ _ _ c) as [c1|] eqn:E; [|done]. cbn [mbind option_bind]. intros R. rewrite (IH _ _ _ _ F N R). by eapply prop_exist.
  - intros R. apply IH in R; [done|done|by destruct st].
  - by apply IH.
Qed.

(** The blob [m] of a tree. *)
Record dtb_blob (root : node) : Prop := {
  blob_magic : load32 m 0 = Some (ntoh32 0xd00dfeed);
  blob_struct : exists x, load32 m 8 = Some x /\ tokens_at m (ntoh32 x) (flatten root);
  blob_names : Forall resolved (flatten root)
}.

(** C28. For every tree with at most eight processors [dtb_parse] reads the blob to its
    end, and stays in it and in the array of processors.  It finds as many processors
    as the tree has nodes cpu@... of depth two, whatever is below and beside them.
    The interrupt controller is found when the node soc has a child plic@... or
    interrupt-controller@... with a property, and no processor; it is not found when
    no node has such a name. *)
Theorem dtb_parse_tree root c :
  dtb_blob root -> height root < 2 ^ 32 -> total_cpus root <= 8 -> length (cpus c) = 8%nat ->
  exists c', dtb_parse c = Some c' /\ ncpus c' = total_cpus root /\ (has_plic root = true -> dtb_getPLIC c' = 1) /\
    (Forall no_plic (flatten root) -> dtb_getPLIC c' = 0).
Proof.
  intros [Mg (x & E8 & T) F] Hd Hc L. unfold dtb_parse. rewrite Mg. cbn [mbind option_bind]. rewrite Z.eqb_refl. cbn [negb].
  rewrite E8. cbn [mbind option_bind]. set (c0 := mk_dtb _ _ 0 _ _ _ 0 _). pose proof (tokens_length m _ _ T).
  rewrite (dtb_loop_run (flatten root)) by (done || lia). destruct (root_goes root Hd) as (b & st' & X & G).
  rewrite <- (app_nil_r (flatten root)) in T. destruct (G [] _ c0 T F ltac:(done) Hc L) as (p' & c' & E & _ & N & _ & I1).
  rewrite app_nil_r in E. cbn [run] in E. rewrite E. cbn [mbind option_bind]. eexists. split; [done|]. cbn [ncpus].
  split; [rewrite N; cbn; lia|]. unfold dtb_getPLIC. cbn [intctl_exist]. split; [intros P; apply I1; left; by apply X|].
  intros Np. apply (run_exist _ _ _ _ _ _ Np) in E; [exact E|done].
Qed.
End dtb.

(** ** A concrete blob *)

Definition sample_dtb : list Z := blob_of sample_tree sample_strings.

Lemma dtb_parse_tree_witness :
  exists c, dtb_parse sample_dtb 0x80200000 dtb_static = Some c /\ ncpus c = 2 /\ dtb_getPLIC c = 1.
Proof.
  destruct (dtb_parse_tree sample_dtb 0x80200000 sample_tree dtb_static) as (c & E & N & P & _);
    [|by vm_compute|by vm_compute|done|].
  - split; [by vm_compute| |].
    + eexists. split; [by vm_compute|]. split; [by vm_compute|]. split; [by exists 10|]. split; [repeat constructor; by vm_compute|].
      exists sample_strings. by vm_compute.
    + repeat first [apply Forall_nil_2|apply Forall_cons_2; [first [exact I|vm_compute; by eexists]|]].
  - exists c. split; [exact E|]. split; [rewrite N; by vm_compute|]. apply P. by vm_compute.
Defined.

(** The ninth processor is written behind the array. *)
Lemma nine_cpus :
  dtb_parse (blob_of (Node [] [] [Node (str "cpus") [] (replicate 9 (sample_cpu "cpu@0"))]) sample_strings) 0 dtb_static = None.
Proof. by vm_compute. Qed.

(** Below the root the properties of every node without a state of its own are taken
    for those of the system: the last one is kept. *)
Lemma compatible_of_child :
  let t := Node [] [(0, str "board" ++ [0])] [Node (str "chosen") [(0, str "other" ++ [0])] []] in
  let m := blob_of t sample_strings in
  (c ← dtb_parse m 0 dtb_static; p ← compatible c; cstring (zdrop p m)) = Some (str "other").
Proof. by vm_compute. Qed.
