(* ===== verification/NandData.v ===== *)
(** * NAND flash of the i.MX 6ULL (src/devices/nand-imx6ull/data.c)

    The data interface skips bad blocks and keeps one page for reads and one block
    for writes.  The chip behind it (drv.c, chains of DMA descriptors) is the class
    [Nand]; [NandLaws] states what it does, its failures included.  Geometry is what
    [nanddrv_setupFlashInfo] sets: no divisor is zero.  [None] is an access outside
    a buffer. *)

From S2P Require Import Prelude Mem Devs.

Definition ENOSPC := 28.
Definition NAND_MAX_CNT := 1.
Definition NAND_ERASED_STATE := 0xff.

(** The fields of the information that data.c uses. *)
Record nanddrv_info_t := mk_info { size : Z; writesz : Z; erasesz : Z }.

(** The static state.  A device is the number of its [nand_t], [None] is NULL; the
    last fields are the memory of the linker symbols of the same names. *)
Record data_common := mk_common {
  rnand : option Z; wnand : option Z; rpage : Z; wblock : Z; nand_page : list Z; nand_block : list Z
}.

Definition set_rnand (n : option Z) (s : data_common) := mk_common n (wnand s) (rpage s) (wblock s) (nand_page s) (nand_block s).
Definition set_wnand (n : option Z) (s : data_common) := mk_common (rnand s) n (rpage s) (wblock s) (nand_page s) (nand_block s).
Definition set_rpage (p : Z) (s : data_common) := mk_common (rnand s) (wnand s) p (wblock s) (nand_page s) (nand_block s).
Definition set_wblock (b : Z) (s : data_common) := mk_common (rnand s) (wnand s) (rpage s) b (nand_page s) (nand_block s).
Definition set_page (m : list Z) (s : data_common) := mk_common (rnand s) (wnand s) (rpage s) (wblock s) m (nand_block s).
Definition set_block (m : list Z) (s : data_common) := mk_common (rnand s) (wnand s) (rpage s) (wblock s) (nand_page s) m.

(** The operations of drv.c on pages.  A read answers the bytes it stored. *)
Class Nand (W : Type) := {
  nanddrv_isbad : Z -> W -> Z * W;
  nanddrv_read : Z -> W -> Z * list Z * W;
  nanddrv_write : Z -> list Z -> W -> Z * W;
  nanddrv_erase : Z -> W -> Z * W;
  nanddrv_markbad : Z -> W -> Z * W
}.

Definition nand_get (minor : Z) : option Z := if minor <? NAND_MAX_CNT then Some 0 else None.

Definition data_invalidateNandPage (nand : Z) (s : data_common) : data_common :=
  if decide (rnand s = Some nand) then set_rnand None s else s.

(** How fetching a block into the cache ends: with the block there, with a failure
    to return, or with another block to go on at. *)
Inductive fetch {W : Type} :=
| Fetched (err : Z) (s : data_common) (w : W)
| Failed (err : Z) (s : data_common) (w : W)
| Skip (block err : Z) (s : data_common) (w : W).
Arguments fetch : clear implicits.

Section data.
  Context {W : Type} `{Nand W} (cfg : nanddrv_info_t).

Definition nblocks : Z := w32 (size cfg / erasesz cfg).
Definition npages : Z := erasesz cfg / writesz cfg.

(** [(block * npages) + i] *)
Definition page_of (block i : Z) : Z := w32 (block * npages + i).

Definition is_cached (nand block : Z) (s : data_common) : bool :=
  bool_decide (wnand s = Some nand) && (wblock s =? block).

(** ** Synchronisation *)

(** The first good block of the [k] from [block] on. *)
Fixpoint skip_bad (k : nat) (block : Z) (w : W) : Z * W :=
  match k with
  | O => (block, w)
  | S k =>
      let '(bad, w) := nanddrv_isbad (page_of block 0) w in
      if negb (bad =? 0) then skip_bad k (block + 1) w else (block, w)
  end.

(** Pages [i] to [i + k - 1] of a block, until one fails. *)
Fixpoint write_pages (k : nat) (block i : Z) (buf : list Z) (err : Z) (w : W) : option (Z * W) :=
  match k with
  | O => Some (err, w)
  | S k =>
      data ← mbytes buf (i * writesz cfg) (writesz cfg);
      let '(err, w) := nanddrv_write (page_of block i) data w in
      if err <? 0 then Some (err, w) else write_pages k block (i + 1) buf err w
  end.

Definition program_block (block : Z) (buf : list Z) (w : W) : option (Z * W) :=
  let '(err, w) := nanddrv_erase (page_of block 0) w in
  if 0 <=? err then write_pages (Z.to_nat npages) block 0 buf err w else Some (err, w).

Fixpoint sync_loop (k : nat) (s : data_common) (w : W) : option (Z * data_common * W) :=
  match k with
  | O => None
  | S k =>
      let '(wb, w) := skip_bad (Z.to_nat (nblocks - wblock s)) (wblock s) w in
      let s := set_wblock wb s in
      if nblocks <=? wb then Some (- ENOSPC, s, w)
      else
        '(err, w) ← program_block wb (nand_block s) w;
        if err <? 0 then
          let '(res, w) := nanddrv_markbad (page_of wb 0) w in
          if res <? 0 then Some (- EIO, s, w) else sync_loop k (set_wblock (wb + 1) s) w
        else Some (EOK, set_wnand None s, w)
  end.

Definition data_doSync (nand : Z) (s : data_common) (w : W) : option (Z * data_common * W) :=
  let s := data_invalidateNandPage nand s in
  if decide (wnand s = Some nand) then sync_loop (S (Z.to_nat (nblocks - wblock s))) s w else Some (EOK, s, w).

Definition data_sync (minor : Z) (s : data_common) (w : W) : option (Z * data_common * W) :=
  match nand_get minor with
  | None => Some (- ENODEV, s, w)
  | Some nand => data_doSync nand s w
  end.

Definition data_done (minor : Z) (s : data_common) (w : W) : option (Z * data_common * W) := data_sync minor s w.

(** ** Reading *)

(** The page cache after a page was asked for. *)
Definition load_page (nand block page : Z) (s : data_common) (w : W) : option (Z * data_common * W) :=
  if bool_decide (rnand s = Some nand) && (rpage s =? page) then Some (EOK, s, w)
  else
    let '(err, data, w) := nanddrv_read page w in
    pg ← mstore (nand_page s) 0 data;
    let s := set_page pg s in
    if err <? 0 then
      let '(_, w) := nanddrv_markbad (page_of block 0) w in Some (- EIO, set_rnand None s, w)
    else Some (EOK, set_rpage page (set_rnand (Some nand) s), w).

(** The pages of a block from [page] on: [k] are left, [buff] was read so far. *)
Fixpoint pages_loop (k : nat) (nand block page poffs len : Z) (buff : list Z) (s : data_common) (w : W)
    : option (Z * list Z * data_common * W) :=
  match k with
  | O => Some (EOK, buff, s, w)
  | S k =>
      if len <=? zlen buff then Some (EOK, buff, s, w)
      else
        '(err, s, w) ← load_page nand block page s w;
        if err <? 0 then Some (err, buff, s, w)
        else
          bs ← mbytes (nand_page s) poffs (Z.min (len - zlen buff) (writesz cfg - poffs));
          pages_loop k nand block (w32 (page + 1)) 0 len (buff ++ bs) s w
  end.

(** A block from [boffs] on, out of the cache or the chip. *)
Definition read_block (nand block boffs len : Z) (buff : list Z) (s : data_common) (w : W) : option (Z * list Z * data_common * W) :=
  if is_cached nand block s then
    bs ← mbytes (nand_block s) boffs (Z.min (len - zlen buff) (erasesz cfg - boffs));
    Some (EOK, buff ++ bs, s, w)
  else
    pages_loop (Z.to_nat (npages - boffs / writesz cfg)) nand block (page_of block (boffs / writesz cfg))
      (boffs mod writesz cfg) len buff s w.

(** [k] blocks are left from [block] on. *)
Fixpoint read_loop (k : nat) (nand block boffs len : Z) (buff : list Z) (s : data_common) (w : W)
    : option (Z * list Z * data_common * W) :=
  if len <=? zlen buff then Some (s32 (Z.min (zlen buff) len), buff, s, w)
  else
    match k with
    | O => Some (s32 (Z.min (zlen buff) len), buff, s, w)
    | S k =>
        let '(bad, w) := nanddrv_isbad (page_of block 0) w in
        if negb (bad =? 0) then read_loop k nand (block + 1) boffs len buff s w
        else
          '(err, buff, s, w) ← read_block nand block boffs len buff s w;
          if err <? 0 then Some (err, buff, s, w) else read_loop k nand (block + 1) 0 len buff s w
    end.

(** [null] is [buff == NULL]; the bytes stored to [buff] are part of the result. *)
Definition data_read (minor offs : Z) (null : bool) (len timeout : Z) (s : data_common) (w : W)
    : option (Z * list Z * data_common * W) :=
  match nand_get minor with
  | None => Some (- ENODEV, [], s, w)
  | Some nand =>
      if negb (len =? 0) && null || (size cfg <=? offs) then Some (- EINVAL, [], s, w)
      else
        let len := Z.min len (size cfg - offs) in
        if len =? 0 then Some (0, [], s, w)
        else
          let block := offs / erasesz cfg in
          read_loop (Z.to_nat (nblocks - block)) nand block (offs mod erasesz cfg) len [] s w
  end.

(** ** Writing *)

(** Pages [i] to [i + k - 1] of a block into [buf], until one fails; also the index
    reached. *)
Fixpoint read_into (k : nat) (block i : Z) (buf : list Z) (err : Z) (w : W) : option (Z * Z * list Z * W) :=
  match k with
  | O => Some (err, i, buf, w)
  | S k =>
      let '(err, data, w) := nanddrv_read (page_of block i) w in
      buf ← mstore buf (i * writesz cfg) data;
      if err <? 0 then Some (err, i, buf, w) else read_into k block (i + 1) buf err w
  end.

(** The parts of a block around [n] bytes at [boffs]. *)
Definition read_around (block boffs n : Z) (buf : list Z) (err : Z) (w : W) : option (Z * list Z * W) :=
  '(err, i, buf, w) ← read_into (Z.to_nat ((boffs + writesz cfg - 1) / writesz cfg)) block 0 buf err w;
  if 0 <=? err then
    let i := Z.max i (w32 (boffs + n) / writesz cfg) in
    '(err, _, buf, w) ← read_into (Z.to_nat (npages - i)) block i buf err w;
    Some (err, buf, w)
  else Some (err, buf, w).

(** A block around [n] bytes at [boffs] into the cache; one that cannot be read is
    marked. *)
Definition fetch_around (nand block boffs n err : Z) (s : data_common) (w : W) : option (fetch W) :=
  '(err, buf, w) ← read_around block boffs n (nand_block s) err w;
  let s := set_block buf s in
  if err <? 0 then
    let '(res, w) := nanddrv_markbad (page_of block 0) w in
    if res <? 0 then Some (Failed (- EIO) s w) else Some (Skip (block + 1) err s w)
  else Some (Fetched err (set_wblock block (set_wnand (Some nand) s)) w).

(** The cache made ready for a write of [n] bytes at [boffs] of a block. *)
Definition write_fetch (nand block boffs n err : Z) (s : data_common) (w : W) : option (fetch W) :=
  if is_cached nand block s then Some (Fetched err s w)
  else
    let cblock := wblock s in
    match wnand s with
    | None => fetch_around nand block boffs n err s w
    | Some cnand =>
        '(err, s, w) ← data_doSync cnand s w;
        if err <? 0 then Some (Failed err s w)
        else if (nand =? cnand) && (cblock <? block) && (block <=? wblock s) then Some (Skip (wblock s + 1) err s w)
        else fetch_around nand block boffs n err s w
    end.

(** At most [k] blocks are visited; [ret] bytes of [buff] are written. *)
Fixpoint write_loop (k : nat) (nand block boffs ret len : Z) (buff : list Z) (err : Z) (s : data_common) (w : W)
    : option (Z * data_common * W) :=
  if negb ((block <? nblocks) && (ret <? len)) then Some (s32 (Z.min ret len), s, w)
  else
    match k with
    | O => None
    | S k =>
        let '(bad, w) := nanddrv_isbad (page_of block 0) w in
        if negb (bad =? 0) then write_loop k nand (block + 1) boffs ret len buff err s w
        else
          f ← write_fetch nand block boffs (len - ret) err s w;
          match f with
          | Failed err s w => Some (err, s, w)
          | Skip block err s w => write_loop k nand block boffs ret len buff err s w
          | Fetched err s w =>
              let n := Z.min (len - ret) (erasesz cfg - boffs) in
              bs ← mbytes buff ret n;
              nb ← mstore (nand_block s) boffs bs;
              write_loop k nand (block + 1) 0 (ret + n) len buff err (set_block nb s) w
          end
    end.

(** [buff] is [None] for NULL. *)
Definition data_write (minor offs : Z) (buff : option (list Z)) (len : Z) (s : data_common) (w : W)
    : option (Z * data_common * W) :=
  match nand_get minor with
  | None => Some (- ENODEV, s, w)
  | Some nand =>
      if negb (len =? 0) && bool_decide (buff = None) || (size cfg <=? offs) then Some (- EINVAL, s, w)
      else
        let len := Z.min len (size cfg - offs) in
        if len =? 0 then Some (0, s, w)
        else
          write_loop (Z.to_nat nblocks) nand (offs / erasesz cfg) (offs mod erasesz cfg) 0 len (default [] buff) 0
            (data_invalidateNandPage nand s) w
  end.

(** ** Erasing *)

(** The whole of a block into the cache. *)
Definition fetch_whole (nand block err : Z) (s : data_common) (w : W) : option (fetch W) :=
  '(err, _, buf, w) ← read_into (Z.to_nat npages) block 0 (nand_block s) err w;
  let s := set_block buf s in
  if err <? 0 then
    let '(res, w) := nanddrv_markbad (page_of block 0) w in
    if res <? 0 then Some (Failed (- EIO) s w) else Some (Skip (block + 1) res s w)
  else Some (Fetched err (set_wblock block (set_wnand (Some nand) s)) w).

Definition erase_fetch (nand block : Z) (s : data_common) (w : W) : option (fetch W) :=
  if is_cached nand block s then Some (Fetched 0 s w)
  else
    '(err, s, w) ← match wnand s with None => Some (EOK, s, w) | Some cnand => data_doSync cnand s w end;
    if err <? 0 then Some (Failed err s w) else fetch_whole nand block err s w.

(** The loop of [data_erase]: [k] blocks are left from [block] on. *)
Fixpoint erase_loop (k : nat) (nand offs block boffs ret len : Z) (s : data_common) (w : W) : option (Z * data_common * W) :=
  if len <=? ret then Some (s32 ret, s, w)
  else
    match k with
    | O => Some (s32 ret, s, w)
    | S k =>
        let '(bad, w) := nanddrv_isbad (page_of block 0) w in
        if negb (bad =? 0) then erase_loop k nand offs (block + 1) boffs ret len s w
        else if negb (offs =? 0) || (len <? w32 (ret + erasesz cfg)) then
          f ← erase_fetch nand block s w;
          match f with
          | Failed err s w => Some (err, s, w)
          | Skip block _ s w => erase_loop k nand offs block boffs ret len s w
          | Fetched _ s w =>
              let n := Z.min (len - ret) (erasesz cfg - boffs) in
              nb ← mstore (nand_block s) boffs (replicate (Z.to_nat n) NAND_ERASED_STATE);
              erase_loop k nand offs (block + 1) 0 (ret + n) len (set_block nb s) w
          end
        else
          let s := if is_cached nand block s then set_wnand None s else s in
          let '(err, w) := nanddrv_erase (page_of block 0) w in
          if err <? 0 then
            let '(res, w) := nanddrv_markbad (page_of block 0) w in
            if res <? 0 then Some (- EIO, s, w) else erase_loop k nand offs (block + 1) boffs ret len s w
          else erase_loop k nand offs (block + 1) boffs (ret + erasesz cfg) len s w
    end.

Definition data_erase (minor offs len flags : Z) (s : data_common) (w : W) : option (Z * data_common * W) :=
  match nand_get minor with
  | None => Some (- ENODEV, s, w)
  | Some nand =>
      if size cfg <=? offs then Some (- EINVAL, s, w)
      else
        let len := Z.min len (size cfg - offs) in
        if len =? 0 then Some (0, s, w)
        else
          let block := offs / erasesz cfg in
          erase_loop (Z.to_nat (nblocks - block)) nand offs block (offs mod erasesz cfg) 0 len
            (data_invalidateNandPage nand s) w
  end.

Definition data_map (minor addr sz mode memaddr memsz memmode : Z) : Z :=
  if NAND_MAX_CNT <=? minor then - EINVAL
  else if negb (Z.land mode memmode =? mode) then - EINVAL
  else dev_isNotMappable.

End data.

(** ** What the chip does

    [chip] are the bytes of all pages, [bad] the blocks with a marker.  An operation
    that fails may leave what it worked on in any state. *)

Section chip.
  Context {W : Type} (cfg : nanddrv_info_t).

Record cfg_ok : Prop := {
  ok_writesz : 0 < writesz cfg;
  ok_npages : 0 < npages cfg;
  ok_erasesz : erasesz cfg = npages cfg * writesz cfg;
  ok_nblocks : 0 < nblocks cfg;
  ok_size : size cfg = nblocks cfg * erasesz cfg;
  ok_bits : size cfg < 2 ^ 31
}.

Class NandLaws `{Nand W} := {
  chip : W -> list Z;
  bad : W -> Z -> bool;
  chip_length w : zlen (chip w) = size cfg;
  isbad_law b w : 0 <= b < nblocks cfg ->
    exists r w', nanddrv_isbad (b * npages cfg) w = (r, w') /\ (r =? 0) = negb (bad w b) /\
      chip w' = chip w /\ forall b', bad w' b' = bad w b';
  read_law p w : 0 <= p < nblocks cfg * npages cfg ->
    exists r data w', nanddrv_read p w = (r, data, w') /\ zlen data = writesz cfg /\
      (0 <= r -> data = zslice (p * writesz cfg) (writesz cfg) (chip w)) /\
      chip w' = chip w /\ forall b', bad w' b' = bad w b';
  erase_law b w : 0 <= b < nblocks cfg ->
    exists r x w', nanddrv_erase (b * npages cfg) w = (r, w') /\ zlen x = erasesz cfg /\
      (0 <= r -> x = replicate (Z.to_nat (erasesz cfg)) NAND_ERASED_STATE) /\
      chip w' = splice (b * erasesz cfg) x (chip w) /\ forall b', bad w' b' = bad w b';
  write_law p data w : 0 <= p < nblocks cfg * npages cfg -> zlen data = writesz cfg ->
    exists r x w', nanddrv_write p data w = (r, w') /\ zlen x = writesz cfg /\
      (0 <= r -> zslice (p * writesz cfg) (writesz cfg) (chip w) = replicate (Z.to_nat (writesz cfg)) NAND_ERASED_STATE -> x = data) /\
      chip w' = splice (p * writesz cfg) x (chip w) /\ forall b', bad w' b' = bad w b';
  markbad_law b w : 0 <= b < nblocks cfg ->
    exists r x w', nanddrv_markbad (b * npages cfg) w = (r, w') /\ zlen x = erasesz cfg /\
      (0 <= r -> bad w' b = true) /\
      chip w' = splice (b * erasesz cfg) x (chip w) /\ forall b', b' <> b -> bad w' b' = bad w b'
}.

(** A chip on which good blocks do not fail. *)
Class Reliable `{NandLaws} := {
  read_works b i w : 0 <= b < nblocks cfg -> 0 <= i < npages cfg -> bad w b = false ->
    0 <= (nanddrv_read (b * npages cfg + i) w).1.1;
  erase_works b w : 0 <= b < nblocks cfg -> bad w b = false -> 0 <= (nanddrv_erase (b * npages cfg) w).1;
  write_works b i data w : 0 <= b < nblocks cfg -> 0 <= i < npages cfg -> bad w b = false ->
    0 <= (nanddrv_write (b * npages cfg + i) data w).1
}.
End chip.
Arguments chip {W cfg _ _} w.
Arguments bad {W cfg _ _} w b.
Arguments chip_length {W cfg _ _} w.
Arguments isbad_law {W cfg _ _} b w.
Arguments read_law {W cfg _ _} p w.
Arguments erase_law {W cfg _ _} b w.
Arguments write_law {W cfg _ _} p data w.
Arguments markbad_law {W cfg _ _} b w.
Arguments read_works {W cfg _ _ _} b i w.
Arguments erase_works {W cfg _ _ _} b w.
Arguments write_works {W cfg _ _ _} b i data w.

Section laws.
  Context {W : Type} (cfg : nanddrv_info_t) `{L : NandLaws W cfg} (Ok : cfg_ok cfg).

Abbreviation ws := (writesz cfg).
Abbreviation es := (erasesz cfg).
Abbreviation nb := (nblocks cfg).
Abbreviation np := (npages cfg).

Lemma es_pos : 0 < es.
Proof. destruct Ok. nia. Qed.

Lemma page_small b i : 0 <= b < nb -> 0 <= i <= np -> page_of cfg b i = b * np + i.
Proof.
  intros B I. pose proof es_pos. destruct Ok. apply w32_small.
  assert (b * np + i <= nb * np) by nia. assert (nb * np * 1 <= nb * np * ws) by nia. nia.
Qed.

Lemma page_range b i : 0 <= b < nb -> 0 <= i < np -> 0 <= b * np + i < nb * np.
Proof. nia. Qed.

Lemma page_offs b i : (b * np + i) * ws = b * es + i * ws.
Proof. rewrite (ok_erasesz cfg Ok). lia. Qed.

(** A block lies in the chip, a page in its block. *)
Lemma block_in b : 0 <= b < nb -> 0 <= b * es /\ b * es + es <= size cfg.
Proof. pose proof es_pos. rewrite (ok_size cfg Ok). nia. Qed.

Lemma page_in i : 0 <= i < np -> 0 <= i * ws /\ i * ws + ws <= es.
Proof. pose proof (ok_writesz cfg Ok). rewrite (ok_erasesz cfg Ok). nia. Qed.

(** The content of a block. *)
Definition block_of (l : list Z) (b : Z) : list Z := zslice (b * es) es l.

Lemma block_of_length l b : zlen l = size cfg -> 0 <= b < nb -> zlen (block_of l b) = es.
Proof. intros E B. pose proof es_pos. pose proof (block_in b B). apply length_zslice; lia. Qed.

(** *** Synchronisation

    A block that fails is marked, so the first good block that works is the first
    good block after it. *)

Lemma skip_bad_spec k b w : 0 <= b -> b + Z.of_nat k = nb ->
  exists b' w', skip_bad cfg k b w = (b', w') /\ b <= b' <= nb /\ chip w' = chip w /\ (forall i, bad w' i = bad w i) /\
    (forall i, b <= i < b' -> bad w i = true) /\ (b' < nb -> bad w b' = false).
Proof.
  revert b w. induction k as [|k IH]; intros b w B K.
  { exists b, w. cbn. split_and!; try done; lia. }
  cbn [skip_bad]. rewrite page_small, Z.add_0_r by (pose proof (ok_npages cfg Ok); lia).
  destruct (isbad_law b w) as (r & w1 & -> & R & C & Bd); [lia|]. rewrite R, negb_involutive.
  destruct (bad w b) eqn:Bb.
  - destruct (IH (b + 1) w1) as (b' & w' & -> & ? & C' & Bd' & Sk & G); [lia..|].
    exists b', w'. split_and!; try done; try lia; [congruence|intros; by rewrite Bd', Bd| |intros; rewrite <- Bd; auto].
    intros i I. destruct (Z.eq_dec i b) as [-> |]; [done|]. rewrite <- Bd. apply Sk. lia.
  - exists b, w1. split_and!; try done; lia.
Qed.

(** An erased block after its pages from [i] on were written from [buf]. *)
Lemma write_pages_spec k b i buf err w :
  0 <= b < nb -> 0 <= i -> i + Z.of_nat k = np -> es <= zlen buf -> 0 <= err ->
  zslice (b * es + i * ws) (es - i * ws) (chip w) = replicate (Z.to_nat (es - i * ws)) NAND_ERASED_STATE ->
  exists r x w', write_pages cfg k b i buf err w = Some (r, w') /\ zlen x = es - i * ws /\
    (0 <= r -> x = zslice (i * ws) (es - i * ws) buf) /\
    chip w' = splice (b * es + i * ws) x (chip w) /\ forall b', bad w' b' = bad w b'.
Proof.
  intros B. revert i err w. induction k as [|k IH]; intros i err w I K Lb Pe Er.
  { exists err, [], w. assert (i * ws = es) by (rewrite (ok_erasesz cfg Ok); nia).
    cbn. rewrite splice_nil. replace (es - i * ws) with 0 by lia. split_and!; try done. }
  assert (Ii : 0 <= i < np) by lia. pose proof (page_in i Ii) as [P0 P1]. pose proof (ok_writesz cfg Ok). pose proof (block_in b B).
  pose proof (chip_length w) as Lw. pose proof (page_range b i B Ii).
  cbn [write_pages]. rewrite mbytes_ok by lia. cbn [mbind option_bind].
  rewrite page_small by lia.
  destruct (write_law (b * np + i) (zslice (i * ws) ws buf) w) as (r & x & w1 & -> & Lx & X & C & Bd);
    [lia|by rewrite length_zslice by lia|].
  assert (X' : 0 <= r -> x = zslice (i * ws) ws buf).
  { intros R. apply X; [done|]. rewrite page_offs. apply (f_equal (zslice 0 ws)) in Er.
    rewrite zslice_zslice, Z.add_0_r in Er by lia. rewrite Er, zslice_0, take_replicate. f_equal. lia. }
  clear X. rewrite page_offs in C.
  destruct (Z.ltb_spec r 0) as [Neg|Pos].
  { exists r, (x ++ zslice (b * es + (i + 1) * ws) (es - (i + 1) * ws) (chip w)), w1. split; [done|].
    assert (Lr : zlen (zslice (b * es + (i + 1) * ws) (es - (i + 1) * ws) (chip w)) = es - (i + 1) * ws) by (apply length_zslice; lia).
    split_and!; [rewrite length_app; lia|lia| |done].
    rewrite C, <- splice_app by lia.
    replace (b * es + i * ws + zlen x) with (b * es + (i + 1) * ws) by lia.
    rewrite <- (zslice_splice_after (b * es + i * ws) _ _ x (chip w)) by lia. rewrite splice_zslice; [done|lia..|].
    rewrite length_splice by lia. lia. }
  destruct (IH (i + 1) r w1) as (r' & y & w' & -> & Ly & Y & C' & Bd'); [lia|lia|done|done| |].
  { rewrite C, zslice_splice_after by lia. apply (f_equal (zslice ws (es - (i + 1) * ws))) in Er.
    rewrite zslice_zslice in Er by lia. replace (b * es + (i + 1) * ws) with (b * es + i * ws + ws) by lia.
    rewrite Er. unfold zslice. rewrite drop_replicate, take_replicate. f_equal. lia. }
  exists r', (x ++ y), w'. split_and!; [done|rewrite length_app; lia| | |intros; by rewrite Bd'].
  - intros R. rewrite X', Y by done. replace (es - i * ws) with (ws + (es - (i + 1) * ws)) by lia. rewrite zslice_app by lia.
    do 2 f_equal; lia.
  - rewrite C', C. replace (b * es + (i + 1) * ws) with (b * es + i * ws + zlen x) by lia. rewrite splice_app by lia. done.
Qed.

Lemma program_block_spec b buf w :
  0 <= b < nb -> es <= zlen buf ->
  exists r x w', program_block cfg b buf w = Some (r, w') /\ zlen x = es /\ (0 <= r -> x = ztake es buf) /\
    chip w' = splice (b * es) x (chip w) /\ forall b', bad w' b' = bad w b'.
Proof.
  intros B Lb. unfold program_block. pose proof (ok_npages cfg Ok). pose proof (chip_length w). pose proof (block_in b B). pose proof es_pos.
  rewrite page_small, Z.add_0_r by lia. destruct (erase_law b w) as (r & x & w1 & -> & Lx & X & C & Bd); [lia|].
  destruct (Z.leb_spec 0 r); [|exists r, x, w1; split_and!; done || lia].
  destruct (write_pages_spec (Z.to_nat np) b 0 buf r w1) as (r' & y & w' & -> & Ly & Y & C' & Bd'); [lia..| |].
  { rewrite C, X by lia. rewrite Z.mul_0_l, Z.add_0_r, Z.sub_0_r, zslice_splice_same; [done|lia|..];
      rewrite length_replicate; lia. }
  rewrite Z.mul_0_l, Z.sub_0_r in *. rewrite Z.add_0_r in C'.
  exists r', y, w'. split_and!; [done|done|done| |intros; by rewrite Bd'].
  rewrite C', C. apply splice_splice_same; lia.
Qed.

(** Blocks [b] of [w'] that are as in [w]. *)
Definition same_block (w w' : W) (b : Z) : Prop := bad w' b = bad w b /\ block_of (chip w') b = block_of (chip w) b.

Lemma block_of_splice l b b' x :
  zlen l = size cfg -> 0 <= b < nb -> 0 <= b' < nb -> b' <> b -> zlen x = es -> block_of (splice (b * es) x l) b' = block_of l b'.
Proof.
  intros Ll B B' N Lx. pose proof es_pos. pose proof (block_in b B). pose proof (block_in b' B'). unfold block_of.
  destruct (Z.lt_ge_cases b' b); [rewrite zslice_splice_before by nia|rewrite zslice_splice_after by nia]; done.
Qed.

Lemma block_of_splice_same l b x : zlen l = size cfg -> 0 <= b < nb -> zlen x = es -> block_of (splice (b * es) x l) b = x.
Proof. intros Ll B Lx. pose proof (block_in b B). unfold block_of. apply zslice_splice_same; lia. Qed.

(** What synchronising the block cached for [b] does, whatever fails on the way. *)
Definition synced (b : Z) (s : data_common) (w : W) (r : Z) (s' : data_common) (w' : W) : Prop :=
  nand_block s' = nand_block s /\ b <= wblock s' /\
  (forall i, 0 <= i < nb -> i < b \/ wblock s' < i -> same_block w w' i) /\
  (r = EOK /\ wnand s' = None /\ wblock s' < nb /\ bad w' (wblock s') = false /\
     block_of (chip w') (wblock s') = ztake es (nand_block s) /\ (forall i, b <= i < wblock s' -> bad w' i = true) \/
   r = - ENOSPC /\ wnand s' = wnand s /\ (forall i, b <= i < nb -> bad w' i = true) \/
   r = - EIO /\ wnand s' = wnand s).

Lemma sync_loop_spec k s w :
  0 <= wblock s -> nb - wblock s < Z.of_nat k -> es <= zlen (nand_block s) -> wblock s <= nb ->
  exists r s' w', sync_loop cfg k s w = Some (r, s', w') /\ synced (wblock s) s w r s' w'.
Proof.
  revert s w. induction k as [|k IH]; intros s w B K Lb Le; [lia|]. cbn [sync_loop].
  destruct (skip_bad_spec (Z.to_nat (nb - wblock s)) (wblock s) w) as (b & w1 & -> & R & C & Bd & Sk & G); [lia..|].
  cbn [wblock set_wblock]. destruct (Z.leb_spec nb b) as [Gb|Lt].
  { eexists _, _, w1. split; [done|]. split; [done|]. split; [cbn; lia|].
    split; [intros; split; [done|by rewrite C]|]. right; left. split_and!; [done..|]. intros. rewrite Bd. apply Sk. lia. }
  cbn [nand_block set_wblock]. destruct (program_block_spec b (nand_block s) w1) as (r & x & w2 & -> & Lx & X & C2 & Bd2); [lia|done|].
  cbn [mbind option_bind]. pose proof (chip_length w1) as L1. pose proof (chip_length w2) as L2.
  destruct (Z.ltb_spec r 0) as [Neg|Pos].
  2: { eexists _, _, w2. split; [done|]. split; [done|]. cbn [wblock set_wnand set_wblock]. split; [lia|].
    split; [|left; split_and!].
    - intros i I O. split; [by rewrite Bd2, Bd|]. by rewrite C2, block_of_splice, C by lia.
    - done.
    - done.
    - lia.
    - rewrite Bd2, Bd. auto.
    - rewrite C2, block_of_splice_same by lia. auto.
    - intros. rewrite Bd2, Bd. auto. }
  pose proof (ok_npages cfg Ok). rewrite page_small, Z.add_0_r by lia.
  destruct (markbad_law b w2) as (r' & y & w3 & -> & Ly & M & C3 & Bd3); [lia|].
  destruct (Z.ltb_spec r' 0).
  { eexists _, _, w3. split; [done|]. split; [done|]. cbn [wblock set_wnand set_wblock]. split; [lia|].
    split; [|by right; right].
    intros i I O. split; [rewrite Bd3, Bd2 by lia; done|].
    rewrite C3, block_of_splice, C2, block_of_splice, C by lia. done. }
  destruct (IH (set_wblock (b + 1) (set_wblock b s)) w3) as (r'' & s' & w' & -> & Nb & Le' & Sm & D); [cbn; lia..|].
  cbn [wblock set_wblock nand_block wnand] in *.
  assert (Bb : forall i, wblock s <= i < b + 1 -> bad w' i = true).
  { intros i I. destruct (Sm i) as [-> _]; [lia..|]. destruct (Z.eq_dec i b) as [-> |]; [by apply M|].
    rewrite Bd3, Bd2, Bd by lia. apply Sk. lia. }
  assert (All : forall j, (forall i, b + 1 <= i < j -> bad w' i = true) -> forall i, wblock s <= i < j -> bad w' i = true).
  { intros j F i I. destruct (Z.lt_ge_cases i (b + 1)); [apply Bb; lia|apply F; lia]. }
  exists r'', s', w'. split; [done|]. split; [done|]. split; [lia|]. split.
  - intros i I O. destruct (Sm i I ltac:(lia)) as [S1 S2]. split; [rewrite S1, Bd3, Bd2 by lia; done|].
    rewrite S2, C3, block_of_splice, C2, block_of_splice, C by lia. done.
  - destruct D as [(-> & ? & ? & ? & ? & F)|[(-> & ? & F)|(-> & ?)]]; [left|right; left|right; right]; split_and!; try done; by apply All.
Qed.

(** *** The content behind the caches *)

Definition view (s : data_common) (w : W) : list Z :=
  if decide (wnand s = Some 0) then splice (wblock s * es) (ztake es (nand_block s)) (chip w) else chip w.

(** The bytes of the good ones of [k] blocks from [b] on. *)
Fixpoint good_bytes (k : nat) (b : Z) (l : list Z) (isbad : Z -> bool) : list Z :=
  match k with
  | O => []
  | S k => (if isbad b then [] else block_of l b) ++ good_bytes k (b + 1) l isbad
  end.

Definition good_from (b : Z) (s : data_common) (w : W) : list Z := good_bytes (Z.to_nat (nb - b)) b (view s w) (bad w).

Record state_ok (s : data_common) (w : W) : Prop := {
  st_page : ws <= zlen (nand_page s);
  st_block : es <= zlen (nand_block s);
  st_rnand : rnand s = Some 0 ->
    0 <= rpage s < nb * np /\ ztake ws (nand_page s) = zslice (rpage s * ws) ws (chip w);
  st_wnand : wnand s = Some 0 -> 0 <= wblock s < nb /\ bad w (wblock s) = false;
  st_dev : (wnand s = None \/ wnand s = Some 0) /\ (rnand s = None \/ rnand s = Some 0)
}.

Lemma nand_view_length s w : state_ok s w -> zlen (view s w) = size cfg.
Proof.
  intros S. unfold view. rewrite <- (chip_length w). destruct (decide _) as [E|]; [|done].
  destruct (st_wnand s w S E) as [B _]. pose proof (block_in _ B). pose proof (st_block s w S). pose proof (chip_length w).
  rewrite length_splice; [done|lia|]. rewrite length_take. lia.
Qed.

(** Blocks that are not cached are those of the chip. *)
Lemma view_block s w b : state_ok s w -> 0 <= b < nb -> is_cached 0 b s = false -> block_of (view s w) b = block_of (chip w) b.
Proof.
  intros S B N. unfold view, is_cached in *. destruct (decide _) as [E|]; [|done]. rewrite bool_decide_true in N by done.
  destruct (st_wnand s w S E) as [B' _]. pose proof (st_block s w S). pose proof (chip_length w). pose proof es_pos.
  apply block_of_splice; [done|done|done|cbn in N; lia|rewrite length_take; lia].
Qed.

Lemma view_cached s w : state_ok s w -> wnand s = Some 0 -> block_of (view s w) (wblock s) = ztake es (nand_block s).
Proof.
  intros S E. unfold view. rewrite decide_True by done. destruct (st_wnand s w S E) as [B' _].
  pose proof (st_block s w S). pose proof (chip_length w). pose proof es_pos. apply block_of_splice_same; [done|done|rewrite length_take; lia].
Qed.

Lemma good_bytes_ext k b l l' f f' :
  (forall i, b <= i < b + Z.of_nat k -> f' i = f i /\ (f i = false -> block_of l' i = block_of l i)) ->
  good_bytes k b l' f' = good_bytes k b l f.
Proof.
  revert b. induction k as [|k IH]; intros b E; [done|]. cbn [good_bytes].
  destruct (E b) as [-> Eb]; [lia|]. f_equal; [destruct (f b); auto|apply IH; intros; apply E; lia].
Qed.

(** *** Reading *)

(** The bytes and the blocks are as before. *)
Definition steady (s : data_common) (w : W) (s' : data_common) (w' : W) : Prop :=
  chip w' = chip w /\ (forall b, bad w' b = bad w b) /\
  wnand s' = wnand s /\ wblock s' = wblock s /\ nand_block s' = nand_block s.

(** A block was lost, because a page of it could not be read, and the caches are
    sound. *)
Definition lost (w : W) (s' : data_common) (w' : W) : Prop :=
  state_ok s' w' /\ exists b, 0 <= b < nb /\ bad w b = false /\ (forall i, 0 <= i < nb -> i <> b -> same_block w w' i) /\
    exists i w0, 0 <= i < np /\ (forall b', bad w0 b' = bad w b') /\ (nanddrv_read (b * np + i) w0).1.1 < 0.

Lemma steady_refl s w : steady s w s w.
Proof. done. Qed.

Lemma steady_trans s w s1 w1 s2 w2 : steady s w s1 w1 -> steady s1 w1 s2 w2 -> steady s w s2 w2.
Proof.
  unfold steady. intros (C & B & E1 & E2 & E3) (C' & B' & E1' & E2' & E3'). split_and!; congruence.
Qed.

Lemma steady_view s w s' w' : steady s w s' w' -> view s' w' = view s w.
Proof. unfold steady, view. by intros (-> & B & -> & -> & ->). Qed.

Lemma steady_lost s w s1 w1 s' w' : steady s w s1 w1 -> lost w1 s' w' -> lost w s' w'.
Proof.
  intros (C & B & _) (S & b & Bb & Bd & E & i & w0 & I & B0 & F). split; [done|]. exists b. split; [done|]. split; [by rewrite <- B|]. split.
  - intros j J N. unfold same_block in *. rewrite <- B, <- C. auto.
  - exists i, w0. split; [done|]. split; [intros; by rewrite B0|done].
Qed.

Lemma steady_ok s w w1 : state_ok s w -> chip w1 = chip w -> (forall b, bad w1 b = bad w b) -> state_ok s w1.
Proof. intros [A B C D E] Ch Bd. split; rewrite ?Ch, ?Bd; done. Qed.

Lemma load_page_spec s w b i :
  state_ok s w -> 0 <= b < nb -> 0 <= i < np -> bad w b = false -> is_cached 0 b s = false ->
  exists r s' w', load_page cfg 0 b (b * np + i) s w = Some (r, s', w') /\
    (r = EOK /\ state_ok s' w' /\ steady s w s' w' /\
       ztake ws (nand_page s') = zslice (b * es + i * ws) ws (chip w) \/
     r = - EIO /\ lost w s' w').
Proof.
  intros S B I Bb Nc. pose proof S as [S1 S2 S3 S4 S5]. unfold load_page. destruct (bool_decide _ && _) eqn:Hit.
  { apply andb_true_iff in Hit as [R P]. apply bool_decide_eq_true in R. apply Z.eqb_eq in P.
    exists EOK, s, w. split; [done|]. left. split_and!; try done. destruct (S3 R) as [_ E]. rewrite E, P, page_offs. done. }
  pose proof (page_range b i B I) as Pr. destruct (read_law (b * np + i) w Pr) as (r & data & w1 & Er & Ld & D & C & Bd).
  pose proof (ok_writesz cfg Ok). rewrite Er, mstore_ok by lia. cbn [mbind option_bind].
  set (pg := splice 0 data (nand_page s)).
  assert (Lp : zlen pg = zlen (nand_page s)) by (unfold pg; rewrite length_splice; lia).
  destruct (Z.ltb_spec r 0) as [Neg|Pos].
  - rewrite page_small, Z.add_0_r by lia. destruct (markbad_law b w1 B) as (r' & x & w2 & -> & Lx & _ & C2 & Bd2).
    exists (- EIO). do 2 eexists. split; [done|]. right. split; [done|]. split.
    + split; cbn; [lia|done|done| |naive_solver]. intros E. destruct (S4 E) as [W1 W2]. split; [done|].
      unfold is_cached in Nc. rewrite bool_decide_true in Nc by done. rewrite Bd2, Bd by (cbn in Nc; lia). done.
    + exists b. split; [done|]. split; [done|]. split.
      * intros j J N. split; [rewrite Bd2, Bd by done; done|]. rewrite C2, block_of_splice, C by (rewrite ?chip_length; done). done.
      * exists i, w. split; [done|]. split; [done|]. by rewrite Er.
  - exists EOK. do 2 eexists. split; [done|]. left. split; [done|].
    assert (Tk : ztake ws pg = zslice (b * es + i * ws) ws (chip w)).
    { rewrite <- zslice_0. unfold pg. rewrite zslice_splice_same, D, page_offs by lia. done. }
    split; [split; cbn|split]; [lia|done| | |naive_solver|done|done].
    + intros _. rewrite Tk, C, page_offs. by split.
    + intros E. rewrite Bd. auto.
Qed.

(** Bytes taken from a list, or the head of them when a page could not be read. *)
Definition took (m : Z) (l buff : list Z) (r : Z) (out : list Z) : Prop :=
  r = EOK /\ out = buff ++ ztake m l \/ r = - EIO /\ out `prefix_of` buff ++ ztake m l.

Lemma pages_loop_spec k b i poffs len buff s w :
  state_ok s w -> 0 <= b < nb -> 0 <= i -> i + Z.of_nat k = np -> bad w b = false -> is_cached 0 b s = false ->
  0 <= poffs < ws -> (k = 0%nat -> poffs = 0) -> zlen buff <= len ->
  exists r out s' w', pages_loop cfg k 0 b (b * np + i) poffs len buff s w = Some (r, out, s', w') /\
    took (len - zlen buff) (zslice (b * es + i * ws + poffs) (es - i * ws - poffs) (chip w)) buff r out /\
    (if decide (r = EOK) then state_ok s' w' /\ steady s w s' w' else lost w s' w').
Proof.
  intros S B. revert i poffs buff s w S. induction k as [|k IH]; intros i poffs buff s w S I K Bb Nc P P0 Lb; cbn [pages_loop].
  { exists EOK, buff, s, w. split; [done|]. rewrite decide_True by done. split; [|by split].
    left. split; [done|]. rewrite (P0 eq_refl). replace (es - i * ws - 0) with 0 by (rewrite (ok_erasesz cfg Ok); nia).
    by rewrite zslice_nil, take_nil, app_nil_r. }
  destruct (Z.leb_spec len (zlen buff)).
  { exists EOK, buff, s, w. split; [done|]. rewrite decide_True by done. split; [|by split].
    left. split; [done|]. replace (len - zlen buff) with 0 by lia. by rewrite take_0, app_nil_r. }
  assert (Ii : 0 <= i < np) by lia. pose proof (page_in i Ii) as [Q0 Q1]. pose proof (block_in b B) as [R0 R1].
  destruct (load_page_spec s w b i S B Ii Bb Nc) as (r & s1 & w1 & -> & D). cbn [mbind option_bind].
  set (A := zslice (b * es + i * ws + poffs) (ws - poffs) (chip w)).
  set (R := zslice (b * es + (i + 1) * ws + 0) (es - (i + 1) * ws - 0) (chip w)).
  assert (Eq : zslice (b * es + i * ws + poffs) (es - i * ws - poffs) (chip w) = A ++ R).
  { unfold A, R. replace (es - i * ws - poffs) with ((ws - poffs) + (es - (i + 1) * ws - 0)) by lia. rewrite zslice_app by lia.
    do 2 f_equal; lia. }
  assert (La : zlen A = ws - poffs) by (apply length_zslice; rewrite ?chip_length; lia). unfold took. rewrite Eq, take_app.
  destruct D as [(-> & S1 & St & Pg)|(-> & Lo)].
  2: { cbn [Z.ltb Z.compare Z.opp EIO]. exists (- EIO), buff, s1, w1. split; [done|]. rewrite decide_False by done. split; [|done].
    right. split; [done|]. by apply prefix_app_r. }
  cbn [Z.ltb Z.compare EOK]. pose proof (st_page s1 w1 S1).
  rewrite mbytes_ok by lia. cbn [mbind option_bind].
  set (n := Z.min _ _). assert (Bs : zslice poffs n (nand_page s1) = ztake (len - zlen buff) A).
  { transitivity (zslice poffs n (ztake ws (nand_page s1))).
    { rewrite <- zslice_0, zslice_zslice, Z.add_0_l by lia. done. }
    rewrite Pg. unfold A. rewrite zslice_zslice by lia. rewrite <- (zslice_0 (len - zlen buff)).
    rewrite zslice_zslice_min by lia. rewrite Z.add_0_r. f_equal. lia. }
  rewrite Bs. destruct St as (C & Bd & St).
  replace (w32 (b * np + i + 1)) with (b * np + (i + 1)).
  2: { replace (b * np + i + 1) with (b * np + (i + 1)) by lia. symmetry. apply page_small; lia. }
  destruct (IH (i + 1) 0 (buff ++ ztake (len - zlen buff) A) s1 w1) as (r' & out & s' & w' & -> & Tk & Fin);
    [done|lia|lia|by rewrite Bd| |lia|done|rewrite length_app, length_take; lia|].
  { unfold is_cached in *. destruct St as (-> & -> & _). done. }
  exists r', out, s', w'. split; [done|].
  assert (Ed : buff ++ ztake (len - zlen buff) A ++ take (Z.to_nat (len - zlen buff) - length A) R =
    (buff ++ ztake (len - zlen buff) A) ++ ztake (len - zlen (buff ++ ztake (len - zlen buff) A)) R).
  { rewrite <- app_assoc. do 2 f_equal. rewrite length_app, length_take. f_equal. lia. }
  split; [unfold took in Tk; rewrite Ed; rewrite C in Tk; exact Tk|].
  destruct (decide (r' = EOK)).
  - destruct Fin as [F1 F2]. split; [done|]. by apply (steady_trans _ _ s1 w1).
  - by apply (steady_lost s w s1 w1).
Qed.

(** The result of a read whose bytes are [out]: all of them, or a failure. *)
Definition read_result (s : data_common) (w : W) (all : list Z) (r : Z) (out : list Z) (s' : data_common) (w' : W) : Prop :=
  r = zlen out /\ out = all /\ state_ok s' w' /\ steady s w s' w' \/
  r = - EIO /\ out `prefix_of` all /\ lost w s' w'.

Lemma read_result_steady s w s1 w1 all r out s' w' :
  steady s w s1 w1 -> read_result s1 w1 all r out s' w' -> read_result s w all r out s' w'.
Proof.
  intros St [(? & ? & ? & ?)|(? & ? & ?)]; [left|right]; split_and!; try done.
  - by apply (steady_trans _ _ s1 w1).
  - by apply (steady_lost s w s1 w1).
Qed.

Lemma good_bytes_steady k b s w s' w' : steady s w s' w' -> good_bytes k b (view s' w') (bad w') = good_bytes k b (view s w) (bad w).
Proof. intros St. apply good_bytes_ext. intros i _. rewrite (steady_view _ _ _ _ St). split; [apply St|done]. Qed.

Lemma read_block_spec b boffs len buff s w :
  state_ok s w -> 0 <= b < nb -> bad w b = false -> 0 <= boffs < es -> zlen buff < len ->
  exists r out s' w', read_block cfg 0 b boffs len buff s w = Some (r, out, s', w') /\
    took (len - zlen buff) (zdrop boffs (block_of (view s w) b)) buff r out /\
    (if decide (r = EOK) then state_ok s' w' /\ steady s w s' w' else lost w s' w').
Proof.
  intros S B Bb Bo Lt. unfold read_block. pose proof (ok_npages cfg Ok). pose proof (ok_writesz cfg Ok). pose proof (ok_erasesz cfg Ok) as Ee.
  pose proof (block_in b B). destruct (is_cached 0 b s) eqn:Ca.
  - pose proof (st_block s w S). rewrite mbytes_ok by lia. cbn [mbind option_bind].
    unfold is_cached in Ca. apply andb_true_iff in Ca as [E Eb]. apply bool_decide_eq_true in E. apply Z.eqb_eq in Eb. subst b.
    do 4 eexists. split; [done|]. rewrite decide_True by done. split; [|done]. left. split; [done|]. f_equal.
    rewrite view_cached by done. rewrite ztake_zdrop, <- zslice_0, zslice_zslice_min by lia. f_equal; lia.
  - assert (Bi : 0 <= boffs / ws < np) by (split; [apply Z.div_pos|apply Z.div_lt_upper_bound]; lia).
    assert (Dm : boffs / ws * ws + boffs mod ws = boffs) by (pose proof (Z.div_mod boffs ws); lia).
    pose proof (Z.mod_pos_bound boffs ws). rewrite page_small by lia.
    destruct (pages_loop_spec (Z.to_nat (np - boffs / ws)) b (boffs / ws) (boffs mod ws) len buff s w)
      as (r & out & s' & w' & -> & Tk & Fin); [done|done|lia|lia|done|done|lia|lia|lia|].
    exists r, out, s', w'. split; [done|]. split; [|done]. rewrite view_block by done. unfold block_of, took in *.
    replace (b * es + boffs / ws * ws + boffs mod ws) with (b * es + boffs) in Tk by lia.
    replace (es - boffs / ws * ws - boffs mod ws) with (es - boffs) in Tk by lia.
    rewrite ztake_zdrop, zslice_zslice_min by lia. rewrite <- (zslice_0 _ (zslice _ _ _)), zslice_zslice_min, Z.add_0_r, Z.sub_0_r in Tk by lia. done.
Qed.

Lemma read_stop len buff s w l :
  state_ok s w -> zlen buff <= len -> len < 2 ^ 31 -> ztake (len - zlen buff) l = [] ->
  exists r out s' w', Some (s32 (Z.min (zlen buff) len), buff, s, w) = Some (r, out, s', w') /\
    read_result s w (buff ++ ztake (len - zlen buff) l) r out s' w'.
Proof.
  intros S Lb L31 ->. exists (zlen buff), buff, s, w. rewrite s32_small by lia. split; [do 4 f_equal; lia|].
  left. by rewrite app_nil_r.
Qed.

(** What is left of a block and of the blocks after it. *)
Lemma took_more len boffs (A R buff : list Z) :
  boffs <= zlen A ->
  buff ++ ztake (len - zlen buff) (zdrop boffs (A ++ R)) =
    (buff ++ ztake (len - zlen buff) (zdrop boffs A)) ++ ztake (len - zlen (buff ++ ztake (len - zlen buff) (zdrop boffs A))) R.
Proof.
  intros La. rewrite drop_app_le, take_app, <- app_assoc by lia. do 2 f_equal. f_equal.
  rewrite length_app, length_take. lia.
Qed.

Lemma nand_read_loop_spec k b boffs len buff s w :
  state_ok s w -> 0 <= b -> b + Z.of_nat k = nb -> 0 <= boffs < es -> zlen buff <= len -> len < 2 ^ 31 ->
  exists r out s' w', read_loop cfg k 0 b boffs len buff s w = Some (r, out, s', w') /\
    read_result s w (buff ++ ztake (len - zlen buff) (zdrop boffs (good_bytes k b (view s w) (bad w)))) r out s' w'.
Proof.
  revert b boffs buff s w. induction k as [|k IH]; intros b boffs buff s w S B K Bo Lb L31; cbn [read_loop].
  { destruct (Z.leb_spec len (zlen buff)); apply read_stop; try done; cbn [good_bytes]; by rewrite drop_nil, take_nil. }
  destruct (Z.leb_spec len (zlen buff)) as [Le|Lt].
  { apply read_stop; try done. by replace (len - zlen buff) with 0 by lia. }
  pose proof (ok_npages cfg Ok). pose proof es_pos. assert (Bb : 0 <= b < nb) by lia. rewrite page_small, Z.add_0_r by lia.
  destruct (isbad_law b w Bb) as (r & w1 & -> & R & C & Bd). rewrite R, negb_involutive.
  pose proof (steady_ok s w w1 S C Bd) as S1. assert (St : steady s w s w1) by done.
  rewrite <- (good_bytes_steady (Datatypes.S k) b s w s w1 St), <- Bd. cbn [good_bytes]. destruct (bad w1 b) eqn:Eb.
  { destruct (IH (b + 1) boffs buff s w1) as (r' & out & s' & w' & -> & Res); try done; try lia.
    exists r', out, s', w'. split; [done|]. by apply (read_result_steady s w s w1). }
  pose proof (block_of_length (view s w1) b (nand_view_length s w1 S1) Bb) as Ll. rewrite took_more by lia.
  destruct (read_block_spec b boffs len buff s w1) as (r1 & out1 & s2 & w2 & -> & Tk & Fin); [done..|]. cbn [mbind option_bind].
  destruct Tk as [[-> ->]|[-> Pre]].
  - cbn [Z.ltb Z.compare EOK]. rewrite decide_True in Fin by done. destruct Fin as [S2 St2].
    destruct (IH (b + 1) 0 (buff ++ ztake (len - zlen buff) (zdrop boffs (block_of (view s w1) b))) s2 w2) as (r' & out & s' & w' & -> & Res);
      [done|lia|lia|lia|rewrite length_app, length_take; lia|done|].
    exists r', out, s', w'. split; [done|]. apply (read_result_steady s w s2 w2); [by apply (steady_trans _ _ s w1)|].
    rewrite (good_bytes_steady k (b + 1) s w1 s2 w2 St2) in Res. rewrite drop_0 in Res. exact Res.
  - cbn [Z.ltb Z.compare Z.opp EIO]. rewrite decide_False in Fin by done. exists (- EIO), out1, s2, w2. split; [done|].
    right. split; [done|]. split; [by apply prefix_app_r|by apply (steady_lost s w s w1)].
Qed.

Lemma data_read_lemma minor offs len timeout s w :
  0 <= minor < NAND_MAX_CNT -> state_ok s w -> 0 <= offs < size cfg -> 0 <= len ->
  exists r out s' w', data_read cfg minor offs false len timeout s w = Some (r, out, s', w') /\
    read_result s w (zslice (offs mod es) (Z.min len (size cfg - offs)) (good_from (offs / es) s w)) r out s' w'.
Proof.
  intros M S O Ln. unfold data_read, nand_get. destruct (Z.ltb_spec minor NAND_MAX_CNT); [|lia].
  rewrite andb_false_r. destruct (Z.leb_spec (size cfg) offs); [lia|]. cbn [orb].
  destruct (Z.eqb_spec (Z.min len (size cfg - offs)) 0) as [-> |N].
  { exists 0, [], s, w. split; [done|]. left. by rewrite zslice_nil. }
  pose proof es_pos. pose proof (ok_size cfg Ok). pose proof (ok_bits cfg Ok).
  assert (0 <= offs / es < nb) by (split; [apply Z.div_pos|apply Z.div_lt_upper_bound]; lia). pose proof (Z.mod_pos_bound offs es).
  destruct (nand_read_loop_spec (Z.to_nat (nb - offs / es)) (offs / es) (offs mod es) (Z.min len (size cfg - offs)) [] s w)
    as (r & out & s' & w' & -> & Res); [done|lia|lia|lia|cbn; lia|lia|].
  exists r, out, s', w'. split; [done|]. cbn [length app] in Res. by rewrite Z.sub_0_r in Res.
Qed.

End laws.

(** ** A chip whose good blocks work *)

Section reliable.
  Context {W : Type} (cfg : nanddrv_info_t) `{R : Reliable W cfg} (Ok : cfg_ok cfg).

Abbreviation ws := (writesz cfg).
Abbreviation es := (erasesz cfg).
Abbreviation nb := (nblocks cfg).
Abbreviation np := (npages cfg).
Abbreviation block_of := (block_of cfg).
Abbreviation view := (view cfg).
Abbreviation good_bytes := (good_bytes cfg).
Abbreviation state_ok := (state_ok cfg).

Lemma write_pages_works k b i buf err w :
  0 <= b < nb -> 0 <= i -> i + Z.of_nat k = np -> es <= zlen buf -> 0 <= err -> bad w b = false ->
  exists r w', write_pages cfg k b i buf err w = Some (r, w') /\ 0 <= r.
Proof.
  intros B. revert i err w. induction k as [|k IH]; intros i err w I K Lb Pe Bb; [by exists err, w|].
  assert (Ii : 0 <= i < np) by lia. pose proof (page_in cfg Ok i Ii). pose proof (page_range cfg b i B Ii). pose proof (ok_writesz cfg Ok).
  cbn [write_pages]. rewrite mbytes_ok by lia. cbn [mbind option_bind]. rewrite page_small by (done || lia).
  set (data := zslice _ _ buf). pose proof (write_works b i data w B Ii Bb) as Wk.
  destruct (write_law (b * np + i) data w) as (r & x & w1 & E & _ & _ & _ & Bd); [lia|by apply length_zslice; lia|].
  rewrite E in Wk |- *. cbn in Wk. destruct (Z.ltb_spec r 0); [lia|]. apply IH; try lia; by rewrite Bd.
Qed.

Lemma program_block_works b buf w :
  0 <= b < nb -> es <= zlen buf -> bad w b = false ->
  exists r w', program_block cfg b buf w = Some (r, w') /\ 0 <= r /\
    chip w' = splice (b * es) (ztake es buf) (chip w) /\ forall b', bad w' b' = bad w b'.
Proof.
  intros B Lb Bb. destruct (program_block_spec cfg Ok b buf w B Lb) as (r & x & w' & E & Lx & X & C & Bd).
  enough (P : 0 <= r) by (exists r, w'; rewrite <- X; done).
  pose proof (ok_npages cfg Ok). unfold program_block in E. rewrite page_small, Z.add_0_r in E by (done || lia).
  pose proof (erase_works b w B Bb) as Er. destruct (erase_law b w B) as (r1 & y & w1 & E1 & _ & _ & _ & Bd1).
  rewrite E1 in Er, E. cbn in Er. destruct (Z.leb_spec 0 r1); [|lia].
  destruct (write_pages_works (Z.to_nat np) b 0 buf r1 w1) as (r2 & w2 & E2 & P); [done|lia|lia|done|done|by rewrite Bd1|].
  rewrite E2 in E. by injection E as <- _.
Qed.

Lemma invalidate_eq s w : state_ok s w -> data_invalidateNandPage 0 s = set_rnand None s.
Proof.
  intros S. unfold data_invalidateNandPage. destruct (decide _); [done|].
  destruct (st_dev cfg s w S) as [_ [E|]]; [|done]. destruct s; cbn in *. by subst.
Qed.

(** The cached block goes where it was cached for. *)
Lemma sync_works s w :
  state_ok s w -> wnand s = Some 0 ->
  exists w', data_doSync cfg 0 s w = Some (EOK, set_wnand None (set_rnand None s), w') /\
    chip w' = view s w /\ forall b, bad w' b = bad w b.
Proof.
  intros S E. destruct (st_wnand cfg s w S E) as [B Bb]. pose proof (ok_npages cfg Ok). unfold data_doSync.
  rewrite (invalidate_eq s w S). cbn [wnand set_rnand]. rewrite decide_True by done. cbn [wblock set_rnand].
  destruct (Z.to_nat (nb - wblock s)) as [|n] eqn:En; [lia|]. cbn [sync_loop skip_bad wblock set_rnand]. rewrite En. cbn [skip_bad].
  rewrite page_small, Z.add_0_r by (done || lia). destruct (isbad_law (wblock s) w B) as (r & w1 & -> & Rb & C & Bd).
  rewrite Rb, Bb. cbn [negb]. destruct (Z.leb_spec nb (wblock s)); [lia|]. cbn [nand_block set_wblock set_rnand].
  destruct (program_block_works (wblock s) (nand_block s) w1) as (r2 & w2 & -> & P & C2 & Bd2);
    [done|apply (st_block cfg s w S)|by rewrite Bd|]. cbn [mbind option_bind].
  destruct (Z.ltb_spec r2 0); [lia|]. exists w2. split; [by destruct s|]. split; [|intros; by rewrite Bd2, Bd].
  unfold NandData.view. rewrite decide_True by done. by rewrite C2, C.
Qed.

(** Pages of a good block are read into the buffer. *)
Lemma read_into_works k b i buf err w :
  0 <= b < nb -> 0 <= i -> i + Z.of_nat k <= np -> es <= zlen buf -> 0 <= err -> bad w b = false ->
  exists r w', read_into cfg k b i buf err w =
      Some (r, i + Z.of_nat k, splice (i * ws) (zslice (b * es + i * ws) (Z.of_nat k * ws) (chip w)) buf, w') /\
    0 <= r /\ chip w' = chip w /\ forall b', bad w' b' = bad w b'.
Proof.
  intros B. revert i buf err w. induction k as [|k IH]; intros i buf err w I K Lb Pe Bb.
  { exists err, w. cbn [read_into]. rewrite Z.mul_0_l, zslice_nil, splice_nil, Z.add_0_r. done. }
  assert (Ii : 0 <= i < np) by lia. pose proof (page_in cfg Ok i Ii). pose proof (page_range cfg b i B Ii). pose proof (ok_writesz cfg Ok).
  pose proof (block_in cfg Ok b B). pose proof (chip_length w) as Lw.
  cbn [read_into]. rewrite page_small by (done || lia). pose proof (read_works b i w B Ii Bb) as Wk.
  destruct (read_law (b * np + i) w) as (r & data & w1 & E & Ld & D & C & Bd); [lia|].
  rewrite E in Wk |- *. cbn in Wk. rewrite mstore_ok by lia. cbn [mbind option_bind].
  destruct (Z.ltb_spec r 0); [lia|].
  destruct (IH (i + 1) (splice (i * ws) data buf) r w1) as (r' & w' & -> & P & C' & Bd'); [lia|lia| |done|by rewrite Bd|].
  { rewrite length_splice; lia. }
  assert (Kw : (i + 1) * ws + Z.of_nat k * ws <= es) by (rewrite (ok_erasesz cfg Ok); nia).
  exists r', w'. split_and!; [|done|by rewrite C'|intros; by rewrite Bd'].
  replace (i + 1 + Z.of_nat k) with (i + Z.of_nat (Datatypes.S k)) by lia. do 3 f_equal. rewrite C, D, page_offs by done.
  replace ((i + 1) * ws) with (i * ws + zlen (zslice (b * es + i * ws) ws (chip w))) at 1 by (rewrite length_zslice; lia).
  rewrite splice_app by (rewrite ?length_zslice by lia; lia). f_equal.
  replace (Z.of_nat (Datatypes.S k) * ws) with (ws + Z.of_nat k * ws) by lia. rewrite zslice_app by lia. do 2 f_equal; lia.
Qed.

(** The bytes read in front of [cw] and behind [iw] are all of a block but what is
    written between. *)
Lemma around_block o boffs n cw iw (xs buf l : list Z) :
  0 <= o -> o + es <= zlen l -> es <= zlen buf -> 0 <= boffs -> boffs + zlen xs <= es -> zlen xs = Z.min n (es - boffs) ->
  boffs <= cw <= es -> cw <= iw <= es -> iw = cw \/ iw <= boffs + n ->
  ztake es (splice boffs xs (splice iw (zslice (o + iw) (es - iw) l) (splice 0 (zslice o cw l) buf))) = splice boffs xs (zslice o es l).
Proof.
  intros. rewrite <- zslice_0. apply list_eq. intros i.
  assert (L1 : zlen (zslice o cw l) = cw) by (apply length_zslice; lia).
  assert (L2 : zlen (zslice (o + iw) (es - iw) l) = es - iw) by (apply length_zslice; lia).
  assert (L3 : zlen (zslice o es l) = es) by (apply length_zslice; lia).
  assert (L4 : zlen (splice 0 (zslice o cw l) buf) = zlen buf) by (rewrite length_splice; lia).
  rewrite lookup_zslice by lia. rewrite lookup_splice by (rewrite ?length_splice; lia). rewrite (lookup_splice boffs xs (zslice _ _ _)) by lia.
  rewrite (lookup_splice iw) by lia. rewrite (lookup_splice 0) by lia. rewrite !lookup_zslice by lia.
  rewrite L1, L2. cases_ifs; try done; try lia; try (f_equal; lia).
Qed.

Lemma ceil_bounds boffs : 0 <= boffs < es -> boffs <= (boffs + ws - 1) / ws * ws <= es /\ 0 <= (boffs + ws - 1) / ws <= np.
Proof.
  intros B. pose proof (ok_writesz cfg Ok). pose proof (ok_erasesz cfg Ok).
  assert ((boffs + ws - 1) / ws < np + 1) by (apply Z.div_lt_upper_bound; nia).
  pose proof (Z.div_mod (boffs + ws - 1) ws ltac:(lia)). pose proof (Z.mod_pos_bound (boffs + ws - 1) ws).
  assert (0 <= (boffs + ws - 1) / ws) by (apply Z.div_pos; lia). nia.
Qed.

Lemma read_around_works b boffs n buf err w :
  0 <= b < nb -> es <= zlen buf -> 0 <= err -> bad w b = false -> 0 <= boffs < es -> 0 < n < 2 ^ 31 ->
  exists r buf' w', read_around cfg b boffs n buf err w = Some (r, buf', w') /\ 0 <= r /\ zlen buf' = zlen buf /\
    chip w' = chip w /\ (forall b', bad w' b' = bad w b') /\
    forall xs, zlen xs = Z.min n (es - boffs) -> ztake es (splice boffs xs buf') = splice boffs xs (block_of (chip w) b).
Proof.
  intros B Lb Pe Bb Bo N. destruct (ceil_bounds boffs Bo) as [C1 C2]. unfold read_around.
  set (c := (boffs + ws - 1) / ws) in *. clearbody c. pose proof (block_in cfg Ok b B) as [B0 B1]. pose proof (chip_length w) as Lw.
  pose proof (ok_bits cfg Ok). pose proof (ok_writesz cfg Ok) as Ws. pose proof (ok_erasesz cfg Ok) as Ee.
  destruct (read_into_works (Z.to_nat c) b 0 buf err w) as (r & w1 & -> & P & C & Bd); [done|lia..|done|].
  cbn [mbind option_bind]. destruct (Z.leb_spec 0 r); [|lia]. rewrite Z.mul_0_l, !Z.add_0_l, Z.add_0_r, Z2Nat.id by lia.
  set (buf1 := splice 0 _ buf). assert (L1 : zlen buf1 = zlen buf) by (unfold buf1; rewrite length_splice; rewrite ?length_zslice by lia; lia).
  rewrite w32_small by lia. set (i := Z.max c _).
  assert (Q : 0 <= (boffs + n) / ws /\ (boffs + n) / ws * ws <= boffs + n < ((boffs + n) / ws + 1) * ws).
  { split; [apply Z.div_pos; lia|]. pose proof (Z.div_mod (boffs + n) ws). pose proof (Z.mod_pos_bound (boffs + n) ws). lia. }
  destruct (Z.lt_ge_cases i np) as [Li|Gi].
  - destruct (read_into_works (Z.to_nat (np - i)) b i buf1 r w1) as (r2 & w2 & -> & P2 & Cc & Bd2); [done|lia..|by rewrite Bd|].
    cbn [mbind option_bind]. do 3 eexists. split; [done|]. split; [done|]. rewrite C in Cc |- *. rewrite Z2Nat.id by lia.
    assert (Iw : i * ws < es) by nia. replace ((np - i) * ws) with (es - i * ws) by nia.
    split; [rewrite length_splice; rewrite ?length_zslice by nia; nia|]. split; [done|]. split; [intros; by rewrite Bd2|].
    intros xs Lx. apply (around_block _ _ n); lia || nia.
  - replace (Z.to_nat (np - i)) with 0%nat by lia. cbn [read_into mbind option_bind]. do 3 eexists. split; [done|].
    split; [done|]. split; [done|]. split; [done|]. split; [done|]. intros xs Lx. unfold buf1, NandData.block_of.
    destruct (Z.eq_dec c np) as [-> |Nc].
    + rewrite <- Ee. rewrite <- (around_block (b * es) boffs n es es xs buf (chip w)) by lia.
      by rewrite Z.sub_diag, zslice_nil, splice_nil.
    + assert (Nn : es <= boffs + n) by (assert (i = (boffs + n) / ws) by lia; nia).
      rewrite <- (around_block (b * es) boffs n (c * ws) es xs buf (chip w)) by lia. by rewrite Z.sub_diag, zslice_nil, splice_nil.
Qed.

(** The block is in the cache, ready for [m] bytes at [boffs]; the other blocks are
    as before. *)
Definition fetched (b boffs m : Z) (s : data_common) (w : W) (s' : data_common) (w' : W) : Prop :=
  state_ok s' w' /\ rnand s' = None /\ wnand s' = Some 0 /\ wblock s' = b /\ (forall i, bad w' i = bad w i) /\
  (forall i, 0 <= i < nb -> i <> b -> block_of (view s' w') i = block_of (view s w) i) /\
  forall xs, zlen xs = m -> ztake es (splice boffs xs (nand_block s')) = splice boffs xs (block_of (view s w) b).

Lemma fetched_cached b boffs m s w :
  state_ok s w -> rnand s = None -> is_cached 0 b s = true -> 0 <= boffs -> boffs + m <= es -> fetched b boffs m s w s w.
Proof.
  intros S Rn Ca B0 Bm. unfold is_cached in Ca. apply andb_true_iff in Ca as [E Eb].
  apply bool_decide_eq_true in E. apply Z.eqb_eq in Eb. subst b. pose proof (st_block cfg s w S).
  unfold fetched. split_and!; try done. intros xs Lx. rewrite view_cached by done. apply ztake_splice; lia.
Qed.

(** A block read from the chip behind an empty cache. *)
Lemma fetched_read b boffs m s w buf w' :
  state_ok s w -> rnand s = None -> wnand s = None -> 0 <= b < nb -> bad w b = false -> zlen buf = zlen (nand_block s) ->
  chip w' = chip w -> (forall i, bad w' i = bad w i) ->
  (forall xs, zlen xs = m -> ztake es (splice boffs xs buf) = splice boffs xs (block_of (chip w) b)) ->
  fetched b boffs m s w (set_wblock b (set_wnand (Some 0) (set_block buf s))) w'.
Proof.
  intros S Rn Wn B Bb Lb C Bd Xs. pose proof S as [S1 S2 S3 S4 S5]. 
  assert (S' : state_ok (set_wblock b (set_wnand (Some 0) (set_block buf s))) w').
  { split; cbn; [done|lia|by rewrite Rn| |split; [by right|by left]]. intros _. by rewrite Bd. }
  assert (V : view s w = chip w) by (unfold NandData.view; by rewrite decide_False by congruence).
  unfold fetched. split_and!; try done; rewrite V.
  - intros i I N. rewrite view_block, C by (try done; unfold is_cached; cbn; lia). done.
  - done.
Qed.

Lemma fetch_around_works b boffs n err s w :
  state_ok s w -> rnand s = None -> wnand s = None -> 0 <= b < nb -> bad w b = false -> 0 <= err -> 0 <= boffs < es -> 0 < n < 2 ^ 31 ->
  exists r s' w', fetch_around cfg 0 b boffs n err s w = Some (Fetched r s' w') /\ 0 <= r /\
    fetched b boffs (Z.min n (es - boffs)) s w s' w'.
Proof.
  intros S Rn Wn B Bb Pe Bo N. unfold fetch_around.
  destruct (read_around_works b boffs n (nand_block s) err w) as (r & buf & w' & -> & P & Lb & C & Bd & Xs); try done; [apply (st_block cfg s w S)|].
  cbn [mbind option_bind]. destruct (Z.ltb_spec r 0); [lia|]. do 3 eexists. split; [done|]. split; [done|]. by apply fetched_read.
Qed.

(** After the cached block was written back nothing is cached. *)
Lemma sync_empty s w w1 :
  state_ok s w -> wnand s = Some 0 -> chip w1 = view s w -> (forall b, bad w1 b = bad w b) ->
  let s1 := set_wnand None (set_rnand None s) in
  state_ok s1 w1 /\ view s1 w1 = view s w /\ forall b boffs m s' w', fetched b boffs m s1 w1 s' w' -> fetched b boffs m s w s' w'.
Proof.
  intros S E C Bd s1. pose proof S as [S1 S2 S3 S4 S5].
  assert (V : view s1 w1 = view s w) by (unfold NandData.view at 1; by rewrite decide_False).
  split; [|split; [done|]]; [split; cbn; try done; by split; left|].
  intros b boffs m s' w' (F1 & F2 & F3 & F4 & F5 & F6 & F7). rewrite V in *. unfold fetched. split_and!; try done. intros i. by rewrite F5.
Qed.

Lemma write_fetch_works b boffs n err s w :
  state_ok s w -> rnand s = None -> 0 <= b < nb -> bad w b = false -> 0 <= err -> 0 <= boffs < es -> 0 < n < 2 ^ 31 ->
  exists r s' w', write_fetch cfg 0 b boffs n err s w = Some (Fetched r s' w') /\ 0 <= r /\
    fetched b boffs (Z.min n (es - boffs)) s w s' w'.
Proof.
  intros S Rn B Bb Pe Bo N. unfold write_fetch. destruct (is_cached 0 b s) eqn:Ca.
  { do 3 eexists. split; [done|]. split; [done|]. apply fetched_cached; try done; lia. }
  destruct (proj1 (st_dev cfg s w S)) as [Wn|Wn]; rewrite Wn; [by apply fetch_around_works|].
  destruct (sync_works s w S Wn) as (w1 & -> & C & Bd). cbn [mbind option_bind].
  destruct (sync_empty s w w1 S Wn C Bd) as (S1 & V & Tr). change (EOK <? 0) with false. cbv iota. cbn [wblock set_wnand set_rnand].
  replace ((0 =? 0) && (wblock s <? b) && (b <=? wblock s)) with false by lia.
  destruct (fetch_around_works b boffs n EOK (set_wnand None (set_rnand None s)) w1) as (r & s' & w' & -> & P & F); try done; [by rewrite Bd|].
  exists r, s', w'. split; [done|]. split; [done|]. by apply Tr.
Qed.

Lemma erase_fetch_works b boffs m s w :
  state_ok s w -> rnand s = None -> 0 <= b < nb -> bad w b = false -> 0 <= boffs -> boffs + m <= es ->
  exists r s' w', erase_fetch cfg 0 b s w = Some (Fetched r s' w') /\ fetched b boffs m s w s' w'.
Proof.
  assert (Whole : forall s w, state_ok s w -> rnand s = None -> wnand s = None -> 0 <= b < nb -> bad w b = false ->
    0 <= boffs -> boffs + m <= es ->
    exists r s' w', fetch_whole cfg 0 b EOK s w = Some (Fetched r s' w') /\ fetched b boffs m s w s' w').
  { clear s w. intros s w S Rn Wn B Bb B0 Bm. unfold fetch_whole. pose proof (st_block cfg s w S). pose proof (ok_npages cfg Ok).
    pose proof (block_in cfg Ok b B). pose proof (chip_length w). pose proof (ok_erasesz cfg Ok) as Ee. pose proof (es_pos cfg Ok).
    destruct (read_into_works (Z.to_nat np) b 0 (nand_block s) EOK w) as (r & w' & -> & P & C & Bd); [done|lia|lia|done|done|done|].
    cbn [mbind option_bind]. destruct (Z.ltb_spec r 0); [lia|]. do 3 eexists. split; [done|].
    rewrite Z.mul_0_l, Z.add_0_r, Z2Nat.id, <- Ee by lia. apply fetched_read; try done.
    - rewrite length_splice; rewrite ?length_zslice by lia; lia.
    - intros xs Lx. rewrite ztake_splice by (rewrite ?length_splice; rewrite ?length_zslice by lia; lia). f_equal.
      rewrite <- (zslice_0 es). apply zslice_splice_same; rewrite ?(block_of_length cfg Ok) by done; lia. }
  intros S Rn B Bb B0 Bm. unfold erase_fetch. destruct (is_cached 0 b s) eqn:Ca.
  { do 3 eexists. split; [done|]. by apply fetched_cached. }
  destruct (proj1 (st_dev cfg s w S)) as [Wn|Wn]; rewrite Wn.
  { cbn [mbind option_bind]. change (EOK <? 0) with false. by apply Whole. }
  destruct (sync_works s w S Wn) as (w1 & -> & C & Bd). cbn [mbind option_bind]. change (EOK <? 0) with false. cbv iota.
  destruct (sync_empty s w w1 S Wn C Bd) as (S1 & V & Tr).
  destruct (Whole _ w1 S1 eq_refl eq_refl B) as (r & s' & w' & -> & F); [by rewrite Bd|done|done|].
  exists r, s', w'. split; [done|]. by apply Tr.
Qed.

(** Bytes [xs] were put at [boffs] of block [b]. *)
Definition put (b boffs : Z) (xs : list Z) (s : data_common) (w : W) (s' : data_common) (w' : W) : Prop :=
  state_ok s' w' /\ rnand s' = None /\ (forall i, bad w' i = bad w i) /\
  (forall i, 0 <= i < nb -> i <> b -> block_of (view s' w') i = block_of (view s w) i) /\
  block_of (view s' w') b = splice boffs xs (block_of (view s w) b).

(** Bytes [xs] were put at [boffs] of what the good blocks from [b] on hold. *)
Definition wrote (b boffs : Z) (xs : list Z) (s : data_common) (w : W) (s' : data_common) (w' : W) : Prop :=
  state_ok s' w' /\ (forall i, bad w' i = bad w i) /\
  (forall i, 0 <= i < b -> i < nb -> block_of (view s' w') i = block_of (view s w) i) /\
  good_from cfg b s' w' = splice boffs xs (good_from cfg b s w).

Lemma fetched_put b boffs xs s w s' w' :
  fetched b boffs (zlen xs) s w s' w' -> 0 <= b < nb -> 0 <= boffs -> boffs + zlen xs <= es ->
  put b boffs xs s w (set_block (splice boffs xs (nand_block s')) s') w'.
Proof.
  intros (S & Rn & Wn & Eb & Bd & Ot & Xs) B B0 Bx. set (s2 := set_block _ s'). pose proof S as [S1 S2 S3 S4 S5].
  assert (L2 : zlen (nand_block s2) = zlen (nand_block s')) by (cbn; rewrite length_splice; lia).
  assert (S' : state_ok s2 w') by (split; try done; lia).
  assert (Ob : forall i, 0 <= i < nb -> i <> b -> is_cached 0 i s2 = false /\ is_cached 0 i s' = false).
  { intros i I N. unfold is_cached. cbn. lia. }
  unfold put. split_and!; try done.
  - intros i I N. destruct (Ob i I N). rewrite view_block by done. rewrite <- (Ot i I N), view_block by done. done.
  - rewrite <- Eb at 1. change (wblock s') with (wblock s2). rewrite view_cached by done. rewrite <- Xs by done. done.
Qed.

Lemma good_from_next b s w : 0 <= b < nb ->
  good_from cfg b s w = (if bad w b then [] else block_of (view s w) b) ++ good_from cfg (b + 1) s w.
Proof.
  intros B. unfold good_from. replace (Z.to_nat (nb - b)) with (Datatypes.S (Z.to_nat (nb - (b + 1)))) by lia. done.
Qed.

Lemma good_from_end s w : good_from cfg nb s w = [].
Proof. unfold good_from. by rewrite Z.sub_diag. Qed.

Lemma good_from_ext b s w s' w' :
  0 <= b -> (forall i, bad w' i = bad w i) -> (forall i, b <= i < nb -> block_of (view s' w') i = block_of (view s w) i) ->
  good_from cfg b s' w' = good_from cfg b s w.
Proof. intros B Bd E. apply good_bytes_ext. intros i I. split; [done|]. intros. apply E. lia. Qed.

Lemma wrote_nil b boffs s w s' w' :
  0 <= b -> state_ok s' w' -> (forall i, bad w' i = bad w i) -> view s' w' = view s w -> wrote b boffs [] s w s' w'.
Proof.
  intros B S Bd V. unfold wrote. split_and!; try done; [intros; by rewrite V|]. rewrite splice_nil.
  apply good_from_ext; [done|done|intros; by rewrite V].
Qed.

Lemma wrote_steady b boffs xs s w w1 s' w' : 0 <= b ->
  chip w1 = chip w -> (forall i, bad w1 i = bad w i) -> wrote b boffs xs s w1 s' w' -> wrote b boffs xs s w s' w'.
Proof.
  intros B C Bd (S & Bd' & Lo & G). assert (V : view s w1 = view s w) by (unfold NandData.view; by rewrite C).
  assert (E : good_from cfg b s w1 = good_from cfg b s w) by (apply good_from_ext; [done|done|intros; by rewrite V]).
  rewrite E in G. unfold wrote. split_and!; [done|intros; by rewrite Bd'|intros; rewrite <- V; auto|done].
Qed.

Lemma wrote_skip b boffs xs s w s' w' : 0 <= b < nb -> bad w b = true -> wrote (b + 1) boffs xs s w s' w' -> wrote b boffs xs s w s' w'.
Proof.
  intros B Bb (S & Bd & Lo & G). unfold wrote. split_and!; try done; [intros; apply Lo; lia|].
  rewrite (good_from_next b s'), (good_from_next b s), Bd, Bb by done. exact G.
Qed.

Lemma splice_blocks boffs (xs ys A G : list Z) :
  0 <= boffs -> boffs + zlen xs <= zlen A -> ys = [] \/ boffs + zlen xs = zlen A ->
  splice boffs xs A ++ splice 0 ys G = splice boffs (xs ++ ys) (A ++ G).
Proof.
  intros B L D. unfold splice. change (Z.to_nat 0) with 0%nat. rewrite take_0, (take_app_le A) by lia. destruct D as [-> |E].
  - rewrite app_nil_r, drop_0, (drop_app_le A) by lia. cbn [app]. by rewrite <- !app_assoc.
  - rewrite length_app, (drop_app_ge A), (drop_ge A) by lia. rewrite app_nil_r, <- !app_assoc. cbn [app]. do 3 f_equal. f_equal. lia.
Qed.

Lemma wrote_step b boffs xs ys s w s1 w1 s' w' :
  0 <= b < nb -> bad w b = false -> state_ok s w -> 0 <= boffs -> boffs + zlen xs <= es -> ys = [] \/ boffs + zlen xs = es ->
  put b boffs xs s w s1 w1 -> wrote (b + 1) 0 ys s1 w1 s' w' -> wrote b boffs (xs ++ ys) s w s' w'.
Proof.
  intros B Bb S B0 Bx D (S1 & _ & Bd1 & Ot & Pb) (S' & Bd & Lo & G). unfold wrote. split_and!; [done| | |].
  - intros. by rewrite Bd, Bd1.
  - intros i I In. rewrite Lo, Ot by lia. done.
  - rewrite (good_from_next b s'), (good_from_next b s), Bd, Bd1, Bb by done. rewrite Lo, Pb, G by lia.
    rewrite (good_from_ext (b + 1) s w s1 w1) by (try done; try lia; intros; apply Ot; lia).
    pose proof (block_of_length cfg Ok (view s w) b (nand_view_length cfg Ok s w S) B).
    apply splice_blocks; [lia|lia|destruct D; [by left|right; lia]].
Qed.

(** How many of [n] bytes at [boffs] fit into [total]. *)
Definition fits (n boffs total : Z) : Z := Z.max 0 (Z.min n (total - boffs)).

Lemma write_loop_stop k b boffs ret len buff err s w :
  nb <= b \/ len <= ret -> write_loop cfg k 0 b boffs ret len buff err s w = Some (s32 (Z.min ret len), s, w).
Proof. intros D. destruct k; cbn [write_loop]; replace ((b <? nb) && (ret <? len)) with false by lia; done. Qed.

(** Nothing fits behind the last block or when all was written. *)
Lemma fits_none b boffs n s w : 0 <= boffs -> b = nb \/ n <= 0 -> fits n boffs (zlen (good_from cfg b s w)) = 0.
Proof. intros B [-> | ]; unfold fits; rewrite ?good_from_end; cbn [length]; lia. Qed.

(** What fits from a good block on fits into it or fills it. *)
Lemma fits_next b boffs n s w :
  state_ok s w -> 0 <= b < nb -> bad w b = false -> 0 <= boffs < es -> 0 < n ->
  let m1 := Z.min n (es - boffs) in
  let m2 := fits (n - m1) 0 (zlen (good_from cfg (b + 1) s w)) in
  fits n boffs (zlen (good_from cfg b s w)) = m1 + m2 /\ 0 <= m2 /\ m1 + m2 <= n /\ (m2 = 0 \/ boffs + m1 = es).
Proof.
  intros S B Bb Bo N m1 m2. rewrite good_from_next, Bb, length_app by done.
  pose proof (block_of_length cfg Ok (view s w) b (nand_view_length cfg Ok s w S) B). unfold fits in *. lia.
Qed.

Lemma put_good_from b boffs xs s w s1 w1 : 0 <= b < nb -> put b boffs xs s w s1 w1 -> good_from cfg (b + 1) s1 w1 = good_from cfg (b + 1) s w.
Proof. intros B (_ & _ & Bd & Ot & _). apply good_from_ext; [lia|done|]. intros. apply Ot; lia. Qed.

Lemma isbad_steady b s w w1 : 0 <= b -> chip w1 = chip w -> (forall i, bad w1 i = bad w i) -> good_from cfg b s w1 = good_from cfg b s w.
Proof. intros B C Bd. apply good_from_ext; [done|done|]. intros. unfold NandData.view. by rewrite C. Qed.

Lemma write_loop_works k b boffs ret len buff err s w :
  state_ok s w -> rnand s = None -> 0 <= b <= nb -> nb - b <= Z.of_nat k -> 0 <= boffs < es -> 0 <= ret <= len ->
  len <= zlen buff -> len < 2 ^ 31 -> 0 <= err ->
  let m := fits (len - ret) boffs (zlen (good_from cfg b s w)) in
  exists s' w', write_loop cfg k 0 b boffs ret len buff err s w = Some (ret + m, s', w') /\
    wrote b boffs (zslice ret m buff) s w s' w'.
Proof.
  revert b boffs ret err s w. induction k as [|k IH]; intros b boffs ret err s w S Rn B K Bo Re Lb L31 Pe m.
  all: destruct (decide (b = nb \/ len <= ret)) as [D|D];
    [rewrite write_loop_stop by lia; subst m; rewrite fits_none by lia; exists s, w; rewrite Z.add_0_r, zslice_nil, s32_small by lia;
     split; [do 3 f_equal; lia|by apply wrote_nil; try lia]|].
  { lia. }
  assert (Bb : 0 <= b < nb) by lia. pose proof (ok_npages cfg Ok). pose proof (ok_bits cfg Ok). cbn [write_loop].
  replace ((b <? nb) && (ret <? len)) with true by lia. cbn [negb]. rewrite page_small, Z.add_0_r by (done || lia).
  destruct (isbad_law b w Bb) as (r & w1 & -> & Rb & C & Bd). rewrite Rb, negb_involutive.
  pose proof (steady_ok cfg s w w1 S C Bd) as S1. subst m. rewrite <- (isbad_steady b s w w1) by (done || lia).
  rewrite <- (Bd b). destruct (bad w1 b) eqn:Eb.
  { destruct (IH (b + 1) boffs ret err s w1) as (s' & w' & -> & Wr); try done; try lia.
    rewrite (good_from_next b), Eb by done. exists s', w'. split; [done|].
    apply (wrote_steady b boffs _ s w w1); [lia|done|done|]. by apply wrote_skip. }
  destruct (write_fetch_works b boffs (len - ret) err s w1) as (r2 & s2 & w2 & -> & P2 & F); try done; [lia|]. cbn [mbind option_bind].
  destruct (fits_next b boffs (len - ret) s w1) as (-> & M0 & M1 & M2); [done|done|done|done|lia|].
  set (m1 := Z.min (len - ret) (es - boffs)) in *. set (m2 := fits _ 0 _) in *.
  rewrite mbytes_ok by lia. cbn [mbind option_bind]. set (xs := zslice ret m1 buff).
  assert (Lx : zlen xs = m1) by (apply length_zslice; lia). rewrite <- Lx in F.
  pose proof (fetched_put b boffs xs s w1 s2 w2 F Bb ltac:(lia) ltac:(lia)) as Pu. pose proof Pu as (S3 & Rn3 & _).
  pose proof (st_block cfg _ _ (proj1 F)). rewrite mstore_ok by lia. cbn [mbind option_bind].
  destruct (IH (b + 1) 0 (ret + m1) r2 (set_block (splice boffs xs (nand_block s2)) s2) w2) as (s' & w' & -> & Wr); try done; try lia.
  rewrite (put_good_from b boffs xs s w1) in Wr |- * by done. replace (len - (ret + m1)) with (len - ret - m1) in Wr |- * by lia. fold m2 in Wr |- *.
  exists s', w'. split; [do 3 f_equal; lia|]. apply (wrote_steady b boffs _ s w w1); [lia|done|done|].
  rewrite zslice_app by lia. apply (wrote_step b boffs xs _ s w1 (set_block (splice boffs xs (nand_block s2)) s2) w2); try done; try lia.
  destruct M2 as [-> | ]; [by left|right; lia].
Qed.

Lemma erased_put b s w w' :
  state_ok s w -> rnand s = None -> 0 <= b < nb ->
  chip w' = splice (b * es) (replicate (Z.to_nat es) NAND_ERASED_STATE) (chip w) -> (forall i, bad w' i = bad w i) ->
  put b 0 (replicate (Z.to_nat es) NAND_ERASED_STATE) s w (if is_cached 0 b s then set_wnand None s else s) w'.
Proof.
  intros S Rn B C Bd. pose proof S as [S1 S2 S3 S4 S5]. pose proof (es_pos cfg Ok). set (s' := if is_cached 0 b s then _ else _).
  assert (S' : state_ok s' w').
  { unfold s'. destruct (is_cached 0 b s).
    - split; cbn; [done|done|by rewrite Rn|done|split; [by left|by left]].
    - split; [done|done|by rewrite Rn|intros E; rewrite Bd; auto|done]. }
  assert (Lr : zlen (replicate (Z.to_nat es) NAND_ERASED_STATE) = es) by (rewrite length_replicate; lia).
  assert (Nc : is_cached 0 b s' = false) by (unfold s'; destruct (is_cached 0 b s) eqn:E; done).
  unfold put. split_and!; [done|unfold s'; by destruct (is_cached 0 b s)|done| |].
  - intros i I N. destruct (is_cached 0 i s) eqn:Ci.
    + assert (Cb : is_cached 0 b s = false) by (unfold is_cached in *; lia). assert (s' = s) as -> by (unfold s'; by rewrite Cb).
      unfold is_cached in Ci. apply andb_true_iff in Ci as [E Eb]. apply bool_decide_eq_true in E. apply Z.eqb_eq in Eb. subst i.
      by rewrite !view_cached by done.
    + assert (is_cached 0 i s' = false) by (unfold s'; by destruct (is_cached 0 b s)).
      rewrite !view_block, C, block_of_splice by (rewrite ?chip_length; done). done.
  - rewrite view_block, C, block_of_splice_same by (rewrite ?chip_length; done).
    pose proof (block_of_length cfg Ok (view s w) b (nand_view_length cfg Ok s w S) B).
    symmetry. apply splice_full. lia.
Qed.

Lemma erase_loop_works k offs b boffs ret len s w :
  state_ok s w -> rnand s = None -> 0 <= b -> b + Z.of_nat k = nb -> 0 <= boffs < es -> (offs = 0 -> boffs = 0) -> 0 <= ret <= len ->
  len < 2 ^ 31 ->
  let m := fits (len - ret) boffs (zlen (good_from cfg b s w)) in
  exists s' w', erase_loop cfg k 0 offs b boffs ret len s w = Some (ret + m, s', w') /\
    wrote b boffs (replicate (Z.to_nat m) NAND_ERASED_STATE) s w s' w'.
Proof.
  assert (Stop : forall b boffs ret s w, state_ok s w -> 0 <= b -> 0 <= boffs -> 0 <= ret <= len -> len < 2 ^ 31 -> b = nb \/ len <= ret ->
    let m := fits (len - ret) boffs (zlen (good_from cfg b s w)) in
    exists s' w', Some (s32 ret, s, w) = Some (ret + m, s', w') /\ wrote b boffs (replicate (Z.to_nat m) NAND_ERASED_STATE) s w s' w').
  { clear b boffs ret s w. intros b boffs ret s w S B Bo Re L31 D m. subst m. rewrite fits_none by lia. exists s, w.
    rewrite Z.add_0_r, s32_small by lia. split; [done|]. by apply wrote_nil. }
  revert b boffs ret s w. induction k as [|k IH]; intros b boffs ret s w S Rn B K Bo Oo Re L31; cbn [erase_loop].
  { destruct (len <=? ret); apply Stop; try done; lia. }
  destruct (Z.leb_spec len ret); [apply Stop; try done; lia|].
  assert (Bb : 0 <= b < nb) by lia. pose proof (ok_npages cfg Ok). pose proof (ok_bits cfg Ok). pose proof (block_in cfg Ok b Bb).
  rewrite page_small, Z.add_0_r by (done || lia).
  destruct (isbad_law b w Bb) as (r & w1 & -> & Rb & C & Bd). rewrite Rb, negb_involutive.
  pose proof (steady_ok cfg s w w1 S C Bd) as S1. rewrite <- (isbad_steady b s w w1) by (done || lia).
  rewrite <- (Bd b). destruct (bad w1 b) eqn:Eb.
  { destruct (IH (b + 1) boffs ret s w1) as (s' & w' & -> & Wr); try done; try lia.
    rewrite (good_from_next b), Eb by done. exists s', w'. split; [done|].
    apply (wrote_steady b boffs _ s w w1); [lia|done|done|]. by apply wrote_skip. }
  destruct (fits_next b boffs (len - ret) s w1) as (-> & M0 & M1 & M2); [done|done|done|done|lia|].
  set (m1 := Z.min (len - ret) (es - boffs)) in *. set (m2 := fits _ 0 _) in *.
  set (xs := replicate (Z.to_nat m1) NAND_ERASED_STATE).
  assert (Lx : zlen xs = m1) by (unfold xs; rewrite length_replicate; lia).
  assert (Step : forall s1 w2, put b boffs xs s w1 s1 w2 -> exists s' w',
    erase_loop cfg k 0 offs (b + 1) 0 (ret + m1) len s1 w2 = Some (ret + (m1 + m2), s', w') /\
    wrote b boffs (replicate (Z.to_nat (m1 + m2)) NAND_ERASED_STATE) s w s' w').
  { intros s1 w2 Pu. pose proof Pu as (S3 & Rn3 & _).
    destruct (IH (b + 1) 0 (ret + m1) s1 w2) as (s' & w' & -> & Wr); try done; try lia.
    rewrite (put_good_from b boffs xs s w1) in Wr |- * by done. replace (len - (ret + m1)) with (len - ret - m1) in Wr |- * by lia. fold m2 in Wr |- *.
    exists s', w'. split; [do 3 f_equal; lia|]. apply (wrote_steady b boffs _ s w w1); [lia|done|done|].
    rewrite Z2Nat.inj_add, replicate_add by lia. apply (wrote_step b boffs xs _ s w1 s1 w2); try done; try lia.
    destruct M2 as [-> | ]; [by left|right; lia]. }
  rewrite w32_small by lia. destruct (_ || _) eqn:Part.
  - destruct (erase_fetch_works b boffs m1 s w1) as (r2 & s2 & w2 & -> & F); try done; try lia. cbn [mbind option_bind]. fold m1.
    pose proof (st_block cfg _ _ (proj1 F)). change (replicate (Z.to_nat m1) NAND_ERASED_STATE) with xs.
    rewrite mstore_ok by lia. cbn [mbind option_bind]. rewrite <- Lx in F. apply Step. by apply fetched_put; try lia.
  - assert (m1 = es /\ boffs = 0) as [E1 ->] by lia. pose proof (erase_works b w1 Bb Eb) as Er.
    destruct (erase_law b w1 Bb) as (r2 & x & w2 & E & Lx2 & X & C2 & Bd2). rewrite E in Er |- *. cbn in Er.
    destruct (Z.ltb_spec r2 0); [lia|]. rewrite <- E1. apply Step. unfold xs. rewrite E1. apply erased_put; try done.
    by rewrite <- X.
Qed.

Lemma state_ok_rnand s w : state_ok s w -> state_ok (set_rnand None s) w.
Proof. intros [S1 S2 S3 S4 S5]. split; [done|done|done|done|]. split; [apply S5|by left]. Qed.

Lemma data_write_lemma minor offs buff len s w :
  0 <= minor < NAND_MAX_CNT -> state_ok s w -> 0 <= offs < size cfg -> 0 <= len <= zlen buff ->
  let m := fits (Z.min len (size cfg - offs)) (offs mod es) (zlen (good_from cfg (offs / es) s w)) in
  exists s' w', data_write cfg minor offs (Some buff) len s w = Some (m, s', w') /\
    wrote (offs / es) (offs mod es) (ztake m buff) s w s' w'.
Proof.
  intros M S O L. pose proof (es_pos cfg Ok). pose proof (ok_size cfg Ok). pose proof (ok_bits cfg Ok).
  assert (Bl : 0 <= offs / es < nb) by (split; [apply Z.div_pos|apply Z.div_lt_upper_bound]; lia). pose proof (Z.mod_pos_bound offs es).
  unfold data_write, nand_get. destruct (Z.ltb_spec minor NAND_MAX_CNT); [|lia]. rewrite bool_decide_false, andb_false_r by done.
  destruct (Z.leb_spec (size cfg) offs); [lia|]. cbn [orb]. destruct (Z.eqb_spec (Z.min len (size cfg - offs)) 0) as [-> |N].
  { exists s, w. unfold fits. rewrite Z.max_l, take_0 by lia. split; [done|]. apply wrote_nil; [lia|done..]. }
  rewrite (invalidate_eq s w S).
  pose proof (state_ok_rnand s w S) as S'.
  destruct (write_loop_works (Z.to_nat nb) (offs / es) (offs mod es) 0 (Z.min len (size cfg - offs)) buff 0 (set_rnand None s) w)
    as (s' & w' & E & Wr); [done|done|lia..|].
  exists s', w'. rewrite Z.sub_0_r in E, Wr. split; [exact E|]. by rewrite zslice_0 in Wr.
Qed.

Lemma data_erase_lemma minor offs len flags s w :
  0 <= minor < NAND_MAX_CNT -> state_ok s w -> 0 <= offs < size cfg -> 0 <= len ->
  let m := fits (Z.min len (size cfg - offs)) (offs mod es) (zlen (good_from cfg (offs / es) s w)) in
  exists s' w', data_erase cfg minor offs len flags s w = Some (m, s', w') /\
    wrote (offs / es) (offs mod es) (replicate (Z.to_nat m) NAND_ERASED_STATE) s w s' w'.
Proof.
  intros M S O L. pose proof (es_pos cfg Ok). pose proof (ok_size cfg Ok). pose proof (ok_bits cfg Ok).
  assert (Bl : 0 <= offs / es < nb) by (split; [apply Z.div_pos|apply Z.div_lt_upper_bound]; lia). pose proof (Z.mod_pos_bound offs es).
  unfold data_erase, nand_get. destruct (Z.ltb_spec minor NAND_MAX_CNT); [|lia].
  destruct (Z.leb_spec (size cfg) offs); [lia|]. destruct (Z.eqb_spec (Z.min len (size cfg - offs)) 0) as [-> |N].
  { exists s, w. unfold fits. rewrite Z.max_l by lia. split; [done|]. apply wrote_nil; [lia|done..]. }
  rewrite (invalidate_eq s w S).
  pose proof (state_ok_rnand s w S) as S'.
  destruct (erase_loop_works (Z.to_nat (nb - offs / es)) offs (offs / es) (offs mod es) 0 (Z.min len (size cfg - offs)) (set_rnand None s) w)
    as (s' & w' & E & Wr); [done|done|lia|lia|lia|intros ->; by rewrite Z.mod_0_l by lia|lia|lia|].
  exists s', w'. rewrite Z.sub_0_r in E, Wr. by split.
Qed.

(** What a good block holds is never lost on reading. *)
Lemma never_lost w s' w' : lost cfg w s' w' -> False.
Proof.
  intros (_ & b & B & Bb & _ & i & w0 & I & Bd & F). pose proof (read_works b i w0 B I). rewrite Bd in *. specialize (H1 Bb). lia.
Qed.

(** What is cached reaches the chip, and changes nothing. *)
Lemma data_sync_lemma minor s w :
  0 <= minor < NAND_MAX_CNT -> state_ok s w ->
  exists s' w', data_sync cfg minor s w = Some (EOK, s', w') /\ state_ok s' w' /\ chip w' = view s w /\ view s' w' = view s w /\
    forall i, bad w' i = bad w i.
Proof.
  intros M S. unfold data_sync, nand_get. destruct (Z.ltb_spec minor NAND_MAX_CNT); [|lia].
  destruct (proj1 (st_dev cfg s w S)) as [Wn|Wn].
  - unfold data_doSync. rewrite (invalidate_eq s w S). cbn [wnand set_rnand]. rewrite decide_False by congruence.
    exists (set_rnand None s), w. split; [done|].
    pose proof (state_ok_rnand s w S) as S'.
    split; [done|]. split; [|done]. unfold NandData.view. by rewrite decide_False by congruence.
  - destruct (sync_works s w S Wn) as (w1 & -> & C & Bd). destruct (sync_empty s w w1 S Wn C Bd) as (S1 & V & _).
    exists (set_wnand None (set_rnand None s)), w1. done.
Qed.

End reliable.

(** ** Theorems *)

Section theorems.
  Context {W : Type} (cfg : nanddrv_info_t).

(** C31. Whatever fails on the way, synchronising the cached block stores it in the first
    good block from its own on that can be erased and written, marks every block that
    failed, leaves all other blocks alone and empties the cache; when no block is left
    or one cannot be marked, it says so and keeps the block in the cache. *)
Theorem data_sync_moves `{NandLaws W cfg} minor s w :
  cfg_ok cfg -> 0 <= minor < NAND_MAX_CNT -> state_ok cfg s w -> wnand s = Some 0 ->
  exists r s' w', data_sync cfg minor s w = Some (r, s', w') /\ synced cfg (wblock s) s w r s' w'.
Proof.
  intros Ok M S Wn. unfold data_sync, nand_get. destruct (Z.ltb_spec minor NAND_MAX_CNT); [|lia].
  unfold data_doSync. rewrite (invalidate_eq cfg s w S). cbn [wnand set_rnand]. rewrite decide_True by done.
  destruct (st_wnand cfg s w S Wn). apply (sync_loop_spec cfg Ok _ (set_rnand None s)); cbn [wblock nand_block set_rnand]; try lia.
  apply (st_block cfg s w S).
Qed.

(** C30. On a chip whose good blocks work, a write puts as many bytes as the good blocks
    hold at its offset, skipping bad blocks, and changes nothing else; after a
    synchronisation the chip has them, and a read of that offset returns them. *)
Theorem data_write_read `{Reliable W cfg} minor offs buff len timeout s w :
  cfg_ok cfg -> 0 <= minor < NAND_MAX_CNT -> state_ok cfg s w -> 0 <= offs < size cfg -> 0 <= len <= zlen buff ->
  let boffs := offs mod erasesz cfg in
  let block := offs / erasesz cfg in
  exists m s1 w1 s2 w2 s3 w3,
    m = fits (Z.min len (size cfg - offs)) boffs (zlen (good_from cfg block s w)) /\
    data_write cfg minor offs (Some buff) len s w = Some (m, s1, w1) /\ wrote cfg block boffs (ztake m buff) s w s1 w1 /\
    data_sync cfg minor s1 w1 = Some (EOK, s2, w2) /\ chip w2 = view cfg s1 w1 /\
    data_read cfg minor offs false m timeout s2 w2 = Some (m, ztake m buff, s3, w3).
Proof.
  intros Ok M S O L boffs block. destruct (data_write_lemma cfg Ok minor offs buff len s w) as (s1 & w1 & E1 & Wr); try done.
  fold boffs block in E1, Wr. set (m := fits _ _ _) in *. destruct Wr as (S1 & Bd1 & Lo & G).
  destruct (data_sync_lemma cfg Ok minor s1 w1) as (s2 & w2 & E2 & S2 & C & V & Bd2); [done..|].
  pose proof (es_pos cfg Ok). assert (B0 : 0 <= boffs < erasesz cfg) by (apply Z.mod_pos_bound; lia). assert (Q0 : 0 <= block) by (apply Z.div_pos; lia).
  assert (Mb : 0 <= m /\ m <= size cfg - offs /\ m <= len /\ (m = 0 \/ boffs + m <= zlen (good_from cfg block s w))) by (unfold m, fits; lia).
  destruct (data_read_lemma cfg Ok minor offs m timeout s2 w2) as (r & out & s3 & w3 & E3 & [(-> & -> & _)|(_ & _ & Lo3)]);
    [done|done|lia|lia| |destruct (never_lost cfg w2 s3 w3 Lo3)].
  exists m, s1, w1, s2, w2, s3, w3. do 5 (split; [done|]). fold boffs block in E3.
  assert (Lt : zlen (ztake m buff) = m) by (rewrite length_take; lia).
  assert (Gs : good_from cfg block s2 w2 = good_from cfg block s1 w1) by (apply good_from_ext; [done|done|intros; by rewrite V]).
  rewrite Gs, G, Z.min_l in E3 by lia.
  destruct (decide (m = 0)) as [Mz|Mz].
  - rewrite Mz, zslice_nil in E3. by rewrite Mz.
  - rewrite zslice_splice_same, Lt in E3 by lia. done.
Qed.
End theorems.

(** *** A chip of three blocks of two pages of two bytes

    Pages [fr] cannot be read, blocks [fe] cannot be erased. *)

Definition toy_cfg : nanddrv_info_t := mk_info 12 2 4.
Definition toy := (list Z * list Z)%type.
Definition toy_chip (w : toy) : list Z := resize 12 0 w.1.

Definition toy_nand (fr fe : list Z) : Nand toy := {|
  nanddrv_isbad p w := (b2z (bool_decide (p / 2 ∈ w.2)), w);
  nanddrv_read p w := (if decide (p ∈ fr) then -1 else 0, zslice (p * 2) 2 (toy_chip w), w);
  nanddrv_write p data w := (0, (splice (p * 2) data (toy_chip w), w.2));
  nanddrv_erase p w :=
    if decide (p / 2 ∈ fe) then (-1, w) else (0, (splice (p / 2 * 4) (replicate 4 NAND_ERASED_STATE) (toy_chip w), w.2));
  nanddrv_markbad p w := (0, (w.1, p / 2 :: w.2))
|}.

Lemma toy_ok : cfg_ok toy_cfg.
Proof. by split. Qed.

Lemma toy_length w : zlen (toy_chip w) = 12.
Proof. unfold toy_chip. by rewrite length_resize. Qed.

Lemma toy_splice off xs f b : 0 <= off -> off + zlen xs <= 12 ->
  toy_chip (splice off xs (toy_chip f), b) = splice off xs (toy_chip f).
Proof. intros. unfold toy_chip at 1. apply resize_all_alt. pose proof (toy_length f). cbn. rewrite length_splice; lia. Qed.

#[local] Program Instance toy_laws fr fe : @NandLaws toy toy_cfg (toy_nand fr fe) := {|
  chip := toy_chip;
  bad w b := bool_decide (b ∈ w.2)
|}.
Next Obligation. intros. apply toy_length. Qed.
Next Obligation.
  intros fr fe b w B. cbn. change (npages toy_cfg) with 2. rewrite Z.div_mul by lia.
  eexists _, w. split; [done|]. by case_bool_decide.
Qed.
Next Obligation.
  intros fr fe p w P. change (nblocks toy_cfg * npages toy_cfg) with 6 in P. change (writesz toy_cfg) with 2 in *. pose proof (toy_length w).
  eexists _, _, w. split; [done|]. split; [apply length_zslice; lia|]. done.
Qed.
Next Obligation.
  intros fr fe b w B. change (nblocks toy_cfg) with 3 in B. change (erasesz toy_cfg) with 4. cbn. change (npages toy_cfg) with 2. rewrite Z.div_mul by lia. pose proof (toy_length w).
  destruct (decide (b ∈ fe)).
  - exists (-1), (zslice (b * 4) 4 (toy_chip w)), w. split; [done|]. split; [apply length_zslice; lia|]. split; [lia|]. split; [|done].
    rewrite splice_zslice; lia || done.
  - eexists 0, _, _. split; [done|]. split; [|split; [done|split; [|done]]]; [done|]. apply toy_splice; rewrite ?length_replicate; lia.
Qed.
Next Obligation.
  intros fr fe p data w P L. change (nblocks toy_cfg * npages toy_cfg) with 6 in P. change (writesz toy_cfg) with 2 in *. cbn in L |- *.
  eexists 0, data, _. split; [done|]. split; [done|]. split; [done|]. split; [|done]. apply toy_splice; lia.
Qed.
Next Obligation.
  intros fr fe b w B. change (nblocks toy_cfg) with 3 in B. change (erasesz toy_cfg) with 4. cbn. change (npages toy_cfg) with 2. rewrite Z.div_mul by lia. pose proof (toy_length w).
  exists 0, (zslice (b * 4) 4 (toy_chip w)), (w.1, b :: w.2). split; [done|]. split; [apply length_zslice; lia|].
  split; [intros _; apply bool_decide_true; by left|]. split; [rewrite splice_zslice; lia || done|].
  intros b' N. apply bool_decide_ext. cbn. rewrite elem_of_cons. naive_solver.
Qed.

#[local] Instance toy_reliable : @Reliable toy toy_cfg (toy_nand [] []) (toy_laws [] []).
Proof. split; intros; cbn; rewrite ?decide_False by (apply not_elem_of_nil); done. Qed.

(** The state after start-up; the caches hold whatever they held. *)
Definition toy_start : data_common := mk_common None None 0 0 [7; 7] [7; 7; 7; 7].

Definition toy_w (bads : list Z) : toy := ([0; 1; 2; 3; 4; 5; 6; 7; 8; 9; 10; 11], bads).

Lemma toy_start_ok fr fe w : @state_ok toy toy_cfg _ (toy_laws fr fe) toy_start w.
Proof. split; try done. by split; left. Qed.

(** Block 1 is bad: five bytes at 2 end in block 2. *)
Lemma data_write_read_witness :
  exists m s1 w1 s2 w2 s3 w3,
    m = 5 /\ @data_write toy (toy_nand [] []) toy_cfg 0 2 (Some [21; 22; 23; 24; 25]) 5 toy_start (toy_w [1]) = Some (m, s1, w1) /\
    @data_sync toy (toy_nand [] []) toy_cfg 0 s1 w1 = Some (EOK, s2, w2) /\
    @data_read toy (toy_nand [] []) toy_cfg 0 2 false m 0 s2 w2 = Some (m, [21; 22; 23; 24; 25], s3, w3).
Proof.
  destruct (@data_write_read toy toy_cfg (toy_nand [] []) (toy_laws [] []) toy_reliable 0 2 [21; 22; 23; 24; 25] 5 0 toy_start (toy_w [1])
    toy_ok ltac:(vm_compute; done) (toy_start_ok [] [] _) ltac:(vm_compute; done) ltac:(vm_compute; done))
    as (m & s1 & w1 & s2 & w2 & s3 & w3 & Em & E1 & _ & E2 & _ & E3).
  assert (m = 5) as -> by (rewrite Em; reflexivity).
  exists 5, s1, w1, s2, w2, s3, w3. done.
Defined.

(** Block 0 is cached and cannot be erased: it ends in block 1. *)
Definition toy_dirty : data_common := mk_common None (Some 0) 0 0 [7; 7] [31; 32; 33; 34].

Lemma data_sync_moves_witness :
  exists s' w', @data_sync toy (toy_nand [] [0]) toy_cfg 0 toy_dirty (toy_w []) = Some (EOK, s', w') /\
    wblock s' = 1 /\ wnand s' = None /\ toy_chip w' = [0; 1; 2; 3; 31; 32; 33; 34; 8; 9; 10; 11].
Proof.
  destruct (@data_sync_moves toy toy_cfg (toy_nand [] [0]) (toy_laws [] [0]) 0 toy_dirty (toy_w []) toy_ok ltac:(vm_compute; done)
    ltac:(split; try done; split; [by right|by left]) eq_refl) as (r & s' & w' & E & _).
  vm_compute in E. injection E as <- <- <-. by eexists _, _.
Defined.

(** *** What the driver does not promise *)

Section faults.
  Context (fr fe : list Z).

Definition toy_write (offs : Z) (bs : list Z) (r : data_common * toy) : option (data_common * toy) :=
  '(n, s, w) ← @data_write toy (toy_nand fr fe) toy_cfg 0 offs (Some bs) (zlen bs) r.1 r.2;
  if n =? zlen bs then Some (s, w) else None.
Definition toy_erase (offs len : Z) (r : data_common * toy) : option (data_common * toy) :=
  '(n, s, w) ← @data_erase toy (toy_nand fr fe) toy_cfg 0 offs len 0 r.1 r.2;
  if n =? len then Some (s, w) else None.
Definition toy_sync (r : data_common * toy) : option (list Z) :=
  '(n, _, w) ← @data_sync toy (toy_nand fr fe) toy_cfg 0 r.1 r.2;
  if n =? EOK then Some (toy_chip w) else None.
End faults.

(** Page 1 cannot be read.  Writing two bytes to block 0 marks block 0 bad, and then
    every other block: the failure is still in [err] when the next blocks, of which
    nothing in front of the write has to be read, are looked at. *)
Lemma read_error_marks_all :
  ('(n, _, w) ← @data_write toy (toy_nand [1] []) toy_cfg 0 0 (Some [21; 22]) 2 toy_start (toy_w []); Some (n, w.2)) =
    Some (0, [2; 1; 0]).
Proof. vm_compute. reflexivity. Qed.

(** Block 1 is bad.  Three writes of a block each, one behind the other, all succeed;
    what the second wrote is lost, as it went to block 2 like the third. *)
Lemma chunks_overwritten :
  (r ← toy_write [] [] 0 [11; 11; 11; 11] (toy_start, toy_w [1]);
   r ← toy_write [] [] 4 [22; 22; 22; 22] r;
   r ← toy_write [] [] 8 [33; 33; 33; 33] r;
   toy_sync [] [] r) = Some [11; 11; 11; 11; 4; 5; 6; 7; 33; 33; 33; 33].
Proof. vm_compute. reflexivity. Qed.

(** Block 0 is cached and cannot be erased, and block 1 is to be erased.  The cached
    block moves to block 1 and is erased there; [data_write] looks for this and goes
    on behind it. *)
Lemma erase_moved_block :
  (toy_erase [] [0] 4 4 (toy_dirty, toy_w []) ≫= toy_sync [] [0]) = Some [0; 1; 2; 3; 255; 255; 255; 255; 8; 9; 10; 11] /\
  (toy_write [] [0] 4 [21; 22; 23; 24] (toy_dirty, toy_w []) ≫= toy_sync [] [0]) = Some [0; 1; 2; 3; 31; 32; 33; 34; 21; 22; 23; 24].
Proof. by split; vm_compute. Qed.
