(* ===== verification/SdCard.v ===== *)
(** * SD card of the Zynq-7000 (src/devices/sdcard-zynq7000/sdcarddrv.c, sdcard.c)

    The driver moves bytes through a buffer of two blocks; sdcard.c turns transfers of
    blocks into commands.  Sending a command is the class [Sdio]; [Sdio_card] states
    what it does on a card without faults.  Addresses and sizes are 32 bits wide.
    [None] is an access outside a buffer. *)

From S2P Require Import Prelude Mem Devs.

Definition EPERM := 1.

(** ** src/devices/sdcard-zynq7000/sdcard.h, sdhost_defs.h *)

Definition SDCARD_MAX_TRANSFER := 1024.
Definition SDCARD_BLOCKLEN := 512.
Definition SDIO_CMD17_READ_SINGLE_BLOCK := 17.
Definition SDIO_CMD18_READ_MULTIPLE_BLOCK := 18.
Definition SDIO_CMD24_WRITE_SINGLE_BLOCK := 24.
Definition SDIO_CMD25_WRITE_MULTIPLE_BLOCK := 25.

(** Bits 19 to 24 and 26 to 31. *)
Definition CARD_STATUS_ERRORS := 0xfdf80000.

Inductive sdio_dir_t := sdio_read | sdio_write.

#[export] Instance sdio_dir_eq : EqDecision sdio_dir_t.
Proof. solve_decision. Defined.

Record sdcard_cardMetadata_t := mk_card { sizeBlocks : Z; eraseSizeBlocks : Z; highCapacity : Z }.

(** ** What a card tells of its size *)

Definition CSD_VERSION (r : list Z) : Z := Z.land (Z.shiftr (nth 3 r 0) 22) 0x3.
Definition CSDV1_READ_BL_LEN (r : list Z) : Z := Z.land (Z.shiftr (nth 2 r 0) 8) 0xf.
Definition CSDV1_C_SIZE (r : list Z) : Z := Z.lor (Z.shiftl (Z.land (nth 2 r 0) 0x3) 10) (Z.shiftr (nth 1 r 0) 22).
Definition CSDV1_C_SIZE_MULT (r : list Z) : Z := Z.land (Z.shiftr (nth 1 r 0) 7) 0x7.
Definition CSDV1_WRITE_BL_LEN (r : list Z) : Z := Z.land (Z.shiftr (nth 0 r 0) 14) 0xf.
Definition CSDV1_ERASE_SECTOR_SIZE (r : list Z) : Z := Z.lor (Z.shiftl (Z.land (nth 1 r 0) 0x3f) 1) (Z.shiftr (nth 0 r 0) 31).
Definition CSDV2_C_SIZE (r : list Z) : Z := Z.land (Z.shiftr (nth 1 r 0) 8) 0x3fffff.

(** [sdcard_getCardSize] on the answer of the card: blocks, and blocks of an erase
    sector; [None] for an unknown version. *)
Definition sdcard_getCardSize (resp : list Z) : option (Z * Z) :=
  if CSD_VERSION resp =? 0 then
    let mult := w32 (Z.shiftl 4 (CSDV1_C_SIZE_MULT resp)) in
    let readBlLen := CSDV1_READ_BL_LEN resp in
    let writeBlLen := CSDV1_WRITE_BL_LEN resp in
    let blockNr := w32 ((CSDV1_C_SIZE resp + 1) * mult) in
    let blockNr := if 9 <=? readBlLen then w32 (Z.shiftl blockNr (readBlLen - 9)) else Z.shiftr blockNr (9 - readBlLen) in
    let eraseSectorSize := CSDV1_ERASE_SECTOR_SIZE resp in
    let eraseSectorSize :=
      if 9 <=? writeBlLen then w32 (Z.shiftl eraseSectorSize (writeBlLen - 9))
      else let divider := Z.shiftl 1 (9 - writeBlLen) in (eraseSectorSize + divider - 1) / divider in
    Some (blockNr, eraseSectorSize)
  else if CSD_VERSION resp =? 1 then Some (w32 (Z.shiftl (CSDV2_C_SIZE resp) 10), 1)
  else None.

(** ** The clock *)

Definition CLOCK_CONTROL_DIV_1 := 0.
Definition CLOCK_CONTROL_DIV_2 := 0x100.
Definition CLOCK_CONTROL_DIV_256 := 0x8000.

(** The loop of [sdcard_calculateDivisor]: [k] values are left from [val] on. *)
Fixpoint divisor_loop (k : nat) (val refclk freq : Z) : option Z :=
  match k with
  | O => None
  | S k => let refclk := refclk / 2 in if refclk <=? freq then Some val else divisor_loop k (Z.shiftl val 1) refclk freq
  end.

(** [None] for -1. *)
Definition sdcard_calculateDivisor (refclk freq : Z) : option Z :=
  if refclk <=? freq then Some CLOCK_CONTROL_DIV_1 else divisor_loop 8 CLOCK_CONTROL_DIV_2 refclk freq.

(** ** The driver *)

(** [sdcard_common]; the buffer is also that of the DMA engine of the host. *)
Record sdcard_common := mk_common { dataBuffer : list Z; sizeBl : Z; initialized : bool }.

Definition set_dataBuffer (m : list Z) (s : sdcard_common) : sdcard_common := mk_common m (sizeBl s) (initialized s).

Class Sdio (W : Type) := {
  (* [_sdio_cmdSend] with a short response: the command, its argument, the number of
     blocks, the deadline; the result, the response and the buffer *)
  sdio_cmdSend : Z -> Z -> Z -> Z -> list Z -> W -> Z * Z * list Z * W;
  sdcard_isWriteProtected : W -> bool;
  hal_timerGet : W -> Z * W
}.

Section driver.
  Context {W : Type} `{Sdio W} (card : sdcard_cardMetadata_t).

Definition command_of (dir : sdio_dir_t) (blockCount : Z) : Z :=
  match dir with
  | sdio_read => if 1 <? blockCount then SDIO_CMD18_READ_MULTIPLE_BLOCK else SDIO_CMD17_READ_SINGLE_BLOCK
  | sdio_write => if 1 <? blockCount then SDIO_CMD25_WRITE_MULTIPLE_BLOCK else SDIO_CMD24_WRITE_SINGLE_BLOCK
  end.

(** A card of standard capacity takes the address of a byte. *)
Definition arg_of (blockOffset : Z) : Z := if negb (highCapacity card =? 0) then blockOffset else w32 (blockOffset * SDCARD_BLOCKLEN).

Definition sdcard_transferBlocks (dir : sdio_dir_t) (blockOffset blocks deadline : Z) (s : sdcard_common) (w : W) : Z * sdcard_common * W :=
  if SDCARD_MAX_TRANSFER / SDCARD_BLOCKLEN <? blocks then (- EINVAL, s, w)
  else if bool_decide (dir = sdio_write) && sdcard_isWriteProtected w then (- EPERM, s, w)
  else
    let '(ret, resp, m, w) := sdio_cmdSend (command_of dir (w16 blocks)) (arg_of blockOffset) (w16 blocks) deadline (dataBuffer s) w in
    let s := set_dataBuffer m s in
    if ret <? 0 then (ret, s, w) else if negb (Z.land resp CARD_STATUS_ERRORS =? 0) then (- EIO, s, w) else (0, s, w).

(** The loop of [readwrite]: [pos] bytes are done, [out] were read; [fuel] bounds the
    transfers. *)
Fixpoint rw_loop (fuel : nat) (dir : sdio_dir_t) (offsBlock pos len deadline : Z) (inp out : list Z) (s : sdcard_common) (w : W)
    : option (Z * list Z * sdcard_common * W) :=
  let rest := len - pos in
  if rest =? 0 then Some (s32 len, out, s, w)
  else
    match fuel with
    | O => None
    | S fuel =>
        let toRead := if SDCARD_MAX_TRANSFER <? rest then SDCARD_MAX_TRANSFER else rest in
        let blocks := toRead / SDCARD_BLOCKLEN in
        let '(ret, toRead, blocks, s, w) :=
          if negb (toRead mod SDCARD_BLOCKLEN =? 0) then
            match dir with
            | sdio_write =>
                if 0 <? blocks then (0, blocks * SDCARD_BLOCKLEN, blocks, s, w)
                else let '(ret, s, w) := sdcard_transferBlocks sdio_read offsBlock 1 deadline s w in (ret, toRead, 1, s, w)
            | sdio_read => (0, toRead, blocks + 1, s, w)
            end
          else (0, toRead, blocks, s, w) in
        if ret <? 0 then Some (ret, out, s, w)
        else
          m ← match dir with
              | sdio_write => bs ← mbytes inp pos toRead; mstore (dataBuffer s) 0 bs
              | sdio_read => Some (dataBuffer s)
              end;
          let '(ret, s, w) := sdcard_transferBlocks dir offsBlock blocks deadline (set_dataBuffer m s) w in
          if ret <? 0 then Some (ret, out, s, w)
          else
            bs ← match dir with sdio_write => Some [] | sdio_read => mbytes (dataBuffer s) 0 toRead end;
            rw_loop fuel dir (w32 (offsBlock + blocks)) (pos + toRead) len deadline inp (out ++ bs) s w
    end.

(** The part of the first block a transfer does not start at the start of. *)
Definition rw_head (dir : sdio_dir_t) (offsBlock offsRem n deadline : Z) (inp : list Z) (s : sdcard_common) (w : W)
    : option (Z * list Z * sdcard_common * W) :=
  let '(ret, s, w) := sdcard_transferBlocks sdio_read offsBlock 1 deadline s w in
  if ret <? 0 then Some (ret, [], s, w)
  else
    match dir with
    | sdio_write =>
        bs ← mbytes inp 0 n;
        m ← mstore (dataBuffer s) offsRem bs;
        let '(ret, s, w) := sdcard_transferBlocks sdio_write offsBlock 1 deadline (set_dataBuffer m s) w in
        Some (if ret <? 0 then ret else 0, [], s, w)
    | sdio_read => bs ← mbytes (dataBuffer s) offsRem n; Some (0, bs, s, w)
    end.

(** The number of blocks the driver takes a range to be. *)
Definition lenBlocks (offs len : Z) : Z := w32 (len + offs mod SDCARD_BLOCKLEN + SDCARD_BLOCKLEN - 1) / SDCARD_BLOCKLEN.

Definition out_of_card (offsBlock blocks : Z) (s : sdcard_common) : bool :=
  (sizeBl s <? offsBlock) || (sizeBl s <? w32 (offsBlock + blocks)).

(** [inp] is [buff] when it is written, the second result what is stored there when it
    is read. *)
Definition readwrite (fuel : nat) (dir : sdio_dir_t) (offs len deadline : Z) (inp : list Z) (s : sdcard_common) (w : W)
    : option (Z * list Z * sdcard_common * W) :=
  let offsBlock := offs / SDCARD_BLOCKLEN in
  let offsRem := offs mod SDCARD_BLOCKLEN in
  if negb (initialized s) then Some (- EINVAL, [], s, w)
  else if out_of_card offsBlock (lenBlocks offs len) s then Some (- EINVAL, [], s, w)
  else if negb (offsRem =? 0) then
    let remSize := Z.min (SDCARD_BLOCKLEN - offsRem) len in
    '(ret, out, s, w) ← rw_head dir offsBlock offsRem remSize deadline inp s w;
    if ret <? 0 then Some (ret, out, s, w) else rw_loop fuel dir (w32 (offsBlock + 1)) remSize len deadline inp out s w
  else rw_loop fuel dir offsBlock 0 len deadline inp [] s w.

Definition sdcarddrv_read (fuel : nat) (minor offs len timeout : Z) (s : sdcard_common) (w : W) : option (Z * list Z * sdcard_common * W) :=
  let '(t, w) := hal_timerGet w in readwrite fuel sdio_read offs len (w64 (t + timeout)) [] s w.

Definition sdcarddrv_write (fuel : nat) (minor offs : Z) (buff : list Z) (s : sdcard_common) (w : W) : option (Z * sdcard_common * W) :=
  let '(t, w) := hal_timerGet w in
  '(ret, _, s, w) ← readwrite fuel sdio_write offs (zlen buff) (w64 (t + 3000 + zlen buff / 12500)) buff s w;
  Some (ret, s, w).

(** The loop of [sdcard_writeFF]: [nBlocks] are left, [per] at a time. *)
Fixpoint ff_loop (fuel : nat) (blockOffset nBlocks per : Z) (s : sdcard_common) (w : W) : option (Z * sdcard_common * W) :=
  if nBlocks =? 0 then Some (EOK, s, w)
  else
    match fuel with
    | O => None
    | S fuel =>
        let per := if nBlocks <? per then nBlocks else per in
        let '(t, w) := hal_timerGet w in
        let '(ret, resp, m, w) := sdio_cmdSend (command_of sdio_write per) (arg_of blockOffset) per (w64 (t + 1000)) (dataBuffer s) w in
        let s := set_dataBuffer m s in
        if ret <? 0 then Some (ret, s, w)
        else if negb (Z.land resp CARD_STATUS_ERRORS =? 0) then Some (- EIO, s, w)
        else ff_loop fuel (w32 (blockOffset + per)) (nBlocks - per) per s w
    end.

Definition sdcard_writeFF (fuel : nat) (blockOffset nBlocks : Z) (s : sdcard_common) (w : W) : option (Z * sdcard_common * W) :=
  if sdcard_isWriteProtected w then Some (- EPERM, s, w)
  else
    m ← mstore (dataBuffer s) 0 (replicate (Z.to_nat SDCARD_MAX_TRANSFER) 0xff);
    ff_loop fuel blockOffset nBlocks (SDCARD_MAX_TRANSFER / SDCARD_BLOCKLEN) (set_dataBuffer m s) w.

(** [REAL_ERASE] is 0. *)
Definition sdcarddrv_erase (fuel : nat) (minor offs len flags : Z) (s : sdcard_common) (w : W) : option (Z * sdcard_common * W) :=
  if negb (initialized s) then Some (- EINVAL, s, w)
  else if negb (offs mod SDCARD_BLOCKLEN =? 0) || negb (len mod SDCARD_BLOCKLEN =? 0) then Some (- EINVAL, s, w)
  else if out_of_card (offs / SDCARD_BLOCKLEN) (len / SDCARD_BLOCKLEN) s then Some (- EINVAL, s, w)
  else
    '(ret, s, w) ← sdcard_writeFF fuel (offs / SDCARD_BLOCKLEN) (len / SDCARD_BLOCKLEN) s w;
    Some (if ret <? 0 then ret else s32 len, s, w).

Definition sdcarddrv_sync (minor : Z) (s : sdcard_common) : Z := if b2z (initialized s) <=? minor then - EINVAL else 0.

Definition sdcarddrv_map (minor addr sz mode memaddr memsz memmode : Z) : Z :=
  if negb (Z.land mode memmode =? mode) then - EINVAL else dev_isNotMappable.

End driver.

(** ** A card without faults *)

Class Sdio_card (W : Type) `{Sdio W} (card : sdcard_cardMetadata_t) := {
  bytes_of : W -> list Z;
  unprotected w : sdcard_isWriteProtected w = false;
  timer_law w : bytes_of (hal_timerGet w).2 = bytes_of w;
  cmd_law dir n b deadline m w :
    1 <= n <= 2 -> 0 <= b -> (b + n) * SDCARD_BLOCKLEN <= zlen (bytes_of w) -> zlen m = SDCARD_MAX_TRANSFER ->
    exists resp m' w', sdio_cmdSend (command_of dir n) (arg_of card b) n deadline m w = (0, resp, m', w') /\
      Z.land resp CARD_STATUS_ERRORS = 0 /\
      match dir with
      | sdio_read =>
          m' = splice 0 (zslice (b * SDCARD_BLOCKLEN) (n * SDCARD_BLOCKLEN) (bytes_of w)) m /\ bytes_of w' = bytes_of w
      | sdio_write => m' = m /\ bytes_of w' = splice (b * SDCARD_BLOCKLEN) (ztake (n * SDCARD_BLOCKLEN) m) (bytes_of w)
      end
}.
Arguments bytes_of {W _ card _} w.

Section card.
  Context {W : Type} (card : sdcard_cardMetadata_t) `{C : Sdio_card W card}.

(** The driver is set up for the card. *)
Record card_ok (s : sdcard_common) (w : W) : Prop := {
  ok_buffer : zlen (dataBuffer s) = SDCARD_MAX_TRANSFER;
  ok_init : initialized s = true;
  ok_size : zlen (bytes_of w) = sizeBl s * SDCARD_BLOCKLEN;
  ok_bits : 0 <= sizeBl s < 2 ^ 22
}.

Lemma card_ok_bytes s w m w' : card_ok s w -> zlen m = SDCARD_MAX_TRANSFER -> zlen (bytes_of w') = zlen (bytes_of w) -> card_ok (set_dataBuffer m s) w'.
Proof. intros [A B D E] M L. split; cbn; congruence. Qed.

Lemma transfer_spec dir b n deadline s w :
  card_ok s w -> 1 <= n <= 2 -> 0 <= b -> b + n <= sizeBl s ->
  exists m w', sdcard_transferBlocks card dir b n deadline s w = (0, set_dataBuffer m s, w') /\ card_ok (set_dataBuffer m s) w' /\
    match dir with
    | sdio_read => m = splice 0 (zslice (b * SDCARD_BLOCKLEN) (n * SDCARD_BLOCKLEN) (bytes_of w)) (dataBuffer s) /\ bytes_of w' = bytes_of w
    | sdio_write => m = dataBuffer s /\ bytes_of w' = splice (b * SDCARD_BLOCKLEN) (ztake (n * SDCARD_BLOCKLEN) (dataBuffer s)) (bytes_of w)
    end.
Proof.
  intros O N B Le. pose proof (ok_size s w O) as Sz. pose proof (ok_buffer s w O) as Lm. unfold sdcard_transferBlocks.
  destruct (Z.ltb_spec (SDCARD_MAX_TRANSFER / SDCARD_BLOCKLEN) n) as [L|_]; [change (SDCARD_MAX_TRANSFER / SDCARD_BLOCKLEN) with 2 in L; lia|].
  rewrite unprotected, andb_false_r. unfold w16. rewrite (Z.mod_small n) by lia.
  destruct (cmd_law dir n b deadline (dataBuffer s) w) as (resp & m & w' & -> & R & Ef); [lia|lia|rewrite Sz; unfold SDCARD_BLOCKLEN; lia|done|].
  rewrite R. cbn [Z.ltb Z.compare negb Z.eqb]. exists m, w'. split; [done|].
  unfold SDCARD_BLOCKLEN, SDCARD_MAX_TRANSFER in *. split; [|done]. destruct dir; destruct Ef as [-> Eb]; apply (card_ok_bytes s w); try done.
  - unfold SDCARD_MAX_TRANSFER. rewrite length_splice; rewrite ?length_zslice by lia; lia.
  - by rewrite Eb.
  - rewrite Eb, length_splice; rewrite ?length_take; lia.
Qed.

(** The loop writes what is left of [inp]. *)
Lemma sd_write_loop_spec fuel b pos len deadline inp out s w :
  card_ok s w -> 0 <= b -> 0 <= pos <= len -> len <= zlen inp -> len < 2 ^ 31 -> b * SDCARD_BLOCKLEN + (len - pos) <= zlen (bytes_of w) ->
  len - pos <= SDCARD_BLOCKLEN * Z.of_nat fuel ->
  exists s' w', rw_loop card fuel sdio_write b pos len deadline inp out s w = Some (len, out, s', w') /\ card_ok s' w' /\
    bytes_of w' = splice (b * SDCARD_BLOCKLEN) (zslice pos (len - pos) inp) (bytes_of w).
Proof.
  unfold SDCARD_BLOCKLEN. revert b pos s w. induction fuel as [|fuel IH]; intros b pos s w O B P Li L31 Fit K; cbn [rw_loop].
  all: destruct (Z.eqb_spec (len - pos) 0) as [E|E]; [exists s, w; rewrite E, zslice_nil, splice_nil, s32_small by lia; done|].
  { lia. }
  pose proof (ok_size s w O) as Sz. pose proof (ok_bits s w O). unfold SDCARD_BLOCKLEN in Sz.
  (* one transfer of [n] bytes in [k] blocks *)
  assert (Step : forall n k s1 w1, card_ok s1 w1 -> bytes_of w1 = bytes_of w -> sizeBl s1 = sizeBl s -> 1 <= k <= 2 ->
    n = k * 512 \/ k = 1 /\ n < 512 /\ n = len - pos /\ ztake 512 (dataBuffer s1) = zslice (b * 512) 512 (bytes_of w) ->
    0 < n <= len - pos ->
    exists s' w', (m ← (bs ← mbytes inp pos n; mstore (dataBuffer s1) 0 bs);
       let '(ret, s, w) := sdcard_transferBlocks card sdio_write b k deadline (set_dataBuffer m s1) w1 in
       if ret <? 0 then Some (ret, out, s, w)
       else bs ← Some []; rw_loop card fuel sdio_write (w32 (b + k)) (pos + n) len deadline inp (out ++ bs) s w) = Some (len, out, s', w') /\
      card_ok s' w' /\ bytes_of w' = splice (b * 512) (zslice pos (len - pos) inp) (bytes_of w)).
  { intros n k s1 w1 O1 Eb1 Es1 Kk Nk Np. pose proof (ok_buffer s1 w1 O1) as Lb. unfold SDCARD_MAX_TRANSFER in Lb.
    rewrite mbytes_ok by lia. cbn [mbind option_bind]. set (bs := zslice pos n inp). assert (Lbs : zlen bs = n) by (apply length_zslice; lia).
    rewrite mstore_ok by lia. cbn [mbind option_bind]. set (m := splice 0 bs (dataBuffer s1)).
    assert (Lm : zlen m = 1024) by (unfold m; rewrite length_splice; lia).
    assert (O2 : card_ok (set_dataBuffer m s1) w1) by (by apply (card_ok_bytes s1 w1)).
    destruct (transfer_spec sdio_write b k deadline (set_dataBuffer m s1) w1) as (m' & w2 & -> & O3 & -> & Eb2); [done|done|done|cbn; lia|].
    cbn [Z.ltb Z.compare]. unfold SDCARD_BLOCKLEN in Eb2. cbn [dataBuffer set_dataBuffer] in Eb2, O3 |- *. rewrite Eb1 in Eb2.
    assert (Eb3 : bytes_of w2 = splice (b * 512) bs (bytes_of w)).
    { rewrite Eb2. destruct Nk as [-> |(-> & Ln & _ & Tk)].
      - f_equal. unfold m. rewrite <- zslice_0. apply zslice_splice_same; lia.
      - unfold m. rewrite Z.mul_1_l, ztake_splice, Tk by lia. apply splice_read_back; lia. }
    cbn [mbind option_bind]. rewrite app_nil_r, w32_small by lia.
    destruct (decide (pos + n = len)) as [El|Nl].
    - exists (set_dataBuffer m (set_dataBuffer m s1)), w2. split; [|split; [done|]].
      + replace (rw_loop _ _ _ _ _ _ _ _ _ _ _) with (Some (s32 len, out, set_dataBuffer m (set_dataBuffer m s1), w2)).
        { by rewrite s32_small by lia. }
        destruct fuel; cbn [rw_loop]; by rewrite El, Z.sub_diag.
      + rewrite Eb3. unfold bs. do 2 f_equal. lia.
    - assert (Kn : n = k * 512) by lia.
      destruct (IH (b + k) (pos + n) (set_dataBuffer m (set_dataBuffer m s1)) w2) as (s' & w' & -> & O' & Eb'); [done|lia|lia|lia|lia| |lia|].
      { rewrite Eb3, length_splice; lia. }
      exists s', w'. split; [done|]. split; [done|]. rewrite Eb', Eb3.
      replace ((b + k) * 512) with (b * 512 + zlen bs) by lia. rewrite splice_app by (rewrite ?length_zslice by lia; lia).
      f_equal. unfold bs. replace (len - pos) with (n + (len - (pos + n))) by lia. by rewrite zslice_app by lia. }
  unfold SDCARD_MAX_TRANSFER, SDCARD_BLOCKLEN. set (t := if 1024 <? len - pos then 1024 else len - pos).
  assert (T : t = Z.min 1024 (len - pos)) by (unfold t; destruct (Z.ltb_spec 1024 (len - pos)); lia). clearbody t.
  destruct (Z.eqb_spec (t mod 512) 0) as [Al|Un]; cbn [negb].
  - assert (Kt : 1 <= t / 512 <= 2) by modlia.
    cbn [Z.ltb Z.compare]. apply (Step t (t / 512) s w); [done|done|done|done|left; modlia|lia].
  - destruct (Z.ltb_spec 0 (t / 512)) as [Pb|Zb].
    + assert (T1 : t / 512 = 1 /\ 512 <= t) by modlia. destruct T1 as [T1 T2]. rewrite T1.
      cbn [Z.ltb Z.compare]. apply (Step (1 * 512) 1 s w); [done|done|done|lia|by left|lia].
    + assert (T0 : t < 512 /\ t = len - pos) by modlia.
      destruct (transfer_spec sdio_read b 1 deadline s w) as (m & w1 & -> & O1 & Em & Eb); [done|lia|lia|lia|].
      cbn [Z.ltb Z.compare]. apply (Step t 1 (set_dataBuffer m s) w1); [done|done|done|lia| |lia]. right. split; [done|]. split; [lia|]. split; [lia|].
      cbn [dataBuffer set_dataBuffer]. rewrite Em, <- (zslice_0 512). unfold SDCARD_BLOCKLEN. rewrite Z.mul_1_l.
      pose proof (ok_buffer s w O) as Lb. unfold SDCARD_MAX_TRANSFER in Lb.
      apply zslice_splice_same; rewrite ?length_zslice by lia; lia.
Qed.

(** The loop reads what is left of the range. *)
Lemma sd_read_loop_spec fuel b pos len deadline inp out s w :
  card_ok s w -> 0 <= b -> 0 <= pos <= len -> len < 2 ^ 31 -> b * SDCARD_BLOCKLEN + (len - pos) <= zlen (bytes_of w) ->
  len - pos <= SDCARD_BLOCKLEN * Z.of_nat fuel ->
  exists s' w', rw_loop card fuel sdio_read b pos len deadline inp out s w =
      Some (len, out ++ zslice (b * SDCARD_BLOCKLEN) (len - pos) (bytes_of w), s', w') /\ card_ok s' w' /\ bytes_of w' = bytes_of w.
Proof.
  unfold SDCARD_BLOCKLEN. revert b pos out s w. induction fuel as [|fuel IH]; intros b pos out s w O B P L31 Fit K; cbn [rw_loop].
  all: destruct (Z.eqb_spec (len - pos) 0) as [E|E]; [exists s, w; rewrite E, zslice_nil, app_nil_r, s32_small by lia; done|].
  { lia. }
  pose proof (ok_size s w O) as Sz. pose proof (ok_bits s w O). pose proof (ok_buffer s w O) as Lb. unfold SDCARD_BLOCKLEN, SDCARD_MAX_TRANSFER in Sz, Lb.
  unfold SDCARD_MAX_TRANSFER, SDCARD_BLOCKLEN. set (t := if 1024 <? len - pos then 1024 else len - pos).
  assert (T : t = Z.min 1024 (len - pos)) by (unfold t; destruct (Z.ltb_spec 1024 (len - pos)); lia). clearbody t.
  assert (Blk : exists k, (if negb (t mod 512 =? 0) then (0, t, t / 512 + 1, s, w) else (0, t, t / 512, s, w)) = (0, t, k, s, w) /\
    1 <= k <= 2 /\ t <= k * 512 < t + 512 /\ (t = len - pos \/ t = k * 512)).
  { destruct (Z.eqb_spec (t mod 512) 0); cbn [negb]; eexists; (split; [done|]); modlia. }
  destruct Blk as (k & -> & Kk & Kt & Kr). cbn [Z.ltb Z.compare mbind option_bind].
  assert (Ez : set_dataBuffer (dataBuffer s) s = s) by (by destruct s). rewrite Ez.
  destruct (transfer_spec sdio_read b k deadline s w) as (m & w1 & -> & O1 & Em & Eb); [done|done|done|lia|].
  cbn [Z.ltb Z.compare dataBuffer set_dataBuffer]. unfold SDCARD_BLOCKLEN in Em.
  assert (Lz : zlen (zslice (b * 512) (k * 512) (bytes_of w)) = k * 512) by (apply length_zslice; lia).
  assert (Lm : zlen m = 1024) by (rewrite Em, length_splice; lia).
  rewrite mbytes_ok by lia. cbn [mbind option_bind].
  assert (Bs : zslice 0 t m = zslice (b * 512) t (bytes_of w)).
  { rewrite Em, zslice_splice_inner, Z.sub_diag, zslice_zslice, Z.add_0_r by lia. done. }
  rewrite Bs, w32_small by lia. destruct (decide (t = len - pos)) as [Et|Nt].
  - exists (set_dataBuffer m s), w1. split; [|done].
    replace (rw_loop _ _ _ _ _ _ _ _ _ _ _) with (Some (s32 len, out ++ zslice (b * 512) t (bytes_of w), set_dataBuffer m s, w1)).
    { rewrite s32_small by lia. by rewrite Et. }
    destruct fuel; cbn [rw_loop]; replace (len - (pos + t)) with 0 by lia; done.
  - destruct (IH (b + k) (pos + t) (out ++ zslice (b * 512) t (bytes_of w)) (set_dataBuffer m s) w1) as (s' & w' & -> & O' & Eb');
      [done|lia|lia|lia|rewrite Eb; lia|lia|].
    exists s', w'. split; [|split; [done|by rewrite Eb', Eb]]. rewrite <- app_assoc, Eb.
    replace (len - pos) with (t + (len - (pos + t))) by lia. rewrite zslice_app by lia.
    by replace ((b + k) * 512) with (b * 512 + t) by lia.
Qed.

(** The range lies in the card. *)
Lemma in_card s w offs len :
  card_ok s w -> 0 <= offs -> 0 <= len < 2 ^ 31 -> offs + len <= zlen (bytes_of w) ->
  out_of_card (offs / SDCARD_BLOCKLEN) (lenBlocks offs len) s = false /\
  offs / SDCARD_BLOCKLEN * SDCARD_BLOCKLEN + offs mod SDCARD_BLOCKLEN = offs /\ 0 <= offs / SDCARD_BLOCKLEN <= sizeBl s /\
  (0 < offs mod SDCARD_BLOCKLEN -> offs / SDCARD_BLOCKLEN + 1 <= sizeBl s).
Proof.
  intros O A L Le. pose proof (ok_size s w O) as Sz. pose proof (ok_bits s w O). unfold out_of_card, lenBlocks, SDCARD_BLOCKLEN in *.
  assert (0 <= offs mod 512 < 512) by (apply Z.mod_pos_bound; lia). rewrite (w32_small (_ - 1)) by lia.
  assert (offs / 512 + (len + offs mod 512 + 512 - 1) / 512 <= sizeBl s) by modlia.
  assert (0 <= offs / 512 /\ 0 <= (len + offs mod 512 + 512 - 1) / 512) by (split; apply Z.div_pos; lia).
  rewrite w32_small by lia. split; [lia|]. split; [pose proof (Z.div_mod offs 512); lia|]. split; [lia|]. intros. modlia.
Qed.

Lemma readwrite_write fuel offs deadline inp s w :
  card_ok s w -> 0 <= offs -> zlen inp < 2 ^ 31 -> offs + zlen inp <= zlen (bytes_of w) -> zlen inp <= SDCARD_BLOCKLEN * Z.of_nat fuel ->
  exists s' w', readwrite card fuel sdio_write offs (zlen inp) deadline inp s w = Some (zlen inp, [], s', w') /\ card_ok s' w' /\
    bytes_of w' = splice offs inp (bytes_of w).
Proof.
  intros O A L Le K. destruct (in_card s w offs (zlen inp) O A ltac:(lia) Le) as (E & D & Q & Q1). pose proof (ok_size s w O) as Sz.
  unfold readwrite. rewrite (ok_init s w O), E. cbn [negb]. set (b := offs / SDCARD_BLOCKLEN) in *. set (r := offs mod SDCARD_BLOCKLEN) in *.
  assert (R : 0 <= r < SDCARD_BLOCKLEN) by (apply Z.mod_pos_bound; unfold SDCARD_BLOCKLEN; lia). clearbody b r.
  pose proof (ok_buffer s w O) as Lb. pose proof (ok_bits s w O). unfold SDCARD_BLOCKLEN, SDCARD_MAX_TRANSFER in *.
  destruct (Z.eqb_spec r 0) as [Rz|Rn]; cbn [negb].
  { destruct (sd_write_loop_spec fuel b 0 (zlen inp) deadline inp [] s w) as (s' & w' & -> & O' & Eb); unfold SDCARD_BLOCKLEN; [done|lia..|].
    exists s', w'. split; [done|]. split; [done|]. rewrite Eb, Z.sub_0_r, zslice_0, Nat2Z.id, firstn_all. f_equal. unfold SDCARD_BLOCKLEN. lia. }
  set (n := Z.min (512 - r) (zlen inp)). unfold rw_head.
  destruct (transfer_spec sdio_read b 1 deadline s w) as (m & w1 & -> & O1 & Em & Eb1); [done|lia|lia|lia|]. cbn [Z.ltb Z.compare].
  rewrite mbytes_ok by lia. cbn [mbind option_bind dataBuffer set_dataBuffer]. set (bs := zslice 0 n inp).
  assert (Lbs : zlen bs = n) by (apply length_zslice; lia). unfold SDCARD_BLOCKLEN in Em. rewrite Z.mul_1_l in Em.
  assert (Lk : zlen (zslice (b * 512) 512 (bytes_of w)) = 512) by (apply length_zslice; lia).
  assert (Lm : zlen m = 1024) by (rewrite Em, length_splice; lia).
  rewrite mstore_ok by lia. cbn [mbind option_bind]. set (m2 := splice r bs m).
  assert (O2 : card_ok (set_dataBuffer m2 (set_dataBuffer m s)) w1).
  { apply (card_ok_bytes (set_dataBuffer m s) w1); [done| |done]. unfold m2, SDCARD_MAX_TRANSFER. rewrite length_splice; lia. }
  destruct (transfer_spec sdio_write b 1 deadline _ w1 O2) as (m3 & w2 & -> & O3 & -> & Eb2); [lia|lia|cbn; lia|].
  cbn [Z.ltb Z.compare mbind option_bind dataBuffer set_dataBuffer] in Eb2, O3 |- *. unfold SDCARD_BLOCKLEN in Eb2.
  assert (Eb3 : bytes_of w2 = splice offs bs (bytes_of w)).
  { rewrite Eb2, Eb1, Z.mul_1_l. unfold m2. rewrite ztake_splice, <- (zslice_0 512 m) by lia.
    rewrite Em at 1. rewrite <- Lk at 2. rewrite zslice_splice_same by lia.
    transitivity (splice (b * 512) (splice r bs (zslice (b * 512) 512 (bytes_of w))) (splice (b * 512) (zslice (b * 512) 512 (bytes_of w)) (bytes_of w))).
    - by rewrite splice_zslice by lia.
    - rewrite splice_splice_same by (rewrite ?length_splice; lia).
      replace r with (offs - b * 512) by lia. rewrite <- splice_into by lia. by rewrite splice_zslice by lia. }
  rewrite w32_small by lia. destruct (decide (n = zlen inp)) as [En|Nn].
  - exists (set_dataBuffer m2 (set_dataBuffer m2 (set_dataBuffer m s))), w2. split; [|split; [done|]].
    + destruct fuel; cbn [rw_loop]; rewrite En, Z.sub_diag, s32_small by lia; done.
    + rewrite Eb3. f_equal. unfold bs. by rewrite zslice_0, En, Nat2Z.id, firstn_all.
  - assert (N : n = 512 - r) by lia.
    destruct (sd_write_loop_spec fuel (b + 1) n (zlen inp) deadline inp [] _ w2 O3) as (s' & w' & -> & O' & Eb'); unfold SDCARD_BLOCKLEN;
      [lia|lia|lia|lia| |lia|].
    { rewrite Eb3, length_splice; lia. }
    exists s', w'. split; [done|]. split; [done|]. unfold SDCARD_BLOCKLEN in Eb'. rewrite Eb', Eb3.
    replace ((b + 1) * 512) with (offs + zlen bs) by lia. rewrite splice_app by (rewrite ?length_zslice by lia; lia). f_equal.
    unfold bs. rewrite <- (Z.add_0_l n) at 2. rewrite <- zslice_app by lia. rewrite zslice_0. rewrite Zplus_minus, Nat2Z.id. apply firstn_all.
Qed.

Lemma readwrite_read fuel offs len deadline inp s w :
  card_ok s w -> 0 <= offs -> 0 <= len < 2 ^ 31 -> offs + len <= zlen (bytes_of w) -> len <= SDCARD_BLOCKLEN * Z.of_nat fuel ->
  exists s' w', readwrite card fuel sdio_read offs len deadline inp s w = Some (len, zslice offs len (bytes_of w), s', w') /\ card_ok s' w' /\
    bytes_of w' = bytes_of w.
Proof.
  intros O A L Le K. destruct (in_card s w offs len O A ltac:(lia) Le) as (E & D & Q & Q1). pose proof (ok_size s w O) as Sz.
  unfold readwrite. rewrite (ok_init s w O), E. cbn [negb]. set (b := offs / SDCARD_BLOCKLEN) in *. set (r := offs mod SDCARD_BLOCKLEN) in *.
  assert (R : 0 <= r < SDCARD_BLOCKLEN) by (apply Z.mod_pos_bound; unfold SDCARD_BLOCKLEN; lia). clearbody b r.
  pose proof (ok_buffer s w O) as Lb. pose proof (ok_bits s w O). unfold SDCARD_BLOCKLEN, SDCARD_MAX_TRANSFER in *.
  destruct (Z.eqb_spec r 0) as [Rz|Rn]; cbn [negb].
  { destruct (sd_read_loop_spec fuel b 0 len deadline inp [] s w) as (s' & w' & -> & O' & Eb); unfold SDCARD_BLOCKLEN; [done|lia..|].
    exists s', w'. split; [|done]. cbn [app]. rewrite Z.sub_0_r. by replace (b * 512) with offs by lia. }
  set (n := Z.min (512 - r) len). unfold rw_head.
  destruct (transfer_spec sdio_read b 1 deadline s w) as (m & w1 & -> & O1 & Em & Eb1); [done|lia|lia|lia|]. cbn [Z.ltb Z.compare].
  unfold SDCARD_BLOCKLEN in Em. rewrite Z.mul_1_l in Em. cbn [dataBuffer set_dataBuffer].
  assert (Lk : zlen (zslice (b * 512) 512 (bytes_of w)) = 512) by (apply length_zslice; lia).
  assert (Lm : zlen m = 1024) by (rewrite Em, length_splice; lia).
  rewrite mbytes_ok by lia. cbn [mbind option_bind Z.ltb Z.compare].
  assert (Bs : zslice r n m = zslice offs n (bytes_of w)).
  { rewrite Em, zslice_splice_inner, zslice_zslice by lia. f_equal. lia. }
  rewrite Bs, w32_small by lia. destruct (decide (n = len)) as [En|Nn].
  - exists (set_dataBuffer m s), w1. split; [|done]. destruct fuel; cbn [rw_loop]; rewrite En, Z.sub_diag, s32_small by lia; done.
  - destruct (sd_read_loop_spec fuel (b + 1) n len deadline inp (zslice offs n (bytes_of w)) (set_dataBuffer m s) w1 O1)
      as (s' & w' & -> & O' & Eb'); unfold SDCARD_BLOCKLEN; [lia|lia|lia|rewrite Eb1; lia|lia|].
    exists s', w'. split; [|split; [done|by rewrite Eb', Eb1]]. rewrite Eb1. replace ((b + 1) * 512) with (offs + n) by lia.
    rewrite <- zslice_app by lia. by rewrite Zplus_minus.
Qed.

Lemma ff_loop_spec fuel b n per s w :
  card_ok s w -> (forall k, 1 <= k <= 2 -> ztake (k * SDCARD_BLOCKLEN) (dataBuffer s) = replicate (Z.to_nat (k * SDCARD_BLOCKLEN)) 0xff) ->
  0 <= b -> 0 <= n -> b + n <= sizeBl s -> 1 <= per <= 2 -> n <= Z.of_nat fuel ->
  exists s' w', ff_loop card fuel b n per s w = Some (EOK, s', w') /\ card_ok s' w' /\
    bytes_of w' = splice (b * SDCARD_BLOCKLEN) (replicate (Z.to_nat (n * SDCARD_BLOCKLEN)) 0xff) (bytes_of w).
Proof.
  revert b n per s w. induction fuel as [|fuel IH]; intros b n per s w O Ff B N Le P K; cbn [ff_loop].
  all: destruct (Z.eqb_spec n 0) as [-> |Nz]; [exists s, w; change (Z.to_nat (0 * SDCARD_BLOCKLEN)) with 0%nat; cbn [replicate]; rewrite splice_nil; done|].
  { lia. }
  pose proof (ok_size s w O) as Sz. pose proof (ok_bits s w O). pose proof (ok_buffer s w O) as Lb. unfold SDCARD_BLOCKLEN, SDCARD_MAX_TRANSFER in *.
  set (p := if n <? per then n else per). assert (Pp : p = Z.min n per) by (unfold p; destruct (Z.ltb_spec n per); lia). clearbody p.
  pose proof (timer_law w) as Tm. destruct (hal_timerGet w) as [t w0]. cbn [snd] in Tm.
  destruct (cmd_law sdio_write p b (w64 (t + 1000)) (dataBuffer s) w0) as (resp & m & w1 & -> & R & -> & Eb); unfold SDCARD_BLOCKLEN; [lia|lia|rewrite Tm; lia|done|].
  rewrite R. cbn [Z.ltb Z.compare Z.eqb negb]. unfold SDCARD_BLOCKLEN in Eb. rewrite Ff, Tm in Eb by lia.
  assert (Ez : set_dataBuffer (dataBuffer s) s = s) by (by destruct s). rewrite Ez, w32_small by lia.
  assert (O1 : card_ok s w1).
  { rewrite <- Ez. apply (card_ok_bytes s w); [done|done|]. rewrite Eb, length_splice; rewrite ?length_replicate; lia. }
  destruct (IH (b + p) (n - p) p s w1) as (s' & w' & -> & O' & Eb'); [done|done|lia..|].
  exists s', w'. split; [done|]. split; [done|]. rewrite Eb', Eb.
  replace ((b + p) * 512) with (b * 512 + zlen (replicate (Z.to_nat (p * 512)) 0xff)) by (rewrite length_replicate; lia).
  rewrite splice_app by (rewrite ?length_replicate; lia). f_equal. rewrite <- replicate_add. f_equal. lia.
Qed.

Lemma sdcarddrv_erase_spec fuel minor offs len flags s w :
  card_ok s w -> 0 <= offs -> 0 <= len < 2 ^ 31 -> offs + len <= zlen (bytes_of w) -> len <= SDCARD_BLOCKLEN * Z.of_nat fuel ->
  offs mod SDCARD_BLOCKLEN = 0 -> len mod SDCARD_BLOCKLEN = 0 ->
  exists s' w', sdcarddrv_erase card fuel minor offs len flags s w = Some (len, s', w') /\ card_ok s' w' /\
    bytes_of w' = splice offs (replicate (Z.to_nat len) 0xff) (bytes_of w).
Proof.
  intros O A L Le K Ao Al. pose proof (ok_size s w O) as Sz. pose proof (ok_bits s w O). pose proof (ok_buffer s w O) as Lb.
  unfold sdcarddrv_erase, sdcard_writeFF. rewrite (ok_init s w O), Ao, Al, unprotected. cbn [negb orb Z.eqb].
  unfold SDCARD_BLOCKLEN, SDCARD_MAX_TRANSFER in *.
  assert (B : 0 <= offs / 512 /\ 0 <= len / 512 /\ offs = offs / 512 * 512 /\ len = len / 512 * 512) by modlia.
  unfold out_of_card. rewrite w32_small by lia. replace ((sizeBl s <? offs / 512) || (sizeBl s <? offs / 512 + len / 512)) with false by lia.
  rewrite mstore_ok by (rewrite ?length_replicate; lia). cbn [mbind option_bind].
  set (m := splice 0 _ (dataBuffer s)). assert (Em : m = replicate (Z.to_nat 1024) 0xff) by (apply splice_full; rewrite length_replicate; lia).
  destruct (ff_loop_spec fuel (offs / 512) (len / 512) (1024 / 512) (set_dataBuffer m s) w) as (s' & w' & -> & O' & Eb).
  - apply (card_ok_bytes s w); [done|rewrite Em, length_replicate; done|done].
  - intros k Kk. cbn [dataBuffer set_dataBuffer]. rewrite Em, take_replicate. f_equal. unfold SDCARD_BLOCKLEN. lia.
  - lia.
  - lia.
  - cbn. lia.
  - done.
  - lia.
  - cbn [mbind option_bind Z.ltb Z.compare]. change (EOK <? 0) with false. cbv iota. rewrite s32_small by lia.
    exists s', w'. split; [done|]. split; [done|]. rewrite Eb. unfold SDCARD_BLOCKLEN. rewrite <- (proj1 (proj2 (proj2 B))). do 3 f_equal. lia.
Qed.


End card.

(** *** A card of four blocks *)

Definition four_card : sdcard_cardMetadata_t := mk_card 4 1 0.
Definition four_bytes (w : list Z) : list Z := resize 2048 0 w.

#[export] Instance four_sdio : Sdio (list Z) := {|
  sdio_cmdSend cmd arg n deadline m w :=
    if (cmd =? 17) || (cmd =? 18) then (0, 0x900, splice 0 (zslice arg (n * 512) (four_bytes w)) m, w)
    else (0, 0x900, m, splice arg (ztake (n * 512) m) (four_bytes w));
  sdcard_isWriteProtected _ := false;
  hal_timerGet w := (1000, w)
|}.

#[export] Instance four_laws : Sdio_card (list Z) four_card.
Proof.
  refine {| bytes_of := four_bytes |}; try done.
  intros dir n b deadline m w N B Fit Lm. unfold SDCARD_BLOCKLEN, SDCARD_MAX_TRANSFER in *.
  assert (L4 : zlen (four_bytes w) = 2048) by (unfold four_bytes; by rewrite length_resize).
  assert (Ea : arg_of four_card b = b * 512) by (unfold arg_of; cbn; unfold SDCARD_BLOCKLEN; apply w32_small; lia).
  rewrite Ea. exists 0x900. destruct dir; unfold command_of; destruct (1 <? n); do 2 eexists; (split; [reflexivity|split; [done|split; [done|]]]); try done.
  all: apply resize_all_alt; rewrite length_splice; rewrite ?length_take; lia.
Defined.

Definition four_state : sdcard_common := mk_common (replicate 1024 0) 4 true.

Lemma four_ok w : card_ok four_card four_state w.
Proof. split; try done. by change (bytes_of w) with (four_bytes w); unfold four_bytes; rewrite length_resize. Qed.

Definition count_up (n : nat) : list Z := (fun i => Z.of_nat i mod 251) <$> seq 0 n.


(** The number of blocks of a range wraps around: a length near 2^32 passes the check
    of a card of four blocks. *)
Lemma length_wraps : lenBlocks 0 0xfffffff0 = 0 /\ out_of_card 0 (lenBlocks 0 0xfffffff0) four_state = false.
Proof. by split; vm_compute. Qed.

(** A card of version 2 tells its size less one in units of 1024 blocks (8 GB here);
    the last unit is not counted. *)
Lemma size_one_short : sdcard_getCardSize [0; Z.shiftl (16384 - 1) 8; 0; Z.shiftl 1 22] = Some ((16384 - 1) * 1024, 1).
Proof. reflexivity. Qed.

(** ** The divisor *)

(** The divisor is the least power of two, up to 256, that brings the clock down to
    the frequency that is asked for, rounding down. *)
Lemma divisor_loop_spec k j refclk freq :
  1 <= j -> (forall i, 0 <= i < j -> freq < refclk / 2 ^ i) ->
  match divisor_loop k (2 ^ (j + 7)) (refclk / 2 ^ (j - 1)) freq with
  | Some v => exists i, j <= i < j + Z.of_nat k /\ v = 2 ^ (i + 7) /\ refclk / 2 ^ i <= freq /\ forall i', 0 <= i' < i -> freq < refclk / 2 ^ i'
  | None => forall i, 0 <= i < j + Z.of_nat k -> freq < refclk / 2 ^ i
  end.
Proof.
  revert j. induction k as [|k IH]; intros j J Lo; cbn [divisor_loop]; [intros i I; apply Lo; lia|].
  assert (E : refclk / 2 ^ (j - 1) / 2 = refclk / 2 ^ j).
  { rewrite Z.div_div by (try apply Z.pow_pos_nonneg; lia). f_equal. rewrite Z.mul_comm, <- Z.pow_succ_r by lia. f_equal. lia. }
  rewrite E. destruct (Z.leb_spec (refclk / 2 ^ j) freq) as [Le|Gt]; [exists j; split_and!; done || lia|].
  specialize (IH (j + 1) ltac:(lia)). rewrite Z.shiftl_mul_pow2, Z.pow_1_r, Z.mul_comm, <- Z.pow_succ_r by lia.
  replace (Z.succ (j + 7)) with (j + 1 + 7) by lia. replace (j + 1 - 1) with j in IH by lia.
  assert (Lo' : forall i, 0 <= i < j + 1 -> freq < refclk / 2 ^ i).
  { intros i I. destruct (Z.eq_dec i j) as [-> |]; [done|]. apply Lo. lia. }
  specialize (IH Lo'). destruct (divisor_loop k _ _ freq); [|intros i I; apply IH; lia].
  destruct IH as (i & I & ? & ? & ?). exists i. split_and!; done || lia.
Qed.

Lemma sdcard_calculateDivisor_spec refclk freq :
  match sdcard_calculateDivisor refclk freq with
  | Some v => exists i, 0 <= i <= 8 /\ v = 2 ^ (i + 7) - (if i =? 0 then 2 ^ 7 else 0) /\ refclk / 2 ^ i <= freq /\
      forall i', 0 <= i' < i -> freq < refclk / 2 ^ i'
  | None => forall i, 0 <= i <= 8 -> freq < refclk / 2 ^ i
  end.
Proof.
  unfold sdcard_calculateDivisor. destruct (Z.leb_spec refclk freq) as [Le|Gt].
  { exists 0. rewrite Z.div_1_r. split_and!; done || lia. }
  pose proof (divisor_loop_spec 8 1 refclk freq ltac:(lia)) as D. rewrite Z.div_1_r in D.
  assert (Lo : forall i, 0 <= i < 1 -> freq < refclk / 2 ^ i) by (intros i I; replace i with 0 by lia; by rewrite Z.div_1_r).
  specialize (D Lo). change (2 ^ (1 + 7)) with CLOCK_CONTROL_DIV_2 in D. destruct (divisor_loop _ _ _ _); [|intros i I; apply D; lia].
  destruct D as (i & I & E & ? & ?). exists i. rewrite (proj2 (Z.eqb_neq i 0)) by lia. split_and!; done || lia.
Qed.
