(* ===== verification/SbiHsm.v ===== *)
(** * Starting harts (src/riscv-sbi/core/extensions/hsm.c, sbi.c, include/atomic.h)

    Every hart runs [hsm_init] when it comes up and [hsm_hartStartJump] when it is
    started; the payload may then ask for other harts to be started.  The harts share
    the records [sbi_perHartData_t] and the counter of harts that came up, and run
    concurrently: a step of the system is a step of any of them, and does at most one
    access to shared memory. *)

From stdpp Require Import functions.
From S2P Require Import Prelude.

(** ** src/riscv-sbi/include/sbi.h *)

Definition SBI_SUCCESS := 0.
Definition SBI_ERR_NOT_SUPPORTED := -2.
Definition SBI_ERR_INVALID_PARAM := -3.
Definition SBI_ERR_ALREADY_AVAILABLE := -6.

Definition SBI_HSM_STARTED := 0.
Definition SBI_HSM_STOPPED := 1.
Definition SBI_HSM_START_PENDING := 2.

(** The fields of [sbi_perHartData_t] the harts share. *)
Record sbi_perHartData_t := mk_hart { state : Z; nextArg1 : Z; nextAddr : Z }.

Definition set_state (v : Z) (d : sbi_perHartData_t) := mk_hart v (nextArg1 d) (nextAddr d).
Definition set_nextArg1 (v : Z) (d : sbi_perHartData_t) := mk_hart (state d) v (nextAddr d).
Definition set_nextAddr (v : Z) (d : sbi_perHartData_t) := mk_hart (state d) (nextArg1 d) v.

(** What a hart does next. *)
Inductive pc :=
| PInit (* [hsm_init]: count the hart *)
| PWait (* [hsm_hartWait]: read the state *)
| PBoot (* [hsm_init] of the boot hart: write the state *)
| PBarrier (* [hsm_init] of the boot hart: read the counter *)
| PJump (* [hsm_hartStartJump]: exchange the state *)
| PReadArg (* [hsm_hartStartJump]: read [nextArg1] *)
| PReadAddr (arg : Z) (* [hsm_hartStartJump]: read [nextAddr] and go there *)
| PRun (* the payload *)
| PHalt (* [hart_halt] *)
| PStart (target : nat) (addr opaque : Z) (* [hsm_hartStart]: exchange the state *)
| PAddr (target : nat) (addr opaque : Z) (* [hsm_hartStart]: write [nextAddr] *)
| PArg (target : nat) (opaque : Z) (* [hsm_hartStart]: write [nextArg1] *)
| PSend (target : nat). (* [hsm_hartStart]: wake the hart *)

(** Records and program counters by the number of the hart. *)
Record sys := mk_sys { pcs : nat -> pc; harts : nat -> sbi_perHartData_t; hartsStarted : Z }.

(** The calls of the payload. *)
Inductive ecall :=
| HartStart (hartid startAddr opaque : Z)
| HartGetStatus (hartid : Z)
| HartOther (fid : Z). (* a function the firmware does not have *)

Inductive event :=
| ETau
| EClaim (caller target : nat) (addr opaque : Z) (* the exchange of [hsm_hartStart] succeeded *)
| EReturn (caller : nat) (error value : Z)
| EEnter (hart : nat) (addr arg : Z) (* the hart enters the payload *)
| EHalt (hart : nat).

Definition set_pc (h : nat) (p : pc) (s : sys) : sys := mk_sys (<[h := p]> (pcs s)) (harts s) (hartsStarted s).
Definition set_hart (t : nat) (d : sbi_perHartData_t) (s : sys) : sys := mk_sys (pcs s) (<[t := d]> (harts s)) (hartsStarted s).

(** The old value of the state, and the exchange. *)
Definition atomic_cas64 (t : nat) (old new : Z) (s : sys) : Z * sys :=
  (state (harts s t), if state (harts s t) =? old then set_hart t (set_state new (harts s t)) s else s).

Section hsm.
  Context (bootHartId n : nat).

(** [sbi_getHartCount]: the harts of the device tree. *)
Definition sbi_getHartCount : Z := Z.of_nat n.

(** The handler: [hsm_hartStart] up to its first access, and [hsm_hartGetStatus]. *)
Definition ecall_hsm_handler (h : nat) (c : ecall) (s : sys) : event * sys :=
  match c with
  | HartStart hartid startAddr opaque =>
      if sbi_getHartCount <=? hartid then (EReturn h SBI_ERR_INVALID_PARAM 0, s)
      else (ETau, set_pc h (PStart (Z.to_nat hartid) startAddr opaque) s)
  | HartGetStatus hartid =>
      if sbi_getHartCount <=? hartid then (EReturn h SBI_ERR_INVALID_PARAM 0, s)
      else (EReturn h SBI_SUCCESS (state (harts s (Z.to_nat hartid))), s)
  | HartOther _ => (EReturn h SBI_ERR_NOT_SUPPORTED 0, s)
  end.

(** A step of hart [h]; the payload makes the call [c], or none. *)
Definition hart_step (h : nat) (c : option ecall) (s : sys) : event * sys :=
  match pcs s h with
  | PInit =>
      (ETau, set_pc h (if decide (h = bootHartId) then PBoot else PWait) (mk_sys (pcs s) (harts s) (w32 (hartsStarted s + 1))))
  | PBoot => (ETau, set_pc h PBarrier (set_hart h (set_state SBI_HSM_START_PENDING (harts s h)) s))
  | PBarrier => (ETau, if hartsStarted s <? sbi_getHartCount then s else set_pc h PJump s)
  | PWait => (ETau, if negb (state (harts s h) =? SBI_HSM_START_PENDING) then s else set_pc h PJump s)
  | PJump =>
      let '(v, s) := atomic_cas64 h SBI_HSM_START_PENDING SBI_HSM_STARTED s in
      if negb (v =? SBI_HSM_START_PENDING) then (EHalt h, set_pc h PHalt s) else (ETau, set_pc h PReadArg s)
  | PReadArg => (ETau, set_pc h (PReadAddr (nextArg1 (harts s h))) s)
  | PReadAddr arg => (EEnter h (nextAddr (harts s h)) arg, set_pc h PRun s)
  | PHalt => (ETau, s)
  | PRun => match c with None => (ETau, s) | Some c => ecall_hsm_handler h c s end
  | PStart t addr opaque =>
      let '(v, s) := atomic_cas64 t SBI_HSM_STOPPED SBI_HSM_START_PENDING s in
      if v =? SBI_HSM_STARTED then (EReturn h SBI_ERR_ALREADY_AVAILABLE 0, set_pc h PRun s)
      else if negb (v =? SBI_HSM_STOPPED) then (EReturn h SBI_ERR_INVALID_PARAM 0, set_pc h PRun s)
      else (EClaim h t addr opaque, set_pc h (PAddr t addr opaque) s)
  | PAddr t addr opaque => (ETau, set_pc h (PArg t opaque) (set_hart t (set_nextAddr addr (harts s t)) s))
  | PArg t opaque => (ETau, set_pc h (PSend t) (set_hart t (set_nextArg1 opaque (harts s t)) s))
  | PSend t => (EReturn h SBI_SUCCESS 0, set_pc h PRun s)
  end.

(** The harts after [sbi_scratchInit]. *)
Definition sbi_scratchInit (payload fdt : Z) : sys :=
  mk_sys (fun _ => PInit) (fun _ => mk_hart SBI_HSM_STOPPED fdt payload) 0.

(** Hart numbers of calls are unsigned. *)
Definition call_ok (c : option ecall) : Prop :=
  match c with Some (HartStart h _ _) | Some (HartGetStatus h) => 0 <= h | Some (HartOther _) | None => True end.

Inductive step (s : sys) (e : event) (s' : sys) : Prop :=
| step_hart h c : (h < n)%nat -> call_ok c -> hart_step h c s = (e, s') -> step s e s'.

(** The states reached, with what happened on the way, the latest first. *)
Inductive reach (s0 : sys) : list event -> sys -> Prop :=
| reach_start : reach s0 [] s0
| reach_step tr s e s' : reach s0 tr s -> step s e s' -> reach s0 (e :: tr) s'.

(** A schedule: the hart that makes each step, and its call. *)
Fixpoint run (sched : list (nat * option ecall)) (tr : list event) (s : sys) : list event * sys :=
  match sched with
  | [] => (tr, s)
  | (h, c) :: sched => let '(e, s) := hart_step h c s in run sched (e :: tr) s
  end.

Lemma run_reach s0 sched tr s :
  Forall (fun x => (x.1 < n)%nat /\ call_ok x.2) sched -> reach s0 tr s -> reach s0 (run sched tr s).1 (run sched tr s).2.
Proof.
  intros F. revert tr s. induction F as [|[h c] sched [Hn Ok] F IH]; intros tr s R; [done|]. cbn.
  destruct (hart_step h c s) as [e s1] eqn:Es. apply IH. apply (reach_step _ _ s); [done|by apply (step_hart _ _ _ h c)].
Qed.

End hsm.

(** ** What happened to a hart *)

(** The successful exchanges of [hsm_hartStart] for hart [t]. *)
Definition is_claim (t : nat) (e : event) : bool := match e with EClaim _ t' _ _ => bool_decide (t' = t) | _ => false end.
Definition claims (t : nat) (tr : list event) : list event := filter (is_claim t) tr.

(** The entries of hart [h] into the payload. *)
Definition is_enter (h : nat) (e : event) : bool := match e with EEnter h' _ _ => bool_decide (h' = h) | _ => false end.
Definition enters (h : nat) (tr : list event) : list event := filter (is_enter h) tr.

Lemma filter_bool (f : event -> bool) e tr : filter f (e :: tr) = if f e then e :: filter f tr else filter f tr.
Proof. rewrite filter_cons. by destruct (f e). Qed.

(** How many harts are past the counting. *)
Definition past (p : pc) : Z := match p with PInit => 0 | _ => 1 end.

Fixpoint counted (n : nat) (f : nat -> pc) : Z :=
  match n with
  | O => 0
  | S n => past (f n) + counted n f
  end.

Definition running (p : pc) : bool :=
  match p with PInit | PWait | PBoot | PBarrier | PJump | PReadArg | PReadAddr _ | PHalt => false | _ => true end.
Definition starting (p : pc) : bool := match p with PInit | PBoot | PBarrier => true | _ => false end.

Lemma past_range p : 0 <= past p <= 1.
Proof. destruct p; cbn; lia. Qed.

Lemma counted_range n f : 0 <= counted n f <= Z.of_nat n.
Proof. induction n as [|n IH]; cbn [counted]; [lia|]. pose proof (past_range (f n)). lia. Qed.

Lemma counted_all n f : counted n f = Z.of_nat n -> forall h, (h < n)%nat -> f h <> PInit.
Proof.
  induction n as [|n IH]; intros E h L; [lia|]. cbn [counted] in E. pose proof (past_range (f n)). pose proof (counted_range n f).
  destruct (decide (h = n)) as [-> |]; [intros F; rewrite F in E; cbn in E; lia|]. apply IH; lia.
Qed.

Lemma counted_out n f h q : (n <= h)%nat -> counted n (<[h := q]> f) = counted n f.
Proof. induction n as [|n IH]; intros L; [done|]. cbn [counted]. rewrite fn_lookup_insert_ne, IH by lia. done. Qed.

Lemma counted_insert n f h q : (h < n)%nat -> counted n (<[h := q]> f) = counted n f - past (f h) + past q.
Proof.
  induction n as [|n IH]; intros L; [lia|]. cbn [counted]. destruct (decide (h = n)) as [-> |].
  - rewrite fn_lookup_insert, counted_out by lia. lia.
  - rewrite fn_lookup_insert_ne, IH by lia. lia.
Qed.

Section invariant.
  Context (boot n : nat) (payload fdt : Z) (Bn : (boot < n)%nat) (N31 : Z.of_nat n < 2 ^ 31).

(** Where a hart is agrees with its state. *)
Definition hart_ok (h : nat) (p : pc) (d : sbi_perHartData_t) : Prop :=
  match p with
  | PInit => state d = SBI_HSM_STOPPED
  | PBoot => h = boot /\ state d = SBI_HSM_STOPPED
  | PBarrier => h = boot /\ state d = SBI_HSM_START_PENDING
  | PWait => h <> boot /\ (state d = SBI_HSM_STOPPED \/ state d = SBI_HSM_START_PENDING)
  | PJump => state d = SBI_HSM_START_PENDING
  | PHalt => False
  | _ => state d = SBI_HSM_STARTED
  end.

(** Before the boot hart is past the barrier, no other hart runs or was claimed. *)
Definition early (s : sys) : Prop :=
  starting (pcs s boot) = true /\
  forall h, (h < n)%nat -> h <> boot -> (pcs s h = PInit \/ pcs s h = PWait) /\ state (harts s h) = SBI_HSM_STOPPED.
Definition late (s : sys) : Prop := forall h, (h < n)%nat -> starting (pcs s h) = false.

(** What a hart that made a claim has written so far. *)
Definition written (c t : nat) (a o : Z) (s : sys) : Prop :=
  pcs s c = PAddr t a o \/ pcs s c = PArg t o /\ nextAddr (harts s t) = a \/ nextAddr (harts s t) = a /\ nextArg1 (harts s t) = o.

(** The harts a hart works on exist. *)
Definition target_ok (p : pc) : Prop :=
  match p with PStart t _ _ | PAddr t _ _ | PArg t _ | PSend t => (t < n)%nat | _ => True end.

Record inv (tr : list event) (s : sys) : Prop := {
  i_ok : forall h, (h < n)%nat -> hart_ok h (pcs s h) (harts s h);
  i_target : forall h, (h < n)%nat -> target_ok (pcs s h);
  i_count : hartsStarted s = counted n (pcs s);
  i_phase : early s \/ late s;
  i_claims : forall t, (t < n)%nat ->
    if decide (t = boot \/ state (harts s t) = SBI_HSM_STOPPED) then claims t tr = [] else exists e, claims t tr = [e];
  i_enters : forall h, (h < n)%nat -> if running (pcs s h) then exists e, enters h tr = [e] else enters h tr = [];
  i_halt : forall h, EHalt h ∉ tr;
  i_addr : forall c t a o, (c < n)%nat -> pcs s c = PAddr t a o -> EClaim c t a o ∈ tr;
  i_arg : forall c t o, (c < n)%nat -> pcs s c = PArg t o -> exists a, EClaim c t a o ∈ tr;
  i_written : forall c t a o, EClaim c t a o ∈ tr -> written c t a o s;
  i_default : forall t, (t < n)%nat -> claims t tr = [] -> nextAddr (harts s t) = payload /\ nextArg1 (harts s t) = fdt
}.

Lemma inv_start : inv [] (sbi_scratchInit payload fdt).
Proof.
  split; try done.
  - clear. by induction n.
  - left. split; [done|]. intros. by split; [left|].
  - intros t _. by rewrite decide_True by (by right).
  - intros h. apply not_elem_of_nil.
  - by intros c t a o ?%not_elem_of_nil.
Qed.

(** Only one claim of a hart is ever made. *)
Lemma claim_unique tr s c t a o c' a' o' :
  inv tr s -> (t < n)%nat -> EClaim c t a o ∈ tr -> EClaim c' t a' o' ∈ tr -> c = c' /\ a = a' /\ o = o'.
Proof.
  intros I D E1 E2. pose proof (i_claims tr s I t D) as Cl.
  assert (F1 : EClaim c t a o ∈ claims t tr) by (apply list_elem_of_filter; cbn; by rewrite bool_decide_true).
  assert (F2 : EClaim c' t a' o' ∈ claims t tr) by (apply list_elem_of_filter; cbn; by rewrite bool_decide_true).
  destruct (decide _); [rewrite Cl in F1; by apply not_elem_of_nil in F1|]. destruct Cl as [e Cl]. rewrite Cl in F1, F2.
  apply list_elem_of_singleton in F1, F2. subst e. by injection F2 as -> -> ->.
Qed.

(** A hart that was claimed is neither stopped nor the boot hart. *)
Lemma claimed_not_stopped tr s c t a o :
  inv tr s -> (t < n)%nat -> EClaim c t a o ∈ tr -> t <> boot /\ state (harts s t) <> SBI_HSM_STOPPED.
Proof.
  intros I D E. pose proof (i_claims tr s I t D) as Cl.
  assert (F : EClaim c t a o ∈ claims t tr) by (apply list_elem_of_filter; cbn; by rewrite bool_decide_true).
  destruct (decide _) as [Y|N]; [rewrite Cl in F; by apply not_elem_of_nil in F|]. tauto.
Qed.

(** Events that are neither claims nor entries nor halts change nothing. *)
Definition quiet (e : event) : Prop := match e with ETau | EReturn _ _ _ => True | _ => False end.

Lemma quiet_claims e t tr : quiet e -> claims t (e :: tr) = claims t tr.
Proof. by destruct e. Qed.

Lemma quiet_enters e t tr : quiet e -> enters t (e :: tr) = enters t tr.
Proof. by destruct e. Qed.

Lemma quiet_claim e tr c t a o : quiet e -> EClaim c t a o ∈ e :: tr <-> EClaim c t a o ∈ tr.
Proof. intros Q. rewrite elem_of_cons. split; [intros [<-|]; done|by right]. Qed.

Lemma quiet_halt e tr h : quiet e -> EHalt h ∈ e :: tr <-> EHalt h ∈ tr.
Proof. intros Q. rewrite elem_of_cons. split; [intros [<-|]; done|by right]. Qed.

Lemma inv_quiet tr s e : inv tr s -> quiet e -> inv (e :: tr) s.
Proof.
  intros [] Q. split; try done.
  - intros t L. rewrite quiet_claims by done. exact (i_claims0 t L).
  - intros h L. rewrite quiet_enters by done. exact (i_enters0 h L).
  - intros. rewrite quiet_halt by done. auto.
  - intros. rewrite quiet_claim by done. auto.
  - intros c t o L E. destruct (i_arg0 c t o L E) as [a In]. exists a. by apply quiet_claim.
  - intros. rewrite quiet_claim in * by done. auto.
  - intros t L. rewrite quiet_claims by done. auto.
Qed.

(** A program counter that is not about to write for a claim. *)
Definition idle (p : pc) : bool := match p with PAddr _ _ _ | PArg _ _ => false | _ => true end.

(** Only the program counter of a hart changes. *)
Lemma inv_pc tr s h q :
  inv tr s -> (h < n)%nat -> idle (pcs s h) = true -> idle q = true -> hart_ok h q (harts s h) -> target_ok q ->
  past q = past (pcs s h) -> starting (pcs s h) = false -> starting q = false -> running q = running (pcs s h) -> inv tr (set_pc h q s).
Proof.
  intros [] L Ip Iq Ok Tg P S S' R. split; cbn.
  - intros i Li. destruct (decide (i = h)) as [-> |]; [by rewrite fn_lookup_insert|rewrite fn_lookup_insert_ne by done; auto].
  - intros i Li. destruct (decide (i = h)) as [-> |]; [by rewrite fn_lookup_insert|rewrite fn_lookup_insert_ne by done; auto].
  - rewrite counted_insert by done. lia.
  - destruct i_phase0 as [[Sb Eo]|Lt].
    + left. split; cbn; [rewrite fn_lookup_insert_ne by congruence; done|]. intros i Li N. destruct (decide (i = h)) as [-> |].
      * destruct (Eo h L N) as [[E|E] St]; [by rewrite E in S|]. rewrite fn_lookup_insert. split; [|done]. right.
        destruct q; try done; cbn in Ok; rewrite St in Ok; done.
      * rewrite fn_lookup_insert_ne by done. auto.
    + right. intros i Li. cbn. destruct (decide (i = h)) as [-> |]; [by rewrite fn_lookup_insert|rewrite fn_lookup_insert_ne by done; auto].
  - done.
  - intros i Li. destruct (decide (i = h)) as [-> |]; [rewrite fn_lookup_insert, R|rewrite fn_lookup_insert_ne by done]; exact (i_enters0 _ Li).
  - done.
  - intros c t a o Lc. destruct (decide (c = h)) as [-> |]; [rewrite fn_lookup_insert; intros ->; done|rewrite fn_lookup_insert_ne by done; auto].
  - intros c t o Lc. destruct (decide (c = h)) as [-> |]; [rewrite fn_lookup_insert; intros ->; done|rewrite fn_lookup_insert_ne by done; auto].
  - intros c t a o In. destruct (i_written0 c t a o In) as [E|[[E ?]|?]]; unfold written; cbn.
    + destruct (decide (c = h)) as [-> |]; [by rewrite E in Ip|rewrite fn_lookup_insert_ne by done; auto].
    + destruct (decide (c = h)) as [-> |]; [by rewrite E in Ip|rewrite fn_lookup_insert_ne by done; auto].
    + auto.
  - done.
Qed.

(** The state of hart [t] changes, and nothing else of the records. *)
Lemma written_state c t a o s t' v : written c t a o (set_hart t' (set_state v (harts s t')) s) <-> written c t a o s.
Proof.
  unfold written. cbn. destruct (decide (t = t')) as [-> |]; [by rewrite fn_lookup_insert|by rewrite fn_lookup_insert_ne].
Qed.

(** The state of a hart goes on, and so does its program counter. *)
Lemma inv_state tr s h q v :
  inv tr s -> (h < n)%nat -> idle (pcs s h) = true -> idle q = true -> hart_ok h q (set_state v (harts s h)) -> target_ok q ->
  past q = past (pcs s h) -> running q = running (pcs s h) -> v <> SBI_HSM_STOPPED -> h = boot \/ state (harts s h) <> SBI_HSM_STOPPED ->
  (forall s', pcs s' = <[h := q]> (pcs s) -> harts s' = <[h := set_state v (harts s h)]> (harts s) -> early s' \/ late s') ->
  inv tr (set_pc h q (set_hart h (set_state v (harts s h)) s)).
Proof.
  intros [] L Ip Iq Ok Tg P R Nv Ns Ph. split; cbn.
  - intros i Li. destruct (decide (i = h)) as [-> |]; [by rewrite !fn_lookup_insert|rewrite !fn_lookup_insert_ne by done; auto].
  - intros i Li. destruct (decide (i = h)) as [-> |]; [by rewrite fn_lookup_insert|rewrite fn_lookup_insert_ne by done; auto].
  - rewrite counted_insert by done. lia.
  - by apply Ph.
  - intros t Lt. specialize (i_claims0 t Lt). destruct (decide (t = h)) as [-> |]; [|by rewrite fn_lookup_insert_ne].
    rewrite fn_lookup_insert. cbn. destruct (decide (h = boot)) as [E|E].
    + rewrite decide_True by tauto. rewrite decide_True in i_claims0 by tauto. done.
    + rewrite decide_False by tauto. rewrite decide_False in i_claims0 by tauto. done.
  - intros i Li. destruct (decide (i = h)) as [-> |]; [rewrite fn_lookup_insert, R|rewrite fn_lookup_insert_ne by done]; exact (i_enters0 _ Li).
  - done.
  - intros c t a o Lc. destruct (decide (c = h)) as [-> |]; [rewrite fn_lookup_insert; intros ->; done|rewrite fn_lookup_insert_ne by done; auto].
  - intros c t o Lc. destruct (decide (c = h)) as [-> |]; [rewrite fn_lookup_insert; intros ->; done|rewrite fn_lookup_insert_ne by done; auto].
  - intros c t a o In. specialize (i_written0 c t a o In). rewrite <- (written_state c t a o s h v) in i_written0.
    unfold written in *. cbn in *. destruct (decide (c = h)) as [-> |]; [|by rewrite fn_lookup_insert_ne].
    rewrite fn_lookup_insert. destruct i_written0 as [E|[[E ?]|?]]; [by rewrite E in Ip|by rewrite E in Ip|auto].
  - intros t Lt E. destruct (decide (t = h)) as [-> |]; [rewrite fn_lookup_insert; by apply i_default0|rewrite fn_lookup_insert_ne by done; auto].
Qed.

(** A hart that is past its start only sees the late phase. *)
Lemma late_from tr s h : inv tr s -> (h < n)%nat -> starting (pcs s h) = false -> pcs s h <> PWait -> late s.
Proof.
  intros I L S W. destruct (i_phase tr s I) as [[Sb Eo]|]; [|done]. destruct (decide (h = boot)) as [-> |N]; [congruence|].
  destruct (Eo h L N) as [[E|E] _]; [by rewrite E in S|done].
Qed.

Lemma inv_init tr s h :
  inv tr s -> (h < n)%nat -> pcs s h = PInit ->
  inv tr (set_pc h (if decide (h = boot) then PBoot else PWait) (mk_sys (pcs s) (harts s) (w32 (hartsStarted s + 1)))).
Proof.
  intros I L E. set (q := if decide (h = boot) then PBoot else PWait). pose proof I as [].
  assert (Ea : early s) by (destruct i_phase0 as [|Lt]; [done|]; specialize (Lt h L); by rewrite E in Lt).
  pose proof (i_ok0 h L) as Ok. rewrite E in Ok. cbn in Ok.
  assert (Pq : past q = 1) by (unfold q; by destruct (decide _)).
  assert (Rq : running q = running (pcs s h) /\ idle q = true) by (rewrite E; unfold q; by destruct (decide _)). destruct Rq as [Rq Iq].
  split; cbn.
  - intros i Li. destruct (decide (i = h)) as [-> |]; [|rewrite fn_lookup_insert_ne by done; auto].
    rewrite fn_lookup_insert. unfold q. destruct (decide (h = boot)); cbn; auto.
  - intros i Li. destruct (decide (i = h)) as [-> |]; [|rewrite fn_lookup_insert_ne by done; auto].
    rewrite fn_lookup_insert. unfold q. by destruct (decide (h = boot)).
  - rewrite counted_insert, E, Pq by done. cbn [past]. pose proof (counted_range n (<[h := q]> (pcs s))) as C.
    rewrite counted_insert, E, Pq in C by done. cbn [past] in C. rewrite w32_small by lia. lia.
  - left. destruct Ea as [Sb Eo]. split; cbn.
    + destruct (decide (boot = h)) as [<-|]; [|by rewrite fn_lookup_insert_ne].
      rewrite fn_lookup_insert. unfold q. by rewrite decide_True.
    + intros i Li N. destruct (Eo i Li N) as [P St]. split; [|done]. destruct (decide (i = h)) as [-> |]; [|by rewrite fn_lookup_insert_ne].
      rewrite fn_lookup_insert. unfold q. rewrite decide_False by done. by right.
  - done.
  - intros i Li. destruct (decide (i = h)) as [-> |]; [rewrite fn_lookup_insert, Rq|rewrite fn_lookup_insert_ne by done]; exact (i_enters0 _ Li).
  - done.
  - intros c t a o Lc. destruct (decide (c = h)) as [-> |]; [rewrite fn_lookup_insert; intros Eq; by rewrite Eq in Iq|rewrite fn_lookup_insert_ne by done; auto].
  - intros c t o Lc. destruct (decide (c = h)) as [-> |]; [rewrite fn_lookup_insert; intros Eq; by rewrite Eq in Iq|rewrite fn_lookup_insert_ne by done; auto].
  - intros c t a o In. unfold written. cbn. destruct (decide (c = h)) as [-> |]; [|rewrite fn_lookup_insert_ne by done; by apply i_written0].
    destruct (i_written0 h t a o In) as [F|[[F _]|F]]; [congruence|congruence|auto].
  - done.
Qed.

Lemma inv_barrier tr s h :
  inv tr s -> (h < n)%nat -> pcs s h = PBarrier -> sbi_getHartCount n <= hartsStarted s -> inv tr (set_pc h PJump s).
Proof.
  intros I L E C. pose proof I as []. pose proof (i_ok0 h L) as Ok. rewrite E in Ok. destruct Ok as [-> Ok].
  assert (All : forall i, (i < n)%nat -> pcs s i <> PInit).
  { apply counted_all. pose proof (counted_range n (pcs s)). unfold sbi_getHartCount in C. lia. }
  assert (Ea : early s) by (destruct i_phase0 as [|Lt]; [done|]; specialize (Lt boot L); by rewrite E in Lt). destruct Ea as [_ Eo].
  split; cbn.
  - intros i Li. destruct (decide (i = boot)) as [-> |]; [by rewrite fn_lookup_insert|rewrite fn_lookup_insert_ne by done; auto].
  - intros i Li. destruct (decide (i = boot)) as [-> |]; [by rewrite fn_lookup_insert|rewrite fn_lookup_insert_ne by done; auto].
  - rewrite counted_insert, E by done. cbn [past]. lia.
  - right. intros i Li. cbn. destruct (decide (i = boot)) as [-> |]; [by rewrite fn_lookup_insert|rewrite fn_lookup_insert_ne by done].
    destruct (Eo i Li) as [[F| ->] _]; [done|by destruct (All i Li)|done].
  - done.
  - intros i Li. specialize (i_enters0 i Li). destruct (decide (i = boot)) as [-> |]; [|rewrite fn_lookup_insert_ne by done; done].
    rewrite fn_lookup_insert. by rewrite E in i_enters0.
  - done.
  - intros c t a o Lc. destruct (decide (c = boot)) as [-> |]; [by rewrite fn_lookup_insert|rewrite fn_lookup_insert_ne by done; auto].
  - intros c t o Lc. destruct (decide (c = boot)) as [-> |]; [by rewrite fn_lookup_insert|rewrite fn_lookup_insert_ne by done; auto].
  - intros c t a o In. unfold written. cbn. destruct (decide (c = boot)) as [-> |]; [|rewrite fn_lookup_insert_ne by done; by apply i_written0].
    destruct (i_written0 boot t a o In) as [F|[[F _]|F]]; [congruence|congruence|auto].
  - done.
Qed.

Lemma inv_boot tr s h :
  inv tr s -> (h < n)%nat -> pcs s h = PBoot ->
  inv tr (set_pc h PBarrier (set_hart h (set_state SBI_HSM_START_PENDING (harts s h)) s)).
Proof.
  intros I L E. pose proof (i_ok tr s I h L) as Ok. rewrite E in Ok. destruct Ok as [-> St].
  apply inv_state; rewrite ?E; try done; [by left|].
  intros s' Ep Eh. left. destruct (i_phase tr s I) as [[Sb Eo]|Lt]; [|specialize (Lt boot L); by rewrite E in Lt].
  split; [by rewrite Ep, fn_lookup_insert|]. intros i Li N. rewrite Ep, Eh, !fn_lookup_insert_ne by done. auto.
Qed.

Lemma inv_jump tr s h :
  inv tr s -> (h < n)%nat -> pcs s h = PJump ->
  state (harts s h) = SBI_HSM_START_PENDING /\
  inv tr (set_pc h PReadArg (set_hart h (set_state SBI_HSM_STARTED (harts s h)) s)).
Proof.
  intros I L E. pose proof (i_ok tr s I h L) as Ok. rewrite E in Ok. cbn in Ok. split; [done|].
  assert (Lt : late s) by (apply (late_from tr s h I L); by rewrite E).
  apply inv_state; rewrite ?E; try done; [by right; rewrite Ok|].
  intros s' Ep Eh. right. intros i Li. rewrite Ep. destruct (decide (i = h)) as [-> |]; [by rewrite fn_lookup_insert|rewrite fn_lookup_insert_ne by done; auto].
Qed.

Lemma inv_enter tr s h arg :
  inv tr s -> (h < n)%nat -> pcs s h = PReadAddr arg -> inv (EEnter h (nextAddr (harts s h)) arg :: tr) (set_pc h PRun s).
Proof.
  intros I L E. pose proof (late_from tr s h I L) as La. rewrite E in La. specialize (La eq_refl ltac:(done)).
  set (e := EEnter h _ arg). pose proof I as []. pose proof (i_ok0 h L) as Ok. rewrite E in Ok.
  assert (Cl : forall t a o c, EClaim c t a o ∈ e :: tr <-> EClaim c t a o ∈ tr).
  { intros. rewrite elem_of_cons. split; [intros [?|]; done|by right]. }
  split; cbn [pcs harts hartsStarted set_pc].
  - intros i Li. destruct (decide (i = h)) as [-> |]; [by rewrite fn_lookup_insert|rewrite fn_lookup_insert_ne by done; auto].
  - intros i Li. destruct (decide (i = h)) as [-> |]; [by rewrite fn_lookup_insert|rewrite fn_lookup_insert_ne by done; auto].
  - rewrite counted_insert, E by done. cbn [past]. lia.
  - right. intros i Li. cbn. destruct (decide (i = h)) as [-> |]; [by rewrite fn_lookup_insert|rewrite fn_lookup_insert_ne by done; auto].
  - done.
  - intros i Li. specialize (i_enters0 i Li). unfold enters in *. rewrite filter_bool. cbn [is_enter e].
    destruct (decide (i = h)) as [-> |N].
    + rewrite fn_lookup_insert, bool_decide_true by done. rewrite E in i_enters0. cbn [running] in *. rewrite i_enters0. by eexists.
    + by rewrite fn_lookup_insert_ne, bool_decide_false by done.
  - intros i. rewrite elem_of_cons. intros [?|In]; [done|]. by destruct (i_halt0 i).
  - intros c t a o Lc. rewrite Cl. destruct (decide (c = h)) as [-> |]; [by rewrite fn_lookup_insert|rewrite fn_lookup_insert_ne by done; auto].
  - intros c t o Lc. setoid_rewrite Cl. destruct (decide (c = h)) as [-> |]; [by rewrite fn_lookup_insert|rewrite fn_lookup_insert_ne by done; auto].
  - intros c t a o. rewrite Cl. intros In. unfold written. cbn. destruct (decide (c = h)) as [-> |]; [|rewrite fn_lookup_insert_ne by done; by apply i_written0].
    destruct (i_written0 h t a o In) as [F|[[F _]|F]]; [congruence|congruence|auto].
  - done.
Qed.

Lemma inv_claim tr s h t a o :
  inv tr s -> (h < n)%nat -> pcs s h = PStart t a o -> state (harts s t) = SBI_HSM_STOPPED ->
  inv (EClaim h t a o :: tr) (set_pc h (PAddr t a o) (set_hart t (set_state SBI_HSM_START_PENDING (harts s t)) s)).
Proof.
  intros I L E St. pose proof (late_from tr s h I L) as La. rewrite E in La. specialize (La eq_refl ltac:(done)).
  set (e := EClaim h t a o). pose proof I as []. pose proof (i_ok0 h L) as Oh. rewrite E in Oh. cbn in Oh.
  pose proof (i_target0 h L) as Lt. rewrite E in Lt. cbn in Lt. assert (N : t <> h) by (intros ->; by rewrite St in Oh).
  pose proof (i_ok0 t Lt) as Ot. pose proof (La t Lt) as Sp.
  assert (Wt : pcs s t = PWait /\ t <> boot) by (destruct (pcs s t); cbn in Ot; rewrite ?St in Ot; try done; tauto). destruct Wt as [Wt Nb].
  assert (C0 : claims t tr = []) by (specialize (i_claims0 t Lt); by rewrite decide_True in i_claims0 by tauto).
  split; cbn [pcs harts hartsStarted set_pc set_hart].
  - intros i Li. destruct (decide (i = h)) as [-> |Nh]; [by rewrite fn_lookup_insert, fn_lookup_insert_ne by done|].
    rewrite fn_lookup_insert_ne by done. destruct (decide (i = t)) as [-> |]; [|rewrite fn_lookup_insert_ne by done; auto].
    rewrite fn_lookup_insert, Wt. cbn. auto.
  - intros i Li. destruct (decide (i = h)) as [-> |]; [by rewrite fn_lookup_insert|rewrite fn_lookup_insert_ne by done; auto].
  - rewrite counted_insert, E by done. cbn [past]. lia.
  - right. intros i Li. cbn. destruct (decide (i = h)) as [-> |]; [by rewrite fn_lookup_insert|rewrite fn_lookup_insert_ne by done; auto].
  - intros i Li. unfold claims in *. rewrite filter_bool. cbn [is_claim e]. destruct (decide (i = t)) as [-> |Nt].
    + rewrite bool_decide_true, fn_lookup_insert, C0 by done. cbn [state set_state]. rewrite decide_False by (intros [?|?]; done). by exists e.
    + rewrite bool_decide_false, fn_lookup_insert_ne by done. exact (i_claims0 i Li).
  - intros i Li. unfold enters in *. rewrite filter_bool. cbn [is_enter e]. specialize (i_enters0 i Li).
    destruct (decide (i = h)) as [-> |]; [rewrite fn_lookup_insert; by rewrite E in i_enters0|by rewrite fn_lookup_insert_ne].
  - intros i. rewrite elem_of_cons. intros [?|In]; [done|]. by destruct (i_halt0 i).
  - intros c t' a' o' Lc. rewrite elem_of_cons. destruct (decide (c = h)) as [-> |].
    + rewrite fn_lookup_insert. intros [= -> -> ->]. by left.
    + rewrite fn_lookup_insert_ne by done. auto.
  - intros c t' o' Lc. destruct (decide (c = h)) as [-> |]; [by rewrite fn_lookup_insert|rewrite fn_lookup_insert_ne by done].
    intros Eq. destruct (i_arg0 c t' o' Lc Eq) as [a' In]. exists a'. by right.
  - intros c t' a' o'. rewrite elem_of_cons. unfold written. cbn. intros [[= -> -> -> ->]|In]; [left; by rewrite fn_lookup_insert|].
    assert (Wr : written c t' a' o' s) by auto.
    rewrite <- (written_state c t' a' o' s t SBI_HSM_START_PENDING) in Wr. unfold written in Wr. cbn in Wr.
    destruct (decide (c = h)) as [-> |]; [|by rewrite fn_lookup_insert_ne].
    destruct Wr as [F|[[F _]|F]]; [congruence|congruence|auto].
  - intros i Li. unfold claims in *. rewrite filter_bool. cbn [is_claim e]. destruct (decide (i = t)) as [-> |].
    + by rewrite bool_decide_true.
    + rewrite bool_decide_false, fn_lookup_insert_ne by done. auto.
Qed.

(** A record whose parameters change and whose state does not. *)
Lemma inv_write tr s h t q d :
  inv tr s -> (h < n)%nat -> (t < n)%nat -> idle (pcs s h) = false -> (forall c t' a o, (c < n)%nat -> c = h -> q = PAddr t' a o -> EClaim c t' a o ∈ tr) ->
  (forall c t' o, (c < n)%nat -> c = h -> q = PArg t' o -> exists a, EClaim c t' a o ∈ tr) ->
  hart_ok h q (harts s h) -> target_ok q -> past q = 1 -> starting q = false -> running q = true ->
  state d = state (harts s t) -> claims t tr <> [] ->
  (forall c t' a o, EClaim c t' a o ∈ tr -> written c t' a o (set_pc h q (set_hart t d s))) ->
  inv tr (set_pc h q (set_hart t d s)).
Proof.
  intros I L Lt Id Qa Qr Ok Tg P S R Sd Cl Wr. pose proof I as [].
  assert (La : late s) by (apply (late_from tr s h I L); by destruct (pcs s h)).
  assert (Sh : forall i, state (<[t := d]> (harts s) i) = state (harts s i)).
  { intros i. destruct (decide (i = t)) as [-> |]; [by rewrite fn_lookup_insert|by rewrite fn_lookup_insert_ne]. }
  assert (Ho : forall i p, hart_ok i p (<[t := d]> (harts s) i) <-> hart_ok i p (harts s i)).
  { intros i p. unfold hart_ok. by destruct p; rewrite ?Sh. }
  split; cbn [pcs harts hartsStarted set_pc set_hart].
  - intros i Li. rewrite Ho. destruct (decide (i = h)) as [-> |]; [by rewrite fn_lookup_insert|rewrite fn_lookup_insert_ne by done; auto].
  - intros i Li. destruct (decide (i = h)) as [-> |]; [by rewrite fn_lookup_insert|rewrite fn_lookup_insert_ne by done; auto].
  - rewrite counted_insert by done. assert (past (pcs s h) = 1) by (by destruct (pcs s h)). lia.
  - right. intros i Li. cbn. destruct (decide (i = h)) as [-> |]; [by rewrite fn_lookup_insert|rewrite fn_lookup_insert_ne by done; auto].
  - intros i Li. rewrite Sh. exact (i_claims0 i Li).
  - intros i Li. specialize (i_enters0 i Li). destruct (decide (i = h)) as [-> |]; [|by rewrite fn_lookup_insert_ne].
    rewrite fn_lookup_insert, R. by destruct (pcs s h).
  - done.
  - intros c t' a o Lc. destruct (decide (c = h)) as [-> |]; [rewrite fn_lookup_insert; auto|rewrite fn_lookup_insert_ne by done; auto].
  - intros c t' o Lc. destruct (decide (c = h)) as [-> |]; [rewrite fn_lookup_insert; auto|rewrite fn_lookup_insert_ne by done; auto].
  - done.
  - intros i Li C. rewrite fn_lookup_insert_ne by congruence. auto.
Qed.

Lemma claim_claims tr c t a o : EClaim c t a o ∈ tr -> claims t tr <> [].
Proof.
  intros E C. assert (F : EClaim c t a o ∈ claims t tr) by (apply list_elem_of_filter; cbn; by rewrite bool_decide_true).
  rewrite C in F. by apply not_elem_of_nil in F.
Qed.

Lemma inv_addr tr s h t a o :
  inv tr s -> (h < n)%nat -> pcs s h = PAddr t a o -> inv tr (set_pc h (PArg t o) (set_hart t (set_nextAddr a (harts s t)) s)).
Proof.
  intros I L E. pose proof (i_addr tr s I h t a o L E) as In. pose proof (i_ok tr s I h L) as Ok. pose proof (i_target tr s I h L) as Lt.
  rewrite E in Ok, Lt. cbn in Ok, Lt. apply inv_write; rewrite ?E; try done.
  - intros c t' o' _ -> [= <- <-]. by exists a.
  - by apply (claim_claims tr h t a o).
  - intros c t' a' o' In'. unfold written. cbn. destruct (decide (t' = t)) as [-> |Nt].
    + destruct (claim_unique tr s h t a o c a' o' I Lt In In') as (<- & <- & <-). right; left. by rewrite !fn_lookup_insert.
    + rewrite (fn_lookup_insert_ne (harts s)) by done. pose proof (i_written tr s I c t' a' o' In') as Wr. unfold written in Wr.
      destruct (decide (c = h)) as [-> |]; [|by rewrite fn_lookup_insert_ne].
      destruct Wr as [F|[[F _]|F]]; [congruence|congruence|auto].
Qed.

Lemma inv_arg tr s h t o :
  inv tr s -> (h < n)%nat -> pcs s h = PArg t o -> inv tr (set_pc h (PSend t) (set_hart t (set_nextArg1 o (harts s t)) s)).
Proof.
  intros I L E. destruct (i_arg tr s I h t o L E) as [a In]. pose proof (i_ok tr s I h L) as Ok. pose proof (i_target tr s I h L) as Lt.
  rewrite E in Ok, Lt. cbn in Ok, Lt. apply inv_write; rewrite ?E; try done.
  - by apply (claim_claims tr h t a o).
  - intros c t' a' o' In'. pose proof (i_written tr s I c t' a' o' In') as Wr. unfold written in *. cbn. destruct (decide (t' = t)) as [-> |Nt].
    + destruct (claim_unique tr s h t a o c a' o' I Lt In In') as (<- & <- & <-). right; right. rewrite !fn_lookup_insert.
      destruct Wr as [F|[[_ F]|[F _]]]; [congruence|done|done].
    + rewrite (fn_lookup_insert_ne (harts s)) by done.
      destruct (decide (c = h)) as [-> |]; [|by rewrite fn_lookup_insert_ne].
      destruct Wr as [F|[[F _]|F]]; [congruence|congruence|auto].
Qed.

Lemma inv_step tr s e s' : inv tr s -> step boot n s e s' -> inv (e :: tr) s'.
Proof.
  intros I [h c L Oc E]. unfold hart_step in E. pose proof (i_ok tr s I h L) as Ok. pose proof (i_target tr s I h L) as Tg.
  destruct (pcs s h) as [ | | | | | |arg| | |t a o|t a o|t o|t] eqn:Ep; cbn in Ok, Tg.
  - injection E as <- <-. apply inv_quiet; [|done]. by apply inv_init.
  - injection E as <- <-. apply inv_quiet; [|done]. destruct (Z.eqb_spec (state (harts s h)) SBI_HSM_START_PENDING); [|done]. cbn [negb].
    apply inv_pc; rewrite ?Ep; done.
  - injection E as <- <-. apply inv_quiet; [|done]. by apply inv_boot.
  - injection E as <- <-. apply inv_quiet; [|done]. destruct (Z.ltb_spec (hartsStarted s) (sbi_getHartCount n)); [done|]. by apply inv_barrier.
  - destruct (inv_jump tr s h I L Ep) as [St Ij]. unfold atomic_cas64 in E. rewrite St in E. cbn in E.
    injection E as <- <-. by apply inv_quiet.
  - injection E as <- <-. apply inv_quiet; [|done]. apply inv_pc; rewrite ?Ep; done.
  - injection E as <- <-. by apply inv_enter.
  - destruct c as [[t a o|t|f]|]; cbn [ecall_hsm_handler] in E.
    + destruct (Z.leb_spec (sbi_getHartCount n) t); injection E as <- <-; apply inv_quiet; try done.
      apply inv_pc; rewrite ?Ep; try done. unfold sbi_getHartCount, call_ok in *. cbn. lia.
    + destruct (Z.leb_spec (sbi_getHartCount n) t); injection E as <- <-; by apply inv_quiet.
    + injection E as <- <-. by apply inv_quiet.
    + injection E as <- <-. by apply inv_quiet.
  - done.
  - unfold atomic_cas64 in E. destruct (Z.eqb_spec (state (harts s t)) SBI_HSM_STOPPED) as [St|St].
    + rewrite St in E. cbn in E. injection E as <- <-. by apply inv_claim.
    + destruct (state (harts s t) =? SBI_HSM_STARTED); cbn in E; injection E as <- <-; (apply inv_quiet; [|done]); apply inv_pc; rewrite ?Ep; done.
  - injection E as <- <-. apply inv_quiet; [|done]. by apply inv_addr.
  - injection E as <- <-. apply inv_quiet; [|done]. by apply inv_arg.
  - injection E as <- <-. apply inv_quiet; [|done]. apply inv_pc; rewrite ?Ep; done.
Qed.

Lemma inv_reach tr s : reach boot n (sbi_scratchInit payload fdt) tr s -> inv tr s.
Proof. induction 1; [apply inv_start|by eapply inv_step]. Qed.

End invariant.

(** ** Single steps *)

Section steps.
  Context (boot n : nat).

(** How the program counter of hart [i] can change. *)
Lemma step_pc s e s' i :
  step boot n s e s' ->
  pcs s' i = pcs s i \/
  match pcs s' i with
  | PAddr t a o => e = EClaim i t a o
  | PArg t o => exists a, pcs s i = PAddr t a o
  | PReadAddr x => pcs s i = PReadArg /\ x = nextArg1 (harts s i)
  | _ => True
  end.
Proof.
  intros [h c L Oc E]. destruct (decide (i = h)) as [-> |N].
  - unfold hart_step in E. destruct (pcs s h) as [ | | | | | |arg| | |t a o|t a o|t o|t] eqn:Ep.
    all: try (injection E as <- <-; cbn; rewrite ?fn_lookup_insert; repeat case_match; cbn in *; rewrite ?fn_lookup_insert in *; simplify_eq; solve [auto | eauto 6 | congruence]).
    all: unfold atomic_cas64, ecall_hsm_handler in E; repeat case_match; simplify_eq; cbn in *; rewrite ?fn_lookup_insert in *; simplify_eq; solve [auto | eauto 6 | congruence].
  - left. unfold hart_step in E. destruct (pcs s h) as [ | | | | | |arg| | |t a o|t a o|t o|t] eqn:Ep.
    all: unfold atomic_cas64, ecall_hsm_handler in E; repeat case_match; simplify_eq; cbn; repeat case_match; cbn; rewrite ?fn_lookup_insert_ne by done; done.
Qed.

Lemma step_enter s h a o s' : step boot n s (EEnter h a o) s' -> pcs s h = PReadAddr o /\ a = nextAddr (harts s h).
Proof.
  intros [h' c L Oc E]. unfold hart_step in E. destruct (pcs s h') as [ | | | | | |arg| | |t a' o'|t a' o'|t o'|t] eqn:Ep.
  all: unfold atomic_cas64, ecall_hsm_handler in E; repeat case_match; by simplify_eq.
Qed.

Lemma reach_app s0 tr s tr2 s2 : reach boot n s0 tr s -> reach boot n s tr2 s2 -> reach boot n s0 (tr2 ++ tr) s2.
Proof. intros R. induction 1; [done|]. by eapply reach_step. Qed.

End steps.

(** ** Theorems *)

(** The parameters of a claim whose writes are done, as long as the hart was not
    started before: where the hart is, and what it entered with since. *)
Definition params (c t : nat) (a o : Z) (tr2 : list event) (s : sys) : Prop :=
  ~ (pcs s c = PAddr t a o \/ pcs s c = PArg t o) /\
  (forall x, pcs s t = PReadAddr x -> x = o) /\
  forall a' o', EEnter t a' o' ∈ tr2 -> a' = a /\ o' = o.

Section theorems.
  Context (boot n : nat) (payload fdt : Z) (Bn : (boot < n)%nat) (N31 : Z.of_nat n < 2 ^ 31).

Abbreviation s0 := (sbi_scratchInit payload fdt).
Abbreviation inv := (inv boot n payload fdt).

Lemma written_data tr s c t a o :
  inv tr s -> EClaim c t a o ∈ tr -> ~ (pcs s c = PAddr t a o \/ pcs s c = PArg t o) -> nextAddr (harts s t) = a /\ nextArg1 (harts s t) = o.
Proof. intros I In N. destruct (i_written _ _ _ _ tr s I c t a o In) as [|[[]|]]; tauto. Qed.

Lemma params_step tr s c t a o tr2 e s' :
  inv tr s -> (t < n)%nat -> (c < n)%nat -> EClaim c t a o ∈ tr -> step boot n s e s' -> params c t a o tr2 s -> params c t a o (e :: tr2) s'.
Proof.
  intros I Lt Lc In St (Nw & Rd & En). destruct (written_data tr s c t a o I In Nw) as [Da Do].
  pose proof (inv_step boot n payload fdt Bn N31 tr s e s' I St) as I'.
  assert (In' : EClaim c t a o ∈ e :: tr) by (by right).
  assert (Ne : e <> EClaim c t a o).
  { intros ->. pose proof (i_claims _ _ _ _ _ _ I' t Lt) as C. unfold claims in C. rewrite filter_bool in C. cbn [is_claim] in C.
    rewrite bool_decide_true in C by done. pose proof (claim_claims tr c t a o In) as C0. unfold claims in C0.
    destruct (decide _); [done|]. destruct C as [x C]. by injection C as _ C. }
  split; [|split].
  - intros [E|E]; pose proof (step_pc boot n s e s' c St) as Sp; rewrite E in Sp.
    + destruct Sp as [Sp|Sp]; [apply Nw; by left|done].
    + destruct Sp as [Sp|[a' Sp]]; [apply Nw; by right|].
      pose proof (i_addr _ _ _ _ tr s I c t a' o Lc Sp) as In2.
      destruct (claim_unique _ _ _ _ tr s c t a o c a' o I Lt In In2) as (_ & <- & _). apply Nw. by left.
  - intros x E. pose proof (step_pc boot n s e s' t St) as Sp. rewrite E in Sp. destruct Sp as [Sp|[_ ->]]; [auto|done].
  - intros a' o'. rewrite elem_of_cons. intros [<-|In2]; [|auto]. destruct (step_enter boot n s t a' o' s' St) as [P ->].
    split; [done|]. symmetry. by rewrite (Rd o' P).
Qed.

Lemma params_reach tr s c t a o tr2 s2 :
  reach boot n s0 tr s -> (t < n)%nat -> (c < n)%nat -> EClaim c t a o ∈ tr -> params c t a o [] s ->
  reach boot n s tr2 s2 -> params c t a o tr2 s2.
Proof.
  intros R Lt Lc In P R2. induction R2 as [|tr2 s1 e s2 R2 IH St]; [done|].
  apply (params_step (tr2 ++ tr) s1); try done; [|apply elem_of_app; by right].
  apply (inv_reach boot n payload fdt Bn N31). by apply (reach_app boot n s0 tr s).
Qed.

(** C33. However the harts are interleaved: no hart ever halts because its state is not
    what it should be; a hart enters the payload at most once, the boot hart by itself
    and every other one only after exactly one call to start it succeeded; and none
    enters it before all harts have come up. *)
Theorem hsm_starts_once tr s :
  reach boot n s0 tr s ->
  (forall h, EHalt h ∉ tr) /\
  (forall h, (h < n)%nat -> (length (enters h tr) <= 1)%nat /\ (length (claims h tr) <= 1)%nat) /\
  claims boot tr = [] /\
  (forall h, (h < n)%nat -> enters h tr <> [] ->
     (h = boot \/ exists e, claims h tr = [e]) /\ state (harts s h) = SBI_HSM_STARTED /\ forall i, (i < n)%nat -> pcs s i <> PInit).
Proof.
  intros R. pose proof (inv_reach boot n payload fdt Bn N31 tr s R) as I. pose proof I as [].
  split; [done|]. split; [|split].
  - intros h L. specialize (i_enters0 h L). specialize (i_claims0 h L). split.
    + destruct (running (pcs s h)); [destruct i_enters0 as [e ->]|rewrite i_enters0]; cbn; lia.
    + destruct (decide _); [rewrite i_claims0|destruct i_claims0 as [e ->]]; cbn; lia.
  - specialize (i_claims0 boot Bn). by rewrite decide_True in i_claims0 by (by left).
  - intros h L En. specialize (i_enters0 h L). specialize (i_claims0 h L). destruct (running (pcs s h)) eqn:Rn; [|done].
    assert (St : state (harts s h) = SBI_HSM_STARTED) by (specialize (i_ok0 h L); by destruct (pcs s h)).
    assert (La : late n s) by (apply (late_from boot n payload fdt tr s h I L); by destruct (pcs s h)).
    split; [|split; [done|]].
    + destruct (decide (h = boot)); [by left|right]. rewrite decide_False in i_claims0; [done|]. rewrite St. by intros [].
    + intros i Li Ei. specialize (La i Li). by rewrite Ei in La.
Qed.

(** C34. Once a hart that called [hsm_hartStart] successfully has written both
    parameters, and the hart to be started has not read them, the latter enters the
    payload, if it does, at the address and with the argument of that call. *)
Theorem hsm_start_params tr s c t a o tr2 s2 a' o' :
  reach boot n s0 tr s -> (t < n)%nat -> (c < n)%nat -> EClaim c t a o ∈ tr ->
  pcs s c <> PAddr t a o -> pcs s c <> PArg t o -> (forall x, pcs s t <> PReadAddr x) ->
  reach boot n s tr2 s2 -> EEnter t a' o' ∈ tr2 -> a' = a /\ o' = o.
Proof.
  intros R Lt Lc In N1 N2 N3 R2 En. refine (proj2 (proj2 (params_reach tr s c t a o tr2 s2 R Lt Lc In _ R2)) a' o' En).
  split; [tauto|]. split; [intros x E; by destruct (N3 x)|]. by intros ? ? ?%not_elem_of_nil.
Qed.
End theorems.

(** *** Two harts

    The boot hart 0 starts hart 1 at 0x900 with the argument 5. *)

Definition two_init : list (nat * option ecall) := [(0, None); (1, None); (0, None); (0, None); (0, None); (0, None); (0, None)]%nat.
Definition two_start : list (nat * option ecall) :=
  [(0, Some (HartStart 1 0x900 5)); (0, None); (0, None); (0, None)]%nat.
Definition two_enter : list (nat * option ecall) := [(1, None); (1, None); (1, None); (1, None)]%nat.

Definition two (sched : list (nat * option ecall)) : list event * sys := run 0 2 sched [] (sbi_scratchInit 0x800 0x100).

Lemma two_reach sched : Forall (fun x => (x.1 < 2)%nat /\ call_ok x.2) sched ->
  reach 0 2 (sbi_scratchInit 0x800 0x100) (two sched).1 (two sched).2.
Proof. intros F. apply run_reach; [done|apply reach_start]. Qed.

Ltac sched_ok := repeat constructor; cbn; lia.

Lemma hsm_starts_once_witness :
  enters 1 (two (two_init ++ two_start ++ two_enter)).1 = [EEnter 1 0x900 5] /\
  (forall h, EHalt h ∉ (two (two_init ++ two_start ++ two_enter)).1).
Proof.
  split; [reflexivity|].
  apply (hsm_starts_once 0 2 0x800 0x100 ltac:(lia) ltac:(lia) _ _ (two_reach (two_init ++ two_start ++ two_enter) ltac:(sched_ok))).
Defined.

Lemma hsm_start_params_witness :
  let s := (two (two_init ++ two_start)).2 in
  let r := run 0 2 two_enter [] s in
  EEnter 1 0x900 5 ∈ r.1 /\ forall a o, EEnter 1 a o ∈ r.1 -> a = 0x900 /\ o = 5.
Proof.
  split; [left|]. intros a o.
  apply (hsm_start_params 0 2 0x800 0x100 ltac:(lia) ltac:(lia) _ _ 0 1 0x900 5 _ (run 0 2 two_enter [] (two (two_init ++ two_start)).2).2 a o
    (two_reach (two_init ++ two_start) ltac:(sched_ok))
    ltac:(lia) ltac:(lia)); try done.
  - cbn. right. right. left.
  - apply run_reach; [sched_ok|apply reach_start].
Defined.

(** The state tells the hart to start before the parameters are there: the hart that is
    started may run ahead of the writes, and enters the payload at the address it had
    before. *)
Lemma start_overtaken :
  enters 1 (two (two_init ++ [(0, Some (HartStart 1 0x900 5)); (0, None)]%nat ++ two_enter)).1 = [EEnter 1 0x800 0x100].
Proof. reflexivity. Qed.
