(* ===== verification/SbiIpi.v ===== *)
(** * Interrupts between harts (src/riscv-sbi/core/extensions/ipi.c, ecall_rfence.c, ecall_ipi.c)

    A hart runs a task on another one by putting it on the list of that hart and
    raising an interrupt there.  A list takes its nodes from a pool of sixteen, and
    its lock is held from end to end of every operation here, so an operation is one
    step.  src/riscv-sbi/core/list.c is the code of src/lib/list.c, modelled in
    CList.v.  [None] is a wild pointer. *)

From S2P Require Import Prelude Mem CList SbiHsm.

Definition MAX_TASK_COUNT := 16.
Definition SBI_IPI_RETRY := 1.

(** src/riscv-sbi/core/sbi.c, of an [unsigned long] *)
Definition sbi_getFirstBit (v : Z) : Z :=
  let '(fb, v) := if Z.land v 0xffffffff =? 0 then (32, Z.shiftr v 32) else (0, v) in
  let '(fb, v) := if Z.land v 0xffff =? 0 then (fb + 16, Z.shiftr v 16) else (fb, v) in
  let '(fb, v) := if Z.land v 0xff =? 0 then (fb + 8, Z.shiftr v 8) else (fb, v) in
  let '(fb, v) := if Z.land v 0xf =? 0 then (fb + 4, Z.shiftr v 4) else (fb, v) in
  let '(fb, v) := if Z.land v 0x3 =? 0 then (fb + 2, Z.shiftr v 2) else (fb, v) in
  if Z.land v 0x1 =? 0 then fb + 1 else fb.

(** A function and its argument, by their addresses. *)
Record ipi_task_t := mk_task { handler : Z; data : Z }.

Record ipi_node_t := mk_node { task : ipi_task_t; next : Z; prev : Z }.

#[export] Instance ipi_node_links : LinkFields ipi_node_t.
Proof.
  refine {|
    lnext := next;
    lprev := prev;
    set_lnext p n := mk_node (task n) p (prev n);
    set_lprev p n := mk_node (task n) (next n) p
  |}; done.
Defined.

(** The parts of [ipi_common] that belong to one hart, with its pool at [base]. *)
Record ipi_queue := mk_queue { poolMask : Z; pool : gmap Z ipi_node_t; tasks : Z }.

Section queue.
  Context (base : Z).

(** [sizeof(ipi_node_t)] on the 64-bit targets. *)
Definition SIZE_NODE := 32.
Definition node_addr (i : Z) : Z := base + i * SIZE_NODE.

(** [sbi_ipiSend] by hart [self]; the tasks it runs at once are a part of the result. *)
Definition sbi_ipiSend (self hartid : Z) (t : ipi_task_t) (q : ipi_queue) : option (Z * list ipi_task_t * ipi_queue) :=
  if hartid =? self then Some (SBI_SUCCESS, if negb (handler t =? NULL) then [t] else [], q)
  else if poolMask q =? 0 then Some (SBI_IPI_RETRY, [], q)
  else
    let idx := sbi_getFirstBit (poolMask q) in
    let mask := w16 (Z.land (poolMask q) (Z.lnot (Z.shiftl 1 idx))) in
    let node := node_addr idx in
    h ← store_upd (fun n => mk_node t (next n) (prev n)) node (pool q);
    if tasks q =? NULL then
      '(h, list) ← lib_listAdd h (tasks q) node; Some (SBI_SUCCESS, [], mk_queue mask h list)
    else
      first ← h !! tasks q;
      '(h, _) ← lib_listAdd h (prev first) node; Some (SBI_SUCCESS, [], mk_queue mask h (tasks q)).

(** The loop of [sbi_ipiHandler], and the tasks that were run. *)
Fixpoint handler_loop (k : nat) (q : ipi_queue) (done : list ipi_task_t) : option (list ipi_task_t * ipi_queue) :=
  if tasks q =? NULL then Some (done, q)
  else
    match k with
    | O => None
    | S k =>
        let node := tasks q in
        '(h, list) ← lib_listRemove (pool q) (tasks q) node;
        n ← h !! node;
        let mask := w16 (Z.lor (poolMask q) (Z.shiftl 1 ((node - base) / SIZE_NODE))) in
        handler_loop k (mk_queue mask h list) (if negb (handler (task n) =? NULL) then done ++ [task n] else done)
    end.

Definition sbi_ipiHandler (q : ipi_queue) : option (list ipi_task_t * ipi_queue) :=
  handler_loop (Z.to_nat MAX_TASK_COUNT) q [].

(** The pool of a hart in static storage, and its mask after [sbi_ipiInit]. *)
Definition sbi_ipiInit : ipi_queue :=
  mk_queue 0xffff (list_to_map ((fun i => (node_addr (Z.of_nat i), mk_node (mk_task 0 0) 0 0)) <$> seq 0 16)) NULL.

End queue.

(** [sbi_ipiSendMany]: queues by the number of the hart, pools by [bases]; each try of
    a send takes a step of [fuel], before which the other harts do [env]. *)
Section many.
  Context (bases : Z -> Z) (env : nat -> (Z -> ipi_queue) -> Z -> ipi_queue).

Fixpoint send_retry (fuel : nat) (self i : Z) (t : ipi_task_t) (qs : Z -> ipi_queue) : option (Z * list ipi_task_t * (Z -> ipi_queue)) :=
  match fuel with
  | O => None
  | S fuel =>
      let qs := env fuel qs in
      '(ret, ran, q) ← sbi_ipiSend (bases i) self i t (qs i);
      let qs := fun j => if j =? i then q else qs j in
      if ret =? SBI_IPI_RETRY then send_retry fuel self i t qs else Some (ret, ran, qs)
  end.

Fixpoint many_loop (k : nat) (fuel : nat) (self i mask : Z) (t : ipi_task_t) (ran : list ipi_task_t) (qs : Z -> ipi_queue)
    : option (Z * list ipi_task_t * (Z -> ipi_queue)) :=
  match k with
  | O => Some (SBI_SUCCESS, ran, qs)
  | S k =>
      if negb (Z.land mask (Z.shiftl 1 i) =? 0) then
        '(ret, r, qs) ← send_retry fuel self i t qs;
        if ret <? 0 then Some (ret, ran ++ r, qs) else many_loop k fuel self (i + 1) mask t (ran ++ r) qs
      else many_loop k fuel self (i + 1) mask t ran qs
  end.

Definition sbi_ipiSendMany (fuel : nat) (hartCount sbi_hartMask self hartMask hartMaskBase : Z) (t : ipi_task_t) (qs : Z -> ipi_queue)
    : option (Z * list ipi_task_t * (Z -> ipi_queue)) :=
  if hartCount <? hartMaskBase then Some (SBI_ERR_INVALID_PARAM, [], qs)
  else
    let mask := Z.land (w64 (Z.shiftl hartMask hartMaskBase)) sbi_hartMask in
    if mask =? 0 then Some (SBI_ERR_INVALID_PARAM, [], qs)
    else many_loop (Z.to_nat hartCount) fuel self 0 mask t [] qs.
End many.

(** ** Remote fences *)

Definition PAGE_SIZE := 0x1000.
Definition SFENCE_VMA_FLUSH_ALL := 2 ^ 64 - 1.

Record sfenceVmaInfo_t := mk_info { start : Z; size : Z; asid : Z }.

(** Fences: of instructions; of all addresses, or one; the same for one address space. *)
Inductive fence := FenceI | FenceAll | FenceAt (a : Z) | FenceAsid (asid : Z) | FenceAtAsid (a asid : Z).

Definition ecall_rfence_fenceiHandler : option (list fence) := Some [FenceI].

(** The loop of the handlers for ranges, which differ in the instruction [at_]; the
    counter is 64 bits wide. *)
Fixpoint sfence_loop (fuel : nat) (at_ : Z -> fence) (i : Z) (info : sfenceVmaInfo_t) : option (list fence) :=
  match fuel with
  | O => None
  | S fuel =>
      if i <? size info then
        l ← sfence_loop fuel at_ (w64 (i + PAGE_SIZE)) info; Some (at_ (w64 (start info + i)) :: l)
      else Some []
  end.

Definition ecall_rfence_sfenceVmaHandler (fuel : nat) (info : sfenceVmaInfo_t) : option (list fence) :=
  if ((start info =? 0) && (size info =? 0)) || (size info =? SFENCE_VMA_FLUSH_ALL) then Some [FenceAll]
  else sfence_loop fuel FenceAt 0 info.

Definition ecall_rfence_sfenceVmaAsidHandler (fuel : nat) (info : sfenceVmaInfo_t) : option (list fence) :=
  if ((start info =? 0) && (size info =? 0)) || (size info =? SFENCE_VMA_FLUSH_ALL) then Some [FenceAsid (asid info)]
  else sfence_loop fuel (fun a => FenceAtAsid a (asid info)) 0 info.

Definition RFENCE_FENCE_I := 0.
Definition RFENCE_SFENCE_VMA := 1.
Definition RFENCE_SFENCE_VMA_ASID := 2.

(** The calls.  The record of a range is a local of the handler, in the frame at [fp];
    the tasks get its address. *)
Section rfence.
  Context (bases : Z -> Z) (env : nat -> (Z -> ipi_queue) -> Z -> ipi_queue) (fuel : nat) (hartCount sbi_hartMask self fp : Z)
    (fencei sfenceVma sfenceVmaAsid sendIpi : Z).

Definition ecall_rfence_handler (a0 a1 a2 a3 a4 fid : Z) (frames : Z -> sfenceVmaInfo_t) (qs : Z -> ipi_queue)
    : option (Z * list ipi_task_t * (Z -> sfenceVmaInfo_t) * (Z -> ipi_queue)) :=
  let set info := fun p => if p =? fp then info else frames p in
  let send t frames :=
    '(ret, ran, qs) ← sbi_ipiSendMany bases env fuel hartCount sbi_hartMask self a0 a1 t qs; Some (ret, ran, frames, qs) in
  if fid =? RFENCE_FENCE_I then send (mk_task fencei NULL) frames
  else if fid =? RFENCE_SFENCE_VMA then send (mk_task sfenceVma fp) (set (mk_info a2 a3 (asid (frames fp))))
  else if fid =? RFENCE_SFENCE_VMA_ASID then send (mk_task sfenceVmaAsid fp) (set (mk_info a2 a3 (w32 a4)))
  else Some (SBI_ERR_NOT_SUPPORTED, [], frames, qs).

(** [ecall_ipi_handler]: the task sets the pending bit of the payload's own interrupt. *)
Definition ecall_ipi_handler (a0 a1 fid : Z) (qs : Z -> ipi_queue) : option (Z * list ipi_task_t * (Z -> ipi_queue)) :=
  if fid =? 0 then sbi_ipiSendMany bases env fuel hartCount sbi_hartMask self a0 a1 (mk_task sendIpi NULL) qs
  else Some (SBI_ERR_NOT_SUPPORTED, [], qs).

(** What the tasks of fences do, with the records as they are then. *)
Definition run_tasks (frames : Z -> sfenceVmaInfo_t) (ts : list ipi_task_t) : list (option (list fence)) :=
  (fun t =>
     if handler t =? fencei then ecall_rfence_fenceiHandler
     else if handler t =? sfenceVma then ecall_rfence_sfenceVmaHandler fuel (frames (data t))
     else if handler t =? sfenceVmaAsid then ecall_rfence_sfenceVmaAsidHandler fuel (frames (data t))
     else Some []) <$> ts.
End rfence.

(** ** Sequences of operations on one queue *)

Inductive ipi_op := Send (t : ipi_task_t) | Handle.
Inductive ipi_out := Returned (r : Z) | Ran (ts : list ipi_task_t).

(** Other harts send to hart [hartid], and it handles its interrupts. *)
Fixpoint ipi_run (base self hartid : Z) (ops : list ipi_op) (q : ipi_queue) : option (list ipi_out * ipi_queue) :=
  match ops with
  | [] => Some ([], q)
  | Send t :: ops =>
      '(r, _, q) ← sbi_ipiSend base self hartid t q; '(out, q) ← ipi_run base self hartid ops q; Some (Returned r :: out, q)
  | Handle :: ops =>
      '(ts, q) ← sbi_ipiHandler base q; '(out, q) ← ipi_run base self hartid ops q; Some (Ran ts :: out, q)
  end.

(** Where a new task goes: at the end of up to one other, before the last of more. *)
Definition enqueue {A} (l : list A) (x : A) : list A :=
  if (length l <=? 1)%nat then l ++ [x] else take (length l - 1) l ++ x :: drop (length l - 1) l.

Definition runs (ts : list ipi_task_t) : list ipi_task_t := filter (fun t => handler t <> NULL) ts.

#[export] Instance runs_Permutation : Proper ((≡ₚ) ==> (≡ₚ)) runs.
Proof. intros l k H. unfold runs. by rewrite H. Qed.

(** The same on the list of tasks that wait. *)
Fixpoint ipi_spec (ops : list ipi_op) (ts : list ipi_task_t) : list ipi_out * list ipi_task_t :=
  match ops with
  | [] => ([], ts)
  | Send t :: ops =>
      if decide (length ts = 16%nat) then let '(out, ts) := ipi_spec ops ts in (Returned SBI_IPI_RETRY :: out, ts)
      else let '(out, ts) := ipi_spec ops (enqueue ts t) in (Returned SBI_SUCCESS :: out, ts)
  | Handle :: ops => let '(out, rest) := ipi_spec ops [] in (Ran (runs ts) :: out, rest)
  end.

(** The tasks that were accepted, and those that ran. *)
Fixpoint accepted (ops : list ipi_op) (out : list ipi_out) : list ipi_task_t :=
  match ops, out with
  | Send t :: ops, Returned r :: out => (if r =? SBI_SUCCESS then [t] else []) ++ accepted ops out
  | _ :: ops, _ :: out => accepted ops out
  | _, _ => []
  end.
Definition ran (out : list ipi_out) : list ipi_task_t := out ≫= fun o => if o is Ran ts then ts else [].

(** ** The first set bit *)

(** [v] is [v'] with [r] zero bits below it. *)
Definition shifted (v v' r : Z) : Prop := 0 <= r /\ v = v' * 2 ^ r.

Lemma bit_step (v v' fb w : Z) : 0 < w -> 0 < v' -> v' mod 2 ^ (2 * w) <> 0 -> shifted v v' fb ->
  let '(fb, v') := if Z.land v' (Z.ones w) =? 0 then (fb + w, Z.shiftr v' w) else (fb, v') in
  0 < v' /\ v' mod 2 ^ w <> 0 /\ shifted v v' fb.
Proof.
  intros W V M [F S]. rewrite Z.land_ones by lia. destruct (Z.eqb_spec (v' mod 2 ^ w) 0) as [E|E]; [|done].
  assert (P : 0 < 2 ^ w) by (apply Z.pow_pos_nonneg; lia). rewrite Z.shiftr_div_pow2 by lia.
  assert (Dv : v' = v' / 2 ^ w * 2 ^ w) by (pose proof (Z.div_mod v' (2 ^ w)); lia).
  split; [nia|split; [|split; [lia|]]].
  - intros E2. apply M. rewrite Dv. replace (2 * w) with (w + w) by lia. rewrite Z.pow_add_r, Z.mul_mod_distr_r by lia. by rewrite E2.
  - rewrite S, Dv at 1. rewrite Z.pow_add_r by lia. ring.
Qed.

(** The lowest set bit of a word that is not zero. *)
Lemma sbi_getFirstBit_spec v : 0 < v < 2 ^ 64 -> exists q, v = (2 * q + 1) * 2 ^ sbi_getFirstBit v /\ 0 <= sbi_getFirstBit v < 64.
Proof.
  intros V. enough (G : exists q, v = (2 * q + 1) * 2 ^ sbi_getFirstBit v /\ 0 <= sbi_getFirstBit v).
  { destruct G as (q & E & P). exists q. split; [done|]. split; [done|].
    assert (0 < 2 ^ sbi_getFirstBit v) by (apply Z.pow_pos_nonneg; lia). set (p := 2 ^ sbi_getFirstBit v) in *. assert (1 <= 2 * q + 1) by nia.
    assert (p < 2 ^ 64) by nia. apply (Z.pow_lt_mono_r_iff 2); [lia..|done]. }
  unfold sbi_getFirstBit.
  pose proof (bit_step v v 0 32 ltac:(lia) ltac:(lia)) as B. rewrite Z.mod_small in B by (change (2 ^ (2 * 32)) with (2 ^ 64); lia).
  specialize (B ltac:(lia) ltac:(unfold shifted; lia)). change (Z.ones 32) with 0xffffffff in B. rewrite Z.add_0_l in B.
  destruct (if Z.land v 0xffffffff =? 0 then _ else _) as [fb1 v1]. destruct B as (V1 & M1 & S1).
  pose proof (bit_step v v1 fb1 16 ltac:(lia) V1 M1 S1) as B. change (Z.ones 16) with 0xffff in B.
  destruct (if Z.land v1 0xffff =? 0 then _ else _) as [fb2 v2]. destruct B as (V2 & M2 & S2).
  pose proof (bit_step v v2 fb2 8 ltac:(lia) V2 M2 S2) as B. change (Z.ones 8) with 0xff in B.
  destruct (if Z.land v2 0xff =? 0 then _ else _) as [fb3 v3]. destruct B as (V3 & M3 & S3).
  pose proof (bit_step v v3 fb3 4 ltac:(lia) V3 M3 S3) as B. change (Z.ones 4) with 0xf in B.
  destruct (if Z.land v3 0xf =? 0 then _ else _) as [fb4 v4]. destruct B as (V4 & M4 & S4).
  pose proof (bit_step v v4 fb4 2 ltac:(lia) V4 M4 S4) as B. change (Z.ones 2) with 0x3 in B.
  destruct (if Z.land v4 0x3 =? 0 then _ else _) as [fb5 v5]. destruct B as (V5 & M5 & S5).
  clear -V5 M5 S5. change (2 ^ 2) with 4 in M5. destruct S5 as [F E].
  assert (L : Z.land v5 1 = v5 mod 2) by (change 1 with (Z.ones 1) at 1; by rewrite Z.land_ones by lia). rewrite L.
  destruct (Z.eqb_spec (v5 mod 2) 0) as [Ev|Od].
  - exists (v5 / 4). split; [|lia]. rewrite Z.pow_add_r, Z.pow_1_r by lia. rewrite E. replace v5 with (2 * (2 * (v5 / 4) + 1)) at 1 by modlia. ring.
  - exists (v5 / 2). split; [|lia]. rewrite E. f_equal. modlia.
Qed.

(** ** The list of tasks *)

Section queues.
  Context (base : Z) (Base : 0 < base).

Abbreviation addr := (node_addr base).
Abbreviation all := (addr <$> seqZ 0 16).

Definition holds (h : gmap Z ipi_node_t) (p : Z) (t : ipi_task_t) : Prop := task <$> h !! p = Some t.

(** [l] is the ring of the nodes of a queue, and the mask has the others. *)
Record wf (q : ipi_queue) (l : list Z) : Prop := {
  wf_ring : clist (pool q) (tasks q) l;
  wf_dom : forall p, p ∈ dom (pool q) <-> p ∈ all;
  wf_mask : 0 <= poolMask q < 2 ^ 16;
  wf_bits : forall i, 0 <= i < 16 -> Z.testbit (poolMask q) i = bool_decide (addr i ∉ l)
}.

(** The queue has the tasks [ts]. *)
Definition queued (q : ipi_queue) (ts : list ipi_task_t) : Prop := exists l, wf q l /\ Forall2 (holds (pool q)) l ts.

Lemma addr_inj i j : addr i = addr j -> i = j.
Proof. unfold node_addr, SIZE_NODE. lia. Qed.

Lemma elem_all p : p ∈ all <-> exists i, 0 <= i < 16 /\ p = addr i.
Proof.
  rewrite list_elem_of_fmap. split.
  - intros (i & -> & I%elem_of_seqZ). exists i. lia || (split; [lia|done]).
  - intros (i & I & ->). exists i. split; [done|]. apply elem_of_seqZ. lia.
Qed.

Lemma NoDup_all : NoDup all.
Proof. apply NoDup_fmap_2; [intros ? ?; apply addr_inj|apply NoDup_seqZ]. Qed.

Lemma ring_in q l p : wf q l -> p ∈ l -> p ∈ all.
Proof.
  intros W P. apply (wf_dom q l W). destruct l as [|a l]; [by apply not_elem_of_nil in P|].
  destruct (wf_ring q _ W) as [_ R]. by apply (cring_dom _ _ p R).
Qed.

(** The mask is empty when all nodes are in use. *)
Lemma mask_empty q l : wf q l -> poolMask q = 0 <-> length l = 16%nat.
Proof.
  intros W. assert (Nd : NoDup l) by (apply (clist_NoDup (pool q) (tasks q)), W).
  assert (Sub : l ⊆+ all) by (apply NoDup_submseteq; [done|]; intros p; by apply (ring_in q l)).
  split.
  - intros E. assert (Sub2 : all ⊆+ l).
    { apply NoDup_submseteq; [apply NoDup_all|]. intros p (i & I & ->)%elem_all.
      pose proof (wf_bits q l W i I) as B. rewrite E, Z.bits_0 in B. symmetry in B. apply bool_decide_eq_false in B. by apply dec_stable. }
    pose proof (submseteq_length _ _ Sub). pose proof (submseteq_length _ _ Sub2).
    rewrite length_fmap, length_seqZ in *. lia.
  - intros E. assert (P : l ≡ₚ all) by (apply submseteq_length_Permutation; [done|]; rewrite E; done).
    apply Z.bits_inj'. intros i I. rewrite Z.bits_0. destruct (Z.lt_ge_cases i 16) as [Lt|Ge].
    + rewrite (wf_bits q l W) by lia. apply bool_decide_false. intros N. apply N. rewrite P. apply elem_all. exists i. split; [lia|done].
    + pose proof (wf_mask q l W). destruct (Z.eq_dec (poolMask q) 0) as [-> |]; [apply Z.bits_0|].
      apply Z.bits_above_log2; [lia|]. assert (Z.log2 (poolMask q) < 16) by (apply Z.log2_lt_pow2; lia). lia.
Qed.

(** The node a send takes is free. *)
Lemma first_free q l : wf q l -> poolMask q <> 0 ->
  let i := sbi_getFirstBit (poolMask q) in 0 <= i < 16 /\ addr i ∉ l /\ Z.testbit (poolMask q) i = true.
Proof.
  intros W N i. pose proof (wf_mask q l W) as M. destruct (sbi_getFirstBit_spec (poolMask q)) as (x & E & F); [lia|]. fold i in E, F.
  assert (T : Z.testbit (poolMask q) i = true).
  { rewrite E, Z.mul_pow2_bits, Z.sub_diag by lia. apply Z.testbit_odd_0. }
  assert (I : 0 <= i < 16).
  { split; [lia|]. destruct (Z.lt_ge_cases i 16) as [|Ge]; [done|]. rewrite Z.bits_above_log2 in T; [done|lia|].
    assert (Z.log2 (poolMask q) < 16) by (apply Z.log2_lt_pow2; lia). lia. }
  split; [done|]. split; [|done]. rewrite (wf_bits q l W) in T by done. by apply bool_decide_eq_true in T.
Qed.

Lemma holds_same h h' p t : same_nodes h h' -> holds h p t -> holds h' p t.
Proof.
  intros [C _] H. unfold holds in *. apply (f_equal (fun m => m !! p)) in C. rewrite !lookup_fmap in C.
  destruct (h !! p), (h' !! p); try done. cbn in *. injection C as C. by rewrite C.
Qed.

Lemma clear_bit m i j : 0 <= m < 2 ^ 16 -> 0 <= i < 16 -> 0 <= j < 16 ->
  Z.testbit (w16 (Z.land m (Z.lnot (Z.shiftl 1 i)))) j = Z.testbit m j && negb (j =? i).
Proof.
  intros M I J. unfold w16. rewrite Z.mod_pow2_bits_low, Z.land_spec, Z.lnot_spec by lia. rewrite Z.shiftl_1_l, Z.pow2_bits_eqb by lia.
  by rewrite (Z.eqb_sym i j).
Qed.

Lemma set_bit m i j : 0 <= m < 2 ^ 16 -> 0 <= i < 16 -> 0 <= j < 16 ->
  Z.testbit (w16 (Z.lor m (Z.shiftl 1 i))) j = Z.testbit m j || (j =? i).
Proof.
  intros M I J. unfold w16. rewrite Z.mod_pow2_bits_low, Z.lor_spec by lia. rewrite Z.shiftl_1_l, Z.pow2_bits_eqb by lia.
  by rewrite (Z.eqb_sym i j).
Qed.

Lemma clist_links h h' p l : (forall x, nx h' x = nx h x /\ pv h' x = pv h x) -> clist h p l -> clist h' p l.
Proof.
  intros E. destruct l as [|a l]; [done|]. intros (-> & C & Nd & Nn). split; [done|]. split; [|done].
  apply (chain_ext h); [done|intros; apply E|intros; apply E].
Qed.

Lemma enqueue_snoc {A} (l0 : list A) q x : enqueue (l0 ++ [q]) x = if decide (l0 = []) then [q; x] else l0 ++ [x; q].
Proof.
  unfold enqueue. rewrite length_app. cbn [length]. destruct (decide (l0 = [])) as [-> |N]; [done|].
  destruct l0 as [|y l0]; [done|]. rewrite (proj2 (Nat.leb_gt _ _)) by (cbn; lia).
  rewrite Nat.add_sub, take_app_length, drop_app_length. done.
Qed.

Lemma Forall2_enqueue {A B} (P : A -> B -> Prop) l ts x t :
  Forall2 P l ts -> P x t -> Forall2 P (enqueue l x) (enqueue ts t).
Proof.
  intros F X. unfold enqueue. rewrite (Forall2_length _ _ _ F). destruct (_ <=? _)%nat.
  - apply Forall2_app; [done|by constructor].
  - apply Forall2_app; [by apply Forall2_take|]. constructor; [done|by apply Forall2_drop].
Qed.

Lemma enqueue_perm {A} (l : list A) x : enqueue l x ≡ₚ x :: l.
Proof.
  unfold enqueue. destruct (_ <=? _)%nat; [by rewrite Permutation_app_comm|].
  rewrite <- Permutation_middle. by rewrite take_drop.
Qed.

Lemma Forall2_impl_in {A B} (P Q : A -> B -> Prop) l k :
  Forall2 P l k -> (forall x y, x ∈ l -> P x y -> Q x y) -> Forall2 Q l k.
Proof.
  induction 1 as [|x y l k H F IH]; intros I; constructor; [apply I; [by left|done]|].
  apply IH. intros. apply I; [by right|done].
Qed.

Lemma mask_full q : wf q [] -> poolMask q = 0xffff.
Proof.
  intros W. apply Z.bits_inj'. intros i I. change 0xffff with (Z.ones 16). rewrite Z.testbit_ones_nonneg by lia. pose proof (wf_mask q [] W).
  destruct (Z.ltb_spec i 16).
  - rewrite (wf_bits q [] W) by lia. apply bool_decide_true, not_elem_of_nil.
  - destruct (Z.eq_dec (poolMask q) 0) as [-> |]; [apply Z.bits_0|]. apply Z.bits_above_log2; [lia|].
    assert (Z.log2 (poolMask q) < 16) by (apply Z.log2_lt_pow2; lia). lia.
Qed.

(** The node of a send goes onto the ring. *)
Lemma add_node h q l node :
  clist h (tasks q) l -> node ∈ dom h -> node ∉ l -> node <> NULL ->
  exists h' list,
    (if tasks q =? NULL then '(h, list) ← lib_listAdd h (tasks q) node; Some (h, list)
     else first ← h !! tasks q; '(h, _) ← lib_listAdd h (prev first) node; Some (h, tasks q)) = Some (h', list) /\
    clist h' list (enqueue l node) /\ same_nodes h h'.
Proof.
  intros L D N Nz. destruct l as [|a l1].
  - cbn in L. rewrite L. cbn [Z.eqb NULL]. destruct (lib_listAdd_spec h NULL [] node) as (h' & p & -> & L' & S); [done..|].
    by exists h', p.
  - destruct L as [E R]. assert (Na : a <> NULL) by (intros ->; destruct R as (_ & _ & NN); apply NN; by left).
    rewrite E, (proj2 (Z.eqb_neq a NULL)) by done.
    destruct (exists_last (l := a :: l1)) as (l0 & q0 & El); [done|]. rewrite El in *.
    assert (Hd : head (l0 ++ [q0]) = Some a) by (by rewrite <- El).
    destruct (cring_ends _ _ _ _ R Hd) as [_ Pa]. destruct (pv_lookup _ _ _ Pa) as (first & -> & Ef). cbn [mbind option_bind].
    change (prev first) with (lprev first). rewrite Ef.
    assert (R1 : clist h q0 (q0 :: l0)) by (split; [done|]; by apply (cring_rotate _ l0 [q0])).
    destruct (lib_listAdd_spec h q0 (q0 :: l0) node) as (h' & p & -> & L' & S); [done..|rewrite (Permutation_app_comm l0) in N; done|done|].
    exists h', a. split; [done|]. split; [|done]. rewrite enqueue_snoc. destruct L' as [_ L'].
    destruct (decide (l0 = [])) as [-> |Ne]; cbn in Hd.
    + injection Hd as ->. by split.
    + apply (cring_rotate h' [q0] (l0 ++ [node])) in L'. rewrite <- app_assoc in L'. cbn [app] in L'.
      destruct l0 as [|b l0]; [done|]. injection Hd as ->. by split.
Qed.

(** A send to another hart: refused when all nodes are in use, or the task is queued. *)
Lemma sbi_ipiSend_spec self hartid t q ts :
  queued q ts -> hartid <> self ->
  (length ts = 16%nat /\ sbi_ipiSend base self hartid t q = Some (SBI_IPI_RETRY, [], q)) \/
  (length ts < 16)%nat /\ exists q', sbi_ipiSend base self hartid t q = Some (SBI_SUCCESS, [], q') /\ queued q' (enqueue ts t).
Proof.
  intros (l & W & F) N. pose proof (Forall2_length _ _ _ F) as Ll. unfold sbi_ipiSend. rewrite (proj2 (Z.eqb_neq hartid self)) by done.
  destruct (Z.eqb_spec (poolMask q) 0) as [E|E].
  { left. apply (mask_empty q l W) in E. split; [congruence|done]. }
  right. destruct (first_free q l W E) as (I & Fr & _). set (i := sbi_getFirstBit _) in *.
  assert (Len : (length ts < 16)%nat).
  { assert (NoDup (addr i :: l)) by (constructor; [done|]; apply (clist_NoDup (pool q) (tasks q)), W).
    assert (Sub : addr i :: l ⊆+ all).
    { apply NoDup_submseteq; [done|]. intros p [-> |P]%elem_of_cons; [apply elem_all; by exists i|by apply (ring_in q l)]. }
    apply submseteq_length in Sub. rewrite length_fmap, length_seqZ in Sub. cbn in Sub. lia. }
  split; [done|]. assert (Dn : addr i ∈ dom (pool q)) by (apply (wf_dom q l W), elem_all; by exists i).
  apply elem_of_dom in Dn as [n En]. unfold store_upd. rewrite En. cbn [mbind option_bind].
  set (h := <[addr i := _]> (pool q)).
  assert (Lk : forall x, nx h x = nx (pool q) x /\ pv h x = pv (pool q) x).
  { intros x. unfold nx, pv, h. destruct (decide (x = addr i)) as [-> |]; [by rewrite lookup_insert_eq, En|by rewrite lookup_insert_ne]. }
  assert (Dh : dom h = dom (pool q)) by (unfold h; rewrite dom_insert_L; apply elem_of_dom_2 in En; set_solver).
  destruct (add_node h q l (addr i)) as (h' & list & Ea & L' & Sn).
  { by apply (clist_links (pool q)); [|apply (wf_ring q l W)]. }
  { rewrite Dh. by apply elem_of_dom_2 in En. }
  { done. }
  { unfold node_addr, SIZE_NODE, NULL. lia. }
  set (mask := w16 _). exists (mk_queue mask h' list). split.
  { destruct (tasks q =? NULL).
    - destruct (lib_listAdd h (tasks q) (addr i)) as [[h1 l1]|]; [|done]. cbn in Ea |- *. by injection Ea as -> ->.
    - destruct (h !! tasks q) as [first|]; [|done]. cbn [mbind option_bind] in Ea |- *.
      destruct (lib_listAdd h (prev first) (addr i)) as [[h1 l1]|]; [|done]. cbn in Ea |- *. by injection Ea as -> ->. }
  exists (enqueue l (addr i)). split; [split; cbn|].
  - done.
  - intros p. destruct Sn as [_ ->]. rewrite Dh. apply W.
  - apply Z.mod_pos_bound. lia.
  - intros j J. unfold mask. rewrite clear_bit by (try done; apply W). rewrite (wf_bits q l W) by done.
    destruct (Z.eqb_spec j i) as [-> |Nj].
    + rewrite andb_false_r. symmetry. apply bool_decide_false. intros Q. apply Q. rewrite enqueue_perm. by left.
    + rewrite andb_true_r. apply bool_decide_ext. rewrite enqueue_perm, not_elem_of_cons.
      split; [|tauto]. intros Q. split; [|done]. intros Eq. by apply addr_inj in Eq.
  - cbn. apply Forall2_enqueue.
    + apply (Forall2_impl_in (holds (pool q))); [done|]. intros p u P H. apply (holds_same h); [done|]. unfold holds, h.
      rewrite lookup_insert_ne; [done|]. by intros <-.
    + apply (holds_same h); [done|]. unfold holds, h. by rewrite lookup_insert_eq.
Qed.

(** The loop takes the tasks from the front and gives their nodes back. *)
Lemma handler_loop_spec k q ts ran :
  queued q ts -> (length ts <= k)%nat ->
  exists q', handler_loop base k q ran = Some (ran ++ runs ts, q') /\ queued q' [] /\ poolMask q' = 0xffff.
Proof.
  revert q ts ran. induction k as [|k IH]; intros q ts ran (l & W & F) K; cbn [handler_loop].
  all: pose proof (Forall2_length _ _ _ F) as Ll; pose proof (wf_ring q l W) as Rg.
  all: destruct l as [|p l]; [destruct ts; [|done]; rewrite (Rg : tasks q = NULL), Z.eqb_refl; exists q; rewrite app_nil_r;
    split; [done|]; split; [by exists []|by apply mask_full]|].
  { cbn in Ll. lia. }
  destruct ts as [|t ts]; [done|]. apply Forall2_cons in F as [Fp F].
  assert (Tp : tasks q = p) by apply Rg. assert (Np : p <> NULL) by (intros ->; destruct Rg as (_ & _ & _ & NN); apply NN; by left).
  rewrite Tp, (proj2 (Z.eqb_neq p NULL)) by done.
  destruct (lib_listRemove_spec (pool q) p [] p l) as (h' & list & Er & L' & _ & _ & Sn); [by rewrite <- Tp at 1|].
  rewrite Er. cbn [mbind option_bind]. pose proof (holds_same _ _ _ _ Sn Fp) as Fp'. unfold holds in Fp'.
  destruct (h' !! p) as [n|]; [|done]. cbn in Fp'. injection Fp' as Et. cbn [mbind option_bind].
  assert (Pa : p ∈ all) by (apply (ring_in q (p :: l)); [done|by left]). apply elem_all in Pa as (i & I & ->).
  replace ((addr i - base) / SIZE_NODE) with i by (unfold node_addr, SIZE_NODE; rewrite Z.add_simpl_l, Z.div_mul; lia).
  set (mask := w16 _).
  assert (Nd : addr i ∉ l) by (pose proof (clist_NoDup _ _ _ Rg) as Nd; by apply NoDup_cons in Nd as [? _]).
  assert (W' : wf (mk_queue mask h' list) l).
  { split; cbn; [done| | |].
    - intros x. destruct Sn as [_ ->]. apply W.
    - apply Z.mod_pos_bound. lia.
    - intros j J. unfold mask. rewrite set_bit by (try done; apply W). rewrite (wf_bits q _ W) by done.
      destruct (Z.eqb_spec j i) as [-> |Nj]; [rewrite orb_true_r; symmetry; by apply bool_decide_true|]. rewrite orb_false_r.
      apply bool_decide_ext. rewrite not_elem_of_cons. split; [tauto|]. intros Q. split; [|done]. intros Eq. by apply addr_inj in Eq. }
  destruct (IH (mk_queue mask h' list) ts (if negb (handler (task n) =? NULL) then ran ++ [task n] else ran)) as (q' & -> & Q' & M').
  { exists l. split; [done|]. eapply Forall2_impl; [exact F|]. intros x u. by apply holds_same. }
  { cbn in K. lia. }
  exists q'. split; [|done]. do 2 f_equal. rewrite Et. unfold runs. rewrite filter_cons.
  destruct (Z.eqb_spec (handler t) NULL); cbn [negb]; [by rewrite decide_False by tauto|rewrite decide_True by done; by rewrite <- app_assoc].
Qed.

Lemma sbi_ipiHandler_spec q ts :
  queued q ts -> exists q', sbi_ipiHandler base q = Some (runs ts, q') /\ queued q' [] /\ poolMask q' = 0xffff.
Proof.
  intros Q. pose proof Q as (l & W & F). apply (handler_loop_spec _ q ts []); [done|].
  rewrite <- (Forall2_length _ _ _ F). assert (Nd : NoDup l) by (apply (clist_NoDup (pool q) (tasks q)), W).
  assert (Sub : l ⊆+ all) by (apply NoDup_submseteq; [done|]; intros p; by apply (ring_in q l)).
  apply submseteq_length in Sub. by rewrite length_fmap, length_seqZ in Sub.
Qed.

Lemma queued_init : queued (sbi_ipiInit base) [].
Proof.
  exists []. split; [|done]. split; cbn [poolMask pool tasks sbi_ipiInit].
  - done.
  - intros p. rewrite dom_list_to_map_L, elem_of_list_to_set, <- list_fmap_compose, list_elem_of_fmap, elem_all. split.
    + intros (i & -> & I%elem_of_seq). exists (Z.of_nat i). split; [lia|done].
    + intros (i & I & ->). exists (Z.to_nat i). split; [cbn; by rewrite Z2Nat.id by lia|]. apply elem_of_seq. lia.
  - lia.
  - intros i I. rewrite bool_decide_true by apply not_elem_of_nil. change 0xffff with (Z.ones 16). apply Z.ones_spec_low. lia.
Qed.

End queues.

(** ** Theorems *)

(** C35. The list of a hart keeps every task that was accepted until the hart handles its
    interrupts, and then runs it once: any sequence of sends and interrupts behaves as
    on a list, in the order of [enqueue]; a send is refused exactly when sixteen tasks
    wait, and no pointer is wild. *)
Theorem ipi_refines base self hartid ops q ts :
  0 < base -> hartid <> self -> queued base q ts ->
  exists out q', ipi_run base self hartid ops q = Some (out, q') /\
    out = (ipi_spec ops ts).1 /\ queued base q' (ipi_spec ops ts).2 /\
    ran out ++ runs (ipi_spec ops ts).2 ≡ₚ runs (ts ++ accepted ops out).
Proof.
  intros Base Ne. revert q ts. induction ops as [|[t|] ops IH]; intros q ts Q; cbn [ipi_run ipi_spec].
  - exists [], q. cbn [ran accepted mbind list_bind fst snd app]. by rewrite app_nil_r.
  - destruct (sbi_ipiSend_spec base Base self hartid t q ts Q Ne) as [[L E]|(L & q1 & E & Q1)]; rewrite E; cbn [mbind option_bind].
    + rewrite decide_True by done. destruct (IH q ts Q) as (out & q' & -> & -> & Q' & P). cbn [mbind option_bind].
      destruct (ipi_spec ops ts) as [out rest]. do 2 eexists. split; [done|]. split; [done|]. split; [done|]. exact P.
    + rewrite decide_False by lia. destruct (IH q1 (enqueue ts t) Q1) as (out & q' & -> & -> & Q' & P). cbn [mbind option_bind].
      destruct (ipi_spec ops (enqueue ts t)) as [out rest]. do 2 eexists. split; [done|]. split; [done|]. split; [done|].
      cbn [fst snd accepted] in *. change (ran (Returned SBI_SUCCESS :: out)) with (ran out). rewrite P, enqueue_perm.
      change ((if SBI_SUCCESS =? SBI_SUCCESS then [t] else []) ++ accepted ops out) with (t :: accepted ops out).
      by rewrite <- (Permutation_middle ts).
  - destruct (sbi_ipiHandler_spec base q ts Q) as (q1 & E & Q1 & _). rewrite E. cbn [mbind option_bind].
    destruct (IH q1 [] Q1) as (out & q' & -> & -> & Q' & P). cbn [mbind option_bind].
    destruct (ipi_spec ops []) as [out rest]. do 2 eexists. split; [done|]. split; [done|]. split; [done|].
    cbn [fst snd accepted] in *. change (ran (Ran (runs ts) :: out)) with (runs ts ++ ran out). rewrite <- app_assoc, P. unfold runs.
    by rewrite (filter_app _ ts).
Qed.

(** *** Three sends and an interrupt *)

Definition three : list ipi_op := [Send (mk_task 1 11); Send (mk_task 2 22); Send (mk_task 3 33); Handle].

Lemma ipi_refines_witness :
  exists out q', ipi_run 0x1000 0 1 three (sbi_ipiInit 0x1000) = Some (out, q') /\ queued 0x1000 q' [] /\
    ran out ≡ₚ [mk_task 1 11; mk_task 2 22; mk_task 3 33].
Proof.
  destruct (ipi_refines 0x1000 0 1 three (sbi_ipiInit 0x1000) [] ltac:(lia) ltac:(lia) (queued_init 0x1000))
    as (out & q' & E & O & Q & P).
  exists out, q'. split; [exact E|]. split; [exact Q|]. rewrite O in *. cbn in P |- *. by rewrite app_nil_r in P.
Defined.

(** The third task runs before the second: a node goes before the last one, where
    src/lib/list.c would have put it at the end. *)
Lemma tasks_out_of_order : (ipi_spec three []).1 !! 3%nat = Some (Ran [mk_task 1 11; mk_task 3 33; mk_task 2 22]).
Proof. reflexivity. Qed.

(** A hart that does not handle its interrupts, as one that was not started or one
    that is sending itself, is sent to for ever once its nodes are in use. *)
Lemma send_stuck bases self i t qs ts fuel :
  queued (bases i) (qs i) ts -> length ts = 16%nat -> 0 < bases i -> i <> self ->
  send_retry bases (fun _ qs => qs) fuel self i t qs = None.
Proof.
  intros Q L B N. revert qs Q. induction fuel as [|fuel IH]; intros qs Q; [done|]. cbn [send_retry].
  destruct (sbi_ipiSend_spec (bases i) B self i t (qs i) ts Q N) as [[_ ->]|[? _]]; [|lia]. cbn.
  apply IH. by rewrite Z.eqb_refl.
Qed.

(** *** Fences *)

(** Every page of a range that starts at a page is fenced. *)
Lemma sfence_loop_covers fuel at_ i info :
  0 <= i -> i mod PAGE_SIZE = 0 -> 0 <= start info -> start info mod PAGE_SIZE = 0 -> size info <= 2 ^ 64 - PAGE_SIZE -> start info + size info <= 2 ^ 64 ->
  (Z.to_nat ((size info - i + PAGE_SIZE - 1) / PAGE_SIZE) < fuel)%nat ->
  exists l, sfence_loop fuel at_ i info = Some l /\ forall x, start info + i <= x < start info + size info -> at_ (x / PAGE_SIZE * PAGE_SIZE) ∈ l.
Proof.
  unfold PAGE_SIZE. revert i. induction fuel as [|fuel IH]; intros i I Im S Sm Sz Se K; [lia|]. cbn [sfence_loop].
  destruct (Z.ltb_spec i (size info)) as [Lt|Ge]; [|exists []; split; [done|lia]].
  unfold w64, PAGE_SIZE. rewrite (Z.mod_small (i + _)) by lia. destruct (IH (i + 0x1000)) as (l & -> & C); [lia|modlia|done|done|done|done| |].
  { replace (size info - (i + 0x1000) + 0x1000 - 1) with (size info - i + 0x1000 - 1 + (-1) * 0x1000) by lia. rewrite Z.div_add by lia.
    assert (1 <= (size info - i + 0x1000 - 1) / 0x1000) by (apply Z.div_le_lower_bound; lia). lia. }
  cbn [mbind option_bind]. eexists. split; [done|]. intros x X. rewrite (Z.mod_small (start info + i)) by lia.
  destruct (Z.lt_ge_cases x (start info + i + 0x1000)).
  - replace (x / 0x1000 * 0x1000) with (start info + i) by modlia. by left.
  - right. apply C. lia.
Qed.

(** A range that does not start at a page: its second page is left out. *)
Lemma unaligned_missed : ecall_rfence_sfenceVmaHandler 8 (mk_info 0x1ff8 0x10 0) = Some [FenceAt 0x1ff8].
Proof. reflexivity. Qed.

(** Hart 0 asks hart 1 to fence two ranges, one after the other.  Both calls return;
    when hart 1 takes the interrupt, the record of the first is overwritten by that of
    the second, which is fenced twice. *)
Lemma fence_lost :
  let bases i := 0x10000 + i * 0x1000 in
  let call a0 a2 a3 := ecall_rfence_handler bases (fun _ qs => qs) 8 2 3 0 0x7f00 0x90 0x100 0x110 a0 0 a2 a3 0 RFENCE_SFENCE_VMA in
  ('(r1, _, frames, qs) ← call 2 0x1000 0x1000 (fun _ => mk_info 0 0 0) (fun i => sbi_ipiInit (bases i));
   '(r2, _, frames, qs) ← call 2 0x8000 0x1000 frames qs;
   '(ts, _) ← sbi_ipiHandler (bases 1) (qs 1);
   Some (r1, r2, run_tasks 8 0x90 0x100 0x110 frames ts)) =
  Some (SBI_SUCCESS, SBI_SUCCESS, [Some [FenceAt 0x8000]; Some [FenceAt 0x8000]]).
Proof. vm_compute. reflexivity. Qed.
