(* ===== verification/SbiExc.v ===== *)
(** * Traps of the RISC-V firmware (src/riscv-sbi/core: exceptions.c, csr.c, interrupts.c, sbi.c, ecall_base.c, ecall_time.c; devices/clint.c)

    Traps from the payload that come to machine mode: illegal instructions, of which
    reads of counters are emulated and others handed to the payload; the timer and the
    interrupts of other harts; calls.  Registers of a hart are those the firmware uses,
    with the registers of its timer. *)

From S2P Require Import Prelude Mem SbiHsm SbiIpi.

(** ** src/riscv-sbi/include/csr.h *)

Definition CSR_FFLAGS := 0x001.
Definition CSR_FRM := 0x002.
Definition CSR_FCSR := 0x003.
Definition CSR_CYCLE := 0xc00.
Definition CSR_TIME := 0xc01.
Definition CSR_INSTRET := 0xc02.
Definition MSTATUS_MPP_SHIFT := 11.
Definition MSTATUS_SIE := Z.shiftl 1 1.
Definition MSTATUS_SPIE := Z.shiftl 1 5.
Definition MSTATUS_SPP := Z.shiftl 1 8.
Definition MSTATUS_MPP := Z.shiftl 3 MSTATUS_MPP_SHIFT.
Definition PRV_U := 0.
Definition PRV_S := 1.
Definition PRV_M := 3.
Definition IRQ_M_SOFT := 3.
Definition IRQ_S_TIMER := 5.
Definition IRQ_M_TIMER := 7.
Definition MIP_STIP := Z.shiftl 1 IRQ_S_TIMER.
Definition MIP_MTIP := Z.shiftl 1 IRQ_M_TIMER.
Definition MCAUSE_ILLEGAL := 2.

(** ** State *)

(** The registers of the interrupted program: x1 to x31 in order, and the cause. *)
Record exc_context_t := mk_ctx { xs : list Z; mstatus : Z; mepc : Z; mcause : Z; mtval : Z }.

Definition set_xs (v : list Z) (c : exc_context_t) := mk_ctx v (mstatus c) (mepc c) (mcause c) (mtval c).
Definition set_mstatus (v : Z) (c : exc_context_t) := mk_ctx (xs c) v (mepc c) (mcause c) (mtval c).
Definition set_mepc (v : Z) (c : exc_context_t) := mk_ctx (xs c) (mstatus c) v (mcause c) (mtval c).

(** Registers of the payload for traps, and counters. *)
Record csrs := mk_csrs { sepc : Z; scause : Z; stval : Z; stvec : Z; mcycle : Z; minstret : Z; mtime : Z }.

Definition set_trap (epc cause tval : Z) (c : csrs) := mk_csrs epc cause tval (stvec c) (mcycle c) (minstret c) (mtime c).

(** The timer of a hart: interrupts that are enabled and pending, and the time to
    interrupt at. *)
Record timer := mk_timer { mie : Z; mip : Z; mtimecmp : Z }.

(** [csr_set], [csr_clear] *)
Definition csr_set (v m : Z) : Z := Z.lor v m.
Definition csr_clear (v m : Z) : Z := Z.ldiff v m.

(** How a handler ends: the program goes on, or the hart is halted by
    [exceptions_defaultHandler]. *)
Inductive outcome := Resume (ctx : exc_context_t) (c : csrs) | Halt.

(** ** csr.c *)

(** [None] for -1. *)
Definition csr_emulateRead (csr : Z) (c : csrs) : option Z :=
  if csr =? CSR_TIME then Some (mtime c)
  else if csr =? CSR_INSTRET then Some (minstret c)
  else if csr =? CSR_CYCLE then Some (mcycle c)
  else None.

Definition csr_emulateWrite (csr val : Z) : Z := -1.

(** ** exceptions.c *)

Definition prev_mode (ctx : exc_context_t) : Z := Z.shiftr (Z.land (mstatus ctx) MSTATUS_MPP) MSTATUS_MPP_SHIFT.

Definition exceptions_redirect (insn : Z) (ctx : exc_context_t) (c : csrs) : exc_context_t * csrs :=
  let prevMode := prev_mode ctx in
  let m := mstatus ctx in
  let c := set_trap (mepc ctx) (mcause ctx) insn c in
  let m := Z.ldiff m (Z.lor (Z.lor MSTATUS_MPP MSTATUS_SPP) MSTATUS_SPIE) in
  let m := Z.lor m (Z.shiftl PRV_S MSTATUS_MPP_SHIFT) in
  let m := if prevMode =? PRV_S then Z.lor m MSTATUS_SPP else m in
  let m := if negb (Z.land (mstatus ctx) MSTATUS_SIE =? 0) then Z.lor m MSTATUS_SPIE else m in
  let m := Z.ldiff m MSTATUS_SIE in
  (set_mstatus m (set_mepc (stvec c) ctx), c).

Definition exceptions_getRegval (regNum : Z) (ctx : exc_context_t) : Z :=
  if regNum =? 0 then 0 else nth (Z.to_nat (regNum - 1)) (xs ctx) 0.

Definition exceptions_setRegval (regNum regVal : Z) (ctx : exc_context_t) : exc_context_t :=
  if negb (regNum =? 0) then set_xs (<[Z.to_nat (regNum - 1) := regVal]> (xs ctx)) ctx else ctx.

(** The new value of the register and whether it is written; [None] for a function
    that is none of those of registers. *)
Definition csr_op (funct3 csrVal rs1 rs1Val : Z) : option (Z * Z) :=
  match funct3 with
  | 1 => Some (rs1Val, 1)
  | 2 => Some (Z.lor csrVal rs1Val, rs1)
  | 3 => Some (Z.ldiff csrVal rs1Val, rs1)
  | 5 => Some (rs1, 1)
  | 6 => Some (Z.lor csrVal rs1, rs1)
  | 7 => Some (Z.ldiff csrVal rs1, rs1)
  | _ => None
  end.

(** [None]: the instruction is left to the payload. *)
Definition exceptions_illSystem (ctx : exc_context_t) (c : csrs) : option outcome :=
  let insn := mtval ctx in
  let csr := Z.land (Z.shiftr insn 20) 0xfff in
  let rs1 := Z.land (Z.shiftr insn 15) 0x1f in
  let rd := Z.land (Z.shiftr insn 7) 0x1f in
  if prev_mode ctx =? PRV_M then Some Halt
  else if (csr =? CSR_FFLAGS) || (csr =? CSR_FRM) || (csr =? CSR_FCSR) then None
  else
    match csr_emulateRead csr c with
    | None => Some Halt
    | Some csrVal =>
        match csr_op (Z.land (Z.shiftr insn 12) 0x7) csrVal rs1 (exceptions_getRegval rs1 ctx) with
        | None => Some Halt
        | Some (newCsrVal, write) =>
            if negb (write =? 0) && (csr_emulateWrite csr newCsrVal <? 0) then Some Halt
            else
              let ctx := exceptions_setRegval rd csrVal ctx in
              Some (Resume (set_mepc (w64 (mepc ctx + 4)) ctx) c)
        end
    end.

Section exceptions.
  (* a load of 16 bits as the interrupted program would load them: [MPRV_LOAD] *)
  Context (lhu : Z -> Z).

(** The instruction itself, where the hart does not tell it. *)
Definition fetch_insn (ctx : exc_context_t) : Z :=
  let insn := lhu (mepc ctx) in
  if Z.land insn 3 =? 3 then Z.lor (w64 (Z.shiftl (lhu (w64 (mepc ctx + 2))) 16)) insn else insn.

Definition exceptions_illegalHandler (ctx : exc_context_t) (c : csrs) : outcome :=
  let insn := mtval ctx in
  match (if (Z.land insn 3 =? 3) && (Z.shiftr (Z.land insn 0x7c) 2 =? 0x1c) then exceptions_illSystem ctx c else None) with
  | Some r => r
  | None =>
      if prev_mode ctx =? PRV_M then Halt
      else
        let insn := if insn =? 0 then fetch_insn ctx else insn in
        let '(ctx, c) := exceptions_redirect insn ctx c in Resume ctx c
  end.

Definition exceptions_dispatch (n : Z) (ctx : exc_context_t) (c : csrs) : outcome :=
  if n =? MCAUSE_ILLEGAL then exceptions_illegalHandler ctx c else Halt.
End exceptions.

(** ** devices/clint.c, interrupts.c *)

Definition clint_setTimecmp (time : Z) (t : timer) : timer :=
  mk_timer (csr_set (mie t) MIP_MTIP) (csr_clear (mip t) MIP_STIP) time.

Definition clint_timerIrqHandler (t : timer) : timer :=
  mk_timer (csr_clear (mie t) MIP_MTIP) (csr_set (mip t) MIP_STIP) (mtimecmp t).

(** The tasks that were run, the timer and the queue of the hart. *)
Definition interrupts_dispatch (base irq : Z) (t : timer) (q : ipi_queue) : option (list ipi_task_t * timer * ipi_queue) :=
  if irq =? IRQ_M_SOFT then '(ts, q) ← sbi_ipiHandler base q; Some (ts, t, q)
  else if irq =? IRQ_M_TIMER then Some ([], clint_timerIrqHandler t, q)
  else Some ([], t, q).

(** ** Calls *)

Record sbiret_t := mk_ret { error : Z; value : Z }.

(** An extension: its number, and its handler of six arguments and a function. *)
Record sbi_ext_t (S : Type) := mk_ext { eid : Z; handler : list Z -> Z -> S -> sbiret_t * S }.
Arguments mk_ext {S}.
Arguments eid {S}.
Arguments handler {S}.

Fixpoint sbi_dispatchEcall {S : Type} (exts : list (sbi_ext_t S)) (args : list Z) (fid eid' : Z) (s : S) : sbiret_t * S :=
  match exts with
  | [] => (mk_ret SBI_ERR_NOT_SUPPORTED 0, s)
  | ext :: exts => if eid ext =? eid' then handler ext args fid s else sbi_dispatchEcall exts args fid eid' s
  end.

Definition PHOENIX_SBI_ID := 10.
Definition PHOENIX_SBI_VERSION := 1.
Definition SBI_VERSION_MAJOR := 2.
Definition SBI_VERSION_MINOR := 0.
Definition SBI_VERSION (major minor : Z) : Z := Z.lor (Z.shiftl (Z.land major 0x7f) 24) (Z.land minor 0xffffff).
Definition SBI_EXT_BASE := 0x10.
Definition SBI_EXT_TIME := 0x54494d45.

Definition ecall_base_probeExt (eids : list Z) (extid : Z) : Z :=
  if bool_decide (extid ∈ eids) then SBI_SUCCESS else SBI_ERR_NOT_SUPPORTED.

(** [eids] are the numbers of the extensions, the rest the identity of the hart. *)
Definition ecall_base_handler (eids : list Z) (mvendorid marchid mimpid a0 fid : Z) : sbiret_t :=
  match fid with
  | 0 => mk_ret SBI_SUCCESS (SBI_VERSION SBI_VERSION_MAJOR SBI_VERSION_MINOR)
  | 1 => mk_ret SBI_SUCCESS PHOENIX_SBI_ID
  | 2 => mk_ret SBI_SUCCESS PHOENIX_SBI_VERSION
  | 3 => mk_ret SBI_SUCCESS (ecall_base_probeExt eids a0)
  | 4 => mk_ret SBI_SUCCESS mvendorid
  | 5 => mk_ret SBI_SUCCESS marchid
  | 6 => mk_ret SBI_SUCCESS mimpid
  | _ => mk_ret SBI_ERR_NOT_SUPPORTED 0
  end.

Definition ecall_time_handler (a0 fid : Z) (t : timer) : sbiret_t * timer :=
  if fid =? 0 then (mk_ret SBI_SUCCESS 0, clint_setTimecmp a0 t) else (mk_ret SBI_ERR_NOT_SUPPORTED 0, t).

(** ** What the instruction set says *)

(** The encoding of the instructions on control registers. *)
Definition csr_insn (csr rs1 funct3 rd : Z) : Z := csr * 2 ^ 20 + rs1 * 2 ^ 15 + funct3 * 2 ^ 12 + rd * 2 ^ 7 + 0x73.

(** The instruction is done: [rd] has the value [v], unless it is x0. *)
Definition executed (rd v : Z) (ctx ctx' : exc_context_t) : Prop :=
  mstatus ctx' = mstatus ctx /\ mepc ctx' = w64 (mepc ctx + 4) /\
  (forall i, 0 <= i < 32 ->
     exceptions_getRegval i ctx' = if (i =? rd) && negb (rd =? 0) then v else exceptions_getRegval i ctx).

(** A trap into supervisor mode, as the hart does for exceptions that are delegated:
    the cause and the instruction are told, interrupts are off and what they and the
    mode were is kept in SPIE and SPP; nothing else changes. *)
Definition strap (insn : Z) (ctx : exc_context_t) (c : csrs) (ctx' : exc_context_t) (c' : csrs) : Prop :=
  c' = set_trap (mepc ctx) (mcause ctx) insn c /\ xs ctx' = xs ctx /\ mepc ctx' = stvec c /\ prev_mode ctx' = PRV_S /\
  Z.testbit (mstatus ctx') 8 = (prev_mode ctx =? PRV_S) /\
  Z.testbit (mstatus ctx') 5 = Z.testbit (mstatus ctx) 1 /\ Z.testbit (mstatus ctx') 1 = false /\
  (forall i, 0 <= i -> i ∉ [1; 5; 8; 11; 12] -> Z.testbit (mstatus ctx') i = Z.testbit (mstatus ctx) i).

(** *** Fields of instructions *)

Lemma field_eq x o n : 0 <= o -> 0 <= n -> Z.land (Z.shiftr x o) (Z.ones n) = x / 2 ^ o mod 2 ^ n.
Proof. intros O N. by rewrite Z.land_ones, Z.shiftr_div_pow2. Qed.

Lemma field_of o n hi v lo x :
  0 < o -> 0 <= lo < o -> 0 <= v < n -> x = (hi * n + v) * o + lo -> x / o mod n = v.
Proof.
  intros O L V ->. replace (((hi * n + v) * o + lo) / o) with (hi * n + v) by (apply (Z.div_unique_pos _ _ _ lo); lia).
  symmetry. apply (Z.mod_unique_pos _ _ hi); lia.
Qed.

Lemma csr_insn_fields csr rs1 funct3 rd :
  0 <= csr < 2 ^ 12 -> 0 <= rs1 < 32 -> 0 <= funct3 < 8 -> 0 <= rd < 32 ->
  let insn := csr_insn csr rs1 funct3 rd in
  Z.land (Z.shiftr insn 20) 0xfff = csr /\ Z.land (Z.shiftr insn 15) 0x1f = rs1 /\ Z.land (Z.shiftr insn 12) 0x7 = funct3 /\
  Z.land (Z.shiftr insn 7) 0x1f = rd /\ Z.land insn 3 = 3 /\ Z.shiftr (Z.land insn 0x7c) 2 = 0x1c.
Proof.
  intros C R F D insn. change 0xfff with (Z.ones 12). change 0x1f with (Z.ones 5).
  change (Z.land (Z.shiftr insn 12) 0x7) with (Z.land (Z.shiftr insn 12) (Z.ones 3)).
  assert (E : insn = csr * 1048576 + rs1 * 32768 + funct3 * 4096 + rd * 128 + 115) by (unfold insn, csr_insn; lia). clearbody insn.
  assert (L : Z.land insn 3 = 3) by (change 3 with (Z.ones 2) at 1; rewrite Z.land_ones by lia; change (2 ^ 2) with 4; modlia).
  assert (M : Z.shiftr (Z.land insn 0x7c) 2 = 0x1c).
  { rewrite Z.shiftr_land. change (Z.shiftr 0x7c 2) with (Z.ones 5). rewrite Z.shiftr_div_pow2, Z.land_ones by lia.
    change (2 ^ 2) with 4. change (2 ^ 5) with 32. modlia. }
  rewrite !field_eq by lia. repeat split; try done.
  - apply (field_of _ _ 0 csr (rs1 * 32768 + funct3 * 4096 + rd * 128 + 115)); lia.
  - apply (field_of _ _ csr rs1 (funct3 * 4096 + rd * 128 + 115)); lia.
  - apply (field_of _ _ (csr * 32 + rs1) funct3 (rd * 128 + 115)); lia.
  - apply (field_of _ _ (csr * 256 + rs1 * 8 + funct3) rd 115); lia.
Qed.

Lemma csr_emulateRead_range csr c v :
  csr_emulateRead csr c = Some v -> 0 <= csr < 2 ^ 12 /\ (csr =? CSR_FFLAGS) || (csr =? CSR_FRM) || (csr =? CSR_FCSR) = false.
Proof.
  unfold csr_emulateRead, CSR_TIME, CSR_INSTRET, CSR_CYCLE, CSR_FFLAGS, CSR_FRM, CSR_FCSR. cases_ifs; intros; simplify_eq; lia.
Qed.

Lemma setRegval_executed rd v ctx :
  length (xs ctx) = 31%nat -> 0 <= rd < 32 ->
  let ctx' := exceptions_setRegval rd v ctx in executed rd v ctx (set_mepc (w64 (mepc ctx' + 4)) ctx').
Proof.
  intros L R. unfold exceptions_setRegval, executed, exceptions_getRegval. destruct (Z.eqb_spec rd 0) as [-> |N]; cbn.
  - split; [done|]. split; [done|]. intros i I. by rewrite andb_false_r.
  - split; [done|]. split; [done|]. intros i I. rewrite andb_true_r. rewrite !nth_lookup.
    destruct (Z.eqb_spec i rd) as [-> |Ne].
    + destruct (Z.eqb_spec rd 0); [lia|]. rewrite list_lookup_insert_eq by lia. done.
    + destruct (Z.eqb_spec i 0); [done|]. rewrite list_lookup_insert_ne by lia. done.
Qed.

(** *** Bits of the status register *)

Lemma prev_mode_bits ctx m : (forall i, 0 <= i < 2 -> Z.testbit (mstatus ctx) (11 + i) = Z.testbit m i) -> 0 <= m < 4 -> prev_mode ctx = m.
Proof.
  intros B M. apply Z.bits_inj'. intros i I. unfold prev_mode, MSTATUS_MPP, MSTATUS_MPP_SHIFT.
  rewrite Z.shiftr_spec, Z.land_spec, Z.shiftl_spec by lia. replace (i + 11 - 11) with i by lia.
  replace (i + 11) with (11 + i) by lia. change 3 with (Z.ones 2). destruct (Z.lt_ge_cases i 2).
  - rewrite Z.ones_spec_low by lia. rewrite andb_true_r. apply B. lia.
  - rewrite Z.ones_spec_high by lia. rewrite andb_false_r. destruct (decide (m = 0)) as [-> |]; [by rewrite Z.bits_0|].
    rewrite Z.bits_above_log2; [done|lia|]. apply (Z.lt_le_trans _ 2); [|done]. apply Z.log2_lt_pow2; lia.
Qed.

(** The status register after [exceptions_redirect], bit by bit. *)
Lemma redirect_bits insn ctx c i :
  0 <= i ->
  Z.testbit (mstatus (exceptions_redirect insn ctx c).1) i =
    if i =? 1 then false else if i =? 5 then Z.testbit (mstatus ctx) 1 else if i =? 8 then prev_mode ctx =? PRV_S
    else if i =? 11 then true else if i =? 12 then false else Z.testbit (mstatus ctx) i.
Proof.
  intros I. unfold exceptions_redirect, MSTATUS_MPP, MSTATUS_SPP, MSTATUS_SPIE, MSTATUS_SIE, MSTATUS_MPP_SHIFT, PRV_S. cbn [fst mstatus set_mstatus].
  rewrite (land_flag (mstatus ctx) 1) by lia.
  assert (P : forall k, 0 <= k -> Z.testbit (Z.shiftl 1 k) i = (i =? k)).
  { intros k K. rewrite Z.shiftl_1_l, Z.pow2_bits_eqb by done. by rewrite Z.eqb_sym. }
  assert (T : Z.testbit (Z.shiftl 3 11) i = (i =? 11) || (i =? 12)).
  { change (Z.shiftl 3 11) with (Z.lor (Z.shiftl 1 11) (Z.shiftl 1 12)). by rewrite Z.lor_spec, !P by lia. }
  destruct (prev_mode ctx =? 1), (Z.testbit (mstatus ctx) 1) eqn:E1;
    rewrite !Z.ldiff_spec, !Z.lor_spec, ?Z.ldiff_spec, ?Z.lor_spec, T, !P by lia;
    repeat match goal with |- context [i =? ?k] => destruct (Z.eqb_spec i k); [subst|] end; cbn [Z.eqb Pos.eqb]; rewrite ?E1; try lia; btauto.
Qed.

Lemma redirect_strap insn ctx c : let r := exceptions_redirect insn ctx c in strap insn ctx c r.1 r.2.
Proof.
  pose proof (redirect_bits insn ctx c) as B. unfold strap.
  split; [done|]. split; [done|]. split; [done|].
  split. { apply prev_mode_bits; [|by unfold PRV_S]. intros i I. rewrite B by lia. assert (i = 0 \/ i = 1) as [-> | ->] by lia; done. }
  split; [by rewrite B|]. split; [by rewrite B|]. split; [by rewrite B|].
  intros i I N. rewrite B by done.
  repeat match goal with |- context [i =? ?k] => destruct (Z.eqb_spec i k); [subst; set_solver|] end. done.
Qed.

(** *** The dispatcher *)

Lemma system_opcode insn :
  (Z.land insn 3 =? 3) && (Z.shiftr (Z.land insn 0x7c) 2 =? 0x1c) = (Z.land insn 0x7f =? 0x73).
Proof.
  rewrite Z.shiftr_land. change (Z.shiftr 0x7c 2) with (Z.ones 5). change (Z.land insn 3) with (Z.land insn (Z.ones 2)).
  change 0x7f with (Z.ones 7). rewrite Z.shiftr_div_pow2, !Z.land_ones by lia. change (2 ^ 2) with 4. change (2 ^ 5) with 32. change (2 ^ 7) with 128.
  assert (0 <= insn mod 4 < 4 /\ 0 <= insn mod 128 < 128) by modlia.
  destruct (Z.eqb_spec (insn mod 4) 3), (Z.eqb_spec (insn / 4 mod 32) 0x1c), (Z.eqb_spec (insn mod 128) 0x73); cbn; try done; exfalso; modlia.
Qed.

Lemma illSystem_read csr funct3 rd v ctx c :
  prev_mode ctx <> PRV_M -> length (xs ctx) = 31%nat -> csr_emulateRead csr c = Some v -> funct3 ∈ [2; 3; 6; 7] -> 0 <= rd < 32 ->
  mtval ctx = csr_insn csr 0 funct3 rd ->
  exists ctx', exceptions_illSystem ctx c = Some (Resume ctx' c) /\ executed rd v ctx ctx'.
Proof.
  intros M L R F D I. destruct (csr_emulateRead_range csr c v R) as [C Fp].
    assert (F3 : funct3 = 2 \/ funct3 = 3 \/ funct3 = 6 \/ funct3 = 7) by set_solver.
  destruct (csr_insn_fields csr 0 funct3 rd) as (E1 & E2 & E3 & E4 & _); [done|lia|lia|done|].
  unfold exceptions_illSystem. rewrite I, E1, E2, E3, E4, (proj2 (Z.eqb_neq _ _) M), Fp, R.
  exists (let ctx' := exceptions_setRegval rd v ctx in set_mepc (w64 (mepc ctx' + 4)) ctx'). split; [|by apply setRegval_executed].
  destruct F3 as [-> |[-> |[-> | ->]]]; done.
Qed.

Lemma csr_insn_opcode csr rs1 funct3 rd : (Z.land (csr_insn csr rs1 funct3 rd) 0x7f =? 0x73) = true.
Proof.
  apply Z.eqb_eq. change 0x7f with (Z.ones 7). rewrite Z.land_ones by lia. unfold csr_insn.
  symmetry. apply (Z.mod_unique_pos _ _ (csr * 2 ^ 13 + rs1 * 2 ^ 8 + funct3 * 2 ^ 5 + rd)); lia.
Qed.


(** A read of the time into x10 by the payload, at 0x800. *)
Definition rdtime : exc_context_t := mk_ctx (replicate 31 0) (Z.shiftl PRV_S MSTATUS_MPP_SHIFT) 0x800 MCAUSE_ILLEGAL 0xc0102573.
Definition counters : csrs := mk_csrs 0 0 0 0x900 7 8 1234.


(** *** What stops the hart *)

(** Any other instruction on control registers halts the hart, also in a program in
    user mode: a return from a trap, and a read of a register there is not. *)
Lemma user_halts lhu c :
  let user insn := mk_ctx (replicate 31 0) 0 0x800 MCAUSE_ILLEGAL insn in
  exceptions_dispatch lhu MCAUSE_ILLEGAL (user 0x30200073) c = Halt /\
  exceptions_dispatch lhu MCAUSE_ILLEGAL (user (csr_insn 0x300 0 2 5)) c = Halt.
Proof. done. Qed.

(** ** The timer *)

(** Time passes to [now]; the interrupt is taken when it is pending and enabled. *)
Definition tick (now : Z) (t : timer) : timer :=
  if Z.testbit (mie t) IRQ_M_TIMER && (mtimecmp t <=? now) then clint_timerIrqHandler t else t.

Definition pending (t : timer) : bool := Z.testbit (mip t) IRQ_S_TIMER.

Lemma handler_bits t : pending (clint_timerIrqHandler t) = true /\ Z.testbit (mie (clint_timerIrqHandler t)) IRQ_M_TIMER = false.
Proof.
  unfold pending, clint_timerIrqHandler, csr_set, csr_clear, MIP_STIP, MIP_MTIP, IRQ_S_TIMER, IRQ_M_TIMER. cbn [mip mie].
  rewrite Z.lor_spec, Z.ldiff_spec. by rewrite orb_true_r, andb_false_r.
Qed.

Lemma tick_done times t : Z.testbit (mie t) IRQ_M_TIMER = false -> fold_left (fun t now => tick now t) times t = t.
Proof. intros E. induction times as [|x times IH]; [done|]. cbn. unfold tick at 2. by rewrite E. Qed.

(** After the payload set its timer, its interrupt is pending as soon as the time has
    come, and not before; the interrupt of the firmware is taken once. *)
Lemma ecall_time_fires a0 times t :
  pending (fold_left (fun t now => tick now t) times (ecall_time_handler a0 0 t).2) = existsb (fun now => a0 <=? now) times.
Proof.
  set (t0 := (ecall_time_handler a0 0 t).2).
  assert (P0 : pending t0 = false).
  { unfold t0, pending, ecall_time_handler, clint_setTimecmp, csr_clear, MIP_STIP, IRQ_S_TIMER. cbn [snd mip Z.eqb].
    rewrite Z.ldiff_spec. by rewrite andb_false_r. }
  assert (E0 : Z.testbit (mie t0) IRQ_M_TIMER = true).
  { unfold t0, ecall_time_handler, clint_setTimecmp, csr_set, MIP_MTIP, IRQ_M_TIMER. cbn [snd mie Z.eqb]. rewrite Z.lor_spec. by rewrite orb_true_r. }
  assert (C0 : mtimecmp t0 = a0) by done. clearbody t0.
  induction times as [|now times IH]; [done|]. cbn [fold_left existsb]. unfold tick at 2. rewrite E0, C0. cbn [andb].
  destruct (a0 <=? now); cbn [orb]; [|done]. destruct (handler_bits t0) as [P E]. by rewrite tick_done.
Qed.

(** ** Calls *)

(** Probing answers 0, "not available", for an extension that is there, and a value that
    is not 0 for one that is not. *)
Lemma probe_inverted eids a b c x :
  value (ecall_base_handler eids a b c x 3) = 0 <-> x ∈ eids.
Proof. cbn. unfold ecall_base_probeExt. by case_bool_decide. Qed.

(** A call goes to the first extension of its number. *)
Lemma sbi_dispatchEcall_finds {S} (exts : list (sbi_ext_t S)) args fid n s :
  sbi_dispatchEcall exts args fid n s =
    match list_find (fun e => eid e = n) exts with
    | Some (_, e) => handler e args fid s
    | None => (mk_ret SBI_ERR_NOT_SUPPORTED 0, s)
    end.
Proof.
  induction exts as [|e exts IH]; [done|]. cbn [sbi_dispatchEcall list_find]. destruct (Z.eqb_spec (eid e) n).
  - by rewrite decide_True.
  - rewrite decide_False by done. rewrite IH. by destruct (list_find _ exts) as [[??]|].
Qed.
