(* ===== verification/Uart.v ===== *)
(** * Serial port 16550 (src/devices/uart-16550/uart-16550.c, uart-16550.h)

    The driver keeps received bytes and bytes to send in two rings that it shares with
    its interrupt handler.  The registers of the chip are the class [Uarthw] (as in
    uarthw.h), [Uart16550] states what they do.  While the driver waits, the chip goes
    on and the handler may run: this is [elapse], of which the theorems only assume
    that it is made of such steps.  [None] is an access outside a ring, or no result
    within the fuel. *)

From S2P Require Import Prelude Mem Devs Rtt.

(** ** src/devices/uart-16550/uart-16550.h *)

Definition SIZE_RX := 0x800.
Definition SIZE_TX := 0x800.
Definition rbr := 0.
Definition thr := 0.
Definition dll := 0.
Definition ier := 1.
Definition dlm := 1.
Definition iir := 2.
Definition fcr := 2.
Definition lcr := 3.
Definition mcr := 4.
Definition lsr := 5.
Definition bps_115200 := 20.
Definition bps_460800 := 22.

Record baud_t := mk_baud { speed : Z; divisor : Z; mode : Z }.

Definition bauds : list baud_t :=
  [mk_baud 50 2304 0; mk_baud 75 1536 0; mk_baud 110 1047 0; mk_baud 135 857 0; mk_baud 150 768 0;
   mk_baud 300 384 0; mk_baud 600 192 0; mk_baud 1200 96 0; mk_baud 1800 64 0; mk_baud 2000 58 0;
   mk_baud 2400 48 0; mk_baud 3600 32 0; mk_baud 4800 24 0; mk_baud 7200 16 0; mk_baud 9600 12 0;
   mk_baud 19200 6 0; mk_baud 28800 4 0; mk_baud 31250 4 1; mk_baud 38400 3 0; mk_baud 57600 2 0;
   mk_baud 115200 1 0; mk_baud 230400 32770 2; mk_baud 460800 32769 2; mk_baud 921600 49153 6; mk_baud 1500000 8193 8].

(** ** State *)

Record uart_t := mk_uart {
  active : bool; rx : list Z; rh : Z; rt : Z; tx : list Z; th : Z; tt : Z; tf : bool
}.

Definition set_active (b : bool) (u : uart_t) := mk_uart b (rx u) (rh u) (rt u) (tx u) (th u) (tt u) (tf u).
Definition set_rx (l : list Z) (h t : Z) (u : uart_t) := mk_uart (active u) l h t (tx u) (th u) (tt u) (tf u).
Definition set_tx (l : list Z) (h t : Z) (f : bool) (u : uart_t) := mk_uart (active u) (rx u) (rh u) (rt u) l h t f.

(** uarthw.h, the clock and the interrupt controller. *)
Class Uarthw (W : Type) := {
  uarthw_read : Z -> W -> Z * W;
  uarthw_write : Z -> Z -> W -> W;
  uarthw_init : Z -> Z -> W -> Z * Z * W;
  uarthw_getDivisor : baud_t -> W -> Z;
  hal_timerGet : W -> Z * W;
  hal_interruptsSet : bool -> W -> W
}.

Section uart.
  Context {W : Type} `{Uarthw W}.

(** ** The interrupt handler *)

(** A byte into the receive ring; the oldest makes room. *)
Definition rx_put (c : Z) (u : uart_t) : option uart_t :=
  rx' ← mstore (rx u) (rh u) [c];
  let rh' := (rh u + 1) mod SIZE_RX in
  Some (set_rx rx' rh' (if rh' =? rt u then (rt u + 1) mod SIZE_RX else rt u) u).

Fixpoint rx_loop (fuel : nat) (u : uart_t) (w : W) : option (uart_t * W) :=
  match fuel with
  | O => None
  | S fuel =>
      let '(v, w) := uarthw_read lsr w in
      if Z.land v 0x01 =? 0 then Some (u, w)
      else let '(c, w) := uarthw_read rbr w in u ← rx_put c u; rx_loop fuel u w
  end.

Definition tx_next (u : uart_t) (w : W) : option (uart_t * W) :=
  let th' := (th u + 1) mod SIZE_TX in
  let u := set_tx (tx u) th' (tt u) false u in
  if negb (th' =? tt u) then c ← mbytes (tx u) th' 1; Some (u, uarthw_write thr (deref c) w)
  else Some (u, uarthw_write ier 0x01 w).

Fixpoint uart_isr (fuel : nat) (u : uart_t) (w : W) : option (uart_t * W) :=
  match fuel with
  | O => None
  | S fuel =>
      let '(isr, w) := uarthw_read iir w in
      if negb (Z.land isr 0x01 =? 0) then Some (u, w)
      else
        '(u, w) ← (if negb (Z.land isr 0x04 =? 0) then rx_loop fuel u w else Some (u, w));
        '(u, w) ← (if negb (Z.land isr 0x02 =? 0) then tx_next u w else Some (u, w));
        uart_isr fuel u w
  end.

(** ** The device *)

Context (elapse : uart_t -> W -> uart_t * W).

(** Reads while interrupts are disabled: at most [len] bytes, in one or two parts. *)
Definition read_ring (len : Z) (u : uart_t) : option (Z * list Z * uart_t) :=
  let l := if rt u <? rh u then Z.min (rh u - rt u) len else Z.min (SIZE_RX - rt u) len in
  a ← mbytes (rx u) (rt u) l;
  let two := (l <? len) && (rh u <? rt u) in
  b ← (if two then mbytes (rx u) 0 (Z.min (len - l) (rh u)) else Some []);
  let l := if two then l + Z.min (len - l) (rh u) else l in
  Some (l, a ++ b, set_rx (rx u) (rh u) ((rt u + l) mod SIZE_RX) u).

(** Waits for a byte: [false] when the time is over. *)
Fixpoint rx_wait (fuel : nat) (start timeout : Z) (u : uart_t) (w : W) : option (bool * uart_t * W) :=
  if rh u =? rt u then
    match fuel with
    | O => None
    | S fuel =>
        let '(t, w) := hal_timerGet w in
        if timeout <=? t - start then Some (false, u, w) else let '(u, w) := elapse u w in rx_wait fuel start timeout u w
    end
  else Some (true, u, w).

Definition uart_read (fuel : nat) (len timeout : Z) (u : uart_t) (w : W) : option (Z * list Z * uart_t * W) :=
  if negb (active u) then Some (- EINVAL, [], u, w)
  else if len =? 0 then Some (0, [], u, w)
  else
    let '(start, w) := hal_timerGet w in
    '(ok, u, w) ← rx_wait fuel start timeout u w;
    if negb ok then Some (- ETIME, [], u, w)
    else '(l, bs, u) ← read_ring len u; Some (l, bs, u, w).

(** Waits while [busy]. *)
Fixpoint uart_wait (fuel : nat) (busy : uart_t -> bool) (u : uart_t) (w : W) : option (uart_t * W) :=
  if busy u then
    match fuel with
    | O => None
    | S fuel => let '(u, w) := elapse u w in uart_wait fuel busy u w
    end
  else Some (u, w).

(** Writes while interrupts are disabled. *)
Definition write_ring (buff : list Z) (u : uart_t) (w : W) : option (Z * uart_t * W) :=
  let len := zlen buff in
  let l := if tt u <? th u then Z.min (th u - tt u) len else Z.min (SIZE_TX - tt u) len in
  bs ← mbytes buff 0 l;
  m ← mstore (tx u) (tt u) bs;
  let two := (l <? len) && (th u <=? tt u) in
  let n := if two then Z.min (len - l) (th u) else 0 in
  bs ← mbytes buff l n;
  m ← mstore m 0 bs;
  let l := l + n in
  w ← (if tt u =? th u then c ← mbytes m (th u) 1; Some (uarthw_write ier 0x03 (uarthw_write thr (deref c) w)) else Some w);
  let tt' := (tt u + l) mod SIZE_TX in
  Some (l, set_tx m (th u) tt' (if tt' =? th u then true else tf u) u, w).

Definition uart_write (fuel : nat) (buff : list Z) (u : uart_t) (w : W) : option (Z * uart_t * W) :=
  if negb (active u) then Some (- EINVAL, u, w)
  else if zlen buff =? 0 then Some (0, u, w)
  else '(u, w) ← uart_wait fuel tf u w; write_ring buff u w.

(** [k] bounds the parts. *)
Fixpoint safeWrite_loop (k fuel : nat) (buff : list Z) (l : Z) (u : uart_t) (w : W) : option (Z * uart_t * W) :=
  if zlen buff <=? l then Some (zlen buff, u, w)
  else
    match k with
    | O => None
    | S k =>
        '(res, u, w) ← uart_write fuel (zdrop l buff) u w;
        if res <? 0 then Some (res, u, w) else safeWrite_loop k fuel buff (l + res) u w
    end.

Definition uart_safeWrite (fuel : nat) (buff : list Z) (u : uart_t) (w : W) : option (Z * uart_t * W) :=
  safeWrite_loop (length buff) fuel buff 0 u w.

(** Waits for the transmitter to be empty. *)
Fixpoint temt_wait (fuel : nat) (u : uart_t) (w : W) : option (uart_t * W) :=
  match fuel with
  | O => None
  | S fuel =>
      let '(v, w) := uarthw_read lsr w in
      if Z.land v 0x40 =? 0 then let '(u, w) := elapse u w in temt_wait fuel u w else Some (u, w)
  end.

(** [_uart_sync] *)
Definition uart_drain (fuel : nat) (u : uart_t) (w : W) : option (uart_t * W) :=
  '(u, w) ← uart_wait fuel tf u w;
  '(u, w) ← uart_wait fuel (fun u => negb (tt u =? th u)) u w;
  temt_wait fuel u w.

Definition uart_sync (fuel : nat) (u : uart_t) (w : W) : option (Z * uart_t * W) :=
  if negb (active u) then Some (- EINVAL, u, w)
  else '(u, w) ← uart_drain fuel u w; Some (EOK, u, w).

Definition uart_map (md memmode : Z) (u : uart_t) : Z :=
  if negb (active u) then - EINVAL else if negb (Z.land md memmode =? md) then - EINVAL else dev_isNotMappable.

Definition uart_done (fuel : nat) (u : uart_t) (w : W) : option (Z * uart_t * W) :=
  if negb (active u) then Some (- EINVAL, u, w)
  else
    '(u, w) ← uart_drain fuel u w;
    Some (EOK, u, hal_interruptsSet false (uarthw_write fcr 0x06 (uarthw_write mcr 0x00 (uarthw_write ier 0x00 w)))).

(** [UART_MAX_CNT] is checked by the number of the device. *)
Definition uart_init (minor : Z) (u : uart_t) (w : W) : Z * uart_t * W :=
  let '(err, baud, w) := uarthw_init minor bps_115200 w in
  if err <? 0 then (err, u, w)
  else
    let '(v, w) := uarthw_read iir w in
    if v =? 0xff then (- ENODEV, u, w)
    else
      let u := set_active true u in
      let w := hal_interruptsSet true (uarthw_write ier 0x00 w) in
      let d := uarthw_getDivisor (nth (Z.to_nat baud) bauds (mk_baud 0 0 0)) w in
      if d =? 0 then (- EINVAL, u, w)
      else
        let w := uarthw_write lcr 0x80 w in
        let w := uarthw_write dll (w8 d) w in
        let w := uarthw_write dlm (w8 (Z.shiftr d 8)) w in
        let w := uarthw_write lcr 0x03 w in
        let w := uarthw_write fcr 0xa7 w in
        let w := uarthw_write mcr 0x08 w in
        (EOK, u, uarthw_write ier 0x01 w).

End uart.

(** ** Rings

    [n] slots of a ring of [sz] from slot [h] on. *)

Definition ring (sz h n : Z) (l : list Z) : list Z := (fun i => nth (Z.to_nat ((h + Z.of_nat i) mod sz)) l 0) <$> seq 0 (Z.to_nat n).

Section rings.
  Context (sz : Z) (SZ : 0 < sz).
  Implicit Types l xs : list Z.

Lemma length_ring h n l : 0 <= n -> zlen (ring sz h n l) = n.
Proof. intros. unfold ring. rewrite length_fmap, length_seq. lia. Qed.

Lemma lookup_ring h n l (i : nat) : (i < Z.to_nat n)%nat -> ring sz h n l !! i = Some (nth (Z.to_nat ((h + Z.of_nat i) mod sz)) l 0).
Proof. intros. unfold ring. rewrite list_lookup_fmap, lookup_seq_lt by lia. done. Qed.

Lemma ring_ext h h' n l l' :
  (forall i, 0 <= i < n -> nth (Z.to_nat ((h + i) mod sz)) l 0 = nth (Z.to_nat ((h' + i) mod sz)) l' 0) -> ring sz h n l = ring sz h' n l'.
Proof. intros E. unfold ring. apply list_fmap_ext. intros i x [-> L]%lookup_seq. apply E. lia. Qed.

Lemma ring_mod h n l : ring sz (h mod sz) n l = ring sz h n l.
Proof. apply ring_ext. intros i I. by rewrite Z.add_mod_idemp_l by lia. Qed.

Lemma ring_app h n m l : 0 <= n -> 0 <= m -> ring sz h (n + m) l = ring sz h n l ++ ring sz (h + n) m l.
Proof.
  intros N M. unfold ring. rewrite Z2Nat.inj_add, seq_app, fmap_app by lia. f_equal. cbn [Nat.add].
  rewrite <- (Nat.add_0_r (Z.to_nat n)) at 1. rewrite <- fmap_add_seq, <- list_fmap_compose. apply list_fmap_ext. intros i x _. cbn. do 3 f_equal. lia.
Qed.

(** Slots in one piece. *)
Lemma ring_slice h n l : 0 <= h -> 0 <= n -> h + n <= sz -> zlen l = sz -> zslice h n l = ring sz h n l.
Proof.
  intros. apply list_eq. intros i. rewrite lookup_zslice by lia. destruct (Z.ltb_spec (Z.of_nat i) n).
  - rewrite lookup_ring by lia. rewrite Z.mod_small by lia. rewrite nth_lookup.
    replace (Z.to_nat (h + Z.of_nat i)) with (Z.to_nat h + i)%nat by lia.
    destruct (lookup_lt_is_Some_2 l (Z.to_nat h + i)) as [x E]; [lia|]. by rewrite E.
  - symmetry. apply lookup_ge_None. unfold ring. rewrite length_fmap, length_seq. lia.
Qed.

Lemma nth_splice o xs l j :
  0 <= o -> o + zlen xs <= zlen l -> 0 <= j ->
  nth (Z.to_nat j) (splice o xs l) 0 = if (o <=? j) && (j <? o + zlen xs) then nth (Z.to_nat (j - o)) xs 0 else nth (Z.to_nat j) l 0.
Proof.
  intros. rewrite !nth_lookup, lookup_splice by lia. rewrite Z2Nat.id by lia.
  destruct (Z.ltb_spec j o), (Z.leb_spec o j), (Z.ltb_spec j (o + zlen xs)); cbn [andb]; try lia; try done. do 2 f_equal. lia.
Qed.

(** Slots outside of what is stored. *)
Lemma ring_splice_out h n o xs l :
  0 <= n -> n + zlen xs <= sz -> 0 <= h -> o = (h + n) mod sz -> o + zlen xs <= sz -> zlen l = sz ->
  ring sz h n (splice o xs l) = ring sz h n l.
Proof.
  intros N Nx Hh -> Ox L. pose proof (Z.mod_pos_bound (h + n) sz). apply ring_ext. intros i I.
  pose proof (Z.mod_pos_bound (h + i) sz). rewrite nth_splice by lia.
  destruct (Z.leb_spec ((h + n) mod sz) ((h + i) mod sz)), (Z.ltb_spec ((h + i) mod sz) ((h + n) mod sz + zlen xs)); cbn; try done.
  exfalso. set (d := (h + i) mod sz - (h + n) mod sz) in *.
  assert (E : (n - i + d) mod sz = 0).
  { unfold d. rewrite (Z.mod_eq (h + i)), (Z.mod_eq (h + n)) by lia.
    replace (n - i + _) with ((((h + n) / sz) - ((h + i) / sz)) * sz) by lia. apply Z.mod_mul. lia. }
  rewrite Z.mod_small in E; lia.
Qed.

(** What is stored in free slots, in one piece. *)
Lemma ring_splice_in h o xs l :
  0 <= h -> o = h mod sz -> o + zlen xs <= sz -> zlen l = sz -> ring sz h (zlen xs) (splice o xs l) = xs.
Proof.
  intros Hh -> Ox L. pose proof (Z.mod_pos_bound h sz). rewrite <- ring_mod.
  assert (zlen (splice (h mod sz) xs l) = sz) by (rewrite length_splice; lia).
  rewrite <- ring_slice by lia. by rewrite zslice_splice_same by lia.
Qed.

(** A chunk stored behind [n] slots in use. *)
Lemma ring_put h n o xs l :
  0 <= h -> 0 <= n -> n + zlen xs <= sz -> o = (h + n) mod sz -> o + zlen xs <= sz -> zlen l = sz ->
  ring sz h (n + zlen xs) (splice o xs l) = ring sz h n l ++ xs.
Proof.
  intros. rewrite ring_app by lia. f_equal; [by apply ring_splice_out|by apply ring_splice_in; try lia].
Qed.

Lemma ztake_ring h n m l : 0 <= n <= m -> ztake n (ring sz h m l) = ring sz h n l.
Proof.
  intros. replace m with (n + (m - n)) by lia. rewrite ring_app by lia. pose proof (length_ring h n l ltac:(lia)).
  rewrite take_app_le by lia. apply take_ge. lia.
Qed.

Lemma zdrop_ring h n m l : 0 <= n <= m -> zdrop n (ring sz h m l) = ring sz (h + n) (m - n) l.
Proof.
  intros. replace m with (n + (m - n)) at 1 by lia. rewrite ring_app by lia. pose proof (length_ring h n l ltac:(lia)).
  rewrite drop_app_ge by lia. by replace (Z.to_nat n - length (ring sz h n l))%nat with 0%nat by lia.
Qed.

Lemma ring_length_splice o xs l : 0 <= o -> o + zlen xs <= sz -> zlen l = sz -> zlen (splice o xs l) = sz.
Proof. intros. rewrite length_splice; lia. Qed.
End rings.

(** Distance of two positions. *)
Lemma mod_dist sz h t : 0 < sz -> 0 <= h < sz -> 0 <= t < sz -> (t - h) mod sz = if h <=? t then t - h else t - h + sz.
Proof.
  intros. destruct (Z.leb_spec h t); [by rewrite Z.mod_small by lia|].
  rewrite <- (Z_mod_plus_full (t - h) 1), Z.mod_small by lia. lia.
Qed.

Lemma mod_wrap sz x : 0 < sz -> 0 <= x < 2 * sz -> x mod sz = if x <? sz then x else x - sz.
Proof.
  intros. destruct (Z.ltb_spec x sz); [by rewrite Z.mod_small by lia|].
  rewrite <- (Z_mod_plus_full x (-1)), Z.mod_small by lia. lia.
Qed.

(** ** What the chip does *)

Class Uart16550 (W : Type) `{Uarthw W} := {
  sent : W -> list Z; (* the bytes that were written to be sent *)
  taken : W -> list Z; (* the bytes that were read *)
  thr_empty : W -> bool;
  ier_of : W -> Z;
  dlab : W -> bool;
  hw_step : W -> W -> Prop; (* what the chip does by itself *)
  same (w w' : W) : Prop := sent w' = sent w /\ taken w' = taken w /\ ier_of w' = ier_of w /\ dlab w' = dlab w /\ (thr_empty w = true -> thr_empty w' = true);
  hw_law w w' : hw_step w w' -> same w w';
  time_law w : same w (hal_timerGet w).2;
  lsr_law w : same w (uarthw_read lsr w).2;
  rbr_law w : dlab w = false ->
    let '(c, w') := uarthw_read rbr w in
    sent w' = sent w /\ taken w' = taken w ++ [c] /\ ier_of w' = ier_of w /\ dlab w' = dlab w /\ (thr_empty w = true -> thr_empty w' = true);
  (* an interrupt of the transmitter is told only when it is enabled, and THR is empty *)
  iir_law w :
    let '(v, w') := uarthw_read iir w in
    same w w' /\ (Z.land v 0x01 = 0 -> Z.land v 0x02 <> 0 -> Z.land (ier_of w) 0x04 = 0 -> Z.land (ier_of w) 0x02 <> 0 /\ thr_empty w' = true);
  (* only a byte that finds THR empty is sent *)
  thr_law c w : dlab w = false -> thr_empty w = true ->
    let w' := uarthw_write thr c w in sent w' = sent w ++ [c] /\ taken w' = taken w /\ ier_of w' = ier_of w /\ dlab w' = false;
  ier_law v w : dlab w = false ->
    let w' := uarthw_write ier v w in
    sent w' = sent w /\ taken w' = taken w /\ ier_of w' = v /\ dlab w' = false /\ (thr_empty w = true -> thr_empty w' = true);
  (* configuration *)
  setup_law n b w : same w (uarthw_init n b w).2;
  install_law b w : same w (hal_interruptsSet b w);
  lcr_law v w :
    let w' := uarthw_write lcr v w in
    sent w' = sent w /\ taken w' = taken w /\ ier_of w' = ier_of w /\ dlab w' = Z.testbit v 7 /\ (thr_empty w = true -> thr_empty w' = true);
  divisor_law r v w : r = dll \/ r = dlm -> dlab w = true -> same w (uarthw_write r v w);
  control_law r v w : r = fcr \/ r = mcr -> same w (uarthw_write r v w)
}.

Section spec.
  Context {W : Type} `{Uart16550 W}.

(** The interrupt handler may run whenever the driver waits. *)
Inductive ustep : uart_t * W -> uart_t * W -> Prop :=
| us_hw u w w' : hw_step w w' -> ustep (u, w) (u, w')
| us_irq fuel u w u' w' : uart_isr fuel u w = Some (u', w') -> ustep (u, w) (u', w').

(** *** The transmitter

    [acc] are the bytes the driver took so far: those sent, and those in the ring but
    for the first, which is in the chip. *)

Definition tx_used (u : uart_t) : Z := if tf u then SIZE_TX else (tt u - th u) mod SIZE_TX.
Definition tx_bytes (u : uart_t) : list Z := ring SIZE_TX (th u) (tx_used u) (tx u).

Record tx_ok (acc : list Z) (u : uart_t) (w : W) : Prop := {
  tx_len : zlen (tx u) = SIZE_TX;
  tx_th : 0 <= th u < SIZE_TX;
  tx_tt : 0 <= tt u < SIZE_TX;
  tx_full : tf u = true -> tt u = th u;
  tx_sent : sent w ++ tail (tx_bytes u) = acc;
  tx_idle : tx_used u = 0 -> thr_empty w = true;
  tx_ier : ier_of w = if tx_used u =? 0 then 0x01 else 0x03
}.

(** *** The receiver

    The ring holds the last of the bytes that were not read: [keep]. *)

Definition rx_used (u : uart_t) : Z := (rh u - rt u) mod SIZE_RX.
Definition rx_bytes (u : uart_t) : list Z := ring SIZE_RX (rt u) (rx_used u) (rx u).
Definition keep (l : list Z) : list Z := zdrop (zlen l - (SIZE_RX - 1)) l.

Record rx_ok (u : uart_t) : Prop := {
  rx_len : zlen (rx u) = SIZE_RX;
  rx_rh : 0 <= rh u < SIZE_RX;
  rx_rt : 0 <= rt u < SIZE_RX
}.

Definition ready (acc : list Z) (u : uart_t) (w : W) : Prop :=
  active u = true /\ dlab w = false /\ rx_ok u /\ tx_ok acc u w.

(** From one state to another the bytes [cs] came. *)
Definition came (cs : list Z) (u : uart_t) (w : W) (u' : uart_t) (w' : W) : Prop :=
  taken w' = taken w ++ cs /\ rx_bytes u' = keep (rx_bytes u ++ cs).

Lemma tx_used_range u : 0 <= tx_used u <= SIZE_TX.
Proof. unfold tx_used, SIZE_TX. destruct (tf u); [lia|]. pose proof (Z.mod_pos_bound (tt u - th u) 0x800). lia. Qed.

Lemma rx_used_range u : 0 <= rx_used u < SIZE_RX.
Proof. apply Z.mod_pos_bound. by unfold SIZE_RX. Qed.

Lemma length_tx_bytes u : zlen (tx_bytes u) = tx_used u.
Proof. apply length_ring, tx_used_range. Qed.

Lemma length_rx_bytes u : zlen (rx_bytes u) = rx_used u.
Proof. apply length_ring, rx_used_range. Qed.

Lemma keep_short l : zlen l < SIZE_RX -> keep l = l.
Proof. intros. unfold keep. by replace (Z.to_nat _) with 0%nat by lia. Qed.

Lemma keep_app l cs cs' : keep (keep (l ++ cs) ++ cs') = keep (l ++ cs ++ cs').
Proof.
  rewrite app_assoc. generalize (l ++ cs). intros m. unfold keep, SIZE_RX. rewrite !length_app, length_drop.
  destruct (Z.le_gt_cases (zlen m) (0x800 - 1)).
  - replace (Z.to_nat (zlen m - _)) with 0%nat by lia. rewrite drop_0. f_equal. lia.
  - set (k := Z.to_nat (zlen m - (0x800 - 1))). assert (E : m ++ cs' = take k m ++ drop k m ++ cs') by (by rewrite app_assoc, take_drop).
    rewrite E, (drop_app_ge (take k m)) by (rewrite length_take; lia). f_equal. rewrite length_take. lia.
Qed.

Lemma came_trans cs1 cs2 u1 w1 u2 w2 u3 w3 : came cs1 u1 w1 u2 w2 -> came cs2 u2 w2 u3 w3 -> came (cs1 ++ cs2) u1 w1 u3 w3.
Proof. intros [T1 K1] [T2 K2]. split; [by rewrite T2, T1, app_assoc|]. by rewrite K2, K1, keep_app. Qed.

Lemma came_refl u w w' : taken w' = taken w -> came [] u w u w'.
Proof. intros T. split; [by rewrite app_nil_r|]. rewrite app_nil_r, keep_short; [done|]. rewrite length_rx_bytes. pose proof (rx_used_range u). lia. Qed.

(** *** The handler *)

(** Steps keep the invariants; they take bytes, and send in order. *)
Definition kept (acc : list Z) (u : uart_t) (w : W) (u' : uart_t) (w' : W) : Prop :=
  ready acc u' w' /\ (exists cs, came cs u w u' w') /\ tx_used u' <= tx_used u.

Lemma kept_trans acc u1 w1 u2 w2 u3 w3 : kept acc u1 w1 u2 w2 -> kept acc u2 w2 u3 w3 -> kept acc u1 w1 u3 w3.
Proof. intros (_ & [c1 C1] & L1) (R & [c2 C2] & L2). split; [done|]. split; [|lia]. exists (c1 ++ c2). by eapply came_trans. Qed.

Lemma tx_ok_same acc u w w' : same w w' -> tx_ok acc u w -> tx_ok acc u w'.
Proof. intros (S & T & I & D & E) O. destruct O. constructor; try done; rewrite ?S, ?I, ?D; auto. Qed.

Lemma kept_same acc u w w' : same w w' -> ready acc u w -> kept acc u w u w'.
Proof.
  intros S (A & D & R & T). split; [|split; [exists []; by apply came_refl, S|lia]].
  split; [done|]. split; [destruct S as (_ & _ & _ & -> & _); done|]. split; [done|]. by eapply tx_ok_same.
Qed.

Lemma ring_drop1 sz h n l : 0 < sz -> 0 <= n -> ring sz (h + 1) n l = drop 1 (ring sz h (1 + n) l).
Proof.
  intros. rewrite ring_app by lia. pose proof (length_ring sz h 1 l ltac:(lia)). rewrite drop_app_ge by lia.
  by replace (1 - length (ring sz h 1 l))%nat with 0%nat by lia.
Qed.

Lemma rx_put_spec c u :
  rx_ok u -> exists u', rx_put c u = Some u' /\ rx_ok u' /\ rx_bytes u' = keep (rx_bytes u ++ [c]) /\
    tx u' = tx u /\ th u' = th u /\ tt u' = tt u /\ tf u' = tf u /\ active u' = active u.
Proof.
  intros [L Rh Rt]. unfold rx_put. rewrite mstore_ok by (cbn; lia). cbn [mbind option_bind].
  pose proof (mod_dist SIZE_RX (rt u) (rh u) eq_refl Rt Rh) as D. pose proof (mod_wrap SIZE_RX (rh u + 1) eq_refl) as R1.
  pose proof (length_rx_bytes u) as Lb. pose proof (rx_used_range u) as Ru.
  assert (P : ring SIZE_RX (rt u) (rx_used u + 1) (splice (rh u) [c] (rx u)) = rx_bytes u ++ [c]).
  { apply (ring_put SIZE_RX eq_refl (rt u) (rx_used u) (rh u) [c] (rx u)); cbn [length]; try lia.
    unfold rx_used. rewrite Z.add_mod_idemp_r by done. replace (rt u + (rh u - rt u)) with (rh u) by lia. by rewrite Z.mod_small by lia. }
  assert (Ls : zlen (splice (rh u) [c] (rx u)) = SIZE_RX) by (apply ring_length_splice; cbn; lia).
  eexists. split; [done|]. unfold SIZE_RX in R1. split; [|split; [|done]].
  - constructor; cbn [rx rh rt set_rx]; [done|apply Z.mod_pos_bound; done|]. destruct (_ =? _); [apply Z.mod_pos_bound; done|lia].
  - unfold rx_bytes at 1, rx_used at 1. cbn [rx rh rt set_rx]. unfold rx_used, SIZE_RX in *.
    destruct (Z.eqb_spec ((rh u + 1) mod 0x800) (rt u)) as [F|F].
    + assert (U : (rh u - rt u) mod 0x800 = 0x7ff) by (destruct (Z.ltb_spec (rh u + 1) 0x800), (Z.leb_spec (rt u) (rh u)); lia).
      rewrite Zminus_mod_idemp_r. replace ((rh u + 1) mod 0x800 - (rt u + 1)) with (-1 + ((rh u + 1) mod 0x800 - rt u)) by lia.
      rewrite F, Z.sub_diag. change ((-1 + 0) mod 0x800) with 0x7ff. rewrite ring_mod by done.
      rewrite ring_drop1 by done. rewrite U in P. change (1 + 0x7ff) with (0x7ff + 1). rewrite P.
      unfold keep, SIZE_RX. by replace (zlen (rx_bytes u ++ [c])) with 0x800 by (rewrite length_app; cbn [length]; lia).
    + assert (U : ((rh u + 1) mod 0x800 - rt u) mod 0x800 = (rh u - rt u) mod 0x800 + 1).
      { rewrite (mod_dist 0x800 (rt u) ((rh u + 1) mod 0x800)) by (try done; apply Z.mod_pos_bound; done).
        destruct (Z.ltb_spec (rh u + 1) 0x800), (Z.leb_spec (rt u) (rh u)), (Z.leb_spec (rt u) ((rh u + 1) mod 0x800)); lia. }
      rewrite U, P, keep_short; [done|]. rewrite length_app. unfold SIZE_RX. cbn [length].
      rewrite (mod_dist 0x800 (rt u) ((rh u + 1) mod 0x800)) in U by (try done; apply Z.mod_pos_bound; done).
      destruct (Z.ltb_spec (rh u + 1) 0x800), (Z.leb_spec (rt u) (rh u)), (Z.leb_spec (rt u) ((rh u + 1) mod 0x800)); lia.
Qed.

Lemma tx_ok_ext acc u u' w w' :
  tx u' = tx u -> th u' = th u -> tt u' = tt u -> tf u' = tf u ->
  sent w' = sent w -> ier_of w' = ier_of w -> (thr_empty w = true -> thr_empty w' = true) -> tx_ok acc u w -> tx_ok acc u' w'.
Proof.
  intros E1 E2 E3 E4 S I E O. assert (U : tx_used u' = tx_used u) by (unfold tx_used; by rewrite E2, E3, E4).
  assert (B : tx_bytes u' = tx_bytes u) by (unfold tx_bytes; by rewrite E1, E2, U).
  destruct O. constructor; rewrite ?U, ?B, ?E1, ?E2, ?E3, ?E4, ?S, ?I; auto.
Qed.

Lemma rx_loop_spec fuel acc u w u' w' :
  ready acc u w -> rx_loop fuel u w = Some (u', w') ->
  kept acc u w u' w' /\ tx_used u' = tx_used u /\ (thr_empty w = true -> thr_empty w' = true).
Proof.
  revert u w. induction fuel as [|fuel IH]; intros u w R E; [done|]. cbn [rx_loop] in E.
  pose proof (lsr_law w) as S. destruct (uarthw_read lsr w) as [v w1]. cbn [snd] in S.
  pose proof (kept_same acc u w w1 S R) as K1. assert (E1 : thr_empty w = true -> thr_empty w1 = true) by apply S.
  destruct (_ =? 0); [by injection E as <- <-|]. pose proof K1 as ((A & D & Rx & Tx) & _).
  pose proof (rbr_law w1 D) as Rl. destruct (uarthw_read rbr w1) as [c w2]. destruct Rl as (S2 & T2 & I2 & D2 & E2).
  destruct (rx_put_spec c u Rx) as (u2 & P & Rx2 & B2 & X1 & X2 & X3 & X4 & X5). rewrite P in E. cbn [mbind option_bind] in E.
  assert (Ur : tx_used u2 = tx_used u) by (unfold tx_used; by rewrite X2, X3, X4).
  assert (R2 : ready acc u2 w2) by (split; [congruence|split; [congruence|split; [done|by eapply tx_ok_ext]]]).
  destruct (IH u2 w2 R2 E) as (K & Ur' & E'). split; [|split; [congruence|auto]].
  eapply kept_trans; [exact K1|]. eapply kept_trans; [|exact K]. split; [done|]. split; [|lia]. exists [c]. by split.
Qed.

(** The next byte is sent when the last one has left, in order. *)
Lemma tx_next_spec acc u w :
  ready acc u w -> tx_used u <> 0 -> thr_empty w = true ->
  exists u' w', tx_next u w = Some (u', w') /\ kept acc u w u' w' /\ tx_used u' = tx_used u - 1.
Proof.
  intros (A & D & Rx & [L Hh Ht F S Ei Er]) U Em. unfold tx_next. cbn [tx tt set_tx].
  pose proof (tx_used_range u) as Ru. pose proof (mod_wrap SIZE_TX (th u + 1) eq_refl) as R1.
  pose proof (mod_dist SIZE_TX (th u) (tt u) eq_refl Hh Ht) as Dd.
  set (h' := (th u + 1) mod SIZE_TX) in *. assert (Hh' : 0 <= h' < SIZE_TX) by (apply Z.mod_pos_bound; done).
  pose proof (mod_dist SIZE_TX h' (tt u) eq_refl Hh' Ht) as Dd'.
  set (u' := set_tx (tx u) h' (tt u) false u).
  assert (U' : tx_used u' = tx_used u - 1).
  { unfold tx_used, u', SIZE_TX in *. cbn [tf tt th set_tx]. rewrite Dd'. destruct (tf u) eqn:Ef.
    - rewrite (F eq_refl) in *. destruct (Z.ltb_spec (th u + 1) 0x800), (Z.leb_spec h' (th u)); lia.
    - rewrite Dd in U |- *. destruct (Z.ltb_spec (th u + 1) 0x800), (Z.leb_spec (th u) (tt u)), (Z.leb_spec h' (tt u)); lia. }
  assert (B : tail (tx_bytes u) = tx_bytes u').
  { change (tx_bytes u') with (ring SIZE_TX h' (tx_used u') (tx u)). rewrite U'. unfold tx_bytes, h'. rewrite ring_mod by done. rewrite ring_drop1 by (try done; lia).
    replace (1 + (tx_used u - 1)) with (tx_used u) by lia. by destruct (ring _ _ _ _). }
  rewrite B in S. destruct (Z.eqb_spec h' (tt u)) as [Eq|Ne]; cbn [negb].
  - assert (tx_used u' = 0) by (unfold tx_used, u'; cbn [tf tt th set_tx]; rewrite <- Eq, Z.sub_diag; done).
    destruct (ier_law 0x01 w D) as (Sl & Tl & Il & Dl & El). eexists _, _. split; [done|]. split; [|exact U'].
    split; [|split; [exists []; by apply (came_refl u)|lia]]. split; [done|]. split; [done|]. split; [by destruct Rx|].
    assert (Bn : tx_bytes u' = []) by (apply length_zero_iff_nil; pose proof (length_tx_bytes u'); lia).
    constructor; fold u'; try done.
    + rewrite Sl. rewrite Bn in *. done.
    + auto.
    + rewrite Il. by replace (tx_used u') with 0.
  - rewrite mbytes_ok by (unfold SIZE_TX in *; lia). cbn [mbind option_bind].
    assert (U0 : tx_used u' <> 0).
    { unfold tx_used, u', SIZE_TX in *. cbn [tf tt th set_tx]. rewrite Dd'. destruct (Z.leb_spec h' (tt u)); lia. }
    assert (Hd : exists c l, tx_bytes u' = c :: l /\ zslice h' 1 (tx u) = [c]).
    { pose proof (ring_slice SIZE_TX h' 1 (tx u) ltac:(lia) ltac:(lia) ltac:(lia) L) as Sl.
      exists (nth (Z.to_nat ((h' + 0) mod SIZE_TX)) (tx u) 0), (ring SIZE_TX (h' + 1) (tx_used u' - 1) (tx u)).
      split; [|by rewrite Sl]. unfold tx_bytes. replace (tx_used u') with (1 + (tx_used u' - 1)) at 1 by lia.
      rewrite ring_app by lia. done. }
    destruct Hd as (c & l & Hb & Hs). rewrite Hs. change (deref [c]) with c.
    destruct (thr_law c w D Em) as (Sl & Tl & Il & Dl). eexists _, _. split; [done|]. split; [|exact U'].
    split; [|split; [exists []; by apply (came_refl u)|lia]]. split; [done|]. split; [done|]. split; [by destruct Rx|].
    constructor; fold u'; try done.
    + rewrite Sl. rewrite Hb in *. rewrite <- S. by rewrite <- app_assoc.
    + rewrite Il, Er. destruct (Z.eqb_spec (tx_used u) 0), (Z.eqb_spec (tx_used u') 0); done.
Qed.

Lemma uart_isr_spec fuel acc u w u' w' : ready acc u w -> uart_isr fuel u w = Some (u', w') -> kept acc u w u' w'.
Proof.
  revert u w. induction fuel as [|fuel IH]; intros u w R E; [done|]. cbn [uart_isr] in E.
  pose proof (iir_law w) as Ii. destruct (uarthw_read iir w) as [v w1]. destruct Ii as [S T].
  pose proof (kept_same acc u w w1 S R) as K1. destruct (Z.eqb_spec (Z.land v 0x01) 0) as [V|V]; cbn [negb] in E; [|by injection E as <- <-].
  eapply kept_trans; [exact K1|]. pose proof K1 as (R1 & _).
  destruct (if negb (Z.land v 0x04 =? 0) then _ else _) as [[u2 w2]|] eqn:E2; [|done]. cbn [mbind option_bind] in E.
  assert (K2 : kept acc u w1 u2 w2 /\ tx_used u2 = tx_used u /\ (thr_empty w1 = true -> thr_empty w2 = true)).
  { destruct (negb _); [by apply (rx_loop_spec fuel)|]. injection E2 as <- <-. split; [|done]. by apply kept_same. }
  destruct K2 as (K2 & U2 & Em2). eapply kept_trans; [exact K2|]. pose proof K2 as (R2 & _).
  destruct (Z.eqb_spec (Z.land v 0x02) 0) as [V2|V2]; cbn [negb] in E.
  - cbn [mbind option_bind] in E. by apply IH.
  - pose proof R as (_ & _ & _ & [_ _ _ _ _ _ Er]).
    assert (tx_used u <> 0 /\ thr_empty w1 = true) as [U1 Em1].
    { rewrite Er in T. destruct (Z.eqb_spec (tx_used u) 0); destruct T as [T1 T2]; done. }
    destruct (tx_next_spec acc u2 w2 R2) as (u3 & w3 & E3 & K3 & _); [lia|auto|]. rewrite E3 in E. cbn [mbind option_bind] in E.
    eapply kept_trans; [exact K3|]. destruct K3 as (R3 & _). by apply IH.
Qed.

Lemma steps_kept acc s s' : rtc ustep s s' -> ready acc s.1 s.2 -> kept acc s.1 s.2 s'.1 s'.2.
Proof.
  induction 1 as [[u w]|s1 s2 s3 St _ IH]; intros R.
  - apply kept_same; [|done]. by split.
  - assert (K : kept acc s1.1 s1.2 s2.1 s2.2).
    { destruct St as [u w w' Hs|fuel u w u' w' E]; cbn in *; [by apply kept_same; [apply hw_law|]|by eapply uart_isr_spec]. }
    eapply kept_trans; [exact K|]. apply IH, K.
Qed.

(** *** The start *)

(** A port that was set up is ready; the table of speeds has no divisor of 0. *)
Lemma uart_init_ready minor u w r u' w' :
  dlab w = false -> thr_empty w = true -> tx_used u = 0 -> 0 <= th u < SIZE_TX -> 0 <= tt u < SIZE_TX -> tf u = false ->
  zlen (tx u) = SIZE_TX -> rx_ok u ->
  uart_init minor u w = (r, u', w') -> r = EOK -> ready (sent w) u' w'.
Proof.
  intros D T U Hh Ht F L Rx E ->. unfold uart_init in E. pose proof (setup_law minor bps_115200 w) as S0.
  destruct (uarthw_init minor bps_115200 w) as [[err baud] w0]. cbn [snd] in S0.
  destruct (Z.ltb_spec err 0); [injection E as -> _ _; unfold EOK in *; lia|].
  pose proof (iir_law w0) as Ii. destruct (uarthw_read iir w0) as [v w1]. destruct Ii as [S1 _]. destruct (v =? 0xff); [done|].
  destruct S0 as (A0 & _ & _ & D0 & T0), S1 as (A1 & _ & _ & D1 & T1).
  destruct (ier_law 0x00 w1) as (A2 & _ & _ & D2 & T2); [congruence|]. set (w2 := uarthw_write ier 0x00 w1) in *.
  pose proof (install_law true w2) as (A3 & _ & _ & D3 & T3). set (w3 := hal_interruptsSet true w2) in *.
  destruct (uarthw_getDivisor _ w3 =? 0); [done|]. set (d := uarthw_getDivisor _ w3) in *. cbn zeta in E.
  pose proof (lcr_law 0x80 w3) as (A4 & _ & _ & D4 & T4). set (w4 := uarthw_write lcr 0x80 w3) in *. change (Z.testbit 0x80 7) with true in D4.
  pose proof (divisor_law dll (w8 d) w4 (or_introl eq_refl) D4) as (A5 & _ & _ & D5 & T5). set (w5 := uarthw_write dll (w8 d) w4) in *.
  pose proof (divisor_law dlm (w8 (Z.shiftr d 8)) w5 (or_intror eq_refl) (eq_trans D5 D4)) as (A6 & _ & _ & D6 & T6).
  set (w6 := uarthw_write dlm _ w5) in *. pose proof (lcr_law 0x03 w6) as (A7 & _ & _ & D7 & T7). set (w7 := uarthw_write lcr 0x03 w6) in *.
  pose proof (control_law fcr 0xa7 w7 (or_introl eq_refl)) as (A8 & _ & _ & D8 & T8). set (wf := uarthw_write fcr 0xa7 w7) in *.
  pose proof (control_law mcr 0x08 wf (or_intror eq_refl)) as (A9 & _ & _ & D9 & T9). set (w9 := uarthw_write mcr 0x08 wf) in *.
  destruct (ier_law 0x01 w9) as (A10 & _ & I10 & D10 & T10); [rewrite D9, D8, D7; done|].
  injection E as <- <-. split; [done|]. split; [done|]. split; [by destruct Rx|].
  assert (B : tx_bytes (set_active true u) = []).
  { apply length_zero_iff_nil. pose proof (length_tx_bytes (set_active true u)). change (tx_used (set_active true u)) with (tx_used u) in *. lia. }
  constructor; try done.
  - cbn [tf set_active]. congruence.
  - rewrite B. cbn [tail]. rewrite app_nil_r. congruence.
  - intros _. auto 12.
  - change (tx_used (set_active true u)) with (tx_used u). by rewrite I10, U.
Qed.

(** *** Reading and writing the rings *)

Lemma read_ring_spec len u :
  rx_ok u -> 0 < len -> rx_used u <> 0 ->
  let n := Z.min len (rx_used u) in
  exists u', read_ring len u = Some (n, ztake n (rx_bytes u), u') /\ rx_ok u' /\ rx_bytes u' = zdrop n (rx_bytes u) /\
    tx u' = tx u /\ th u' = th u /\ tt u' = tt u /\ tf u' = tf u /\ active u' = active u.
Proof.
  intros [L Rh Rt] Ln U n. pose proof (mod_dist SIZE_RX (rt u) (rh u) eq_refl Rt Rh) as D. fold (rx_used u) in D.
  pose proof (rx_used_range u) as Ru.
  assert (G : exists a, read_ring len u = Some (n, a, set_rx (rx u) (rh u) ((rt u + n) mod SIZE_RX) u) /\ a = ring SIZE_RX (rt u) n (rx u)).
  { unfold read_ring. destruct (Z.ltb_spec (rt u) (rh u)) as [Lt|Ge], (Z.leb_spec (rt u) (rh u)); try lia.
    - replace (Z.min (rh u - rt u) len) with n by lia. rewrite (mbytes_ok (rx u) (rt u)) by lia. cbn [mbind option_bind].
      rewrite (ring_slice SIZE_RX) by lia. destruct (Z.ltb_spec (rh u) (rt u)); [lia|]. rewrite andb_false_r. cbn [mbind option_bind].
      eexists. by rewrite app_nil_r.
    - assert (rt u = rh u \/ rh u < rt u) as [Eq|Lt] by lia; [destruct U; unfold rx_used; rewrite Eq, Z.sub_diag; done|].
      destruct (Z.ltb_spec (rh u) (rt u)); [|lia]. rewrite andb_true_r. set (l := Z.min (SIZE_RX - rt u) len).
      rewrite (mbytes_ok (rx u) (rt u)) by lia. cbn [mbind option_bind]. rewrite (ring_slice SIZE_RX) by lia. destruct (Z.ltb_spec l len).
      + rewrite mbytes_ok by lia. cbn [mbind option_bind]. set (m := Z.min (len - l) (rh u)). replace (l + m) with n by lia.
        rewrite (ring_slice SIZE_RX) by lia. eexists. split; [done|]. replace n with (l + m) by lia. rewrite ring_app by lia. f_equal.
        rewrite <- (ring_mod SIZE_RX eq_refl (rt u + l)). replace (rt u + l) with SIZE_RX by lia. by rewrite Z_mod_same_full.
      + cbn [mbind option_bind]. replace l with n by lia. eexists. by rewrite app_nil_r. }
  destruct G as (a & E & ->). rewrite E. unfold rx_bytes at 1. rewrite ztake_ring by lia. eexists. split; [done|].
  split; [constructor; cbn [rx rh rt set_rx]; try done; by apply Z.mod_pos_bound|]. split; [|done].
  unfold rx_bytes. rewrite zdrop_ring by lia. unfold rx_used at 1. cbn [rx rh rt set_rx]. rewrite Zminus_mod_idemp_r, ring_mod by done. f_equal.
  replace (rh u - (rt u + n)) with (rh u - rt u - n) by lia. rewrite <- Zminus_mod_idemp_l. fold (rx_used u). apply Z.mod_small. lia.
Qed.

(** The bytes [write_ring] stores. *)
Lemma write_ring_store buff u :
  zlen (tx u) = SIZE_TX -> 0 <= th u < SIZE_TX -> 0 <= tt u < SIZE_TX -> tf u = false ->
  let n := Z.min (zlen buff) (SIZE_TX - tx_used u) in
  let len := zlen buff in
  let l := if tt u <? th u then Z.min (th u - tt u) len else Z.min (SIZE_TX - tt u) len in
  let two := (l <? len) && (th u <=? tt u) in
  let k := if two then Z.min (len - l) (th u) else 0 in
  n = l + k /\ exists m1 m2,
  mstore (tx u) (tt u) (zslice 0 l buff) = Some m1 /\ mstore m1 0 (zslice l k buff) = Some m2 /\ zlen m2 = SIZE_TX /\
  mbytes buff 0 l = Some (zslice 0 l buff) /\ mbytes buff l k = Some (zslice l k buff) /\
  ring SIZE_TX (th u) (tx_used u + n) m2 = tx_bytes u ++ ztake n buff.
Proof.
  intros L Hh Ht F n len l two k. pose proof (mod_dist SIZE_TX (th u) (tt u) eq_refl Hh Ht) as D.
  pose proof (tx_used_range u) as Ru. assert (U : tx_used u = (tt u - th u) mod SIZE_TX) by (unfold tx_used; by rewrite F).
  assert (En : n = l + k /\ 0 <= l /\ 0 <= k /\ tt u + l <= SIZE_TX /\ l + k <= len /\ (k = 0 \/ tt u + l = SIZE_TX) /\ k <= th u).
  { unfold n, k, two, l, len in *. destruct (Z.ltb_spec (tt u) (th u)), (Z.leb_spec (th u) (tt u)); try lia; rewrite ?andb_false_r, ?andb_true_r; [lia|].
    destruct (Z.ltb_spec (Z.min (SIZE_TX - tt u) (zlen buff)) (zlen buff)); lia. }
  destruct En as (En & L0 & K0 & Lt & Lk & Kz & Kt). split; [done|].
  assert (Z1 : zlen (zslice 0 l buff) = l) by (apply length_zslice; lia).
  assert (Z2 : zlen (zslice l k buff) = k) by (apply length_zslice; lia).
  exists (splice (tt u) (zslice 0 l buff) (tx u)), (splice 0 (zslice l k buff) (splice (tt u) (zslice 0 l buff) (tx u))).
  assert (Z3 : zlen (splice (tt u) (zslice 0 l buff) (tx u)) = SIZE_TX) by (apply ring_length_splice; lia).
  split; [apply mstore_ok; lia|]. split; [apply mstore_ok; lia|]. split; [apply ring_length_splice; lia|].
  split; [apply mbytes_ok; lia|]. split; [apply mbytes_ok; lia|].
  assert (T : (th u + tx_used u) mod SIZE_TX = tt u).
  { rewrite U, Z.add_mod_idemp_r by done. replace (th u + (tt u - th u)) with (tt u) by lia. by apply Z.mod_small. }
  pose proof (ring_put SIZE_TX eq_refl (th u) (tx_used u) (tt u) (zslice 0 l buff) (tx u)) as P1. rewrite Z1 in P1.
  rewrite En. replace (tx_used u + (l + k)) with (tx_used u + l + k) by lia.
  rewrite <- (zslice_0 (l + k)), zslice_app by lia. rewrite app_assoc. cbn [Z.add]. unfold tx_bytes. rewrite <- P1 by lia.
  destruct Kz as [Kz|Kz].
  - rewrite Kz, zslice_nil, splice_nil, Z.add_0_r, app_nil_r. done.
  - pose proof (ring_put SIZE_TX eq_refl (th u) (tx_used u + l) 0 (zslice l k buff) (splice (tt u) (zslice 0 l buff) (tx u))) as P2.
    rewrite Z2 in P2. apply P2; try lia. rewrite Z.add_assoc, <- Z.add_mod_idemp_l, T by done. rewrite Kz. done.
Qed.

Lemma write_ring_spec acc buff u w :
  ready acc u w -> tf u = false -> 0 < zlen buff ->
  let n := Z.min (zlen buff) (SIZE_TX - tx_used u) in
  0 < n /\ exists u' w', write_ring buff u w = Some (n, u', w') /\ ready (acc ++ ztake n buff) u' w' /\ came [] u w u' w' /\
    tx_used u' = tx_used u + n.
Proof.
  intros (A & D & Rx & [L Hh Ht F S Ei Er]) Tf Ln n.
  pose proof (mod_dist SIZE_TX (th u) (tt u) eq_refl Hh Ht) as Dd. pose proof (length_tx_bytes u) as Lb.
  assert (U : tx_used u = (tt u - th u) mod SIZE_TX) by (unfold tx_used; by rewrite Tf). rewrite <- U in Dd.
  assert (Np : 0 < n) by (unfold n, SIZE_TX in *; destruct (Z.leb_spec (th u) (tt u)); lia). split; [done|].
  destruct (write_ring_store buff u L Hh Ht Tf) as (En & m1 & m2 & E1 & E2 & L2 & B1 & B2 & Rg). fold n in En, Rg.
  unfold write_ring. rewrite B1. cbn [mbind option_bind]. rewrite E1. cbn [mbind option_bind].
  rewrite B2. cbn [mbind option_bind]. rewrite E2. cbn [mbind option_bind]. rewrite <- En.
  set (t' := (tt u + n) mod SIZE_TX). assert (Ht' : 0 <= t' < SIZE_TX) by (apply Z.mod_pos_bound; done).
  rewrite Tf. set (u' := set_tx m2 (th u) t' (if t' =? th u then true else false) u).
  assert (U' : tx_used u' = tx_used u + n).
  { unfold tx_used at 1, u'. cbn [tf tt th set_tx]. pose proof (mod_wrap SIZE_TX (tt u + n) eq_refl) as R1. fold t' in R1.
    destruct (Z.eqb_spec t' (th u)) as [Eq|Ne]; [|rewrite (mod_dist SIZE_TX (th u) t') by done];
      unfold n, SIZE_TX in *; destruct (Z.leb_spec (th u) (tt u)), (Z.ltb_spec (tt u + Z.min (zlen buff) (0x800 - tx_used u)) 0x800);
      try lia; destruct (Z.leb_spec (th u) t'); lia. }
  assert (B' : tx_bytes u' = tx_bytes u ++ ztake n buff).
  { rewrite <- Rg. unfold tx_bytes. by rewrite U'. }
  assert (Rx' : rx_ok u') by (by destruct Rx).
  assert (Ok : forall w', dlab w' = false -> taken w' = taken w -> sent w' ++ tail (tx_bytes u') = acc ++ ztake n buff -> ier_of w' = 0x03 ->
    ready (acc ++ ztake n buff) u' w' /\ came [] u w u' w' /\ tx_used u' = tx_used u + n).
  { intros w' D' T' S' I'. split; [|split; [by apply (came_refl u)|done]]. split; [done|]. split; [done|]. split; [done|].
    constructor; try done; [|rewrite U'; pose proof (tx_used_range u); lia|].
    - unfold u'. cbn [tf tt th set_tx]. by destruct (Z.eqb_spec t' (th u)).
    - rewrite I', U'. destruct (Z.eqb_spec (tx_used u + n) 0); [|done]. pose proof (tx_used_range u). lia. }
  destruct (Z.eqb_spec (tt u) (th u)) as [Eq|Ne].
  - assert (U0 : tx_used u = 0) by (rewrite U, Eq, Z.sub_diag; done).
    assert (Bn : tx_bytes u = []) by (apply length_zero_iff_nil; lia).
    rewrite mbytes_ok by (unfold SIZE_TX in *; lia). cbn [mbind option_bind].
    rewrite (ring_slice SIZE_TX) by (unfold SIZE_TX in *; lia).
    destruct (tx_bytes u') as [|c l] eqn:Eb; [exfalso; pose proof (length_tx_bytes u'); rewrite Eb in *; cbn [length] in *; lia|].
    assert (Hc : ring SIZE_TX (th u) 1 m2 = [c]).
    { rewrite <- (ztake_ring SIZE_TX (th u) 1 (tx_used u + n) m2) by lia. rewrite Rg, <- B'. done. }
    rewrite Hc. change (deref [c]) with c.
    destruct (thr_law c w D (Ei U0)) as (S1 & T1 & I1 & D1).
    destruct (ier_law 0x03 (uarthw_write thr c w) D1) as (S2 & T2 & I2 & D2 & _).
    eexists _, _. split; [done|]. apply Ok; try done; [congruence|]. rewrite S2, S1. rewrite Bn in *. cbn [tail app] in *.
    rewrite app_nil_r in S. rewrite S, <- app_assoc. f_equal. done.
  - cbn [mbind option_bind]. eexists _, _. split; [done|].
    assert (U0 : tx_used u <> 0).
    { intros U0. apply Ne. rewrite U0 in Dd. unfold SIZE_TX in *. destruct (Z.leb_spec (th u) (tt u)); lia. }
    apply Ok; try done.
    + rewrite B', <- S, <- app_assoc. f_equal. destruct (tx_bytes u); [cbn [length] in *; lia|done].
    + rewrite Er. by destruct (Z.eqb_spec (tx_used u) 0).
Qed.
End spec.

(** ** Waiting *)

(** Time goes on between polls; while bytes are left to be sent, one is within
    [patience] polls. *)
Class Uart_env {W : Type} `{Uart16550 W} (elapse : uart_t -> W -> uart_t * W) (patience : nat) := {
  now : W -> Z;
  now_law w : (hal_timerGet w).1 = now w /\ now (hal_timerGet w).2 = now w;
  elapse_steps u w : rtc ustep (u, w) (elapse u w);
  elapse_time u w : now w + 1 <= now (elapse u w).2;
  elapsed (n : nat) (s : uart_t * W) : uart_t * W := Nat.iter n (fun s => elapse s.1 s.2) s;
  elapse_sends acc u w : ready acc u w -> 0 < tx_used u -> exists n, (n <= patience)%nat /\ tx_used (elapsed n (u, w)).1 < tx_used u;
  elapse_temt acc u w : ready acc u w -> tx_used u = 0 -> is_Some (temt_wait elapse patience u w)
}.

Section waiting.
  Context {W : Type} (elapse : uart_t -> W -> uart_t * W) (patience : nat) `{Uart_env W elapse patience}.

Lemma elapse_kept acc u w : ready acc u w -> kept acc u w (elapse u w).1 (elapse u w).2.
Proof. intros R. by apply (steps_kept acc (u, w) (elapse u w)), R; apply elapse_steps. Qed.

Lemma elapsed_S n s : elapsed (S n) s = elapsed n (elapse s.1 s.2).
Proof. unfold elapsed. by rewrite Nat.iter_succ_r. Qed.

(** A wait ends within [n] polls, or goes on from the state after them. *)
Lemma wait_split busy n k acc u w :
  ready acc u w ->
  (exists u' w', uart_wait elapse (n + k) busy u w = Some (u', w') /\ kept acc u w u' w' /\ busy u' = false) \/
  (let s := elapsed n (u, w) in uart_wait elapse (n + k) busy u w = uart_wait elapse k busy s.1 s.2 /\ kept acc u w s.1 s.2).
Proof.
  revert u w. induction n as [|n IH]; intros u w R.
  - right. split; [done|]. by apply kept_same; [split|].
  - cbn [Nat.add uart_wait]. destruct (busy u) eqn:B.
    + pose proof (elapse_kept acc u w R) as K. destruct (elapse u w) as [u1 w1] eqn:E. cbn [fst snd] in K.
      destruct (IH u1 w1 (proj1 K)) as [(u' & w' & E' & K' & B')|[E' K']].
      * left. exists u', w'. split; [done|]. split; [by eapply kept_trans|done].
      * right. rewrite elapsed_S. cbn [fst snd]. rewrite E. split; [done|]. by eapply kept_trans.
    + left. exists u, w. split; [done|]. split; [|done]. by apply kept_same; [split|].
Qed.

Lemma uart_wait_spec busy acc (m : nat) : forall fuel u w,
  (forall acc u w, ready acc u w -> busy u = true -> 0 < tx_used u) -> ready acc u w -> tx_used u <= Z.of_nat m -> (patience * m <= fuel)%nat ->
  exists u' w', uart_wait elapse fuel busy u w = Some (u', w') /\ kept acc u w u' w' /\ busy u' = false.
Proof.
  induction m as [|m IH]; intros fuel u w B R U F; pose proof (tx_used_range u).
  - exists u, w. destruct (busy u) eqn:Bu; [pose proof (B acc u w R Bu); lia|].
    split; [by destruct fuel; cbn [uart_wait]; rewrite Bu|]. split; [|done]. by apply kept_same; [split|].
  - destruct (busy u) eqn:Bu.
    + destruct (elapse_sends acc u w R (B acc u w R Bu)) as (n & Ln & Lt).
      replace fuel with (n + (fuel - n))%nat by lia.
      destruct (wait_split busy n (fuel - n) acc u w R) as [G|[E K]]; [done|]. rewrite E.
      destruct (IH (fuel - n)%nat (elapsed n (u, w)).1 (elapsed n (u, w)).2 B) as (u' & w' & E' & K' & B'); [apply K|lia|lia|].
      exists u', w'. split; [done|]. split; [by eapply kept_trans|done].
    + exists u, w. split; [by destruct fuel; cbn [uart_wait]; rewrite Bu|]. split; [|done]. by apply kept_same; [split|].
Qed.

Lemma tf_busy acc u w : ready acc u w -> tf u = true -> 0 < tx_used u.
Proof. intros _ T. unfold tx_used. by rewrite T. Qed.

Lemma ring_busy acc u w : ready acc u w -> negb (tt u =? th u) = true -> 0 < tx_used u.
Proof.
  intros (_ & _ & _ & [_ Hh Ht F _ _ _]) B. apply negb_true_iff, Z.eqb_neq in B. unfold tx_used. destruct (tf u); [done|].
  pose proof (mod_dist SIZE_TX (th u) (tt u) eq_refl Hh Ht). unfold SIZE_TX in *. destruct (Z.leb_spec (th u) (tt u)); lia.
Qed.

Lemma temt_wait_spec fuel acc u w u' w' : ready acc u w -> temt_wait elapse fuel u w = Some (u', w') -> kept acc u w u' w'.
Proof.
  revert u w. induction fuel as [|fuel IH]; intros u w R E; [done|]. cbn [temt_wait] in E.
  pose proof (lsr_law w) as S. destruct (uarthw_read lsr w) as [v w1]. pose proof (kept_same acc u w w1 S R) as K.
  destruct (_ =? 0); [|by injection E as <- <-].
  pose proof (elapse_kept acc u w1 (proj1 K)) as K2. destruct (elapse u w1) as [u2 w2].
  eapply kept_trans; [exact K|]. eapply kept_trans; [exact K2|]. apply IH; [apply K2|done].
Qed.

Lemma temt_wait_more fuel k u w r : temt_wait elapse fuel u w = Some r -> temt_wait elapse (fuel + k) u w = Some r.
Proof.
  revert u w. induction fuel as [|fuel IH]; intros u w E; [done|]. cbn [Nat.add temt_wait] in *. destruct (uarthw_read lsr w) as [v w1].
  destruct (_ =? 0); [|done]. destruct (elapse u w1) as [u2 w2]. by apply IH.
Qed.

Context (fuel : nat) (enough : (patience * 2048 <= fuel)%nat).

(** *** Writing *)

Lemma uart_write_spec acc buff u w :
  ready acc u w -> 0 < zlen buff ->
  exists n u' w', uart_write elapse fuel buff u w = Some (n, u', w') /\ 0 < n <= zlen buff /\
    ready (acc ++ ztake n buff) u' w' /\ exists cs, came cs u w u' w'.
Proof.
  intros R L. unfold uart_write. rewrite (proj1 R). cbn [negb]. destruct (Z.eqb_spec (zlen buff) 0); [lia|].
  destruct (uart_wait_spec tf acc 2048 fuel u w tf_busy R) as (u1 & w1 & E & (R1 & [c1 C1] & _) & B); [apply tx_used_range|done|].
  rewrite E. cbn [mbind option_bind].
  destruct (write_ring_spec acc buff u1 w1 R1 B L) as (Np & u2 & w2 & E2 & R2 & C2 & _).
  eexists _, u2, w2. split; [exact E2|]. split; [lia|]. split; [done|]. exists (c1 ++ []). by eapply came_trans.
Qed.

Lemma safeWrite_loop_spec k acc buff l u w :
  ready (acc ++ ztake l buff) u w -> 0 <= l <= zlen buff -> zlen buff - l <= Z.of_nat k ->
  exists u' w', safeWrite_loop elapse k fuel buff l u w = Some (zlen buff, u', w') /\ ready (acc ++ buff) u' w' /\ exists cs, came cs u w u' w'.
Proof.
  revert l u w. induction k as [|k IH]; intros l u w R L K; cbn [safeWrite_loop].
  - destruct (Z.leb_spec (zlen buff) l); [|lia]. exists u, w. split; [done|]. rewrite take_ge in R by lia. split; [done|]. exists []. by apply came_refl.
  - destruct (Z.leb_spec (zlen buff) l).
    + exists u, w. split; [done|]. rewrite take_ge in R by lia. split; [done|]. exists []. by apply came_refl.
    + assert (Ld : zlen (zdrop l buff) = zlen buff - l) by (rewrite length_drop; lia).
      destruct (uart_write_spec _ (zdrop l buff) u w R) as (n & u1 & w1 & E & N & R1 & [c1 C1]); [lia|].
      rewrite E. cbn [mbind option_bind]. destruct (Z.ltb_spec n 0); [lia|].
      assert (T : ztake l buff ++ ztake n (zdrop l buff) = ztake (l + n) buff).
      { rewrite <- !(zslice_0 _ buff). rewrite (zslice_app 0 l n) by lia. done. }
      rewrite <- app_assoc, T in R1. destruct (IH (l + n) u1 w1 R1) as (u2 & w2 & E2 & R2 & [c2 C2]); [lia|lia|].
      exists u2, w2. split; [done|]. split; [done|]. exists (c1 ++ c2). by eapply came_trans.
Qed.

Lemma uart_drain_spec acc u w :
  ready acc u w -> exists u' w', uart_drain elapse fuel u w = Some (u', w') /\ kept acc u w u' w' /\ tx_used u' = 0.
Proof.
  intros R. unfold uart_drain.
  destruct (uart_wait_spec tf acc 2048 fuel u w tf_busy R) as (u1 & w1 & -> & K1 & B1); [apply tx_used_range|done|]. cbn [mbind option_bind].
  destruct (uart_wait_spec (fun u => negb (tt u =? th u)) acc 2048 fuel u1 w1 ring_busy (proj1 K1)) as (u2 & w2 & -> & K2 & B2);
    [apply tx_used_range|done|]. cbn [mbind option_bind].
  assert (U2 : tx_used u2 = 0).
  { apply negb_false_iff, Z.eqb_eq in B2. destruct K1 as (_ & _ & U1), K2 as (_ & _ & U2).
    unfold tx_used in U2 |- *. rewrite B2, Z.sub_diag in *. rewrite B1 in U2. destruct (tf u2); [|done].
    pose proof (Z.mod_pos_bound (tt u1 - th u1) SIZE_TX eq_refl). lia. }
  destruct (elapse_temt acc u2 w2 (proj1 K2) U2) as [[u3 w3] E3].
  pose proof (temt_wait_spec _ acc u2 w2 u3 w3 (proj1 K2) E3) as K3.
  exists u3, w3. split.
  - destruct (decide (patience = 0%nat)) as [P0|]; [by rewrite P0 in E3|]. replace fuel with (patience + (fuel - patience))%nat by lia. by apply temt_wait_more.
  - split; [eapply kept_trans; [exact K1|]; eapply kept_trans; [exact K2|exact K3]|]. destruct K3 as (_ & _ & U3). pose proof (tx_used_range u3). lia.
Qed.

Lemma ready_idle acc u w : ready acc u w -> tx_used u = 0 -> sent w = acc.
Proof.
  intros (_ & _ & _ & [_ _ _ _ S _ _]) U. assert (B : tx_bytes u = []) by (apply length_zero_iff_nil; pose proof (length_tx_bytes u); lia).
  rewrite B in S. cbn [tail] in S. by rewrite app_nil_r in S.
Qed.

(** *** Reading *)

Lemma rx_wait_spec k start timeout acc u w :
  ready acc u w -> start + timeout - now w <= Z.of_nat k ->
  exists ok u' w', rx_wait elapse (S k) start timeout u w = Some (ok, u', w') /\ kept acc u w u' w' /\
    if ok then rx_used u' <> 0 else rx_used u' = 0 /\ timeout <= now w' - start.
Proof.
  revert u w. induction k as [|k IH]; intros u w R K.
  all: cbn [rx_wait]; destruct (Z.eqb_spec (rh u) (rt u)) as [Eq|Ne].
  all: try (exists true, u, w; split; [done|]; split; [by apply kept_same; [split|]|];
    destruct R as (_ & _ & [_ Hr Ht] & _); pose proof (mod_dist SIZE_RX (rt u) (rh u) eq_refl Ht Hr) as D;
    unfold rx_used, SIZE_RX in *; destruct (Z.leb_spec (rt u) (rh u)); lia).
  all: pose proof (now_law w) as [N1 N2]; pose proof (time_law w) as S; destruct (hal_timerGet w) as [t w1]; cbn [fst snd] in *.
  all: pose proof (kept_same acc u w w1 S R) as K1.
  all: assert (U0 : rx_used u = 0) by (unfold rx_used; rewrite Eq, Z.sub_diag; done).
  all: destruct (Z.leb_spec timeout (t - start)); [exists false, u, w1; split; [done|]; split; [done|]; split; [done|lia]|].
  - lia.
  - pose proof (elapse_kept acc u w1 (proj1 K1)) as K2. pose proof (elapse_time u w1) as T. destruct (elapse u w1) as [u2 w2]. cbn [fst snd] in *.
    destruct (IH u2 w2 (proj1 K2)) as (ok & u3 & w3 & E & K3 & P); [lia|].
    exists ok, u3, w3. split; [done|]. split; [|done]. eapply kept_trans; [exact K1|]. by eapply kept_trans.
Qed.

(** *** The device *)

(** C36. Everything written is sent, in order and once, whatever the interrupt handler does in
    between: a write takes all its bytes, what was sent at any time is a beginning of
    what was written, and after a synchronisation all of it was sent.  The handler
    writes a byte only when the last one has left, and loses none. *)
Theorem uart_write_sends acc buff u w :
  ready acc u w ->
  exists u' w', uart_safeWrite elapse fuel buff u w = Some (zlen buff, u', w') /\ ready (acc ++ buff) u' w' /\
    sent w' `prefix_of` acc ++ buff /\
    exists u'' w'', uart_sync elapse fuel u' w' = Some (EOK, u'', w'') /\ ready (acc ++ buff) u'' w'' /\ sent w'' = acc ++ buff.
Proof.
  intros R. destruct (safeWrite_loop_spec (length buff) acc buff 0 u w) as (u' & w' & E & R' & _); [by rewrite take_0, app_nil_r|lia|lia|].
  exists u', w'. split; [done|]. split; [done|]. split; [destruct R' as (_ & _ & _ & [_ _ _ _ <- _ _]); apply prefix_app_r; done|].
  unfold uart_sync. rewrite (proj1 R'). cbn [negb]. destruct (uart_drain_spec (acc ++ buff) u' w' R') as (u2 & w2 & -> & K & U).
  exists u2, w2. split; [done|]. split; [apply K|]. by apply (ready_idle _ u2); [apply K|].
Qed.

(** C37. A read returns the oldest bytes of the ring, as many as are there and asked for, and
    leaves the others; the ring has the last 2047 of the bytes that came and were not
    read.  When no byte comes in time it says so. *)
Theorem uart_read_fifo acc len timeout u w :
  ready acc u w -> 0 < len -> 0 <= timeout < Z.of_nat fuel ->
  exists r bs u' w' cs, uart_read elapse fuel len timeout u w = Some (r, bs, u', w') /\ ready acc u' w' /\ taken w' = taken w ++ cs /\
    let q := keep (rx_bytes u ++ cs) in
    if decide (q = []) then r = - ETIME /\ bs = [] /\ rx_bytes u' = [] /\ timeout <= now w' - now w
    else r = Z.min len (zlen q) /\ bs = ztake r q /\ rx_bytes u' = zdrop r q.
Proof.
  intros R L T. unfold uart_read. rewrite (proj1 R). cbn [negb]. destruct (Z.eqb_spec len 0); [lia|].
  pose proof (now_law w) as [N1 N2]. pose proof (time_law w) as S. destruct (hal_timerGet w) as [start w1]. cbn [fst snd] in *.
  pose proof (kept_same acc u w w1 S R) as K1.
  destruct (rx_wait_spec (fuel - 1) start timeout acc u w1 (proj1 K1)) as (ok & u2 & w2 & E & K2 & P); [lia|].
  replace (Datatypes.S (fuel - 1)) with fuel in E by lia. rewrite E. cbn [mbind option_bind].
  pose proof (kept_trans _ _ _ _ _ _ _ K1 K2) as (R2 & [cs [Tk Kp]] & _). pose proof (length_rx_bytes u2) as Lb.
  destruct ok; cbn [negb].
  - destruct (read_ring_spec len u2) as (u3 & -> & Rx3 & B3 & X1 & X2 & X3 & X4 & X5); [apply R2|done|done|]. cbn [mbind option_bind].
    exists (Z.min len (rx_used u2)), (ztake (Z.min len (rx_used u2)) (rx_bytes u2)), u3, w2, cs. split; [done|].
    split. { destruct R2 as (A & D & _ & Tx). split; [congruence|]. split; [done|]. split; [done|]. by apply (tx_ok_ext acc u2 u3 w2). }
    split; [done|]. cbn zeta. rewrite <- Kp. rewrite decide_False by (intros F; rewrite F in Lb; done). rewrite Lb. done.
  - destruct P as [P1 P2]. exists (- ETIME), [], u2, w2, cs. split; [done|]. split; [done|]. split; [done|]. cbn zeta. rewrite <- Kp.
    assert (B : rx_bytes u2 = []) by (apply length_zero_iff_nil; lia). rewrite decide_True by done. repeat split; try done. lia.
Qed.
End waiting.

(** ** A chip without a FIFO for what is sent, and an endless one for what comes *)

Module toy.
Record chip := mk_chip { c_sent : list Z; c_taken : list Z; c_in : list Z; c_busy : bool; c_ier : Z; c_dlab : bool; c_now : Z }.

Definition read (r : Z) (w : chip) : Z * chip :=
  if r =? lsr then (Z.lor (match c_in w with [] => 0 | _ => 1 end) (if c_busy w then 0 else 0x40), w)
  else if r =? iir then
    (if negb (Z.land (c_ier w) 2 =? 0) && negb (c_busy w) then 0x02
     else match c_in w with [] => 0x01 | _ => if Z.land (c_ier w) 1 =? 0 then 0x01 else 0x04 end, w)
  else match c_in w with
       | [] => (0, mk_chip (c_sent w) (c_taken w ++ [0]) [] (c_busy w) (c_ier w) (c_dlab w) (c_now w))
       | c :: l => (c, mk_chip (c_sent w) (c_taken w ++ [c]) l (c_busy w) (c_ier w) (c_dlab w) (c_now w))
       end.

Definition write (r v : Z) (w : chip) : chip :=
  if r =? lcr then mk_chip (c_sent w) (c_taken w) (c_in w) (c_busy w) (c_ier w) (Z.testbit v 7) (c_now w)
  else if c_dlab w then w
  else if r =? thr then
    if c_busy w then w else mk_chip (c_sent w ++ [v]) (c_taken w) (c_in w) true (c_ier w) false (c_now w)
  else if r =? ier then mk_chip (c_sent w) (c_taken w) (c_in w) (c_busy w) v false (c_now w)
  else w.

#[global] Instance hw : Uarthw chip := {|
  uarthw_read := read; uarthw_write := write; uarthw_init _ b w := (0, b, w); uarthw_getDivisor b _ := divisor b;
  hal_timerGet w := (c_now w, w); hal_interruptsSet _ w := w
|}.

(** A byte leaves the chip, and time passes. *)
Definition go (w : chip) : chip := mk_chip (c_sent w) (c_taken w) (c_in w) false (c_ier w) (c_dlab w) (c_now w + 1).

#[global] Instance laws : Uart16550 chip.
Proof.
  refine {| sent := c_sent; taken := c_taken; thr_empty w := negb (c_busy w); ier_of := c_ier; dlab := c_dlab; hw_step w w' := w' = go w |}.
  all: try by (intros; repeat split).
  - intros w w' ->. by repeat split.
  - intros w D. cbn. by destruct (c_in w).
  - intros w. cbn. split; [by repeat split|]. destruct (Z.eqb_spec (Z.land (c_ier w) 2) 0), (c_busy w); cbn; try done;
      destruct (c_in w); try done; destruct (_ =? 0); done.
  - intros c w D B. cbn. unfold write. cbn. rewrite D. by destruct (c_busy w).
  - intros v w D. cbn. unfold write. cbn. by rewrite D.
  - intros r v w [-> | ->] D; cbn; unfold write; cbn; rewrite D; by repeat split.
  - intros r v w [-> | ->]; cbn; unfold write; cbn; destruct (c_dlab w) eqn:E; by repeat split.
Defined.

Definition elapse (u : uart_t) (w : chip) : uart_t * chip :=
  default (u, go w) (uart_isr (10 + length (c_in w)) u (go w)).

Lemma rx_loop_ends n u w :
  rx_ok u -> (length (c_in w) < n)%nat ->
  exists u' w', rx_loop n u w = Some (u', w') /\ c_in w' = [] /\ c_busy w' = c_busy w /\ c_ier w' = c_ier w.
Proof.
  revert u w. induction n as [|n IH]; intros u w R L; [lia|]. cbn [rx_loop]. destruct w as [s t i b e d o]. cbn in *.
  destruct i as [|c i].
  - exists u. eexists. cbn. by destruct b.
  - replace (Z.land (Z.lor 1 (if b then 0 else 64)) 1) with 1 by (by destruct b). cbn.
    destruct (rx_put_spec c u R) as (u' & -> & R' & _). cbn [mbind option_bind].
    destruct (IH u' (mk_chip s (t ++ [c]) i b e d o) R') as (u2 & w2 & E & P); [cbn in *; lia|]. exists u2, w2. done.
Qed.

(** Without an interrupt of the transmitter the handler takes what came, and ends. *)
Lemma isr_quiet n u w :
  rx_ok u -> Z.land (c_ier w) 2 = 0 \/ c_busy w = true -> (length (c_in w) + 2 < n)%nat -> is_Some (uart_isr n u w).
Proof.
  intros R Q L. assert (T : negb (Z.land (c_ier w) 2 =? 0) && negb (c_busy w) = false) by (destruct Q as [-> | ->]; [done|by rewrite andb_false_r]).
  destruct n as [|n]; [lia|]. cbn [uart_isr uarthw_read hw]. unfold read at 1. cbn [Z.eqb Pos.eqb iir lsr]. rewrite T.
  destruct (c_in w) as [|c l] eqn:Ei; [by eexists|]. destruct (Z.land (c_ier w) 1 =? 0); [by eexists|]. cbn -[rx_loop uart_isr].
  destruct (rx_loop_ends n u w R) as (u' & w' & -> & E1 & E2 & E3); [rewrite Ei; cbn in *; lia|].
  change (Z.land 4 1) with 0. change (Z.land 4 4) with 4. change (Z.land 4 2) with 0. cbn -[uart_isr].
  destruct n as [|n]; [lia|]. cbn [uart_isr uarthw_read hw]. unfold read at 1. cbn [Z.eqb Pos.eqb iir lsr]. rewrite E2, E3, T, E1. by eexists.
Qed.

Lemma isr_ends acc u w :
  ready acc u w -> exists u' w', uart_isr (10 + length (c_in w)) u (go w) = Some (u', w') /\ kept acc u w u' w' /\
    (0 < tx_used u -> tx_used u' < tx_used u).
Proof.
  intros R. assert (K : kept acc u w u (go w)) by (apply kept_same; [by repeat split|done]). pose proof K as (R1 & _).
  destruct (Z.eq_dec (tx_used u) 0) as [U|U].
  - destruct (isr_quiet (10 + length (c_in w)) u (go w)) as [[u' w'] E]; [apply R|left; pose proof (tx_ier _ _ _ (proj2 (proj2 (proj2 R1)))) as I; cbn in I |- *; by rewrite I, U|cbn; lia|].
    exists u', w'. split; [done|]. split; [eapply kept_trans; [exact K|by eapply uart_isr_spec]|lia].
  - assert (I : c_ier w = 3) by (pose proof (tx_ier _ _ _ (proj2 (proj2 (proj2 R)))) as I; cbn in I; rewrite I; by destruct (Z.eqb_spec (tx_used u) 0)).
    destruct (tx_next_spec acc u (go w) R1 U eq_refl) as (u1 & w1 & E & K1 & U1).
    assert (Q : (Z.land (c_ier w1) 2 = 0 \/ c_busy w1 = true) /\ c_in w1 = c_in w).
    { unfold tx_next in E. cbn [tx tt set_tx] in E. assert (D : c_dlab w = false) by apply R.
      destruct (negb _); [destruct (mbytes _ _ _); [|done]|]; cbn [mbind option_bind] in E; injection E as _ <-;
        cbn; unfold write; cbn; rewrite D; cbn; auto. }
    destruct (isr_quiet (9 + length (c_in w)) u1 w1) as [[u2 w2] E2]; [apply K1|apply Q|rewrite (proj2 Q); lia|].
    assert (Es : uart_isr (10 + length (c_in w)) u (go w) = Some (u2, w2)).
    { change (10 + length (c_in w))%nat with (S (9 + length (c_in w))). cbn [uart_isr uarthw_read hw]. unfold read at 1. cbn -[tx_next uart_isr Nat.add].
      rewrite I. change (Z.land 3 2) with 2. cbn -[tx_next uart_isr Nat.add].
      change (Z.land 2 1) with 0. change (Z.land 2 4) with 0. change (Z.land 2 2) with 2. cbn -[tx_next uart_isr Nat.add]. rewrite E. cbn -[uart_isr Nat.add]. exact E2. }
    pose proof (uart_isr_spec _ acc u1 w1 u2 w2 (proj1 K1) E2) as K2.
    exists u2, w2. split; [done|]. split; [eapply kept_trans; [exact K|]; by eapply kept_trans|]. destruct K2 as (_ & _ & L2). lia.
Qed.

Lemma rx_loop_now n u w u' w' : rx_loop n u w = Some (u', w') -> c_now w' = c_now w.
Proof.
  revert u w. induction n as [|n IH]; intros u w E; [done|]. cbn [rx_loop uarthw_read hw] in E. unfold read at 1 in E. cbn [Z.eqb Pos.eqb lsr] in E.
  destruct (_ =? 0); [by injection E as <- <-|]. unfold read in E. cbn [Z.eqb Pos.eqb lsr iir rbr] in E.
  destruct (c_in w); destruct (rx_put _ u); try done; cbn [mbind option_bind] in E; by apply IH in E.
Qed.

Lemma write_now r v w : c_now (write r v w) = c_now w.
Proof. unfold write. repeat (case_match; try done). Qed.

Lemma isr_now n u w u' w' : uart_isr n u w = Some (u', w') -> c_now w' = c_now w.
Proof.
  revert u w. induction n as [|n IH]; intros u w E; [done|]. cbn [uart_isr] in E.
  assert (N : c_now (uarthw_read iir w).2 = c_now w) by done. destruct (uarthw_read iir w) as [v w1]. cbn [snd] in N.
  destruct (Z.land v 0x01 =? 0); cbn [negb] in E; [|by injection E as <- <-].
  destruct (if negb (Z.land v 0x04 =? 0) then _ else _) as [[u2 w2]|] eqn:E2; [|done]. cbn [mbind option_bind] in E.
  assert (N2 : c_now w2 = c_now w1) by (destruct (Z.land v 0x04 =? 0); cbn [negb] in E2; [by injection E2 as _ <-|by apply rx_loop_now in E2]).
  destruct (if negb (Z.land v 0x02 =? 0) then _ else _) as [[u3 w3]|] eqn:E3; [|done]. cbn [mbind option_bind] in E.
  assert (N3 : c_now w3 = c_now w2).
  { destruct (Z.land v 0x02 =? 0); cbn [negb] in E3; [by injection E3 as _ <-|]. unfold tx_next in E3. cbn [tx tt set_tx] in E3.
    destruct (negb (_ =? tt u2)); [destruct (mbytes _ _ _); [|done]|]; cbn [mbind option_bind] in E3; injection E3 as _ <-; apply write_now. }
  apply IH in E. congruence.
Qed.

#[global] Instance env : Uart_env elapse 1.
Proof.
  refine {| now := c_now |}.
  - done.
  - intros u w. eapply rtc_l; [by apply (us_hw u w (go w))|]. unfold elapse. destruct (uart_isr _ u (go w)) as [[u' w']|] eqn:E; cbn [default]; [|done].
    apply rtc_once. by eapply us_irq.
  - intros u w. unfold elapse. destruct (uart_isr _ u (go w)) as [[u' w']|] eqn:E; cbn [default snd]; [|cbn; lia].
    apply isr_now in E. change (c_now w + 1 <= c_now w'). rewrite E. cbn. lia.
  - intros acc u w R U. exists 1%nat. split; [done|]. destruct (isr_ends acc u w R) as (u' & w' & E & _ & L).
    change (tx_used (elapse u w).1 < tx_used u). unfold elapse. rewrite E. by apply L.
  - intros acc u w R U. cbn. pose proof (tx_idle _ _ _ (proj2 (proj2 (proj2 R))) U) as B. cbn in B. apply negb_true_iff in B. rewrite B.
    rewrite Z.land_lor_distr_l. by destruct (c_in w).
Defined.

Definition port : uart_t := mk_uart true (replicate 2048 0) 0 0 (replicate 2048 0) 0 0 false.
Definition start (i : list Z) : chip := mk_chip [] [] i false 1 false 0.

Lemma start_ready i : ready [] port (start i).
Proof. repeat split; done. Qed.
End toy.

Lemma uart_write_sends_witness :
  exists u' w' u'' w'', uart_safeWrite toy.elapse 2048 [104; 105] toy.port (toy.start []) = Some (2, u', w') /\
    uart_sync toy.elapse 2048 u' w' = Some (EOK, u'', w'') /\ toy.c_sent w'' = [104; 105].
Proof.
  destruct (uart_write_sends toy.elapse 1 2048 ltac:(lia) [] [104; 105] toy.port (toy.start []) (toy.start_ready []))
    as (u' & w' & E & _ & _ & u'' & w'' & E' & _ & S).
  by exists u', w', u'', w''.
Defined.

Lemma uart_read_fifo_witness :
  exists u' w', uart_read toy.elapse 2048 2 10 toy.port (toy.start [1; 2; 3]) = Some (2, [1; 2], u', w') /\ rx_bytes u' = [3].
Proof.
  destruct (uart_read_fifo toy.elapse 1 2048 ltac:(lia) [] 2 10 toy.port (toy.start [1; 2; 3]) (toy.start_ready _) ltac:(lia) ltac:(lia))
    as (r & bs & u' & w' & cs & E & _ & T & P).
  pose proof E as E2. vm_compute in E2. injection E2 as <- <- Hu Hw. exists u', w'. split; [exact E|].
  rewrite <- Hu. vm_compute. reflexivity.
Defined.
