(* ===== verification/Zynq.v ===== *)
(** * Clocks and pins of the Zynq-7000 (src/hal/armv7a/zynq7000/zynq.c, zynq.h)

    The system level control registers, as the class [Slcr]; [Slcr_hw] states that they
    hold what is written to them while they are unlocked.  Registers are 32 bits wide. *)

From S2P Require Import Prelude Mem.

(** ** src/hal/armv7a/zynq7000/zynq.h *)

Definition clk_disable := 0.
Definition clk_enable := 1.
Definition amba_lqspi_clk := 23.
Definition ctrl_usb0_clk := 0.
Definition ctrl_usb1_clk := 1.
Definition ctrl_gem0_rclk := 2.
Definition ctrl_gem1_rclk := 3.
Definition ctrl_gem0_clk := 4.
Definition ctrl_gem1_clk := 5.
Definition ctrl_smc_clk := 6.
Definition ctrl_lqspi_clk := 7.
Definition ctrl_sdio_clk := 8.
Definition ctrl_uart_clk := 9.
Definition ctrl_spi_clk := 10.
Definition ctrl_can_clk := 11.
Definition ctrl_can_mioclk := 12.

(** [dev], and the bytes of [pll]; the bytes of [mio] overlay them. *)
Record ctl_clock_t := mk_clock { dev : Z; divisor1 : Z; divisor0 : Z; srcsel : Z; clkact1 : Z; clkact0 : Z }.
Definition ref1 := divisor1.
Definition mux1 := divisor0.
Definition ref0 := srcsel.
Definition mux0 := clkact1.

Record ctl_mio_t := mk_mio {
  pin : Z; disableRcvr : Z; pullup : Z; ioType : Z; mio_speed : Z; l3 : Z; l2 : Z; l1 : Z; l0 : Z; triEnable : Z
}.

(** ** Registers *)

Definition slcr_lock := 1.
Definition slcr_unlock := 2.
Definition slcr_arm_pll_ctrl := 0x40.
Definition slcr_ddr_pll_ctrl := 0x41.
Definition slcr_io_pll_ctrl := 0x42.
Definition slcr_pll_status := 0x43.
Definition slcr_arm_pll_cfg := 0x44.
Definition slcr_ddr_pll_cfg := 0x45.
Definition slcr_io_pll_cfg := 0x46.
Definition slcr_arm_clk_ctrl := 0x48.
Definition slcr_ddr_clk_ctrl := 0x49.
Definition slcr_dci_clk_ctrl := 0x4a.
Definition slcr_aper_clk_ctrl := 0x4b.
Definition slcr_usb0_clk_ctrl := 0x4c.
Definition slcr_gem0_rclk_ctrl := 0x4e.
Definition slcr_gem0_clk_ctrl := 0x50.
Definition slcr_smc_clk_ctrl := 0x52.
Definition slcr_lqspi_clk_ctrl := 0x53.
Definition slcr_sdio_clk_ctrl := 0x54.
Definition slcr_uart_clk_ctrl := 0x55.
Definition slcr_spi_clk_ctrl := 0x56.
Definition slcr_can_clk_ctrl := 0x57.
Definition slcr_can_mioclk_ctrl := 0x58.
Definition slcr_pcap_clk_ctrl := 0x5a.
Definition slcr_fpga0_clk_ctrl := 0x5c.
Definition slcr_clk_621_true := 0x71.
Definition slcr_pss_rst_ctrl := 0x80.
Definition slcr_mio_pin_00 := 0x1c0.
Definition slcr_sd0_wp_cd_sel := 0x20c.

Class Slcr (W : Type) := { slcr_read : Z -> W -> Z * W; slcr_write : Z -> Z -> W -> W }.

(** [!!x] *)
Definition nz (x : Z) : Z := b2z (negb (x =? 0)).

Section zynq.
  Context {W : Type} `{Slcr W}.

Definition _zynq_slcrLock (w : W) : W := slcr_write slcr_lock 0x0000767b w.
Definition _zynq_slcrUnlock (w : W) : W := slcr_write slcr_unlock 0x0000df0d w.

(** [*dst = ( *src & ~mask) | val] *)
Definition update (dst src mask val : Z) (w : W) : W :=
  let '(x, w) := slcr_read src w in slcr_write dst (Z.lor (Z.ldiff x mask) val) w.

Definition _zynq_setAmbaClk (dev state : Z) (w : W) : Z * W :=
  if 24 <? dev then (-1, w)
  else (0, _zynq_slcrLock (update slcr_aper_clk_ctrl slcr_aper_clk_ctrl (Z.shiftl 1 dev) (Z.shiftl (nz state) dev) (_zynq_slcrUnlock w))).

(** The result also has the state; it is [None] when nothing is stored. *)
Definition _zynq_getAmbaClk (dev : Z) (w : W) : Z * option Z * W :=
  if 24 <? dev then (-1, None, w)
  else
    let '(x, w) := slcr_read slcr_aper_clk_ctrl (_zynq_slcrUnlock w) in
    (0, Some (Z.land (Z.shiftr x dev) 0x1), _zynq_slcrLock w).

(** The fields of the devices. *)
Definition two_acts (c : ctl_clock_t) : Z :=
  Z.lor (Z.lor (Z.lor (nz (clkact0 c)) (Z.shiftl (nz (clkact1 c)) 1)) (Z.shiftl (Z.land (srcsel c) 0x3) 4)) (Z.shiftl (Z.land (divisor0 c) 0x3f) 8).

Definition one_act (c : ctl_clock_t) : Z :=
  Z.lor (Z.lor (nz (clkact0 c)) (Z.shiftl (Z.land (srcsel c) 0x3) 4)) (Z.shiftl (Z.land (divisor0 c) 0x3f) 8).

(** The register to write, the one that is read, the mask and the fields; [None] for another device. *)
Definition clock_fields (c : ctl_clock_t) : option (Z * Z * Z * Z) :=
  let d := dev c in
  if (d =? ctrl_usb0_clk) || (d =? ctrl_usb1_clk) then
    let id := d - ctrl_usb0_clk in
    Some (slcr_usb0_clk_ctrl + id, ctrl_usb0_clk + id, 0x00000070, Z.shiftl (Z.land (srcsel c) 0x7) 4)
  else if (d =? ctrl_gem0_rclk) || (d =? ctrl_gem1_rclk) then
    let id := d - ctrl_gem0_rclk in
    Some (slcr_gem0_rclk_ctrl + id, ctrl_gem0_rclk + id, 0x00000011, Z.lor (nz (clkact0 c)) (Z.shiftl (nz (srcsel c)) 4))
  else if (d =? ctrl_gem0_clk) || (d =? ctrl_gem1_clk) then
    let id := d - ctrl_gem0_clk in
    Some (slcr_gem0_clk_ctrl + id, slcr_gem0_clk_ctrl + id, 0x03f03f71,
      Z.lor (Z.lor (Z.lor (nz (clkact0 c)) (Z.shiftl (Z.land (srcsel c) 0x7) 4)) (Z.shiftl (Z.land (divisor0 c) 0x3f) 8)) (Z.shiftl (Z.land (divisor1 c) 0x3f) 20))
  else if d =? ctrl_smc_clk then Some (slcr_smc_clk_ctrl, slcr_smc_clk_ctrl, 0x00003f31, one_act c)
  else if d =? ctrl_lqspi_clk then Some (slcr_lqspi_clk_ctrl, slcr_lqspi_clk_ctrl, 0x00003f31, one_act c)
  else if d =? ctrl_sdio_clk then Some (slcr_sdio_clk_ctrl, slcr_sdio_clk_ctrl, 0x00003f33, two_acts c)
  else if d =? ctrl_uart_clk then Some (slcr_uart_clk_ctrl, slcr_uart_clk_ctrl, 0x00003f33, two_acts c)
  else if d =? ctrl_spi_clk then Some (slcr_spi_clk_ctrl, slcr_spi_clk_ctrl, 0x00003f33, two_acts c)
  else if d =? ctrl_can_clk then
    Some (slcr_can_clk_ctrl, slcr_can_clk_ctrl, 0x03f03f33, Z.lor (two_acts c) (Z.shiftl (Z.land (divisor1 c) 0x3f) 20))
  else if d =? ctrl_can_mioclk then
    Some (slcr_can_mioclk_ctrl, slcr_can_mioclk_ctrl, 0x007f007f,
      Z.lor (Z.lor (Z.lor (Z.land (mux0 c) 0x3f) (Z.shiftl (nz (ref0 c)) 6)) (Z.shiftl (Z.land (mux1 c) 0x3f) 16)) (Z.shiftl (nz (ref1 c)) 22))
  else None.

Definition _zynq_setCtlClock (c : ctl_clock_t) (w : W) : Z * W :=
  let w := _zynq_slcrUnlock w in
  match clock_fields c with
  | None => (-1, _zynq_slcrLock w)
  | Some (dst, src, mask, val) => (0, _zynq_slcrLock (update dst src mask val w))
  end.

Definition regfield (v k m : Z) : Z := Z.land (Z.shiftr v k) m.

(** [dev] selects what is read; the other bytes of [c] are replaced. *)
Definition _zynq_getCtlClock (c : ctl_clock_t) (w : W) : Z * ctl_clock_t * W :=
  let d := dev c in
  if (d =? ctrl_usb0_clk) || (d =? ctrl_usb1_clk) then
    let '(v, w) := slcr_read (slcr_usb0_clk_ctrl + (d - ctrl_usb0_clk)) w in (0, mk_clock d 0 0 (regfield v 4 0x7) 0 0, w)
  else if (d =? ctrl_gem0_rclk) || (d =? ctrl_gem1_rclk) then
    let '(v, w) := slcr_read (slcr_gem0_rclk_ctrl + (d - ctrl_gem0_rclk)) w in (0, mk_clock d 0 0 (regfield v 4 0x1) 0 (Z.land v 0x1), w)
  else if (d =? ctrl_gem0_clk) || (d =? ctrl_gem1_clk) then
    let '(v, w) := slcr_read (slcr_gem0_clk_ctrl + (d - ctrl_gem0_clk)) w in
    (0, mk_clock d (regfield v 20 0x3f) (regfield v 8 0x3f) (regfield v 4 0x7) 0 (Z.land v 0x1), w)
  else if d =? ctrl_smc_clk then
    let '(v, w) := slcr_read slcr_smc_clk_ctrl w in (0, mk_clock d 0 (regfield v 8 0x3f) (regfield v 4 0x3) 0 (Z.land v 0x1), w)
  else if d =? ctrl_lqspi_clk then
    let '(v, w) := slcr_read slcr_lqspi_clk_ctrl w in (0, mk_clock d 0 (regfield v 8 0x3f) (regfield v 4 0x3) 0 (Z.land v 0x1), w)
  else if d =? ctrl_sdio_clk then
    let '(v, w) := slcr_read slcr_sdio_clk_ctrl w in (0, mk_clock d 0 (regfield v 8 0x3f) (regfield v 4 0x3) (regfield v 1 0x1) (Z.land v 0x1), w)
  else if d =? ctrl_uart_clk then
    let '(v, w) := slcr_read slcr_uart_clk_ctrl w in (0, mk_clock d 0 (regfield v 8 0x3f) (regfield v 4 0x3) (regfield v 1 0x1) (Z.land v 0x1), w)
  else if d =? ctrl_spi_clk then
    let '(v, w) := slcr_read slcr_spi_clk_ctrl w in (0, mk_clock d 0 (regfield v 8 0x3f) (regfield v 4 0x3) (regfield v 1 0x1) (Z.land v 0x1), w)
  else if d =? ctrl_can_clk then
    let '(v, w) := slcr_read slcr_can_clk_ctrl w in
    (0, mk_clock d (regfield v 20 0x3f) (regfield v 8 0x3f) (regfield v 4 0x3) (regfield v 1 0x1) (Z.land v 0x1), w)
  else if d =? ctrl_can_mioclk then
    let '(v, w) := slcr_read slcr_can_mioclk_ctrl w in
    (0, mk_clock d (regfield v 22 0x1) (regfield v 16 0x3f) (regfield v 6 0x1) (Z.land v 0x3f) (clkact0 c), w)
  else (-1, c, w).

Definition mio_fields (m : ctl_mio_t) : Z :=
  Z.lor (Z.lor (Z.lor (Z.lor (Z.lor (Z.lor (Z.lor (Z.lor (nz (triEnable m)) (Z.shiftl (nz (l0 m)) 1)) (Z.shiftl (nz (l1 m)) 2)) (Z.shiftl (Z.land (l2 m) 0x3) 3))
    (Z.shiftl (Z.land (l3 m) 0x7) 5)) (Z.shiftl (nz (mio_speed m)) 8)) (Z.shiftl (Z.land (ioType m) 0x7) 9)) (Z.shiftl (nz (pullup m)) 12)) (Z.shiftl (nz (disableRcvr m)) 13).

Definition _zynq_setMIO (m : ctl_mio_t) (w : W) : Z * W :=
  if 53 <? pin m then (-1, w)
  else
    let r := slcr_mio_pin_00 + pin m in
    (0, _zynq_slcrLock (update r r 0x00003fff (mio_fields m) (_zynq_slcrUnlock w))).

Definition _zynq_getMIO (m : ctl_mio_t) (w : W) : Z * ctl_mio_t * W :=
  if 53 <? pin m then (-1, m, w)
  else
    let '(v, w) := slcr_read (slcr_mio_pin_00 + pin m) w in
    (0, mk_mio (pin m) (regfield v 13 0x1) (regfield v 12 0x1) (regfield v 9 0x7) (regfield v 8 0x1) (regfield v 5 0x7) (regfield v 3 0x3) (regfield v 2 0x1) (regfield v 1 0x1) (Z.land v 0x1), w).

Definition _zynq_setSDWpCd (dev wpPin cdPin : Z) (w : W) : Z * W :=
  if negb (dev =? 0) && negb (dev =? 1) then (-1, w)
  else if (63 <? cdPin) || (63 <? wpPin) then (-1, w)
  else (0, _zynq_slcrLock (slcr_write (slcr_sd0_wp_cd_sel + dev) (Z.lor (Z.shiftl cdPin 16) wpPin) (_zynq_slcrUnlock w))).

(** The pins are [None] when they are not stored. *)
Definition _zynq_getSDWpCd (dev : Z) (w : W) : Z * option (Z * Z) * W :=
  if negb (dev =? 0) && negb (dev =? 1) then (-1, None, w)
  else let '(v, w) := slcr_read (slcr_sd0_wp_cd_sel + dev) w in (0, Some (Z.land v 0x3f, regfield v 16 0x3f), w).

Definition _zynq_clcksInit (w : W) : W :=
  let w := _zynq_slcrUnlock w in
  let w := update slcr_dci_clk_ctrl slcr_dci_clk_ctrl 0x03f03f01 0x00700f01 w in
  let w := update slcr_pcap_clk_ctrl slcr_pcap_clk_ctrl 0x00003f31 0x00000501 w in
  let w := update slcr_fpga0_clk_ctrl slcr_fpga0_clk_ctrl 0x03f03f30 0x00200500 w in
  let w := update slcr_clk_621_true slcr_clk_621_true 0x00000001 0x00000001 w in
  let w := update slcr_aper_clk_ctrl slcr_aper_clk_ctrl 0x01ffcccd 0x00000000 w in
  _zynq_slcrLock w.

(** Waits for a bit of the status of the PLLs. *)
Fixpoint pll_wait (fuel : nat) (bit : Z) (w : W) : option W :=
  match fuel with
  | O => None
  | S fuel => let '(v, w) := slcr_read slcr_pll_status w in if Z.land v bit =? 0 then pll_wait fuel bit w else Some w
  end.

(** What the three functions below do to their PLL. *)
Definition pll_setup (fuel : nat) (cfg cfg_val ctrl fdiv bit : Z) (w : W) : option W :=
  let w := update cfg cfg 0x003ffff0 cfg_val (_zynq_slcrUnlock w) in
  let w := update ctrl ctrl 0x0007f000 (Z.shiftl fdiv 12) w in
  let w := update ctrl ctrl 0x00000010 0x00000010 w in
  let w := update ctrl ctrl 0x00000001 0x00000001 w in
  let w := update ctrl ctrl 0x00000001 0x00000000 w in
  w ← pll_wait fuel bit w; Some (update ctrl ctrl 0x00000010 0x00000000 w).

Definition _zynq_ioPllInit (fuel : nat) (fdiv : Z) (w : W) : option W :=
  w ← pll_setup fuel slcr_io_pll_cfg 0x001452c0 slcr_io_pll_ctrl fdiv 0x00000004 w; Some (_zynq_slcrLock w).

Definition _zynq_ddrPllInit (fuel : nat) (fdiv : Z) (w : W) : option W :=
  w ← pll_setup fuel slcr_ddr_pll_cfg 0x0012c220 slcr_ddr_pll_ctrl fdiv 0x00000002 w;
  Some (_zynq_slcrLock (update slcr_ddr_clk_ctrl slcr_ddr_clk_ctrl 0xfff00003 0x0c200003 w)).

Definition _zynq_armPllInit (fuel : nat) (fdiv : Z) (w : W) : option W :=
  w ← pll_setup fuel slcr_arm_pll_cfg 0x000fa220 slcr_arm_pll_ctrl fdiv 0x00000001 w;
  Some (_zynq_slcrLock (update slcr_arm_clk_ctrl slcr_arm_clk_ctrl 0x1f003f30 0x1f000200 w)).

Definition _zynq_softRst (w : W) : W :=
  let '(x, w) := slcr_read slcr_pss_rst_ctrl (_zynq_slcrUnlock w) in _zynq_slcrLock (slcr_write slcr_pss_rst_ctrl (Z.lor x 0x1) w).

End zynq.

(** ** What the registers do

    While they are unlocked, a register takes the bits it has ([wmask]) of what is written. *)

Class Slcr_hw (W : Type) `{Slcr W} := {
  regs : W -> Z -> Z;
  locked : W -> bool;
  wmask : Z -> Z;
  plain (r : Z) : Prop := r <> slcr_lock /\ r <> slcr_unlock /\ r <> slcr_pll_status;
  same_regs (w w' : W) : Prop := forall r, plain r -> regs w' r = regs w r;
  read_law r w : same_regs w (slcr_read r w).2 /\ locked (slcr_read r w).2 = locked w /\ (plain r -> (slcr_read r w).1 = regs w r);
  lock_law w : same_regs w (slcr_write slcr_lock 0x767b w) /\ locked (slcr_write slcr_lock 0x767b w) = true;
  unlock_law w : same_regs w (slcr_write slcr_unlock 0xdf0d w) /\ locked (slcr_write slcr_unlock 0xdf0d w) = false;
  write_law r v w : plain r -> locked w = false ->
    let w' := slcr_write r v w in
    locked w' = false /\ regs w' r = Z.land v (wmask r) /\ (forall r', plain r' -> r' <> r -> regs w' r' = regs w r');
  clock_bits c dst src mask val : clock_fields c = Some (dst, src, mask, val) -> Z.land mask (wmask dst) = mask;
  mio_bits p : 0 <= p <= 53 -> Z.land 0x3fff (wmask (slcr_mio_pin_00 + p)) = 0x3fff;
  amba_bits : Z.land 0x1ffffff (wmask slcr_aper_clk_ctrl) = 0x1ffffff
}.

(** Fields of registers. *)
Lemma nz_bit x : 0 <= x < 2 -> nz x = x.
Proof. intros. assert (x = 0 \/ x = 1) as [-> | ->] by lia; done. Qed.

Lemma field_written x mask val wm k m :
  0 <= k -> 0 <= m -> Z.land (Z.shiftl m k) mask = Z.shiftl m k -> Z.land mask wm = mask ->
  regfield (Z.land (Z.lor (Z.ldiff x mask) val) wm) k m = regfield val k m.
Proof.
  intros K M Mm Mw. unfold regfield. apply Z.bits_inj'. intros i I. rewrite !Z.land_spec, !Z.shiftr_spec, !Z.land_spec, Z.lor_spec, Z.ldiff_spec by done.
  destruct (Z.testbit m i) eqn:B; [|by rewrite !andb_false_r].
  apply (f_equal (fun z => Z.testbit z (i + k))) in Mm, Mw. rewrite Z.land_spec, Z.shiftl_spec in Mm by lia. rewrite Z.land_spec in Mw.
  replace (i + k - k) with i in Mm by lia. rewrite B in Mm. cbn [andb] in Mm. rewrite Mm in Mw |- *. cbn [andb negb] in *. rewrite Mw. by rewrite !andb_false_r, !andb_true_r.
Qed.

Lemma kept_bits x mask val wm i :
  0 <= i -> Z.testbit mask i = false -> Z.land val mask = val -> Z.testbit wm i = true ->
  Z.testbit (Z.land (Z.lor (Z.ldiff x mask) val) wm) i = Z.testbit x i.
Proof.
  intros I M V B. apply (f_equal (fun z => Z.testbit z i)) in V. rewrite Z.land_spec, M, andb_false_r in V.
  by rewrite Z.land_spec, Z.lor_spec, Z.ldiff_spec, M, B, <- V, orb_false_r, !andb_true_r.
Qed.

Lemma land_low x n m : m = Z.ones n -> 0 <= n -> 0 <= x < 2 ^ n -> Z.land x m = x.
Proof. intros -> N X. rewrite Z.land_ones by done. by apply Z.mod_small. Qed.

(** Reads a field of a value that is a sum of fields. *)
Lemma field_sum v k m n : m = Z.ones n -> 0 <= n -> 0 <= k -> regfield v k m = v / 2 ^ k mod 2 ^ n.
Proof. intros -> N K. unfold regfield. by rewrite Z.land_ones, Z.shiftr_div_pow2. Qed.

(** Values within a mask. *)
Definition within (a mask : Z) : Prop := Z.land a mask = a.

Lemma within_lor a b mask : within a mask -> within b mask -> within (Z.lor a b) mask.
Proof. unfold within. intros A B. by rewrite Z.land_lor_distr_l, A, B. Qed.

Lemma within_field x m k mask : 0 <= k -> within (Z.shiftl m k) mask -> within (Z.shiftl (Z.land x m) k) mask.
Proof. unfold within. intros K M. rewrite Z.shiftl_land, <- Z.land_assoc, M. done. Qed.

Lemma within_low x m mask : within m mask -> within (Z.land x m) mask.
Proof. unfold within. intros M. by rewrite <- Z.land_assoc, M. Qed.

Lemma within_nz x mask : within 1 mask -> within (nz x) mask.
Proof. intros. unfold nz. by destruct (x =? 0). Qed.

Lemma within_flag x k mask : within (Z.shiftl 1 k) mask -> within (Z.shiftl (nz x) k) mask.
Proof. intros. unfold nz. destruct (x =? 0); cbn; [by rewrite Z.shiftl_0_l|done]. Qed.

Ltac within_mask :=
  repeat apply within_lor; first [apply within_field; [done|reflexivity] | apply within_low; reflexivity | apply within_flag; reflexivity | apply within_nz; reflexivity].

Ltac fields :=
  repeat (rewrite nz_bit by lia);
  repeat match goal with |- context [Z.land ?x ?m] =>
    first [rewrite (land_low x 1 m eq_refl) by lia | rewrite (land_low x 2 m eq_refl) by lia | rewrite (land_low x 3 m eq_refl) by lia | rewrite (land_low x 6 m eq_refl) by lia] end;
  repeat match goal with |- context [Z.lor ?a (Z.shiftl ?b ?k)] =>
    lazymatch a with context [Z.lor _ _] => fail | _ => rewrite (lor_shiftl_add a b k) by (rewrite ?Z.shiftl_mul_pow2 by lia; lia) end end;
  rewrite ?Z.shiftl_mul_pow2 by lia;
  first [rewrite (field_sum _ _ _ 1 eq_refl) by lia | rewrite (field_sum _ _ _ 2 eq_refl) by lia | rewrite (field_sum _ _ _ 3 eq_refl) by lia | rewrite (field_sum _ _ _ 6 eq_refl) by lia];
  modlia.

Section laws.
  Context {W : Type} `{Slcr_hw W}.
  Implicit Types w : W.

(** An update between unlocking and locking; nothing is known of what the registers of the lock read. *)
Lemma update_spec dst src mask val w :
  plain dst ->
  let w' := _zynq_slcrLock (update dst src mask val (_zynq_slcrUnlock w)) in
  locked w' = true /\
  (exists x, (plain src -> x = regs w src) /\ regs w' dst = Z.land (Z.lor (Z.ldiff x mask) val) (wmask dst)) /\
  (forall r, plain r -> r <> dst -> regs w' r = regs w r).
Proof.
  intros D. cbn zeta. unfold update. destruct (unlock_law w) as [U1 U2]. fold (_zynq_slcrUnlock w) in U1, U2. set (w1 := _zynq_slcrUnlock w) in *.
  destruct (read_law src w1) as (R1 & R2 & R3). destruct (slcr_read src w1) as [x w2]. cbn [fst snd] in *.
  destruct (write_law dst (Z.lor (Z.ldiff x mask) val) w2 D) as (X1 & X2 & X3); [congruence|].
  set (w3 := slcr_write dst _ w2) in *. destruct (lock_law w3) as [L1 L2]. unfold _zynq_slcrLock. split; [done|].
  split; [exists x; split; [intros P; by rewrite (R3 P), (U1 _ P)|by rewrite (L1 _ D)]|].
  intros r Q N. by rewrite (L1 _ Q), (X3 _ Q N), (R1 _ Q), (U1 _ Q).
Qed.

(** Sizes in bits of the fields of a device: [divisor1], [divisor0], [srcsel], [clkact1] and [clkact0], or what overlays them. *)
Definition widths (d : Z) : list Z :=
  if d <? 2 then [0; 0; 3; 0; 0] else if d <? 4 then [0; 0; 1; 0; 1] else if d <? 6 then [6; 6; 3; 0; 1] else if d <? 8 then [0; 6; 2; 0; 1]
  else if d <? 11 then [0; 6; 2; 1; 1] else if d =? 11 then [6; 6; 2; 1; 1] else [1; 6; 1; 6; 8].

Definition fits (c : ctl_clock_t) : Prop :=
  0 <= dev c < 13 /\ Forall2 (fun n x => 0 <= x < 2 ^ n) (widths (dev c)) [divisor1 c; divisor0 c; srcsel c; clkact1 c; clkact0 c].

Lemma clock_fields_some c : 0 <= dev c < 13 -> exists dst src mask val, clock_fields c = Some (dst, src, mask, val) /\ plain dst /\ (3 < dev c -> src = dst).
Proof.
  intros D. destruct c as [d x1 x2 x3 x4 x5]. cbn in D. assert (In d [0; 1; 2; 3; 4; 5; 6; 7; 8; 9; 10; 11; 12]) as I by (cbn; lia). cbn in I.
  repeat destruct I as [<- |I]; try done; do 4 eexists; (split; [reflexivity|]); (split; [repeat split; done|]); cbn; intros; (done || lia).
Qed.
Lemma clock_fields_within c dst src mask val : clock_fields c = Some (dst, src, mask, val) -> within val mask.
Proof.
  unfold clock_fields, two_acts, one_act. repeat case_match; intros [= <- <- <- <-]; within_mask.
Qed.

(** What a field reads after [mio_fields], and in particular after an update. *)
Lemma mio_field_values m :
  0 <= triEnable m < 2 -> 0 <= l0 m < 2 -> 0 <= l1 m < 2 -> 0 <= l2 m < 4 -> 0 <= l3 m < 8 -> 0 <= mio_speed m < 2 -> 0 <= ioType m < 8 ->
  0 <= pullup m < 2 -> 0 <= disableRcvr m < 2 ->
  let v := mio_fields m in
  regfield v 0 1 = triEnable m /\ regfield v 1 1 = l0 m /\ regfield v 2 1 = l1 m /\ regfield v 3 3 = l2 m /\ regfield v 5 7 = l3 m /\ regfield v 8 1 = mio_speed m /\
  regfield v 9 7 = ioType m /\ regfield v 12 1 = pullup m /\ regfield v 13 1 = disableRcvr m.
Proof. intros. subst v. unfold mio_fields. repeat split; fields. Qed.

Lemma two_acts_values c :
  0 <= clkact0 c < 2 -> 0 <= clkact1 c < 2 -> 0 <= srcsel c < 4 -> 0 <= divisor0 c < 64 -> 0 <= divisor1 c < 64 ->
  let v := two_acts c in let v' := Z.lor v (Z.shiftl (Z.land (divisor1 c) 0x3f) 20) in
  regfield v 0 1 = clkact0 c /\ regfield v 1 1 = clkact1 c /\ regfield v 4 3 = srcsel c /\ regfield v 8 63 = divisor0 c /\
  regfield v' 0 1 = clkact0 c /\ regfield v' 1 1 = clkact1 c /\ regfield v' 4 3 = srcsel c /\ regfield v' 8 63 = divisor0 c /\ regfield v' 20 63 = divisor1 c.
Proof. intros. subst v' v. unfold two_acts. repeat split; fields. Qed.
(** Reads of a register that is kept. *)
Lemma read_regs r w : plain r -> exists w', slcr_read r w = (regs w r, w') /\ same_regs w w' /\ locked w' = locked w.
Proof. intros P. destruct (read_law r w) as (R1 & R2 & R3). destruct (slcr_read r w) as [x w']. cbn [fst snd] in *. exists w'. by rewrite (R3 P). Qed.

(** A field of the register of a device, once it is written. *)
Lemma clock_field c dst src mask val x k m :
  clock_fields c = Some (dst, src, mask, val) -> 0 <= k -> 0 <= m -> Z.land (Z.shiftl m k) mask = Z.shiftl m k ->
  regfield (Z.land (Z.lor (Z.ldiff x mask) val) (wmask dst)) k m = regfield val k m.
Proof. intros E K M I. apply field_written; [done..|]. by eapply clock_bits. Qed.

Lemma field_low v m : Z.land v m = regfield v 0 m.
Proof. unfold regfield. by rewrite Z.shiftr_0_r. Qed.

(** What the fields of a device are, in the register that is written. *)
Lemma get_clock c c0 dst src mask val x w :
  fits c -> dev c0 = dev c -> (dev c = ctrl_can_mioclk -> clkact0 c0 = clkact0 c) -> clock_fields c = Some (dst, src, mask, val) ->
  plain dst -> regs w dst = Z.land (Z.lor (Z.ldiff x mask) val) (wmask dst) ->
  exists w', _zynq_getCtlClock c0 w = (0, c, w') /\ same_regs w w' /\ locked w' = locked w.
Proof.
  intros [D F] D0 A E P R. destruct (read_regs dst w P) as (w' & X & S1 & S2). exists w'. split; [|done]. unfold _zynq_getCtlClock. rewrite D0. clear S1 S2.
  pose proof (fun k m => clock_field c dst src mask val x k m E) as Fd. rewrite <- R in Fd. clear R P.
  destruct c as [d x1 x2 x3 x4 x5]. cbn [dev divisor1 divisor0 srcsel clkact1 clkact0] in *. assert (In d [0; 1; 2; 3; 4; 5; 6; 7; 8; 9; 10; 11; 12]) as I by (cbn; lia). cbn in I.
  repeat destruct I as [<- |I]; try done; cbn in F; repeat (apply Forall2_cons in F as [? F]); injection E as <- <- <- <-; cbn -[Z.land regfield wmask] in X |- *; rewrite X.
  all: rewrite ?field_low, ?Fd by (lia || reflexivity); unfold two_acts, one_act, mux0, mux1, ref0, ref1; cbn [clkact0 clkact1 srcsel divisor0 divisor1];
    do 2 f_equal; rewrite ?A by done; f_equal; first [lia | fields].
Qed.

(** The same for a pin. *)
Lemma zynq_mio_roundtrip m w :
  0 <= pin m <= 53 -> 0 <= triEnable m < 2 -> 0 <= l0 m < 2 -> 0 <= l1 m < 2 -> 0 <= l2 m < 4 -> 0 <= l3 m < 8 -> 0 <= mio_speed m < 2 ->
  0 <= ioType m < 8 -> 0 <= pullup m < 2 -> 0 <= disableRcvr m < 2 ->
  exists w1 w2, _zynq_setMIO m w = (0, w1) /\ (forall m0, pin m0 = pin m -> _zynq_getMIO m0 w1 = (0, m, w2)) /\ locked w2 = true /\
    (forall r, plain r -> r <> slcr_mio_pin_00 + pin m -> regs w2 r = regs w r).
Proof.
  intros P B1 B2 B3 B4 B5 B6 B7 B8 B9. unfold _zynq_setMIO, _zynq_getMIO. destruct (Z.ltb_spec 53 (pin m)); [lia|].
  set (r := slcr_mio_pin_00 + pin m). assert (Pr : plain r) by (unfold plain, r, slcr_mio_pin_00, slcr_lock, slcr_unlock, slcr_pll_status; lia).
  destruct (update_spec r r 0x3fff (mio_fields m) w Pr) as (L & (x & _ & R) & O). set (w1 := _zynq_slcrLock _) in *.
  destruct (read_regs r w1 Pr) as (w2 & X & S1 & S2). exists w1, w2. split; [done|]. split; [|split; [congruence|]].
  - intros m0 E. rewrite E. destruct (Z.ltb_spec 53 (pin m)); [lia|]. fold r. rewrite X. cbv beta iota. rewrite R, (field_low _ 1).
    rewrite !field_written by (try done; try lia; by apply mio_bits).
    destruct (mio_field_values m B1 B2 B3 B4 B5 B6 B7 B8 B9) as (-> & -> & -> & -> & -> & -> & -> & -> & ->). by destruct m.
  - intros q Q N. by rewrite (S1 _ Q), O.
Qed.

(** And for the clock of a device on the bus. *)
Lemma zynq_amba_roundtrip d state w :
  0 <= d <= 24 -> exists w1 w2, _zynq_setAmbaClk d state w = (0, w1) /\ _zynq_getAmbaClk d w1 = (0, Some (nz state), w2) /\ locked w2 = true.
Proof.
  intros D. unfold _zynq_setAmbaClk, _zynq_getAmbaClk. destruct (Z.ltb_spec 24 d); [lia|].
  set (r := slcr_aper_clk_ctrl). assert (Pr : plain r) by done. set (mask := Z.shiftl 1 d). set (val := Z.shiftl (nz state) d).
  destruct (update_spec r r mask val w Pr) as (L & (x & _ & R) & _). set (w1 := _zynq_slcrLock _) in *. exists w1.
  destruct (unlock_law w1) as [U1 _]. fold (_zynq_slcrUnlock w1) in U1. destruct (read_regs r (_zynq_slcrUnlock w1) Pr) as (w2 & X & S1 & S2). rewrite X, (U1 _ Pr), R.
  exists (_zynq_slcrLock w2). split; [done|]. split; [|apply lock_law]. change (Z.land (Z.shiftr ?v ?k) 1) with (regfield v k 1).
  rewrite field_written; [|lia|lia| |].
  - do 3 f_equal. unfold regfield, val. rewrite Z.shiftr_shiftl_l, Z.sub_diag, Z.shiftl_0_r by lia. unfold nz. by destruct (state =? 0).
  - apply Z.land_diag.
  - assert (M : within mask 0x1ffffff).
    { assert (In d (seqZ 0 25)) as I by (apply list_elem_of_In, elem_of_seqZ; lia). unfold mask. clear -I. cbn in I. repeat destruct I as [<- |I]; try reflexivity. done. }
    unfold within in M. rewrite <- M, <- Z.land_assoc. by rewrite amba_bits.
Qed.
End laws.

(** ** Registers that are stored *)

Module regfile.
Definition file : Type := (Z -> Z) * bool.

Definition write (r v : Z) (w : file) : file :=
  if r =? slcr_lock then (w.1, if v =? 0x767b then true else w.2)
  else if r =? slcr_unlock then (w.1, if v =? 0xdf0d then false else w.2)
  else if w.2 then w else (fun r' => if r' =? r then Z.land v 0xffffffff else w.1 r', false).

#[global] Instance ops : Slcr file := {| slcr_read r w := (w.1 r, w); slcr_write := write |}.

#[global] Instance laws : Slcr_hw file.
Proof.
  refine {| regs w := w.1; locked w := w.2; wmask _ := 0xffffffff |}.
  - done.
  - done.
  - done.
  - intros r v [f b] (P1 & P2 & P3) L. cbn in L. subst b. cbn. unfold write. cbn. destruct (Z.eqb_spec r slcr_lock), (Z.eqb_spec r slcr_unlock); try done. cbn.
    split; [done|]. split; [by rewrite Z.eqb_refl|]. intros r' _ N. by destruct (Z.eqb_spec r' r).
  - intros c dst src mask val. unfold clock_fields. repeat case_match; intros [= <- <- <- <-]; reflexivity.
  - done.
  - done.
Defined.
End regfile.

Definition sdio_clock : ctl_clock_t := mk_clock ctrl_sdio_clk 0 10 0 0 1.


(** The other bits of the register of a USB clock are lost: those of another register, at its number among the devices, are written instead. *)
Lemma usb_clock_clobbered :
  regs (_zynq_setCtlClock (mk_clock ctrl_usb0_clk 0 0 1 0 0) ((fun r => if r =? slcr_usb0_clk_ctrl then 0x3f01 else 0), true)).2 slcr_usb0_clk_ctrl = 0x10.
Proof. reflexivity. Qed.

(** A pin below zero is not refused: the register before those of the pins is written. *)
Lemma negative_pin :
  let '(r, w) := _zynq_setMIO (mk_mio (-1) 0 0 1 1 0 0 0 1 0) ((fun _ => 0), true) in r = 0 /\ regs w (slcr_mio_pin_00 - 1) = 0x302.
Proof. by split. Qed.
