(* ===== verification/Qspi.v ===== *)
(** * QSPI controller of the Zynq (src/devices/flash-zynq/qspi.c, qspi.h)

    The driver fills the FIFO of the controller, starts it, waits until it is empty and
    collects the answers.  Registers are the class [Regs], as words; [Qspi_hw] states
    how FIFOs and the chip on the bus behave.  [None] is an access outside a buffer, or
    no result within the fuel. *)

From S2P Require Import Prelude Mem Devs Rtt Zynq.

(** ** Registers *)

Definition cr := 0.
Definition sr := 1.
Definition ier := 2.
Definition idr := 3.
Definition er := 5.
Definition txd00 := 7.
Definition rxd := 8.
Definition rxth := 11.
Definition lpbk := 0xe.
Definition txd01 := 0x20.
Definition txd10 := 0x21.
Definition txd11 := 0x22.
Definition lqspi_cr := 0x28.

Class Regs (W : Type) := {
  reg_read : Z -> W -> Z * W;
  reg_write : Z -> Z -> W -> W;
  hal_timerGet : W -> Z * W
}.

Section qspi.
  Context {W : Type} `{Regs W}.

(** [*reg |= v] and [*reg &= ~v]. *)
Definition reg_set (r v : Z) (w : W) : W := let '(x, w) := reg_read r w in reg_write r (Z.lor x v) w.
Definition reg_clear (r v : Z) (w : W) : W := let '(x, w) := reg_read r w in reg_write r (Z.ldiff x v) w.

Definition qspi_rxFifoEmpty (w : W) : bool * W :=
  let '(_, w) := reg_read sr w in
  let '(v, w) := reg_read sr w in (Z.land v (Z.shiftl 1 4) =? 0, w).

Fixpoint rx_flush (fuel : nat) (w : W) : option W :=
  let '(empty, w) := qspi_rxFifoEmpty w in
  if empty then Some w
  else match fuel with O => None | S fuel => let '(_, w) := reg_read rxd w in rx_flush fuel w end.

Definition qspi_stop (fuel : nat) (w : W) : option W :=
  w ← rx_flush fuel w; Some (reg_write er 0 (reg_set cr (Z.shiftl 1 10) w)).

Definition qspi_start (w : W) : W :=
  reg_write er 0x1 (reg_clear cr (Z.shiftl 1 10) (reg_write rxth 0x1 w)).

(** The bytes of a word that was received, of which [size] are wanted. *)
Definition rx_bytes (data size : Z) : list Z :=
  if size =? 0 then []
  else if size =? 1 then [Z.shiftr data 24]
  else if size =? 2 then [Z.land (Z.shiftr data 16) 0xff; Z.shiftr data 24]
  else if size =? 3 then [Z.land (Z.shiftr data 8) 0xff; Z.land (Z.shiftr data 16) 0xff; Z.shiftr data 24]
  else [Z.land data 0xff; Z.land (Z.shiftr data 8) 0xff; Z.land (Z.shiftr data 16) 0xff; Z.shiftr data 24].

Definition qspi_rxData (size : Z) (w : W) : Z * list Z * W :=
  let '(data, w) := reg_read rxd w in (Z.min size 4, rx_bytes data size, w).

(** [txBuff] is [None] for NULL. *)
Definition qspi_txData (txBuff : option (list Z)) (size : Z) (w : W) : option (Z * W) :=
  let buff := default [0; 0; 0; 0] txBuff in
  if size =? 0 then Some (0, w)
  else
    let n := if 4 <=? size then 4 else size in
    bs ← mbytes buff 0 n;
    Some (n, reg_write (if n =? 1 then txd01 else if n =? 2 then txd10 else if n =? 3 then txd11 else txd00) (le_val bs) w).

Definition qspi_txFifoFull (w : W) : bool * W :=
  let '(v, w) := reg_read sr w in (negb (Z.land v (Z.shiftl 1 3) =? 0), w).

Definition qspi_txFifoEmpty (w : W) : bool * W :=
  let '(v, w) := reg_read sr w in (negb (Z.land v (Z.shiftl 1 2) =? 0), w).

(** Whole words, until the FIFO is full.  [txSz] bytes are left, [rxSz] are in the FIFO. *)
Fixpoint tx_fill (fuel : nat) (txBuff : option (list Z)) (txSz rxSz : Z) (w : W) : option (option (list Z) * Z * Z * W) :=
  if txSz <? 4 then Some (txBuff, txSz, rxSz, w)
  else
    let '(full, w) := qspi_txFifoFull w in
    if full then Some (txBuff, txSz, rxSz, w)
    else
      match fuel with
      | O => None
      | S fuel =>
          '(n, w) ← qspi_txData txBuff txSz w;
          tx_fill fuel ((fun b => zdrop n b) <$> txBuff) (txSz - n) (rxSz + n) w
      end.

(** [false] when the time is over. *)
Fixpoint tx_wait (fuel : nat) (start timeout : Z) (w : W) : option (bool * W) :=
  let '(empty, w) := qspi_txFifoEmpty w in
  if empty then Some (true, w)
  else
    match fuel with
    | O => None
    | S fuel =>
        let '(t, w) := hal_timerGet w in
        if timeout <=? t - start then Some (false, w) else tx_wait fuel start timeout w
    end.

(** The answers of [rxSz] bytes; [false] when one is missing. *)
Fixpoint rx_collect (fuel : nat) (rxSz : Z) (out : list Z) (w : W) : option (bool * list Z * W) :=
  if rxSz =? 0 then Some (true, out, w)
  else
    let '(empty, w) := qspi_rxFifoEmpty w in
    if empty then Some (false, out, w)
    else
      match fuel with
      | O => None
      | S fuel => let '(n, bs, w) := qspi_rxData rxSz w in rx_collect fuel (rxSz - n) (out ++ bs) w
      end.

(** The loop of [qspi_polledTransfer]; [out] is what was received. *)
Fixpoint transfer_loop (k fuel : nat) (txBuff : option (list Z)) (size txSz start timeout : Z) (out : list Z) (w : W)
    : option (Z * list Z * W) :=
  if txSz =? 0 then Some (size, out, w)
  else
    match k with
    | O => None
    | S k =>
        '(txBuff, txSz, rxSz, w) ←
          (if txSz <? 4 then '(n, w) ← qspi_txData txBuff txSz w; Some (txBuff, txSz - n, n, w)
           else tx_fill fuel txBuff txSz 0 w);
        let w := reg_set cr (Z.shiftl 1 16) w in
        '(ok, w) ← tx_wait fuel start timeout w;
        if negb ok then Some (- ETIME, out, w)
        else
          '(ok, out, w) ← rx_collect fuel rxSz out w;
          if negb ok then Some (- EIO, out, w) else transfer_loop k fuel txBuff size txSz start timeout out w
    end.

(** The result also has the bytes stored to [rxBuff] when it is not NULL. *)
Definition qspi_polledTransfer (fuel : nat) (txBuff : option (list Z)) (size timeout : Z) (w : W) : option (Z * list Z * W) :=
  let '(start, w) := hal_timerGet w in transfer_loop (S (Z.to_nat size)) fuel txBuff size size start timeout [] w.

(** [qspi_IOMode]; [QSPI_SCLK_DIV] may be defined by a board, [QSPI_FCLK] is the pin of
    the loopback clock or negative. *)
Definition qspi_IOMode (QSPI_SCLK_DIV : option Z) (QSPI_FCLK : Z) (w : W) : W :=
  let w := reg_clear er 0x1 w in
  let w := reg_write idr 0x7d w in
  let w := reg_write cr (Z.lor 0x1 (Z.shiftl 1 31)) w in
  let w := match QSPI_SCLK_DIV with Some d => reg_set cr (Z.shiftl d 3) w | None => reg_set cr (Z.shiftl 0x1 3) w end in
  let w := if QSPI_FCLK <? 0 then reg_set cr (Z.shiftl 0x1 3) w else w in
  let w := reg_clear cr (Z.shiftl 1 26) w in
  let w := reg_set cr (Z.shiftl 0x3 6) w in
  let w := reg_clear cr (Z.shiftl 0x3 1) w in
  let w := reg_set cr (Z.shiftl 0x3 14) w in
  let w := if 0 <=? QSPI_FCLK then reg_write lpbk (Z.shiftl 1 5) (reg_clear lpbk 0x3f w) else w in
  let w := reg_write lqspi_cr 0 w in
  reg_write ier 0x7d w.

(** Zynq-7000; the pins are numbers of board_config.h.  [pin] is unsigned: -1 is 0xffffffff, no less than 0, and -1 again as an int. *)
Context `{Slcr W}.

Definition mio_pin_01 := 1.
Definition mio_pin_08 := 8.

Definition qspi_setPin (pin : Z) (w : W) : Z * W :=
  let pin := w32 pin in
  if pin <? 0 then (EOK, w)
  else if (pin <? mio_pin_01) && (mio_pin_08 <? pin) then (- EINVAL, w)
  else
    let first := pin =? mio_pin_01 in
    _zynq_setMIO (mk_mio (s32 pin) 0 (b2z first) 0x1 (if first then 0x0 else 0x1) 0 0 0 0x1 0) w.

Definition qspi_initCtrlClk (w : W) : Z * W := _zynq_setCtlClock (mk_clock ctrl_lqspi_clk 0 5 0 0x1 0x1) w.

(** The pins QSPI_CS, QSPI_IO0 to QSPI_IO3, QSPI_CLK. *)
Definition qspi_init (QSPI_SCLK_DIV : option Z) (QSPI_pins : list Z) (QSPI_FCLK : Z) (w : W) : Z * W :=
  let '(res, w) := _zynq_setAmbaClk amba_lqspi_clk clk_enable w in
  if res <? 0 then (res, w)
  else
    let '(res, w) := qspi_initCtrlClk w in
    if res <? 0 then (res, w)
    else
      let w := foldl (fun w pin => (qspi_setPin pin w).2) w (QSPI_pins ++ [QSPI_FCLK]) in
      (EOK, qspi_IOMode QSPI_SCLK_DIV QSPI_FCLK w).

Definition qspi_deinit (fuel : nat) (w : W) : option (Z * W) :=
  w ← qspi_stop fuel w; Some (_zynq_setAmbaClk amba_lqspi_clk clk_disable w).

End qspi.

(** ** What the controller does

    The chip on the bus: what it answers to a byte while it is selected, and the end of a
    transaction.  The relation leaves room for what it does by itself in between. *)

Class Slave (S : Type) := {
  xchg : Z -> S -> Z -> S -> Prop;
  xchg_byte b s a s' : xchg b s a s' -> is_byte a;
  release : S -> S
}.

Inductive xchgs {S : Type} `{Slave S} : list Z -> S -> list Z -> S -> Prop :=
  | xchgs_nil s : xchgs [] s [] s
  | xchgs_cons b bs s a s1 out s' : xchg b s a s1 -> xchgs bs s1 out s' -> xchgs (b :: bs) s (a :: out) s'.

(** The FIFOs hold the bytes to send, by words, and the words received; [seen] is the delayed bit of the status. *)
Record ctl {S : Type} := mk_ctl {
  txq : list (list Z); rxq : list Z; seen : bool; running : bool; cr_v : Z; er_v : Z; slv : S
}.
Arguments ctl : clear implicits.
Arguments mk_ctl {S}.

Section hardware.
  Context {S : Type} `{Slave S} (depth : Z).

(** Bytes received are shifted into a word from the top. *)
Definition shifted_in (bs : list Z) (v : Z) : Prop := 0 <= v < 2 ^ 32 /\ Z.shiftr v (8 * (4 - zlen bs)) = le_val bs.

Definition push_rx (v : Z) (l : list Z) : list Z := if zlen l <? depth then l ++ [v] else l.

(** A word leaves the FIFO; nobody answers when the chip is not selected. *)
Inductive hstep : ctl S -> ctl S -> Prop :=
  | h_word e q c bs v s' :
      running c = true -> Z.testbit (er_v c) 0 = true -> Z.testbit (cr_v c) 10 = false -> txq c = e :: q ->
      xchgs e (slv c) bs s' -> shifted_in bs v ->
      hstep c (mk_ctl q (push_rx v (rxq c)) (seen c) (negb (bool_decide (q = []))) (cr_v c) (er_v c) s')
  | h_unselected e q c v :
      running c = true -> Z.testbit (cr_v c) 10 = true -> txq c = e :: q ->
      hstep c (mk_ctl q (push_rx v (rxq c)) (seen c) (negb (bool_decide (q = []))) (cr_v c) (er_v c) (slv c)).

(** Status: bit 2 once the last word was exchanged, bit 3 when no word can be added, bit 4 late. *)
Definition rd_eff (r : Z) (m : ctl S) (v : Z) (m' : ctl S) : Prop :=
  if r =? sr then
    Z.testbit v 2 = bool_decide (txq m = []) /\ Z.testbit v 3 = (depth <=? zlen (txq m)) /\ Z.testbit v 4 = seen m /\
    m' = mk_ctl (txq m) (rxq m) (negb (bool_decide (rxq m = []))) (running m) (cr_v m) (er_v m) (slv m)
  else if r =? rxd then
    match rxq m with
    | [] => m' = m
    | x :: l => v = x /\ m' = mk_ctl (txq m) l (seen m) (running m) (cr_v m) (er_v m) (slv m)
    end
  else m' = m /\ (r = cr -> v = cr_v m) /\ (r = er -> v = er_v m).

Definition tx_size (r : Z) : option nat :=
  if r =? txd00 then Some 4%nat else if r =? txd01 then Some 1%nat else if r =? txd10 then Some 2%nat else if r =? txd11 then Some 3%nat else None.

(** Bit 16 of [cr] starts, in manual mode; bit 10 is the line that selects the chip when it is low.  Nothing is known
    of the FIFO when the controller is switched off with words in it. *)
Definition wr_eff (r v : Z) (m m' : ctl S) : Prop :=
  match tx_size r with
  | Some n => zlen (txq m) < depth -> m' = mk_ctl (txq m ++ [le_bytes n v]) (rxq m) (seen m) (running m) (cr_v m) (er_v m) (slv m)
  | None =>
      if r =? cr then
        m' = mk_ctl (txq m) (rxq m) (seen m) (running m || (Z.testbit v 16 && Z.testbit v 15 && negb (bool_decide (txq m = []))))
               (Z.clearbit v 16) (er_v m) (if Z.testbit v 10 && negb (Z.testbit (cr_v m) 10) then release (slv m) else slv m)
      else if r =? er then
        (txq m = [] \/ Z.testbit v 0 = true) -> m' = mk_ctl (txq m) (rxq m) (seen m) (running m) (cr_v m) v (slv m)
      else m' = m
  end.
End hardware.

Class Qspi_hw (W S : Type) `{Regs W} `{Slave S} := {
  depth : Z;
  depth_pos : 0 < depth;
  st : W -> ctl S;
  now : W -> Z; (* the clock, in units of which [res] are a millisecond *)
  res : Z;
  res_pos : 0 < res;
  read_law r w : exists m, rtc (hstep depth) (st w) m /\ rd_eff depth r m (reg_read r w).1 (st (reg_read r w).2);
  write_law r v w : exists m, rtc (hstep depth) (st w) m /\ wr_eff depth r v m (st (reg_write r v w));
  time_law w : rtc (hstep depth) (st w) (st (hal_timerGet w).2);
  read_time r w : now w <= now (reg_read r w).2;
  write_time r v w : now w <= now (reg_write r v w);
  now_law w : (hal_timerGet w).1 = now (hal_timerGet w).2 / res /\ now w < now (hal_timerGet w).2
}.

(** ** Lemmas *)

Section bus.
  Context {S : Type} `{Slave S}.

Lemma xchgs_app bs1 bs2 s o1 s1 o2 s2 : xchgs bs1 s o1 s1 -> xchgs bs2 s1 o2 s2 -> xchgs (bs1 ++ bs2) s (o1 ++ o2) s2.
Proof. induction 1; intros; [done|]. cbn. econstructor; eauto. Qed.

Lemma xchgs_length bs s out s' : xchgs bs s out s' -> length out = length bs.
Proof. induction 1; cbn; lia. Qed.

Lemma xchgs_bytes bs s out s' : xchgs bs s out s' -> Forall is_byte out.
Proof. induction 1; constructor; eauto using xchg_byte. Qed.

(** Words: all of four bytes, or one shorter word. *)
Definition packed (ws : list (list Z)) : Prop := Forall (fun e => zlen e = 4) ws \/ exists e, ws = [e] /\ 0 < zlen e < 4.

Lemma rx_bytes_spec bs v : shifted_in bs v -> Forall is_byte bs -> 0 < zlen bs <= 4 -> rx_bytes v (zlen bs) = bs.
Proof.
  intros [V E] B L. assert (X : forall k, 0 <= k -> Z.shiftr v k = v / 2 ^ k) by (intros; by apply Z.shiftr_div_pow2).
  unfold rx_bytes. destruct bs as [|a [|b [|c [|d [|e l]]]]]; cbn [length] in L; try lia; cbn [length] in *; cbn in E |- *;
    change (Z.land ?x 255) with (Z.land x 0xff); rewrite ?land_ff, ?X in * by lia; repeat apply Forall_cons in B as [? B];
    unfold is_byte in *; repeat f_equal; modlia.
Qed.
End bus.

Section proofs.
  Context {W S : Type} `{Qspi_hw W S}.
  Implicit Types (c m : ctl S) (w : W).

Definition with_seen (b : bool) c : ctl S := mk_ctl (txq c) (rxq c) b (running c) (cr_v c) (er_v c) (slv c).
Definition with_rx (l : list Z) c : ctl S := mk_ctl (txq c) l (seen c) (running c) (cr_v c) (er_v c) (slv c).
Definition with_tx (l : list (list Z)) c : ctl S := mk_ctl l (rxq c) (seen c) (running c) (cr_v c) (er_v c) (slv c).

Lemma stopped c m : running c = false -> rtc (hstep depth) c m -> m = c.
Proof. intros R T. destruct T as [|? ? ? X _]; [done|]. inversion X; congruence. Qed.

Definition load c : Z := zlen (txq c) + zlen (rxq c).

Lemma push_rx_length v l : zlen l <= zlen (push_rx depth v l) <= zlen l + 1.
Proof. unfold push_rx. destruct (_ <? _); rewrite ?length_app; cbn; lia. Qed.

Lemma hstep_load c m : rtc (hstep depth) c m -> load m <= load c /\ zlen (rxq c) <= zlen (rxq m) /\ seen m = seen c /\ cr_v m = cr_v c /\ er_v m = er_v c.
Proof.
  induction 1 as [|x y z X _ (IH & IH2 & IH3 & IH4 & IH5)]; [done|].
  assert (load y <= load x /\ zlen (rxq x) <= zlen (rxq y) /\ seen y = seen x /\ cr_v y = cr_v x /\ er_v y = er_v x) as (L & L2 & L3 & L4 & L5).
  { inversion X as [e q ? bs v s' _ _ _ Q _ _|e q ? v _ _ Q]; subst; pose proof (push_rx_length v (rxq x)); unfold load; cbn; rewrite Q; cbn; (split; [lia|]; split; [lia|done]). }
  split; [lia|]. split; [lia|]. split; [congruence|]. split; congruence.
Qed.

(** *** Accesses while the controller rests *)

Lemma read_rest r w : running (st w) = false -> rd_eff depth r (st w) (reg_read r w).1 (st (reg_read r w).2).
Proof. intros R. destruct (read_law r w) as (m & T & E). by rewrite (stopped _ _ R T) in E. Qed.

Lemma write_rest r v w : running (st w) = false -> wr_eff depth r v (st w) (st (reg_write r v w)).
Proof. intros R. destruct (write_law r v w) as (m & T & E). by rewrite (stopped _ _ R T) in E. Qed.

(** The effect of [reg_set] and [reg_clear] on [cr]. *)
Lemma cr_update (f : Z -> Z) w :
  running (st w) = false ->
  let w' := (let '(x, w) := reg_read cr w in reg_write cr (f x) w) in
  wr_eff depth cr (f (cr_v (st w))) (st w) (st w') /\ now w <= now w'.
Proof.
  intros R. cbn zeta. pose proof (read_rest cr w R) as E. pose proof (read_time cr w) as T. destruct (reg_read cr w) as [x w1]. cbn [fst snd] in *.
  destruct E as (E & C & _). rewrite (C eq_refl). rewrite <- E in R |- *. split; [|pose proof (write_time cr (f (cr_v (st w1))) w1); lia]. by apply write_rest.
Qed.

Lemma rx_empty_spec w :
  exists b w', qspi_rxFifoEmpty w = (b, w') /\ now w <= now w' /\ load (st w') <= load (st w) /\ (b = false -> rxq (st w') <> []) /\
    (running (st w) = false -> b = bool_decide (rxq (st w) = []) /\ st w' = with_seen (negb b) (st w)).
Proof.
  unfold qspi_rxFifoEmpty. pose proof (read_time sr w) as T1. destruct (read_law sr w) as (m1 & R1 & _ & _ & _ & E1).
  pose proof (read_rest sr w) as N1. destruct (reg_read sr w) as [v1 w1]. cbn [fst snd] in *.
  pose proof (read_time sr w1) as T2. destruct (read_law sr w1) as (m2 & R2 & _ & _ & B2 & E2).
  pose proof (read_rest sr w1) as N2. destruct (reg_read sr w1) as [v2 w2]. cbn [fst snd] in *.
  assert (B : (Z.land v2 (Z.shiftl 1 4) =? 0) = negb (Z.testbit v2 4)) by (rewrite <- land_flag by done; by rewrite negb_involutive).
  exists (negb (Z.testbit v2 4)), w2. rewrite B. split; [done|].
  destruct (hstep_load _ _ R1) as (L1 & _). destruct (hstep_load _ _ R2) as (L2 & L2' & S2 & _).
  split; [lia|]. split; [rewrite E1 in L2; rewrite E2; unfold load in *; cbn in *; lia|].
  rewrite B2, S2, E1. cbn. split.
  - intros F. rewrite E2. cbn. rewrite negb_involutive in F. apply bool_decide_eq_false in F.
    rewrite E1 in L2'. cbn in L2'. intros X. rewrite X in L2'. destruct (rxq m1); cbn in *; [done|lia].
  - intros R. pose proof (stopped _ _ R R1) as ->. assert (m2 = st w1) as -> by (apply stopped; [by rewrite E1|done]). rewrite E2, E1. cbn. by rewrite !negb_involutive.
Qed.

Lemma rx_flush_spec fuel w :
  load (st w) <= Z.of_nat fuel ->
  exists w', rx_flush fuel w = Some w' /\ now w <= now w' /\ (running (st w) = false -> exists b, st w' = with_seen b (with_rx [] (st w))).
Proof.
  revert w. induction fuel as [|fuel IH]; intros w L; cbn [rx_flush]; destruct (rx_empty_spec w) as (b & w1 & -> & T & L1 & P & Q);
    destruct b; try (exists w1; split; [done|]; split; [done|]; intros R; destruct (Q R) as [B E]; exists false; rewrite E; symmetry in B; apply bool_decide_eq_true in B;
    destruct (st w); cbn in *; by rewrite B).
  - exfalso. specialize (P eq_refl). unfold load in *. destruct (rxq (st w1)); cbn in *; [done|lia].
  - pose proof (read_time rxd w1) as T2. destruct (read_law rxd w1) as (m & M & E). pose proof (read_rest rxd w1) as N. destruct (reg_read rxd w1) as [v w2]. cbn [fst snd] in *.
    destruct (hstep_load _ _ M) as (L2 & L2' & _). specialize (P eq_refl).
    assert (L3 : load (st w2) <= load (st w1) - 1).
    { unfold rd_eff in E. cbn in E. destruct (rxq m) as [|x l] eqn:X; [destruct (rxq (st w1)); cbn in *; [done|lia]|]. destruct E as [_ ->]. unfold load in *. rewrite X in L2. cbn in *. lia. }
    destruct (IH w2) as (w3 & -> & T3 & R3); [lia|]. exists w3. split; [done|]. split; [lia|]. intros R. destruct (Q R) as [B E1].
    assert (R1 : running (st w1) = false) by (by rewrite E1). specialize (N R1). unfold rd_eff in N. cbn in N. rewrite E1 in N. cbn in N.
    destruct (rxq (st w)) eqn:X; [|destruct N as [_ N]]; rewrite N in R3; destruct (R3 R) as [b ->]; by exists b.
Qed.

(** *** Transactions *)

Definition ready c : Prop := txq c = [] /\ rxq c = [] /\ running c = false /\ Z.testbit (cr_v c) 15 = true.
Definition rest c : Prop := txq c = [] /\ rxq c = [] /\ running c = false.
Definition selected c : Prop := Z.testbit (cr_v c) 10 = false /\ Z.testbit (er_v c) 0 = true.

Lemma ready_rest c : ready c -> rest c.
Proof. by intros (T & X & R & M). Qed.

Lemma cr_flag (f : bool) v i j : 0 <= i -> 0 <= j -> j <> 16 ->
  Z.testbit (Z.clearbit ((if f then Z.lor else Z.ldiff) v (Z.shiftl 1 i)) 16) j = if i =? j then f else Z.testbit v j.
Proof.
  intros I J N. rewrite Z.clearbit_eqb by lia. destruct (Z.eqb_spec 16 j); [lia|]. rewrite andb_true_r.
  destruct f; rewrite ?Z.lor_spec, ?Z.ldiff_spec, Z.shiftl_1_l, Z.pow2_bits_eqb by done; destruct (Z.eqb_spec i j); cbn; by rewrite ?orb_true_r, ?orb_false_r, ?andb_true_r, ?andb_false_r.
Qed.

Lemma cr_clear v i j : 0 <= i -> 0 <= j -> j <> 16 -> Z.testbit (Z.clearbit (Z.ldiff v (Z.shiftl 1 i)) 16) j = if i =? j then false else Z.testbit v j.
Proof. exact (cr_flag false v i j). Qed.

Lemma cr_raise v i j : 0 <= i -> 0 <= j -> j <> 16 -> Z.testbit (Z.clearbit (Z.lor v (Z.shiftl 1 i)) 16) j = if i =? j then true else Z.testbit v j.
Proof. exact (cr_flag true v i j). Qed.

Lemma wr_cr v m m' :
  wr_eff depth cr v m m' ->
  m' = mk_ctl (txq m) (rxq m) (seen m) (running m || (Z.testbit v 16 && Z.testbit v 15 && negb (bool_decide (txq m = []))))
         (Z.clearbit v 16) (er_v m) (if Z.testbit v 10 && negb (Z.testbit (cr_v m) 10) then release (slv m) else slv m).
Proof. exact id. Qed.

Lemma bit_of_flag v i : 0 <= i -> Z.testbit (Z.lor v (Z.shiftl 1 i)) i = true /\ Z.testbit (Z.ldiff v (Z.shiftl 1 i)) i = false.
Proof. intros I. rewrite Z.lor_spec, Z.ldiff_spec, Z.shiftl_1_l, Z.pow2_bits_true by done. by rewrite orb_true_r, andb_false_r. Qed.

(** [cr] while nothing is to be sent. *)
Lemma cr_quiet (f : Z -> Z) w :
  rest (st w) ->
  let w' := (let '(x, w) := reg_read cr w in reg_write cr (f x) w) in
  st w' = mk_ctl [] [] (seen (st w)) false (Z.clearbit (f (cr_v (st w))) 16) (er_v (st w))
    (if Z.testbit (f (cr_v (st w))) 10 && negb (Z.testbit (cr_v (st w)) 10) then release (slv (st w)) else slv (st w)) /\ now w <= now w'.
Proof.
  intros (T & X & R). cbn zeta. destruct (cr_update f w R) as [E N]. split; [|done]. apply wr_cr in E. by rewrite T, X, R, bool_decide_eq_true_2, andb_false_r in E by done.
Qed.

Lemma other_quiet r v w : rest (st w) -> tx_size r = None -> r <> cr -> r <> er -> st (reg_write r v w) = st w /\ now w <= now (reg_write r v w).
Proof.
  intros (T & X & R) O C E. pose proof (write_rest r v w R) as P. split; [|apply write_time]. unfold wr_eff in P. rewrite O in P.
  destruct (Z.eqb_spec r cr), (Z.eqb_spec r er); done.
Qed.

Lemma er_quiet v w :
  rest (st w) -> let w' := reg_write er v w in
  st w' = mk_ctl [] [] (seen (st w)) false (cr_v (st w)) v (slv (st w)) /\ now w <= now w'.
Proof.
  intros (T & X & R). pose proof (write_rest er v w R) as P. split; [|apply write_time]. cbv zeta. specialize (P (or_introl T)). by rewrite T, X, R in P.
Qed.

Lemma qspi_start_spec w :
  ready (st w) -> let w' := qspi_start w in ready (st w') /\ selected (st w') /\ slv (st w') = slv (st w) /\ now w <= now w'.
Proof.
  intros R. cbn zeta. unfold qspi_start. destruct (other_quiet rxth 0x1 w (ready_rest _ R)) as [E1 N1]; [done..|]. set (w1 := reg_write rxth 0x1 w) in *.
  rewrite <- E1 in R. destruct (cr_quiet (fun v => Z.ldiff v (Z.shiftl 1 10)) w1 (ready_rest _ R)) as [E2 N2]. fold (reg_clear cr (Z.shiftl 1 10) w1) in E2, N2.
  set (w2 := reg_clear cr (Z.shiftl 1 10) w1) in *. rewrite (proj2 (bit_of_flag _ 10 ltac:(done))) in E2. cbn [andb] in E2.
  assert (B : ready (st w2)) by (rewrite E2; destruct R as (_ & _ & _ & M); split; [done|]; split; [done|]; split; [done|]; cbn [cr_v]; rewrite cr_clear by done; done).
  destruct (er_quiet 0x1 w2 (ready_rest _ B)) as [E3 N3]. split; [rewrite E3; destruct B as (_ & _ & _ & B); by split|]. split.
  - rewrite E3, E2. split; [cbn [cr_v]; by rewrite cr_clear|done].
  - rewrite E3, E2. cbn [slv]. rewrite E1. split; [done|lia].
Qed.

(** Updates of [cr] and of the other registers, while nothing is to be sent: the bits of [cr] and that the FIFOs stay empty. *)
Lemma rest_cr (f : Z -> Z) w :
  rest (st w) -> let w' := (let '(x, w) := reg_read cr w in reg_write cr (f x) w) in rest (st w') /\ cr_v (st w') = Z.clearbit (f (cr_v (st w))) 16.
Proof. intros R. cbv zeta. destruct (cr_quiet f w R) as [E _]. rewrite E. by repeat split. Qed.

Lemma rest_cr_write v w : rest (st w) -> rest (st (reg_write cr v w)) /\ cr_v (st (reg_write cr v w)) = Z.clearbit v 16.
Proof. intros (T & X & R). pose proof (write_rest cr v w R) as E. apply wr_cr in E. rewrite T, X, R, bool_decide_eq_true_2, andb_false_r in E by done. rewrite E. by repeat split. Qed.

Lemma rest_read r w : rest (st w) -> rest (st (reg_read r w).2) /\ cr_v (st (reg_read r w).2) = cr_v (st w).
Proof.
  intros (T & X & R). pose proof (read_rest r w R) as E. unfold rd_eff in E. rewrite X in E. destruct (r =? sr), (r =? rxd); [destruct E as (_ & _ & _ & ->)|destruct E as (_ & _ & _ & ->)|rewrite E|destruct E as [-> _]]; by repeat split.
Qed.

Lemma rest_write r v w : rest (st w) -> tx_size r = None -> r <> cr -> rest (st (reg_write r v w)) /\ cr_v (st (reg_write r v w)) = cr_v (st w).
Proof.
  intros R N C. destruct (Z.eq_dec r er) as [-> |Er].
  - destruct (er_quiet v w R) as [-> _]. by repeat split.
  - destruct (other_quiet r v w R N C Er) as [-> _]. by split.
Qed.

Lemma rest_any r v w : rest (st w) -> tx_size r = None -> rest (st (reg_write r v w)).
Proof. intros R N. destruct (Z.eq_dec r cr) as [-> |C]; [by apply rest_cr_write|by apply rest_write]. Qed.

Lemma rest_set r v w : rest (st w) -> tx_size r = None -> rest (st (reg_set r v w)).
Proof. intros R N. unfold reg_set. pose proof (proj1 (rest_read r w R)) as R2. destruct (reg_read r w) as [x w2]. by apply rest_any. Qed.

Lemma rest_clear r v w : rest (st w) -> tx_size r = None -> rest (st (reg_clear r v w)).
Proof. intros R N. unfold reg_clear. pose proof (proj1 (rest_read r w R)) as R2. destruct (reg_read r w) as [x w2]. by apply rest_any. Qed.

Lemma ready_write r v w : ready (st w) -> tx_size r = None -> r <> cr -> ready (st (reg_write r v w)).
Proof.
  intros R N C. destruct (rest_write r v w (ready_rest _ R) N C) as [(Q & X & S1) E]. split; [done|]. split; [done|]. split; [done|]. rewrite E. apply R.
Qed.

(** After [qspi_IOMode] transactions can start: the FIFOs are empty and a transfer is started by hand. *)
Lemma qspi_IOMode_ready d f w : rest (st w) -> ready (st (qspi_IOMode d f w)).
Proof.
  intros R. unfold qspi_IOMode. apply ready_write; [|done..]. apply ready_write; [|done..].
  assert (M : forall w, rest (st w) -> ready (st (reg_set cr (Z.shiftl 0x3 14) w))).
  { clear. intros w R. destruct (rest_cr (fun v => Z.lor v (Z.shiftl 0x3 14)) w R) as [(Q & X & S1) E]. split; [done|]. split; [done|]. split; [done|].
    unfold reg_set. rewrite E. rewrite Z.clearbit_eqb, Z.lor_spec by done. change (Z.testbit (Z.shiftl 3 14) 15) with true. by rewrite orb_true_r. }
  match goal with |- context [reg_set cr (Z.shiftl 0x3 14) ?w] => assert (R' : ready (st (reg_set cr (Z.shiftl 0x3 14) w))); [apply M|] end.
  - apply rest_clear; [|done]. apply rest_set; [|done]. apply rest_clear; [|done].
    assert (R1 : rest (st (reg_write cr (Z.lor 1 (Z.shiftl 1 31)) (reg_write idr 125 (reg_clear er 1 w))))) by (apply rest_any; [apply rest_any; [by apply rest_clear|done]|done]).
    destruct d, (f <? 0); repeat (apply rest_set; [|done]); done.
  - destruct (0 <=? f); [|done]. apply ready_write; [|done..]. unfold reg_clear. set (w1 := reg_set cr (Z.shiftl 3 14) _) in *.
    destruct (rest_read lpbk w1 (ready_rest _ R')) as [(Q & X & S1) E]. destruct (reg_read lpbk w1) as [x w2]. cbn [snd] in *.
    apply ready_write; [|done..]. split; [done|]. split; [done|]. split; [done|]. rewrite E. apply R'.
Qed.

Lemma with_seen_ready b c : ready c -> ready (with_seen b (with_rx [] c)).
Proof. intros (T & X & R & M). by repeat split. Qed.

(** The transaction ends, whatever was sent; after a complete transfer the controller is ready again. *)
Lemma qspi_stop_spec fuel w :
  load (st w) <= Z.of_nat fuel ->
  exists w', qspi_stop fuel w = Some w' /\ now w <= now w' /\
    (ready (st w) -> ready (st w') /\ slv (st w') = if Z.testbit (cr_v (st w)) 10 then slv (st w) else release (slv (st w))).
Proof.
  intros L. unfold qspi_stop. destruct (rx_flush_spec fuel w L) as (w1 & -> & N1 & F). cbn [mbind option_bind]. eexists. split; [done|]. split.
  - unfold reg_set. pose proof (read_time cr w1) as T1. destruct (reg_read cr w1) as [x w2]. cbn [snd] in T1.
    pose proof (write_time cr (Z.lor x (Z.shiftl 1 10)) w2). pose proof (write_time er 0 (reg_write cr (Z.lor x (Z.shiftl 1 10)) w2)). lia.
  - intros R. destruct (F (proj1 (proj2 (proj2 R)))) as [b E]. assert (R1 : ready (st w1)) by (rewrite E; by apply with_seen_ready).
    destruct (cr_quiet (fun v => Z.lor v (Z.shiftl 1 10)) w1 (ready_rest _ R1)) as [E2 N2]. fold (reg_set cr (Z.shiftl 1 10) w1) in E2, N2. set (w2 := reg_set cr (Z.shiftl 1 10) w1) in *.
    rewrite (proj1 (bit_of_flag _ 10 ltac:(done))) in E2. cbn [andb] in E2.
    assert (R2 : ready (st w2)) by (rewrite E2; destruct R1 as (_ & _ & _ & M); split; [done|]; split; [done|]; split; [done|]; cbn [cr_v]; rewrite cr_raise by done; done).
    destruct (er_quiet 0 w2 (ready_rest _ R2)) as [E3 N3]. rewrite E3. split; [destruct R2 as (_ & _ & _ & M); by split|].
    rewrite E2, E. cbn [slv cr_v with_seen with_rx]. by destruct (Z.testbit (cr_v (st w)) 10).
Qed.

(** *** Sending *)

Definition tx_ok (txBuff : option (list Z)) (size : Z) : Prop := match txBuff with Some b => size <= zlen b /\ Forall is_byte b | None => True end.

(** The first [n] bytes that are sent: zeros when there is no buffer. *)
Definition sends (txBuff : option (list Z)) (n : Z) : list Z := match txBuff with Some b => ztake n b | None => replicate (Z.to_nat n) 0 end.
Definition after (n : Z) (txBuff : option (list Z)) : option (list Z) := (fun b => zdrop n b) <$> txBuff.

Lemma sends_length t n : tx_ok t n -> 0 <= n -> zlen (sends t n) = n.
Proof. destruct t as [b|]; cbn; intros; [rewrite length_take|rewrite length_replicate]; lia. Qed.

Lemma tx_ok_le t n k : tx_ok t n -> k <= n -> tx_ok t k.
Proof. destruct t as [b|]; cbn; [|done]. intros [L B] K. split; [lia|done]. Qed.

Lemma sends_split t n k : tx_ok t (n + k) -> 0 <= n -> 0 <= k -> sends t (n + k) = sends t n ++ sends (after n t) k.
Proof.
  destruct t as [b|]; cbn; intros T N K.
  - rewrite ztake_zdrop, <- !zslice_0. by rewrite zslice_app by lia.
  - rewrite <- replicate_add. f_equal. lia.
Qed.

Lemma sends_take t n k : 0 <= k <= n -> ztake k (sends t n) = sends t k.
Proof. intros. destruct t as [b|]; cbn; [rewrite take_take|rewrite take_replicate]; f_equal; lia. Qed.

Lemma tx_ok_after t n k : tx_ok t (n + k) -> 0 <= n -> 0 <= k -> tx_ok (after n t) k.
Proof. destruct t as [b|]; cbn; [|done]. intros [L B] N K. split; [rewrite length_drop; lia|by apply Forall_drop]. Qed.

Lemma qspi_txData_spec t size w :
  running (st w) = false -> tx_ok t size -> 0 < size -> zlen (txq (st w)) < depth ->
  exists w', qspi_txData t size w = Some (Z.min size 4, w') /\ st w' = with_tx (txq (st w) ++ [sends t (Z.min size 4)]) (st w) /\ now w <= now w'.
Proof.
  intros R T P D. unfold qspi_txData. destruct (Z.eqb_spec size 0) as [|_]; [lia|].
  replace (if 4 <=? size then 4 else size) with (Z.min size 4) by (destruct (Z.leb_spec 4 size); lia).
  set (n := Z.min size 4). assert (N : 0 < n <= 4) by lia. assert (Tn : tx_ok t n) by (apply (tx_ok_le t size); [done|lia]).
  assert (B : mbytes (default [0; 0; 0; 0] t) 0 n = Some (sends t n)).
  { destruct t as [b|]; cbn [default from_option id sends]; [destruct Tn as [Tl _]; rewrite mbytes_ok, zslice_0 by lia; done|].
    rewrite mbytes_ok by (cbn; lia). assert (n = 1 \/ n = 2 \/ n = 3 \/ n = 4) as [-> |[-> |[-> | ->]]] by lia; done. }
  rewrite B. cbn [mbind option_bind]. eexists. split; [done|]. split; [|apply write_time].
  pose proof (sends_length t n Tn ltac:(lia)) as Ln.
  assert (F : Forall is_byte (sends t n)) by (destruct t as [b|]; cbn in *; [apply Forall_take, Tn|by apply Forall_replicate]).
  pose proof (le_bytes_val _ F) as V.
  set (r := if n =? 1 then _ else _). pose proof (write_rest r (le_val (sends t n)) w R) as E. unfold wr_eff in E.
  assert (Rn : tx_size r = Some (Z.to_nat n)) by (unfold r; assert (n = 1 \/ n = 2 \/ n = 3 \/ n = 4) as [-> |[-> |[-> | ->]]] by lia; done).
  rewrite Rn in E. rewrite (E D). replace (Z.to_nat n) with (length (sends t n)) by lia. by rewrite V.
Qed.

Lemma after_0 t : after 0 t = t.
Proof. destruct t as [b|]; [|done]. cbn. by rewrite drop_0. Qed.

Lemma after_after n k t : 0 <= n -> 0 <= k -> after k (after n t) = after (n + k) t.
Proof. intros. destruct t as [b|]; [|done]. cbn. rewrite drop_drop. do 2 f_equal. lia. Qed.

Lemma tx_full_spec w :
  running (st w) = false -> exists w' b, qspi_txFifoFull w = (depth <=? zlen (txq (st w)), w') /\ st w' = with_seen b (st w) /\ now w <= now w'.
Proof.
  intros R. unfold qspi_txFifoFull. pose proof (read_rest sr w R) as (_ & B & _ & E). pose proof (read_time sr w). destruct (reg_read sr w) as [v w1]. cbn [fst snd] in *.
  exists w1. eexists. rewrite land_flag, B by done. done.
Qed.

(** Words [es] were added, from the [txSz] bytes of [t] that are left. *)
Definition filled t txSz rxSz w (r : option (list Z) * Z * Z * W) : Prop :=
  exists es b w', r = (after (4 * zlen es) t, txSz - 4 * zlen es, rxSz + 4 * zlen es, w') /\
    st w' = with_seen b (with_tx (txq (st w) ++ es) (st w)) /\ now w <= now w' /\ Forall (fun e => zlen e = 4) es /\
    concat es = sends t (4 * zlen es) /\ 4 * zlen es <= txSz /\ zlen (txq (st w)) + zlen es <= depth /\
    (4 <= txSz -> zlen (txq (st w)) < depth -> es <> []).

Lemma filled_none t txSz rxSz w b w' :
  st w' = with_seen b (st w) -> now w <= now w' -> zlen (txq (st w)) <= depth -> 0 <= txSz -> txSz < 4 \/ depth <= zlen (txq (st w)) ->
  filled t txSz rxSz w (t, txSz, rxSz, w').
Proof.
  intros E N D P X. exists [], b, w'. cbn. rewrite after_0, Z.sub_0_r, Z.add_0_r, app_nil_r. split; [done|].
  split; [rewrite E; by destruct (st w)|]. split; [done|]. split; [done|]. split; [by destruct t|]. split; [lia|]. split; lia.
Qed.

Lemma tx_fill_spec fuel t txSz rxSz w :
  running (st w) = false -> tx_ok t txSz -> 0 <= txSz -> zlen (txq (st w)) <= depth -> depth - zlen (txq (st w)) <= Z.of_nat fuel ->
  exists r, tx_fill fuel t txSz rxSz w = Some r /\ filled t txSz rxSz w r.
Proof.
  revert t txSz rxSz w. induction fuel as [|fuel IH]; intros t txSz rxSz w R T P D F; cbn [tx_fill];
    (destruct (Z.ltb_spec txSz 4); [eexists; split; [done|]; apply (filled_none _ _ _ _ (seen (st w))); [by destruct (st w)|lia..]|]);
    destruct (tx_full_spec w R) as (w1 & b & -> & E1 & N1); (destruct (Z.leb_spec depth (zlen (txq (st w)))); [eexists; split; [done|]; by apply (filled_none _ _ _ _ b); auto|]).
  - lia.
  - destruct (qspi_txData_spec t txSz w1) as (w2 & -> & E2 & N2); [by rewrite E1|done|lia|by rewrite E1|]. cbn [mbind option_bind].
    rewrite Z.min_r in * by lia. set (e := sends t 4) in *. fold (after 4 t).
    assert (T4 : tx_ok t 4) by (by apply (tx_ok_le t txSz)). pose proof (sends_length t 4 T4 ltac:(lia)) as Le. fold e in Le.
    assert (Q2 : txq (st w2) = txq (st w) ++ [e]) by (by rewrite E2, E1). assert (Lq : zlen (txq (st w2)) = zlen (txq (st w)) + 1) by (rewrite Q2, length_app; cbn; lia).
    assert (T' : tx_ok (after 4 t) (txSz - 4)) by (apply tx_ok_after; [by replace (4 + (txSz - 4)) with txSz by lia|lia..]).
    destruct (IH (after 4 t) (txSz - 4) (rxSz + 4) w2) as (r & -> & es & b' & w3 & -> & E3 & N3 & F3 & C3 & L3 & D3 & _); [by rewrite E2, E1|done|lia|lia|lia|].
    eexists. split; [done|]. exists (e :: es), b', w3. cbn [length concat]. replace (4 * Z.of_nat (Datatypes.S (length es))) with (4 + 4 * zlen es) by lia.
    rewrite after_after by lia. split; [by rewrite Z.sub_add_distr, Z.add_assoc|]. split; [rewrite E3, E2, E1; cbn; by rewrite <- app_assoc|]. split; [lia|]. split; [by constructor|].
    split; [rewrite sends_split, <- C3; [done|by apply (tx_ok_le t txSz); [|lia]|lia..]|].
    split; [lia|]. split; [lia|done].
Qed.

(** *** The exchange

    The words [es] were filled in when the chip was in state [s0]; some were exchanged for [cs]. *)
Definition exchanging (es : list (list Z)) (s0 : S) c : Prop :=
  selected c /\ Z.testbit (cr_v c) 15 = true /\ zlen es <= depth /\
  exists sent cs, es = sent ++ txq c /\ xchgs (concat sent) s0 (concat cs) (slv c) /\ Forall2 (fun e a => zlen a = zlen e) sent cs /\
    Forall2 shifted_in cs (rxq c) /\ (txq c = [] -> running c = false).

Lemma concat_snoc {A} (l : list (list A)) x : concat (l ++ [x]) = concat l ++ x.
Proof. rewrite concat_app. cbn. by rewrite app_nil_r. Qed.

Lemma exchanging_step es s0 c m : exchanging es s0 c -> rtc (hstep depth) c m -> exchanging es s0 m.
Proof.
  intros E T. induction T as [|x y z X _ IH]; [done|]. apply IH. clear IH. destruct E as (Sel & M & D & sent & cs & Ee & Ex & F & V & R).
  inversion X as [e q ? bs v s' R1 _ _ Q Xe Sh|e q ? v R1 U Q]; subst; [|by rewrite (proj1 Sel) in U].
  rewrite Q in D. split; [done|]. split; [done|]. cbn [txq]. rewrite Q. split; [done|]. exists (sent ++ [e]), (cs ++ [bs]). cbn [txq rxq slv running].
  split; [by rewrite <- app_assoc|]. rewrite !concat_snoc. split; [by eapply xchgs_app|].
  pose proof (xchgs_length _ _ _ _ Xe). split; [apply Forall2_app; [done|]; constructor; [lia|done]|].
  pose proof (Forall2_length _ _ _ F). pose proof (Forall2_length _ _ _ V). rewrite length_app in D. cbn in D.
  unfold push_rx. destruct (Z.ltb_spec (zlen (rxq x)) depth); [|lia]. split; [apply Forall2_app; [done|]; by constructor|]. intros ->. by rewrite bool_decide_eq_true_2.
Qed.

Lemma exchanging_seen es s0 b c : exchanging es s0 c -> exchanging es s0 (with_seen b c).
Proof. exact id. Qed.

(** All was exchanged. *)
Lemma exchanging_done es s0 c :
  exchanging es s0 c -> txq c = [] ->
  exists cs, xchgs (concat es) s0 (concat cs) (slv c) /\ Forall2 (fun e a => zlen a = zlen e) es cs /\ Forall2 shifted_in cs (rxq c) /\ running c = false.
Proof. intros (_ & _ & _ & sent & cs & -> & X & F & V & R) E. rewrite E, app_nil_r. exists cs. auto. Qed.

Lemma tx_empty_spec es s0 w :
  exchanging es s0 (st w) -> exists b w', qspi_txFifoEmpty w = (b, w') /\ exchanging es s0 (st w') /\ now w <= now w' /\ (b = true -> txq (st w') = []).
Proof.
  intros X. unfold qspi_txFifoEmpty. destruct (read_law sr w) as (m & T & B & _ & _ & E). pose proof (read_time sr w). destruct (reg_read sr w) as [v w1]. cbn [fst snd] in *.
  exists (Z.testbit v 2), w1. rewrite land_flag by done. split; [done|]. split; [rewrite E; apply (exchanging_seen es s0 _ m); by apply (exchanging_step es s0 (st w))|]. split; [done|].
  intros Y. rewrite B in Y. apply bool_decide_eq_true in Y. by rewrite E.
Qed.

Lemma tx_wait_spec k es s0 start timeout w :
  exchanging es s0 (st w) -> res * (start + timeout) - now w <= Z.of_nat k ->
  exists ok w', tx_wait (Datatypes.S k) start timeout w = Some (ok, w') /\ exchanging es s0 (st w') /\ now w <= now w' /\
    if ok then txq (st w') = [] else timeout <= now w' / res - start.
Proof.
  pose proof (res_pos (W := W)) as RP. revert w. induction k as [|k IH]; intros w X K; cbn [tx_wait];
    destruct (tx_empty_spec es s0 w X) as (b & w1 & -> & X1 & N1 & P); (destruct b; [exists true, w1; auto|]);
    destruct (now_law w1) as [V N2]; pose proof (exchanging_step es s0 _ _ X1 (time_law w1)) as X2; destruct (hal_timerGet w1) as [t w2]; cbn [fst snd] in *.
  - destruct (Z.leb_spec timeout (t - start)); [exists false, w2; rewrite <- V; split; [done|]; split; [done|]; split; lia|]. exfalso.
    assert (start + timeout <= now w2 / res) by (apply Z.div_le_lower_bound; lia). lia.
  - destruct (Z.leb_spec timeout (t - start)); [exists false, w2; rewrite <- V; split; [done|]; split; [done|]; split; lia|].
    destruct (IH w2 X2) as (ok & w3 & E & X3 & N3 & Q); [lia|]. exists ok, w3. split; [exact E|]. split; [done|]. split; [lia|done].
Qed.

(** The answers fit the words of the FIFO. *)
Lemma packed_head (cs : list (list Z)) a : packed (a :: cs) -> zlen a = Z.min (zlen (concat (a :: cs))) 4 /\ 0 < zlen a <= 4 /\ packed cs.
Proof.
  cbn [concat]. rewrite length_app. intros [F|(e & [= -> ->] & L)].
  - apply Forall_cons in F as [F F']. split; [lia|]. split; [lia|]. by left.
  - cbn. split; [lia|]. split; [lia|]. left. done.
Qed.

Lemma packed_answers (es cs : list (list Z)) : packed es -> Forall2 (fun e a => zlen a = zlen e) es cs -> packed cs.
Proof.
  intros [F|(e & -> & L)] E.
  - left. induction E; [done|]. apply Forall_cons in F as [F F']. constructor; [lia|auto].
  - right. inversion E as [|? a ? ? La E']; subst. inversion E'. exists a. split; [done|lia].
Qed.

Lemma rx_collect_spec fuel cs out w :
  running (st w) = false -> Forall2 shifted_in cs (rxq (st w)) -> packed cs -> Forall is_byte (concat cs) -> (length cs <= fuel)%nat ->
  exists w' b, rx_collect fuel (zlen (concat cs)) out w = Some (true, out ++ concat cs, w') /\ st w' = with_seen b (with_rx [] (st w)) /\ now w <= now w'.
Proof.
  revert cs out w. induction fuel as [|fuel IH]; intros cs out w R V P B L.
  all: destruct cs as [|a cs]; [|try (cbn in L; lia)].
  1,2: cbn; exists w, (seen (st w)); rewrite app_nil_r; split; [done|]; inversion V as [E|]; split; [destruct (st w); cbn in *; by subst|done].
  destruct (packed_head _ _ P) as (Pl & Pa & P'). cbn [rx_collect].
  destruct (Z.eqb_spec (zlen (concat (a :: cs))) 0); [lia|]. destruct (rx_empty_spec w) as (b & w1 & -> & N1 & _ & _ & Q). destruct (Q R) as [-> E1].
  inversion V as [|? v ? l Va V' Eq Ew]; subst. rewrite <- Ew in E1. rewrite bool_decide_eq_false_2 in * by done. cbn [negb] in E1.
  unfold qspi_rxData. pose proof (read_rest rxd w1) as D. rewrite E1 in D. cbn in D. rewrite <- Ew in D. specialize (D R) as [D E2].
  pose proof (read_time rxd w1). destruct (reg_read rxd w1) as [x w2]. cbn [fst snd] in *. subst x.
  cbn [concat] in B. apply Forall_app in B as [Ba B].
  assert (Rb : rx_bytes v (zlen (concat (a :: cs))) = a).
  { rewrite <- (rx_bytes_spec a v Va Ba Pa) at 2. destruct (Z_le_gt_dec (zlen (concat (a :: cs))) 4) as [Le|Gt]; [by rewrite Pl, Z.min_l by lia|].
    rewrite Pl, Z.min_r by lia. unfold rx_bytes. change (4 =? 0) with false. change (4 =? 1) with false. change (4 =? 2) with false. change (4 =? 3) with false.
    destruct (Z.eqb_spec (zlen (concat (a :: cs))) 0), (Z.eqb_spec (zlen (concat (a :: cs))) 1), (Z.eqb_spec (zlen (concat (a :: cs))) 2), (Z.eqb_spec (zlen (concat (a :: cs))) 3); done || lia. }
  cbn [mbind option_bind]. rewrite Rb, <- Pl. cbn [concat]. rewrite length_app.
  replace (Z.of_nat (length a + length (concat cs)) - zlen a) with (zlen (concat cs)) by lia.
  destruct (IH cs (out ++ a) w2) as (w3 & b' & -> & E3 & N3); [by rewrite E2|by rewrite E2|done|done|cbn in L; lia|].
  exists w3, b'. rewrite <- app_assoc. split; [done|]. split; [by rewrite E3, E2|lia].
Qed.

(** Filled words are exchanged, or the time is over. *)
Lemma round_spec fuel es start timeout w :
  txq (st w) = es -> rxq (st w) = [] -> running (st w) = false -> Z.testbit (cr_v (st w)) 15 = true -> selected (st w) ->
  zlen es <= depth -> packed es -> depth <= Z.of_nat fuel -> res * timeout < Z.of_nat fuel -> res * start <= now w ->
  let w1 := reg_set cr (Z.shiftl 1 16) w in
  exists ok w2, tx_wait fuel start timeout w1 = Some (ok, w2) /\ now w <= now w2 /\
    if ok then
      forall out, exists cs w3, rx_collect fuel (zlen (concat es)) out w2 = Some (true, out ++ cs, w3) /\ now w2 <= now w3 /\
        xchgs (concat es) (slv (st w)) cs (slv (st w3)) /\ ready (st w3) /\ selected (st w3)
    else timeout <= now w2 / res - start /\ load (st w2) <= depth.
Proof.
  intros Q X R M Sel D P F1 F2 St. cbn zeta. destruct (cr_update (fun v => Z.lor v (Z.shiftl 1 16)) w R) as [E N]. fold (reg_set cr (Z.shiftl 1 16) w) in E, N.
  set (w1 := reg_set cr (Z.shiftl 1 16) w) in *. apply wr_cr in E. cbv beta in E.
  assert (Bits : forall j, j <> 16 -> Z.testbit (Z.lor (cr_v (st w)) (Z.shiftl 1 16)) j = Z.testbit (cr_v (st w)) j).
  { intros j J. destruct (Z_lt_le_dec j 0); [by rewrite !Z.testbit_neg_r by lia|]. rewrite Z.lor_spec, Z.shiftl_1_l, Z.pow2_bits_false by lia. by rewrite orb_false_r. }
  rewrite (proj1 (bit_of_flag _ 16 ltac:(done))), (Bits 15), (Bits 10), M, (proj1 Sel), Q, X, R in E by done. cbn [andb orb] in E.
  assert (B : exchanging es (slv (st w)) (st w1)).
  { rewrite E. split; [split; cbn [cr_v er_v]; [rewrite cr_raise by done; apply Sel|apply Sel]|]. split; [cbn [cr_v]; by rewrite cr_raise|]. split; [done|].
    exists [], []. cbn. split; [done|]. split; [constructor|]. split; [constructor|]. split; [constructor|]. intros ->. done. }
  destruct fuel as [|k]; [pose proof (depth_pos (W := W)); lia|].
  destruct (tx_wait_spec k es (slv (st w)) start timeout w1 B) as (ok & w2 & -> & X2 & N2 & T); [lia|].
  exists ok, w2. split; [done|]. split; [lia|]. destruct ok.
  - intros out. destruct (exchanging_done _ _ _ X2 T) as (cs & Xc & L & V & R2).
    pose proof (Forall2_length _ _ _ L). destruct (rx_collect_spec (Datatypes.S k) cs out w2) as (w3 & b & E3 & S3 & N3); [done|done|by apply (packed_answers es)|by eapply xchgs_bytes|lia|].
    exists (concat cs), w3. pose proof (xchgs_length _ _ _ _ Xc) as Lc. rewrite <- Lc. split; [done|]. split; [done|]. rewrite S3. split; [done|].
    destruct X2 as (Sel2 & M2 & _). split; [split; [done|]; split; [done|]; by split|done].
  - split; [done|]. destruct X2 as (_ & _ & _ & sent & cs & Ee & _ & L & V & _). pose proof (Forall2_length _ _ _ L). pose proof (Forall2_length _ _ _ V).
    unfold load. rewrite Ee, length_app in D. lia.
Qed.

(** A result of the loop: all was exchanged, or the time is over and the answers are those to a part. *)
Definition exchanged t txSz start timeout w (r size : Z) (out : list Z) w' : Prop :=
  now w <= now w' /\
  ((r = size /\ xchgs (sends t txSz) (slv (st w)) out (slv (st w')) /\ ready (st w') /\ selected (st w')) \/
   (r = - ETIME /\ timeout <= now w' / res - start /\ load (st w') <= depth /\ zlen out <= txSz /\ exists s', xchgs (sends t (zlen out)) (slv (st w)) out s')).

(** The words of a round: those that fit, or a short one. *)
Lemma fill_spec fuel t txSz w :
  ready (st w) -> tx_ok t txSz -> 0 < txSz -> depth <= Z.of_nat fuel ->
  exists es t' n b w1, (if txSz <? 4 then '(n, w) ← qspi_txData t txSz w; Some (t, txSz - n, n, w) else tx_fill fuel t txSz 0 w) = Some (t', txSz - n, n, w1) /\
    st w1 = with_seen b (with_tx es (st w)) /\ now w <= now w1 /\ packed es /\ zlen es <= depth /\ concat es = sends t n /\ 0 < n <= txSz /\
      tx_ok t' (txSz - n) /\ sends t txSz = sends t n ++ sends t' (txSz - n).
Proof.
  pose proof (depth_pos (W := W)) as DP. intros R T L F1. pose proof R as (Q & X & R0 & M).
  destruct (Z.ltb_spec txSz 4) as [Lt|Ge].
  - destruct (qspi_txData_spec t txSz w) as (w1 & -> & E1 & N1); [done|done|lia|rewrite Q; cbn; lia|]. cbn [mbind option_bind]. rewrite Z.min_l in * by lia.
    exists [sends t txSz], t, txSz, (seen (st w)), w1. split; [done|]. split; [rewrite E1, Q; by destruct (st w)|]. split; [done|]. split.
    { right. eexists. split; [done|]. rewrite sends_length; [lia|done|lia]. }
    cbn [concat length]. rewrite app_nil_r, Z.sub_diag. split; [cbn; lia|]. split; [done|]. split; [lia|]. split; [apply (tx_ok_le t txSz); [done|lia]|]. destruct t; cbn; by rewrite ?app_nil_r.
  - destruct (tx_fill_spec fuel t txSz 0 w) as (r & -> & es & b & w1 & -> & E1 & N1 & A4 & C & Le & Ld & Ne); [done|done|lia|rewrite Q; cbn; lia|rewrite Q; cbn; lia|].
    rewrite Q in *. cbn [app length] in *. specialize (Ne Ge ltac:(lia)). exists es, (after (4 * zlen es) t), (4 * zlen es), b, w1. split; [done|].
    split; [done|]. split; [done|]. split; [by left|]. split; [lia|]. split; [done|]. split; [destruct es; [done|]; cbn [length] in *; lia|].
    assert (tx_ok t (4 * zlen es + (txSz - 4 * zlen es))) by (by replace (4 * zlen es + (txSz - 4 * zlen es)) with txSz by lia).
    split; [by apply tx_ok_after; [|lia..]|]. rewrite <- sends_split by (done || lia). f_equal. lia.
Qed.

Lemma transfer_loop_spec k fuel t size txSz start timeout out w :
  ready (st w) -> selected (st w) -> tx_ok t txSz -> 0 <= txSz < Z.of_nat k -> depth <= Z.of_nat fuel -> res * timeout < Z.of_nat fuel -> res * start <= now w ->
  exists r out' w', transfer_loop k fuel t size txSz start timeout out w = Some (r, out ++ out', w') /\ exchanged t txSz start timeout w r size out' w'.
Proof.
  pose proof (depth_pos (W := W)) as DP. revert t txSz out w. induction k as [|k IH]; intros t txSz out w R Sel T L F1 F2 St; [lia|]. cbn [transfer_loop].
  destruct (Z.eqb_spec txSz 0) as [-> |N0].
  { exists size, [], w. rewrite app_nil_r. split; [done|]. split; [lia|]. left. split; [done|]. split; [destruct t; constructor|done]. }
  pose proof R as (Q & X & R0 & M).
  destruct (fill_spec fuel t txSz w R T ltac:(lia) F1) as (es & t' & n & b & w1 & -> & E1 & N1 & P & D & C & Ln & T' & Sp). cbn [mbind option_bind].
  assert (Tn : tx_ok t n) by (apply (tx_ok_le t txSz); [done|lia]). pose proof (sends_length t n Tn ltac:(lia)) as Lc. rewrite <- C in Lc.
  destruct (round_spec fuel es start timeout w1) as (ok & w2 & -> & N2 & O); [by rewrite E1|by rewrite E1|by rewrite E1|by rewrite E1|by rewrite E1|done..|lia|]. cbn [mbind option_bind].
  destruct ok; cbn [negb].
  - destruct (O out) as (cs & w3 & Ec & N3 & Xc & R3 & Sel3). rewrite Lc in Ec. rewrite Ec. cbn [mbind option_bind negb].
    pose proof (xchgs_length _ _ _ _ Xc) as Lcs. rewrite E1, C in Xc. cbn [slv with_seen with_tx] in Xc.
    destruct (IH t' (txSz - n) (out ++ cs) w3) as (r & out' & w4 & -> & N4 & Z4); [done|done|done|lia|lia|lia|lia|].
    exists r, (cs ++ out'), w4. rewrite app_assoc. split; [done|]. split; [lia|].
    destruct Z4 as [(-> & Y & Rest)|(-> & T4 & L4 & Z4 & s' & Y)].
    + left. split; [done|]. rewrite Sp. split; [by eapply xchgs_app|done].
    + right. split; [done|]. split; [done|]. split; [done|]. rewrite length_app. split; [lia|]. exists s'.
      replace (Z.of_nat (length cs + length out')) with (n + zlen out') by lia.
      assert (E : sends t (n + zlen out') = sends t n ++ sends t' (zlen out')).
      { pose proof Lc as Lt. rewrite C in Lt. rewrite <- (sends_take t txSz (n + zlen out')), Sp, take_app_ge, <- (sends_take t' (txSz - n) (zlen out')) by lia. do 2 f_equal. lia. }
      rewrite E. by eapply xchgs_app.
  - exists (- ETIME), [], w2. rewrite app_nil_r. split; [done|]. split; [lia|]. right. destruct O as [O1 O2]. split; [done|]. split; [done|]. split; [done|]. cbn. split; [lia|].
    exists (slv (st w)). destruct t; constructor.
Qed.

Lemma polled_spec fuel t size timeout w :
  ready (st w) -> selected (st w) -> tx_ok t size -> 0 <= size -> depth <= Z.of_nat fuel -> res * timeout < Z.of_nat fuel ->
  exists r out w', qspi_polledTransfer fuel t size timeout w = Some (r, out, w') /\ now w <= now w' /\ load (st w') <= depth /\
    ((r = size /\ xchgs (sends t size) (slv (st w)) out (slv (st w')) /\ ready (st w') /\ selected (st w')) \/
     (r = - ETIME /\ timeout <= now w' / res - now w / res /\ zlen out <= size /\ exists s', xchgs (sends t (zlen out)) (slv (st w)) out s')).
Proof.
  intros R Sel T P F1 F2. pose proof (res_pos (W := W)). unfold qspi_polledTransfer. destruct (now_law w) as [V N].
  pose proof (stopped _ _ (proj1 (proj2 (proj2 R))) (time_law w)) as E. destruct (hal_timerGet w) as [start w1]. cbn [fst snd] in *.
  destruct (transfer_loop_spec (Datatypes.S (Z.to_nat size)) fuel t size size start timeout [] w1) as (r & out & w2 & -> & N2 & O);
    [by rewrite E|by rewrite E|done|lia|done|done|subst start; apply Z.mul_div_le; lia|].
  cbn [app]. rewrite E in O. exists r, out, w2. split; [done|]. split; [lia|].
  destruct O as [(-> & X & R2 & Sel2)|(-> & T2 & L & Lo & X)].
  - split; [|by left]. destruct R2 as (Q & Y & _). unfold load. rewrite Q, Y. pose proof (depth_pos (W := W)). cbn. lia.
  - split; [done|]. right. split; [done|]. split; [|done]. assert (now w / res <= start) by (subst start; apply Z.div_le_mono; lia). generalize dependent (now w / res). intros. lia.
Qed.

End proofs.

(** ** A controller that exchanges its words when its status is read, with any chip that can be executed *)

Class Executable (S : Type) `{Slave S} := {
  exec : list Z -> S -> list Z * S;
  exec_law e s : xchgs e s (exec e s).1 (exec e s).2
}.

Module bench.
Section controller.
  Context {S : Type} `{Executable S}.

Definition board : Type := ctl S * Z.
Definition deep := 63.

Definition word (bs : list Z) : Z := Z.shiftl (le_val bs) (8 * (4 - zlen bs)).

Definition move_word (c : ctl S) : ctl S :=
  match txq c with
  | e :: q =>
      if running c && Z.testbit (er_v c) 0 && negb (Z.testbit (cr_v c) 10) && (zlen e <=? 4) then
        let '(bs, s) := exec e (slv c) in
        mk_ctl q (push_rx deep (word bs) (rxq c)) (seen c) (negb (bool_decide (q = []))) (cr_v c) (er_v c) s
      else c
  | [] => c
  end.

Definition move_words (c : ctl S) : ctl S := Nat.iter 63 move_word c.

Definition read (r : Z) (w : board) : Z * board :=
  let '(c, t) := w in
  if r =? sr then
    let m := move_words c in
    (b2z (bool_decide (txq m = [])) * 4 + b2z (deep <=? zlen (txq m)) * 8 + b2z (seen m) * 16,
     (mk_ctl (txq m) (rxq m) (negb (bool_decide (rxq m = []))) (running m) (cr_v m) (er_v m) (slv m), t))
  else if r =? rxd then match rxq c with [] => (0, w) | x :: l => (x, (mk_ctl (txq c) l (seen c) (running c) (cr_v c) (er_v c) (slv c), t)) end
  else if r =? cr then (cr_v c, w) else if r =? er then (er_v c, w) else (0, w).

Definition write (r v : Z) (w : board) : board :=
  let '(c, t) := w in
  (match tx_size r with
   | Some n => if zlen (txq c) <? deep then mk_ctl (txq c ++ [le_bytes n v]) (rxq c) (seen c) (running c) (cr_v c) (er_v c) (slv c) else c
   | None =>
       if r =? cr then
         mk_ctl (txq c) (rxq c) (seen c) (running c || (Z.testbit v 16 && Z.testbit v 15 && negb (bool_decide (txq c = []))))
           (Z.clearbit v 16) (er_v c) (if Z.testbit v 10 && negb (Z.testbit (cr_v c) 10) then release (slv c) else slv c)
       else if r =? er then mk_ctl (txq c) (rxq c) (seen c) (running c) (cr_v c) v (slv c)
       else c
   end, t).

#[global] Instance ops : Regs board := {| reg_read := read; reg_write := write; hal_timerGet w := ((w.2 + 1) / 2, (w.1, w.2 + 1)) |}.

Lemma step_law c : rtc (hstep deep) c (move_word c).
Proof.
  unfold move_word. destruct (txq c) as [|e q] eqn:Q; [done|]. destruct (running c) eqn:R, (Z.testbit (er_v c) 0) eqn:E, (Z.testbit (cr_v c) 10) eqn:U, (Z.leb_spec (zlen e) 4) as [L|]; cbn [andb negb]; try done.
  pose proof (exec_law e (slv c)) as X. destruct (exec e (slv c)) as [bs s']. cbn [fst snd] in X.
  apply rtc_once. apply (h_word deep e q c bs); try done.
  assert (La : zlen bs = zlen e) by (by rewrite (xchgs_length _ _ _ _ X)). unfold shifted_in, word. rewrite La.
  assert (B : 0 <= le_val bs < 256 ^ zlen bs) by (apply le_val_range; by eapply xchgs_bytes). rewrite La in B.
  rewrite Z.shiftr_shiftl_l, Z.sub_diag, Z.shiftl_0_r by lia. rewrite Z.shiftl_mul_pow2 by lia. split; [|done].
  assert (P : 256 ^ zlen e * 2 ^ (8 * (4 - zlen e)) = 2 ^ 32) by (change 256 with (2 ^ 8); rewrite <- Z.pow_mul_r, <- Z.pow_add_r by lia; f_equal; lia).
  assert (0 < 2 ^ (8 * (4 - zlen e))) by (apply Z.pow_pos_nonneg; lia). nia.
Qed.

Lemma steps_law c : rtc (hstep deep) c (move_words c).
Proof. unfold move_words. generalize 63%nat. intros k. induction k as [|n IH]; [done|]. cbn [Nat.iter nat_rect]. etransitivity; [exact IH|apply step_law]. Qed.

Lemma flags (a b c : bool) i : 2 <= i <= 4 -> Z.testbit (b2z a * 4 + b2z b * 8 + b2z c * 16) i = if i =? 2 then a else if i =? 3 then b else c.
Proof. intros I. assert (i = 2 \/ i = 3 \/ i = 4) as [-> |[-> | ->]] by lia; by destruct a, b, c. Qed.

#[global] Instance laws : Qspi_hw board S.
Proof.
  refine {| depth := deep; st := fst; now := snd; res := 2 |}; try done.
  - intros r [c t]. cbn -[move_words]. destruct (r =? sr) eqn:R; [exists (move_words c); split; [apply steps_law|]|exists c; split; [done|]]; unfold rd_eff; rewrite R; cbn [fst snd].
    + rewrite !flags by lia. done.
    + destruct (r =? rxd); [by destruct (rxq c)|]. destruct (Z.eqb_spec r cr); [by subst|]. destruct (Z.eqb_spec r er); [by subst|]. done.
  - intros r v [c t]. exists c. split; [done|]. cbn -[move_words]. unfold wr_eff. destruct (tx_size r) as [n|]; [intros L; by destruct (Z.ltb_spec (zlen (txq c)) deep); [|lia]|].
    destruct (r =? cr); [done|]. by destruct (r =? er).
  - intros r [c t]. cbn -[move_words]. destruct (r =? sr), (r =? rxd), (r =? cr), (r =? er); cbn -[move_words]; try lia; destruct (rxq c); cbn -[move_words]; lia.
  - intros r v [c t]. cbn -[move_words]. lia.
  - intros [c t]. cbn -[move_words]. lia.
Defined.

(** Ready; the chip is selected unless [off]. *)
Definition start (off : bool) (s : S) : board := (mk_ctl [] [] false false (Z.lor (b2z off * 1024) (Z.lor (Z.shiftl 1 15) (Z.shiftl 1 14))) (b2z (negb off)) s, 0).

Lemma qspi_start_ready off s : ready (st (start off s)).
Proof. destruct off; by repeat split. Qed.

Lemma start_selected s : selected (st (start false s)).
Proof. by repeat split. Qed.
End controller.

(** A chip that answers the complement. *)
#[global] Instance chip : Slave (list Z).
Proof.
  refine {| xchg b s a s' := a = (255 - b) mod 256 /\ s' = s ++ [b]; release _ := [] |}.
  intros b s a s' [-> _]. by apply Z.mod_pos_bound.
Defined.

#[global] Instance chip_exec : Executable (list Z).
Proof.
  refine {| exec e s := ((fun b => (255 - b) mod 256) <$> e, s ++ e) |}.
  intros e. induction e as [|b e IH]; intros s; cbn; [rewrite app_nil_r; constructor|].
  econstructor; [split; reflexivity|]. replace (s ++ b :: e) with ((s ++ [b]) ++ e) by (by rewrite <- app_assoc). apply IH.
Defined.
End bench.


(** QSPI_FCLK below zero stands for no pin, but it is configured: the register before those of the pins is written. *)
Lemma no_pin_configured w : (@qspi_setPin _ regfile.ops (-1) w) = _zynq_setMIO (mk_mio (-1) 0 0 1 1 0 0 0 1 0) w.
Proof. reflexivity. Qed.

(** No pin is refused. *)
Lemma no_pin_refused {W} `{Slcr W} p w : (qspi_setPin p w).1 <> - EINVAL.
Proof.
  unfold qspi_setPin. destruct (w32 p <? 0); [done|]. unfold mio_pin_01, mio_pin_08.
  destruct (Z.ltb_spec (w32 p) 1), (Z.ltb_spec 8 (w32 p)); try lia; cbn [andb]; unfold _zynq_setMIO; by destruct (_ <? _).
Qed.
