(* ===== verification/FlashCfg.v ===== *)
(** * Flash chips of the Zynq (src/devices/flash-zynq/flashcfg.c, flashcfg.h)

    The description a chip gives of itself (the bytes of a packed structure), the table of
    commands, and what is set for the chips that are known.  Commands that configure a chip go
    over the controller of Qspi.v. *)

From S2P Require Import Prelude Mem Devs Rtt Zynq Qspi.

(** ** src/devices/flash-zynq/flashcfg.h *)

Definition shl1u (v : Z) : Z := w32 (Z.shiftl 1 v). (* [1u << v] *)
Definition CFI_TIMEOUT_MAX_PROGRAM (typical max : Z) : Z := w32 (shl1u typical * shl1u max) / 1000.
Definition CFI_TIMEOUT_MAX_ERASE (typical max : Z) : Z := w32 (shl1u typical * shl1u max).
Definition CFI_SIZE_FLASH (v : Z) : Z := shl1u v.
Definition CFI_SIZE_SECTION (v : Z) : Z := w32 (v * 0x100).
Definition CFI_SIZE_PAGE (v : Z) : Z := shl1u v.
Definition CFI_SIZE_REGION (regSize regCount : Z) : Z := w32 (CFI_SIZE_SECTION regSize * w32 (regCount + 1)).
Definition CFI_DUMMY_CYCLES_NOT_SET := 0xff.
Definition STATUS_REG_SIZE := 0x1.

Definition flash_cmd_rdid := 0.
Definition flash_cmd_rdsr1 := 1.
Definition flash_cmd_wren := 4.
Definition flash_cmd_fast_read := 9.
Definition flash_cmd_4fast_read := 10.
Definition flash_cmd_dor := 11.
Definition flash_cmd_4dor := 12.
Definition flash_cmd_qor := 13.
Definition flash_cmd_4qor := 14.
Definition flash_cmd_dior := 15.
Definition flash_cmd_4dior := 16.
Definition flash_cmd_qior := 17.
Definition flash_cmd_4qior := 18.
Definition flash_cmd_4pp := 20.
Definition flash_cmd_qpp := 21.
Definition flash_cmd_4qpp := 22.
Definition flash_cmd_p4e := 23.
Definition flash_cmd_4p4e := 24.
Definition flash_cmd_p64e := 25.
Definition flash_cmd_4p64e := 26.
Definition flash_cmd_be := 28.

(** The packed structure [flash_cfi_t] as its 61 bytes. *)
Definition flash_cfi_t : Type := list Z.
Definition sizeof_cfi := 61.
Definition cfi_u8 (off : Z) (c : flash_cfi_t) : Z := deref (zdrop off c).
Definition cfi_u16 (off : Z) (c : flash_cfi_t) : Z := le_val (zslice off 2 c).
Definition vendorData (i : Z) : flash_cfi_t -> Z := cfi_u8 i.
Definition typ_pageWrite := cfi_u8 0x20.
Definition typ_sectorErase := cfi_u8 0x21.
Definition typ_chipErase := cfi_u8 0x22.
Definition max_pageWrite := cfi_u8 0x24.
Definition max_sectorErase := cfi_u8 0x25.
Definition max_chipErase := cfi_u8 0x26.
Definition chipSize := cfi_u8 0x27.
Definition pageSize := cfi_u16 0x2a.
Definition regsCount := cfi_u8 0x2c.

(** [regs[i]]; [None] beyond the array. *)
Definition reg_count (i : Z) (c : flash_cfi_t) : option Z := if (0 <=? i) && (i <? 4) then Some (cfi_u16 (0x2d + 4 * i) c) else None.
Definition reg_size (i : Z) (c : flash_cfi_t) : option Z := if (0 <=? i) && (i <? 4) then Some (cfi_u16 (0x2f + 4 * i) c) else None.

Record flash_cmd_t := mk_cmd { opCode : Z; cmd_size : Z; dummyCyc : Z; dataLines : Z }.

Inductive addr_mode := flash_3byteAddr | flash_4byteAddr.
Inductive init_fn := spansionInit | micronInit | winbondInit.

Record flash_info_t := mk_info {
  cfi : flash_cfi_t; cmds : list flash_cmd_t; addrMode : addr_mode; readCmd : Z; ppCmd : Z; name : cstr; init : option init_fn
}.

Definition cmd_of (info : flash_info_t) (i : Z) : flash_cmd_t := nth (Z.to_nat i) (cmds info) (mk_cmd 0 0 0 0).

(** ** src/devices/flash-zynq/flashcfg.c *)

Definition FLASH_TIMEOUT_CMD_MS := 1000.
Definition FLASH_TIMEOUT_WIP_MS := 1000.

Definition flash_defCmds : list flash_cmd_t :=
  let u := CFI_DUMMY_CYCLES_NOT_SET in
  [mk_cmd 0x9f 1 24 1; mk_cmd 0x05 1 8 1; mk_cmd 0x70 1 0 1; mk_cmd 0x04 1 0 1; mk_cmd 0x06 1 0 1; mk_cmd 0xb7 1 0 1; mk_cmd 0x35 1 0 1;
   mk_cmd 0x03 4 0 1; mk_cmd 0x13 5 0 1; mk_cmd 0x0b 4 u 1; mk_cmd 0x0c 5 u 1; mk_cmd 0x3b 4 u 2; mk_cmd 0x3c 5 u 2; mk_cmd 0x6b 4 u 4; mk_cmd 0x6c 5 u 4;
   mk_cmd 0xbb 4 u 2; mk_cmd 0xbc 5 u 2; mk_cmd 0xeb 4 u 4; mk_cmd 0xec 5 u 4; mk_cmd 0x02 4 0 1; mk_cmd 0x12 5 0 1; mk_cmd 0x32 4 0 4; mk_cmd 0x34 5 0 4;
   mk_cmd 0x20 4 0 1; mk_cmd 0x21 5 0 1; mk_cmd 0xd8 4 0 1; mk_cmd 0xdc 5 0 1; mk_cmd 0xc4 5 0 1; mk_cmd 0x60 1 0 1].

Section commands.
  Context {W : Type} `{Regs W} (fuel : nat).

(** Sends [tx] in a transaction of its own; what is received is not stored. *)
Definition send_only (tx : list Z) (w : W) : option (Z * W) :=
  '(res, _, w) ← qspi_polledTransfer fuel (Some tx) (zlen tx) FLASH_TIMEOUT_CMD_MS (qspi_start w);
  w ← qspi_stop fuel w; Some (res, w).

Definition flashcfg_optionSet (info : flash_info_t) (cmdID : Z) (w : W) : option (Z * W) := send_only [opCode (cmd_of info cmdID)] w.

Definition flashcfg_statusRegGet (info : flash_info_t) (w : W) : option (Z * Z * W) :=
  '(res, out, w) ← qspi_polledTransfer fuel (Some [opCode (cmd_of info flash_cmd_rdsr1); 0]) 2 FLASH_TIMEOUT_CMD_MS (qspi_start w);
  w ← qspi_stop fuel w;
  rx ← mstore [0; 0] 0 out; Some (res, nth 1 rx 0, w).

Fixpoint cfg_wip_loop (k : nat) (info : flash_info_t) (stop : Z) (w : W) : option (Z * W) :=
  match k with
  | O => None
  | S k =>
      '(res, st, w) ← flashcfg_statusRegGet info w;
      if res <? 0 then Some (res, w)
      else
        let '(t, w) := hal_timerGet w in
        if stop <=? t then Some (- ETIME, w)
        else if negb (Z.land st 0x1 =? 0) then cfg_wip_loop k info stop w else Some (EOK, w)
  end.

Definition flashcfg_wipCheck (info : flash_info_t) (timeout : Z) (w : W) : option (Z * W) :=
  let '(t, w) := hal_timerGet w in cfg_wip_loop fuel info (t + timeout) w.

Definition quad (info : flash_info_t) : bool := (dataLines (cmd_of info (readCmd info)) =? 4) || (dataLines (cmd_of info (ppCmd info)) =? 4).

Definition flashcfg_spansionInit (info : flash_info_t) (w : W) : option (Z * W) :=
  '(res, w) ← flashcfg_optionSet info flash_cmd_wren w;
  if res <? 0 then Some (res, w)
  else
    '(res, w) ← send_only [0x1; 0; if quad info then Z.shiftl 1 1 else Z.shiftl 2 6] w;
    if res <? 0 then Some (res, w) else flashcfg_wipCheck info FLASH_TIMEOUT_WIP_MS w.

Definition flashcfg_micronVolatileCRWREN (info : flash_info_t) (enable : Z) (w : W) : option (Z * W) :=
  '(res, w) ← flashcfg_optionSet info flash_cmd_wren w;
  if res <? 0 then Some (res, w)
  else
    '(res, w) ← send_only [0xb1; if enable =? 0 then Z.lor 0xfe 1 else 0xfe; 0xff] w;
    if res <? 0 then Some (res, w) else flashcfg_wipCheck info FLASH_TIMEOUT_WIP_MS w.

Definition flashcfg_micronInit (info : flash_info_t) (w : W) : option (Z * W) :=
  let d := dummyCyc (cmd_of info (readCmd info)) in
  if 0xf <? d - 1 then Some (- EINVAL, w)
  else
    '(res, w) ← flashcfg_micronVolatileCRWREN info 1 w;
    if res <? 0 then Some (res, w)
    else
      '(res, w) ← send_only [0x81; Z.lor (w8 (Z.shiftl (d - 1) 4)) 0xb] w;
      if res <? 0 then Some (res, w)
      else
        '(res, w) ← flashcfg_wipCheck info FLASH_TIMEOUT_WIP_MS w;
        if res <? 0 then Some (res, w)
        else
          '(res, w) ← flashcfg_micronVolatileCRWREN info 0 w;
          if res <? 0 then Some (res, w) else Some (0, w).

(** Two bytes are sent for the first command; [junk] is the second, which is not set. *)
Definition flashcfg_winbondInit (junk : Z) (info : flash_info_t) (w : W) : option (Z * W) :=
  '(res, w) ← send_only [0x50; junk] w;
  if res <? 0 then Some (res, w)
  else
    '(res, w) ← send_only [0x1; 0; if quad info then Z.shiftl 1 1 else 0; Z.shiftl 3 5] w;
    if res <? 0 then Some (res, w) else flashcfg_wipCheck info FLASH_TIMEOUT_WIP_MS w.

(** [info->init] *)
Definition init_chip (junk : Z) (info : flash_info_t) (w : W) : option (Z * W) :=
  match init info with
  | None => Some (EOK, w)
  | Some spansionInit => flashcfg_spansionInit info w
  | Some micronInit => flashcfg_micronInit info w
  | Some winbondInit => flashcfg_winbondInit junk info w
  end.
End commands.

Definition set_dummy (l : list flash_cmd_t) (x : Z * Z) : list flash_cmd_t :=
  alter (fun c => mk_cmd (opCode c) (cmd_size c) x.2 (dataLines c)) (Z.to_nat x.1) l.

Definition cfi_put (c : flash_cfi_t) (x : Z * list Z) : flash_cfi_t := splice x.1 x.2 c.

Definition flashcfg_spansion (i : flash_info_t) : flash_info_t :=
  mk_info (cfi i)
    (foldl set_dummy flash_defCmds [(flash_cmd_fast_read, 8); (flash_cmd_4fast_read, 8); (flash_cmd_dor, 8); (flash_cmd_4dor, 8); (flash_cmd_dior, 6); (flash_cmd_4dior, 6);
      (flash_cmd_qor, 8); (flash_cmd_4qor, 8); (flash_cmd_qior, 7); (flash_cmd_4qior, 7)])
    (addrMode i) flash_cmd_4fast_read flash_cmd_4pp (str "Spansion s25fl256s1") (Some spansionInit).

Definition micron_cmds : list flash_cmd_t :=
  foldl set_dummy flash_defCmds [(flash_cmd_fast_read, 8); (flash_cmd_4fast_read, 8); (flash_cmd_dor, 4); (flash_cmd_4dor, 4); (flash_cmd_dior, 8); (flash_cmd_4dior, 8);
    (flash_cmd_qor, 6); (flash_cmd_4qor, 6); (flash_cmd_qior, 10); (flash_cmd_4qior, 10)].

(** The timeouts (typical, then maximal), the size of the chip, [fdiDesc], the size of a page, the number of regions, and the count and size of the first. *)
Definition cfi_fill (typ mx : list Z) (chip fdi count : Z) (c : flash_cfi_t) : flash_cfi_t :=
  foldl cfi_put c [(0x1f, typ); (0x23, mx); (0x27, [chip]); (0x28, le_bytes 2 fdi); (0x2a, le_bytes 2 0x08); (0x2c, [1]); (0x2d, le_bytes 2 count); (0x2f, le_bytes 2 0x100)].

Definition flashcfg_micron128 (i : flash_info_t) : flash_info_t :=
  mk_info (cfi_fill [0x6; 0x9; 0x8; 0xf] [0x2; 0x2; 0x3; 0x3] 0x18 0x0102 0xff (cfi i)) micron_cmds (addrMode i) flash_cmd_qior flash_cmd_qpp
    (str "Micron n25q128") (Some micronInit).

Definition flashcfg_micron512 (i : flash_info_t) : flash_info_t :=
  mk_info (cfi_fill [0x6; 0x9; 0x8; 0xf] [0x2; 0x2; 0x3; 0x3] 0x1a 0x0102 0x3ff (cfi i)) micron_cmds (addrMode i) flash_cmd_4qior flash_cmd_4qpp
    (str "Micron MT25QU512") (Some micronInit).

Definition flash_micron2G (i : flash_info_t) : flash_info_t :=
  mk_info (cfi_fill [0x5; 0x7; 0x8; 0xf] [0x6; 0x4; 0x2; 0x3] 0x1c 0 0xfff (cfi i)) micron_cmds (addrMode i) flash_cmd_4qior flash_cmd_4qpp
    (str "Micron MT25QU02") (Some micronInit).

Definition flashcfg_winbond (i : flash_info_t) : flash_info_t :=
  mk_info (cfi_fill [0x6; 0x9; 0x8; 0xf] [0x2; 0x2; 0x3; 0x3] 0x18 0x0102 0xff (cfi i))
    (foldl set_dummy flash_defCmds [(flash_cmd_fast_read, 8); (flash_cmd_dor, 8); (flash_cmd_dior, 4); (flash_cmd_qor, 8); (flash_cmd_qior, 6)])
    (addrMode i) flash_cmd_qior flash_cmd_qpp (str "Winbond W25Q128JV") (Some winbondInit).

Definition flashcfg_jedecIDGet : flash_cmd_t := nth (Z.to_nat flash_cmd_rdid) flash_defCmds (mk_cmd 0 0 0 0).

Definition set_name (n : cstr) (i : flash_info_t) : flash_info_t := mk_info (cfi i) (cmds i) (addrMode i) (readCmd i) (ppCmd i) n (init i).
Definition set_addrMode (a : addr_mode) (i : flash_info_t) : flash_info_t := mk_info (cfi i) (cmds i) a (readCmd i) (ppCmd i) (name i) (init i).

Definition flashcfg_infoResolve (i : flash_info_t) : Z * flash_info_t :=
  let v k := vendorData k (cfi i) in
  let '(res, i) :=
    if (v 0 =? 0x1) && (v 2 =? 0x19) then (EOK, flashcfg_spansion i)
    else if (v 0 =? 0x20) && (v 1 =? 0xbb) && (v 2 =? 0x18) then (EOK, flashcfg_micron128 i)
    else if (v 0 =? 0x20) && (v 1 =? 0xbb) && (v 2 =? 0x20) then (EOK, flashcfg_micron512 i)
    else if (v 0 =? 0x20) && (v 1 =? 0xbb) && (v 2 =? 0x22) then (EOK, flash_micron2G i)
    else if (v 0 =? 0xef) && (v 1 =? 0x40) && (v 2 =? 0x18) then (EOK, flashcfg_winbond i)
    else (- EINVAL, set_name (str "Unknown") i) in
  (res, set_addrMode (if 0x18 <? chipSize (cfi i) then flash_4byteAddr else flash_3byteAddr) i).
