(* ===== verification/FlashZynq.v ===== *)
(** * NOR flash driver of the Zynq (src/devices/flash-zynq/flashdrv.c)

    Writes are collected in a buffer of one sector, which is read and erased when the first byte is
    written to it and programmed when it is full or synchronised.  The chip is a slave on the bus of
    Qspi.v that follows the commands of FlashCfg.v ([Nor_chip]).  Addresses and sizes are 32 bits
    wide.  [None] is an access outside an array, or no result within the fuel. *)

From S2P Require Import Prelude Mem Devs Rtt Zynq Qspi FlashCfg.

Definition TIMEOUT_CMD_MS := 0x05.
Definition MAX_SIZE_CMD := 0x20.
Definition BUFFER_SIZE := 65536.
Definition no_id := w32 (-1).

(** [fdrv_common]; [buff] is the whole buffer [fdrvBuffer]. *)
Record fdrv_t := mk_fdrv { cmdRx : list Z; cmdTx : list Z; fbuff : list Z; buffPos : Z; regID : Z; sectID : Z; info : flash_info_t }.

Definition set_cmdRx (l : list Z) (d : fdrv_t) := mk_fdrv l (cmdTx d) (fbuff d) (buffPos d) (regID d) (sectID d) (info d).
Definition set_cmdTx (l : list Z) (d : fdrv_t) := mk_fdrv (cmdRx d) l (fbuff d) (buffPos d) (regID d) (sectID d) (info d).
Definition set_fbuff (l : list Z) (d : fdrv_t) := mk_fdrv (cmdRx d) (cmdTx d) l (buffPos d) (regID d) (sectID d) (info d).
Definition set_sector (pos reg sect : Z) (d : fdrv_t) := mk_fdrv (cmdRx d) (cmdTx d) (fbuff d) pos reg sect (info d).
Definition set_info (i : flash_info_t) (d : fdrv_t) := mk_fdrv (cmdRx d) (cmdTx d) (fbuff d) (buffPos d) (regID d) (sectID d) i.

Definition zeros (n : Z) : list Z := replicate (Z.to_nat n) 0.

(** Regions [i], [i + 1], ... of the [n] first. *)
Fixpoint regStart_loop (n : nat) (i : Z) (c : flash_cfi_t) (acc : Z) : option Z :=
  match n with
  | O => Some acc
  | S n => s ← reg_size i c; k ← reg_count i c; regStart_loop n (i + 1) c (w32 (acc + CFI_SIZE_REGION s k))
  end.

Definition flashdrv_regStart (id : Z) (d : fdrv_t) : option Z := regStart_loop (Z.to_nat (s32 id)) 0 (cfi (info d)) 0.

(** [Some None] when no region has the address. *)
Fixpoint regionFind_loop (n : nat) (i offs start : Z) (c : flash_cfi_t) : option (option Z) :=
  match n with
  | O => Some None
  | S n =>
      s ← reg_size i c; k ← reg_count i c;
      let sz := CFI_SIZE_REGION s k in
      if (start <=? offs) && (offs <? w32 (start + sz)) then Some (Some i) else regionFind_loop n (i + 1) offs sz c
  end.

Definition flashdrv_regionFind (offs : Z) (d : fdrv_t) : option (option Z) :=
  regionFind_loop (Z.to_nat (regsCount (cfi (info d)))) 0 offs 0 (cfi (info d)).

(** The bytes of the address, in the mode of the chip. *)
Definition addr_bytes (m : addr_mode) (offs : Z) : list Z :=
  match m with
  | flash_4byteAddr => [Z.land (Z.shiftr offs 24) 0xff; Z.land (Z.shiftr offs 16) 0xff; Z.land (Z.shiftr offs 8) 0xff; Z.land offs 0xff]
  | flash_3byteAddr => [Z.land (Z.shiftr offs 16) 0xff; Z.land (Z.shiftr offs 8) 0xff; Z.land offs 0xff]
  end.

Definition flashdrv_serializeTxCmd (cmd : flash_cmd_t) (offs : Z) (d : fdrv_t) : option fdrv_t :=
  b ← mstore (cmdTx d) 0 (zeros (cmd_size cmd));
  b ← mstore b 0 [opCode cmd];
  b ← mstore b 1 (addr_bytes (addrMode (info d)) offs);
  Some (set_cmdTx b d).

(** [memset(cmdTx, 0, n)], then the code of the command. *)
Definition fill_cmd (n op : Z) (d : fdrv_t) : option fdrv_t :=
  b ← mstore (cmdTx d) 0 (zeros n);
  b ← mstore b 0 [op];
  Some (set_cmdTx b d).

Section driver.
  Context {W : Type} `{Regs W} (fuel : nat).

(** [qspi_polledTransfer(cmdTx, cmdRx, n, TIMEOUT_CMD_MS)] *)
Definition cmd_transfer (n : Z) (d : fdrv_t) (w : W) : option (Z * fdrv_t * W) :=
  '(res, out, w) ← qspi_polledTransfer fuel (Some (cmdTx d)) n TIMEOUT_CMD_MS w;
  rx ← mstore (cmdRx d) 0 out;
  Some (res, set_cmdRx rx d, w).

(** The structure is [None] when the first transfer fails. *)
Definition flashdrv_cfiRead (d : fdrv_t) (w : W) : option (Z * option (list Z) * fdrv_t * W) :=
  let cmd := flashcfg_jedecIDGet in
  let cmdSz := Z.ldiff (cmd_size cmd + dummyCyc cmd * dataLines cmd / 8 + 0x3) 0x3 in
  let dataSz := cmdSz - cmd_size cmd in
  d ← fill_cmd cmdSz (opCode cmd) d;
  '(res, d, w) ← cmd_transfer cmdSz d (qspi_start w);
  if res <? 0 then w ← qspi_stop fuel w; Some (res, None, d, w)
  else
    c ← mbytes (cmdRx d) (cmd_size cmd) dataSz;
    '(res, out, w) ← qspi_polledTransfer fuel None (sizeof_cfi - dataSz) (5 * TIMEOUT_CMD_MS) w;
    w ← qspi_stop fuel w;
    Some (res, Some (c ++ out), d, w).

Definition flashdrv_statusRegGet (d : fdrv_t) (w : W) : option (Z * Z * fdrv_t * W) :=
  let cmd := cmd_of (info d) flash_cmd_rdsr1 in
  let cmdSz := cmd_size cmd + STATUS_REG_SIZE in
  d ← fill_cmd cmdSz (opCode cmd) d;
  '(res, d, w) ← cmd_transfer cmdSz d (qspi_start w);
  w ← qspi_stop fuel w;
  v ← mbytes (cmdRx d) (cmd_size cmd) 1;
  Some (res, deref v, d, w).

Fixpoint wip_loop (k : nat) (stop : Z) (d : fdrv_t) (w : W) : option (Z * fdrv_t * W) :=
  match k with
  | O => None
  | S k =>
      '(res, st, d, w) ← flashdrv_statusRegGet d w;
      if res <? 0 then Some (res, d, w)
      else
        let '(t, w) := hal_timerGet w in
        if stop <=? t then Some (- ETIME, d, w)
        else if negb (Z.land st 0x1 =? 0) then wip_loop k stop d w else Some (EOK, d, w)
  end.

Definition flashdrv_wipCheck (timeout : Z) (d : fdrv_t) (w : W) : option (Z * fdrv_t * W) :=
  let '(t, w) := hal_timerGet w in wip_loop fuel (t + timeout) d w.

(** A transaction of [n] bytes of [cmdTx]. *)
Definition cmd_transaction (n : Z) (d : fdrv_t) (w : W) : option (Z * fdrv_t * W) :=
  '(res, d, w) ← cmd_transfer n d (qspi_start w);
  w ← qspi_stop fuel w; Some (res, d, w).

Definition flashdrv_optionSet (cmdID : Z) (d : fdrv_t) (w : W) : option (Z * fdrv_t * W) :=
  let cmd := cmd_of (info d) cmdID in
  d ← fill_cmd (cmd_size cmd) (opCode cmd) d;
  cmd_transaction (cmd_size cmd) d w.

Definition flashdrv_chipErase (d : fdrv_t) (w : W) : option (Z * fdrv_t * W) :=
  let c := cfi (info d) in
  let cmd := cmd_of (info d) flash_cmd_be in
  '(res, d, w) ← flashdrv_optionSet flash_cmd_wren d w;
  if res <? 0 then Some (res, d, w)
  else
    d ← fill_cmd (cmd_size cmd) (opCode cmd) d;
    '(res, _, w) ← qspi_polledTransfer fuel (Some (cmdTx d)) (cmd_size cmd) TIMEOUT_CMD_MS (qspi_start w);
    w ← qspi_stop fuel w;
    if res <? 0 then Some (res, d, w)
    else flashdrv_wipCheck (w32 (CFI_TIMEOUT_MAX_ERASE (typ_chipErase c) (max_chipErase c) + TIMEOUT_CMD_MS)) d w.

(** The command that erases a sector of a size. *)
Definition erase_cmd (sectSz : Z) (i : flash_info_t) : option flash_cmd_t :=
  let four := match addrMode i with flash_4byteAddr => true | flash_3byteAddr => false end in
  if sectSz =? 0x1000 then Some (cmd_of i (if four then flash_cmd_4p4e else flash_cmd_p4e))
  else if sectSz =? 0x10000 then Some (cmd_of i (if four then flash_cmd_4p64e else flash_cmd_p64e))
  else None.

Definition flashdrv_sectorErase (offs sectSz : Z) (d : fdrv_t) (w : W) : option (Z * fdrv_t * W) :=
  let c := cfi (info d) in
  if CFI_SIZE_FLASH (chipSize c) <? offs then Some (- EINVAL, d, w)
  else
    match erase_cmd sectSz (info d) with
    | None => Some (- EINVAL, d, w)
    | Some cmd =>
        '(res, d, w) ← flashdrv_optionSet flash_cmd_wren d w;
        if res <? 0 then Some (res, d, w)
        else
          d ← flashdrv_serializeTxCmd cmd offs d;
          '(res, d, w) ← cmd_transaction (cmd_size cmd) d w;
          if res <? 0 then Some (res, d, w)
          else flashdrv_wipCheck (w32 (CFI_TIMEOUT_MAX_ERASE (typ_sectorErase c) (max_sectorErase c) + TIMEOUT_CMD_MS)) d w
    end.

(** [data] is not NULL. *)
Definition flashdrv_pageProgram (offs : Z) (data : list Z) (d : fdrv_t) (w : W) : option (Z * fdrv_t * W) :=
  let c := cfi (info d) in
  let cmd := cmd_of (info d) (ppCmd (info d)) in
  let len := zlen data in
  if len =? 0 then Some (0, d, w)
  else if negb (len mod CFI_SIZE_PAGE (pageSize c) =? 0) then Some (- EINVAL, d, w)
  else
    '(res, d, w) ← flashdrv_optionSet flash_cmd_wren d w;
    if res <? 0 then Some (res, d, w)
    else
      d ← flashdrv_serializeTxCmd cmd offs d;
      '(res, d, w) ← cmd_transfer (cmd_size cmd) d (qspi_start w);
      if res <? 0 then w ← qspi_stop fuel w; Some (res, d, w)
      else
        '(res, _, w) ← qspi_polledTransfer fuel (Some data) len TIMEOUT_CMD_MS w;
        w ← qspi_stop fuel w;
        if res <? 0 then Some (res, d, w)
        else
          let len := res in
          '(res, d, w) ← flashdrv_wipCheck (w32 (CFI_TIMEOUT_MAX_PROGRAM (typ_pageWrite c) (max_pageWrite c) + TIMEOUT_CMD_MS)) d w;
          if res <? 0 then Some (res, d, w) else Some (len, d, w).

(** The result also has the bytes stored to the caller's buffer. *)
Definition flashdrv_read (offs len timeout : Z) (d : fdrv_t) (w : W) : option (Z * list Z * fdrv_t * W) :=
  let cmd := cmd_of (info d) (readCmd (info d)) in
  if len =? 0 then Some (0, [], d, w)
  else
    d ← flashdrv_serializeTxCmd cmd offs d;
    let dummySz := dummyCyc cmd * dataLines cmd / 8 in
    let cmdSz := cmd_size cmd + dummySz in
    b ← mstore (cmdTx d) cmdSz (replicate (Z.to_nat dummySz) 0xff);
    let d := set_cmdTx b d in
    let paddedCmdSz := Z.ldiff (cmdSz + 0x3) 0x3 in
    let transferSz := paddedCmdSz - cmdSz in
    let dataSz := if len <? transferSz then len else transferSz in
    '(res, d, w) ← cmd_transfer paddedCmdSz d (qspi_start w);
    if res <? 0 then w ← qspi_stop fuel w; Some (res, [], d, w)
    else
      a ← mbytes (cmdRx d) cmdSz dataSz;
      '(res, out, w) ← qspi_polledTransfer fuel None (len - dataSz) timeout w;
      w ← qspi_stop fuel w;
      Some (if res <? 0 then res else res + dataSz, a ++ out, d, w).

(** The pages of the sector from page [i] on. *)
Fixpoint zsync_pages (k : nat) (i base pageSz : Z) (d : fdrv_t) (w : W) : option (Z * fdrv_t * W) :=
  match k with
  | O => Some (EOK, d, w)
  | S k =>
      page ← mbytes (fbuff d) (w32 (i * pageSz)) pageSz;
      '(res, d, w) ← flashdrv_pageProgram (w32 (base + i * pageSz)) page d w;
      if res <? 0 then Some (res, d, w) else zsync_pages k (i + 1) base pageSz d w
  end.

Definition flashdrv_sync (d : fdrv_t) (w : W) : option (Z * fdrv_t * W) :=
  if buffPos d =? 0 then Some (EOK, d, w)
  else
    regStart ← flashdrv_regStart (regID d) d;
    s ← reg_size (regID d) (cfi (info d));
    let sectSz := CFI_SIZE_SECTION s in
    let pageSz := CFI_SIZE_PAGE (pageSize (cfi (info d))) in
    '(res, d, w) ← zsync_pages (Z.to_nat (sectSz / pageSz)) 0 (w32 (regStart + sectID d * sectSz)) pageSz d w;
    if res <? 0 then Some (res, d, w) else Some (EOK, set_sector 0 no_id no_id d, w).

(** Reads the sector of an address to the buffer and erases it. *)
Definition reload_sector (offs reg sect regStart sectSz : Z) (d : fdrv_t) (w : W) : option (Z * fdrv_t * W) :=
  '(res, d, w) ← flashdrv_sync d w;
  if res <? 0 then Some (res, d, w)
  else
    let base := w32 (regStart + sectSz * sect) in
    '(res, bytes, d, w) ← flashdrv_read base sectSz (w32 (sectSz * TIMEOUT_CMD_MS) / 0x100) d w;
    b ← mstore (fbuff d) 0 bytes;
    let d := set_fbuff b d in
    if res <? 0 then Some (res, d, w)
    else
      '(res, d, w) ← flashdrv_sectorErase base sectSz d w;
      if res <? 0 then Some (res, d, w) else Some (EOK, set_sector (w32 (offs - regStart - sect * sectSz)) reg sect d, w).

(** The sector of an address is made the one in the buffer, unless it is already. *)
Definition load_sector (offs reg sect regStart sectSz : Z) (d : fdrv_t) (w : W) : option (Z * fdrv_t * W) :=
  if negb (reg =? regID d) || negb (sect =? sectID d) then reload_sector offs reg sect regStart sectSz d w else Some (EOK, d, w).

(** [k] bounds the parts. *)
Fixpoint zwrite_loop (k : nat) (offs : Z) (data : list Z) (saveSz : Z) (d : fdrv_t) (w : W) : option (Z * fdrv_t * W) :=
  let len := zlen data in
  if len <=? saveSz then Some (saveSz, d, w)
  else
    match k with
    | O => None
    | S k =>
        r ← flashdrv_regionFind offs d;
        match r with
        | None => Some (- EINVAL, d, w)
        | Some reg =>
            regStart ← flashdrv_regStart reg d;
            s ← reg_size reg (cfi (info d));
            let sectSz := CFI_SIZE_SECTION s in
            let sect := (offs - regStart) / sectSz in
            '(res, d, w) ← load_sector offs reg sect regStart sectSz d w;
            if res <? 0 then Some (res, d, w)
            else
              let freeSz := w32 (sectSz - buffPos d) in
              let chunkSz := if len - saveSz <? freeSz then len - saveSz else freeSz in
              b ← mstore (fbuff d) (buffPos d) (zslice saveSz chunkSz data);
              let saveSz := saveSz + chunkSz in
              let d := set_sector (buffPos d + chunkSz) (regID d) (sectID d) (set_fbuff b d) in
              if buffPos d <? sectSz then zwrite_loop k (w32 (offs + chunkSz)) data saveSz d w
              else
                '(res, d, w) ← flashdrv_sync d w;
                if res <? 0 then Some (res, d, w) else zwrite_loop k (w32 (offs + chunkSz)) data saveSz d w
        end
    end.

Definition flashdrv_write (offs : Z) (data : list Z) (d : fdrv_t) (w : W) : option (Z * fdrv_t * W) :=
  if zlen data =? 0 then Some (0, d, w)
  else if CFI_SIZE_FLASH (chipSize (cfi (info d))) <? w32 (offs + zlen data) then Some (- EINVAL, d, w)
  else zwrite_loop (length data) offs data 0 d w.

(** The sectors from [addr] to [end_]; [k] bounds them. *)
Fixpoint zerase_loop (k : nat) (addr end_ len : Z) (d : fdrv_t) (w : W) : option (Z * fdrv_t * W) :=
  if end_ <=? addr then Some (len, d, w)
  else
    match k with
    | O => None
    | S k =>
        r ← flashdrv_regionFind addr d;
        match r with
        | None => Some (- EINVAL, d, w)
        | Some reg =>
            s ← reg_size reg (cfi (info d));
            let sectSz := CFI_SIZE_SECTION s in
            '(res, d, w) ← flashdrv_sectorErase addr sectSz d w;
            if res <? 0 then Some (res, d, w) else zerase_loop k (w32 (addr + sectSz)) end_ (w32 (len + sectSz)) d w
        end
    end.

Definition flashdrv_erase (addr len : Z) (d : fdrv_t) (w : W) : option (Z * fdrv_t * W) :=
  let c := cfi (info d) in
  if len =? 0 then Some (0, d, w)
  else
    let d := set_sector 0 no_id no_id d in
    if len =? w32 (-1) then
      '(res, d, w) ← flashdrv_chipErase d w;
      if res <? 0 then Some (res, d, w) else Some (s32 (CFI_SIZE_FLASH (chipSize c)), d, w)
    else if CFI_SIZE_FLASH (chipSize c) <? w32 (addr + len) then Some (- EINVAL, d, w)
    else
      let end_ := w32 (addr + len) in
      r ← flashdrv_regionFind (w32 (end_ - 1)) d;
      match r with
      | None => Some (- EINVAL, d, w)
      | Some id =>
          s ← reg_size id c;
          let mask := w32 (CFI_SIZE_SECTION s - 1) in
          let end_ := Z.ldiff (w32 (end_ + mask)) mask in
          r ← flashdrv_regionFind addr d;
          match r with
          | None => Some (- EINVAL, d, w)
          | Some id =>
              s ← reg_size id c;
              let mask := w32 (CFI_SIZE_SECTION s - 1) in
              let addr := Z.ldiff addr mask in
              zerase_loop fuel addr end_ 0 d w
          end
      end.

(** A mode of a mapping is within that of the memory, and the flash is never mapped. *)
Definition flashdrv_map (mode memmode : Z) : Z := if negb (Z.land mode memmode =? mode) then - EINVAL else dev_isNotMappable.

Context `{Slcr W}.

Definition flashdrv_done (d : fdrv_t) (w : W) : option (Z * fdrv_t * W) :=
  '(res, d, w) ← flashdrv_sync d w;
  if res <? 0 then '(_, w) ← qspi_deinit fuel w; Some (res, d, w)
  else '(res, w) ← qspi_deinit fuel w; Some (if res <? 0 then res else EOK, d, w).

(** Sectors of all regions fit the buffer. *)
Fixpoint regions_fit (n : nat) (i : Z) (c : flash_cfi_t) : option bool :=
  match n with
  | O => Some true
  | S n => s ← reg_size i c; if BUFFER_SIZE <? CFI_SIZE_SECTION s then Some false else regions_fit n (i + 1) c
  end.

(** The pins and dividers are those of the board ([qspi_init]); [junk] is a byte that is sent uninitialised. *)
Definition flashdrv_init (sclk : option Z) (pins : list Z) (fclk junk : Z) (d : fdrv_t) (w : W) : option (Z * fdrv_t * W) :=
  let d := set_sector 0 no_id no_id d in
  let '(res, w) := qspi_init sclk pins fclk w in
  if res <? 0 then Some (res, d, w)
  else
    '(res, c, d, w) ← flashdrv_cfiRead d w;
    let i := info d in
    c ← match c with None => Some (cfi i) | Some c => mstore (cfi i) 0 c end;
    let d := set_info (mk_info c (cmds i) (addrMode i) (readCmd i) (ppCmd i) (name i) (init i)) d in
    if res <? 0 then Some (res, d, w)
    else
      let '(res, i) := flashcfg_infoResolve (info d) in
      let d := set_info i d in
      if res <? 0 then Some (res, d, w)
      else
        fit ← regions_fit (Z.to_nat (regsCount (cfi i))) 0 (cfi i);
        if negb fit then Some (- EINVAL, d, w)
        else
          '(res, w) ← init_chip fuel junk i w;
          if res <? 0 then Some (res, d, w)
          else
            let cmd := cmd_of i (readCmd i) in
            if (dummyCyc cmd =? CFI_DUMMY_CYCLES_NOT_SET) || negb ((dummyCyc cmd * dataLines cmd) mod 8 =? 0) then Some (- EINVAL, d, w)
            else Some (EOK, d, w).

End driver.

(** ** What the chip does *)

Inductive phase_t := PReady | PEnabled | PBusy (m : list Z).

(** [PBusy m] is a chip that will hold [m].  A transaction is what is exchanged from [fresh] to [release]. *)
Class Nor_chip (S : Type) `{Slave S} (i : flash_info_t) := {
  fresh : S -> Prop;
  phase : S -> phase_t;
  mem : S -> list Z;
  status_law s x out s1 : fresh s -> xchgs [opCode (cmd_of i flash_cmd_rdsr1); x] s out s1 ->
    fresh (release s1) /\ exists a v, out = [a; v] /\
      if Z.testbit v 0 then phase (release s1) = phase s /\ mem (release s1) = mem s
      else match phase s with
           | PBusy m => phase (release s1) = PReady /\ mem (release s1) = m
           | p => phase (release s1) = p /\ mem (release s1) = mem s
           end;
  enable_law s out s1 : fresh s -> phase s = PReady -> xchgs [opCode (cmd_of i flash_cmd_wren)] s out s1 ->
    fresh (release s1) /\ phase (release s1) = PEnabled /\ mem (release s1) = mem s;
  program_law s a data out s1 : fresh s -> phase s = PEnabled -> Forall is_byte data -> zlen data = CFI_SIZE_PAGE (pageSize (cfi i)) ->
    0 <= a -> a mod zlen data = 0 -> a + zlen data <= zlen (mem s) ->
    xchgs (opCode (cmd_of i (ppCmd i)) :: addr_bytes (addrMode i) a ++ data) s out s1 ->
    fresh (release s1) /\ phase (release s1) = PBusy (splice a (zip_with Z.land (zslice a (zlen data) (mem s)) data) (mem s));
  erase_law s sz cmd a out s1 : fresh s -> phase s = PEnabled -> erase_cmd sz i = Some cmd -> 0 <= a -> a mod sz = 0 -> a + sz <= zlen (mem s) ->
    xchgs (opCode cmd :: addr_bytes (addrMode i) a) s out s1 ->
    fresh (release s1) /\ phase (release s1) = PBusy (splice a (replicate (Z.to_nat sz) 0xff) (mem s));
  read_law s a zs out s1 :
    let cmd := cmd_of i (readCmd i) in
    let dummies := dummyCyc cmd * dataLines cmd / 8 in
    fresh s -> phase s = PReady -> 0 <= a -> a < zlen (mem s) ->
    xchgs (opCode cmd :: addr_bytes (addrMode i) a ++ zeros dummies ++ zs) s out s1 ->
    fresh (release s1) /\ phase (release s1) = PReady /\ mem (release s1) = mem s /\
    forall k, 0 <= k <= zlen zs -> a + k <= zlen (mem s) -> zslice (cmd_size cmd + dummies) k out = zslice a k (mem s)
}.

(** ** What the description of the chip is assumed to be; [chips_ok] shows it of the chips that are known *)

Record chip_ok (i : flash_info_t) (total pg asz dm : Z) : Prop := {
  ok_total : CFI_SIZE_FLASH (chipSize (cfi i)) = total /\ 0 < total < 2 ^ 31;
  ok_page : CFI_SIZE_PAGE (pageSize (cfi i)) = pg /\ 0 < pg;
  ok_asz : asz = 1 + zlen (addr_bytes (addrMode i) 0);
  ok_read : let cmd := cmd_of i (readCmd i) in cmd_size cmd = asz /\ dummyCyc cmd * dataLines cmd / 8 = dm /\ 0 <= dm <= 8 /\ is_byte (opCode cmd);
  ok_prog : let cmd := cmd_of i (ppCmd i) in cmd_size cmd = asz /\ is_byte (opCode cmd);
  ok_short : forall c, In c [flash_cmd_wren; flash_cmd_rdsr1; flash_cmd_be] -> cmd_size (cmd_of i c) = 1 /\ is_byte (opCode (cmd_of i c));
  ok_erase sz cmd : erase_cmd sz i = Some cmd -> cmd_size cmd = asz /\ is_byte (opCode cmd)
}.

(** Each address is found in the region it lies in. *)
Definition located (c : flash_cfi_t) (total pg offs id rs sz : Z) : Prop :=
  0 <= id < 4 /\ regStart_loop (Z.to_nat id) 0 c 0 = Some rs /\ CFI_SIZE_SECTION <$> reg_size id c = Some sz /\
  (sz = 0x1000 \/ sz = 0x10000) /\ sz mod pg = 0 /\ 0 <= rs <= offs /\ rs mod sz = 0 /\ rs + (offs - rs) / sz * sz + sz <= total.

Definition geometry (c : flash_cfi_t) (total pg : Z) : Prop :=
  forall offs, 0 <= offs < total ->
    exists id rs sz, regionFind_loop (Z.to_nat (regsCount c)) 0 offs 0 c = Some (Some id) /\ located c total pg offs id rs sz.

(** The sector in the buffer, and what the flash holds once it is written back. *)
Definition sector_of (d : fdrv_t) : option (Z * Z) :=
  if buffPos d =? 0 then None
  else
    rs ← flashdrv_regStart (regID d) d;
    s ← reg_size (regID d) (cfi (info d));
    Some (rs + sectID d * CFI_SIZE_SECTION s, CFI_SIZE_SECTION s).

Definition zflash_view (d : fdrv_t) (m : list Z) : list Z :=
  match sector_of d with Some (base, sz) => splice base (ztake sz (fbuff d)) m | None => m end.

(** ** Commands *)

Section commands.
  Context {W S : Type} `{Qspi_hw W S} (i : flash_info_t) {chip : Nor_chip S i} (total pg asz dm limit : Z) (fuel : nat).
  Hypothesis OK : chip_ok i total pg asz dm.
  Hypothesis GEO : geometry (cfi i) total pg.
  Hypothesis F1 : depth <= Z.of_nat fuel.
  Hypothesis F2 : res * limit < Z.of_nat fuel.
  Hypothesis LIM : 1280 <= limit.
  Hypothesis LIM_E : w32 (CFI_TIMEOUT_MAX_ERASE (typ_sectorErase (cfi i)) (max_sectorErase (cfi i)) + TIMEOUT_CMD_MS) <= limit.
  Hypothesis LIM_P : w32 (CFI_TIMEOUT_MAX_PROGRAM (typ_pageWrite (cfi i)) (max_pageWrite (cfi i)) + TIMEOUT_CMD_MS) <= limit.
  Implicit Types (d : fdrv_t) (w : W).

Record dok d : Prop := {
  d_info : info d = i;
  d_tx : zlen (cmdTx d) = 32 /\ Forall is_byte (cmdTx d);
  d_rx : zlen (cmdRx d) = 32 /\ Forall is_byte (cmdRx d);
  d_buff : zlen (fbuff d) = BUFFER_SIZE /\ Forall is_byte (fbuff d);
  d_dummies : zslice asz dm (cmdTx d) = zeros dm
}.

(** What a command leaves of the driver: its own buffers apart, all. *)
Definition kept d d' : Prop := dok d' /\ fbuff d' = fbuff d /\ buffPos d' = buffPos d /\ regID d' = regID d /\ sectID d' = sectID d.

(** Between transactions, with the chip as it is. *)
Definition wok w (p : phase_t) (m : list Z) : Prop := ready (st w) /\ fresh (slv (st w)) /\ phase (slv (st w)) = p /\ mem (slv (st w)) = m.

(** An operation ends, in time, with an error or with [P]. *)
Definition comes_to (x : option (Z * fdrv_t * W)) d w (P : Z -> fdrv_t -> W -> Prop) : Prop :=
  exists r d' w', x = Some (r, d', w') /\ now w <= now w' /\ kept d d' /\ (r < 0 \/ (0 <= r /\ P r d' w')).

Lemma kept_refl d : dok d -> kept d d.
Proof. intros D. by split. Qed.

Lemma bytes_kept_trans d1 d2 d3 : kept d1 d2 -> kept d2 d3 -> kept d1 d3.
Proof. intros (_ & A1 & A2 & A3 & A4) (D & B1 & B2 & B3 & B4). split; [done|]. repeat split; congruence. Qed.

Lemma asz_range : 4 <= asz <= 5.
Proof. destruct OK as [_ _ A _ _ _ _]. rewrite A. destruct (addrMode i); cbn; lia. Qed.

Lemma length_addr a : zlen (addr_bytes (addrMode i) a) = asz - 1.
Proof. destruct OK as [_ _ A _ _ _ _]. rewrite A. destruct (addrMode i); cbn; lia. Qed.

Lemma addr_byte a : Forall is_byte (addr_bytes (addrMode i) a).
Proof. assert (B : forall x, is_byte (Z.land x 0xff)) by (intros x; rewrite land_ff; by apply Z.mod_pos_bound). destruct (addrMode i); cbn; repeat constructor; apply B. Qed.

Lemma set_cmdTx_ok b d : dok d -> zlen b = 32 -> Forall is_byte b -> zslice asz dm b = zeros dm -> kept d (set_cmdTx b d).
Proof. intros [] L B Dz. split; [by split|done]. Qed.

(** Bytes below the dummies. *)
Lemma dummies_kept (b : list Z) o xs : 0 <= o -> o + zlen xs <= asz -> zlen b = 32 -> zslice asz dm b = zeros dm -> zslice asz dm (splice o xs b) = zeros dm.
Proof. intros O X L Dz. pose proof asz_range. rewrite <- Dz. destruct OK as [_ _ _ (_ & _ & D & _) _ _ _]. apply zslice_splice_after; lia. Qed.

Lemma zlen_zeros n : 0 <= n -> zlen (zeros n) = n.
Proof. intros. unfold zeros. rewrite length_replicate. lia. Qed.

Lemma byte_zeros n : Forall is_byte (zeros n).
Proof. by apply Forall_replicate. Qed.

(** A command of a code and zeros. *)
Lemma fill_cmd_spec n op d :
  dok d -> 1 <= n <= asz -> is_byte op ->
  exists d', fill_cmd n op d = Some d' /\ kept d d' /\ cmdRx d' = cmdRx d /\ ztake n (cmdTx d') = op :: zeros (n - 1).
Proof.
  intros D N B. pose proof asz_range. destruct D as [I [T Tb] R Bf Dz]. unfold fill_cmd. pose proof (zlen_zeros n ltac:(lia)).
  rewrite mstore_ok by lia. cbn [mbind option_bind]. assert (L1 : zlen (splice 0 (zeros n) (cmdTx d)) = 32) by (rewrite length_splice; lia).
  rewrite mstore_ok by (cbn; lia). cbn [mbind option_bind]. set (b := splice 0 [op] _). exists (set_cmdTx b d). split; [done|].
  assert (L2 : zlen b = 32) by (unfold b; rewrite length_splice; cbn; lia). split.
  - apply set_cmdTx_ok; [by split|done| |]. 
    + apply Forall_splice; [apply Forall_splice; [done|apply byte_zeros]|by constructor].
    + apply dummies_kept; [lia|cbn; lia|done|]. apply dummies_kept; [lia|lia|done|done].
  - split; [done|]. cbn [set_cmdTx cmdTx]. unfold b. rewrite <- zslice_0.
    assert (L0 : zlen (splice 0 [op] (zeros n)) = n) by (rewrite length_splice; cbn; lia).
    rewrite splice_into, Z.sub_0_r by (cbn; lia). rewrite zslice_splice_same by lia.
    unfold zeros. replace (Z.to_nat n) with (Datatypes.S (Z.to_nat (n - 1))) by lia. done.
Qed.

(** A command with an address. *)
Lemma serialize_spec cmd a d :
  dok d -> cmd_size cmd = asz -> is_byte (opCode cmd) ->
  exists d', flashdrv_serializeTxCmd cmd a d = Some d' /\ kept d d' /\ cmdRx d' = cmdRx d /\
    ztake asz (cmdTx d') = opCode cmd :: addr_bytes (addrMode i) a.
Proof.
  intros D C B. pose proof asz_range. destruct D as [I [T Tb] R Bf Dz]. unfold flashdrv_serializeTxCmd. rewrite C, I. pose proof (zlen_zeros asz ltac:(lia)). pose proof (length_addr a) as La.
  rewrite mstore_ok by lia. cbn [mbind option_bind]. assert (L1 : zlen (splice 0 (zeros asz) (cmdTx d)) = 32) by (rewrite length_splice; lia).
  rewrite mstore_ok by (cbn; lia). cbn [mbind option_bind]. set (b := splice 0 [opCode cmd] _).
  assert (L2 : zlen b = 32) by (unfold b; rewrite length_splice; cbn; lia). rewrite mstore_ok by lia. cbn [mbind option_bind].
  set (b2 := splice 1 _ b). exists (set_cmdTx b2 d). split; [done|]. assert (L3 : zlen b2 = 32) by (unfold b2; rewrite length_splice; lia).
  assert (Z1 : zslice asz dm b = zeros dm) by (apply dummies_kept; [lia|cbn; lia|done|]; apply dummies_kept; [lia|lia|done|done]).
  assert (B1 : Forall is_byte b) by (apply Forall_splice; [apply Forall_splice; [done|apply byte_zeros]|by constructor]).
  split; [apply set_cmdTx_ok; [by split|done| |]|split; [done|]].
  - apply Forall_splice; [done|apply addr_byte].
  - apply dummies_kept; [lia|lia|done|done].
  - cbn [set_cmdTx cmdTx]. unfold b2. rewrite <- zslice_0, (zslice_splice_tail 1 0) by lia. change (opCode cmd :: ?l) with ([opCode cmd] ++ l). f_equal.
Qed.

Lemma enough T : T <= limit -> res * T < Z.of_nat fuel.
Proof. intros L. pose proof (res_pos (W := W)). nia. Qed.

Lemma cmd_transfer_spec n d w :
  dok d -> ready (st w) -> selected (st w) -> 0 <= n <= 32 ->
  exists r d' w', cmd_transfer fuel n d w = Some (r, d', w') /\ now w <= now w' /\ kept d d' /\ cmdTx d' = cmdTx d /\ load (st w') <= depth /\
    ((r = n /\ ready (st w') /\ selected (st w') /\ xchgs (ztake n (cmdTx d)) (slv (st w)) (ztake n (cmdRx d')) (slv (st w'))) \/ r = - ETIME).
Proof.
  intros D R Sel N. destruct D as [I [T Tb] [Rx Rb] Bf Dz]. unfold cmd_transfer.
  destruct (polled_spec fuel (Some (cmdTx d)) n TIMEOUT_CMD_MS w R Sel) as (r & out & w' & -> & Nw & L & O); [split; [lia|done]|lia|done|apply enough; unfold TIMEOUT_CMD_MS; lia|].
  cbn [mbind option_bind].
  assert (Lo : zlen out <= n) by (destruct O as [(_ & X & _)|(_ & _ & Lo & _)]; [apply xchgs_length in X; cbn in X; rewrite length_take in X; lia|done]).
  assert (Ob : Forall is_byte out) by (destruct O as [(_ & X & _)|(_ & _ & _ & s' & X)]; by eapply xchgs_bytes).
  rewrite mstore_ok by lia. cbn [mbind option_bind]. exists r, (set_cmdRx (splice 0 out (cmdRx d)) d), w'.
  split; [done|]. split; [done|]. split; [split; [split; try done; cbn [set_cmdRx cmdRx]; split; [rewrite length_splice; lia|by apply Forall_splice]|done]|]. split; [done|]. split; [done|].
  destruct O as [(-> & X & R' & Sel')|(-> & _)]; [left|by right]. split; [done|]. split; [done|]. split; [done|].
  pose proof (xchgs_length _ _ _ _ X) as Lx. cbn [sends] in X, Lx. rewrite length_take in Lx. cbn [set_cmdRx cmdRx]. rewrite <- (zslice_0 n (splice 0 out (cmdRx d))), zslice_splice_same by lia. done.
Qed.

(** The transaction ends: the answers, and the chip after it, or an error. *)
Definition transacted (mosi : list Z) w (out : list Z) w' : Prop :=
  ready (st w') /\ exists s1, xchgs mosi (slv (st w)) out s1 /\ slv (st w') = release s1.

Lemma stop_done w w1 w2 mosi out :
  ready (st w1) -> selected (st w1) -> xchgs mosi (slv (st w)) out (slv (st w1)) ->
  (ready (st w1) -> ready (st w2) /\ slv (st w2) = if Z.testbit (cr_v (st w1)) 10 then slv (st w1) else release (slv (st w1))) -> transacted mosi w out w2.
Proof. intros R Sel X St. destruct (St R) as [R2 S2]. rewrite (proj1 Sel) in S2. split; [done|]. by eexists. Qed.

Lemma cmd_transaction_spec n d w :
  dok d -> ready (st w) -> 0 <= n <= 32 ->
  comes_to (cmd_transaction fuel n d w) d w (fun r d' w' => r = n /\ cmdTx d' = cmdTx d /\ transacted (ztake n (cmdTx d)) w (ztake n (cmdRx d')) w').
Proof.
  intros D R N. unfold cmd_transaction. destruct (qspi_start_spec w R) as (R1 & Sel1 & S1 & N1). set (w1 := qspi_start w) in *.
  destruct (cmd_transfer_spec n d w1 D R1 Sel1 N) as (r & d' & w2 & -> & N2 & K & Tx & L & O). cbn [mbind option_bind].
  destruct (qspi_stop_spec fuel w2) as (w3 & -> & N3 & St); [lia|]. cbn [mbind option_bind]. exists r, d', w3. split; [done|]. split; [lia|]. split; [done|].
  destruct O as [(-> & R2 & Sel2 & X)| ->]; [right; split; [lia|]|left; done]. split; [done|]. split; [done|]. rewrite S1 in X. by apply (stop_done w w2).
Qed.

(** The caller goes on after a success, and returns an error as it is. *)
Lemma comes_to_bind x d w P (f : Z -> fdrv_t -> W -> option (Z * fdrv_t * W)) Q :
  comes_to x d w P ->
  (forall r d' w', 0 <= r -> kept d d' -> now w <= now w' -> P r d' w' -> comes_to (f r d' w') d' w' Q) ->
  comes_to ('(r, d, w) ← x; if r <? 0 then Some (r, d, w) else f r d w) d w Q.
Proof.
  intros (r & d' & w' & -> & N & K & O) F. cbn [mbind option_bind]. destruct (Z.ltb_spec r 0) as [L|L].
  - exists r, d', w'. split; [done|]. split; [done|]. split; [done|]. by left.
  - destruct O as [|[_ O]]; [lia|]. destruct (F r d' w' L K N O) as (r2 & d2 & w2 & -> & N2 & K2 & O2). exists r2, d2, w2. split; [done|]. split; [lia|]. split; [by eapply bytes_kept_trans|done].
Qed.

Lemma comes_to_weaken x d w (P Q : Z -> fdrv_t -> W -> Prop) : comes_to x d w P -> (forall r d' w', 0 <= r -> kept d d' -> P r d' w' -> Q r d' w') -> comes_to x d w Q.
Proof. intros (r & d' & w' & E & N & K & O) F. exists r, d', w'. split; [done|]. split; [done|]. split; [done|]. destruct O as [|[L O]]; [by left|right; auto]. Qed.

Lemma comes_to_kept x d0 d w P : kept d0 d -> comes_to x d w P -> comes_to x d0 w P.
Proof. intros K0 (r & d' & w' & E & N & K & O). exists r, d', w'. split; [done|]. split; [done|]. split; [by eapply bytes_kept_trans|done]. Qed.

Lemma short_cmd c : In c [flash_cmd_wren; flash_cmd_rdsr1; flash_cmd_be] -> cmd_size (cmd_of i c) = 1 /\ is_byte (opCode (cmd_of i c)).
Proof. destruct OK as [_ _ _ _ _ Sh _]. apply Sh. Qed.

Lemma enable_spec d w m :
  dok d -> wok w PReady m -> comes_to (flashdrv_optionSet fuel flash_cmd_wren d w) d w (fun _ _ w' => wok w' PEnabled m).
Proof.
  intros D (R & Fr & Ph & Me). destruct (short_cmd flash_cmd_wren) as [Cs Cb]; [by left|]. unfold flashdrv_optionSet. rewrite (d_info d D), Cs.
  pose proof asz_range. destruct (fill_cmd_spec 1 (opCode (cmd_of i flash_cmd_wren)) d D) as (d1 & -> & K & _ & T); [lia|done|]. cbn [mbind option_bind].
  apply (comes_to_kept _ d d1); [done|]. eapply comes_to_weaken; [apply cmd_transaction_spec; [apply K|done|lia]|].
  intros r d' w' _ _ (-> & _ & R' & s1 & X & E). rewrite T in X. cbn [zeros Z.sub Z.to_nat replicate] in X. destruct (enable_law _ _ _ Fr Ph X) as (A1 & A2 & A3).
  unfold wok. rewrite E, A2, A3. done.
Qed.

(** The chip when it is not busy any more. *)
Definition settled (p : phase_t) (m : list Z) : phase_t * list Z := match p with PBusy m => (PReady, m) | p => (p, m) end.

Lemma status_spec d w p m :
  dok d -> wok w p m ->
  exists r v d' w', flashdrv_statusRegGet fuel d w = Some (r, v, d', w') /\ now w <= now w' /\ kept d d' /\
    (r < 0 \/ (0 <= r /\ if Z.testbit v 0 then wok w' p m else wok w' (settled p m).1 (settled p m).2)).
Proof.
  intros D (R & Fr & Ph & Me). destruct (short_cmd flash_cmd_rdsr1) as [Cs Cb]; [right; by left|]. unfold flashdrv_statusRegGet. rewrite (d_info d D), Cs. unfold STATUS_REG_SIZE.
  pose proof asz_range. destruct (fill_cmd_spec (1 + 1) (opCode (cmd_of i flash_cmd_rdsr1)) d D) as (d1 & -> & K & _ & T); [lia|done|]. cbn [mbind option_bind].
  destruct (cmd_transaction_spec (1 + 1) d1 w (proj1 K) R ltac:(lia)) as (r & d2 & w2 & E & N & K2 & O). unfold cmd_transaction in E.
  destruct (cmd_transfer fuel (1 + 1) d1 (qspi_start w)) as [[[r1 d3] w3]|]; [|done]. cbn [mbind option_bind] in E |- *.
  destruct (qspi_stop fuel w3) as [w4|]; [|done]. cbn [mbind option_bind] in E |- *. injection E as -> -> ->.
  pose proof (d_rx d2 (proj1 K2)) as [Lr _]. rewrite mbytes_ok by lia. cbn [mbind option_bind].
  exists r, (deref (zslice 1 1 (cmdRx d2))), d2, w2. split; [done|]. split; [done|]. split; [by eapply bytes_kept_trans|].
  destruct O as [|[P (-> & _ & R' & s1 & X & E)]]; [by left|right; split; [done|]].
  rewrite T in X. cbn [zeros Z.sub Z.to_nat replicate] in X. destruct (status_law _ _ _ _ Fr X) as (A1 & a & v & Eo & A2).
  assert (V : deref (zslice 1 1 (cmdRx d2)) = v).
  { assert (Q : zslice 1 1 (ztake (1 + 1) (cmdRx d2)) = [v]) by (by rewrite Eo). rewrite <- zslice_0, zslice_zslice in Q by lia. change (0 + 1) with 1 in Q. by rewrite Q. }
  rewrite V. unfold wok. rewrite E. rewrite Ph, Me in A2. destruct (Z.testbit v 0); [tauto|]. destruct p; cbn; tauto.
Qed.

Lemma wip_loop_spec k stop d w p m :
  dok d -> wok w p m -> res * stop - now w <= Z.of_nat k ->
  comes_to (wip_loop fuel (Datatypes.S k) stop d w) d w (fun _ _ w' => wok w' (settled p m).1 (settled p m).2).
Proof.
  pose proof (res_pos (W := W)) as RP. revert d w. induction k as [|k IH]; intros d w D K T; cbn [wip_loop];
    destruct (status_spec d w p m D K) as (r & v & d1 & w1 & -> & N1 & K1 & O); cbn [mbind option_bind];
    (destruct (Z.ltb_spec r 0); [exists r, d1, w1; split; [done|]; split; [done|]; split; [done|]; by left|]); destruct O as [|[_ O]]; try lia;
    destruct (now_law w1) as [V N2]; pose proof (time_law w1) as Tl; destruct (hal_timerGet w1) as [t w2]; cbn [fst snd] in *;
    (destruct (Z.leb_spec stop t); [exists (- ETIME), d1, w2; split; [done|]; split; [lia|]; split; [done|]; by left|]).
  - exfalso. assert (stop <= now w2 / res) by (apply Z.div_le_lower_bound; lia). lia.
  - assert (Same : forall p' m', wok w1 p' m' -> wok w2 p' m') by (intros p' m' (R & Q); unfold wok; by rewrite (stopped _ _ (proj1 (proj2 (proj2 R))) Tl)).
    assert (F : negb (Z.land v 1 =? 0) = Z.testbit v 0) by (by apply (land_flag v 0)). rewrite F.
    destruct (Z.testbit v 0).
    + destruct (IH d1 w2 (proj1 K1) (Same _ _ O)) as (r2 & d2 & w3 & E & N3 & K3 & O3); [lia|]. exists r2, d2, w3. split; [exact E|]. split; [lia|]. split; [by eapply bytes_kept_trans|done].
    + exists EOK, d1, w2. split; [done|]. split; [lia|]. split; [done|]. right. split; [done|]. by apply Same.
Qed.

Lemma wip_spec T d w p m :
  dok d -> wok w p m -> T <= limit -> comes_to (flashdrv_wipCheck fuel T d w) d w (fun _ _ w' => wok w' (settled p m).1 (settled p m).2).
Proof.
  intros D K L. pose proof (res_pos (W := W)). unfold flashdrv_wipCheck. destruct (now_law w) as [V N]. pose proof (time_law w) as Tl. destruct (hal_timerGet w) as [t w1]. cbn [fst snd] in *.
  assert (K1 : wok w1 p m) by (destruct K as (R & Q); unfold wok; by rewrite (stopped _ _ (proj1 (proj2 (proj2 R))) Tl)).
  assert (res * t <= now w1) by (subst t; apply Z.mul_div_le; lia). pose proof (enough T L).
  assert (exists k, fuel = Datatypes.S k) as [k Ek] by (exists (fuel - 1)%nat; pose proof (depth_pos (W := W)); lia).
  pose proof (wip_loop_spec k (t + T) d w1 p m D K1 ltac:(lia)) as Sp. rewrite <- Ek in Sp.
  destruct Sp as (r & d' & w' & -> & N' & K' & O). exists r, d', w'. split; [done|]. split; [lia|done].
Qed.

Definition blank (n : Z) : list Z := replicate (Z.to_nat n) 0xff.

Lemma erase_spec base sz d w m :
  dok d -> wok w PReady m -> zlen m = total -> sz = 0x1000 \/ sz = 0x10000 -> 0 <= base -> base mod sz = 0 -> base + sz <= total ->
  comes_to (flashdrv_sectorErase fuel base sz d w) d w (fun _ _ w' => wok w' PReady (splice base (blank sz) m)).
Proof.
  intros D K Lm Sz B0 Bm Bt. unfold flashdrv_sectorErase. rewrite (d_info d D). destruct OK as [[-> _] _ _ _ _ _ Er].
  destruct (Z.ltb_spec total base); [lia|]. assert (Ec : exists cmd, erase_cmd sz i = Some cmd) by (unfold erase_cmd; destruct Sz as [-> | ->]; by eexists).
  destruct Ec as [cmd Ec]. rewrite Ec. destruct (Er _ _ Ec) as [Cs Cb]. pose proof asz_range.
  eapply comes_to_bind; [by apply enable_spec|]. intros _ d1 w1 _ K1 N1 (R & Fr & Ph & Me).
  destruct (serialize_spec cmd base d1 (proj1 K1) Cs Cb) as (d2 & -> & K2 & _ & T). cbn [mbind option_bind]. rewrite Cs.
  apply (comes_to_kept _ d1 d2); [done|]. eapply comes_to_bind; [apply cmd_transaction_spec; [apply K2|done|lia]|].
  intros r d3 w3 _ K3 N3 (_ & _ & R3 & s1 & X & E). rewrite T in X. rewrite <- Me in Lm.
  destruct (erase_law _ _ _ _ _ _ Fr Ph Ec B0 Bm ltac:(lia) X) as [A1 A2]. rewrite Me in A2.
  apply (wip_spec _ d3 w3 (PBusy (splice base (blank sz) m)) (mem (slv (st w3)))); [apply K3| |exact LIM_E].
  unfold wok. rewrite E. done.
Qed.

(** A transaction of two transfers. *)
Lemma second_transfer t n timeout w w1 mosi out1 :
  ready (st w1) -> selected (st w1) -> tx_ok t n -> 0 <= n -> timeout <= limit -> xchgs mosi (slv (st w)) out1 (slv (st w1)) ->
  exists r out w2 w3, qspi_polledTransfer fuel t n timeout w1 = Some (r, out, w2) /\ qspi_stop fuel w2 = Some w3 /\ now w1 <= now w3 /\ zlen out <= n /\ Forall is_byte out /\
    ((r = n /\ transacted (mosi ++ sends t n) w (out1 ++ out) w3) \/ r = - ETIME).
Proof.
  intros R Sel T N L X. destruct (polled_spec fuel t n timeout w1 R Sel T N F1 (enough _ L)) as (r & out & w2 & -> & N2 & L2 & O).
  destruct (qspi_stop_spec fuel w2) as (w3 & E & N3 & St); [lia|]. exists r, out, w2, w3. split; [done|]. split; [done|]. split; [lia|].
  destruct O as [(-> & X2 & R2 & Sel2)|(-> & _ & Lo & s' & X2)].
  - split; [apply xchgs_length in X2; pose proof (sends_length t n T N); lia|]. split; [by eapply xchgs_bytes|]. left. split; [done|]. eapply (stop_done w w2); [done..|by eapply xchgs_app|done].
  - split; [done|]. split; [by eapply xchgs_bytes|by right].
Qed.

Lemma program_spec a data d w m :
  dok d -> wok w PReady m -> zlen m = total -> Forall is_byte data -> zlen data = pg -> 0 <= a -> a mod pg = 0 -> a + pg <= total ->
  comes_to (flashdrv_pageProgram fuel a data d w) d w (fun r _ w' => r = pg /\ wok w' PReady (splice a (zip_with Z.land (zslice a pg m) data) m)).
Proof.
  intros D K Lm Db Ld A0 Am At. unfold flashdrv_pageProgram. rewrite (d_info d D), Ld. destruct OK as [_ [Pg Pp] _ _ [Cs Cb] _ _]. rewrite Pg, Z.mod_same by lia.
  destruct (Z.eqb_spec pg 0); [lia|]. cbn [Z.eqb negb]. pose proof asz_range. set (cmd := cmd_of i (ppCmd i)) in *.
  eapply comes_to_bind; [by apply enable_spec|]. intros _ d1 w1 _ K1 N1 (R & Fr & Ph & Me).
  destruct (serialize_spec cmd a d1 (proj1 K1) Cs Cb) as (d2 & -> & K2 & _ & T). cbn [mbind option_bind]. rewrite Cs.
  apply (comes_to_kept _ d1 d2); [done|]. destruct (qspi_start_spec w1 R) as (R1 & Sel1 & S1 & Ns). set (ws := qspi_start w1) in *.
  destruct (cmd_transfer_spec asz d2 ws (proj1 K2) R1 Sel1 ltac:(lia)) as (r & d3 & w3 & -> & N3 & K3 & Tx & L3 & O). cbn [mbind option_bind].
  destruct O as [(-> & R3 & Sel3 & X)| ->].
  2:{ cbn. destruct (qspi_stop_spec fuel w3) as (w4 & -> & N4 & _); [lia|]. exists (- ETIME), d3, w4. split; [done|]. split; [lia|]. split; [done|]. by left. }
  destruct (Z.ltb_spec asz 0); [lia|]. rewrite S1 in X.
  destruct (second_transfer (Some data) pg TIMEOUT_CMD_MS w1 w3 _ _ R3 Sel3 ltac:(split; [lia|done]) ltac:(lia) ltac:(unfold TIMEOUT_CMD_MS; lia) X) as (r & out & w4 & w5 & -> & E5 & N5 & Lo & _ & O).
  cbn [mbind option_bind]. rewrite E5. cbn [mbind option_bind]. destruct O as [(-> & R5 & s1 & X5 & E)| ->].
  2:{ cbn. exists (- ETIME), d3, w5. split; [done|]. split; [lia|]. split; [done|]. by left. }
  destruct (Z.ltb_spec pg 0); [lia|]. cbn [sends] in X5. rewrite T, take_ge in X5 by lia. cbn [app] in X5. rewrite <- Me in Lm.
  destruct (program_law _ _ _ _ _ Fr Ph Db ltac:(by rewrite Pg, Ld) A0 ltac:(by rewrite Ld) ltac:(lia) X5) as [A1 A2]. rewrite Ld, Me in A2.
  apply (comes_to_kept _ d2 d3); [done|]. set (m' := splice a _ m) in *.
  assert (Kb : wok w5 (PBusy m') (mem (slv (st w5)))) by (unfold wok; rewrite E; split; [done|]; split; [done|]; by split).
  destruct (wip_spec _ d3 w5 (PBusy m') (mem (slv (st w5))) (proj1 K3) Kb LIM_P) as (r & d6 & w6 & -> & N6 & K6 & O). cbn [mbind option_bind].
  destruct (Z.ltb_spec r 0) as [Ln|Ln]; [exists r, d6, w6|exists pg, d6, w6]; (split; [done|]); (split; [lia|]); (split; [done|]); [by left|right].
  split; [lia|]. split; [done|]. destruct O as [|[_ O]]; [lia|exact O].
Qed.

Lemma pad4 x : Z.ldiff (x + 3) 3 = (x + 3) / 4 * 4.
Proof. change 3 with (Z.ones 2) at 2. rewrite Z.ldiff_ones_r, Z.shiftl_mul_pow2, Z.shiftr_div_pow2 by done. done. Qed.

(** The bytes behind the command, in the answers of both transfers. *)
Lemma answers_tail (xs out : list Z) o pad k n :
  0 <= o -> pad <= zlen xs -> 0 <= k <= n -> o + k <= pad -> (k < n -> o + k = pad) -> zlen out = n - k ->
  zslice o k xs ++ out = zslice o n (ztake pad xs ++ out).
Proof.
  intros O P K Ok Kn L. replace n with (k + (n - k)) by lia. rewrite zslice_app by lia. f_equal.
  - unfold zslice. rewrite drop_app_le by (rewrite length_take; lia). rewrite take_app_le by (rewrite length_drop, length_take; lia).
    rewrite skipn_firstn_comm, take_take. f_equal. lia.
  - destruct (Z.eq_dec k n) as [-> |Ne]; [rewrite Z.sub_diag in *; rewrite zslice_nil; by apply length_zero_iff_nil; lia|].
    unfold zslice. rewrite drop_app_length' by (rewrite length_take; lia). by rewrite take_ge by lia.
Qed.

(** The command to read, the dummies behind it, and bytes to align it. *)
Lemma read_cmd_spec a d :
  let cmd := cmd_of i (readCmd i) in
  dok d ->
  exists d1 b, flashdrv_serializeTxCmd cmd a d = Some d1 /\ mstore (cmdTx d1) (asz + dm) (replicate (Z.to_nat dm) 0xff) = Some b /\
    kept d (set_cmdTx b d1) /\ zlen b = 32 /\ ztake (asz + dm) b = opCode cmd :: addr_bytes (addrMode i) a ++ zeros dm.
Proof.
  intros cmd D. pose proof OK as [_ _ _ (Cs & Dm & Dr & Cb) _ _ _]. fold cmd in Cs, Cb. pose proof asz_range.
  destruct (serialize_spec cmd a d D Cs Cb) as (d1 & -> & K1 & _ & T1). pose proof K1 as ([I1 [Tx1 Tb1] Rx1 Bf1 Dz1] & _).
  assert (Lf : zlen (replicate (Z.to_nat dm) 0xff) = dm) by (rewrite length_replicate; lia).
  set (b := splice (asz + dm) (replicate (Z.to_nat dm) 0xff) (cmdTx d1)). exists d1, b. split; [done|]. split; [apply mstore_ok; lia|].
  assert (Lb : zlen b = 32) by (unfold b; rewrite length_splice; lia). split; [|split; [done|]].
  - apply (bytes_kept_trans d d1); [done|]. apply set_cmdTx_ok; [apply K1|done|apply Forall_splice; [done|by apply Forall_replicate]|]. unfold b. rewrite zslice_splice_before by lia. done.
  - unfold b. rewrite <- zslice_0, zslice_splice_before, (zslice_app 0 asz dm) by lia. by rewrite Z.add_0_l, zslice_0, T1, Dz1.
Qed.

Lemma read_spec a n timeout d w m :
  dok d -> wok w PReady m -> zlen m = total -> 0 <= a -> 0 < n -> a + n <= total -> timeout <= limit ->
  exists r bs d' w', flashdrv_read fuel a n timeout d w = Some (r, bs, d', w') /\ now w <= now w' /\ kept d d' /\ zlen bs <= n /\ Forall is_byte bs /\
    (r < 0 \/ (r = n /\ bs = zslice a n m /\ wok w' PReady m)).
Proof.
  intros D (R & Fr & Ph & Me) Lm A0 N At L. unfold flashdrv_read. rewrite (d_info d D). destruct (Z.eqb_spec n 0); [lia|].
  pose proof (read_law (S := S) (i := i)) as RL. cbv zeta in RL. destruct (read_cmd_spec a d D) as (d1 & b & -> & Eb & K2 & Lb & Tb). cbn [mbind option_bind].
  pose proof OK as [_ _ _ (Cs & Dm & Dr & Cb) _ _ _]. rewrite Cs, Dm in RL. set (cmd := cmd_of i (readCmd i)) in *. rewrite Cs, Dm, Eb. cbn [mbind option_bind].
  pose proof asz_range. rewrite pad4. set (pad := (asz + dm + 3) / 4 * 4).
  assert (P : asz + dm <= pad <= asz + dm + 3 /\ pad <= 16) by (unfold pad; modlia).
  set (d2 := set_cmdTx b d1) in *. set (dataSz := if n <? pad - (asz + dm) then n else pad - (asz + dm)).
  assert (Ds : 0 <= dataSz <= pad - (asz + dm) /\ dataSz <= n /\ (dataSz < n -> dataSz = pad - (asz + dm))) by (unfold dataSz; destruct (Z.ltb_spec n (pad - (asz + dm))); lia).
  clearbody dataSz. destruct (qspi_start_spec w R) as (R1 & Sel1 & S1 & Ns). set (ws := qspi_start w) in *.
  destruct (cmd_transfer_spec pad d2 ws (proj1 K2) R1 Sel1 ltac:(lia)) as (r & d3 & w3 & -> & N3 & K3 & Tx & L3 & O). cbn [mbind option_bind].
  destruct O as [(-> & R3 & Sel3 & X)| ->].
  2:{ cbn. destruct (qspi_stop_spec fuel w3) as (w4 & -> & N4 & _); [lia|]. exists (- ETIME), [], d3, w4. split; [done|]. split; [lia|]. split; [by eapply bytes_kept_trans|].
      split; [cbn; lia|]. split; [done|by left]. }
  destruct (Z.ltb_spec pad 0); [lia|]. rewrite S1 in X. destruct (d_rx d3 (proj1 K3)) as [Lr Rb]. rewrite mbytes_ok by lia. cbn [mbind option_bind].
  destruct (second_transfer None (n - dataSz) timeout w w3 _ _ R3 Sel3 I ltac:(lia) L X) as (r & out & w4 & w5 & -> & E5 & N5 & Lo & Ob & O).
  cbn [mbind option_bind]. rewrite E5. cbn [mbind option_bind]. eexists _, _, d3, w5. split; [done|]. split; [lia|]. split; [by eapply bytes_kept_trans|].
  split; [rewrite length_app, Nat2Z.inj_add, length_zslice by lia; lia|]. split; [apply Forall_app; split; [by apply Forall_zslice|done]|].
  destruct O as [(-> & R5 & s1 & X5 & E)| ->]; [right|by left]. destruct (Z.ltb_spec (n - dataSz) 0); [lia|]. split; [lia|].
  set (zs := zslice (asz + dm) (pad - (asz + dm)) b ++ zeros (n - dataSz)).
  assert (Q : ztake pad (cmdTx d2) ++ sends None (n - dataSz) = opCode cmd :: addr_bytes (addrMode i) a ++ zeros dm ++ zs).
  { change (cmdTx d2) with b. replace pad with (asz + dm + (pad - (asz + dm))) by lia. rewrite <- zslice_0, zslice_app, zslice_0, Tb by lia. cbn [app]. unfold zs, zeros.
    rewrite <- !app_assoc. cbn [sends]. rewrite Z.add_0_l. repeat f_equal; lia. }
  pose proof (xchgs_length _ _ _ _ X5) as Lx. rewrite !length_app, !length_take in Lx. cbn [sends] in Lx. rewrite length_replicate in Lx. change (cmdTx d2) with b in Lx.
  rewrite Q in X5. rewrite <- Me in Lm. destruct (RL _ _ _ _ _ Fr Ph A0 ltac:(lia) X5) as (A1 & A2 & A3 & A4).
  assert (Lz : n <= zlen zs) by (unfold zs; rewrite length_app, Nat2Z.inj_add, length_zslice, zlen_zeros by lia; lia).
  rewrite Me in A3, A4, Lm. specialize (A4 n ltac:(lia) ltac:(lia)). split; [|unfold wok; rewrite E; split; [done|]; split; [done|]; by split].
  rewrite <- A4. apply answers_tail; lia.
Qed.

(** *** The buffer *)

(** Sector [sz] bytes from [base] on, by the numbers the driver keeps. *)
Definition pending d (base sz : Z) : Prop :=
  exists rs, located (cfi i) total pg base (regID d) rs sz /\ 0 <= sectID d /\ base = rs + sectID d * sz /\ base mod sz = 0 /\ base + sz <= total.

(** The sector is erased in the chip, which holds [m], and will be what the buffer has; [v] is the flash then. *)
Definition loaded d (base sz : Z) (m v : list Z) : Prop :=
  pending d base sz /\ zslice base sz m = blank sz /\ v = splice base (ztake sz (fbuff d)) m.

Definition nothing d : Prop := buffPos d = 0 /\ regID d = no_id /\ sectID d = no_id.

(** Between the operations. *)
Definition consistent d (m v : list Z) : Prop :=
  dok d /\ zlen m = total /\ (nothing d /\ v = m \/ exists base sz, 0 < buffPos d < sz /\ loaded d base sz m v).

(** Like [comes_to], where the buffer may change. *)
Definition ends (x : option (Z * fdrv_t * W)) w (P : Z -> fdrv_t -> W -> Prop) : Prop :=
  exists r d' w', x = Some (r, d', w') /\ now w <= now w' /\ dok d' /\ (r < 0 \/ (0 <= r /\ P r d' w')).

Lemma ends_bind x w P (f : Z -> fdrv_t -> W -> option (Z * fdrv_t * W)) Q :
  ends x w P -> (forall r d' w', 0 <= r -> dok d' -> now w <= now w' -> P r d' w' -> ends (f r d' w') w' Q) ->
  ends ('(r, d, w) ← x; if r <? 0 then Some (r, d, w) else f r d w) w Q.
Proof.
  intros (r & d' & w' & -> & N & K & O) F. cbn [mbind option_bind]. destruct (Z.ltb_spec r 0) as [L|L].
  - exists r, d', w'. split; [done|]. split; [done|]. split; [done|]. by left.
  - destruct O as [|[_ O]]; [lia|]. destruct (F r d' w' L K N O) as (r2 & d2 & w2 & -> & N2 & K2 & O2). exists r2, d2, w2. split; [done|]. split; [lia|done].
Qed.

Lemma comes_to_ends x d w P Q : comes_to x d w P -> (forall r d' w', kept d d' -> P r d' w' -> Q r d' w') -> ends x w Q.
Proof. intros (r & d' & w' & E & N & K & O) F. exists r, d', w'. split; [done|]. split; [done|]. split; [apply K|]. destruct O as [|[L O]]; [by left|right; auto]. Qed.

Lemma ends_now r d w P : 0 <= r -> dok d -> P r d w -> ends (Some (r, d, w)) w P.
Proof. intros L D X. exists r, d, w. split; [done|]. split; [lia|]. split; [done|]. by right. Qed.

Lemma program_blank n data : zlen data = n -> Forall is_byte data -> zip_with Z.land (blank n) data = data.
Proof.
  intros <- F. unfold blank. rewrite Nat2Z.id. induction F as [|x l X _ IH]; [done|]. cbn [length replicate zip_with]. rewrite IH. f_equal.
  rewrite Z.land_comm, land_ff. unfold is_byte in X. by apply Z.mod_small.
Qed.

Lemma zsync_pages_spec k j base sz d w m :
  dok d -> zlen m = total -> 0 <= base -> base mod pg = 0 -> base + sz <= total -> 0 <= sz <= BUFFER_SIZE -> zslice base sz m = blank sz ->
  0 <= j -> (j + Z.of_nat k) * pg <= sz -> wok w PReady (splice base (ztake (j * pg) (fbuff d)) m) ->
  comes_to (zsync_pages fuel k j base pg d w) d w (fun _ _ w' => wok w' PReady (splice base (ztake ((j + Z.of_nat k) * pg) (fbuff d)) m)).
Proof.
  intros D Lm B0 Bm Bt Sz Er. revert j d w D. induction k as [|k IH]; intros j d w D J Jk K; cbn [zsync_pages].
  - exists EOK, d, w. split; [done|]. split; [lia|]. split; [by apply kept_refl|]. right. split; [done|]. by rewrite Z.add_0_r.
  - destruct OK as [[_ Tt] [_ Pp] _ _ _ _ _]. destruct (d_buff d D) as [Lb Bb]. unfold BUFFER_SIZE in *.
    assert (Jp : 0 <= j * pg /\ j * pg + pg <= sz) by nia. rewrite (w32_small (j * pg)), (w32_small (base + j * pg)) by lia.
    rewrite mbytes_ok by lia. cbn [mbind option_bind]. set (page := zslice (j * pg) pg (fbuff d)) in *. set (x := ztake (j * pg) (fbuff d)) in *.
    assert (Lx : zlen x = j * pg) by (unfold x; rewrite length_take; lia). assert (Lp : zlen page = pg) by (unfold page; by rewrite length_zslice by lia).
    assert (Es : zip_with Z.land (zslice (base + j * pg) pg (splice base x m)) page = page).
    { rewrite zslice_splice_after by lia. rewrite <- (zslice_zslice (j * pg) pg base sz), Er by lia.
      unfold blank, zslice. rewrite drop_replicate, take_replicate. replace (_ `min` _)%nat with (Z.to_nat pg) by lia. apply program_blank; [done|]. by apply Forall_zslice. }
    assert (Ep : splice (base + j * pg) page (splice base x m) = splice base (ztake ((j + 1) * pg) (fbuff d)) m).
    { rewrite <- Lx at 1. rewrite splice_app by lia. f_equal. unfold x, page. rewrite <- !zslice_0. replace ((j + 1) * pg) with (j * pg + pg) by lia. by rewrite zslice_app by lia. }
    eapply comes_to_bind; [apply (program_spec (base + j * pg) page d w); [done|exact K|rewrite length_splice; lia|by apply Forall_zslice|done|lia| |lia]|].
    { rewrite Z_mod_plus_full. done. }
    intros r d1 w1 _ K1 N1 [_ O]. rewrite Es, Ep in O. destruct K1 as (D1 & Bf & K1). rewrite <- Bf in O.
    eapply comes_to_weaken; [apply (IH (j + 1) d1 w1 D1); [lia|lia|exact O]|]. cbv beta. intros _ d2 w2 _ _ O2. rewrite Bf in O2. by replace (j + Z.of_nat (Datatypes.S k)) with (j + 1 + Z.of_nat k) by lia.
Qed.

Lemma regStart_spec d id rs sz offs :
  dok d -> located (cfi i) total pg offs id rs sz ->
  flashdrv_regStart id d = Some rs /\ exists s, reg_size id (cfi (info d)) = Some s /\ CFI_SIZE_SECTION s = sz.
Proof.
  intros D (I & R & Z & _). unfold flashdrv_regStart. rewrite (d_info d D), s32_small by lia. split; [done|].
  destruct (reg_size id (cfi i)) as [s|]; [|done]. exists s. by injection Z.
Qed.

Lemma pending_sizes d base sz : pending d base sz -> (sz = 0x1000 \/ sz = 0x10000) /\ 0 <= base /\ base mod sz = 0 /\ base + sz <= total /\ sz mod pg = 0 /\ base mod pg = 0.
Proof.
  intros (rs & (_ & _ & _ & S1 & Sp & R0 & _) & _ & -> & M & T). destruct OK as [_ [_ Pp] _ _ _ _ _]. split; [done|]. split; [lia|]. split; [done|]. split; [done|]. split; [done|].
  apply Z.mod_divide; [lia|]. apply (Z.divide_trans _ sz); apply Z.mod_divide; (done || lia).
Qed.

(** The view, from what the driver keeps. *)
Lemma sector_of_pending d base sz : dok d -> buffPos d <> 0 -> pending d base sz -> sector_of d = Some (base, sz).
Proof.
  intros D P (rs & Lo & _ & -> & _). unfold sector_of. destruct (Z.eqb_spec (buffPos d) 0); [done|].
  destruct (regStart_spec d _ _ _ _ D Lo) as (-> & s & -> & E). cbn [mbind option_bind]. by rewrite E.
Qed.

Lemma consistent_view d m v : consistent d m v -> v = zflash_view d m.
Proof.
  intros (D & _ & [[(P & _) ->]|(base & sz & P & Pe & _ & ->)]); unfold zflash_view.
  - unfold sector_of. by rewrite P.
  - rewrite (sector_of_pending d base sz) by (done || lia). done.
Qed.

Lemma sync_spec d w base sz m v :
  dok d -> zlen m = total -> buffPos d <> 0 -> loaded d base sz m v -> wok w PReady m ->
  ends (flashdrv_sync fuel d w) w (fun r d' w' => r = EOK /\ nothing d' /\ fbuff d' = fbuff d /\ wok w' PReady v).
Proof.
  intros D Lm P (Pe & Er & ->) K. pose proof (pending_sizes _ _ _ Pe) as (Sz & B0 & Bm & Bt & Sp & Bp). destruct Pe as (rs & Lo & S0 & Eb & _ & _).
  unfold flashdrv_sync. destruct (Z.eqb_spec (buffPos d) 0); [done|]. destruct (regStart_spec d _ _ _ _ D Lo) as (-> & s & -> & Es). cbn [mbind option_bind]. rewrite Es, (d_info d D), <- Eb.
  pose proof OK as [[_ Tt] [-> Pp] _ _ _ _ _]. rewrite w32_small by lia.
  assert (Pn : sz / pg * pg = sz) by (pose proof (Z.div_mod sz pg ltac:(lia)); lia). assert (Q : 0 <= sz / pg) by (apply Z.div_pos; lia).
  eapply ends_bind.
  - eapply comes_to_ends; [apply (zsync_pages_spec (Z.to_nat (sz / pg)) 0 base sz d w m); try done; try (unfold BUFFER_SIZE; lia)|].
    + rewrite Z.mul_0_l, take_0, splice_nil. exact K.
    + intros r d' w' K' O. exact (conj K' O).
  - intros r d' w' _ D' _ [K' O]. rewrite Z.add_0_l, Z2Nat.id, Pn in O by lia. apply ends_now; [done| |].
    + destruct D'. by split.
    + split; [done|]. split; [by repeat split|]. split; [apply K'|done].
Qed.

Lemma consistent_length d m v : consistent d m v -> zlen v = total.
Proof.
  intros (D & Lm & [[_ ->]|(base & sz & P & Pe & _ & ->)]); [done|]. pose proof (pending_sizes _ _ _ Pe) as (Sz & B0 & _ & Bt & _).
  destruct (d_buff d D) as [Lb _]. unfold BUFFER_SIZE in Lb. rewrite length_splice; rewrite ?length_take; lia.
Qed.

Lemma sync_any d w m v :
  consistent d m v -> wok w PReady m -> ends (flashdrv_sync fuel d w) w (fun r d' w' => r = EOK /\ nothing d' /\ fbuff d' = fbuff d /\ wok w' PReady v).
Proof.
  intros (D & Lm & [[N ->]|(base & sz & P & L)]) K.
  - unfold flashdrv_sync. rewrite (proj1 N). by apply ends_now.
  - apply (sync_spec d w base sz m v); try done. lia.
Qed.

(** A write goes on where the last one ended when it meets the sector of the buffer. *)
Definition contiguous d (offs : Z) : Prop := forall base sz, sector_of d = Some (base, sz) -> base <= offs < base + sz -> offs = base + buffPos d.

Definition placed d (offs id rs sz : Z) (m v : list Z) : Prop :=
  let sect := (offs - rs) / sz in let base := rs + sect * sz in
  zlen m = total /\ loaded d base sz m v /\ regID d = id /\ sectID d = sect /\ buffPos d = offs - base.

Lemma located_base offs id rs sz :
  0 <= offs < total -> located (cfi i) total pg offs id rs sz ->
  let sect := (offs - rs) / sz in let base := rs + sect * sz in
  located (cfi i) total pg base id rs sz /\ 0 <= sect /\ base mod sz = 0 /\ base + sz <= total /\ base <= offs < base + sz.
Proof.
  intros O (I & R & Z & S1 & Sp & R0 & Rm & T). cbv zeta. set (sect := (offs - rs) / sz) in *.
  assert (Sp0 : 0 < sz) by lia. assert (S0 : 0 <= sect) by (apply Z.div_pos; lia).
  assert (Bs : rs + sect * sz <= offs < rs + sect * sz + sz).
  { pose proof (Z.div_mod (offs - rs) sz ltac:(lia)) as Dm. pose proof (Z.mod_pos_bound (offs - rs) sz Sp0) as Mb. fold sect in Dm. clear - Dm Mb.
    generalize dependent ((offs - rs) mod sz). intros. clearbody sect. lia. }
  assert (Q : (rs + sect * sz - rs) / sz = sect) by (replace (rs + sect * sz - rs) with (sect * sz) by lia; apply Z.div_mul; lia).
  assert (R0' : 0 <= rs <= rs + sect * sz) by (pose proof (Z.mul_nonneg_nonneg sect sz S0 ltac:(lia)) as M; clear - M R0; generalize dependent (sect * sz); intros; lia).
  split; [|split; [done|split; [by rewrite Z_mod_plus_full|split; [done|done]]]]. repeat (split; [done|]). by rewrite Q.
Qed.

(** The sector is there already: the driver goes on behind what it stored. *)
Lemma same_sector_spec d offs id rs sz m v :
  consistent d m v -> contiguous d offs -> 0 <= offs < total -> located (cfi i) total pg offs id rs sz ->
  regID d = id -> sectID d = (offs - rs) / sz -> placed d offs id rs sz m v.
Proof.
  intros (D & Lm & Cs) Co O Lo Ei Es. destruct (located_base offs id rs sz O Lo) as (Lb & S0 & Bm & Bt & Bo).
  destruct Cs as [[(_ & Ni & _) _]|(base & sz' & P & Pe & Er & Ev)]; [pose proof Lo as (I & _); rewrite Ei in Ni; change no_id with 4294967295 in Ni; lia|].
  pose proof Pe as (rs' & Lo' & _ & Eb & _). rewrite Ei in Lo'. assert (rs' = rs /\ sz' = sz) as [-> ->].
  { destruct Lo as (_ & R1 & Z1 & _), Lo' as (_ & R2 & Z2 & _). split; congruence. }
  rewrite Es in Eb. assert (Sec : sector_of d = Some (base, sz)) by (apply sector_of_pending; [done|lia|done]).
  pose proof (Co _ _ Sec ltac:(lia)). split; [done|]. rewrite <- Eb. split; [by split|]. split; [done|]. split; [done|lia].
Qed.

Lemma load_timeout sz : sz = 0x1000 \/ sz = 0x10000 -> w32 (sz * TIMEOUT_CMD_MS) / 0x100 <= limit.
Proof. intros Z. enough (w32 (sz * TIMEOUT_CMD_MS) / 0x100 <= 1280) by lia. by destruct Z as [-> | ->]. Qed.

(** What is read and erased is in the buffer. *)
Lemma reloaded d base sz bs v :
  dok d -> zlen v = total -> 0 <= base -> base + sz <= total -> 0 <= sz <= BUFFER_SIZE -> bs = zslice base sz v ->
  let m := splice base (blank sz) v in
  zlen m = total /\ zslice base sz m = blank sz /\ v = splice base (ztake sz (splice 0 bs (fbuff d))) m.
Proof.
  intros D Lv B0 Bt Sz ->. cbv zeta. destruct (d_buff d D) as [Lb _]. assert (Ln : zlen (blank sz) = sz) by (unfold blank; rewrite length_replicate; lia).
  assert (Ls : zlen (zslice base sz v) = sz) by (apply length_zslice; lia). split; [rewrite length_splice; lia|]. split; [by rewrite zslice_splice_same by lia|].
  rewrite <- (zslice_0 sz), zslice_splice_same by lia. rewrite splice_splice_same by lia. by rewrite splice_zslice by lia.
Qed.

Lemma reload_sector_spec d w offs id rs sz m v :
  consistent d m v -> wok w PReady m -> 0 <= offs < total -> located (cfi i) total pg offs id rs sz ->
  ends (reload_sector fuel offs id ((offs - rs) / sz) rs sz d w) w (fun _ d' w' => exists m', wok w' PReady m' /\ placed d' offs id rs sz m' v).
Proof.
  intros C K O Lo. pose proof (consistent_length _ _ _ C) as Lv. destruct (located_base offs id rs sz O Lo) as (Lb & S0 & Bm & Bt & Bo). unfold reload_sector, placed.
  pose proof Lo as (I & _ & _ & Sz & Sp & R0 & _). set (sect := (offs - rs) / sz) in *. pose proof OK as [[_ Tt] _ _ _ _ _ _].
  assert (B0 : 0 <= rs + sect * sz) by (pose proof (Z.mul_nonneg_nonneg sect sz); lia). set (base := rs + sect * sz) in *.
  eapply ends_bind; [by apply (sync_any d w m v)|]. intros _ d1 w1 _ D1 N1 (_ & Nt & Fb & K1).
  replace (rs + sz * sect) with base by (unfold base; lia). rewrite (w32_small base) by lia.
  destruct (read_spec base sz (w32 (sz * TIMEOUT_CMD_MS) / 0x100) d1 w1 v D1 K1 Lv) as (r & bs & d2 & w2 & -> & N2 & K2 & Lbs & Bb & R); [lia|lia|lia|by apply load_timeout|]. cbn [mbind option_bind].
  pose proof K2 as (D2 & Fb2 & P2 & R2 & S2). destruct (d_buff d2 D2) as [L2 B2]. unfold BUFFER_SIZE in L2. rewrite mstore_ok by lia. cbn [mbind option_bind].
  assert (D3 : dok (set_fbuff (splice 0 bs (fbuff d2)) d2)) by (destruct D2; split; try done; split; [cbn [set_fbuff fbuff]; rewrite length_splice; lia|by apply Forall_splice]).
  destruct R as [Ln|(-> & Eb & K3)]; [destruct (Z.ltb_spec r 0); [|lia]; eexists _, _, _; split; [done|]; split; [done|]; split; [done|by left]|]. destruct (Z.ltb_spec sz 0); [lia|].
  set (d3 := set_fbuff _ d2) in *. pose proof (erase_spec base sz d3 w2 v D3 K3 Lv Sz B0 Bm Bt) as Es.
  destruct Es as (r & d4 & w4 & -> & N4 & K4 & R). cbn [mbind option_bind]. destruct (Z.ltb_spec r 0); [eexists _, _, _; split; [done|]; split; [lia|]; split; [apply K4|by left]|].
  destruct R as [|[_ K5]]; [lia|]. pose proof K4 as (D4 & Fb4 & _). eexists _, _, _. split; [done|]. split; [lia|].
  destruct (reloaded d2 base sz bs v D2 Lv B0 Bt ltac:(unfold BUFFER_SIZE; lia) Eb) as (M1 & M2 & M3).
  split; [destruct D4; by split|]. right. split; [done|]. eexists. split; [exact K5|]. cbn [set_sector regID sectID buffPos]. split; [done|].
  assert (Po : w32 (offs - rs - sect * sz) = offs - base) by (rewrite w32_small; unfold base in *; lia). rewrite Po.
  split; [split; [exists rs; by repeat (split; [done|])|split; [done|]; cbn [set_sector fbuff]; rewrite Fb4; exact M3]|done].
Qed.

Lemma load_sector_spec d w offs id rs sz m v :
  consistent d m v -> contiguous d offs -> wok w PReady m -> 0 <= offs < total -> located (cfi i) total pg offs id rs sz ->
  ends (load_sector fuel offs id ((offs - rs) / sz) rs sz d w) w (fun _ d' w' => exists m', wok w' PReady m' /\ placed d' offs id rs sz m' v).
Proof.
  intros C Co K O Lo. unfold load_sector.
  destruct (Z.eqb_spec id (regID d)) as [Ei|]; [destruct (Z.eqb_spec ((offs - rs) / sz) (sectID d)) as [Es|]|]; cbn [negb orb]; try by apply (reload_sector_spec d w offs id rs sz m).
  apply ends_now; [done|apply C|]. exists m. split; [done|]. by apply same_sector_spec.
Qed.

(** A chunk is stored to the buffer. *)
Definition stored d (c : Z) (xs : list Z) : fdrv_t := set_sector (buffPos d + c) (regID d) (sectID d) (set_fbuff (splice (buffPos d) xs (fbuff d)) d).

Lemma store_spec d offs id rs sz m v xs :
  dok d -> placed d offs id rs sz m v -> 0 <= offs < total -> located (cfi i) total pg offs id rs sz -> Forall is_byte xs -> buffPos d + zlen xs <= sz ->
  let base := rs + (offs - rs) / sz * sz in
  dok (stored d (zlen xs) xs) /\ loaded (stored d (zlen xs) xs) base sz m (splice offs xs v) /\ 0 <= buffPos d.
Proof.
  intros D P O Lo Xb Xl. destruct (located_base offs id rs sz O Lo) as (_ & _ & _ & _ & Bo). cbv zeta in *. unfold placed in P. cbv zeta in P.
  set (base := rs + (offs - rs) / sz * sz) in *. destruct P as (Lm & (Pe & Er & ->) & _ & _ & Bp). pose proof (pending_sizes _ _ _ Pe) as (Sz & B0 & _ & Bt & _).
  destruct (d_buff d D) as [Lb Bb]. unfold BUFFER_SIZE in Lb. split; [|split; [|lia]].
  - destruct D. split; try done. cbn [stored set_sector set_fbuff fbuff]. split; [unfold BUFFER_SIZE; rewrite length_splice; lia|by apply Forall_splice].
  - split; [exact Pe|]. split; [done|]. cbn [stored set_sector set_fbuff fbuff]. assert (Lt : zlen (ztake sz (fbuff d)) = sz) by (rewrite length_take; lia).
    rewrite splice_into by lia. rewrite ztake_splice by lia. by rewrite Bp.
Qed.

Lemma not_pending d offs : nothing d -> contiguous d offs.
Proof. intros (P & _) base sz. unfold sector_of. by rewrite P. Qed.

Lemma zwrite_loop_spec k offs data saveSz d w m v :
  consistent d m v -> contiguous d offs -> wok w PReady m -> Forall is_byte data -> 0 <= saveSz <= zlen data -> 0 <= offs -> offs + (zlen data - saveSz) <= total ->
  zlen data - saveSz <= Z.of_nat k ->
  ends (zwrite_loop fuel k offs data saveSz d w) w
    (fun r d' w' => r = zlen data /\ exists m', wok w' PReady m' /\ consistent d' m' (splice offs (zdrop saveSz data) v)).
Proof.
  revert offs saveSz d w m v. induction k as [|k IH]; intros offs saveSz d w m v C Co K Db Sv O Ot Kb; cbn [zwrite_loop]; destruct (Z.leb_spec (zlen data) saveSz); try lia.
  1,2: apply ends_now; [lia|apply C|]; split; [lia|]; exists m; split; [done|]; rewrite drop_ge by lia; by rewrite splice_nil.
  pose proof OK as [[_ Tt] _ _ _ _ _ _]. destruct (GEO offs ltac:(lia)) as (id & rs & sz & Fi & Lo).
  unfold flashdrv_regionFind. rewrite (d_info d (proj1 C)), Fi. cbn [mbind option_bind].
  destruct (regStart_spec d _ _ _ _ (proj1 C) Lo) as (-> & s & Rs & Es). rewrite (d_info d (proj1 C)) in Rs. rewrite Rs. cbn [mbind option_bind]. rewrite Es.
  eapply ends_bind; [by apply (load_sector_spec d w offs id rs sz m v); auto; lia|]. intros _ d1 w1 _ D1 N1 (m1 & K1 & P).
  pose proof (store_spec d1 offs id rs sz m1 v) as St. destruct (located_base offs id rs sz ltac:(lia) Lo) as (_ & _ & _ & _ & Bo).
  pose proof P as (Lm1 & _ & _ & _ & Bp). cbv zeta in *. set (base := rs + (offs - rs) / sz * sz) in *. rewrite (w32_small (sz - buffPos d1)) by (pose proof Lo as (_ & _ & _ & Sz & _); lia).
  set (c := if _ <? _ then _ else _). assert (Cc : 0 < c /\ c <= zlen data - saveSz /\ buffPos d1 + c <= sz) by (unfold c; destruct (Z.ltb_spec (zlen data - saveSz) (sz - buffPos d1)); lia).
  clearbody c. set (xs := zslice saveSz c data) in *. assert (Lx : zlen xs = c) by (unfold xs; apply length_zslice; lia).
  destruct (d_buff d1 D1) as [L1 _]. unfold BUFFER_SIZE in L1. rewrite mstore_ok by (pose proof Lo as (_ & _ & _ & Sz & _); lia). cbn [mbind option_bind].
  destruct (St xs D1 P ltac:(lia) Lo ltac:(by apply Forall_zslice) ltac:(lia)) as (D2 & L2 & P0). rewrite Lx in D2, L2. fold (stored d1 c xs). set (d2 := stored d1 c xs) in *.
  assert (Ed : zdrop saveSz data = xs ++ zdrop (saveSz + c) data).
  { unfold xs, zslice. rewrite <- (take_drop (Z.to_nat c) (zdrop saveSz data)) at 1. rewrite drop_drop. do 2 f_equal. lia. }
  assert (Ev : splice offs (zdrop saveSz data) v = splice (offs + c) (zdrop (saveSz + c) data) (splice offs xs v)).
  { pose proof (f_equal (@length _) Ed) as Le. rewrite length_app in Le. rewrite Ed, <- splice_app, Lx; [done|lia|]. rewrite (consistent_length _ _ _ C). rewrite length_drop in Le. lia. }
  rewrite Ev, (w32_small (offs + c)) by lia. change (buffPos d2) with (buffPos d1 + c). destruct (Z.ltb_spec (buffPos d1 + c) sz) as [Lt|Ge].
  - assert (C2 : consistent d2 m1 (splice offs xs v)) by (split; [done|]; split; [done|]; right; exists base, sz; split; [cbn; lia|exact L2]).
    apply (IH _ _ d2 w1 m1); try done; try lia. intros base' sz' Sec _. rewrite (sector_of_pending d2 base sz D2 ltac:(cbn; lia) (proj1 L2)) in Sec. injection Sec as <- <-. cbn. lia.
  - eapply ends_bind; [apply (sync_spec d2 w1 base sz m1 (splice offs xs v)); try done; cbn; lia|]. intros _ d3 w3 _ D3 N3 (_ & Nt & _ & K3).
    assert (C3 : consistent d3 (splice offs xs v) (splice offs xs v)).
    { split; [done|]. split; [|by left]. pose proof (consistent_length _ _ _ C). rewrite length_splice; [done|lia|]. lia. }
    apply (IH _ _ d3 w3 (splice offs xs v)); try done; try lia. by apply not_pending.
Qed.

End commands.

(** ** The chips that are known *)

(** A chip of one region that fits it. *)
Lemma geometry_one c total pg s k :
  regsCount c = 1 -> reg_size 0 c = Some s -> reg_count 0 c = Some k ->
  let sz := CFI_SIZE_SECTION s in
  sz = 0x1000 \/ sz = 0x10000 -> 0 < pg -> sz mod pg = 0 -> CFI_SIZE_REGION s k = total -> total mod sz = 0 -> 0 < total < 2 ^ 31 -> geometry c total pg.
Proof.
  intros N S1 K1 sz Sz Pp Sp T Tm Tt offs O. exists 0, 0, sz. rewrite N. change (Z.to_nat 1) with 1%nat. cbn [regionFind_loop].
  rewrite S1, K1. cbn [mbind option_bind]. rewrite T, Z.add_0_l, w32_small by lia.
  destruct (Z.leb_spec 0 offs), (Z.ltb_spec offs total); try lia. split; [done|]. split; [lia|]. split; [done|]. rewrite S1. split; [done|]. split; [done|]. split; [done|]. split; [lia|].
  split; [done|]. rewrite Z.sub_0_r. assert (Sp0 : 0 < sz) by lia. pose proof (Z.div_mod total sz ltac:(lia)) as E. rewrite Tm in E.
  assert (offs / sz < total / sz) by (apply Z.div_lt_upper_bound; lia). nia.
Qed.

(** The description that is filled in for the chips other than Spansion's. *)
Lemma filled_fields typ mx chip fdi count c :
  zlen c = sizeof_cfi -> zlen typ = 4 -> zlen mx = 4 -> 0 <= count < 2 ^ 16 ->
  let c' := cfi_fill typ mx chip fdi count c in
  chipSize c' = chip /\ pageSize c' = 8 /\ regsCount c' = 1 /\ reg_count 0 c' = Some count /\ reg_size 0 c' = Some 0x100.
Proof.
  intros L T M K c'. unfold sizeof_cfi in L.
  do 61 (destruct c as [|? c]; [cbn in L; lia|]). destruct c; [|cbn in L; lia]. clear L.
  do 4 (destruct typ as [|? typ]; [cbn in T; lia|]). destruct typ; [|cbn in T; lia].
  do 4 (destruct mx as [|? mx]; [cbn in M; lia|]). destruct mx; [|cbn in M; lia].
  split; [reflexivity|]. split; [reflexivity|]. split; [reflexivity|]. split; [|reflexivity].
  assert (E : zslice 0x2d 2 c' = le_bytes 2 count) by reflexivity. change (reg_count 0 c') with (Some (le_val (zslice 0x2d 2 c'))). rewrite E, le_val_bytes. by rewrite Z.mod_small by (change (256 ^ _) with (2 ^ 16); lia).
Qed.

Lemma filled_ok i typ mx chip fdi count c asz dm :
  cfi i = cfi_fill typ mx chip fdi count c -> zlen c = sizeof_cfi -> zlen typ = 4 -> zlen mx = 4 -> 0 <= count < 2 ^ 16 ->
  (chip, count) ∈ [(0x18, 0xff); (0x1a, 0x3ff); (0x1c, 0xfff)] -> asz = 1 + zlen (addr_bytes (addrMode i) 0) ->
  (let cmd := cmd_of i (readCmd i) in cmd_size cmd = asz /\ dummyCyc cmd * dataLines cmd / 8 = dm /\ 0 <= dm <= 8 /\ is_byte (opCode cmd)) ->
  (let cmd := cmd_of i (ppCmd i) in cmd_size cmd = asz /\ is_byte (opCode cmd)) ->
  (forall c, In c [flash_cmd_wren; flash_cmd_rdsr1; flash_cmd_be] -> cmd_size (cmd_of i c) = 1 /\ is_byte (opCode (cmd_of i c))) ->
  (forall sz cmd, erase_cmd sz i = Some cmd -> cmd_size cmd = asz /\ is_byte (opCode cmd)) ->
  exists total, chip_ok i total 256 asz dm /\ geometry (cfi i) total 256.
Proof.
  intros Ec L T M K Ch A Rd Pp Sh Er. destruct (filled_fields typ mx chip fdi count c L T M K) as (E1 & E2 & E3 & E4 & E5). rewrite <- Ec in *.
  exists (CFI_SIZE_FLASH chip). assert (Tt : 0 < CFI_SIZE_FLASH chip < 2 ^ 31 /\ CFI_SIZE_REGION 0x100 count = CFI_SIZE_FLASH chip /\ CFI_SIZE_FLASH chip mod 0x10000 = 0).
  { apply list_elem_of_In in Ch. cbn in Ch. repeat destruct Ch as [[= <- <-]|Ch]; done. }
  split; [split; try done; [split; [by rewrite E1|apply Tt]|by rewrite E2]|]. eapply geometry_one; try done; try apply Tt. by right.
Qed.

Ltac known f chip asz dm :=
  assert (Q : chipSize (cfi (f _)) = chip) by (by apply filled_fields);
  rewrite Q; clear Q; exists asz, dm; eapply filled_ok;
    [reflexivity|done|done|done|done|repeat (first [by left | right])|reflexivity|by repeat split|by repeat split
    |intros c Ic; cbn in Ic; by repeat destruct Ic as [<- |Ic]
    |intros sz cmd; unfold erase_cmd; cbn [addrMode set_addrMode Z.ltb Z.compare Pos.compare Pos.compare_cont]; repeat case_match; intros [= <-]; by repeat split].

(** Every chip that is resolved, but for Spansion's, whose description is read from the chip, is as the driver needs it. *)
Lemma chips_ok i i' :
  zlen (cfi i) = sizeof_cfi -> flashcfg_infoResolve i = (EOK, i') -> init i' <> Some spansionInit ->
  exists total asz dm, chip_ok i' total 256 asz dm /\ geometry (cfi i') total 256.
Proof.
  intros L E Ns. enough (exists asz dm total, chip_ok i' total 256 asz dm /\ geometry (cfi i') total 256) as (asz & dm & total & P) by (by exists total, asz, dm).
  unfold flashcfg_infoResolve in E. repeat (destruct (_ && _)); pose proof (f_equal fst E) as Er; apply (f_equal snd) in E; cbn [fst snd] in E, Er; subst i'; try done.
  - known flashcfg_micron128 0x18 4 5.
  - known flashcfg_micron512 0x1a 5 5.
  - known flash_micron2G 0x1c 5 5.
  - known flashcfg_winbond 0x18 4 3.
Qed.


(** ** A chip of two sectors of 4096 bytes that is never busy for long *)

Module nor.
Definition small_cfi : flash_cfi_t := foldl cfi_put (replicate 61 0) [(0x27, [13]); (0x2a, le_bytes 2 8); (0x2c, [1]); (0x2d, le_bytes 2 1); (0x2f, le_bytes 2 0x10)].
Definition small : flash_info_t :=
  mk_info small_cfi (cmds (flashcfg_winbond (mk_info small_cfi [] flash_3byteAddr 0 0 [] None))) flash_3byteAddr flash_cmd_qior flash_cmd_qpp [] None.

(** The bytes received in the transaction, and the state. *)
Record nor := mk_nor { so : list Z; ph : phase_t; me : list Z }.

Definition at3 (l : list Z) : Z := match l with _ :: a :: b :: c :: _ => a * 65536 + b * 256 + c | _ => 0 end.

(** The status is 0, and reads answer behind the address and three dummies. *)
Definition answer (s : nor) : Z :=
  match so s with
  | 0xeb :: _ => if 7 <=? zlen (so s) then nth (Z.to_nat (at3 (so s) + (zlen (so s) - 7))) (me s) 0 mod 256 else 0
  | _ => 0
  end.

Definition done_with (s : nor) : phase_t * list Z :=
  match so s with
  | 0x05 :: _ => settled (ph s) (me s)
  | [0x06] => (match ph s with PReady => PEnabled | p => p end, me s)
  | 0x32 :: _ =>
      let a := at3 (so s) in let data := drop 4 (so s) in
      (match ph s with PEnabled => PBusy (splice a (zip_with Z.land (zslice a (zlen data) (me s)) data) (me s)) | p => p end, me s)
  | 0x20 :: _ => (match ph s with PEnabled => PBusy (splice (at3 (so s)) (replicate (Z.to_nat 0x1000) 0xff) (me s)) | p => p end, me s)
  | 0xd8 :: _ => (match ph s with PEnabled => PBusy (splice (at3 (so s)) (replicate (Z.to_nat 0x10000) 0xff) (me s)) | p => p end, me s)
  | _ => (ph s, me s)
  end.

#[global] Instance bus : Slave nor.
Proof.
  refine {| xchg b s a s' := a = answer s /\ s' = mk_nor (so s ++ [b]) (ph s) (me s); release s := mk_nor [] (done_with s).1 (done_with s).2 |}.
  intros b s a s' [-> _]. unfold answer, is_byte. repeat case_match; (by apply Z.mod_pos_bound) || lia.
Defined.

Fixpoint run (e : list Z) (s : nor) : list Z * nor :=
  match e with
  | [] => ([], s)
  | b :: e => let '(out, s') := run e (mk_nor (so s ++ [b]) (ph s) (me s)) in (answer s :: out, s')
  end.

#[global] Instance bus_exec : Executable nor.
Proof.
  refine {| exec := run |}. intros e. induction e as [|b e IH]; intros s; cbn; [constructor|].
  specialize (IH (mk_nor (so s ++ [b]) (ph s) (me s))). destruct (run e _) as [out s']. econstructor; [done|exact IH].
Defined.

Lemma exchanged_spec bs s out s1 :
  xchgs bs s out s1 ->
  s1 = mk_nor (so s ++ bs) (ph s) (me s) /\ length out = length bs /\
  forall j, (j < length bs)%nat -> out !! j = Some (answer (mk_nor (so s ++ take j bs) (ph s) (me s))).
Proof.
  induction 1 as [s|b bs s a s1 out s' [-> ->] _ (-> & L & A)]; [rewrite app_nil_r; destruct s; repeat split; cbn; lia|]. cbn [so ph me] in *.
  split; [by rewrite <- app_assoc|]. split; [cbn; lia|]. intros [|j] J; cbn.
  - rewrite app_nil_r. by destruct s.
  - cbn in J. etransitivity; [apply (A j); lia|]. do 3 f_equal. by rewrite <- app_assoc.
Qed.

Definition bytes (p : phase_t) (m : list Z) : Prop := Forall is_byte m /\ match p with PBusy m => Forall is_byte m | _ => True end.

Lemma at3_addr op a rest : 0 <= a < 2 ^ 24 -> at3 (op :: addr_bytes flash_3byteAddr a ++ rest) = a.
Proof. intros A. cbn -[Z.land Z.shiftr]. rewrite !(land_ff), !Z.shiftr_div_pow2 by lia. modlia. Qed.

(** Memories of the law are as big as the chip. *)
Definition sized (s : nor) : Prop := so s = [] /\ bytes (ph s) (me s) /\ zlen (me s) = 8192 /\ match ph s with PBusy m => zlen m = 8192 | _ => True end.

(** One command, to its end. *)
Lemma finished_spec bs s out s1 :
  sized s -> xchgs bs s out s1 ->
  length out = length bs /\ (forall j, (j < length bs)%nat -> out !! j = Some (answer (mk_nor (take j bs) (ph s) (me s)))) /\
  release s1 = mk_nor [] (done_with (mk_nor bs (ph s) (me s))).1 (done_with (mk_nor bs (ph s) (me s))).2.
Proof. intros (So & _) X. destruct (exchanged_spec _ _ _ _ X) as (-> & L & A). rewrite So in *. done. Qed.

Definition read_mosi (a : Z) (zs : list Z) : list Z := 0xeb :: addr_bytes flash_3byteAddr a ++ zeros 3 ++ zs.

Lemma read_answers s a k zs out :
  0 <= a < 2 ^ 24 -> 0 <= k <= zlen zs -> Forall is_byte (me s) -> a + k <= zlen (me s) -> length out = length (read_mosi a zs) ->
  (forall j, (j < length (read_mosi a zs))%nat -> out !! j = Some (answer (mk_nor (take j (read_mosi a zs)) (ph s) (me s)))) ->
  zslice 7 k out = zslice a k (me s).
Proof.
  intros A K B Ak L O. set (cmd := 0xeb :: addr_bytes flash_3byteAddr a ++ zeros 3).
  assert (Lc : length cmd = 7%nat) by done. change (read_mosi a zs) with (cmd ++ zs) in *.
  rewrite length_app in L, O. apply list_eq. intros j. rewrite !lookup_zslice by lia. destruct (Z.ltb_spec (Z.of_nat j) k); [|done].
  rewrite O by lia. rewrite take_app_ge by lia. set (zs' := take _ zs). assert (Lz : length zs' = j) by (unfold zs'; rewrite length_take; lia).
  unfold answer, cmd. cbn [so ph me app]. change (0xeb :: (addr_bytes flash_3byteAddr a ++ zeros 3) ++ zs') with (cmd ++ zs').
  assert (Ea : at3 (cmd ++ zs') = a) by (unfold cmd; cbn [app]; rewrite <- app_assoc; by apply at3_addr). rewrite Ea, length_app, Lc, Lz.
  destruct (Z.leb_spec 7 (Z.of_nat (7 + j))); [|lia]. replace (Z.to_nat (a + (Z.of_nat (7 + j) - 7))) with (Z.to_nat (a + Z.of_nat j)) by lia.
  destruct (lookup_lt_is_Some_2 (me s) (Z.to_nat (a + Z.of_nat j))) as [x E]; [lia|]. replace (Z.to_nat a + j)%nat with (Z.to_nat (a + Z.of_nat j)) by lia.
  rewrite E, nth_lookup, E. cbn. f_equal. pose proof (Forall_lookup_1 _ _ _ _ B E) as X. unfold is_byte in X. by apply Z.mod_small.
Qed.

Lemma land_bytes l l' : Forall is_byte l' -> Forall is_byte (zip_with Z.land l l').
Proof.
  intros F. revert l. induction F as [|x l' X _ IH]; intros [|y l]; cbn; constructor; auto. unfold is_byte in *. rewrite Z.land_comm.
  rewrite <- (Z.mod_small x 256) by done. rewrite <- land_ff, <- Z.land_assoc, (Z.land_comm 0xff), Z.land_assoc, land_ff. by apply Z.mod_pos_bound.
Qed.

Lemma settled_sized p m : bytes p m -> zlen m = 8192 -> match p with PBusy m => zlen m = 8192 | _ => True end -> sized (mk_nor [] (settled p m).1 (settled p m).2).
Proof. intros [B1 B2] L P. destruct p; repeat split; cbn; done. Qed.

(** The command ends with the chip busy. *)
Lemma busy_sized s m : sized s -> Forall is_byte m -> zlen m = 8192 -> sized (mk_nor [] (PBusy m) (me s)).
Proof. intros (_ & [B _] & L & _) Bm Lm. by repeat split. Qed.

#[global] Instance laws : Nor_chip nor small.
Proof.
  refine {| fresh := sized; phase := ph; mem := me |}.
  - intros s x out s1 F X. change (xchgs [0x05; x] s out s1) in X. pose proof F as (So & B & L & P). destruct (finished_spec _ _ _ _ F X) as (Lo & A & ->).
    cbn [done_with so ph me fst snd]. split; [by apply settled_sized|]. pose proof (A 1%nat ltac:(cbn; lia)) as A1. cbn in A1, Lo.
    destruct out as [|a [|v []]]; try done. exists a, v. split; [done|]. injection A1 as ->. cbn. by destruct (ph s).
  - intros s out s1 F Pr X. change (xchgs [0x06] s out s1) in X. pose proof F as (So & B & L & P). destruct (finished_spec _ _ _ _ F X) as (_ & _ & ->).
    cbn [done_with so ph me fst snd]. rewrite Pr in *. by repeat split; cbn; try apply B.
  - intros s a data out s1 F Pr Db Ld A0 Am Al X. change (xchgs (0x32 :: addr_bytes flash_3byteAddr a ++ data) s out s1) in X.
    pose proof F as (So & B & L & P). destruct (finished_spec _ _ _ _ F X) as (_ & _ & ->). unfold done_with. cbn [so ph me].
    rewrite at3_addr by lia. change (drop 4 (0x32 :: addr_bytes flash_3byteAddr a ++ data)) with data. rewrite Pr. cbn [fst snd]. split; [|done].
    assert (Lz : zlen (zip_with Z.land (zslice a (zlen data) (me s)) data) = zlen data) by (rewrite length_zip_with; pose proof (length_zslice a (zlen data) (me s)); lia).
    apply busy_sized; [done|apply Forall_splice; [apply B|by apply land_bytes]|rewrite length_splice; lia].
  - intros s sz cmd a out s1 F Pr Ec A0 Am Al X. pose proof F as (So & B & L & P). unfold erase_cmd in Ec. cbn [addrMode small] in Ec.
    destruct (Z.eqb_spec sz 0x1000) as [-> |_]; [|destruct (Z.eqb_spec sz 0x10000) as [-> |_]; [lia|done]]. injection Ec as <-.
    change (xchgs (0x20 :: addr_bytes flash_3byteAddr a ++ []) s out s1) in X. destruct (finished_spec _ _ _ _ F X) as (_ & _ & ->). unfold done_with. cbn [so ph me].
    rewrite at3_addr by lia. rewrite Pr. cbn [fst snd]. split; [|done]. assert (Lr : zlen (replicate (Z.to_nat 0x1000) 0xff) = 0x1000) by (rewrite length_replicate; lia).
    apply busy_sized; [done|apply Forall_splice; [apply B|by apply Forall_replicate]|rewrite length_splice; lia].
  - intros s a zs out s1 cmd dummies F Pr A0 Al X. change (xchgs (read_mosi a zs) s out s1) in X. pose proof F as (So & B & L & P).
    destruct (finished_spec _ _ _ _ F X) as (Lo & A & ->). change (done_with (mk_nor (read_mosi a zs) (ph s) (me s))) with (ph s, me s). cbn [fst snd ph me].
    split; [destruct s; cbn in *; by repeat split; try apply B|]. split; [done|]. split; [done|]. intros k K Ka. change (cmd_size cmd + dummies) with 7. apply (read_answers s a k zs); (apply B || done || lia).
Defined.

(** The driver at rest and the chip erased. *)
Definition drv0 : fdrv_t := mk_fdrv (zeros 32) (zeros 32) (zeros BUFFER_SIZE) 0 no_id no_id small.
Definition board0 : bench.board (S := nor) := bench.start true (mk_nor [] PReady (replicate 8192 0xff)).
End nor.

Lemma small_ok : chip_ok nor.small 8192 256 4 3.
Proof.
  split; try by repeat split.
  - intros c I. cbn in I. by repeat destruct I as [<- |I].
  - intros sz cmd. unfold erase_cmd. cbn [addrMode nor.small]. repeat case_match; intros [= <-]; by repeat split.
Qed.

Lemma small_geometry : geometry (cfi nor.small) 8192 256.
Proof. apply (geometry_one _ _ _ 0x10 1); try done. by left. Qed.

Lemma drv0_consistent : consistent nor.small 8192 256 4 3 nor.drv0 (replicate 8192 0xff) (replicate 8192 0xff).
Proof.
  split; [|split; [done|left; split; [by repeat split|done]]]. assert (B : forall n, Forall is_byte (zeros n)) by (intros n; by apply Forall_replicate).
  split; try done; cbn [nor.drv0 cmdTx cmdRx fbuff]; split; try done; apply B.
Qed.

Lemma board0_ok : wok nor.small nor.board0 PReady (replicate 8192 0xff).
Proof. split; [apply bench.qspi_start_ready|]. split; [|done]. split; [done|]. split; [split; [by apply Forall_replicate|done]|done]. Qed.


(** ** What modelling showed *)

Definition first {A B C} (x : option (A * B * C)) : option (B * C) := (fun r => (r.1.2, r.2)) <$> x.

(** A write into the sector of the buffer lands behind the last one, wherever it was to go. *)
Lemma write_lands_behind :
  let f := Z.to_nat 2600 in
  ('(d, w) ← first (flashdrv_write f 300 [1] nor.drv0 nor.board0);
   '(d, w) ← first (flashdrv_write f 400 [9] d w);
   '(_, w) ← first (flashdrv_sync f d w);
   Some (zslice 300 2 (nor.me (slv w.1)), zslice 400 1 (nor.me (slv w.1)))) = Some ([1; 9], [0xff]).
Proof. vm_compute. reflexivity. Qed.

(** A read does not see the buffer, and the sector it stands for is erased. *)
Lemma read_misses_buffer :
  let f := Z.to_nat 2600 in
  ('(d, w) ← first (flashdrv_write f 300 [1] nor.drv0 (bench.start true (nor.mk_nor [] PReady (replicate 8192 7))));
   '(r, bs, _, _) ← flashdrv_read f 299 2 5 d w; Some (r, bs)) = Some (2, [0xff; 0xff]).
Proof. vm_compute. reflexivity. Qed.

(** Erasing a sector drops the buffer: the other bytes of the sector it stood for are lost. *)
Lemma erase_loses_sector :
  let f := Z.to_nat 2600 in
  ('(d, w) ← first (flashdrv_write f 300 [1] nor.drv0 (bench.start true (nor.mk_nor [] PReady (replicate 8192 7))));
   '(d, w) ← first (flashdrv_erase f 4096 4096 d w);
   '(r, _, w) ← flashdrv_sync f d w;
   Some (r, zslice 299 2 (nor.me (slv w.1)))) = Some (EOK, [0xff; 0xff]).
Proof. vm_compute. reflexivity. Qed.

(** With three regions of one sector of 4096 bytes, no region has the addresses of the third. *)
Lemma third_region_missed :
  regionFind_loop 3 0 0x2800 0 (foldl cfi_put (replicate 61 0) [(0x2d, [0; 0; 0x10; 0]); (0x31, [0; 0; 0x10; 0]); (0x35, [0; 0; 0x10; 0])]) = Some None.
Proof. reflexivity. Qed.
