(* ===== verification/Console.v ===== *)
(** * The console (src/lib/console.c, printf.c, log.c, prompt.c)

    The console is a device of the device table with its mirrors, and hooks a
    debugger may install.  What is shown is an effect on the world behind the
    devices.  The hexadecimal dump of memory is proved to be readable: what it shows
    determines the bytes. *)

From S2P Require Import Prelude CString Mem Devs Format.

Definition CONSOLE_MIRRORS := 3.
Definition EINTR := 4.

(** ** src/lib/log.c *)

(** [echo_common.mode] *)
Definition log_getEcho (mode : Z) : Z := mode.
Definition log_setEcho (val : Z) : Z := b2z (negb (val =? 0)).

(** ** src/lib/console.c *)

Section console.
  Context `{Target} {W : Type} (t : devtab W) (hal_consolePrint : cstr -> W -> W).

(** [console_common]; [co_init] is a flag, the mirrors are pairs of a major and a
    minor, a hook that is NULL is [None]. *)
Record console := mk_console {
  co_init : bool;
  co_mirrors : list (Z * Z);
  co_mirrorsCnt : Z;
  co_major : Z;
  co_minor : Z;
  co_readHook : option (Z -> W -> (Z * list Z) * W);
  co_writeHook : option (list Z -> W -> W)
}.

Definition lib_consoleSetHooks (rd : option (Z -> W -> (Z * list Z) * W)) (wr : option (list Z -> W -> W))
    (co : console) : console :=
  mk_console (co_init co) (co_mirrors co) (co_mirrorsCnt co) (co_major co) (co_minor co) rd wr.

Definition lib_consoleWrite (co : console) (s : list Z) (w : W) : W :=
  let w := fold_left (fun w '(major, minor) => (devs_write t major minor 0 s w).2)
             (ztake (co_mirrorsCnt co) (co_mirrors co)) w in
  (devs_write t (co_major co) (co_minor co) 0 s w).2.

Definition lib_consolePuts (co : console) (s : cstr) (w : W) : W :=
  if negb (co_init co) then hal_consolePrint s w
  else
    let w := match co_writeHook co with Some wr => wr s w | None => w end in
    lib_consoleWrite co s w.

(** Before the console is set, a NUL is the end of the string printed. *)
Definition lib_consolePutc (co : console) (c : Z) (w : W) : W :=
  if negb (co_init co) then hal_consolePrint (if c =? 0 then [] else [c]) w
  else
    let w := match co_writeHook co with Some wr => wr [c] w | None => w end in
    lib_consoleWrite co [c] w.

(** The result and the character; [None] when no console is set, where the loader
    stops for good. *)
Definition lib_consoleGetc (co : console) (timeout : Z) (w : W) : option (Z * Z * W) :=
  let device c timeout w :=
    if negb (co_init co) then None
    else
      let '((res, data), w) := devs_read t (co_major co) (co_minor co) 0 1 timeout w in
      Some (res, default c (head data), w) in
  match co_readHook co with
  | Some rd =>
      let '((res, data), w) := rd 1 w in
      let c := default 0 (head data) in
      if 0 <? res then Some (1, c, w)
      else device c (if timeout =? -1 then 20 else timeout) w
  | None => device 0 timeout w
  end.

Definition lib_consoleSet (major minor : Z) (co : console) : console :=
  mk_console true (co_mirrors co) (co_mirrorsCnt co) major minor (co_readHook co) (co_writeHook co).

(** The loop of [lib_consoleSetMirrors] from [i] on, [k] steps left. *)
Fixpoint set_mirrors (k : nat) (i : nat) (majors minors : list Z) (mirrors : list (Z * Z))
    : option (list (Z * Z)) :=
  match k with
  | O => Some mirrors
  | S k =>
      ma ← majors !! i; mi ← minors !! i;
      set_mirrors k (S i) majors minors (<[i := (ma, mi)]> mirrors)
  end.

Definition lib_consoleSetMirrors (cnt : Z) (majors minors : list Z) (co : console) : option console :=
  let cnt := Z.min CONSOLE_MIRRORS cnt in
  mirrors ← set_mirrors (Z.to_nat cnt) 0 majors minors (co_mirrors co);
  Some (mk_console (co_init co) mirrors cnt (co_major co) (co_minor co) (co_readHook co) (co_writeHook co)).

Definition lib_consolePutHLine (co : console) (w : W) : W :=
  lib_consolePutc co 10 (fold_left (fun w c => lib_consolePutc co c w) (replicate 79 "-"%ch) w).

(** ** src/lib/printf.c *)

Definition lib_printfFeed (co : console) (ctx : Z * W) (c : Z) : Z * W :=
  let '(n, w) := ctx in (wa (n + 1), lib_consolePutc co c w).

Definition lib_printf (co : console) (format : cstr) (args : va_list) (w : W) : option (Z * W) :=
  '(n, w) ← lib_formatParse (lib_printfFeed co) (0, w) format args; Some (s32 n, w).

(** A call whose result is not used. *)
Definition print (co : console) (format : cstr) (args : va_list) (w : W) : option W :=
  '(_, w) ← lib_printf co format args w; Some w.

(** ** The dump of a region *)

Definition cols := 16.
Definition all_cols : list Z := seqZ 0 cols.

(** The byte at an address; a validator answers [None] where it would fault. *)
Context (peek : Z -> W -> Z) (validator : option (Z -> Z -> Z -> option bool)).

Definition outside (start end_ ptr : Z) : bool := (ptr <? start) || (end_ <=? ptr).

(** [(validator != NULL) && (validator(start, end, ptr) == 0u)] *)
Definition hidden (start end_ ptr : Z) : option bool :=
  match validator with Some v => ok ← v start end_ ptr; Some (negb ok) | None => Some false end.

(** One step of the loop over the byte values, and of the loop over the characters. *)
Definition put_byte (co : console) (start end_ ptr : Z) (w : W) : option W :=
  if outside start end_ ptr then Some (lib_consolePuts co (str "   ") w)
  else
    h ← hidden start end_ ptr;
    if h : bool then Some (lib_consolePuts co (str "XX ") w)
    else print co (str "%02x ") [AInt (peek ptr w)] w.

Definition put_char (co : console) (start end_ ptr : Z) (w : W) : option W :=
  c ← (if outside start end_ ptr then Some " "%ch
       else
         h ← hidden start end_ ptr;
         Some (if h : bool then "X"%ch else if lib_isprint (peek ptr w) then peek ptr w else "."%ch));
  Some (lib_consolePutc co c w).

Fixpoint each_col (put : Z -> W -> option W) (cs : list Z) (offs : Z) (w : W) : option W :=
  match cs with
  | [] => Some w
  | col :: cs => w ← put (wa (offs + col)) w; each_col put cs offs w
  end.

Fixpoint hex_loop (fuel : nat) (co : console) (start end_ offp offs : Z) (w : W) : option W :=
  match fuel with
  | O => None
  | S fuel =>
      if offs <? end_ then
        w ← print co (str "0x%08x | ") [AInt (w32 offp)] w;
        w ← each_col (put_byte co start end_) all_cols offs w;
        let w := lib_consolePuts co (str "| ") w in
        w ← each_col (put_char co start end_) all_cols offs w;
        let w := lib_consolePutc co 10 w in
        hex_loop fuel co start end_ (wa (offp + cols)) (wa (offs + cols)) w
      else Some w
  end.

Definition lib_consolePutRegionHex (fuel : nat) (co : console) (start end_ offp : Z) (align : bool) (w : W)
    : option W :=
  let offp := if align then wa (offp / cols * cols) else offp in
  let offs := if align then wa (start / cols * cols) else start in
  hex_loop fuel co start end_ offp offs w.

(** ** src/lib/prompt.c *)

(** The loop over the input, [pos] characters of the answer matched. *)
Fixpoint confirm_loop (fuel : nat) (co : console) (answer : cstr) (timeout : Z) (pos : nat) (w : W)
    : option (Z * W) :=
  match fuel with
  | O => None
  | S fuel =>
      '(_, c, w) ← lib_consoleGetc co timeout w;
      if c =? 3 then Some (- EINTR, w)
      else if negb (deref answer =? 0) then
        if at_ answer pos =? c then
          let w := lib_consolePutc co c w in
          if at_ answer (S pos) =? 0 then Some (1, w)
          else confirm_loop fuel co answer timeout (S pos) w
        else Some (0, fold_left (fun w s => lib_consolePuts co s w) (replicate pos [8; 32; 8]) w)
      else Some (0, w)
  end.

(** A NULL answer is a string without characters for the loop, not for the message. *)
Definition lib_promptConfirm (fuel : nat) (co : console) (message : cstr) (answer : option cstr) (timeout : Z)
    (w : W) : option (Z * W) :=
  w ← print co message [AStr answer] w;
  confirm_loop fuel co (default [] answer) timeout 0 w.

End console.

Arguments console : clear implicits.

(** ** Formats *)

(** A colour or a style around a format, and a line. *)
Definition esc (s : string) : cstr := 27 :: str s.
Definition CONSOLE_NORMAL : cstr := esc "[0m".
Definition CONSOLE_BOLD : cstr := esc "[1m".
Definition CONSOLE_RED : cstr := esc "[31m".
Definition CONSOLE_CURSOR_SHOW : cstr := esc "[?25h".
Definition line (s : string) : cstr := 10 :: str s.

(** A [size_t] given to [%zu] *)
Definition asize `{Target} (x : Z) : vararg := if addr_bits =? 64 then ALong (wa x) else AInt (wa x).

Section parses.
  Context `{Target}.

(** The format is parsed to its end with these arguments. *)
Definition parses (fuel : nat) (format : cstr) (args : va_list) : Prop :=
  forall ctx, exists cs, format_loop snoc fuel ctx format args = Some cs.

Lemma parses_nil fuel args : parses (S fuel) [] args.
Proof. intros ctx. by eexists. Qed.

Lemma parses_chr fuel c format args :
  (c =? 0) = false -> (c =? "%"%ch) = false -> parses fuel format args -> parses (S fuel) (c :: format) args.
Proof. intros Z P I ctx. cbn [format_loop next deref head default tail]. unfold id. rewrite Z, P. cbn [negb]. apply I. Qed.

Lemma parses_s fuel s format args : parses fuel format args -> parses (S fuel) (37 :: 115 :: format) (AStr s :: args).
Proof. intros I ctx. destruct (I (format_str snoc ctx s 0 0 (-1))) as [cs E]. exists cs. by destruct format. Qed.

Lemma parses_x fuel z format args : parses fuel format args -> parses (S fuel) (37 :: 120 :: format) (AInt z :: args).
Proof. intros I ctx. destruct (I (lib_formatSprintfNum snoc ctx (w32 z) FLAG_HEX 0)) as [cs E]. exists cs. by destruct format. Qed.

Lemma parses_u fuel z format args : parses fuel format args -> parses (S fuel) (37 :: 117 :: format) (AInt z :: args).
Proof. intros I ctx. destruct (I (lib_formatSprintfNum snoc ctx (w32 z) 0 0)) as [cs E]. exists cs. by destruct format. Qed.

Lemma parses_d fuel z format args : parses fuel format args -> parses (S fuel) (37 :: 100 :: format) (AInt z :: args).
Proof. intros I ctx. destruct (I (lib_formatSprintfNum snoc ctx (w64 (s32 z)) FLAG_SIGNED 0)) as [cs E]. exists cs. by destruct format. Qed.

Lemma parses_zu fuel z format args :
  parses fuel format args -> parses (S fuel) (37 :: 122 :: 117 :: format) (asize z :: args).
Proof.
  intros I ctx. specialize (I (lib_formatSprintfNum snoc ctx (if addr_bits =? 64 then w64 (wa z) else w32 (wa z))
    (if addr_bits =? 64 then FLAG_64BIT else 0) 0)). destruct I as [cs I]. exists cs. rewrite <- I.
  unfold asize. destruct addr_bits_ok as [A|A], format; cbn [format_loop next]; unfold format_spec; cbn; rewrite A; reflexivity.
Qed.

Lemma parses_some format args : parses (S (length format)) format args -> exists cs, lib_formatParse snoc [] format args = Some cs.
Proof. intros P. apply P. Qed.

End parses.

(** A literal format with its arguments. *)
Ltac prints :=
  match goal with |- parses _ ?f _ => let f' := eval vm_compute in f in change f with f' end;
  cbn [length];
  repeat first [simple apply parses_nil | simple apply parses_s | simple apply parses_x | simple apply parses_u | simple apply parses_d
               | simple apply parses_zu | simple apply parses_chr; [reflexivity|reflexivity|]].

(** ** What is shown *)

(** What one call shows. *)
Inductive piece := Puts (s : cstr) | Putc (c : Z).

Definition piece_text (p : piece) : cstr := match p with Puts s => s | Putc c => [c] end.

Definition text (ps : list piece) : cstr := concat (map piece_text ps).

Lemma text_app ps qs : text (ps ++ qs) = text ps ++ text qs.
Proof. unfold text. by rewrite map_app, concat_app. Qed.

Lemma text_chars cs : text (map Putc cs) = cs.
Proof. induction cs as [|c cs IH]; [done|]. cbn. by f_equal. Qed.

Section output.
  Context `{Target} {W : Type} (t : devtab W) (hal_consolePrint : cstr -> W -> W) (co : console W).

Abbreviation puts := (lib_consolePuts t hal_consolePrint co).
Abbreviation putc := (lib_consolePutc t hal_consolePrint co).
Abbreviation printing := (print t hal_consolePrint co).

Definition show (p : piece) (w : W) : W := match p with Puts s => puts s w | Putc c => putc c w end.

(** Pieces of text shown one after the other. *)
Definition emit (ps : list piece) (w : W) : W := fold_left (fun w p => show p w) ps w.

Lemma emit_app ps qs w : emit (ps ++ qs) w = emit qs (emit ps w).
Proof. apply fold_left_app. Qed.

(** A formatted string is shown character by character. *)
Lemma print_emit format args w :
  printing format args w = (cs ← lib_formatParse snoc [] format args; Some (emit (map Putc cs) w)).
Proof.
  unfold print, lib_printf. rewrite lib_formatParse_fold.
  destruct (lib_formatParse snoc [] format args) as [cs|]; [|done]. cbn [mbind option_bind].
  assert (A : forall n w, (feed_all (lib_printfFeed t hal_consolePrint co) (n, w) cs).2 = emit (map Putc cs) w)
    by (induction cs as [|c cs IH]; intros; [done|apply IH]).
  specialize (A 0 w). destruct (feed_all _ _ _) as [n w']. cbn [snd] in A. by subst w'.
Qed.

Lemma print_some format args cs w :
  lib_formatParse snoc [] format args = Some cs -> printing format args w = Some (emit (map Putc cs) w).
Proof. intros E. by rewrite print_emit, E. Qed.

Lemma hline_emit w : lib_consolePutHLine t hal_consolePrint co w = emit (map Putc (replicate 79 "-"%ch ++ [10])) w.
Proof.
  rewrite map_app, emit_app. unfold lib_consolePutHLine. generalize (replicate 79 "-"%ch). intros l.
  change (emit (map Putc [10]) ?x) with (putc 10 x). f_equal. revert w.
  induction l as [|c l IH]; intros w; [done|apply IH].
Qed.

End output.

(** ** Reading a dump *)

Inductive cell := Absent | Hidden | Byte (b : Z).

Definition read_cell (c3 : list Z) : cell :=
  match c3 with
  | h :: l :: _ =>
      if h =? " "%ch then Absent else if h =? "X"%ch then Hidden else Byte (16 * digit_val h + digit_val l)
  | _ => Absent
  end.

Definition row_len : nat := 80.

(** The label of a row and its cells, by their place in the row. *)
Definition read_row `{Target} (row : list Z) : Z * list cell :=
  ((lib_strtoul (take 10 row) 0).1, map (fun i => read_cell (take 3 (drop (13 + 3 * i) row))) (seq 0 16)).

Fixpoint read_dump `{Target} (rows : nat) (text : list Z) : list (Z * list cell) :=
  match rows with
  | O => []
  | S rows => read_row (take row_len text) :: read_dump rows (drop row_len text)
  end.

(** *** The parts of a row *)

Definition hex2 (b : Z) : cstr := [digit 0 (b / 16); digit 0 (b mod 16); " "%ch].

Lemma hex2_format `{Target} b :
  0 <= b < 256 -> lib_formatParse snoc [] (str "%02x ") [AInt b] = Some (hex2 b).
Proof.
  intros B.
  assert (E : map (fun b => lib_formatParse snoc [] (str "%02x ") [AInt b]) (seqZ 0 256) =
              map (fun b => Some (hex2 b)) (seqZ 0 256)) by (vm_compute; reflexivity).
  apply (f_equal (fun l => l !! Z.to_nat b)) in E. rewrite !list_lookup_fmap in E.
  rewrite lookup_seqZ_lt in E by lia. cbn [option_map fmap option_fmap] in E.
  replace (0 + Z.of_nat (Z.to_nat b)) with b in E by lia. apply (f_equal (default None)) in E. exact E.
Qed.

Lemma hex2_read b : 0 <= b < 256 -> read_cell (hex2 b) = Byte b.
Proof.
  intros B.
  assert (E : forallb (fun b => bool_decide (hex2 b !! 0%nat <> Some " "%ch) && bool_decide (hex2 b !! 0%nat <> Some "X"%ch) &&
     (16 * digit_val (digit 0 (b / 16)) + digit_val (digit 0 (b mod 16)) =? b)) (seqZ 0 256) = true)
    by (vm_compute; reflexivity).
  rewrite forallb_forall in E. specialize (E b).
  rewrite !andb_true_iff, !bool_decide_eq_true, Z.eqb_eq in E.
  destruct E as [[E1 E2] E4]; [apply list_elem_of_In, elem_of_seqZ; lia|].
  unfold hex2, read_cell in *. cbn [lookup list_lookup] in E1, E2.
  destruct (Z.eqb_spec (digit 0 (b / 16)) " "%ch) as [X|_]; [by rewrite X in E1|].
  destruct (Z.eqb_spec (digit 0 (b / 16)) "X"%ch) as [X|_]; [by rewrite X in E2|]. by rewrite E4.
Qed.

Definition label_text `{Target} (n : Z) : cstr := default [] (lib_formatParse snoc [] (str "0x%08x | ") [AInt n]).

(** The label of a row has ten characters and is read back. *)
Lemma label_spec `{Target} n :
  0 <= n < 2 ^ 32 ->
  lib_formatParse snoc [] (str "0x%08x | ") [AInt n] = Some (label_text n) /\
  length (label_text n) = 13%nat /\ (lib_strtoul (take 10 (label_text n)) 0).1 = n.
Proof.
  intros N. unfold label_text. set (flags := Z.lor FLAG_ZERO FLAG_HEX).
  assert (P : lib_formatParse snoc [] (str "0x%08x | ") [AInt n] =
    Some (lib_formatSprintfNum snoc (str "0x") (w32 n) flags 8 ++ str " | "))
    by (transitivity (Some (((lib_formatSprintfNum snoc (str "0x") (w32 n) flags 8 ++ [32]) ++ [124]) ++ [32]));
        [reflexivity|by rewrite <- !app_assoc]).
  rewrite w32_small in P by done. rewrite P. cbn [default]. unfold id. split; [done|].
  unfold lib_formatSprintfNum. change (has flags FLAG_NULLMARK) with false. cbv beta iota. cbn [andb].
  change (sprintf_sign n flags) with (0, n). cbv beta iota.
  change (has flags FLAG_64BIT) with false. cbn [andb].
  pose proof (sprintf_digits_in n flags ltac:(lia) ltac:(intros; lia) eq_refl) as D.
  change (flags_base flags) with 16 in D.
  assert (L : (length (sprintf_digits n flags) <= 8)%nat).
  { unfold sprintf_digits. change (has flags FLAG_HEX) with true. change (has flags FLAG_64BIT) with false.
    change (has flags FLAG_ALTERNATE) with false. cbv beta iota. rewrite app_nil_r.
    destruct (n =? 0); [cbn; lia|]. apply bit_digits_length; [lia|]. rewrite w32_small by done. cbn. lia. }
  set (tmp := sprintf_digits n flags) in *. clearbody tmp.
  change (has flags FLAG_ZERO) with true. cbn [negb andb]. rewrite !andb_false_r, !andb_true_r.
  cbn [negb Z.eqb b2z]. change (s32 8) with 8. rewrite Z.sub_0_r.
  set (k := Z.to_nat (8 - zlen tmp)).
  assert (E : (if 0 <? 8 - zlen tmp then feed_all snoc (str "0x") (replicate k "0"%ch)
               else str "0x") = str "0x" ++ replicate k "0"%ch).
  { destruct (Z.ltb_spec 0 (8 - zlen tmp)); [by rewrite feed_all_snoc|].
    replace k with O by lia. done. }
  rewrite E, feed_all_snoc, <- !app_assoc. set (ds := replicate k "0"%ch ++ rev tmp).
  assert (LD : length ds = 8%nat) by (unfold ds; rewrite length_app, length_replicate, length_rev; lia).
  assert (DD : digits_in 16 n (rev ds)) by (apply digits_in_zeros; [lia|by rewrite rev_involutive]).
  replace (replicate k "0"%ch ++ rev tmp ++ str " | ") with (ds ++ str " | ") by (unfold ds; by rewrite app_assoc).
  clearbody ds. split_and!.
  - rewrite !length_app, LD. done.
  - rewrite (app_assoc (str "0x")), take_app_length' by (rewrite length_app, LD; done).
    change (lib_strtoul (str "0x" ++ ds) 0) with (strtoul_loop 16 0 ds).
    pose proof (strtoul_digits 16 n ds [] ltac:(lia) DD eq_refl) as S. rewrite app_nil_r in S. rewrite S.
    cbn. apply wa_small. pose proof addr_bits_ge32. lia.
Qed.

(** *** A dump of memory that showing text does not change *)

Section dump.
  Context `{Target} {W : Type} (t : devtab W) (hal_consolePrint : cstr -> W -> W) (co : console W).
  Context (peek : Z -> W -> Z) (validator : option (Z -> Z -> Z -> option bool)).
  Context (start end_ : Z) (vis : Z -> bool) (w0 : W).

Abbreviation emits := (emit t hal_consolePrint co).
Abbreviation mem := (fun p => peek p w0).

(** The memory dumped keeps its bytes while the dump is shown; the validator answers
    for every address of the region. *)
Context (quiet : forall p ps, start <= p < end_ -> peek p (emits ps w0) = mem p).
Context (bytes : forall p, start <= p < end_ -> 0 <= mem p < 256).
Context (valid : forall p, start <= p < end_ -> hidden validator start end_ p = Some (negb (vis p))).

(** What a dump shows of an address. *)
Definition cell_of (p : Z) : cell :=
  if outside start end_ p then Absent else if vis p then Byte (mem p) else Hidden.

Definition cell_pieces (c : cell) : list piece :=
  match c with Absent => [Puts (str "   ")] | Hidden => [Puts (str "XX ")] | Byte b => map Putc (hex2 b) end.

Definition char_of (p : Z) : Z :=
  match cell_of p with
  | Absent => " "%ch
  | Hidden => "X"%ch
  | Byte b => if lib_isprint b then b else "."%ch
  end.

Lemma outside_false p : outside start end_ p = false -> start <= p < end_.
Proof. unfold outside. intros [?%Z.ltb_ge ?%Z.leb_gt]%orb_false_iff. lia. Qed.

Lemma put_byte_emit p ps :
  put_byte t hal_consolePrint peek validator co start end_ p (emits ps w0) =
    Some (emits (ps ++ cell_pieces (cell_of p)) w0).
Proof.
  rewrite emit_app. unfold put_byte, cell_of. destruct (outside start end_ p) eqn:O; [done|].
  apply outside_false in O. rewrite valid by done. cbn [mbind option_bind].
  destruct (vis p); cbn [negb]; [|done]. rewrite quiet by done. specialize (bytes p O).
  apply print_some. by apply hex2_format.
Qed.

Lemma put_char_emit p ps :
  put_char t hal_consolePrint peek validator co start end_ p (emits ps w0) =
    Some (emits (ps ++ [Putc (char_of p)]) w0).
Proof.
  rewrite emit_app. unfold put_char, char_of, cell_of.
  destruct (outside start end_ p) eqn:O; [done|]. apply outside_false in O.
  rewrite valid by done. cbn [mbind option_bind]. destruct (vis p); cbn [negb]; [|done].
  by rewrite quiet.
Qed.

Lemma each_col_emit put (f : Z -> list piece) cs offs ps :
  (forall p ps, put p (emits ps w0) = Some (emits (ps ++ f p) w0)) ->
  each_col put cs offs (emits ps w0) = Some (emits (ps ++ concat (map (fun c => f (wa (offs + c))) cs)) w0).
Proof.
  intros P. revert ps. induction cs as [|c cs IH]; intros ps; cbn [each_col map concat].
  - by rewrite app_nil_r.
  - rewrite P. cbn [mbind option_bind]. by rewrite IH, app_assoc.
Qed.

(** The addresses of the row at [offs]. *)
Definition row_ptrs (offs : Z) : list Z := map (fun c => wa (offs + c)) all_cols.

Definition row_pieces (offp offs : Z) : list piece :=
  map Putc (label_text (w32 offp)) ++ concat (map (fun p => cell_pieces (cell_of p)) (row_ptrs offs)) ++
  [Puts (str "| ")] ++ concat (map (fun p => [Putc (char_of p)]) (row_ptrs offs)) ++ [Putc 10].

Fixpoint dump_pieces (rows : nat) (offp offs : Z) : list piece :=
  match rows with
  | O => []
  | S rows => row_pieces offp offs ++ dump_pieces rows (wa (offp + cols)) (wa (offs + cols))
  end.

Lemma hex_loop_emit rows fuel offp offs ps :
  (forall i, 0 <= i < Z.of_nat rows -> offs + i * cols < end_) ->
  end_ <= offs + Z.of_nat rows * cols < 2 ^ addr_bits -> 0 <= offs -> (rows < fuel)%nat ->
  hex_loop t hal_consolePrint peek validator fuel co start end_ offp offs (emits ps w0) =
    Some (emits (ps ++ dump_pieces rows offp offs) w0).
Proof.
  unfold cols.
  revert fuel offp offs ps. induction rows as [|rows IH]; intros [|fuel] offp offs ps L E O F; try lia;
    cbn [hex_loop dump_pieces].
  - rewrite (proj2 (Z.ltb_ge offs end_)) by lia. by rewrite app_nil_r.
  - specialize (L 0 ltac:(lia)) as L0. rewrite (proj2 (Z.ltb_lt offs end_)) by lia.
    destruct (label_spec (w32 offp) (w32_range offp)) as (P & _ & _).
    rewrite (print_some _ _ _ _ _ _ _ P), <- emit_app. cbn [mbind option_bind].
    rewrite (each_col_emit _ _ _ _ _ put_byte_emit). cbn [mbind option_bind].
    change (lib_consolePuts t hal_consolePrint co (str "| ") ?w) with (emits [Puts (str "| ")] w).
    rewrite <- emit_app, (each_col_emit _ _ _ _ _ put_char_emit). cbn [mbind option_bind].
    change (lib_consolePutc t hal_consolePrint co 10 ?w) with (emits [Putc 10] w). rewrite <- emit_app.
    assert (A : wa (offs + cols) = offs + 16) by (unfold cols; rewrite wa_small; lia).
    rewrite IH; [|..]; rewrite ?A; unfold cols in *; try lia.
    + do 2 f_equal. unfold row_pieces, row_ptrs. rewrite !map_map, <- !app_assoc. done.
    + intros i I. specialize (L (i + 1) ltac:(lia)). lia.
Qed.

(** *** Reading it *)

Lemma cell_pieces_read c :
  (forall b, c = Byte b -> 0 <= b < 256) ->
  length (text (cell_pieces c)) = 3%nat /\ read_cell (text (cell_pieces c)) = c.
Proof.
  intros B. destruct c as [| |b]; [done..|]. cbn [cell_pieces]. rewrite text_chars.
  split; [done|]. by apply hex2_read, B.
Qed.

Lemma cell_of_byte p b : cell_of p = Byte b -> 0 <= b < 256.
Proof.
  unfold cell_of. destruct (outside start end_ p) eqn:O; [done|]. apply outside_false in O.
  destruct (vis p); [|done]. intros [= <-]. by apply bytes.
Qed.

(** Cells of three characters each are read one by one. *)
Lemma read_cells (l : list Z) rest (pre : list Z) :
  length pre = 13%nat ->
  map (fun i => read_cell (take 3 (drop (13 + 3 * i)
        (pre ++ concat (map (fun p => text (cell_pieces (cell_of p))) l) ++ rest)))) (seq 0 (length l)) =
    map cell_of l.
Proof.
  intros P.
  assert (G : forall (l : list Z) (k : nat) (pre : list Z), length pre = (13 + 3 * k)%nat ->
    map (fun i => read_cell (take 3 (drop (13 + 3 * i)
        (pre ++ concat (map (fun p => text (cell_pieces (cell_of p))) l) ++ rest)))) (seq k (length l)) =
    map cell_of l); [|by apply (G l 0%nat)].
  clear l pre P. induction l as [|p l IH]; intros k pre P; [done|]. cbn [length seq map concat].
  destruct (cell_pieces_read (cell_of p)) as [L R]; [apply cell_of_byte|]. f_equal.
  - rewrite drop_app_length' by done. rewrite <- app_assoc, take_app_length' by done. done.
  - rewrite <- (IH (S k) (pre ++ text (cell_pieces (cell_of p)))) by (rewrite length_app; lia).
    by rewrite <- !app_assoc.
Qed.

Lemma text_concat_map {A} (f : A -> list piece) (l : list A) :
  text (concat (map f l)) = concat (map (fun x => text (f x)) l).
Proof. induction l as [|x l IH]; [done|]. cbn [map concat]. by rewrite text_app, IH. Qed.

Lemma concat_length_const {A} (f : A -> list Z) n l :
  (forall x, length (f x) = n) -> length (concat (map f l)) = (n * length l)%nat.
Proof. intros F. induction l as [|x l IH]; [cbn; lia|]. cbn. rewrite length_app, F, IH. lia. Qed.

Lemma row_read offp offs rest :
  length (text (row_pieces offp offs)) = row_len /\
  read_row (take row_len (text (row_pieces offp offs) ++ rest)) = (w32 offp, map cell_of (row_ptrs offs)).
Proof.
  assert (L : length (text (row_pieces offp offs)) = row_len).
  { unfold row_pieces. rewrite !text_app, text_chars, !text_concat_map, !length_app.
    destruct (label_spec (w32 offp) (w32_range offp)) as (_ & -> & _).
    rewrite (concat_length_const _ 3) by (intros; apply cell_pieces_read, cell_of_byte).
    by rewrite (concat_length_const _ 1) by done. }
  split; [done|]. rewrite take_app_length' by done. unfold read_row, row_pieces.
  destruct (label_spec (w32 offp) (w32_range offp)) as (_ & L13 & LR).
  rewrite !text_app, text_chars, !text_concat_map. f_equal.
  - rewrite take_app_le by (rewrite L13; lia). done.
  - by apply (read_cells (row_ptrs offs)).
Qed.

Lemma dump_length rows offp offs : length (text (dump_pieces rows offp offs)) = (rows * row_len)%nat.
Proof.
  revert offp offs. induction rows as [|rows IH]; intros offp offs; [done|]. cbn [dump_pieces].
  rewrite text_app, length_app, IH. destruct (row_read offp offs []) as [-> _]. done.
Qed.

Lemma dump_read rows offp offs :
  0 <= offs -> offs + Z.of_nat rows * cols < 2 ^ addr_bits ->
  read_dump rows (text (dump_pieces rows offp offs)) =
    map (fun i => (w32 (offp + 16 * i), map cell_of (seqZ (offs + 16 * i) 16))) (seqZ 0 (Z.of_nat rows)).
Proof.
  unfold cols. revert offp offs. induction rows as [|rows IH]; intros offp offs O E; [done|].
  cbn [dump_pieces read_dump]. rewrite text_app.
  destruct (row_read offp offs (text (dump_pieces rows (wa (offp + cols)) (wa (offs + cols))))) as [L R].
  rewrite R, drop_app_length' by done. unfold cols in *.
  rewrite (wa_small (offs + 16)), IH by lia.
  replace (Z.of_nat (S rows)) with (Z.succ (Z.of_nat rows)) by lia.
  rewrite (seqZ_cons 0 (Z.succ _)) by lia. rewrite Z.pred_succ.
  replace (seqZ (Z.succ 0) (Z.of_nat rows)) with (Z.add 1 <$> seqZ 0 (Z.of_nat rows)) by apply fmap_add_seqZ.
  cbn [map]. f_equal.
  - rewrite Z.mul_0_r, !Z.add_0_r.
    replace (seqZ offs 16) with (Z.add offs <$> seqZ 0 16) by (rewrite fmap_add_seqZ; f_equal; lia).
    do 2 f_equal. apply map_ext_in. intros c C%list_elem_of_In%elem_of_seqZ. apply wa_small. unfold cols in C. lia.
  - change (Z.add 1 <$> ?l) with (map (Z.add 1) l). rewrite map_map. apply map_ext_in. intros i I%list_elem_of_In%elem_of_seqZ.
    f_equal; [|by do 2 f_equal; lia]. unfold w32, wa. target_cases; fold_pows; modlia.
Qed.

End dump.

#[export] Instance cell_eq_dec : EqDecision cell.
Proof. solve_decision. Defined.

(** ** The dump of a region *)

Section region.
  Context `{Target} {W : Type} (t : devtab W) (hal_consolePrint : cstr -> W -> W) (co : console W).
  Context (peek : Z -> W -> Z) (validator : option (Z -> Z -> Z -> option bool)).

(** The first row of a dump, and the number of its rows. *)
Definition first_row (align : bool) (a : Z) : Z := if align then a / cols * cols else a.
Definition row_count (align : bool) (start end_ : Z) : Z := (end_ - first_row align start + 15) / 16.

Lemma concat_rows (f : Z -> cell) (o n : Z) :
  0 <= n -> concat (map (fun i => map f (seqZ (o + 16 * i) 16)) (seqZ 0 n)) = map f (seqZ o (16 * n)).
Proof.
  intros N. replace n with (Z.of_nat (Z.to_nat n)) by lia. induction (Z.to_nat n) as [|k IH]; [done|].
  replace (Z.of_nat (S k)) with (Z.of_nat k + 1) by lia.
  rewrite seqZ_app, map_app, concat_app, IH by lia.
  rewrite Z.mul_add_distr_l, (seqZ_app o), map_app by lia. by rewrite Z.add_0_l.
Qed.

Lemma filter_outside (start end_ o m : Z) (g : Z -> cell) :
  o <= start <= end_ -> end_ <= o + m -> (forall p, g p <> Absent) ->
  filter (fun c => c <> Absent) (map (fun p => if outside start end_ p then Absent else g p) (seqZ o m)) =
    map g (seqZ start (end_ - start)).
Proof.
  intros S E G.
  replace m with ((start - o) + ((end_ - start) + (o + m - end_))) by lia.
  rewrite !seqZ_app, !map_app, !filter_app by lia.
  replace (o + (start - o)) with start by lia. replace (start + (end_ - start)) with end_ by lia.
  assert (N : forall l, (forall p, p ∈ l -> outside start end_ p = true) ->
    filter (fun c => c <> Absent) (map (fun p => if outside start end_ p then Absent else g p) l) = []).
  { induction l as [|p l IH]; intros F; [done|]. cbn. rewrite F by left.
    rewrite decide_False by tauto. apply IH. intros q Q. apply F. by right. }
  rewrite (N (seqZ o _)), (N (seqZ end_ _)), app_nil_r; [|intros p P%elem_of_seqZ; unfold outside; lia..].
  cbn [app]. assert (I : forall l, (forall p, p ∈ l -> outside start end_ p = false) ->
    filter (fun c => c <> Absent) (map (fun p => if outside start end_ p then Absent else g p) l) = map g l).
  { clear N. induction l as [|p l IH]; intros F; [done|]. cbn. rewrite F by left.
    rewrite decide_True by apply G. f_equal. apply IH. intros q Q. apply F. by right. }
  apply I. intros p P%elem_of_seqZ. unfold outside. lia.
Qed.

(** A dump can be read back: a region whose last row does not touch the end of the
    address space is shown in rows of sixteen addresses, each under its label (its low 32
    bits), and what is shown of the region is the value of every byte of it, in order,
    or that the byte is hidden. *)
Lemma hexdump_readable fuel start end_ offp align vis w0 :
  0 <= start <= end_ -> first_row align start + 16 * row_count align start end_ < 2 ^ addr_bits ->
  row_count align start end_ < Z.of_nat fuel ->
  0 <= offp < 2 ^ addr_bits ->
  (forall p ps, start <= p < end_ -> peek p (emit t hal_consolePrint co ps w0) = peek p w0) ->
  (forall p, start <= p < end_ -> 0 <= peek p w0 < 256) ->
  (forall p, start <= p < end_ -> hidden validator start end_ p = Some (negb (vis p))) ->
  exists ps,
    lib_consolePutRegionHex t hal_consolePrint peek validator fuel co start end_ offp align w0 =
      Some (emit t hal_consolePrint co ps w0) /\
    length (text ps) = (Z.to_nat (row_count align start end_) * row_len)%nat /\
    let rows := read_dump (Z.to_nat (row_count align start end_)) (text ps) in
    map fst rows = map (fun i => w32 (first_row align offp + 16 * i)) (seqZ 0 (row_count align start end_)) /\
    filter (fun c => c <> Absent) (concat (map snd rows)) =
      map (fun p => if vis p then Byte (peek p w0) else Hidden) (seqZ start (end_ - start)).
Proof.
  intros S R F O quiet bytes valid. set (n := row_count align start end_) in *.
  assert (FO : 0 <= first_row align start <= start) by (unfold first_row, cols; destruct align; modlia).
  assert (N : 0 <= n /\ end_ <= first_row align start + 16 * n /\ forall i, i < n -> first_row align start + i * 16 < end_).
  { unfold n, row_count. split_and!; [modlia|modlia|]. intros i I. modlia. }
  exists (dump_pieces peek start end_ vis w0 (Z.to_nat n) (first_row align offp) (first_row align start)). split.
  - unfold lib_consolePutRegionHex.
    replace (if align then wa (start / cols * cols) else start) with (first_row align start)
      by (unfold first_row in *; destruct align; [rewrite wa_small by lia|]; done).
    replace (if align then wa (offp / cols * cols) else offp) with (first_row align offp)
      by (unfold first_row, cols in *; destruct align; [rewrite wa_small by modlia|]; done).
    apply (hex_loop_emit t hal_consolePrint co peek validator start end_ vis w0 quiet bytes valid
      (Z.to_nat n) fuel (first_row align offp) (first_row align start) []); unfold cols; try lia.
    intros i I. apply N. lia.
  - split; [apply dump_length; done|]. cbv zeta. rewrite dump_read by (try done; unfold cols; lia).
    rewrite Z2Nat.id by lia. rewrite !map_map. cbn [fst snd]. split; [done|].
    rewrite concat_rows by lia. unfold cell_of. apply filter_outside; [lia..|]. intros p. by destruct (vis p).
Qed.

(** In the last sixteen bytes of the address space the loop wraps around: an aligned dump
    that reaches them never ends. *)
Lemma hexdump_endless fuel start end_ offp w :
  2 ^ addr_bits - 16 < end_ -> 0 <= start < 2 ^ addr_bits ->
  lib_consolePutRegionHex t hal_consolePrint peek validator fuel co start end_ offp true w = None.
Proof.
  intros E S. unfold lib_consolePutRegionHex.
  assert (O : 0 <= wa (start / cols * cols) < 2 ^ addr_bits /\ wa (start / cols * cols) mod 16 = 0)
    by (split; [apply wa_range|unfold cols; mlia]).
  revert O. generalize (wa (start / cols * cols)), (wa (offp / cols * cols)). intros offs offp'.
  revert offp' offs w. induction fuel as [|fuel IH]; intros offp' offs w [O M]; [done|]. cbn [hex_loop].
  assert (L : offs < end_) by (target_cases; fold_pows; modlia). rewrite (proj2 (Z.ltb_lt _ _) L).
  assert (O' : 0 <= wa (offs + cols) < 2 ^ addr_bits /\ wa (offs + cols) mod 16 = 0)
    by (split; [apply wa_range|unfold cols; mlia]).
  destruct (print _ _ _ _ _ w) as [w1|]; cbn [mbind option_bind]; [|done].
  destruct (each_col _ _ _ w1) as [w2|]; cbn [mbind option_bind]; [|done].
  destruct (each_col _ _ _ _) as [w3|]; cbn [mbind option_bind]; [|done]. by apply IH.
Qed.

End region.

(** ** Confirmation *)

Section confirm.
  Context {W : Type} (t : devtab W) (hal_consolePrint : cstr -> W -> W) (co : console W).
  Context (timeout : Z).

(** The console gives the characters [cs], one a call, whatever is shown meanwhile; when
    the time runs out the character is 0. *)
Fixpoint typed (cs : list Z) (w : W) : Prop :=
  match cs with
  | [] => True
  | c :: cs => exists r w', lib_consoleGetc t co timeout w = Some (r, c, w') /\
      forall ps, typed cs (emit t hal_consolePrint co ps w')
  end.

Fixpoint confirmed (answer cs : list Z) : Z :=
  match answer, cs with
  | [], _ => 1
  | _, [] => 0
  | a :: answer, c :: cs =>
      if c =? 3 then - EINTR else if a =? c then confirmed answer cs else 0
  end.

Lemma at_drop (s : cstr) pos : at_ s pos = deref (drop pos s).
Proof. unfold at_, deref. rewrite <- (Nat.add_0_r pos) at 1. rewrite <- lookup_drop. by destruct (drop pos s). Qed.

(** A question is answered by as many characters as the answer has, at most: [^C] aborts,
    any other character that is not the next one of the answer is a no, and the answer
    is a yes. *)
Lemma confirm_loop_spec answer fuel pos cs w :
  cstr_ok answer -> (pos < length answer)%nat -> typed cs w ->
  length cs = (length answer - pos)%nat -> (length cs < fuel)%nat ->
  exists w', confirm_loop t hal_consolePrint fuel co answer timeout pos w =
    Some (confirmed (drop pos answer) cs, w').
Proof.
  intros A. revert pos cs w. induction fuel as [|fuel IH]; intros pos cs w P T L F; [lia|].
  destruct cs as [|c cs]; cbn [length] in L; [lia|]. destruct T as (r & w' & G & T).
  destruct (lookup_lt_is_Some_2 answer pos P) as [a LA].
  rewrite (drop_S answer a pos) by done. cbn [confirm_loop confirmed]. rewrite G. cbn [mbind option_bind].
  destruct (c =? 3); [by eexists|].
  assert (NZ : (deref answer =? 0) = false).
  { destruct answer as [|x answer]; [done|]. apply Forall_cons in A as [X _]. unfold deref. cbn.
    apply Z.eqb_neq. lia. }
  rewrite NZ. cbn [negb]. unfold at_ at 1. rewrite LA. cbn [default]. unfold id.
  destruct (Z.eqb_spec a c) as [<-|]; [|by eexists].
  rewrite (at_drop answer (S pos)).
  assert (AC : a <> 0) by (pose proof (Forall_lookup_1 _ _ _ _ A LA); cbn in *; lia).
  change (lib_consolePutc t hal_consolePrint co a w') with (emit t hal_consolePrint co [Putc a] w').
  destruct (drop (S pos) answer) as [|b rest] eqn:D.
  - eexists. unfold deref. cbn. destruct cs; done.
  - assert (B : 0 < b < 256).
    { apply (Forall_drop _ (S pos)) in A. rewrite D in A. by apply Forall_cons in A as [? _]. }
    unfold deref. cbn [head default]. unfold id. rewrite (proj2 (Z.eqb_neq b 0)) by lia. rewrite <- D.
    apply (f_equal length) in D. rewrite length_drop in D. cbn [length] in D, F.
    apply IH; [lia|apply T|lia|lia].
Qed.

(** A yes takes the answer, letter by letter. *)
Lemma confirmed_yes answer cs : confirmed answer cs = 1 -> Forall (fun c => c <> 3) answer -> take (length answer) cs = answer.
Proof.
  revert cs. induction answer as [|a answer IH]; intros cs E F; [done|].
  destruct cs as [|c cs]; [done|]. cbn [confirmed] in E. destruct (c =? 3); [done|].
  destruct (Z.eqb_spec a c) as [<-|]; [|done]. apply Forall_cons in F as [_ F].
  cbn [length take]. f_equal. by apply IH.
Qed.

End confirm.

(** ** A terminal *)

Module terminal.

Record term := mk_term { keys : list Z; screen : list Z }.

Definition term_ops : dev_ops term :=
  {| op_sync := None; op_map := None; op_control := None; op_erase := None;
     op_read := Some (fun _ _ _ _ w =>
       match keys w with
       | [] => ((0, []), w)
       | k :: ks => ((1, [k]), mk_term ks (screen w))
       end);
     op_write := Some (fun _ _ s w => (zlen s, mk_term (keys w) (screen w ++ s))) |}.

Definition term_tab : devtab term :=
  {[ (0, 0) := {| dev_name := None; dev_init := None; dev_done := None; dev_ops_ := Some term_ops |} ]}.

Definition term_co : console term := mk_console true [] 0 0 0 None None.

(** Showing text appends it to the screen. *)
Lemma term_emit ps w :
  emit term_tab (fun _ w => w) term_co ps w = mk_term (keys w) (screen w ++ text ps).
Proof.
  revert w. induction ps as [|p ps IH]; intros w; [cbn; rewrite app_nil_r; by destruct w|].
  change (emit term_tab (fun _ w => w) term_co (p :: ps) w) with
    (emit term_tab (fun _ w => w) term_co ps (show term_tab (fun _ w => w) term_co p w)).
  replace (show term_tab (fun _ w => w) term_co p w) with (mk_term (keys w) (screen w ++ piece_text p))
    by (by destruct p).
  rewrite IH. cbn [keys screen]. by rewrite <- app_assoc.
Qed.

Definition abc (p : Z) (_ : term) : Z := p - 0x1002 + "A"%ch.

Lemma hexdump_readable_witness :
  exists ps, lib_consolePutRegionHex (H := target32) term_tab (fun _ w => w) abc None 3 term_co 0x100e 0x1012 0x100e true
      (mk_term [] []) = Some (emit term_tab (fun _ w => w) term_co ps (mk_term [] [])) /\
    let rows := read_dump (H := target32) 2 (text ps) in
    map fst rows = [0x1000; 0x1010] /\
    filter (fun c => c <> Absent) (concat (map snd rows)) = [Byte "M"%ch; Byte "N"%ch; Byte "O"%ch; Byte "P"%ch].
Proof.
  destruct (hexdump_readable (H := target32) term_tab (fun _ w => w) term_co abc None 3 0x100e 0x1012 0x100e true
    (fun _ => true) (mk_term [] [])) as (ps & E & _ & R & C).
  - lia.
  - reflexivity.
  - reflexivity.
  - split; [lia|reflexivity].
  - reflexivity.
  - unfold abc. intros. cbn. lia.
  - reflexivity.
  - exists ps. split; [exact E|]. split; [exact R|exact C].
Defined.

(** What the screen shows. *)
Example hexdump_shown :
  screen <$> lib_consolePutRegionHex (H := target32) term_tab (fun _ w => w) abc None 3 term_co 0x100e 0x1012 0x100e true
    (mk_term [] []) = Some
  (str "0x00001000 |                                           4d 4e " ++ str "|               MN" ++ [10] ++
   str "0x00001010 | 4f 50                                           " ++ str "| OP              " ++ [10]).
Proof. by vm_compute. Qed.

Example confirm_shown :
  lib_promptConfirm (H := target32) term_tab (fun _ w => w) 10 term_co (str "sure?") (Some (str "YES!")) 10
    (mk_term (str "YES!x") []) = Some (1, mk_term (str "x") (str "sure?YES!")).
Proof. by vm_compute. Qed.

(** A wrong character takes back what was shown of the answer. *)
Example confirm_refused :
  lib_promptConfirm (H := target32) term_tab (fun _ w => w) 10 term_co (str "?") (Some (str "YES!")) 10
    (mk_term (str "YO") []) = Some (0, mk_term [] (str "?Y" ++ [8; 32; 8])).
Proof. by vm_compute. Qed.

Lemma confirm_loop_spec_witness :
  exists w', confirm_loop term_tab (fun _ w => w) 9 term_co (str "YES!") 10 0 (mk_term (str "YES!") []) =
    Some (1, w').
Proof.
  apply (confirm_loop_spec term_tab (fun _ w => w) term_co 10 (str "YES!") 9 0 (str "YES!") (mk_term (str "YES!") [])).
  - repeat constructor.
  - cbn. lia.
  - change (str "YES!") with ["Y"%ch; "E"%ch; "S"%ch; "!"%ch].
    do 4 (do 2 eexists; split; [reflexivity|]; intros ?; rewrite term_emit; cbn [keys]). exact I.
  - reflexivity.
  - cbn. lia.
Defined.

End terminal.
