(* ===== verification/Dump.v ===== *)
(** * The dump command (src/cmds/dump.c)

    Shows memory, or the contents of a device, with the dump of Console.v.  A dump of a
    file is proved to show the bytes of the file, under their offsets, in order. *)

From S2P Require Import Prelude Mem CList CString Devs Msg Phfs Syspage SyspageMaps Getopt Cmd Format PMem Loader App AppLoad RamFile Console.

(** What is shown as an error *)
Definition error_format (fmt : cstr) : cstr := CONSOLE_RED ++ fmt ++ CONSOLE_NORMAL.

Section dump.
  Context `{Target} `{SyspageTypes} `{SyspageHal} {W : Type}.
  Context (t : devtab W) (fuel steps : nat) (smsg rmsg : msg) (gb : garbage).
  Context (hal_consolePrint : cstr -> W -> W) (co : console W) (peek : Z -> W -> Z).

Abbreviation DM := (M (W := W)).

(** An effect on the console. *)
Definition out (f : W -> option W) : DM unit :=
  fun l => match f (ld_w l) with Some w => Some (tt, set_w w l) | None => None end.

Definition say (fmt : cstr) (args : va_list) : DM unit := out (print t hal_consolePrint co fmt args).
Definition log_error (fmt : cstr) (args : va_list) : DM unit := say (error_format fmt) args.

(** [attr] keeps its 0 when no map has the address. *)
Definition region_validator (s : syspage) (start end_ curr : Z) : option bool :=
  attr ← syspage_mapRangeCheck curr curr s;
  Some (match attr with Some a => negb (Z.land a mAttrRead =? 0) | None => false end).

Definition dump_memory (addr length_ : Z) (validate : bool) : DM Z :=
  let end_ := wa (addr + length_) in
  _ ← say (line "Memory dump from 0x%x to 0x%x (%zu bytes):" ++ [10]) [AInt (w32 addr); AInt (w32 end_); asize length_];
  _ ← out (fun w => Some (lib_consolePutHLine t hal_consolePrint co w));
  s ← get ld_sys;
  _ ← out (lib_consolePutRegionHex t hal_consolePrint peek
             (if validate then Some (region_validator s) else None) fuel co addr end_ addr true);
  mret EOK.

(** The loop over the device; [buf] is the buffer at [buf_addr]. *)
Definition buf_size := 256.

Fixpoint dump_loop (k : nat) (buf_addr : Z) (h : handler) (addr length_ : Z) (buf : list Z) (rsz : Z) : DM Z :=
  match k with
  | O => fault
  | S k =>
      let left := wa (length_ - rsz) in
      let chunk := if buf_size <? left then buf_size else left in
      '(res, data) ← ph_read t fuel smsg rmsg h (wa (addr + rsz)) chunk;
      let res := s32 res in
      if res <? 0 then _ ← say (line "Cant read data" ++ [10]) []; mret res
      else
        buf ← lift (mstore buf 0 data);
        _ ← out (lib_consolePutRegionHex t hal_consolePrint (fun p _ => default 0 (buf !! Z.to_nat (p - buf_addr)))
               None fuel co buf_addr (wa (buf_addr + res)) (wa (addr + rsz)) false);
        let rsz := wa (rsz + res) in
        if rsz <? length_ then dump_loop k buf_addr h addr length_ buf rsz
        else _ ← ph_close t h; mret EOK
  end.

(** The second address of the header is computed as a [size_t] and shown as 32 bits. *)
Definition dump_phfs (buf_addr : Z) (devname : cstr) (addr length_ : Z) : DM Z :=
  '(res, h) ← ph_open t fuel smsg rmsg devname None PHFS_OPEN_RAWONLY (g_handler gb);
  if res <? 0 then _ ← say (line "Unable to open phfs device %s" ++ [10]) [AStr (Some devname)]; mret res
  else
    _ ← say (line "Read phfs %s device from 0x%x to 0x%x (%zu bytes):" ++ [10])
          [AStr (Some devname); AInt (w32 addr); AInt (w32 (w32 addr + length_)); asize length_];
    _ ← out (fun w => Some (lib_consolePutHLine t hal_consolePrint co w));
    dump_loop steps buf_addr h addr length_ (g_buff gb) 0.

(** The options: [None] for wrong arguments, otherwise whether to validate, the device
    and the index of the first argument that is no option. *)
Fixpoint dump_options (k : nat) (argv : list cstr) (argn : nat) (validate : bool) (devname : option cstr)
    : option (bool * option cstr * nat) :=
  match k with
  | O => None
  | S k =>
      match argv !! argn with
      | Some a =>
          if at_ a 0 =? "-"%ch then
            if (at_ a 1 =? 0) || negb (at_ a 2 =? 0) then None
            else if at_ a 1 =? "F"%ch then dump_options k argv (S argn) false devname
            else if at_ a 1 =? "r"%ch then
              match argv !! S argn with
              | Some d => dump_options k argv (S (S argn)) validate (Some d)
              | None => None
              end
            else None
          else Some (validate, devname, argn)
      | None => Some (validate, devname, argn)
      end
  end.

(** The range to dump. *)
Definition dump_range (argv : list cstr) (argn : nat) : option (Z * Z) :=
  a ← argv !! argn;
  let '(start, endptr) := lib_strtoul a 0 in
  if negb (deref endptr =? 0) then None
  else
    len ←
      match argv !! S argn with
      | Some a =>
          let '(v, endptr) := lib_strtoul a 0 in
          if negb (deref endptr =? 0) || (v =? 0) then None else Some v
      | None => Some 0x100
      end;
    Some (start, if wa (start + len) <? start then wa (addr_max - start) else len).

Definition cmd_dump (buf_addr : Z) (argv : list cstr) : DM Z :=
  a0 ← lift (argv !! 0%nat);
  match '(validate, devname, argn) ← dump_options (S (length argv)) argv 1 true None;
        '(start, len) ← dump_range argv argn; Some (validate, devname, start, len) with
  | None => _ ← log_error (line "%s: Wrong arguments") [AStr (Some a0)]; mret CMD_EXIT_FAILURE
  | Some (validate, None, start, len) => _ ← dump_memory start len validate; mret CMD_EXIT_SUCCESS
  | Some (validate, Some dev, start, len) => _ ← dump_phfs buf_addr dev start len; mret CMD_EXIT_SUCCESS
  end.

End dump.

(** ** The range *)

Lemma strtoul_loop_range `{Target} base v s v' e :
  0 <= v < 2 ^ addr_bits -> strtoul_loop base v s = (v', e) -> 0 <= v' < 2 ^ addr_bits.
Proof.
  revert v. induction s as [|c s IH]; intros v V E; cbn [strtoul_loop] in E; [by injection E as <- _|].
  destruct (_ || _); [|by injection E as <- _]. destruct (_ <=? _); [by injection E as <- _|].
  by apply IH in E; [|apply wa_range].
Qed.

Lemma lib_strtoul_range `{Target} s base v e : lib_strtoul s base = (v, e) -> 0 <= v < 2 ^ addr_bits.
Proof.
  assert (0 <= 0 < 2 ^ addr_bits) by (pose proof addr_bits_ge32; lia).
  unfold lib_strtoul. repeat destruct (_ && _); try destruct (base =? 0); by apply strtoul_loop_range.
Qed.

(** The range never wraps around. *)
Lemma dump_range_fits `{Target} argv argn start len :
  dump_range argv argn = Some (start, len) -> 0 <= start /\ 0 <= len /\ start + len <= addr_max.
Proof.
  unfold dump_range. destruct (argv !! argn) as [a|]; [|done]. cbn [mbind option_bind].
  destruct (lib_strtoul a 0) as [st e] eqn:Ea. destruct (negb _); [done|].
  destruct (_ : option Z) as [n|] eqn:En; [|done]. cbn [mbind option_bind]. intros [= <- <-].
  assert (St : 0 <= st < 2 ^ addr_bits) by (eapply lib_strtoul_range; exact Ea).
  assert (N : 0 <= n < 2 ^ addr_bits).
  { destruct (argv !! S argn) as [b|]; [|injection En as <-; pose proof addr_bits_ge32; lia].
    destruct (lib_strtoul b 0) as [v e'] eqn:Eb. destruct (_ || _); [done|]. injection En as <-.
    eapply lib_strtoul_range. exact Eb. }
  split; [lia|]. destruct (Z.ltb_spec (wa (st + n)) st) as [L|L]; revert St N L; unfold addr_max, wa; target_cases; fold_pows; intros; modlia.
Qed.

(** ** What a dump of a file shows *)

(** [txt] is a sequence of dumps that show [bs] from the offset [offs] on: each is
    made of rows under the offsets of their first bytes, and read back it gives its
    part of the bytes. *)
Inductive dumped `{Target} : Z -> list Z -> list Z -> Prop :=
| dumped_nil offs : dumped offs [] []
| dumped_chunk offs bs txt rest txt' rows :
    length txt = (rows * row_len)%nat ->
    map fst (read_dump rows txt) = map (fun i => w32 (offs + 16 * i)) (seqZ 0 (Z.of_nat rows)) ->
    filter (fun c => c <> Absent) (concat (map snd (read_dump rows txt))) = map Byte bs ->
    dumped (offs + zlen bs) rest txt' ->
    dumped offs (bs ++ rest) (txt ++ txt').

(** A file that is read while the console shows text: [shown] is what the console has
    shown, in worlds of [inv]. *)
Record DumpSource `{Target} {W} (t : devtab W) (fuel : nat) (smsg rmsg : msg) (hal_consolePrint : cstr -> W -> W)
    (co : console W) (s : phfs_state) (h : handler) (content : list Z) (shown : W -> list Z) (inv : W -> Prop) := {
  ds_read : forall w offs n, inv w -> 0 <= offs < zlen content -> 0 < n <= 256 ->
    exists res w', phfs_read t fuel smsg rmsg s h offs n w = Some (res, zslice offs res content, w') /\
      inv w' /\ shown w' = shown w /\ 0 < res <= n /\ offs + res <= zlen content;
  ds_close : forall w, inv w -> exists r w', phfs_close t s h w = Some (r, w') /\ inv w' /\ shown w' = shown w;
  ds_show : forall w ps, inv w -> inv (emit t hal_consolePrint co ps w) /\
    shown (emit t hal_consolePrint co ps w) = shown w ++ text ps
}.

(** The bytes of the buffer at [b], after [data] has been stored at its start. *)
Lemma buffer_byte (data buf : list Z) b p :
  zlen data <= zlen buf -> b <= p < b + zlen data ->
  splice 0 data buf !! Z.to_nat (p - b) = data !! Z.to_nat (p - b).
Proof.
  intros L P. rewrite lookup_splice by lia.
  destruct (Z.ltb_spec (Z.of_nat (Z.to_nat (p - b))) 0); [lia|].
  destruct (Z.ltb_spec (Z.of_nat (Z.to_nat (p - b))) (0 + zlen data)); [|lia]. f_equal. lia.
Qed.

Lemma buffer_bytes {A} (f : Z -> A) (data buf : list Z) b :
  zlen data <= zlen buf ->
  map (fun p => f (default 0 (splice 0 data buf !! Z.to_nat (p - b)))) (seqZ b (zlen data)) = map f data.
Proof.
  intros L. apply list_eq. intros i. rewrite !list_lookup_fmap.
  destruct (decide (i < length data)%nat) as [I|I].
  - rewrite lookup_seqZ_lt by lia. cbn [fmap option_fmap option_map].
    rewrite buffer_byte by lia. replace (Z.to_nat (b + Z.of_nat i - b)) with i by lia.
    destruct (lookup_lt_is_Some_2 data i I) as [x X]. by rewrite X.
  - rewrite lookup_seqZ_ge by lia. by rewrite lookup_ge_None_2 by lia.
Qed.

Section phfs.
  Context `{Target} `{SyspageTypes} `{SyspageHal} {W : Type}.
  Context (t : devtab W) (fuel : nat) (smsg rmsg : msg) (gb : garbage).
  Context (hal_consolePrint : cstr -> W -> W) (co : console W) (peek : Z -> W -> Z).
  Context (s : phfs_state) (h : handler) (content : list Z) (shown : W -> list Z) (inv : W -> Prop).
  Context (Src : DumpSource t fuel smsg rmsg hal_consolePrint co s h content shown inv).
  Context (Bytes : Forall is_byte content) (Fuel : (17 <= fuel)%nat).

Lemma dump_loop_shows k buf_addr addr len buf rsz (l : loader (W := W)) :
  0 <= buf_addr -> buf_addr + 512 < 2 ^ addr_bits -> zlen buf = buf_size ->
  0 <= addr -> 0 <= rsz < len -> addr + len <= zlen content < 2 ^ addr_bits -> len - rsz < Z.of_nat k ->
  ld_phfs l = s -> inv (ld_w l) ->
  exists w txt, dump_loop t fuel smsg rmsg hal_consolePrint co k buf_addr h addr len buf rsz l = Some (EOK, set_w w l) /\
    inv w /\ shown w = shown (ld_w l) ++ txt /\ dumped (addr + rsz) (zslice (addr + rsz) (len - rsz) content) txt.
Proof.
  intros B0 B1. revert buf rsz l. induction k as [|k IH]; intros buf rsz l LB A0 R Fit K Es I; [lia|].
  unfold buf_size in *. cbn [dump_loop]. unfold buf_size. rewrite !(wa_small (len - rsz)), (wa_small (addr + rsz)) by lia.
  set (n := if 256 <? len - rsz then 256 else len - rsz).
  assert (N : 0 < n <= 256 /\ n <= len - rsz) by (unfold n; destruct (Z.ltb_spec 256 (len - rsz)); lia). clearbody n.
  destruct (ds_read _ _ _ _ _ _ _ _ _ _ _ Src (ld_w l) (addr + rsz) n I) as (res & w1 & E & I1 & S1 & Rg & Fit1); [lia..|].
  rewrite bind_eq. unfold ph_read, world. rewrite Es, E. cbn [mbind option_bind].
  set (data := zslice (addr + rsz) res content).
  assert (LD : zlen data = res) by (apply length_zslice; lia).
  assert (BD : Forall is_byte data) by (by apply Forall_zslice).
  assert (Ed : zslice (addr + rsz) res content = data) by done. clearbody data.
  rewrite (s32_small res) by lia. destruct (Z.ltb_spec res 0); [lia|].
  rewrite mstore_ok by lia. rewrite bind_eq. cbn [lift mret M_ret]. rewrite bind_eq. unfold out.
  rewrite (wa_small (buf_addr + res)) by lia.
  assert (RC : 0 <= row_count false buf_addr (buf_addr + res) <= 16)
    by (clear - Rg N; unfold row_count, first_row; modlia).
  destruct (hexdump_readable t hal_consolePrint co (fun p _ => default 0 (splice 0 data buf !! Z.to_nat (p - buf_addr)))
    None fuel buf_addr (buf_addr + res) (addr + rsz) false (fun _ => true) w1) as (ps & P & L & Lb & Sh).
  - lia.
  - change (first_row false buf_addr) with buf_addr. lia.
  - lia.
  - lia.
  - done.
  - intros p Pr. rewrite buffer_byte by lia.
    destruct (lookup_lt_is_Some_2 data (Z.to_nat (p - buf_addr))) as [b Eb]; [lia|]. rewrite Eb. cbn.
    by apply (Forall_lookup_1 _ _ _ _ BD Eb).
  - done.
  - cbn [ld_w set_w]. rewrite P. replace (buf_addr + res - buf_addr) with (zlen data) in Sh by lia.
    rewrite buffer_bytes in Sh by lia. clear P.
    destruct (ds_show _ _ _ _ _ _ _ _ _ _ _ Src w1 ps I1) as [I2 S2].
    rewrite <- (Z2Nat.id (row_count false buf_addr (buf_addr + res))) in Lb at 2 by lia.
    assert (Chunk : forall rest txt', dumped (addr + rsz + zlen data) rest txt' ->
      dumped (addr + rsz) (data ++ rest) (text ps ++ txt'))
      by (intros; eapply dumped_chunk; [exact L|exact Lb|exact Sh|done]).
    rewrite (wa_small (rsz + res)) by lia. destruct (Z.ltb_spec (rsz + res) len) as [More|Last].
    + destruct (IH (splice 0 data buf) (rsz + res) (set_w (emit t hal_consolePrint co ps w1) (set_w w1 l)))
        as (w' & txt & E' & I' & S' & D); try done; try lia.
      { rewrite length_splice; lia. }
      exists w', (text ps ++ txt). split; [exact E'|]. split; [done|]. split.
      * rewrite S'. cbn [ld_w set_w]. by rewrite S2, S1, app_assoc.
      * replace (len - rsz) with (res + (len - (rsz + res))) by lia. rewrite zslice_app by lia.
        rewrite Ed. apply Chunk. rewrite LD, <- Z.add_assoc. done.
    + destruct (ds_close _ _ _ _ _ _ _ _ _ _ _ Src _ I2) as (r & w3 & Cl & I3 & S3).
      exists w3, (text ps). split.
      { rewrite bind_eq. unfold ph_close, world. cbn [ld_phfs ld_w set_w]. by rewrite Es, Cl. }
      split; [done|]. split; [by rewrite S3, S2, S1|].
      replace (len - rsz) with res by lia. rewrite Ed, <- (app_nil_r data), <- (app_nil_r (text ps)).
      apply Chunk. constructor.
Qed.

(** A dump of a device shows it: the bytes of the range, in order and each under its
    offset; and the command returns. *)
Lemma dump_phfs_shows steps buf_addr devname addr len (l : loader (W := W)) w0 :
  0 <= buf_addr -> buf_addr + 512 < 2 ^ addr_bits -> zlen (g_buff gb) = buf_size ->
  0 <= addr -> 0 < len -> addr + len <= zlen content < 2 ^ addr_bits -> len < Z.of_nat steps ->
  ld_phfs l = s -> phfs_open t fuel smsg rmsg s devname None PHFS_OPEN_RAWONLY (g_handler gb) (ld_w l) = Some (EOK, h, w0) ->
  inv w0 ->
  exists w hdr txt, dump_phfs t fuel steps smsg rmsg gb hal_consolePrint co buf_addr devname addr len l = Some (EOK, set_w w l) /\
    inv w /\ shown w = shown w0 ++ hdr ++ txt /\ dumped addr (zslice addr len content) txt.
Proof.
  intros B0 B1 LB A0 Len Fit K Es Op I. unfold dump_phfs. rewrite bind_eq. unfold ph_open, world.
  rewrite Es, Op. cbn [mbind option_bind]. change (EOK <? 0) with false. cbv iota.
  set (fmt := line "Read phfs %s device from 0x%x to 0x%x (%zu bytes):" ++ [10]).
  set (args := [AStr (Some devname); AInt (w32 addr); AInt (w32 (w32 addr + len)); asize len]).
  destruct (parses_some fmt args) as [cs P]; [by unfold fmt, args; prints|].
  rewrite bind_eq. unfold say, out. cbn [ld_w set_w]. rewrite (print_some _ _ _ _ _ _ _ P), bind_eq, hline_emit.
  cbn [ld_w set_w]. rewrite <- emit_app.
  set (ps := map Putc cs ++ _). destruct (ds_show _ _ _ _ _ _ _ _ _ _ _ Src w0 ps I) as [I1 S1].
  destruct (dump_loop_shows steps buf_addr addr len (g_buff gb) 0
    (set_w (emit t hal_consolePrint co ps w0) (set_w w0 l))) as (w & txt & E & I2 & S2 & D); try done; [lia..|].
  exists w, (text ps), txt. split; [exact E|]. split; [done|]. split.
  - rewrite S2. cbn [ld_w set_w]. by rewrite S1, app_assoc.
  - by rewrite Z.add_0_r, Z.sub_0_r in D.
Qed.

End phfs.

(** ** What a dump of memory shows *)

(** The first map that holds an address, and whether it can be read. *)
Definition map_readable `{SyspageTypes} (ms : list amap) (p : Z) : bool :=
  match head (omap (fun am => if (a_start am <=? p) && (p <? a_end am) then Some (a_attr am) else None) ms) with
  | Some a => negb (Z.land a mAttrRead =? 0)
  | None => false
  end.

Section memory.
  Context `{Target} `{SyspageTypes} `{SyspageHal} {W : Type}.
  Context (t : devtab W) (fuel : nat) (hal_consolePrint : cstr -> W -> W) (co : console W) (peek : Z -> W -> Z).

Lemma region_validator_spec s ms start end_ p :
  sys_at s ms -> region_validator s start end_ p = Some (map_readable ms p).
Proof.
  intros S. unfold region_validator, syspage_mapRangeCheck.
  rewrite (maps_find_spec _ (fun am =>
    if (a_start am <=? p) && (p <? a_end am) then Some (a_attr am) else None) s ms S); [done|].
  intros am m (m' & Em' & A & B & C & _) Em I. rewrite Em in Em'. injection Em' as <-. by rewrite A, B, C.
Qed.

(** A dump of memory that ends before the last sixteen bytes of the address space shows
    every byte of its range in order, but the bytes that lie in no map that can be read,
    which are hidden unless [-F] is given; it changes nothing but the screen. *)
Lemma dump_memory_shows ms addr len validate (l : loader (W := W)) :
  sys_at (ld_sys l) ms -> 0 <= addr -> 0 <= len -> addr + len <= 2 ^ addr_bits - 16 ->
  row_count true addr (addr + len) < Z.of_nat fuel ->
  (forall p ps, addr <= p < addr + len -> peek p (emit t hal_consolePrint co ps (ld_w l)) = peek p (ld_w l)) ->
  (forall p, addr <= p < addr + len -> 0 <= peek p (ld_w l) < 256) ->
  exists hdr ps,
    dump_memory t fuel hal_consolePrint co peek addr len validate l =
      Some (EOK, set_w (emit t hal_consolePrint co (hdr ++ ps) (ld_w l)) l) /\
    let rows := read_dump (Z.to_nat (row_count true addr (addr + len))) (text ps) in
    map fst rows = map (fun i => w32 (first_row true addr + 16 * i)) (seqZ 0 (row_count true addr (addr + len))) /\
    filter (fun c => c <> Absent) (concat (map snd rows)) =
      map (fun p => if negb validate || map_readable ms p then Byte (peek p (ld_w l)) else Hidden) (seqZ addr len).
Proof.
  intros S A L E F Quiet Bytes. unfold dump_memory. pose proof addr_bits_ge32.
  rewrite (wa_small (addr + len)) by lia.
  set (fmt := line "Memory dump from 0x%x to 0x%x (%zu bytes):" ++ [10]).
  set (args := [AInt (w32 addr); AInt (w32 (addr + len)); asize len]).
  destruct (parses_some fmt args) as [cs P]; [by unfold fmt, args; prints|].
  rewrite bind_eq. unfold say, out. rewrite (print_some _ _ _ _ _ _ _ P). rewrite bind_eq, hline_emit.
  cbn [ld_w set_w]. rewrite <- emit_app. set (hdr := map Putc cs ++ _).
  set (w := ld_w l) in *.
  destruct (hexdump_readable t hal_consolePrint co peek (if validate then Some (region_validator (ld_sys l)) else None)
    fuel addr (addr + len) addr true (fun p => negb validate || map_readable ms p)
    (emit t hal_consolePrint co hdr w)) as (ps & R & _ & Lb & Sh).
  - lia.
  - clear - A L E. unfold first_row, row_count, first_row, cols. modlia.
  - done.
  - lia.
  - intros p qs Pr. by rewrite <- emit_app, !Quiet.
  - intros p Pr. rewrite Quiet by done. by apply Bytes.
  - intros p Pr. unfold hidden. destruct validate; [|done]. by rewrite (region_validator_spec _ ms).
  - exists hdr, ps. split.
    + rewrite bind_eq. unfold get. cbn [ld_sys set_w]. rewrite bind_eq. cbn [ld_w set_w]. rewrite R, emit_app. done.
    + cbv zeta in Sh |- *. rewrite Lb, Sh. split; [done|]. replace (addr + len - addr) with len by lia.
      apply map_ext_in. intros p Pr%list_elem_of_In%elem_of_seqZ. rewrite Quiet by lia. done.
Qed.

End memory.

(** ** A terminal and a storage device *)

Module bench.

Definition disk : list Z := map (fun i => w8 (i * 7 + 1)) (seqZ 0 600).

(** A disk that gives at most a hundred bytes a read. *)
Definition disk_ops : dev_ops terminal.term :=
  {| op_sync := None; op_map := None; op_control := None; op_erase := None; op_write := None;
     op_read := Some (fun _ offs n _ w =>
       let res := Z.min (Z.min n 100) (zlen disk - offs) in ((res, zslice offs res disk), w)) |}.

Definition bench_tab : devtab terminal.term :=
  <[(2, 0) := {| dev_name := Some (str "disk"); dev_init := Some (fun _ w => (0, w)); dev_done := Some (fun _ w => (0, w));
                 dev_ops_ := Some disk_ops |}]> terminal.term_tab.

Definition bench_files : phfs_state :=
  (phfs_devReg bench_tab phfs_init (Some (str "disk0")) 2 0 None).2.

Abbreviation co := terminal.term_co.

Lemma bench_emit ps w :
  emit bench_tab (fun _ w => w) co ps w = terminal.mk_term (terminal.keys w) (terminal.screen w ++ text ps).
Proof.
  rewrite <- terminal.term_emit. revert w. induction ps as [|p ps IH]; intros w; [done|].
  change (emit bench_tab (fun _ w => w) co ps (show bench_tab (fun _ w => w) co p w) =
          emit terminal.term_tab (fun _ w => w) co ps (show terminal.term_tab (fun _ w => w) co p w)).
  replace (show bench_tab (fun _ w => w) co p w) with (show terminal.term_tab (fun _ w => w) co p w); [apply IH|].
  by destruct p.
Qed.

Lemma bench_source :
  DumpSource (H := target32) bench_tab 17 sample_msg sample_msg (fun _ w => w) co bench_files (mk_handler 0 id_none)
    disk terminal.screen (fun _ => True).
Proof.
  constructor.
  - intros w offs n _ O N. set (res := Z.min (Z.min n 100) (zlen disk - offs)). exists res, w.
    split; [by vm_compute|]. split; [done|]. split; [done|]. unfold res. lia.
  - intros w _. by do 2 eexists.
  - intros w ps _. by rewrite bench_emit.
Qed.

Definition bench_loader : loader (H1 := sample_hal) (W := terminal.term) :=
  mk_loader (H1 := sample_hal) bench_files (sample_map (str "ram") 0x40000 0x50000) tt ∅ (mk_getopt None 1 1 0 1) 0
    (terminal.mk_term [] []).

(** Three hundred bytes of the disk, shown in pieces of a hundred. *)
Lemma dump_phfs_shows_witness :
  exists w hdr txt, dump_phfs (H := target32) (H1 := sample_hal) bench_tab 17 301 sample_msg sample_msg sample_garbage (fun _ w => w) co
      0x8000 (str "disk0") 64 300 bench_loader = Some (EOK, set_w w bench_loader) /\
    terminal.screen w = hdr ++ txt /\ dumped (H := target32) 64 (zslice 64 300 disk) txt.
Proof.
  destruct (dump_phfs_shows (H := target32) (H1 := sample_hal) bench_tab 17 sample_msg sample_msg sample_garbage (fun _ w => w) co
    bench_files (mk_handler 0 id_none) disk terminal.screen (fun _ => True) bench_source) with
    (steps := 301%nat) (buf_addr := 0x8000) (devname := str "disk0") (addr := 64) (len := 300) (l := bench_loader)
    (w0 := terminal.mk_term [] []) as (w & hdr & txt & E & _ & S & D).
  - apply Forall_fmap, Forall_forall. intros i _. unfold is_byte, w8. cbn. apply Z.mod_pos_bound. lia.
  - lia.
  - lia.
  - reflexivity.
  - reflexivity.
  - lia.
  - lia.
  - split; [by vm_compute|reflexivity].
  - lia.
  - reflexivity.
  - reflexivity.
  - done.
  - exists w, hdr, txt. split; [exact E|]. split; [exact S|exact D].
Defined.

(** A dump that comes within sixteen bytes of the end of the address space does not end,
    and [dump 0xffffff00] is one. *)
Lemma dump_endless fuel steps gb peek a0 :
  cmd_dump (H := target32) (H0 := sample_types) (H1 := sample_hal) bench_tab fuel steps sample_msg sample_msg gb
    (fun _ w => w) co peek a0 [str "dump"; str "0xffffff00"] bench_loader = None.
Proof.
  unfold cmd_dump. rewrite bind_eq. cbn [lookup list_lookup lift mret M_ret].
  change (_ ≫= _) with (Some (true, @None cstr, 0xffffff00, 0xff)) at 1. cbv iota beta. rewrite bind_eq.
  unfold dump_memory. change (wa (H := target32) (0xffffff00 + 0xff)) with 0xffffffff.
  rewrite bind_eq. destruct (say _ _ _ _ _ _) as [[[] l1]|]; [|done].
  rewrite bind_eq. cbn [out]. unfold out at 1. rewrite bind_eq. unfold get at 1. rewrite bind_eq. unfold out.
  rewrite hexdump_endless; [done|by vm_compute|by vm_compute].
Qed.

End bench.
