(* ===== verification/TestDev.v ===== *)
(** * The test of a device (src/cmds/test-dev.c)

    Writes a pattern, synchronises, reads it back and compares.  The command is proved
    to be a sound test: when it reports success without erasing the device, the device
    holds the pattern; and a device without faults passes. *)

From S2P Require Import Prelude Mem CList CString Devs Msg Phfs Syspage SyspageMaps Getopt Cmd PMem RamDrv Loader App AppLoad RamFile.

Definition TEST_DEV_TIMEOUT_MS := 500.
Definition ERASE_BEFORE := 1.
Definition ERASE_AFTER := 2.
Definition BUF_SIZE := 257.

Section testdev.
  Context `{Target} `{SyspageTypes} `{SyspageHal} {W : Type} (t : devtab W).

(** The loops run at most [steps] times; the buffer is a static one. *)
Context (steps : nat).

(** [min((length - rsz), buflen)] *)
Definition chunk_of (length_ rsz : Z) : Z := Z.min (wa (length_ - rsz)) BUF_SIZE.

(** The bytes [(rsz + i) & 0xffu] for [i] below [n]. *)
Definition pattern (rsz n : Z) : list Z := map (fun i => Z.land (wa (rsz + i)) 0xff) (seqZ 0 n).

Fixpoint testDevWrite_loop (k : nat) (major minor addr length_ rsz : Z) (buf : list Z) (w : W)
    : option (Z * list Z * W) :=
  match k with
  | O => None
  | S k =>
      if rsz <? length_ then
        let chunk := chunk_of length_ rsz in
        buf ← mstore buf 0 (pattern rsz chunk);
        data ← mbytes buf 0 chunk;
        let '(res, w) := devs_write t major minor (wa (addr + rsz)) data w in
        if res <? 0 then Some (s32 res, buf, w)
        else testDevWrite_loop k major minor addr length_ (wa (rsz + res)) buf w
      else Some (EOK, buf, w)
  end.

Definition cmd_testDevWrite (major minor addr length_ : Z) (buf : list Z) (w : W) : option (Z * list Z * W) :=
  testDevWrite_loop steps major minor addr length_ 0 buf w.

(** What is read is shown. *)
Fixpoint testDevRead_loop (k : nat) (major minor addr length_ rsz : Z) (buf : list Z) (w : W)
    : option (Z * list Z * W) :=
  match k with
  | O => None
  | S k =>
      if rsz <? length_ then
        let '((res, data), w) := devs_read t major minor (wa (addr + rsz)) (chunk_of length_ rsz) TEST_DEV_TIMEOUT_MS w in
        buf ← mstore buf 0 data;
        if res <? 0 then Some (s32 res, buf, w)
        else testDevRead_loop k major minor addr length_ (wa (rsz + res)) buf w
      else Some (EOK, buf, w)
  end.

Definition cmd_testDevRead (major minor addr length_ : Z) (buf : list Z) (w : W) : option (Z * list Z * W) :=
  testDevRead_loop steps major minor addr length_ 0 buf w.

Definition cmd_testDevErase (major minor addr length_ : Z) (w : W) : Z * W :=
  let '(res, w) := devs_erase t major minor addr length_ 0 w in
  (if res <? 0 then - EINVAL else EOK, w).

(** The comparison takes the whole chunk that was asked for. *)
Fixpoint testDevCheck_loop (k : nat) (major minor addr length_ rsz : Z) (buf : list Z) (w : W)
    : option (Z * list Z * W) :=
  match k with
  | O => None
  | S k =>
      if rsz <? length_ then
        let chunk := chunk_of length_ rsz in
        let '((res, data), w) := devs_read t major minor (wa (addr + rsz)) chunk TEST_DEV_TIMEOUT_MS w in
        buf ← mstore buf 0 data;
        if res <? 0 then Some (s32 res, buf, w)
        else
          bs ← mbytes buf 0 chunk;
          if negb (bool_decide (bs = pattern rsz chunk)) then Some (-1, buf, w)
          else testDevCheck_loop k major minor addr length_ (wa (rsz + res)) buf w
      else Some (EOK, buf, w)
  end.

Definition cmd_testDevCheck (major minor addr length_ : Z) (buf : list Z) (w : W) : option (Z * list Z * W) :=
  testDevCheck_loop steps major minor addr length_ 0 buf w.

(** An erase on the way out, whose result is dropped. *)
Definition erase_after (erase major minor addr length_ : Z) (w : W) : W :=
  if negb (Z.land erase ERASE_AFTER =? 0) then (cmd_testDevErase major minor addr length_ w).2 else w.

(** The echo flag that is set first only controls output. *)
Definition cmd_doTestDev (major minor addr length_ erase : Z) (buf : list Z) (w : W) : option (Z * list Z * W) :=
  if devs_check t major minor <? 0 then Some (- EINVAL, buf, w)
  else
    let '(res, w) :=
      if negb (Z.land erase ERASE_BEFORE =? 0) then cmd_testDevErase major minor addr length_ w else (EOK, w) in
    if res <? 0 then Some (res, buf, w)
    else
      '(res, buf, w) ← cmd_testDevWrite major minor addr length_ buf w;
      if res <? 0 then Some (res, buf, erase_after erase major minor addr length_ w)
      else
        let '(res, w) := devs_sync t major minor w in
        if res <? 0 then Some (s32 res, buf, erase_after erase major minor addr length_ w)
        else
          '(res, buf, w) ← cmd_testDevCheck major minor addr length_ buf w;
          if res <? 0 then
            '(_, buf, w) ← cmd_testDevRead major minor addr length_ buf w;
            Some (res, buf, erase_after erase major minor addr length_ w)
          else if negb (Z.land erase ERASE_AFTER =? 0) then
            let '(res, w) := cmd_testDevErase major minor addr length_ w in
            Some (if res <? 0 then res else EOK, buf, w)
          else Some (EOK, buf, w).

(** The options; [None] for wrong ones. *)
Record test_opts := mk_test_opts {
  to_major : Z; to_minor : Z; to_erase : Z; to_start : Z; to_length : Z
}.

Fixpoint test_options (k : nat) (argv : list cstr) (o : test_opts) : M (W := W) (option test_opts) :=
  match k with
  | O => fault
  | S k =>
      g ← get ld_getopt;
      '(c, g) ← lift (lib_getopt argv (str "eEd:s:l:") g);
      _ ← upd (set_getopt g);
      let '(mk_test_opts ma mi er st le) := o in
      if c <? 0 then mret (Some o)
      else if c =? "e"%ch then test_options k argv (mk_test_opts ma mi (Z.lor er ERASE_BEFORE) st le)
      else if c =? "E"%ch then test_options k argv (mk_test_opts ma mi (Z.lor er ERASE_AFTER) st le)
      else if c =? "d"%ch then
        a ← lift (optarg g);
        let '(ma, e) := lib_strtoul a 0 in
        if negb (deref e =? "."%ch) then mret None
        else
          let '(mi, e) := lib_strtoul (tail e) 0 in
          if negb (deref e =? 0) then mret None
          else test_options k argv (mk_test_opts (s32 ma) (s32 mi) er st le)
      else if c =? "s"%ch then
        a ← lift (optarg g);
        let '(st, e) := lib_strtoul a 0 in
        if negb (deref e =? 0) then mret None else test_options k argv (mk_test_opts ma mi er st le)
      else if c =? "l"%ch then
        a ← lift (optarg g);
        let '(le, e) := lib_strtoul a 0 in
        if negb (deref e =? 0) || (le =? 0) then mret None else test_options k argv (mk_test_opts ma mi er st le)
      else mret None
  end.

(** The checks of the options. *)
Definition test_opts_ok (o : test_opts) : bool :=
  negb (to_major o =? -1) && negb (to_length o =? addr_max) && negb (wa (to_start o + to_length o) <? to_start o).

(** The device numbers are passed on as unsigned integers; [buf] is what the buffer
    held before. *)
Definition cmd_testDev (buf : list Z) (argv : list cstr) : M (W := W) Z :=
  o ← test_options (S (length (concat argv))) argv (mk_test_opts (-1) (-1) 0 0 addr_max);
  match o with
  | None => mret CMD_EXIT_FAILURE
  | Some o =>
      if negb (test_opts_ok o) then mret CMD_EXIT_FAILURE
      else
        err ← world (fun _ w =>
          '(err, _, w) ← cmd_doTestDev (w32 (to_major o)) (w32 (to_minor o)) (to_start o) (to_length o) (to_erase o) buf w;
          Some (err, w));
        mret (if err <? 0 then CMD_EXIT_FAILURE else CMD_EXIT_SUCCESS)
  end.

End testdev.

(** ** The pattern *)

Section patterns.
  Context `{Target}.

Lemma pattern_eq rsz n :
  0 <= rsz -> rsz + n <= 2 ^ addr_bits -> pattern rsz n = map (fun i => (rsz + i) mod 256) (seqZ 0 n).
Proof.
  intros R N. apply map_ext_in. intros i I%list_elem_of_In%elem_of_seqZ. rewrite wa_small by lia.
  change 0xff with (Z.ones 8). by rewrite Z.land_ones by lia.
Qed.

Lemma pattern_length rsz n : 0 <= n -> zlen (pattern rsz n) = n.
Proof. intros N. unfold pattern. rewrite length_map, length_seqZ. lia. Qed.

Lemma pattern_lookup rsz n i :
  0 <= rsz -> rsz + n <= 2 ^ addr_bits -> 0 <= i < n -> pattern rsz n !! Z.to_nat i = Some ((rsz + i) mod 256).
Proof.
  intros R N I. rewrite pattern_eq by done. rewrite list_lookup_fmap, lookup_seqZ_lt by lia.
  cbn. do 2 f_equal. lia.
Qed.

End patterns.

(** ** A test that is passed *)

Section sound.
  Context `{Target} {W : Type} (t : devtab W) (major minor : Z) (view : W -> Z -> Z) (inv : W -> Prop).

(** Reads that tell the truth: they fail, or give some of the bytes of the device, which
    [view] is. *)
Definition honest_reads : Prop :=
  forall w offs n res data w', inv w -> 0 <= offs -> 0 < n <= BUF_SIZE -> offs + n <= addr_max ->
    devs_read t major minor offs n TEST_DEV_TIMEOUT_MS w = ((res, data), w') ->
    inv w' /\ (forall x, view w' x = view w x) /\
    (- 2 ^ 31 <= res < 0 \/ 0 <= res <= n /\ data = map (view w) (seqZ offs res)).

Context (Honest : honest_reads).

Lemma chunk_range length_ rsz :
  0 <= rsz < length_ -> length_ < 2 ^ addr_bits ->
  0 < chunk_of length_ rsz <= BUF_SIZE /\ chunk_of length_ rsz <= length_ - rsz.
Proof. intros R L. unfold chunk_of, BUF_SIZE. rewrite wa_small by lia. lia. Qed.

Lemma check_sound k addr length_ rsz buf w r buf' w' :
  0 <= addr -> 0 <= length_ -> addr + length_ <= addr_max -> 0 <= rsz -> zlen buf = BUF_SIZE -> inv w ->
  testDevCheck_loop t k major minor addr length_ rsz buf w = Some (r, buf', w') -> 0 <= r ->
  inv w' /\ (forall x, view w' x = view w x) /\
  forall i, rsz <= i < length_ -> view w (addr + i) = i mod 256.
Proof.
  intros A L F. revert rsz buf w. induction k as [|k IH]; intros rsz buf w R B I E Pos; [done|].
  cbn [testDevCheck_loop] in E. destruct (Z.ltb_spec rsz length_) as [Lt|Ge].
  2: { injection E as <- <- <-. split; [done|]. split; [done|]. lia. }
  assert (LB : length_ < 2 ^ addr_bits) by (unfold addr_max in F; lia).
  pose proof (chunk_range length_ rsz ltac:(lia) LB) as [C1 C2]. set (n := chunk_of length_ rsz) in *. clearbody n.
  rewrite (wa_small (addr + rsz)) in E by (unfold addr_max in F; lia).
  destruct (devs_read t major minor (addr + rsz) n _ w) as [[res data] w1] eqn:Rd.
  destruct (Honest w (addr + rsz) n res data w1 I ltac:(lia) C1 ltac:(lia) Rd) as (I1 & V1 & [Neg|[Rg ->]]).
  { destruct (mstore buf 0 data); cbn [mbind option_bind] in E; [|done].
    destruct (Z.ltb_spec res 0); [|lia]. injection E as E _ _. rewrite s32_neg in E by lia. lia. }
  set (data := map (view w) (seqZ (addr + rsz) res)) in *.
  assert (LD : zlen data = res) by (unfold data; rewrite length_map, length_seqZ; lia).
  rewrite mstore_ok in E by lia. cbn [mbind option_bind] in E.
  destruct (Z.ltb_spec res 0); [lia|].
  rewrite mbytes_ok in E by (rewrite ?length_splice; lia). cbn [mbind option_bind] in E.
  destruct (bool_decide_reflect (zslice 0 n (splice 0 data buf) = pattern rsz n)) as [P|]; [|cbn in E; injection E as <- _ _; lia].
  cbn [negb] in E. rewrite (wa_small (rsz + res)) in E by lia.
  apply IH in E as (I' & V' & G); [|lia|rewrite length_splice; lia|done|done].
  split; [done|]. split; [intros x; by rewrite V', V1|]. intros i Ri.
  destruct (decide (i < rsz + res)) as [Lo|Hi]; [|rewrite <- V1; apply G; lia].
  apply (f_equal (fun l => l !! Z.to_nat (i - rsz))) in P.
  rewrite pattern_lookup, lookup_zslice, lookup_splice in P by lia.
  destruct (Z.ltb_spec (Z.of_nat (Z.to_nat (i - rsz))) n); [|lia].
  destruct (Z.ltb_spec (Z.of_nat (Z.to_nat 0 + Z.to_nat (i - rsz))) 0); [lia|].
  destruct (Z.ltb_spec (Z.of_nat (Z.to_nat 0 + Z.to_nat (i - rsz))) (0 + zlen data)); [|lia].
  unfold data in P. rewrite list_lookup_fmap, lookup_seqZ_lt in P by lia. cbn in P. injection P as P.
  transitivity ((rsz + (i - rsz)) mod 256); [rewrite <- P; f_equal; lia|f_equal; lia].
Qed.

(** What the writes, the erase and the synchronisation do keeps the device in the worlds
    whose reads are honest. *)
Context (kept_write : forall w offs data, inv w -> inv (devs_write t major minor offs data w).2).
Context (kept_erase : forall w offs n, inv w -> inv (devs_erase t major minor offs n 0 w).2).
Context (kept_sync : forall w, inv w -> inv (devs_sync t major minor w).2 /\ - 2 ^ 31 <= (devs_sync t major minor w).1).

Lemma write_kept k addr length_ rsz buf w r buf' w' :
  zlen buf = BUF_SIZE -> inv w -> testDevWrite_loop t k major minor addr length_ rsz buf w = Some (r, buf', w') ->
  zlen buf' = BUF_SIZE /\ inv w'.
Proof.
  revert rsz buf w. induction k as [|k IH]; intros rsz buf w B I E; [done|]. cbn [testDevWrite_loop] in E.
  destruct (rsz <? length_); [|by injection E as _ <- <-].
  destruct (mstore buf 0 _) as [buf1|] eqn:M; cbn [mbind option_bind] in E; [|done].
  apply mstore_Some in M as (_ & M & ->). destruct (mbytes _ _ _) as [data|]; cbn [mbind option_bind] in E; [|done].
  pose proof (kept_write w (wa (addr + rsz)) data I) as I1.
  destruct (devs_write t major minor (wa (addr + rsz)) data w) as [res w1].
  destruct (res <? 0).
  - injection E as _ <- <-. split; [rewrite length_splice; lia|done].
  - apply IH in E; [done|rewrite length_splice; lia|done].
Qed.

(** A device that passes the test, without being erased afterwards, holds the pattern:
    whatever the device did, the byte [i] of the range is [i] modulo 256. *)
Lemma testdev_sound steps addr length_ erase buf w buf' w' :
  0 <= addr -> 0 <= length_ -> addr + length_ <= addr_max -> zlen buf = BUF_SIZE -> inv w ->
  Z.land erase ERASE_AFTER = 0 ->
  cmd_doTestDev t steps major minor addr length_ erase buf w = Some (EOK, buf', w') ->
  inv w' /\ forall i, 0 <= i < length_ -> view w' (addr + i) = i mod 256.
Proof.
  intros A L F B I NE E. unfold cmd_doTestDev in E. destruct (_ <? 0); [done|].
  assert (X : exists r1 w1, (if negb (Z.land erase ERASE_BEFORE =? 0) then cmd_testDevErase t major minor addr length_ w
    else (EOK, w)) = (r1, w1) /\ inv w1 /\ (r1 = - EINVAL \/ r1 = EOK)).
  { destruct (negb _); [|exists EOK, w; auto]. unfold cmd_testDevErase. pose proof (kept_erase w addr length_ I) as I1.
    destruct (devs_erase _ _ _ _ _ _ _) as [r w1]. destruct (r <? 0); do 2 eexists; (split; [reflexivity|]); auto. }
  destruct X as (r1 & w1 & X & I1 & R1). rewrite X in E. clear X.
  destruct R1 as [-> | ->]; [done|]. change (EOK <? 0) with false in E. cbv iota in E.
  destruct (cmd_testDevWrite _ _ _ _ _ _ _ _) as [[[r2 buf2] w2]|] eqn:Wr; cbn [mbind option_bind] in E; [|done].
  apply write_kept in Wr as [B2 I2]; [|done..].
  destruct (Z.ltb_spec r2 0); [injection E as -> _ _; unfold EOK in *; lia|].
  pose proof (kept_sync w2 I2) as [I3 R3]. destruct (devs_sync t major minor w2) as [r3 w3]. cbn [fst snd] in I3, R3.
  destruct (Z.ltb_spec r3 0) as [Neg|_].
  { injection E as E _ _. rewrite s32_neg in E by lia. unfold EOK in E. lia. }
  destruct (cmd_testDevCheck _ _ _ _ _ _ _ _) as [[[r4 buf4] w4]|] eqn:Ck; cbn [mbind option_bind] in E; [|done].
  destruct (Z.ltb_spec r4 0).
  { destruct (cmd_testDevRead _ _ _ _ _ _ _ _) as [[[r5 buf5] w5]|]; cbn [mbind option_bind] in E; [|done].
    injection E as -> _ _. unfold EOK in *. lia. }
  rewrite NE in E. cbn [negb Z.eqb] in E. injection E as <- <-.
  apply check_sound in Ck as (I4 & V4 & G); [|done..]. split; [done|]. intros i Ri. rewrite V4. by apply G.
Qed.

End sound.

(** ** A device that works *)

(** The bytes [lo, hi) of a device without faults, which [view] shows: a write stores its
    bytes and no others, a read gives all that is asked for. *)
Record DeviceBank `{Target} {W} (t : devtab W) (major minor lo hi : Z) (view : W -> Z -> Z) (inv : W -> Prop) := {
  db_check : devs_check t major minor = EOK;
  db_write : forall w offs data, inv w -> lo <= offs -> offs + zlen data <= hi -> data <> [] ->
    exists w', devs_write t major minor offs data w = (zlen data, w') /\ inv w' /\
      forall x, view w' x = if (offs <=? x) && (x <? offs + zlen data) then default 0 (data !! Z.to_nat (x - offs)) else view w x;
  db_read : forall w offs n timeout, inv w -> lo <= offs -> 0 < n -> offs + n <= hi ->
    exists w', devs_read t major minor offs n timeout w = ((n, map (view w) (seqZ offs n)), w') /\ inv w' /\
      forall x, view w' x = view w x;
  db_sync : forall w, inv w -> exists r w', devs_sync t major minor w = (r, w') /\ 0 <= r /\ inv w' /\
      forall x, view w' x = view w x
}.

Section complete.
  Context `{Target} {W : Type} (t : devtab W) (major minor lo hi : Z) (view : W -> Z -> Z) (inv : W -> Prop).
  Context (Bank : DeviceBank t major minor lo hi view inv).
  Context (addr length_ : Z) (Lo : 0 <= lo <= addr) (Hi : addr + length_ <= hi) (Fit : hi <= addr_max).

Lemma write_complete k rsz buf w :
  0 <= rsz <= length_ -> length_ - rsz < Z.of_nat k -> zlen buf = BUF_SIZE -> inv w ->
  exists buf' w', testDevWrite_loop t k major minor addr length_ rsz buf w = Some (EOK, buf', w') /\
    zlen buf' = BUF_SIZE /\ inv w' /\
    forall x, view w' x = if (addr + rsz <=? x) && (x <? addr + length_) then (x - addr) mod 256 else view w x.
Proof.
  revert rsz buf w. induction k as [|k IH]; intros rsz buf w R K B I; [lia|]. cbn [testDevWrite_loop].
  destruct (Z.ltb_spec rsz length_) as [Lt|Ge].
  2: { exists buf, w. split; [done|]. split; [done|]. split; [done|]. intros x.
       destruct (Z.leb_spec (addr + rsz) x), (Z.ltb_spec x (addr + length_)); try done. lia. }
  assert (LB : length_ < 2 ^ addr_bits) by (unfold addr_max in Fit; lia).
  pose proof (chunk_range length_ rsz ltac:(lia) LB) as [C1 C2]. set (n := chunk_of length_ rsz) in *. clearbody n.
  rewrite (wa_small (addr + rsz)) by (unfold addr_max in Fit; lia).
  pose proof (pattern_length rsz n ltac:(lia)) as LP.
  rewrite mstore_ok by lia. cbn [mbind option_bind].
  rewrite mbytes_ok by (rewrite ?length_splice; lia). cbn [mbind option_bind].
  rewrite zslice_splice_same by lia.
  destruct (db_write _ _ _ _ _ _ _ Bank w (addr + rsz) (pattern rsz n)) as (w1 & E & I1 & V1);
    [done|lia|lia|by intros X; rewrite X in LP; cbn in LP; lia|].
  rewrite E, LP in *. destruct (Z.ltb_spec n 0); [lia|]. rewrite (wa_small (rsz + n)) by lia.
  destruct (IH (rsz + n) (splice 0 (pattern rsz n) buf) w1) as (buf' & w' & E' & B' & I' & V');
    [lia|lia|rewrite length_splice; lia|done|].
  exists buf', w'. split; [exact E'|]. split; [done|]. split; [done|]. intros x. rewrite V', V1.
  destruct (Z.leb_spec (addr + (rsz + n)) x), (Z.ltb_spec x (addr + length_)), (Z.leb_spec (addr + rsz) x),
    (Z.ltb_spec x (addr + rsz + n)); try lia; try done; cbn [andb].
  rewrite pattern_lookup by lia. cbn. f_equal. lia.
Qed.

Lemma check_complete k rsz buf w :
  0 <= rsz <= length_ -> length_ - rsz < Z.of_nat k -> zlen buf = BUF_SIZE -> inv w ->
  (forall i, rsz <= i < length_ -> view w (addr + i) = i mod 256) ->
  exists buf' w', testDevCheck_loop t k major minor addr length_ rsz buf w = Some (EOK, buf', w') /\
    inv w' /\ forall x, view w' x = view w x.
Proof.
  revert rsz buf w. induction k as [|k IH]; intros rsz buf w R K B I P; [lia|]. cbn [testDevCheck_loop].
  destruct (Z.ltb_spec rsz length_) as [Lt|Ge]; [|by exists buf, w].
  assert (LB : length_ < 2 ^ addr_bits) by (unfold addr_max in Fit; lia).
  pose proof (chunk_range length_ rsz ltac:(lia) LB) as [C1 C2]. set (n := chunk_of length_ rsz) in *. clearbody n.
  rewrite (wa_small (addr + rsz)) by (unfold addr_max in Fit; lia).
  destruct (db_read _ _ _ _ _ _ _ Bank w (addr + rsz) n TEST_DEV_TIMEOUT_MS) as (w1 & E & I1 & V1); [done|lia..|].
  rewrite E. set (data := map (view w) (seqZ (addr + rsz) n)).
  assert (LD : zlen data = n) by (unfold data; rewrite length_map, length_seqZ; lia).
  rewrite mstore_ok by lia. cbn [mbind option_bind]. destruct (Z.ltb_spec n 0); [lia|].
  rewrite mbytes_ok by (rewrite ?length_splice; lia). cbn [mbind option_bind].
  rewrite zslice_splice_same by lia.
  assert (D : data = pattern rsz n).
  { rewrite pattern_eq by lia. unfold data.
    replace (seqZ (addr + rsz) n) with (map (Z.add (addr + rsz)) (seqZ 0 n))
      by (etransitivity; [apply (fmap_add_seqZ (addr + rsz) 0 n)|f_equal; lia]).
    rewrite map_map. apply map_ext_in. intros i Ri%list_elem_of_In%elem_of_seqZ.
    replace (addr + rsz + i) with (addr + (rsz + i)) by lia. apply P. lia. }
  rewrite D, bool_decide_true by done. cbn [negb]. rewrite (wa_small (rsz + n)) by lia.
  rewrite D in LD. destruct (IH (rsz + n) (splice 0 (pattern rsz n) buf) w1) as (buf' & w' & E' & I' & V');
    [lia|lia|rewrite length_splice; lia|done| |].
  - intros i Ri. rewrite V1. apply P. lia.
  - exists buf', w'. split; [exact E'|]. split; [done|]. intros x. by rewrite V'.
Qed.

(** A device without faults passes the test, and afterwards it holds the pattern in the
    range, and what it held before everywhere else. *)
Lemma testdev_complete steps buf w :
  0 <= length_ < Z.of_nat steps -> zlen buf = BUF_SIZE -> inv w ->
  exists buf' w', cmd_doTestDev t steps major minor addr length_ 0 buf w = Some (EOK, buf', w') /\ inv w' /\
    forall x, view w' x = if (addr <=? x) && (x <? addr + length_) then (x - addr) mod 256 else view w x.
Proof.
  intros L B I. unfold cmd_doTestDev. rewrite (db_check _ _ _ _ _ _ _ Bank). change (EOK <? 0) with false. cbv iota.
  change (negb (Z.land 0 ERASE_BEFORE =? 0)) with false. cbv iota. change (EOK <? 0) with false. cbv iota.
  destruct (write_complete steps 0 buf w) as (buf1 & w1 & E1 & B1 & I1 & V1); [lia|lia|done|done|].
  unfold cmd_testDevWrite. rewrite E1. cbn [mbind option_bind]. change (EOK <? 0) with false. cbv iota.
  destruct (db_sync _ _ _ _ _ _ _ Bank w1 I1) as (r & w2 & E2 & R2 & I2 & V2). rewrite E2.
  destruct (Z.ltb_spec r 0); [lia|].
  destruct (check_complete steps 0 buf1 w2) as (buf3 & w3 & E3 & I3 & V3); [lia|lia|done|done| |].
  - intros i Ri. rewrite V2, V1. destruct (Z.leb_spec (addr + 0) (addr + i)), (Z.ltb_spec (addr + i) (addr + length_)); try lia.
    cbn [andb]. f_equal. lia.
  - unfold cmd_testDevCheck. rewrite E3. cbn [mbind option_bind]. change (EOK <? 0) with false. cbv iota.
    change (negb (Z.land 0 ERASE_AFTER =? 0)) with false. cbv iota. exists buf3, w3. split; [done|]. split; [done|].
    intros x. by rewrite V3, V2, V1, Z.add_0_r.
Qed.

End complete.

(** ** The RAM disk passes *)

Lemma ram_access off size :
  0 <= off -> 0 < size -> off + size <= 0x8000000 ->
  ramdrv_isValidAddress (H := target32) (H0 := sample_ram) 0 off size = true.
Proof.
  intros O S F. rewrite ramdrv_valid by (done || lia). change (RAM_BANK_SIZE (RamConfig := sample_ram)) with 0x8000000.
  destruct (Z.ltb_spec off 0x8000000), (Z.leb_spec (off + size) 0x8000000); done || lia.
Qed.

Lemma ram_bank :
  DeviceBank (H := target32) ram_tab 4 0 0 0x8000000 (fun m x => m (0x8000000 + x)) (fun _ => True).
Proof.
  constructor.
  - reflexivity.
  - intros m offs data _ L F N. assert (D : 0 < zlen data) by (destruct data; [done|cbn; lia]).
    exists (mem_write (0x8000000 + offs) data m).
    change (devs_write ram_tab 4 0 offs data m) with (ramdrv_write (H := target32) (H0 := sample_ram) 0 offs data m).
    unfold ramdrv_write. rewrite ram_access by lia. change (ramdrv_isValidMinor 0) with true. cbn [negb orb].
    change (fst (ramParams 0)) with 0x8000000.
    assert (P : 2 ^ addr_bits (Target := target32) = 4294967296) by done.
    rewrite (sa_small31 (zlen data)), (wa_small (0x8000000 + offs)) by lia. split; [done|]. split; [done|].
    intros x. destruct (Z.leb_spec offs x), (Z.ltb_spec x (offs + zlen data)); cbn [andb];
      try (apply mem_write_out; lia).
    assert (W : Some (mem_write (0x8000000 + offs) data m (0x8000000 + x)) = data !! Z.to_nat (x - offs))
      by (rewrite mem_write_in by lia; do 2 f_equal; lia).
    by rewrite <- W.
  - intros m offs n tm _ L N F. exists m.
    change (devs_read ram_tab 4 0 offs n tm m) with (ramdrv_read (H := target32) (H0 := sample_ram) 0 offs n tm m).
    unfold ramdrv_read. rewrite ram_access by lia. change (ramdrv_isValidMinor 0) with true. cbn [andb].
    change (fst (ramParams 0)) with 0x8000000.
    assert (P : 2 ^ addr_bits (Target := target32) = 4294967296) by done.
    rewrite (sa_small31 n), (wa_small (0x8000000 + offs)) by lia. split; [|done]. do 2 f_equal.
    apply list_eq. intros i. rewrite lookup_mem_read, list_lookup_fmap.
    destruct (Z.ltb_spec (Z.of_nat i) n).
    + rewrite lookup_seqZ_lt by lia. cbn. do 2 f_equal. lia.
    + by rewrite lookup_seqZ_ge by lia.
  - intros m _. by exists 0, m.
Qed.

Lemma testdev_complete_witness :
  exists buf' m', cmd_doTestDev (H := target32) ram_tab 1001 4 0 0x300 1000 0 (replicate 257 0) (fun _ => 9) =
      Some (EOK, buf', m') /\ m' 0x8000308 = 8 /\ m' 0x8000700 = 9.
Proof.
  destruct (testdev_complete (H := target32) ram_tab 4 0 0 0x8000000 (fun m x => m (0x8000000 + x)) (fun _ => True) ram_bank
    0x300 1000 ltac:(lia) ltac:(lia) ltac:(by vm_compute) 1001 (replicate 257 0) (fun _ => 9)) as (b & m & E & _ & V).
  - lia.
  - reflexivity.
  - done.
  - exists b, m. split; [exact E|]. split; [exact (V 0x308)|exact (V 0x700)].
Defined.


(** ** A device that answers in parts *)

Module parts_device.

(** An array of bytes that gives at most [n] bytes a read. *)
Definition part_ops (n : Z) : dev_ops (list Z) :=
  {| op_sync := Some (fun _ w => (EOK, w)); op_map := None; op_control := None; op_erase := None;
     op_write := Some (fun _ offs data w => (zlen data, splice offs data w));
     op_read := Some (fun _ offs len _ w =>
       let res := Z.min (Z.min len n) (zlen w - offs) in ((res, zslice offs res w), w)) |}.

Definition part_tab (n : Z) : devtab (list Z) :=
  {[ (2, 0) := {| dev_name := Some (str "parts"); dev_init := Some (fun _ w => (0, w)); dev_done := Some (fun _ w => (0, w));
                  dev_ops_ := Some (part_ops n) |} ]}.

Definition run (n len size : Z) :=
  '(r, _, w) ← cmd_doTestDev (H := target32) (part_tab n) 50 2 0 0 len 0 (replicate 257 0) (replicate (Z.to_nat size) 9);
  Some (r, bool_decide (ztake len w = pattern (H := target32) 0 len)).

(** In one piece the test is passed. *)
Example whole_reads : run 257 600 1000 = Some (EOK, true).
Proof. by vm_compute. Qed.

(** The device holds the pattern, but a read gave less than the chunk, and the rest of the
    chunk is compared with what the buffer held before: the test fails. *)
Example short_reads_fail : run 100 600 1000 = Some (-1, true).
Proof. by vm_compute. Qed.

(** A device that has nothing more to give, and does not say so, keeps the test waiting
    for ever: no number of steps is enough. *)
Lemma empty_reads k rsz buf w :
  zlen buf = BUF_SIZE -> 0 <= rsz < 4 -> pattern (H := target32) rsz (4 - rsz) = zslice 0 (4 - rsz) buf ->
  testDevCheck_loop (H := target32) (part_tab 0) k 2 0 0 4 rsz buf w = None \/ zlen w < rsz.
Proof.
  intros B R P. destruct (decide (zlen w < rsz)) as [|N]; [by right|left].
  induction k as [|k IH]; [done|]. cbn [testDevCheck_loop]. rewrite (proj2 (Z.ltb_lt rsz 4)) by lia.
  assert (A : 2 ^ addr_bits (Target := target32) = 4294967296) by done.
  unfold chunk_of. rewrite (wa_small (4 - rsz)), (wa_small (0 + rsz)) by lia. unfold BUF_SIZE in *.
  rewrite (Z.min_l (4 - rsz)) by lia.
  change (devs_read (part_tab 0) 2 0 (0 + rsz) (4 - rsz) TEST_DEV_TIMEOUT_MS w) with
    ((Z.min (Z.min (4 - rsz) 0) (zlen w - (0 + rsz)), zslice (0 + rsz) (Z.min (Z.min (4 - rsz) 0) (zlen w - (0 + rsz))) w), w).
  rewrite (Z.min_r (4 - rsz)), Z.min_l by lia. rewrite zslice_nil.
  rewrite mstore_ok by (cbn; lia). replace (splice 0 [] buf) with buf by done. cbn [mbind option_bind].
  change (0 <? 0) with false. cbv iota. rewrite mbytes_ok by lia. cbn [mbind option_bind].
  rewrite bool_decide_true by done. cbn [negb]. rewrite Z.add_0_r, wa_small by lia. exact IH.
Qed.

End parts_device.
