(* ===== verification/Memcrypt.v ===== *)
(** * The encryption command (src/cmds/memcrypt.c)

    Parses the description of a key, fetches the key and hands it to the device.  The
    device is proved to be given nothing but a key of the size of its cipher, and the
    keys of the command line are proved to be read as they were written. *)

From S2P Require Import Prelude Mem CList CString Devs Msg Phfs Syspage SyspageMaps Getopt Cmd Format PMem Loader App AppLoad RamFile Tools.

Definition MEMCRYPT_MAX_KEYSIZE := 64.
Definition DEV_CRYP_STORAGE := 9.
Definition DEV_RNG := 10.
Definition DEV_MEMCRYPT_ALGO_AES128 := 1.
Definition DEV_MEMCRYPT_ALGO_NOEKEON := 2.
Definition DEV_MEMCRYPT_ALGO_AES256 := 3.

Definition PARSE_HAVE_DEV := 1.
Definition PARSE_HAVE_ENCR := 2.
Definition PARSE_HAVE_KEY := 4.
Definition PARSE_HAVE_REQUIRED := 7.

Inductive buffer_type := buffer_invalid | buffer_explicit | buffer_otp | buffer_device.

(** [cmd_memcrypt_buffer_t] *)
Record mbuffer := mk_mbuffer {
  mb_type : buffer_type; mb_major : Z; mb_minor : Z; mb_offset : Z; mb_size : Z; mb_data : list Z
}.

(** [dev_memcrypt_args_t]; a pointer to the bytes of a buffer is the buffer. *)
Record memcrypt_args := mk_memcrypt_args {
  ma_start : Z; ma_end : Z; ma_algo : Z; ma_mode : Z;
  ma_key : option (list Z); ma_iv : option (list Z); ma_ivSize : Z
}.

(** [cmd_memcrypt_params_t] *)
Record mparams := mk_mparams {
  mp_major : Z; mp_minor : Z; mp_args : memcrypt_args; mp_key : mbuffer; mp_iv : mbuffer
}.

(** [hal_memset(&params, 0, sizeof(params))] *)
Definition zero_buffer : mbuffer := mk_mbuffer buffer_invalid 0 0 0 0 (replicate 64 0).
Definition zero_params : mparams :=
  mk_mparams 0 0 (mk_memcrypt_args 0 0 0 0 None None 0) zero_buffer zero_buffer.

Definition set_dev (major minor : Z) (p : mparams) : mparams :=
  mk_mparams major minor (mp_args p) (mp_key p) (mp_iv p).
Definition set_margs (a : memcrypt_args) (p : mparams) : mparams :=
  mk_mparams (mp_major p) (mp_minor p) a (mp_key p) (mp_iv p).
Definition set_mkey (b : mbuffer) (p : mparams) : mparams :=
  mk_mparams (mp_major p) (mp_minor p) (mp_args p) b (mp_iv p).
Definition set_miv (b : mbuffer) (p : mparams) : mparams :=
  mk_mparams (mp_major p) (mp_minor p) (mp_args p) (mp_key p) b.
Definition set_encr (algo mode : Z) (a : memcrypt_args) : memcrypt_args :=
  mk_memcrypt_args (ma_start a) (ma_end a) algo mode (ma_key a) (ma_iv a) (ma_ivSize a).
Definition set_crypt_range (start end_ : Z) (a : memcrypt_args) : memcrypt_args :=
  mk_memcrypt_args start end_ (ma_algo a) (ma_mode a) (ma_key a) (ma_iv a) (ma_ivSize a).
Definition set_keys (key iv : option (list Z)) (ivSize : Z) (a : memcrypt_args) : memcrypt_args :=
  mk_memcrypt_args (ma_start a) (ma_end a) (ma_algo a) (ma_mode a) key iv ivSize.
Definition set_type (ty : buffer_type) (b : mbuffer) : mbuffer :=
  mk_mbuffer ty (mb_major b) (mb_minor b) (mb_offset b) (mb_size b) (mb_data b).
Definition set_place (major minor offset size : Z) (b : mbuffer) : mbuffer :=
  mk_mbuffer (mb_type b) major minor offset size (mb_data b).
Definition set_data (data : list Z) (size : Z) (b : mbuffer) : mbuffer :=
  mk_mbuffer (mb_type b) (mb_major b) (mb_minor b) (mb_offset b) size data.

Section memcrypt.
  Context `{Target}.

(** ** Parsing: what follows in the argument is a result *)

(** [Some] rest when the prefix is there. *)
Definition cmd_memcrypt_consumePrefix (arg prefix : cstr) : option cstr :=
  if hal_strncmp prefix arg (length prefix) =? 0 then Some (drop (length prefix) arg) else None.

(** [endChar] is -1 for any; the pointer behind the end of a string is not used. *)
Definition cmd_memcrypt_consumeNumber (arg : cstr) (endChar : Z) : option (Z * cstr) :=
  let '(out, e) := lib_strtoul arg 0 in
  if none_taken arg e || (negb (endChar =? -1) && negb (deref e =? endChar)) then None
  else Some (out, if negb (endChar =? -1) then tail e else e).

Definition cmd_memcrypt_consumeDevice (arg : cstr) : option (Z * Z * cstr) :=
  '(major, arg) ← cmd_memcrypt_consumeNumber arg "."%ch;
  '(minor, arg) ← cmd_memcrypt_consumeNumber arg (-1);
  Some (w32 major, w32 minor, arg).

(** The loop over pairs of characters from [i] on: the bytes stored, and whether it
    came to the end. *)
Fixpoint hexbuffer_loop (k : nat) (s : cstr) (out : list Z) (i : Z) : bool * list Z :=
  match k, s with
  | S k, c0 :: c1 :: s =>
      let '(result, e) := lib_strtoul [c0; c1] 16 in
      if negb (zlen e =? 0) || (255 <? result) then (false, out)
      else hexbuffer_loop k s (<[Z.to_nat (i / 2) := w8 result]> out) (i + 2)
  | _, _ => (true, out)
  end.

Definition cmd_memcrypt_getHexBuffer (string : cstr) (out : list Z) (maxSize : Z) : Z * list Z :=
  let string := if (at_ string 0 =? "0"%ch) && (Z.lor (at_ string 1) 0x20 =? "x"%ch) then drop 2 string else string in
  let len := hal_strlen string in
  if (len =? 0) || negb (len mod 2 =? 0) || (maxSize <? len / 2) then (- EINVAL, out)
  else
    let '(ok, out) := hexbuffer_loop (length string) string out 0 in
    (if ok then len / 2 else - EINVAL, out).

Definition algo_of (arg : cstr) : option (Z * cstr) :=
  match cmd_memcrypt_consumePrefix arg (str "aes128:") with
  | Some arg => Some (DEV_MEMCRYPT_ALGO_AES128, arg)
  | None =>
      match cmd_memcrypt_consumePrefix arg (str "aes256:") with
      | Some arg => Some (DEV_MEMCRYPT_ALGO_AES256, arg)
      | None =>
          match cmd_memcrypt_consumePrefix arg (str "noekeon:") with
          | Some arg => Some (DEV_MEMCRYPT_ALGO_NOEKEON, arg)
          | None => None
          end
      end
  end.

(** Whether it succeeded; the cipher is stored even when the mode is wrong. *)
Definition cmd_memcrypt_parseEncr (arg : cstr) (p : mparams) : bool * mparams :=
  match algo_of arg with
  | None => (false, p)
  | Some (algo, arg) =>
      match cmd_memcrypt_consumeNumber arg 0 with
      | None => (false, set_margs (set_encr algo (ma_mode (mp_args p)) (mp_args p)) p)
      | Some (mode, _) => (true, set_margs (set_encr algo (w32 mode) (mp_args p)) p)
      end
  end.

(** The offset and the size that end a description; [None] for a wrong one. *)
Definition offset_size (arg : cstr) : option (Z * Z) :=
  '(offset, arg) ← cmd_memcrypt_consumeNumber arg ":"%ch;
  '(size, _) ← cmd_memcrypt_consumeNumber arg 0;
  Some (offset, size).

(** Whether it succeeded.  Of a wrong description nothing but the type of the buffer
    matters, as the command then ends. *)
Definition cmd_memcrypt_parseBuffer (arg : cstr) (b : mbuffer) : bool * mbuffer :=
  match cmd_memcrypt_consumePrefix arg (str "x:") with
  | Some arg =>
      let b := set_type buffer_explicit b in
      let '(ret, data) := cmd_memcrypt_getHexBuffer arg (mb_data b) MEMCRYPT_MAX_KEYSIZE in
      if ret <? 0 then (false, set_data data (mb_size b) b) else (true, set_data data ret b)
  | None =>
  match cmd_memcrypt_consumePrefix arg (str "p:") with
  | Some arg =>
      let b := set_type buffer_otp b in
      match offset_size arg with
      | None => (false, b)
      | Some (offset, size) => (true, set_place (mb_major b) (mb_minor b) offset size b)
      end
  | None =>
  match cmd_memcrypt_consumePrefix arg (str "d:") with
  | Some arg =>
      let b := set_type buffer_device b in
      match cmd_memcrypt_consumeDevice arg with
      | None => (false, b)
      | Some (major, minor, arg) =>
          if negb (deref arg =? ":"%ch) then (false, b)
          else
            match offset_size (tail arg) with
            | None => (false, b)
            | Some (offset, size) => (true, set_place major minor offset size b)
            end
      end
  | None =>
  match cmd_memcrypt_consumePrefix arg (str "r:") with
  | Some arg =>
      let b := set_type buffer_device b in
      match cmd_memcrypt_consumeNumber arg 0 with
      | None => (false, b)
      | Some (size, _) => (true, set_place DEV_RNG 0 0 size b)
      end
  | None => (false, b)
  end end end end.

End memcrypt.

Section command.
  Context `{Target} `{SyspageTypes} `{SyspageHal} {W : Type} (t : devtab W).

(** [otp_read] of the platform: the result and the value; and [devs_control] with
    [DEV_CONTROL_MEMCRYPT], whose argument is a structure. *)
Context (otp_read : Z -> W -> (Z * Z) * W) (memcrypt_control : Z -> Z -> memcrypt_args -> W -> Z * W).

Abbreviation EM := (M (W := W)).

(** The loop over the options: [None] when the command fails. *)
Fixpoint memcrypt_options (k : nat) (argv : list cstr) (status : Z) (p : mparams) : EM (option (Z * mparams)) :=
  match k with
  | O => fault
  | S k =>
      g ← get ld_getopt;
      '(c, g) ← lift (lib_getopt argv (str "d:p:k:i:h") g);
      _ ← upd (set_getopt g);
      if c <? 0 then mret (Some (status, p))
      else if c =? "d"%ch then
        a ← lift (optarg g);
        match cmd_memcrypt_consumeDevice a with
        | Some (major, minor, rest) =>
            if negb (deref rest =? 0) then mret None
            else memcrypt_options k argv (Z.lor status PARSE_HAVE_DEV) (set_dev major minor p)
        | None => mret None
        end
      else if c =? "p"%ch then
        a ← lift (optarg g);
        let '(ok, p) := cmd_memcrypt_parseEncr a p in
        if negb ok then mret None else memcrypt_options k argv (Z.lor status PARSE_HAVE_ENCR) p
      else if c =? "k"%ch then
        a ← lift (optarg g);
        let '(ok, b) := cmd_memcrypt_parseBuffer a (mp_key p) in
        if negb ok then mret None else memcrypt_options k argv (Z.lor status PARSE_HAVE_KEY) (set_mkey b p)
      else if c =? "i"%ch then
        a ← lift (optarg g);
        let '(ok, b) := cmd_memcrypt_parseBuffer a (mp_iv p) in
        if negb ok then mret None else memcrypt_options k argv status (set_miv b p)
      else mret None
  end.

Definition cmd_memcrypt_parseArgs (argv : list cstr) (p : mparams) : EM (option mparams) :=
  r ← memcrypt_options (S (length (concat argv))) argv 0 p;
  match r with
  | None => mret None
  | Some (status, p) =>
      if negb (status =? PARSE_HAVE_REQUIRED) then mret None
      else
        g ← get ld_getopt;
        if zlen argv <? optind g + 1 then mret None
        else
          a ← lift (argv !! Z.to_nat (optind g));
          match '(start, a) ← cmd_memcrypt_consumeNumber a ":"%ch; '(end_, _) ← cmd_memcrypt_consumeNumber a 0; Some (start, end_) with
          | None => mret None
          | Some (start, end_) => mret (Some (set_margs (set_crypt_range start end_ (mp_args p)) p))
          end
  end.

(** [k] words of four bytes from [i] on; an error of the fuses ends it. *)
Fixpoint readOtp_loop (k : nat) (fuse : Z) (out : list Z) (i : Z) (w : W) : option (Z * list Z * W) :=
  match k with
  | O => Some (EOK, out, w)
  | S k =>
      let '((ret, val), w) := otp_read fuse w in
      if ret <? 0 then Some (ret, out, w)
      else
        out ← mstore out i (le_bytes 4 val);
        readOtp_loop k (s32 (fuse + 1)) out (i + 4) w
  end.

Definition cmd_memcrypt_readOtpBuffer (fuse : Z) (out : list Z) (keysize : Z) (w : W) : option (Z * list Z * W) :=
  if negb (keysize mod 4 =? 0) then Some (- EINVAL, out, w)
  else readOtp_loop (Z.to_nat (keysize / 4)) fuse out 0 w.

(** Whether it succeeded, and the buffer. *)
Definition cmd_memcrypt_readBuffer (b : mbuffer) (expectedSize : Z) (w : W) : option (bool * mbuffer * W) :=
  if negb (expectedSize =? 0) && negb (mb_size b =? expectedSize) then Some (false, b, w)
  else if MEMCRYPT_MAX_KEYSIZE <? mb_size b then Some (false, b, w)
  else
    match mb_type b with
    | buffer_explicit => Some (true, b, w)
    | buffer_otp =>
        '(ret, data, w) ← cmd_memcrypt_readOtpBuffer (s32 (mb_offset b)) (mb_data b) (mb_size b) w;
        Some (negb (ret <? 0), set_data data (mb_size b) b, w)
    | buffer_device =>
        let '((ret, data), w) := devs_read t (mb_major b) (mb_minor b) (mb_offset b) (mb_size b) (-1) w in
        data ← mstore (mb_data b) 0 data;
        Some (negb (s32 ret <? 0), set_data data (mb_size b) b, w)
    | buffer_invalid => Some (false, b, w)
    end.

(** [keySize], or 0 for no cipher. *)
Definition key_size (algo : Z) : Z :=
  if algo =? DEV_MEMCRYPT_ALGO_AES128 then 16
  else if algo =? DEV_MEMCRYPT_ALGO_AES256 then 32
  else if algo =? DEV_MEMCRYPT_ALGO_NOEKEON then 16
  else 0.

(** [type == buffer_invalid] *)
Definition no_buffer (b : mbuffer) : bool :=
  match mb_type b with buffer_invalid => true | _ => false end.

(** What follows the parsing of the arguments. *)
Definition memcrypt_setup (p : mparams) (w : W) : option (Z * mparams * W) :=
  if negb (mp_major p =? DEV_CRYP_STORAGE) then Some (- EINVAL, p, w)
  else if devs_check t (mp_major p) (mp_minor p) <? 0 then Some (- EINVAL, p, w)
  else
    let keySize := key_size (ma_algo (mp_args p)) in
    if keySize =? 0 then Some (CMD_EXIT_FAILURE, p, w)
    else
      '(ok, key, w) ← cmd_memcrypt_readBuffer (mp_key p) keySize w;
      let p := set_mkey key p in
      if negb ok then Some (CMD_EXIT_FAILURE, p, w)
      else
        '(ok, iv, args, w) ←
          (if no_buffer (mp_iv p) then Some (true, mp_iv p, set_keys (Some (mb_data key)) None 0 (mp_args p), w)
           else
             '(ok, iv, w) ← cmd_memcrypt_readBuffer (mp_iv p) 0 w;
             Some (ok, iv, set_keys (Some (mb_data key)) (Some (mb_data iv)) (mb_size iv) (mp_args p), w));
        let p := set_margs args (set_miv iv p) in
        if negb ok then Some (CMD_EXIT_FAILURE, p, w)
        else
          let '(ret, w) := memcrypt_control (mp_major p) (mp_minor p) args w in
          Some (if ret <? 0 then CMD_EXIT_FAILURE else CMD_EXIT_SUCCESS, p, w).

(** [_cmd_memcrypt] *)
Definition cmd_memcrypt_run (argv : list cstr) (p : mparams) : EM (Z * mparams) :=
  r ← cmd_memcrypt_parseArgs argv p;
  match r with
  | None => mret (CMD_EXIT_FAILURE, p)
  | Some p => world (fun _ w => '(ret, p, w) ← memcrypt_setup p w; Some ((ret, p), w))
  end.

(** The result and the static parameters, which are zeroed before and after. *)
Definition cmd_memcrypt (argv : list cstr) : EM (Z * mparams) :=
  '(ret, _) ← cmd_memcrypt_run argv zero_params;
  mret (ret, zero_params).

End command.

(** ** Keys on the command line *)

Section keys.
  Context `{Target}.

(** Bytes in hexadecimal, in the digits of either case. *)
Definition hex_string (flags : Z) (bs : list Z) : cstr :=
  concat (map (fun b => [digit flags (b / 16); digit flags (b mod 16)]) bs).

Lemma hex_digit flags i :
  0 <= i < 16 -> is_digit 16 (digit flags i) = true /\ (Z.lor (digit flags i) 0x20 =? "x"%ch) = false /\
    digit_val (digit flags i) = i.
Proof.
  intros I. split; [by apply digit_is_digit|]. split; [|by apply digit_ok].
  replace i with (Z.of_nat (Z.to_nat i)) by lia. assert (N : (Z.to_nat i < 16)%nat) by lia.
  generalize dependent (Z.to_nat i). clear I i. intros n N. unfold digit, digits_of.
  destruct (has flags FLAG_LARGE_DIGITS); do 16 (destruct n as [|n]; [done|]); lia.
Qed.

Lemma hex_pair flags b :
  0 <= b < 256 -> lib_strtoul [digit flags (b / 16); digit flags (b mod 16)] 16 = (b, []).
Proof.
  intros B. destruct (hex_digit flags (b / 16)) as (D1 & _ & V1); [modlia|].
  destruct (hex_digit flags (b mod 16)) as (D2 & X2 & V2); [modlia|].
  set (d1 := digit flags (b / 16)) in *. set (d2 := digit flags (b mod 16)) in *.
  unfold lib_strtoul. change (at_ [d1; d2] 1) with d2. rewrite X2, andb_false_r. change (16 =? 0) with false. cbn [andb].
  pose proof (strtoul_digits 16 b [d1; d2] [] ltac:(lia)) as S. rewrite app_nil_r in S. rewrite S.
  - rewrite wa_small; [done|]. pose proof addr_bits_ge32. lia.
  - split; [by repeat constructor|]. cbn. rewrite V1, V2. modlia.
  - done.
Qed.

Lemma splice_cons (j : nat) b (bs out : list Z) :
  (j < length out)%nat -> splice (Z.of_nat (S j)) bs (<[j := b]> out) = splice (Z.of_nat j) (b :: bs) out.
Proof.
  intros J. unfold splice. rewrite !Nat2Z.id. cbn [length].
  rewrite (take_S_r _ _ b) by (apply list_lookup_insert_eq; lia).
  rewrite take_insert_ge by lia. rewrite <- app_assoc. cbn [app]. do 3 f_equal.
  rewrite drop_insert_lt by lia. f_equal. lia.
Qed.

Lemma hexbuffer_loop_spec flags bs k (j : nat) out :
  Forall is_byte bs -> (length (hex_string flags bs) <= k)%nat -> (j + length bs <= length out)%nat ->
  hexbuffer_loop k (hex_string flags bs) out (2 * Z.of_nat j) = (true, splice (Z.of_nat j) bs out).
Proof.
  intros F. revert k j out. induction F as [|b bs B _ IH]; intros k j out K J.
  - unfold splice. cbn [hex_string map concat length app]. rewrite Nat2Z.id, Nat.add_0_r, take_drop. by destruct k.
  - cbn [hex_string map concat app length] in K |- *. destruct k as [|k]; [lia|]. cbn [hexbuffer_loop].
    rewrite hex_pair by done. change (zlen (@nil Z) =? 0) with true. unfold is_byte in B.
    destruct (Z.ltb_spec 255 b); [lia|]. cbn [negb orb].
    replace (2 * Z.of_nat j + 2) with (2 * Z.of_nat (S j)) by lia.
    replace (Z.to_nat (2 * Z.of_nat j / 2)) with j by modlia.
    replace (w8 b) with b by (unfold w8; rewrite Z.mod_small; lia). cbn [length] in J.
    change (concat (map _ bs)) with (hex_string flags bs) in K |- *.
    rewrite IH; [|unfold hex_string in *; lia|rewrite length_insert; lia]. f_equal. apply splice_cons. lia.
Qed.

Lemma hex_string_length flags bs : zlen (hex_string flags bs) = 2 * zlen bs.
Proof. induction bs as [|b bs IH]; [done|]. cbn [hex_string map concat app length] in *. unfold hex_string in IH. lia. Qed.

(** A key of at most 64 bytes written in hexadecimal, with a [0x] in front or not, is read
    as it was written, to the start of the buffer. *)
Lemma getHexBuffer_roundtrip flags pre bs out :
  pre = [] \/ pre = str "0x" -> Forall is_byte bs -> 0 < zlen bs <= MEMCRYPT_MAX_KEYSIZE -> zlen out = MEMCRYPT_MAX_KEYSIZE ->
  cmd_memcrypt_getHexBuffer (pre ++ hex_string flags bs) out MEMCRYPT_MAX_KEYSIZE = (zlen bs, splice 0 bs out).
Proof.
  intros P F L O. unfold cmd_memcrypt_getHexBuffer, MEMCRYPT_MAX_KEYSIZE in *.
  replace (if _ : bool then drop 2 (pre ++ hex_string flags bs) else pre ++ hex_string flags bs) with (hex_string flags bs).
  2: { destruct P as [-> | ->]; [|done]. cbn [app]. destruct F as [|b bs B _]; [cbn in L; lia|].
       destruct (hex_digit flags (b mod 16)) as (_ & X & _); [unfold is_byte in B; modlia|].
       change (at_ (hex_string flags (b :: bs)) 1) with (digit flags (b mod 16)). by rewrite X, andb_false_r. }
  rewrite hal_strlen_length, hex_string_length.
  destruct (Z.eqb_spec (2 * zlen bs) 0); [lia|]. replace (2 * zlen bs mod 2) with 0 by modlia.
  replace (2 * zlen bs / 2) with (zlen bs) by modlia. destruct (Z.ltb_spec 64 (zlen bs)); [lia|]. cbn [negb orb Z.eqb].
  rewrite (hexbuffer_loop_spec flags bs _ 0 out) by (done || lia). done.
Qed.

(** *** Descriptions *)

(** A way to write a number that [lib_strtoul] reads, up to the next separator. *)
Definition numeral (n : Z) (ds : cstr) : Prop :=
  ds <> [] /\ forall rest, lib_isalnum (deref rest) = false -> lib_strtoul (ds ++ rest) 0 = (n, rest).

Lemma consumeNumber_numeral n ds c rest :
  numeral n ds -> lib_isalnum c = false -> 0 < c -> cmd_memcrypt_consumeNumber (ds ++ c :: rest) c = Some (n, rest).
Proof.
  intros [N R] C Z0. unfold cmd_memcrypt_consumeNumber. rewrite R by done. unfold none_taken.
  rewrite length_app. destruct ds as [|d ds]; [done|]. cbn [length deref head default tail]. unfold id.
  destruct (Z.eqb_spec (Z.of_nat (S (length rest))) (Z.of_nat (S (length ds) + S (length rest)))); [lia|].
  rewrite Z.eqb_refl, andb_false_r. cbn [orb].
  by rewrite (proj2 (Z.eqb_neq c (-1))) by lia.
Qed.

Lemma consumeNumber_last n ds : numeral n ds -> exists rest, cmd_memcrypt_consumeNumber ds 0 = Some (n, rest).
Proof.
  intros [N R]. unfold cmd_memcrypt_consumeNumber. specialize (R [] eq_refl). rewrite app_nil_r in R. rewrite R.
  unfold none_taken. destruct ds as [|d ds]; [done|]. cbn. by eexists.
Qed.

Lemma offset_size_numerals o s d1 d2 :
  numeral o d1 -> numeral s d2 -> offset_size (d1 ++ ":"%ch :: d2) = Some (o, s).
Proof.
  intros O S. unfold offset_size. rewrite (consumeNumber_numeral o) by done. cbn [mbind option_bind].
  destruct (consumeNumber_last _ _ S) as [rest E]. by rewrite E.
Qed.

Lemma consumePrefix_app pre rest : Forall (fun c => c <> 0) pre -> cmd_memcrypt_consumePrefix (pre ++ rest) pre = Some rest.
Proof.
  intros F. unfold cmd_memcrypt_consumePrefix, hal_strncmp.
  assert (E : forall i, strncmp_loop i pre (pre ++ rest) (length pre) = 0).
  { induction F as [|c pre C F IH]; intros i; [done|]. cbn [length app strncmp_loop deref head default tail]. unfold id.
    rewrite (proj2 (Z.eqb_neq c 0)), Z.eqb_refl by done. cbn [negb andb]. apply IH. }
  by rewrite E, drop_app_length.
Qed.

(** The description of a key in the fuses and of a key on a device name its place. *)
Lemma parseBuffer_otp o s d1 d2 b :
  numeral o d1 -> numeral s d2 ->
  cmd_memcrypt_parseBuffer (str "p:" ++ d1 ++ ":"%ch :: d2) b =
    (true, set_place (mb_major b) (mb_minor b) o s (set_type buffer_otp b)).
Proof.
  intros O S. unfold cmd_memcrypt_parseBuffer.
  replace (cmd_memcrypt_consumePrefix (str "p:" ++ d1 ++ ":"%ch :: d2) (str "x:")) with (@None cstr) by done.
  rewrite consumePrefix_app by (repeat (apply Forall_cons_2; [done|]); by apply Forall_nil_2). by rewrite (offset_size_numerals o s).
Qed.

Lemma parseBuffer_device ma mi o s d1 d2 d3 d4 b :
  numeral ma d1 -> numeral mi d2 -> numeral o d3 -> numeral s d4 ->
  cmd_memcrypt_parseBuffer (str "d:" ++ d1 ++ "."%ch :: d2 ++ ":"%ch :: d3 ++ ":"%ch :: d4) b =
    (true, set_place (w32 ma) (w32 mi) o s (set_type buffer_device b)).
Proof.
  intros A I O Sz. unfold cmd_memcrypt_parseBuffer.
  replace (cmd_memcrypt_consumePrefix (str "d:" ++ d1 ++ "."%ch :: d2 ++ ":"%ch :: d3 ++ ":"%ch :: d4) (str "x:"))
    with (@None cstr) by done.
  replace (cmd_memcrypt_consumePrefix (str "d:" ++ d1 ++ "."%ch :: d2 ++ ":"%ch :: d3 ++ ":"%ch :: d4) (str "p:"))
    with (@None cstr) by done.
  rewrite consumePrefix_app by (repeat (apply Forall_cons_2; [done|]); by apply Forall_nil_2). unfold cmd_memcrypt_consumeDevice.
  rewrite (consumeNumber_numeral ma) by done. cbn [mbind option_bind].
  replace (cmd_memcrypt_consumeNumber (d2 ++ ":"%ch :: d3 ++ ":"%ch :: d4) (-1))
    with (Some (mi, ":"%ch :: d3 ++ ":"%ch :: d4)).
  2: { destruct I as [N R]. unfold cmd_memcrypt_consumeNumber. rewrite R by done. unfold none_taken.
       rewrite length_app. destruct d2 as [|x d2]; [done|]. cbn [length].
       destruct (Z.eqb_spec (Z.of_nat (S (length (d3 ++ 58 :: d4))))
         (Z.of_nat (S (length d2) + S (length (d3 ++ 58 :: d4))))); [lia|]. done. }
  cbn [mbind option_bind deref head default tail negb]. unfold id. rewrite Z.eqb_refl. cbn [negb].
  by rewrite (offset_size_numerals o s).
Qed.

End keys.

(** ** What the device is given *)

Section given.
  Context `{Target} `{SyspageTypes} `{SyspageHal} {W : Type} (t : devtab W).
  Context (otp_read : Z -> W -> (Z * Z) * W) (memcrypt_control : Z -> Z -> memcrypt_args -> W -> Z * W).

Abbreviation setup := (memcrypt_setup t otp_read memcrypt_control).

Lemma readBuffer_explicit b n w :
  mb_type b = buffer_explicit -> mb_size b <= MEMCRYPT_MAX_KEYSIZE -> n = 0 \/ mb_size b = n ->
  cmd_memcrypt_readBuffer t otp_read b n w = Some (true, b, w).
Proof.
  intros T S N. unfold cmd_memcrypt_readBuffer.
  replace (negb (n =? 0) && negb (mb_size b =? n)) with false
    by (destruct N as [-> | <-]; [done|by rewrite Z.eqb_refl, andb_false_r]).
  destruct (Z.ltb_spec MEMCRYPT_MAX_KEYSIZE (mb_size b)); [lia|]. by rewrite T.
Qed.

Lemma readBuffer_size b n w ok b' w' :
  cmd_memcrypt_readBuffer t otp_read b n w = Some (ok, b', w') ->
  mb_size b' = mb_size b /\ mb_type b' = mb_type b /\
  (ok = true -> (n = 0 \/ mb_size b = n) /\ mb_size b <= MEMCRYPT_MAX_KEYSIZE) /\
  (n <> 0 -> mb_size b <> n -> ok = false /\ w' = w).
Proof.
  unfold cmd_memcrypt_readBuffer. intros E.
  destruct (Z.eqb_spec n 0), (Z.eqb_spec (mb_size b) n); cbn [negb andb] in E;
    try (injection E as <- <- <-; naive_solver).
  all: destruct (Z.ltb_spec MEMCRYPT_MAX_KEYSIZE (mb_size b)); [injection E as <- <- <-; naive_solver|].
  all: destruct (mb_type b) eqn:T.
  all: try (injection E as <- <- <-; naive_solver).
  all: try (destruct (cmd_memcrypt_readOtpBuffer _ _ _ _ _) as [[[? ?] ?]|]; cbn [mbind option_bind] in E; [|done];
    injection E as <- <- <-; cbn; rewrite T; naive_solver).
  all: destruct (devs_read _ _ _ _ _ _ _) as [[r d] w1]; destruct (mstore _ _ _) as [data|]; cbn [mbind option_bind] in E; [|done];
    injection E as <- <- <-; cbn; rewrite T; naive_solver.
Qed.

(** The cipher gets a key of its size: when the command succeeds, the device was asked
    for the cipher, the mode and the range of the arguments, with a key whose size is the
    one of the cipher; and a key of another size is refused before anything is read. *)
Lemma memcrypt_setup_sized p w p' w' :
  setup p w = Some (CMD_EXIT_SUCCESS, p', w') ->
  mp_major p = DEV_CRYP_STORAGE /\ mb_size (mp_key p) = key_size (ma_algo (mp_args p)) /\
  exists key iv ivSize w1 r, memcrypt_control DEV_CRYP_STORAGE (mp_minor p) (set_keys (Some key) iv ivSize (mp_args p)) w1 = (r, w') /\
    0 <= r /\ ivSize <= MEMCRYPT_MAX_KEYSIZE /\ (mb_type (mp_key p) = buffer_explicit -> key = mb_data (mp_key p)).
Proof.
  unfold memcrypt_setup. intros E.
  destruct (Z.eqb_spec (mp_major p) DEV_CRYP_STORAGE) as [M|]; [|done]. cbn [negb] in E.
  destruct (_ <? 0); [done|]. destruct (Z.eqb_spec (key_size (ma_algo (mp_args p))) 0) as [|K]; [done|].
  destruct (cmd_memcrypt_readBuffer t otp_read (mp_key p) _ w) as [[[ok key] w1]|] eqn:R; cbn [mbind option_bind] in E; [|done].
  pose proof (readBuffer_size _ _ _ _ _ _ R) as (Sz & _ & Ok & _).
  destruct ok; [|done]. cbn [negb] in E. destruct (Ok eq_refl) as [[|KS] _]; [done|].
  split; [done|]. split; [done|].
  assert (X : mb_type (mp_key p) = buffer_explicit -> mb_data key = mb_data (mp_key p)).
  { intros T. rewrite readBuffer_explicit in R; [by injection R as <- _|done| |by right].
    rewrite KS. unfold key_size, MEMCRYPT_MAX_KEYSIZE. repeat destruct (_ =? _); lia. }
  cbn [mp_iv mp_args mp_major mp_minor set_mkey] in E. destruct (no_buffer (mp_iv p)); cbn [mbind option_bind] in E.
  - cbn in E. destruct (memcrypt_control _ _ _ w1) as [r w2] eqn:C. destruct (Z.ltb_spec r 0); [done|]. injection E as _ <-.
    exists (mb_data key), None, 0, w1, r. rewrite <- M. by split_and!.
  - destruct (cmd_memcrypt_readBuffer t otp_read (mp_iv p) 0 w1) as [[[ok iv] w2]|] eqn:R2; cbn [mbind option_bind] in E; [|done].
    pose proof (readBuffer_size _ _ _ _ _ _ R2) as (Sz2 & _ & Ok2 & _). destruct ok; [|done]. cbn in E.
    destruct (memcrypt_control _ _ _ w2) as [r w3] eqn:C. destruct (Z.ltb_spec r 0); [done|]. injection E as _ <-.
    exists (mb_data key), (Some (mb_data iv)), (mb_size iv), w2, r. rewrite <- M. destruct (Ok2 eq_refl). split_and!; [exact C|done|lia|done].
Qed.

(** A key of the wrong size is refused before anything is read or the device is asked. *)
Lemma memcrypt_wrong_size p w :
  mb_size (mp_key p) <> key_size (ma_algo (mp_args p)) ->
  exists r p', setup p w = Some (r, p', w) /\ r <> CMD_EXIT_SUCCESS.
Proof.
  intros N. unfold memcrypt_setup. destruct (negb _); [by do 2 eexists|]. destruct (_ <? 0); [by do 2 eexists|].
  destruct (Z.eqb_spec (key_size (ma_algo (mp_args p))) 0) as [|K]; [by do 2 eexists|].
  unfold cmd_memcrypt_readBuffer. rewrite (proj2 (Z.eqb_neq _ _) K), (proj2 (Z.eqb_neq _ _) N). by do 2 eexists.
Qed.

(** A key from the fuses is the words of successive fuses, the low byte first. *)
Lemma readOtp_loop_spec (val : Z -> Z) k fuse i out w :
  (forall f w, fuse <= f < fuse + Z.of_nat k -> otp_read f w = ((EOK, val f), w)) ->
  - 2 ^ 31 <= fuse -> fuse + Z.of_nat k < 2 ^ 31 -> 0 <= i -> i + 4 * Z.of_nat k <= zlen out ->
  readOtp_loop otp_read k fuse out i w =
    Some (EOK, splice i (concat (map (fun f => le_bytes 4 (val f)) (seqZ fuse (Z.of_nat k)))) out, w).
Proof.
  revert fuse i out. induction k as [|k IH]; intros fuse i out O F0 F1 I L.
  - cbn [readOtp_loop]. change (seqZ fuse (Z.of_nat 0)) with (@nil Z). unfold splice. cbn [map concat app length].
    by rewrite Nat.add_0_r, take_drop.
  - cbn [readOtp_loop]. rewrite O by lia. change (EOK <? 0) with false. cbv iota.
    rewrite mstore_ok by (rewrite ?length_le_bytes; lia). cbn [mbind option_bind].
    replace (s32 (fuse + 1)) with (fuse + 1).
    2: { destruct (decide (0 <= fuse + 1)); [by rewrite s32_small by lia|by rewrite s32_neg by lia]. }
    rewrite IH; [|intros; apply O; lia|lia|lia|lia|rewrite length_splice; rewrite ?length_le_bytes; lia].
    rewrite (seqZ_cons fuse) by lia. replace (Z.pred (Z.of_nat (S k))) with (Z.of_nat k) by lia.
    replace (Z.succ fuse) with (fuse + 1) by lia. cbn [map concat].
    set (rest := concat _). assert (LR : zlen rest = 4 * Z.of_nat k).
    { unfold rest. clear. revert fuse. induction k as [|k IH]; intros fuse; [done|].
      rewrite seqZ_cons by lia. cbn [map concat]. rewrite length_app, length_le_bytes.
      replace (Z.pred (Z.of_nat (S k))) with (Z.of_nat k) by lia.
      specialize (IH (fuse + 1)). replace (Z.succ (fuse + 1)) with (fuse + 1 + 1) by lia. lia. }
    clearbody rest. do 2 f_equal. f_equal.
    pose proof (length_le_bytes 4 (val fuse)) as L4. set (x := le_bytes 4 (val fuse)) in *. clearbody x.
    apply list_eq. intros j. rewrite !lookup_splice by (rewrite ?length_app, ?length_splice; rewrite ?length_app; lia).
    rewrite length_app.
    repeat match goal with |- context [Z.ltb ?a ?b] => destruct (Z.ltb_spec a b); try lia end; try done.
    + by rewrite lookup_app_l by lia.
    + rewrite lookup_app_r by lia. f_equal. lia.
Qed.

End given.

(** ** Runs *)

Module crypt_bench.

(** What the device was last asked for. *)
Definition asked : Type := option memcrypt_args.

Definition crypt_dev : dev asked :=
  {| dev_name := Some (str "crypt"); dev_init := Some (fun _ w => (0, w)); dev_done := Some (fun _ w => (0, w));
     dev_ops_ := None |}.

(** A random number generator that gives at most four bytes a read. *)
Definition rng_dev : dev asked :=
  {| dev_name := Some (str "rng"); dev_init := Some (fun _ w => (0, w)); dev_done := Some (fun _ w => (0, w));
     dev_ops_ := Some {| op_sync := None; op_map := None; op_control := None; op_write := None; op_erase := None;
       op_read := Some (fun _ _ len _ w => ((Z.min len 4, ztake (Z.min len 4) [0x5a; 0x17; 0xc3; 0x99]), w)) |} |}.

Definition tab : devtab asked := <[(9, 0) := crypt_dev]> {[ (10, 0) := rng_dev ]}.

Definition fuses (f : Z) (w : asked) : (Z * Z) * asked := ((EOK, 0x04030201 + f * 0x10101010), w).

Definition run (args : list string) : option (Z * asked) :=
  '(r, _, l) ← cmd_memcrypt (H := target32) (H1 := sample_hal) tab fuses (fun _ _ a _ => (EOK, Some a)) (str <$> args)
    (mk_loader (H1 := sample_hal) phfs_init (sample_map (str "ram") 0x40000 0x50000) tt ∅ (mk_getopt None 1 1 0 1) 0 None);
  Some (r, ld_w l).

Definition key_given (r : option (Z * asked)) : option (Z * option (list Z)) :=
  match r with Some (res, Some a) => Some (res, ma_key a) | _ => None end.

Example explicit_key :
  run ["memcrypt"; "-d"; "9.0"; "-p"; "aes128:1"; "-k"; "x:0x000102030405060708090a0b0c0d0e0F"; "-i"; "x:a1a2"; "0:0x1000"]%string =
    Some (CMD_EXIT_SUCCESS, Some (mk_memcrypt_args 0 0x1000 1 1
      (Some (map Z.of_nat (seq 0 16) ++ replicate 48 0)) (Some ([0xa1; 0xa2] ++ replicate 62 0)) 2)).
Proof. by vm_compute. Qed.

Example fuse_key :
  key_given (run ["memcrypt"; "-d"; "9.0"; "-p"; "noekeon:2"; "-k"; "p:2:16"; "0:4096"]%string) =
    Some (CMD_EXIT_SUCCESS, Some ([0x21; 0x22; 0x23; 0x24; 0x31; 0x32; 0x33; 0x34;
      0x41; 0x42; 0x43; 0x44; 0x51; 0x52; 0x53; 0x54] ++ replicate 48 0)).
Proof. by vm_compute. Qed.

(** A key of 32 bytes for a cipher of 16 does not reach the device. *)
Example wrong_size :
  run ["memcrypt"; "-d"; "9.0"; "-p"; "aes128:1"; "-k"; "r:32"; "0:4096"]%string = Some (CMD_EXIT_FAILURE, None).
Proof. by vm_compute. Qed.

(** A random key is taken although the generator gave four of its sixteen bytes only: the
    other twelve are zero. *)
Example short_key :
  key_given (run ["memcrypt"; "-d"; "9.0"; "-p"; "aes128:1"; "-k"; "r:16"; "0:4096"]%string) =
    Some (CMD_EXIT_SUCCESS, Some ([0x5a; 0x17; 0xc3; 0x99] ++ replicate 60 0)).
Proof. by vm_compute. Qed.

(** A prefix is taken for a byte. *)
Example prefix_byte :
  cmd_memcrypt_getHexBuffer (H := target32) (str "110x22") (replicate 64 0) 64 = (3, [0x11; 0; 0x22] ++ replicate 61 0).
Proof. by vm_compute. Qed.

End crypt_bench.
