(* ===== verification/Mce.v ===== *)
(** * Encryption of external memory (src/devices/flash-stm32xspi/mce.c)

    The memory cipher engines of the STM32N6: a region of a memory is bound to a cipher
    context with its key.  The engines are the class [Mce] of register accesses; the laws
    [Mce_hw] say how the registers answer. *)

From S2P Require Import Prelude Mem CString Devs Memcrypt.

Definition MCE_CIPHER_AES128 := 1.
Definition MCE_CIPHER_NOEKEON := 2.
Definition MCE_CIPHER_AES256 := 3.

Definition MCE_MODE_STREAM := 1.
Definition MCE_MODE_NBLOCK := 2.
Definition MCE_MODE_FBLOCK := 3.
Definition MCE_MODE_MASK := 3.

Definition mce_regcount := 4.
Definition mce_count := 4.

Definition MCE_CR_CIPHERSEL_MASK := Z.shiftl 3 4.
Definition MCE_CR_CIPHERSEL_OFF := 4.
Definition MCE_CR_MKLOCK := 2.
Definition MCE_CR_GLOCK := 1.
Definition MCE_SR_MKVALID := 1.
Definition MCE_SR_FMKVALID := 4.
Definition MCE_REGCR_BREN := 1.
Definition MCE_REGCR_CTXID_OFF := 9.
Definition MCE_REGCR_CTXID_MASK := Z.shiftl 3 9.
Definition MCE_REGCR_ENC_OFF := 14.
Definition MCE_REGCR_ENC_MASK := Z.shiftl 3 14.
Definition MCE_CCCFGR_VERSION_OFF := 16.
Definition MCE_CCCFGR_MODE_OFF := 4.
Definition MCE_CCCFGR_KEYLOCK := 4.
Definition MCE_CCCFGR_CCLOCK := 2.
Definition MCE_CCCFGR_CCEN := 1.
Definition MCE_REG_BOUNDARY := 4096.

(** The registers, by their index. *)
Definition mce_cr := 0.
Definition mce_sr := 1.
Definition mce_mkeyr1 := 0x80.
Definition mce_fmkeyr1 := 0x88.
Definition mce_cc1cfgr := 0x90.
Definition mce_cc1nr0 := 0x91.
Definition mce_cc1keyr0 := 0x93.
Definition mce_cc2cfgr := 0x97.
Definition mce_cc2nr0 := 0x98.
Definition mce_cc2keyr0 := 0x9a.
Definition MCE_REGCR (reg : Z) : Z := 0x10 + 4 * reg.
Definition MCE_SADDR (reg : Z) : Z := 0x11 + 4 * reg.
Definition MCE_EADDR (reg : Z) : Z := 0x12 + 4 * reg.
Definition MCE_CCCFGR (ctxid : Z) : Z := if ctxid =? 1 then mce_cc1cfgr else mce_cc2cfgr.

Definition MCE_GLOBALLOCK := 1.
Definition MCE_MASTERLOCK := 2.
Definition MCE_CTX1LOCK := 4.
Definition MCE_CTX2LOCK := 8.
Definition MCE_CTX1KEYLOCK := 16.
Definition MCE_CTX2KEYLOCK := 32.

(** [mce_setup[per].region.base] and [.last] *)
Definition mce_region (per : Z) : Z * Z :=
  if per =? 0 then (0x90000000, 0x9fffffff)
  else if per =? 1 then (0x70000000, 0x7fffffff)
  else if per =? 2 then (0x80000000, 0x8fffffff)
  else (0x60000000, 0x6fffffff).

(** Accesses to the register of an engine. *)
Class Mce (W : Type) := {
  mce_rd : Z -> Z -> W -> Z * W;
  mce_wr : Z -> Z -> Z -> W -> W
}.

(** [mce_params[per]]; [contextCount] is not used. *)
Record mce_params := mk_mce_params { mp_initialized : bool; mp_cipher : Z }.

(** ** The checksum of keys *)

Definition crc8_step (crc : Z) : Z :=
  if negb (Z.land crc 0x80000000 =? 0) then Z.lxor (w32 (Z.shiftl crc 1)) (Z.shiftl 7 24) else w32 (Z.shiftl crc 1).

Definition crc8_consumeWord (data : Z) : Z :=
  w8 (Z.lxor (Z.shiftr (Nat.iter 32 crc8_step data) 24) 0x55).

Definition obfuscation : list Z := [0xaa; 0x03; 0x18; 0xc0].

(** [p != NULL] *)
Definition given (o : option (list Z)) : bool := match o with Some _ => true | None => false end.

Section mce.
  Context `{Mce W}.

(** The driver answers with the engines and its parameters. *)
Abbreviation state := (gmap Z mce_params * W)%type.

Definition params_of (per : Z) (st : state) : mce_params := default (mk_mce_params false 0) (st.1 !! per).
Definition set_params (per : Z) (p : mce_params) (st : state) : state := (<[per := p]> st.1, st.2).

(** The loop of [mce_storeKey] from the word [i] on: the checksum, or a fault where the
    key or [obfuscation] is shorter. *)
Fixpoint storeKey_loop (k : nat) (per reg : Z) (key : list Z) (i : Z) (crc : Z) (w : W) : option (Z * W) :=
  match k with
  | O => Some (crc, w)
  | S k =>
      regVal ← load32 key (4 * i);
      let w := mce_wr per (reg + i) regVal w in
      o ← obfuscation !! Z.to_nat i;
      let regVal := Z.lxor regVal
        (Z.lor (Z.lor (Z.lor crc (Z.shiftl o 8)) (Z.shiftl crc 16)) (w32 (Z.shiftl o 24))) in
      storeKey_loop k per reg key (i + 1) (crc8_consumeWord regVal) w
  end.

Definition mce_storeKey (per reg : Z) (key : list Z) (keysize : Z) (w : W) : option (Z * W) :=
  storeKey_loop (Z.to_nat ((keysize + 3) / 4)) per reg key 0 0x55 w.

Fixpoint mce_waitBusy (fuel : nat) (per reg flag : Z) (w : W) : option W :=
  match fuel with
  | O => None
  | S fuel =>
      let '(v, w) := mce_rd per reg w in
      if Z.land v flag =? 0 then mce_waitBusy fuel per reg flag w else Some w
  end.

(** A master key is written when there is none that is valid. *)
Definition store_master (fuel : nat) (per keyreg flag : Z) (key : option (list Z)) (keysize : Z) (w : W) : option W :=
  match key with
  | None => Some w
  | Some key =>
      let '(sr, w) := mce_rd per mce_sr w in
      if negb (Z.land sr flag =? 0) then Some w
      else
        '(_, w) ← mce_storeKey per keyreg key keysize w;
        mce_waitBusy fuel per mce_sr flag w
  end.

Definition mce_configurePerInternal (fuel : nat) (per cipher : Z) (mk fmk : option (list Z)) (st : state) : option (Z * state) :=
  let st :=
    if mp_cipher (params_of per st) =? 0 then
      let '(t, w) := mce_rd per mce_cr st.2 in
      let t := Z.lor (Z.ldiff t MCE_CR_CIPHERSEL_MASK) (w32 (Z.shiftl cipher MCE_CR_CIPHERSEL_OFF)) in
      set_params per (mk_mce_params (mp_initialized (params_of per st)) (w8 cipher)) (st.1, mce_wr per mce_cr t w)
    else st in
  let keysize := if cipher =? MCE_CIPHER_AES256 then 32 else 16 in
  w ← store_master fuel per mce_mkeyr1 MCE_SR_MKVALID mk keysize st.2;
  w ← store_master fuel per mce_fmkeyr1 MCE_SR_FMKVALID fmk keysize w;
  Some (EOK, (st.1, w)).

Definition mce_configureCipherContextInternal (fuel : nat) (per ctxid version mode : Z) (nonce ctxkey : option (list Z)) (w : W)
    : option (Z * W) :=
  if negb (ctxid =? 1) && negb (ctxid =? 2) then Some (- EINVAL, w)
  else if (mode =? MCE_MODE_STREAM) && negb (given nonce) then Some (- EINVAL, w)
  else if negb (mode =? MCE_MODE_STREAM) && given nonce then Some (- EINVAL, w)
  else
    let '(v, w) := mce_rd per (MCE_CCCFGR ctxid) w in
    if negb (Z.land v MCE_CCCFGR_CCEN =? 0) then Some (- EINVAL, w)
    else
      let '(v, w) := mce_rd per (MCE_CCCFGR ctxid) w in
      let t := Z.ldiff v (Z.lor (Z.shiftl 0xffff MCE_CCCFGR_VERSION_OFF) (Z.shiftl MCE_MODE_MASK MCE_CCCFGR_MODE_OFF)) in
      let t := Z.lor t (w32 (Z.shiftl mode MCE_CCCFGR_MODE_OFF)) in
      '(t, w) ←
        match nonce with
        | Some nonce =>
            if mode =? MCE_MODE_STREAM then
              '(_, w) ← mce_storeKey per (if ctxid =? 1 then mce_cc1nr0 else mce_cc2nr0) nonce 8 w;
              Some (Z.lor t (Z.shiftl version MCE_CCCFGR_VERSION_OFF), w)
            else Some (t, w)
        | None => Some (t, w)
        end;
      let w := mce_wr per (MCE_CCCFGR ctxid) t w in
      '(ok, w) ←
        match ctxkey with
        | Some key =>
            '(crc, w) ← mce_storeKey per (if ctxid =? 1 then mce_cc1keyr0 else mce_cc2keyr0) key 16 w;
            let '(v, w) := mce_rd per (MCE_CCCFGR ctxid) w in
            Some (Z.land (Z.shiftr v 8) 0xff =? crc, w)
        | None => Some (true, w)
        end;
      if negb ok then Some (- EIO, w)
      else
        let '(v, w) := mce_rd per (MCE_CCCFGR ctxid) w in
        let w := mce_wr per (MCE_CCCFGR ctxid) (Z.lor v MCE_CCCFGR_CCEN) w in
        w ← mce_waitBusy fuel per (MCE_CCCFGR ctxid) MCE_CCCFGR_CCEN w;
        Some (EOK, w).

Definition mce_configureRegionInternal (per reg mode ctxid first last_ : Z) (w : W) : Z * W :=
  if negb (ctxid =? 0) && negb (ctxid =? 1) && negb (ctxid =? 2) then (- EINVAL, w)
  else if (mode =? MCE_MODE_STREAM) && (ctxid =? 0) then (- EINVAL, w)
  else
    let '(bad, w) :=
      if negb (ctxid =? 0) then
        let '(v, w) := mce_rd per (MCE_CCCFGR ctxid) w in
        (negb (Z.land (Z.shiftr v MCE_CCCFGR_MODE_OFF) MCE_MODE_MASK =? mode), w)
      else (false, w) in
    if bad then (- EINVAL, w)
    else if last_ <? first then (- EINVAL, w)
    else if (first <? (mce_region per).1) || ((mce_region per).2 <? last_) then (- EINVAL, w)
    else if negb (first mod MCE_REG_BOUNDARY =? 0) || negb (w32 (last_ + 1) mod MCE_REG_BOUNDARY =? 0) then (- EINVAL, w)
    else
      let '(v, w) := mce_rd per (MCE_REGCR reg) w in
      let t := Z.ldiff v (Z.lor MCE_REGCR_CTXID_MASK MCE_REGCR_ENC_MASK) in
      let t := Z.lor t (Z.lor (w32 (Z.shiftl mode MCE_REGCR_ENC_OFF)) (w32 (Z.shiftl ctxid MCE_REGCR_CTXID_OFF))) in
      let w := mce_wr per (MCE_REGCR reg) t w in
      let w := mce_wr per (MCE_SADDR reg) first w in
      let w := mce_wr per (MCE_EADDR reg) last_ w in
      let '(v, w) := mce_rd per (MCE_REGCR reg) w in
      (EOK, mce_wr per (MCE_REGCR reg) (Z.lor v MCE_REGCR_BREN) w).

(** [base[reg] |= bit] when the lock is asked for *)
Definition lock_bit (per lock flag reg bit : Z) (w : W) : W :=
  if negb (Z.land lock flag =? 0) then
    let '(v, w) := mce_rd per reg w in mce_wr per reg (Z.lor v bit) w
  else w.

Definition mce_configureLockInternal (per lock : Z) (w : W) : W :=
  let w := lock_bit per lock MCE_CTX1KEYLOCK mce_cc1cfgr MCE_CCCFGR_KEYLOCK w in
  let w := lock_bit per lock MCE_CTX2KEYLOCK mce_cc2cfgr MCE_CCCFGR_KEYLOCK w in
  let w := lock_bit per lock MCE_CTX1LOCK mce_cc1cfgr MCE_CCCFGR_CCLOCK w in
  let w := lock_bit per lock MCE_CTX2LOCK mce_cc2cfgr MCE_CCCFGR_CCLOCK w in
  let w := lock_bit per lock MCE_MASTERLOCK mce_cr MCE_CR_MKLOCK w in
  lock_bit per lock MCE_GLOBALLOCK mce_cr MCE_CR_GLOCK w.

Definition mce_validateParamsInternal (per reg start end_ cipher mode : Z) (st : state) : Z :=
  if (per <? 0) || (mce_count <=? per) then - EINVAL
  else if (reg <? 0) || (mce_regcount <=? reg) then - EINVAL
  else if negb (cipher =? MCE_CIPHER_AES128) && negb (cipher =? MCE_CIPHER_AES256) && negb (cipher =? MCE_CIPHER_NOEKEON) then - EINVAL
  else if negb (mode =? MCE_MODE_STREAM) && negb (mode =? MCE_MODE_NBLOCK) && negb (mode =? MCE_MODE_FBLOCK) then - EINVAL
  else
    let p := params_of per st in
    if (mode =? MCE_MODE_STREAM) && (cipher =? MCE_CIPHER_AES256) then - EINVAL
    else if negb (mp_cipher p =? 0) && negb (mp_cipher p =? cipher) then - EINVAL
    else if negb (start mod MCE_REG_BOUNDARY =? 0) || negb (end_ mod MCE_REG_BOUNDARY =? 0) then - EINVAL
    else EOK.

(** [dev_mce1] to [dev_mce4] and [_stm32_rccSetDevClock(dev, 1)] of the platform. *)
Context (dev_mce1 dev_mce2 dev_mce3 dev_mce4 : Z) (clock : Z -> W -> W).

Definition mce_getMceForDevice (dev : Z) : Z :=
  if dev =? dev_mce1 then 0 else if dev =? dev_mce2 then 1
  else if dev =? dev_mce3 then 2 else if dev =? dev_mce4 then 3 else mce_count.

Definition mce_cipher (algo : Z) : option Z :=
  if algo =? DEV_MEMCRYPT_ALGO_AES128 then Some MCE_CIPHER_AES128
  else if algo =? DEV_MEMCRYPT_ALGO_NOEKEON then Some MCE_CIPHER_NOEKEON
  else if algo =? DEV_MEMCRYPT_ALGO_AES256 then Some MCE_CIPHER_AES256
  else None.

(** The context of a cipher with keys of 16 bytes. *)
Definition configure_context (fuel : nat) (per cipher : Z) (args : memcrypt_args) (w : W) : option (Z * W) :=
  if (cipher =? MCE_CIPHER_AES128) || (cipher =? MCE_CIPHER_NOEKEON) then
    if ma_mode args =? MCE_MODE_STREAM then
      if ma_ivSize args <? 8 then Some (- EINVAL, w)
      else mce_configureCipherContextInternal fuel per 1 0 (ma_mode args) (ma_iv args) (ma_key args) w
    else if negb (ma_ivSize args =? 0) then Some (- EINVAL, w)
    else mce_configureCipherContextInternal fuel per 1 0 (ma_mode args) None (ma_key args) w
  else Some (EOK, w).

(** The region is given by addresses of 32 bits. *)
Definition mce_configureRegion (fuel : nat) (dev reg : Z) (args : memcrypt_args) (st : state) : option (Z * state) :=
  match mce_cipher (ma_algo args) with
  | None => Some (- EINVAL, st)
  | Some cipher =>
      let per := mce_getMceForDevice dev in
      let ret := mce_validateParamsInternal per reg (ma_start args) (ma_end args) cipher (ma_mode args) st in
      if ret <? 0 then Some (ret, st)
      else
        let st :=
          if negb (mp_initialized (params_of per st)) then
            set_params per (mk_mce_params true (mp_cipher (params_of per st))) (st.1, clock dev st.2)
          else st in
        let mk := if (cipher =? MCE_CIPHER_AES256) && (ma_mode args =? MCE_MODE_NBLOCK) then ma_key args else None in
        let fmk := if (cipher =? MCE_CIPHER_AES256) && (ma_mode args =? MCE_MODE_FBLOCK) then ma_key args else None in
        '(ret, st) ← mce_configurePerInternal fuel per cipher mk fmk st;
        if ret <? 0 then Some (ret, st)
        else
          '(ret, w) ← configure_context fuel per cipher args st.2;
          let st := (st.1, w) in
          if ret <? 0 then Some (ret, st)
          else
            let base := (mce_region per).1 in
            let '(ret, w) := mce_configureRegionInternal per reg (ma_mode args) 1
              (w32 (base + ma_start args)) (w32 (base + ma_end args - 1)) st.2 in
            if ret <? 0 then Some (ret, (st.1, w))
            else Some (EOK, (st.1, mce_configureLockInternal per MCE_GLOBALLOCK w))
  end.

Definition mce_getGranularity (dev reg : Z) (w : W) : Z * W :=
  let per := mce_getMceForDevice dev in
  if (mce_count <=? per) || (reg <? 0) || (mce_regcount <=? reg) then (- EINVAL, w)
  else
    let '(regcr, w) := mce_rd per (MCE_REGCR reg) w in
    if Z.land regcr MCE_REGCR_BREN =? 0 then (0, w)
    else
      let m := Z.land (Z.shiftr regcr MCE_REGCR_ENC_OFF) MCE_MODE_MASK in
      (if (m =? MCE_MODE_NBLOCK) || (m =? MCE_MODE_FBLOCK) then 16 else 0, w).

End mce.

(** ** The checksum is CRC-8 *)

(** CRC-8 with the polynomial [x^8 + x^2 + x + 1], a bit at a time. *)
Definition crc8_bit (c : Z) : Z := if Z.testbit c 7 then Z.lxor (w8 (2 * c)) 7 else w8 (2 * c).
Definition crc8_byte (crc b : Z) : Z := Nat.iter 8 crc8_bit (Z.lxor crc b).
Definition crc8 (bs : list Z) : Z := fold_left crc8_byte bs 0.

Lemma crc8_step_bit x :
  0 <= x -> crc8_step x = Z.lxor (w32 (2 * x)) (if Z.testbit x 31 then Z.shiftl 7 24 else 0).
Proof.
  intros X. unfold crc8_step. rewrite (Z.shiftl_mul_pow2 x 1), Z.mul_comm by lia. change (2 ^ 1) with 2.
  assert (E : (Z.land x 0x80000000 =? 0) = negb (Z.testbit x 31)).
  { change 0x80000000 with (2 ^ 31). destruct (Z.testbit x 31) eqn:T; cbn [negb].
    - apply Z.eqb_neq. intros E. apply (f_equal (fun y => Z.testbit y 31)) in E.
      rewrite Z.land_spec, T, Z.pow2_bits_true, Z.bits_0 in E by lia. done.
    - apply Z.eqb_eq, Z.bits_inj'. intros i I. rewrite Z.land_spec, Z.pow2_bits_eqb, Z.bits_0 by lia.
      destruct (Z.eqb_spec 31 i) as [<-|]; [by rewrite T|by rewrite andb_false_r]. }
  rewrite E, negb_involutive. destruct (Z.testbit x 31); [done|by rewrite Z.lxor_0_r].
Qed.

Lemma w32_lxor a b : w32 (Z.lxor a b) = Z.lxor (w32 a) (w32 b).
Proof.
  unfold w32. rewrite <- !Z.land_ones by lia. apply Z.bits_inj'. intros i I.
  rewrite !Z.land_spec, !Z.lxor_spec, !Z.land_spec. by destruct (Z.testbit (Z.ones 32) i), (Z.testbit a i), (Z.testbit b i).
Qed.

Lemma double_lxor a b : 2 * Z.lxor a b = Z.lxor (2 * a) (2 * b).
Proof. rewrite <- !(Z.mul_comm _ 2). change 2 with (2 ^ 1). rewrite <- !Z.shiftl_mul_pow2 by lia. apply Z.shiftl_lxor. Qed.

Lemma lxor_range n a b : 0 <= n -> 0 <= a < 2 ^ n -> 0 <= b < 2 ^ n -> 0 <= Z.lxor a b < 2 ^ n.
Proof.
  intros N A B. replace (Z.lxor a b) with (Z.lxor a b mod 2 ^ n); [by apply Z.mod_pos_bound, Z.pow_pos_nonneg; lia|].
  rewrite <- (Z.mod_small a (2 ^ n)), <- (Z.mod_small b (2 ^ n)) by done. rewrite <- !Z.land_ones by done.
  apply Z.bits_inj'. intros i I. rewrite !Z.land_spec, !Z.lxor_spec, !Z.land_spec.
  by destruct (Z.testbit (Z.ones n) i), (Z.testbit a i), (Z.testbit b i).
Qed.

(** The step is linear, on words. *)
Lemma crc8_step_lxor a b : 0 <= a -> 0 <= b -> crc8_step (Z.lxor a b) = Z.lxor (crc8_step a) (crc8_step b).
Proof.
  intros A B. rewrite !crc8_step_bit by (rewrite ?Z.lxor_nonneg; lia). rewrite double_lxor, w32_lxor, Z.lxor_spec.
  set (p := Z.shiftl 7 24). destruct (Z.testbit a 31), (Z.testbit b 31); cbn [xorb]; apply Z.bits_inj'; intros i I;
    rewrite !Z.lxor_spec, ?Z.bits_0; by destruct (Z.testbit (w32 (2 * a)) i), (Z.testbit (w32 (2 * b)) i), (Z.testbit p i).
Qed.

Lemma crc8_step_nonneg a : 0 <= a -> 0 <= crc8_step a.
Proof.
  intros A. rewrite crc8_step_bit, Z.lxor_nonneg by done. pose proof (w32_range (2 * a)).
  destruct (Z.testbit a 31); [change (Z.shiftl 7 24) with 117440512|]; lia.
Qed.

Lemma crc8_steps_lxor n a b :
  0 <= a -> 0 <= b -> Nat.iter n crc8_step (Z.lxor a b) = Z.lxor (Nat.iter n crc8_step a) (Nat.iter n crc8_step b).
Proof.
  intros A B. assert (P : forall k x, 0 <= x -> 0 <= Nat.iter k crc8_step x).
  { intros k x X. induction k as [|k IH]; [done|]. by apply crc8_step_nonneg. }
  induction n as [|n IH]; [done|].
  change (Nat.iter (S n) crc8_step ?x) with (crc8_step (Nat.iter n crc8_step x)). rewrite IH. by apply crc8_step_lxor; apply P.
Qed.

(** Eight steps take the top byte of a word into the next one. *)
Lemma crc8_steps_low n r : 0 <= r -> r * 2 ^ Z.of_nat n < 2 ^ 32 -> Nat.iter n crc8_step r = r * 2 ^ Z.of_nat n.
Proof.
  intros R. induction n as [|n IH]; intros L; [cbn; lia|].
  rewrite Nat2Z.inj_succ, Z.pow_succ_r in * by lia.
  replace (r * (2 * 2 ^ Z.of_nat n)) with (2 * (r * 2 ^ Z.of_nat n)) in * by ring.
  assert (P : 0 <= r * 2 ^ Z.of_nat n) by (apply Z.mul_nonneg_nonneg; lia).
  cbn [Nat.iter]. change (Nat.iter (S n) crc8_step r) with (crc8_step (Nat.iter n crc8_step r)). rewrite IH by lia.
  set (m := r * 2 ^ Z.of_nat n) in *. clearbody m. rewrite crc8_step_bit by done.
  assert (T : Z.testbit m 31 = false) by (apply Z.testbit_false; [lia|]; by rewrite Z.div_small by (fold_pows; lia)).
  by rewrite T, Z.lxor_0_r, w32_small by lia.
Qed.

Lemma crc8_steps_top b : 0 <= b < 256 -> Nat.iter 8 crc8_step (Z.shiftl b 24) = Z.shiftl (Nat.iter 8 crc8_bit b) 24.
Proof.
  intros B.
  assert (E : forallb (fun b => Nat.iter 8 crc8_step (Z.shiftl b 24) =? Z.shiftl (Nat.iter 8 crc8_bit b) 24) (seqZ 0 256) = true)
    by (vm_compute; reflexivity).
  rewrite forallb_forall in E. apply Z.eqb_eq, E, list_elem_of_In, elem_of_seqZ. lia.
Qed.

Lemma crc8_byte_range crc b : 0 <= crc < 256 -> 0 <= b < 256 -> 0 <= crc8_byte crc b < 256.
Proof.
  intros C B. unfold crc8_byte.
  assert (S : forall c, 0 <= c -> 0 <= crc8_bit c < 256).
  { intros c P. unfold crc8_bit. assert (W : 0 <= w8 (2 * c) < 2 ^ 8) by (unfold w8; apply Z.mod_pos_bound; lia).
    destruct (Z.testbit c 7); [|lia]. change 256 with (2 ^ 8). apply lxor_range; lia. }
  cbn [Nat.iter]. apply S, S, S, S, S, S, S, S. rewrite Z.lxor_nonneg. lia.
Qed.

(** One byte: the top byte of the register, to which the checksum was added, leaves it. *)
Lemma crc8_eight c b r :
  0 <= c < 256 -> 0 <= b < 256 -> 0 <= r < 2 ^ 24 ->
  Nat.iter 8 crc8_step (Z.lxor (Z.shiftl c 24) (b * 2 ^ 24 + r)) = Z.lxor (Z.shiftl (crc8_byte c b) 24) (r * 256).
Proof.
  intros C B R.
  assert (E : Z.lxor (Z.shiftl c 24) (b * 2 ^ 24 + r) = Z.lxor (Z.shiftl (Z.lxor c b) 24) r).
  { rewrite Z.shiftl_lxor, Z.lxor_assoc. f_equal. rewrite <- Z.shiftl_mul_pow2 by lia.
    apply Z.add_nocarry_lxor, Z.bits_inj'. intros i I. rewrite Z.land_spec, Z.bits_0.
    destruct (decide (i < 24)) as [L|L]; [by rewrite Z.shiftl_spec_low|].
    rewrite (Z.bits_above_log2 r), andb_false_r; [done|lia|].
    destruct (decide (r = 0)) as [-> |]; [cbn; lia|]. assert (Z.log2 r < 24) by (apply Z.log2_lt_pow2; lia). lia. }
  assert (X : 0 <= Z.lxor c b < 256) by (change 256 with (2 ^ 8); apply lxor_range; lia).
  rewrite E, crc8_steps_lxor, crc8_steps_top by (rewrite ?Z.shiftl_nonneg; lia).
  rewrite (crc8_steps_low 8 r) by (cbn; lia). done.
Qed.

(** The checksum of a word is the CRC-8 of its bytes, the high one first, with the final
    value 0x55. *)
Lemma crc8_consumeWord_spec b3 b2 b1 b0 :
  is_byte b3 -> is_byte b2 -> is_byte b1 -> is_byte b0 ->
  crc8_consumeWord (le_val [b0; b1; b2; b3]) = Z.lxor (crc8 [b3; b2; b1; b0]) 0x55.
Proof.
  unfold is_byte. intros B3 B2 B1 B0. unfold crc8_consumeWord, crc8. cbn [fold_left le_val].
  change 32%nat with (8 + (8 + (8 + 8)))%nat. rewrite !Nat.iter_add.
  pose proof (crc8_byte_range 0 b3 ltac:(lia) B3) as C3. pose proof (crc8_byte_range _ b2 C3 B2) as C2.
  pose proof (crc8_byte_range _ b1 C2 B1) as C1. pose proof (crc8_byte_range _ b0 C1 B0) as C0.
  replace (b0 + 256 * (b1 + 256 * (b2 + 256 * (b3 + 256 * 0)))) with
    (Z.lxor (Z.shiftl 0 24) (b3 * 2 ^ 24 + (b2 * 2 ^ 16 + b1 * 2 ^ 8 + b0))) by (rewrite Z.shiftl_0_l, Z.lxor_0_l; lia).
  rewrite crc8_eight by lia.
  replace ((b2 * 2 ^ 16 + b1 * 2 ^ 8 + b0) * 256) with (b2 * 2 ^ 24 + (b1 * 2 ^ 16 + b0 * 2 ^ 8)) by lia.
  rewrite crc8_eight by lia. replace ((b1 * 2 ^ 16 + b0 * 2 ^ 8) * 256) with (b1 * 2 ^ 24 + b0 * 2 ^ 16) by lia.
  rewrite crc8_eight by lia. replace (b0 * 2 ^ 16 * 256) with (b0 * 2 ^ 24 + 0) by lia.
  rewrite crc8_eight by lia. rewrite Z.mul_0_l, Z.lxor_0_r, Z.shiftr_shiftl_l, Z.sub_diag, Z.shiftl_0_r by lia.
  unfold w8. apply Z.mod_small. change (2 ^ 8) with 256 in *. change 256 with (2 ^ 8). apply lxor_range; lia.
Qed.

(** ** The engine *)

(** The checksum the engine shows for the words of a key: the CRC-8 of each word, obscured
    by the checksum of the words before it and a constant. *)
Definition obscured (word o crc : Z) : Z :=
  Z.lxor word (Z.lor (Z.lor (Z.lor crc (Z.shiftl o 8)) (Z.shiftl crc 16)) (w32 (Z.shiftl o 24))).

Definition word_crc (word : Z) : Z := Z.lxor (crc8 (rev (le_bytes 4 word))) 0x55.

(** A checksum carried along words and constants. *)
Fixpoint check_with (f : Z -> Z -> Z -> Z) (words os : list Z) (crc : Z) : Z :=
  match words, os with
  | word :: words, o :: os => check_with f words os (f word o crc)
  | _, _ => crc
  end.

Lemma check_with_cons f word words o os crc :
  check_with f (word :: words) (o :: os) crc = check_with f words os (f word o crc).
Proof. reflexivity. Qed.

Definition next_crc (word o crc : Z) : Z := word_crc (obscured word o crc).

Definition key_check (words : list Z) : Z := check_with next_crc words obfuscation 0x55.

(** How the registers answer: [R] is what was written to each.  The configuration of a
    context shows the checksum of its key in its second byte. *)
Record Mce_hw `{Mce W} (R : W -> Z -> Z -> Z) : Prop := {
  hw_rd : forall per r w, r <> mce_sr -> r <> mce_cc1cfgr -> r <> mce_cc2cfgr -> mce_rd per r w = (R w per r, w);
  hw_rd_cfgr : forall per w, mce_rd per mce_cc1cfgr w =
    (Z.lor (Z.ldiff (R w per mce_cc1cfgr) 0xff00)
       (Z.shiftl (key_check (map (fun i => R w per (mce_cc1keyr0 + i)) (seqZ 0 4))) 8), w);
  hw_wr : forall per r v w per' r', R (mce_wr per r v w) per' r' =
    if (per' =? per) && (r' =? r) then v else R w per' r'
}.

(** The words of a buffer. *)
Definition word_at (key : list Z) (i : Z) : Z := le_val (zslice (4 * i) 4 key).

Lemma word_crc_consume w : 0 <= w < 2 ^ 32 -> crc8_consumeWord w = word_crc w.
Proof.
  intros R. unfold word_crc. pose proof (le_val_bytes 4 w) as E. pose proof (le_bytes_byte 4 w) as B.
  change (256 ^ Z.of_nat 4) with (2 ^ 32) in E. rewrite Z.mod_small in E by done. rewrite <- E at 1.
  cbn [le_bytes] in B |- *. repeat (apply Forall_cons in B as [? B]). cbn [rev app]. by apply crc8_consumeWord_spec.
Qed.

Lemma lor_range n a b : 0 <= n -> 0 <= a < 2 ^ n -> 0 <= b < 2 ^ n -> 0 <= Z.lor a b < 2 ^ n.
Proof.
  intros N A B. replace (Z.lor a b) with (Z.lor a b mod 2 ^ n); [by apply Z.mod_pos_bound, Z.pow_pos_nonneg; lia|].
  rewrite <- Z.land_ones by done. rewrite Z.land_lor_distr_l, !Z.land_ones, !Z.mod_small by done. done.
Qed.

Lemma obscured_range word o crc :
  0 <= word < 2 ^ 32 -> 0 <= o < 256 -> 0 <= crc < 256 -> 0 <= obscured word o crc < 2 ^ 32.
Proof.
  intros W O C. apply lxor_range; [lia|done|]. repeat apply lor_range; try lia; [..|apply w32_range].
  - rewrite Z.shiftl_mul_pow2 by lia. fold_pows. lia.
  - rewrite Z.shiftl_mul_pow2 by lia. change (2 ^ 16) with 65536. change (2 ^ 32) with 4294967296. lia.
Qed.

Lemma word_crc_range w : 0 <= word_crc w < 256.
Proof.
  unfold word_crc. change 256 with (2 ^ 8). apply lxor_range; [lia| |lia]. unfold crc8.
  assert (F : forall bs c, Forall is_byte bs -> 0 <= c < 256 -> 0 <= fold_left crc8_byte bs c < 256).
  { induction bs as [|b bs IH]; intros c B C; [done|]. apply Forall_cons in B as [B Bs]. cbn. apply IH; [done|].
    by apply crc8_byte_range. }
  apply F; [|lia]. apply Forall_rev, le_bytes_byte.
Qed.

Lemma consume_obscured word o crc :
  0 <= word < 2 ^ 32 -> 0 <= o < 256 -> 0 <= crc < 256 ->
  crc8_consumeWord (obscured word o crc) = next_crc word o crc.
Proof. intros. by apply word_crc_consume, obscured_range. Qed.

Lemma next_crc_range word o crc : 0 <= next_crc word o crc < 256.
Proof. apply word_crc_range. Qed.

Lemma obfuscation_bytes i o : obfuscation !! i = Some o -> 0 <= o < 256.
Proof. intros E. apply list_elem_of_lookup_2 in E. unfold obfuscation in E. set_unfold. lia. Qed.

Section store.
  Context `{Mce W} (R : W -> Z -> Z -> Z) (HW : Mce_hw R).

(** Storing a key writes its words to successive registers and no other, and answers the
    checksum the engine computes. *)
Lemma storeKey_loop_spec k per reg key (i : nat) crc w :
  Forall is_byte key -> (i + k <= 4)%nat -> 4 * Z.of_nat (i + k) <= zlen key -> 0 <= crc < 256 ->
  exists w', storeKey_loop k per reg key (Z.of_nat i) crc w =
    Some (check_with next_crc (map (word_at key) (seqZ (Z.of_nat i) (Z.of_nat k))) (drop i obfuscation) crc, w') /\
    forall per' r, R w' per' r =
      if (per' =? per) && (reg + Z.of_nat i <=? r) && (r <? reg + Z.of_nat (i + k)) then word_at key (r - reg) else R w per' r.
Proof.
  intros B. revert i crc w. induction k as [|k IH]; intros i crc w I L C.
  - cbn [storeKey_loop]. exists w. split; [done|]. intros per' r.
    destruct (Z.leb_spec (reg + Z.of_nat i) r), (Z.ltb_spec r (reg + Z.of_nat (i + 0))); try lia; by rewrite ?andb_false_r.
  - cbn [storeKey_loop]. rewrite load32_ok by lia. cbn [mbind option_bind].
    change (le_val (zslice (4 * Z.of_nat i) 4 key)) with (word_at key (Z.of_nat i)).
    destruct (lookup_lt_is_Some_2 obfuscation i) as [o Eo]; [cbn; lia|]. rewrite Nat2Z.id, Eo. cbn [mbind option_bind].
    pose proof (obfuscation_bytes _ _ Eo) as O.
    assert (WR : 0 <= word_at key (Z.of_nat i) < 2 ^ 32).
    { unfold word_at. pose proof (le_val_range (zslice (4 * Z.of_nat i) 4 key) ltac:(by apply Forall_zslice)) as P.
      rewrite length_zslice in P by lia. exact P. }
    change (Z.lxor (word_at key (Z.of_nat i)) _) with (obscured (word_at key (Z.of_nat i)) o crc).
    rewrite consume_obscured by done.
    replace (Z.of_nat i + 1) with (Z.of_nat (S i)) by lia.
    destruct (IH (S i) (next_crc (word_at key (Z.of_nat i)) o crc) (mce_wr per (reg + Z.of_nat i) (word_at key (Z.of_nat i)) w))
      as (w' & E & V); [lia|lia|apply next_crc_range|].
    exists w'. split.
    + rewrite E. rewrite (seqZ_cons (Z.of_nat i)) by lia. replace (Z.pred (Z.of_nat (S k))) with (Z.of_nat k) by lia.
      replace (Z.succ (Z.of_nat i)) with (Z.of_nat (S i)) by lia. rewrite (drop_S obfuscation o i Eo).
      rewrite map_cons, check_with_cons. reflexivity.
    + intros per' r. rewrite V, (hw_wr _ HW). clear - per'.
      destruct (Z.eqb_spec per' per), (Z.leb_spec (reg + Z.of_nat (S i)) r), (Z.ltb_spec r (reg + Z.of_nat (S i + k))),
        (Z.eqb_spec r (reg + Z.of_nat i)), (Z.leb_spec (reg + Z.of_nat i) r), (Z.ltb_spec r (reg + Z.of_nat (i + S k)));
        cbn [andb]; first [lia | reflexivity | f_equal; lia].
Qed.

Lemma mce_storeKey_spec per reg key n w :
  Forall is_byte key -> 0 <= n <= 4 -> 4 * n <= zlen key ->
  exists w', mce_storeKey per reg key (4 * n) w = Some (key_check (map (word_at key) (seqZ 0 n)), w') /\
    forall per' r, R w' per' r =
      if (per' =? per) && (reg <=? r) && (r <? reg + n) then word_at key (r - reg) else R w per' r.
Proof.
  intros B N L. unfold mce_storeKey. replace ((4 * n + 3) / 4) with n by modlia.
  destruct (storeKey_loop_spec (Z.to_nat n) per reg key 0 0x55 w) as (w' & E & V); [done|lia|lia|lia|].
  exists w'. replace (Z.of_nat (Z.to_nat n)) with n in E by lia. split; [exact E|]. intros per' r. rewrite V.
  rewrite Z.add_0_r. by replace (reg + Z.of_nat (0 + Z.to_nat n)) with (reg + n) by lia.
Qed.

End store.

(** ** Fields of registers *)

(** What is read from the configuration of a context. *)
Definition cfg_read (x c : Z) : Z := Z.lor (Z.ldiff x 0xff00) (Z.shiftl c 8).

Lemma field_ext (a b n : Z) :
  0 <= n -> (forall i, 0 <= i < n -> Z.testbit a i = Z.testbit b i) -> Z.land a (Z.ones n) = Z.land b (Z.ones n).
Proof.
  intros N E. apply Z.bits_inj'. intros i I. rewrite !Z.land_spec.
  destruct (decide (i < n)) as [L|L]; [by rewrite E by lia|].
  by rewrite Z.ones_spec_high, !andb_false_r by lia.
Qed.

Lemma cfg_low x c : Z.land (cfg_read x c) 1 = Z.land x 1.
Proof.
  change 1 with (Z.ones 1). apply field_ext; [lia|]. intros i I. replace i with 0 by lia. unfold cfg_read.
  rewrite Z.lor_spec, Z.ldiff_spec, Z.shiftl_spec_low by lia. by rewrite orb_false_r, andb_true_r.
Qed.

Lemma cfg_mode x c : Z.land (Z.shiftr (cfg_read x c) 4) 3 = Z.land (Z.shiftr x 4) 3.
Proof.
  change 3 with (Z.ones 2). apply field_ext; [lia|]. intros i I. rewrite !Z.shiftr_spec by lia. unfold cfg_read.
  rewrite Z.lor_spec, Z.ldiff_spec, Z.shiftl_spec_low by lia.
  assert (i = 0 \/ i = 1) as [-> | ->] by lia; by rewrite orb_false_r, andb_true_r.
Qed.

Lemma cfg_crc x c : 0 <= c < 256 -> Z.land (Z.shiftr (cfg_read x c) 8) 0xff = c.
Proof.
  intros C. transitivity (Z.land c (Z.ones 8)).
  - change 0xff with (Z.ones 8). apply field_ext; [lia|]. intros i I. rewrite Z.shiftr_spec by lia. unfold cfg_read.
    rewrite Z.lor_spec, Z.ldiff_spec, Z.shiftl_spec by lia. replace (i + 8 - 8) with i by lia.
    change 0xff00 with (Z.shiftl (Z.ones 8) 8). rewrite Z.shiftl_spec by lia. replace (i + 8 - 8) with i by lia.
    rewrite Z.ones_spec_low by lia. by rewrite andb_false_r.
  - rewrite Z.land_ones by lia. by apply Z.mod_small.
Qed.

(** A field of two bits that was set, under bits that are set elsewhere. *)
Lemma set_field x mask v off other k :
  0 <= v <= 3 -> 0 <= off -> 0 <= k -> (forall i, off <= i < off + 2 -> Z.testbit mask i = true) ->
  (forall i, off <= i < off + 2 -> Z.testbit other i = false) -> k = off ->
  Z.land (Z.shiftr (Z.lor (Z.lor (Z.ldiff x mask) (Z.shiftl v off)) other) k) 3 = v.
Proof.
  intros V O K M Ot ->. transitivity (Z.land v (Z.ones 2)).
  - change 3 with (Z.ones 2). apply field_ext; [lia|]. intros i I.
    rewrite Z.shiftr_spec, !Z.lor_spec, Z.ldiff_spec, Z.shiftl_spec, M, Ot by lia.
    rewrite andb_false_r, orb_false_r. cbn [orb]. f_equal. lia.
  - rewrite Z.land_ones by lia. apply Z.mod_small. change (2 ^ 2) with 4. lia.
Qed.

Lemma lor_bit0 x : Z.land (Z.lor x 1) 1 = 1.
Proof. rewrite Z.land_lor_distr_l. change (Z.land 1 1) with 1. change 1 with (Z.ones 1) at 1. rewrite Z.land_ones by lia.
  change (2 ^ 1) with 2. assert (E : x mod 2 = 0 \/ x mod 2 = 1) by modlia. by destruct E as [-> | ->]. Qed.

(** ** A region that is made ready *)

Section ready.
  Context `{Mce W} (R : W -> Z -> Z -> Z) (HW : Mce_hw R).

Lemma rd_cfg per w : mce_rd per mce_cc1cfgr w =
  (cfg_read (R w per mce_cc1cfgr) (key_check (map (fun i => R w per (mce_cc1keyr0 + i)) (seqZ 0 4))), w).
Proof. apply (hw_rd_cfgr _ HW). Qed.

Lemma key_check_range words : 0 <= key_check words < 256.
Proof.
  unfold key_check. assert (C : 0 <= 0x55 < 256) by lia. revert C. generalize 0x55, obfuscation. intros c os.
  revert c os. induction words as [|w words IH]; intros c os C; [done|]. destruct os as [|o os]; [done|].
  rewrite check_with_cons. apply IH, next_crc_range.
Qed.

(** The initial value for the stream mode has eight bytes. *)
Definition nonce_fits (mode : Z) (nonce : option (list Z)) : Prop :=
  match nonce with
  | Some n => mode = MCE_MODE_STREAM /\ Forall is_byte n /\ 8 <= zlen n
  | None => mode = MCE_MODE_NBLOCK \/ mode = MCE_MODE_FBLOCK
  end.

(** A context that is not in use is given its mode and key, and enabled. *)
Lemma context_ready fuel per mode nonce key w :
  (0 < fuel)%nat -> nonce_fits mode nonce -> Forall is_byte key -> 16 <= zlen key ->
  Z.land (R w per mce_cc1cfgr) 1 = 0 ->
  exists w', mce_configureCipherContextInternal fuel per 1 0 mode nonce (Some key) w = Some (EOK, w') /\
    (forall per' r, per' <> per \/ r < mce_cc1cfgr \/ mce_cc1keyr0 + 4 <= r -> R w' per' r = R w per' r) /\
    (forall i, 0 <= i < 4 -> R w' per (mce_cc1keyr0 + i) = word_at key i) /\
    (forall n i, nonce = Some n -> 0 <= i < 2 -> R w' per (mce_cc1nr0 + i) = word_at n i) /\
    Z.land (R w' per mce_cc1cfgr) 1 = 1 /\ Z.land (Z.shiftr (R w' per mce_cc1cfgr) 4) 3 = mode.
Proof.
  intros F N B L U. unfold mce_configureCipherContextInternal. change (1 =? 1) with true. cbn [negb andb]. cbv iota.
  assert (M : mode = 1 \/ mode = 2 \/ mode = 3)
    by (destruct nonce; cbn in N; unfold MCE_MODE_STREAM, MCE_MODE_NBLOCK, MCE_MODE_FBLOCK in N; lia).
  replace ((mode =? MCE_MODE_STREAM) && negb (given nonce)) with false.
  2: { destruct nonce; [by rewrite andb_false_r|]. cbn in N. destruct N as [-> | ->]; done. }
  replace (negb (mode =? MCE_MODE_STREAM) && given nonce) with false.
  2: { destruct nonce; [|by rewrite andb_false_r]. cbn in N. destruct N as [-> _]; done. }
  change (MCE_CCCFGR 1) with mce_cc1cfgr. rewrite rd_cfg, cfg_low, U. change (negb (0 =? 0)) with false. cbv iota.
  rewrite rd_cfg. set (c0 := key_check _). set (x0 := cfg_read _ c0).
  set (t := Z.lor (Z.ldiff x0 _) (w32 (Z.shiftl mode MCE_CCCFGR_MODE_OFF))).
  assert (X : exists t1 w1,
    match nonce with
    | Some nonce =>
        if mode =? MCE_MODE_STREAM then
          '(_, w) ← mce_storeKey per mce_cc1nr0 nonce 8 w;
          Some (Z.lor t (Z.shiftl 0 MCE_CCCFGR_VERSION_OFF), w)
        else Some (t, w)
    | None => Some (t, w)
    end = Some (t1, w1) /\ t1 = Z.lor t 0 /\
    forall per' r, R w1 per' r =
      match nonce with
      | Some n => if (per' =? per) && (mce_cc1nr0 <=? r) && (r <? mce_cc1nr0 + 2) then word_at n (r - mce_cc1nr0) else R w per' r
      | None => R w per' r
      end).
  { destruct nonce as [n|]; cbn in N.
    - destruct N as (-> & Bn & Ln). rewrite Z.eqb_refl.
      destruct (mce_storeKey_spec R HW per mce_cc1nr0 n 2 w Bn ltac:(lia) ltac:(lia)) as (w1 & E & V).
      change (4 * 2) with 8 in E. rewrite E. cbn [mbind option_bind]. do 2 eexists. split; [reflexivity|]. split; [done|exact V].
    - exists t, w. by rewrite Z.lor_0_r. }
  destruct X as (t1 & w1 & -> & -> & V1). cbn [mbind option_bind].
  destruct (mce_storeKey_spec R HW per mce_cc1keyr0 key 4 (mce_wr per mce_cc1cfgr (Z.lor t 0) w1) B ltac:(lia) ltac:(lia))
    as (w2 & E2 & V2).
  change (4 * 4) with 16 in E2. rewrite E2.
  cbn [mbind option_bind]. rewrite rd_cfg.
  replace (map (fun i => R w2 per (mce_cc1keyr0 + i)) (seqZ 0 4)) with (map (word_at key) (seqZ 0 4)).
  2: { apply map_ext_in. intros i I%list_elem_of_In%elem_of_seqZ. rewrite V2, Z.eqb_refl.
       destruct (Z.leb_spec mce_cc1keyr0 (mce_cc1keyr0 + i)), (Z.ltb_spec (mce_cc1keyr0 + i) (mce_cc1keyr0 + 4)); try lia.
       cbn [andb]. f_equal. lia. }
  set (ck := key_check (map (word_at key) (seqZ 0 4))).
  pose proof (key_check_range (map (word_at key) (seqZ 0 4))) as CK. fold ck in CK. clearbody ck.
  rewrite cfg_crc by done. rewrite Z.eqb_refl. cbn [negb mbind option_bind]. rewrite rd_cfg.
  assert (C2 : R w2 per mce_cc1cfgr = Z.lor t 0).
  { rewrite V2. change ((mce_cc1keyr0 <=? mce_cc1cfgr)) with false. rewrite andb_false_r. cbn [andb].
    by rewrite (hw_wr _ HW), !Z.eqb_refl. }
  set (w3 := mce_wr per mce_cc1cfgr (Z.lor (cfg_read _ _) MCE_CCCFGR_CCEN) w2).
  assert (C3 : R w3 per mce_cc1cfgr = Z.lor (cfg_read (Z.lor t 0) (key_check (map (fun i => R w2 per (mce_cc1keyr0 + i)) (seqZ 0 4)))) MCE_CCCFGR_CCEN).
  { unfold w3. by rewrite (hw_wr _ HW), !Z.eqb_refl, C2. }
  set (c3 := key_check _) in C3. clearbody c3.
  destruct fuel as [|fuel]; [lia|]. cbn [mce_waitBusy]. rewrite rd_cfg.
  change MCE_CCCFGR_CCEN with 1 at 1. rewrite cfg_low, C3. change MCE_CCCFGR_CCEN with 1. rewrite lor_bit0.
  change (1 =? 0) with false. cbv iota. cbn [mbind option_bind].
  assert (V3 : forall per' r, r <> mce_cc1cfgr -> R w3 per' r = if (per' =? per) && (mce_cc1keyr0 <=? r) && (r <? mce_cc1keyr0 + 4)
    then word_at key (r - mce_cc1keyr0) else R w1 per' r).
  { intros per' r Nr. apply Z.eqb_neq in Nr as D. unfold w3.
    rewrite (hw_wr _ HW), D, andb_false_r. cbv iota. rewrite V2, (hw_wr _ HW), D. by rewrite andb_false_r. }
  exists w3. split; [done|]. split_and!.
  - intros per' r O. destruct (decide (r = mce_cc1cfgr)) as [->|N3].
    + destruct O as [O|O]; [|unfold mce_cc1cfgr, mce_cc1keyr0 in O; lia].
      apply Z.eqb_neq in O as D. unfold w3.
      rewrite (hw_wr _ HW), D. cbn [andb]. rewrite V2, (hw_wr _ HW), D. cbn [andb]. rewrite V1, D. by destruct nonce.
    + rewrite V3, V1 by done. unfold mce_cc1cfgr, mce_cc1keyr0, mce_cc1nr0 in *.
      destruct (Z.eqb_spec per' per) as [->|]; [|by destruct nonce].
      destruct (Z.leb_spec 0x93 r), (Z.ltb_spec r (0x93 + 4)); try lia; cbn [andb]; destruct nonce; try done;
        destruct (Z.leb_spec 0x91 r), (Z.ltb_spec r (0x91 + 2)); try lia; done.
  - intros i I. rewrite V3 by (unfold mce_cc1keyr0, mce_cc1cfgr; lia). rewrite Z.eqb_refl.
    destruct (Z.leb_spec mce_cc1keyr0 (mce_cc1keyr0 + i)), (Z.ltb_spec (mce_cc1keyr0 + i) (mce_cc1keyr0 + 4)); try lia.
    cbn [andb]. f_equal. lia.
  - intros n i -> I. rewrite V3, V1 by (unfold mce_cc1nr0, mce_cc1cfgr; lia). rewrite Z.eqb_refl.
    unfold mce_cc1keyr0, mce_cc1nr0 in *.
    destruct (Z.leb_spec 0x93 (0x91 + i)), (Z.leb_spec 0x91 (0x91 + i)), (Z.ltb_spec (0x91 + i) (0x91 + 2)); try lia.
    cbn [andb]. f_equal. lia.
  - rewrite C3. apply lor_bit0.
  - rewrite C3, Z.shiftr_lor. change (Z.shiftr MCE_CCCFGR_CCEN 4) with 0. rewrite Z.lor_0_r, cfg_mode.
    unfold t. replace (w32 _) with (Z.shiftl mode 4).
    + apply set_field; [lia|done|done| | |done]; intros i I; [|apply Z.bits_0].
      assert (i = 4 \/ i = 5) as [-> | ->] by lia; done.
    + unfold MCE_CCCFGR_MODE_OFF. by destruct M as [-> | [-> | ->]].
Qed.

Lemma rd_plain per r w : r <> mce_sr -> r <> mce_cc1cfgr -> r <> mce_cc2cfgr -> mce_rd per r w = (R w per r, w).
Proof. apply (hw_rd _ HW). Qed.

Lemma wr_same per r v w : R (mce_wr per r v w) per r = v.
Proof. by rewrite (hw_wr _ HW), !Z.eqb_refl. Qed.

Lemma wr_other per r v w per' r' : per' <> per \/ r' <> r -> R (mce_wr per r v w) per' r' = R w per' r'.
Proof. intros [D%Z.eqb_neq|D%Z.eqb_neq]; by rewrite (hw_wr _ HW), D, ?andb_false_r. Qed.

(** What is written to the control register of a region. *)
Definition region_cfg (v mode : Z) : Z :=
  Z.lor (Z.lor (Z.ldiff v (Z.lor MCE_REGCR_CTXID_MASK MCE_REGCR_ENC_MASK))
    (Z.lor (w32 (Z.shiftl mode MCE_REGCR_ENC_OFF)) (w32 (Z.shiftl 1 MCE_REGCR_CTXID_OFF)))) MCE_REGCR_BREN.

Lemma region_cfg_fields v mode : 1 <= mode <= 3 ->
  Z.land (region_cfg v mode) MCE_REGCR_BREN = MCE_REGCR_BREN /\
  Z.land (Z.shiftr (region_cfg v mode) MCE_REGCR_CTXID_OFF) 3 = 1 /\
  Z.land (Z.shiftr (region_cfg v mode) MCE_REGCR_ENC_OFF) 3 = mode.
Proof.
  intros M. unfold region_cfg. assert (mode = 1 \/ mode = 2 \/ mode = 3) as D by lia. split_and!.
  - apply lor_bit0.
  - rewrite (Z.lor_comm (w32 (Z.shiftl mode _))), Z.lor_assoc, <- (Z.lor_assoc _ _ MCE_REGCR_BREN).
    change (w32 (Z.shiftl 1 MCE_REGCR_CTXID_OFF)) with (Z.shiftl 1 9).
    apply set_field; [lia|done|done| | |done]; intros i I; assert (i = 9 \/ i = 10) as Ei by lia;
      destruct D as [-> | [-> | ->]], Ei as [-> | ->]; reflexivity.
  - rewrite Z.lor_assoc, <- (Z.lor_assoc _ _ MCE_REGCR_BREN). replace (w32 (Z.shiftl mode _)) with (Z.shiftl mode 14).
    + apply set_field; [lia|done|done| | |done]; intros i I; assert (i = 14 \/ i = 15) as [-> | ->] by lia; reflexivity.
    + destruct D as [-> | [-> | ->]]; reflexivity.
Qed.

(** A region inside the memory of the engine is bound to the context of its mode. *)
Lemma region_ready per reg mode first last_ w :
  1 <= mode <= 3 -> 0 <= reg < mce_regcount ->
  Z.land (Z.shiftr (R w per mce_cc1cfgr) 4) 3 = mode ->
  (mce_region per).1 <= first <= last_ -> last_ <= (mce_region per).2 ->
  first mod MCE_REG_BOUNDARY = 0 -> (last_ + 1) mod MCE_REG_BOUNDARY = 0 -> last_ + 1 < 2 ^ 32 ->
  exists w', mce_configureRegionInternal per reg mode 1 first last_ w = (EOK, w') /\
    R w' per (MCE_REGCR reg) = region_cfg (R w per (MCE_REGCR reg)) mode /\
    R w' per (MCE_SADDR reg) = first /\ R w' per (MCE_EADDR reg) = last_ /\
    (forall per' r, per' <> per \/ r < MCE_REGCR reg \/ MCE_EADDR reg < r -> R w' per' r = R w per' r).
Proof.
  intros M G E B1 B2 A1 A2 O. unfold mce_configureRegionInternal. change (1 =? 0) with false. change (1 =? 1) with true.
  cbn [negb andb]. rewrite andb_false_r. cbv iota. change (MCE_CCCFGR 1) with mce_cc1cfgr. rewrite rd_cfg.
  change MCE_CCCFGR_MODE_OFF with 4. change MCE_MODE_MASK with 3. rewrite cfg_mode, E, Z.eqb_refl. cbn [negb].
  replace (last_ <? first) with false by (symmetry; apply Z.ltb_ge; lia).
  replace (first <? (mce_region per).1) with false by (symmetry; apply Z.ltb_ge; lia).
  replace ((mce_region per).2 <? last_) with false by (symmetry; apply Z.ltb_ge; lia). cbn [orb].
  assert (0 <= (mce_region per).1) by (unfold mce_region; repeat case_match; cbn; lia).
  rewrite w32_small by lia. rewrite A1, A2, Z.eqb_refl. cbn [negb orb].
  unfold mce_regcount in G.
  rewrite !rd_plain by (unfold MCE_REGCR, mce_sr, mce_cc1cfgr, mce_cc2cfgr; lia).
  eexists. split; [reflexivity|]. unfold MCE_EADDR, MCE_SADDR. split_and!.
  - rewrite wr_same, !wr_other, wr_same by (unfold MCE_REGCR; lia). reflexivity.
  - rewrite !wr_other, wr_same by (unfold MCE_REGCR; lia). done.
  - rewrite wr_other, wr_same by (unfold MCE_REGCR; lia). done.
  - intros per' r D. unfold MCE_REGCR in *. rewrite !wr_other by lia. done.
Qed.


(** The engine of a device, its parameters and the region fit what is asked for. *)
Record request_ok (clock : Z -> W -> W) (dev per reg cipher : Z) (args : memcrypt_args) (key : list Z) (st : gmap Z mce_params * W) : Prop := {
  rq_per : 0 <= per < mce_count;
  rq_reg : 0 <= reg < mce_regcount;
  rq_cipher : mce_cipher (ma_algo args) = Some cipher;
  rq_short : cipher = MCE_CIPHER_AES128 \/ cipher = MCE_CIPHER_NOEKEON;
  rq_same : mp_cipher (params_of per st) = 0 \/ mp_cipher (params_of per st) = cipher;
  rq_start : ma_start args mod MCE_REG_BOUNDARY = 0;
  rq_end : ma_end args mod MCE_REG_BOUNDARY = 0;
  rq_range : 0 <= ma_start args < ma_end args /\ ma_end args <= 0x10000000;
  rq_key : ma_key args = Some key /\ Forall is_byte key /\ 16 <= zlen key;
  rq_iv : nonce_fits (ma_mode args) (if ma_mode args =? MCE_MODE_STREAM then ma_iv args else None);
  rq_ivsize : if ma_mode args =? MCE_MODE_STREAM then 8 <= ma_ivSize args else ma_ivSize args = 0;
  rq_clock : forall w per r, R (clock dev w) per r = R w per r;
  rq_free : Z.land (R st.2 per mce_cc1cfgr) 1 = 0
}.

(** The engine's cipher is selected when it was not. *)
Lemma perInternal_selects fuel per cipher st :
  1 <= cipher <= 3 -> mp_cipher (params_of per st) = 0 \/ mp_cipher (params_of per st) = cipher ->
  exists st', mce_configurePerInternal fuel per cipher None None st = Some (EOK, st') /\
    mp_cipher (params_of per st') = cipher /\
    (mp_cipher (params_of per st) = 0 -> Z.land (Z.shiftr (R st'.2 per mce_cr) MCE_CR_CIPHERSEL_OFF) 3 = cipher) /\
    (forall per' r, per' <> per \/ r <> mce_cr -> R st'.2 per' r = R st.2 per' r).
Proof.
  intros C D. unfold mce_configurePerInternal. cbn [store_master mbind option_bind].
  destruct (Z.eqb_spec (mp_cipher (params_of per st)) 0) as [Z0|Z0].
  - rewrite rd_plain by done. eexists. split; [reflexivity|]. cbn [fst snd set_params]. split_and!.
    + unfold params_of. cbn [fst set_params]. rewrite lookup_insert_eq. cbn. apply Z.mod_small. lia.
    + intros _. rewrite wr_same, <- (Z.lor_0_r (Z.lor _ _)). replace (w32 _) with (Z.shiftl cipher 4).
      * apply set_field; [lia|done|done| | |done]; intros i I; [|apply Z.bits_0].
        assert (i = 4 \/ i = 5) as [-> | ->] by lia; done.
      * assert (cipher = 1 \/ cipher = 2 \/ cipher = 3) as [-> | [-> | ->]] by lia; reflexivity.
    + intros per' r O. by apply wr_other.
  - destruct st as [ps w]. exists (ps, w). split; [done|]. split_and!; [lia|done|done].
Qed.

(** The context of the region's cipher. *)
Lemma configure_context_ready clock fuel dev per reg cipher args key st w :
  request_ok clock dev per reg cipher args key st -> (0 < fuel)%nat -> Z.land (R w per mce_cc1cfgr) 1 = 0 ->
  exists w', configure_context fuel per cipher args w = Some (EOK, w') /\
    (forall per' r, per' <> per \/ r < mce_cc1cfgr \/ mce_cc1keyr0 + 4 <= r -> R w' per' r = R w per' r) /\
    (forall i, 0 <= i < 4 -> R w' per (mce_cc1keyr0 + i) = word_at key i) /\
    (forall iv i, ma_mode args = MCE_MODE_STREAM -> ma_iv args = Some iv -> 0 <= i < 2 ->
      R w' per (mce_cc1nr0 + i) = word_at iv i) /\
    Z.land (R w' per mce_cc1cfgr) 1 = 1 /\ Z.land (Z.shiftr (R w' per mce_cc1cfgr) 4) 3 = ma_mode args.
Proof.
  intros [] F U. unfold configure_context. destruct rq_key0 as (-> & B & L).
  replace ((cipher =? MCE_CIPHER_AES128) || (cipher =? MCE_CIPHER_NOEKEON)) with true
    by (destruct rq_short0 as [-> | ->]; done).
  destruct (Z.eqb_spec (ma_mode args) MCE_MODE_STREAM) as [S|S].
  - replace (ma_ivSize args <? 8) with false by (symmetry; apply Z.ltb_ge; lia).
    destruct (context_ready fuel per (ma_mode args) (ma_iv args) key w F rq_iv0 B L U) as (w' & E & V1 & V2 & V3 & V4 & V5).
    exists w'. split_and!; [done..| |done|done]. intros iv i _ I. by apply V3.
  - rewrite rq_ivsize0, Z.eqb_refl. cbn [negb].
    destruct (context_ready fuel per (ma_mode args) None key w F rq_iv0 B L U) as (w' & E & V1 & V2 & V3 & V4 & V5).
    exists w'. split_and!; try done.
Qed.

(** The parameters are those of an engine with the cipher. *)
Lemma request_valid clock dev per reg cipher args key st :
  request_ok clock dev per reg cipher args key st -> mce_validateParamsInternal per reg (ma_start args) (ma_end args) cipher (ma_mode args) st = EOK.
Proof.
  intros []. unfold mce_validateParamsInternal, mce_count, mce_regcount in *.
  replace ((per <? 0) || (4 <=? per)) with false by (symmetry; apply orb_false_intro; [apply Z.ltb_ge|apply Z.leb_gt]; lia).
  replace ((reg <? 0) || (4 <=? reg)) with false by (symmetry; apply orb_false_intro; [apply Z.ltb_ge|apply Z.leb_gt]; lia).
  rewrite rq_start0, rq_end0. cbn [Z.eqb negb orb].
  assert (M : ma_mode args = 1 \/ ma_mode args = 2 \/ ma_mode args = 3).
  { destruct (ma_mode args =? MCE_MODE_STREAM) eqn:D; [apply Z.eqb_eq in D; by left|]. right. exact rq_iv0. }
  replace (negb (mp_cipher (params_of per st) =? 0) && negb (mp_cipher (params_of per st) =? cipher)) with false.
  2: { symmetry. destruct rq_same0 as [-> | ->]; [done|]. by rewrite Z.eqb_refl, andb_false_r. }
  destruct rq_short0 as [-> | ->], M as [-> | [-> | ->]]; reflexivity.
Qed.

Lemma mce_region_range per :
  (mce_region per).2 = (mce_region per).1 + 0x0fffffff /\ (mce_region per).1 mod MCE_REG_BOUNDARY = 0 /\
  0 <= (mce_region per).1 <= 0x90000000.
Proof. unfold mce_region. repeat case_match; cbn; split_and!; done || lia. Qed.

Lemma lock_global per w :
  mce_configureLockInternal per MCE_GLOBALLOCK w = mce_wr per mce_cr (Z.lor (R w per mce_cr) MCE_CR_GLOCK) w.
Proof.
  unfold mce_configureLockInternal, lock_bit.
  replace (negb (Z.land MCE_GLOBALLOCK MCE_GLOBALLOCK =? 0)) with true by done.
  repeat match goal with |- context [negb (Z.land MCE_GLOBALLOCK ?f =? 0)] =>
    replace (negb (Z.land MCE_GLOBALLOCK f =? 0)) with false by done end.
  cbv iota. by rewrite rd_plain.
Qed.

(** A request that fits is granted: the region covers what was asked for, bound to the
    first context, which has the key; the engine has the cipher and is locked. *)
Lemma mce_configureRegion_ready d1 d2 d3 d4 clock fuel dev reg cipher args key st :
  let per := mce_getMceForDevice d1 d2 d3 d4 dev in
  request_ok clock dev per reg cipher args key st -> (0 < fuel)%nat ->
  exists st', mce_configureRegion d1 d2 d3 d4 clock fuel dev reg args st = Some (EOK, st') /\
    R st'.2 per (MCE_SADDR reg) = (mce_region per).1 + ma_start args /\
    R st'.2 per (MCE_EADDR reg) = (mce_region per).1 + ma_end args - 1 /\
    R st'.2 per (MCE_REGCR reg) = region_cfg (R st.2 per (MCE_REGCR reg)) (ma_mode args) /\
    (forall i, 0 <= i < 4 -> R st'.2 per (mce_cc1keyr0 + i) = word_at key i) /\
    (forall iv i, ma_mode args = MCE_MODE_STREAM -> ma_iv args = Some iv -> 0 <= i < 2 ->
      R st'.2 per (mce_cc1nr0 + i) = word_at iv i) /\
    Z.land (R st'.2 per mce_cc1cfgr) MCE_CCCFGR_CCEN = MCE_CCCFGR_CCEN /\
    mp_cipher (params_of per st') = cipher /\ Z.land (R st'.2 per mce_cr) MCE_CR_GLOCK = MCE_CR_GLOCK /\
    (mp_cipher (params_of per st) = 0 -> Z.land (Z.shiftr (R st'.2 per mce_cr) MCE_CR_CIPHERSEL_OFF) 3 = cipher) /\
    (forall per' r, per' <> per -> R st'.2 per' r = R st.2 per' r).
Proof.
  intros per Q F. pose proof (request_valid _ _ _ _ _ _ _ _ Q) as V. pose proof Q as []. unfold mce_configureRegion.
  rewrite rq_cipher0. fold per. rewrite V. change (EOK <? 0) with false. cbv iota.
  set (st1 := if negb (mp_initialized _) then _ else st).
  assert (P1 : mp_cipher (params_of per st1) = mp_cipher (params_of per st)).
  { unfold st1. destruct (mp_initialized _); [done|]. cbn [negb]. unfold set_params, params_of at 1. cbn [fst].
    by rewrite lookup_insert_eq. }
  assert (R1 : forall per' r, R st1.2 per' r = R st.2 per' r).
  { unfold st1. destruct (mp_initialized _); [done|]. intros. apply rq_clock0. }
  clearbody st1.
  replace (cipher =? MCE_CIPHER_AES256) with false by (destruct rq_short0 as [-> | ->]; done). cbn [andb].
  destruct (perInternal_selects fuel per cipher st1) as (st2 & -> & P2 & C2 & R2).
  { unfold MCE_CIPHER_AES128, MCE_CIPHER_NOEKEON in rq_short0. lia. }
  { by rewrite P1. }
  cbn [mbind option_bind]. change (EOK <? 0) with false. cbv iota.
  destruct (configure_context_ready clock fuel dev per reg cipher args key st st2.2 Q F) as (w3 & -> & R3 & K3 & N3 & E3 & M3).
  { rewrite R2, R1 by (right; done). done. }
  cbn [mbind option_bind]. change (EOK <? 0) with false. cbv iota.
  destruct (mce_region_range per) as (RB & RA & RR).
  pose proof (Zplus_mod (mce_region per).1 (ma_start args) MCE_REG_BOUNDARY) as A1.
  pose proof (Zplus_mod (mce_region per).1 (ma_end args) MCE_REG_BOUNDARY) as A2.
  rewrite RA, rq_start0 in A1. rewrite RA, rq_end0 in A2.
  rewrite !w32_small by lia.
  assert (M : 1 <= ma_mode args <= 3).
  { destruct (ma_mode args =? MCE_MODE_STREAM) eqn:D; [apply Z.eqb_eq in D as ->; done|].
    cbn in rq_iv0. unfold MCE_MODE_NBLOCK, MCE_MODE_FBLOCK in rq_iv0. lia. }
  destruct (region_ready per reg (ma_mode args) ((mce_region per).1 + ma_start args) ((mce_region per).1 + ma_end args - 1) w3)
    as (w4 & E & G4 & S4 & D4 & R4); [done|done|done|lia|lia|exact A1| |lia|].
  { replace (_ - 1 + 1) with ((mce_region per).1 + ma_end args) by lia. exact A2. }
  cbn [fst snd] in *. rewrite E. change (EOK <? 0) with false. cbv iota. rewrite lock_global.
  eexists. split; [reflexivity|]. cbn [fst snd]. change MCE_CCCFGR_CCEN with 1.
  unfold mce_regcount, mce_cc1keyr0, mce_cc1nr0, mce_cc1cfgr, mce_cr in *. split_and!.
  - rewrite wr_other by (unfold MCE_SADDR; lia). done.
  - rewrite wr_other by (unfold MCE_EADDR; lia). done.
  - rewrite wr_other by (unfold MCE_REGCR; lia). rewrite G4. f_equal.
    rewrite R3, R2, R1 by (unfold MCE_REGCR; lia). done.
  - intros i I. rewrite wr_other, R4 by (unfold MCE_EADDR; lia). by apply K3.
  - intros iv i Sm Iv I. rewrite wr_other, R4 by (unfold MCE_EADDR; lia). by apply N3.
  - rewrite wr_other, R4 by (unfold MCE_EADDR; lia). done.
  - exact P2.
  - rewrite wr_same. apply lor_bit0.
  - intros Z0. rewrite wr_same, Z.shiftr_lor. change (Z.shiftr MCE_CR_GLOCK MCE_CR_CIPHERSEL_OFF) with 0.
    rewrite Z.lor_0_r, R4, R3 by (unfold MCE_REGCR; lia). apply C2. by rewrite P1.
  - intros per' r D. rewrite wr_other, R4, R3, R2, R1 by (by left). done.
Qed.
End ready.

(** The granularity of a region is that of its mode. *)
Lemma granularity_ready `{Mce W} (R : W -> Z -> Z -> Z) (HW : Mce_hw R) d1 d2 d3 d4 dev reg v mode w :
  let per := mce_getMceForDevice d1 d2 d3 d4 dev in
  per < mce_count -> 0 <= reg < mce_regcount -> 1 <= mode <= 3 -> R w per (MCE_REGCR reg) = region_cfg v mode ->
  mce_getGranularity d1 d2 d3 d4 dev reg w = (if mode =? MCE_MODE_STREAM then 0 else 16, w).
Proof.
  intros per P G M E. unfold mce_getGranularity. fold per. unfold mce_count, mce_regcount in *.
  replace ((4 <=? per) || (reg <? 0) || (4 <=? reg)) with false
    by (symmetry; rewrite !orb_false_iff, Z.ltb_ge, !Z.leb_gt; lia).
  rewrite (rd_plain R HW), E by (unfold MCE_REGCR, mce_sr, mce_cc1cfgr, mce_cc2cfgr; lia).
  destruct (region_cfg_fields v mode M) as (-> & _ & F). change MCE_MODE_MASK with 3. rewrite F.
  assert (mode = 1 \/ mode = 2 \/ mode = 3) as [-> | [-> | ->]] by lia; reflexivity.
Qed.

(** A region is only bound to a context of its mode. *)
Lemma region_needs_context `{Mce W} (R : W -> Z -> Z -> Z) (HW : Mce_hw R) per reg mode first last_ w :
  Z.land (Z.shiftr (R w per mce_cc1cfgr) 4) 3 <> mode ->
  mce_configureRegionInternal per reg mode 1 first last_ w = (- EINVAL, w).
Proof.
  intros N. unfold mce_configureRegionInternal. change (1 =? 0) with false. change (1 =? 1) with true.
  cbn [negb andb]. rewrite andb_false_r. cbv iota. change (MCE_CCCFGR 1) with mce_cc1cfgr. rewrite (rd_cfg R HW).
  change MCE_CCCFGR_MODE_OFF with 4. change MCE_MODE_MASK with 3. rewrite cfg_mode.
  by apply Z.eqb_neq in N as ->.
Qed.

(** Storing a key of 32 bytes runs out of [obfuscation]. *)
Lemma storeKey_overruns `{Mce W} k per reg key (i : nat) crc w :
  (4 < i + k)%nat -> (i <= 4)%nat -> storeKey_loop k per reg key (Z.of_nat i) crc w = None.
Proof.
  revert i crc w. induction k as [|k IH]; intros i crc w L U; [lia|]. cbn [storeKey_loop].
  destruct (load32 key _) as [v|]; [|reflexivity]. cbn [mbind option_bind]. rewrite Nat2Z.id.
  destruct (obfuscation !! i) as [o|] eqn:O; [|reflexivity]. cbn [mbind option_bind].
  apply lookup_lt_Some in O. cbn in O. replace (Z.of_nat i + 1) with (Z.of_nat (S i)) by lia. apply IH; lia.
Qed.

Lemma long_key_faults `{Mce W} per reg key w : mce_storeKey per reg key 32 w = None.
Proof. apply (storeKey_overruns 8 per reg key 0); lia. Qed.

(** ** An engine *)

Module mce_bench.

(** Registers that answer as the manual says. *)
Definition regs := Z -> Z -> Z.
Definition rd (per r : Z) (w : regs) : Z * regs :=
  (if r =? mce_cc1cfgr then cfg_read (w per mce_cc1cfgr) (key_check (map (fun i => w per (mce_cc1keyr0 + i)) (seqZ 0 4)))
   else w per r, w).
Definition wr (per r v : Z) (w : regs) : regs :=
  fun per' r' => if (per' =? per) && (r' =? r) then v else w per' r'.

#[export] Instance regs_mce : Mce regs := { mce_rd := rd; mce_wr := wr }.

Lemma regs_hw : Mce_hw (fun w : regs => w).
Proof.
  split.
  - intros per r w _ N%Z.eqb_neq _. unfold mce_rd, regs_mce, rd. by rewrite N.
  - reflexivity.
  - reflexivity.
Qed.

Definition key : list Z := seqZ 1 16.

(** A region of 64 KiB in the block mode; the second engine is device 11. *)
Definition request : memcrypt_args :=
  mk_memcrypt_args 0x10000 0x20000 DEV_MEMCRYPT_ALGO_AES128 MCE_MODE_NBLOCK (Some key) None 0.

Lemma request_fits : request_ok (fun w : regs => w) (fun _ w => w) 11 1 0 MCE_CIPHER_AES128 request key (empty, fun _ _ => 0).
Proof.
  split; try (vm_compute; intuition congruence).
  split; [reflexivity|]. split; [|by vm_compute]. apply (bool_decide_unpack _). by vm_compute.
Qed.

Lemma request_granted :
  exists st', mce_configureRegion 10 11 12 13 (fun _ w => w) 1 11 0 request (empty, (fun _ _ => 0) : regs) = Some (EOK, st') /\
    st'.2 1 (MCE_SADDR 0) = 0x70010000 /\ st'.2 1 (MCE_EADDR 0) = 0x7001ffff /\ st'.2 1 (mce_cc1keyr0 + 3) = 0x100f0e0d.
Proof.
  destruct (mce_configureRegion_ready (fun w : regs => w) regs_hw 10 11 12 13 (fun _ w => w) 1 11 0 MCE_CIPHER_AES128 request key
    (empty, fun _ _ => 0) request_fits ltac:(lia)) as (st' & E & S & D & _ & K & _).
  exists st'. split; [exact E|]. split; [exact S|]. split; [exact D|]. apply (K 3). lia.
Qed.

(** A key of 32 bytes is not stored even when the engine has none. *)
Definition long_request : memcrypt_args :=
  mk_memcrypt_args 0x10000 0x20000 DEV_MEMCRYPT_ALGO_AES256 MCE_MODE_NBLOCK (Some (seqZ 1 32)) None 0.

Lemma long_request_faults :
  mce_configureRegion 10 11 12 13 (fun _ w => w) 100 11 0 long_request (empty, (fun _ _ => 0) : regs) = None.
Proof. by vm_compute. Qed.

End mce_bench.
